(* ===== verification/_CoqProject ===== *)
-Q . S2P
Prelude.v
Doubles.v
Types.v
Json.v
BlockAllocator.v
Scheduler.v
SchedulerInv.v
SchedulerPlan.v
SchedulerStep.v
SchedulerLive.v
SchedulerText.v
SchedulerStream.v
SchedulerTheorems.v
ModelConfig.v
GemmConfig.v
Gemm.v
GemmServe.v
GemmReport.v
HalfFloat.v
Uploader.v
Safetensors.v
SafetensorsIndex.v
SafetensorsFormat.v
Weights.v
WeightsLoad.v
Config.v
KvPool.v
EmbedGather.v
Argmax.v
DeviceMath.v
SiluMul.v
Rope.v
Reduce.v
RealMath.v
RmsNorm.v
PrefillSoftmax.v
PagedAttention.v
PagedAttentionRef.v
PagedAttentionTheorems.v
PagedAttentionExact.v
ExecutorLayout.v
ExecutorMirrors.v
Launches.v
Executor.v
ExecutorInit.v
ExecutorSteps.v
ExecutorWarm.v
KernelDevice.v
KernelDecode.v
KernelIsolation.v
KernelPrefill.v
KernelExecutor.v
KernelGeneration.v
ExecutorDump.v
Engine.v
EngineSteps.v
EngineFaults.v
EngineSystem.v
EngineClient.v
EngineBoot.v
Binding.v
Workload.v
BenchCli.v
BenchStats.v
BenchRun.v
BenchTheorems.v
