(* ===== verification/Prelude.v ===== *)
(** * Redline: a verification library for the LLM inference engine of src/src/

    Redline serves one pinned checkpoint (Qwen2.5-1.5B) on one CUDA device with
    continuous batching over a paged KV cache.  The program, bottom up: a loader
    that reads configuration and weights into one device slab; CUDA kernels and
    a cuBLASLt wrapper; a model executor that owns device memory, stages the
    inputs of a step, launches it and captures decode CUDA graphs; a block
    allocator and a scheduler that are pure host code; an engine that drives
    scheduler and executor one step at a time; and a Python module over it.  This library translates that
    C++ and CUDA code into executable definitions and proves what makes it
    correct.

    ** How the code is represented

    - A method that mutates its object or may throw is a computation in the
      monad [M E S A] of this file: an outcome with the state it leaves, kept on
      errors as the C++ object keeps it.  A failed debug [assert], an access the
      C++ standard leaves undefined and a signed overflow are errors too, so
      "never fails" includes them.
    - [wp m Q s] says that [m] returns from [s] with [Q]; [wpx m Q R s] allows
      exceptions that satisfy [R].  Both have structural rules, applied by the
      tactics of this file; they are plain functions of the run, not axioms.
    - Integers are [Z]; [u64], [to_int32] and the explicit range checks give them
      their C++ width.  The memory plan, whose options nobody bounds, is computed
      with [signed32] and [signed64], which stop at an overflow; [computes] says
      that such code gives the exact number unless it overflows.  Binary64 is the
      standard library's [SpecFloat].
    - [std::shared_ptr<Request>] is a pointer into a heap that the queues, the
      plans and the engine's map share.
    - The device is an issue-ordered queue that may run ahead of or behind the
      host by any schedule [dma]; a copy reads pinned memory when it runs.

    ** Files, and the code they model

    - Prelude, Doubles, Types: the monad and shared lemmas; binary64;
      core/types.hpp, core/request.hpp, core/block_table.hpp.
    - BlockAllocator: core/block_allocator.{hpp,cpp}.  The class [KvAllocator] with
      [KvAllocatorLaws] is what the scheduler relies on.
    - Scheduler: core/scheduler.{hpp,cpp}, one definition per member function.
      SchedulerInv (invariant, symbolic execution), SchedulerPlan ([PlanStep]),
      SchedulerStep ([CompleteStep]), SchedulerLive (progress and measure),
      SchedulerText (what happens to each request), SchedulerStream (what a step
      reports), SchedulerTheorems (results).
    - ModelConfig, Config: core/config.{hpp,cpp}.  Json: the JSON values the
      readers see.
    - Safetensors, SafetensorsIndex, SafetensorsFormat:
      loader/safetensors.{hpp,cpp}.
    - Weights, WeightsLoad: loader/weights.{hpp,cpp}.
    - HalfFloat, Uploader: loader/convert.{hpp,cpp}.
    - GemmConfig, Gemm, GemmServe, GemmReport (the JSON report, with a reference
      reader): gemm/cublaslt_gemm.{hpp,cpp}.
    - KvPool, EmbedGather, Argmax: kernels/kv_scatter.cu, kv_gather.cu,
      embed_gather.cu, argmax.cu.
    - DeviceMath: the class [FloatOps] of float and half operations the
      floating-point kernels are defined over, its IEEE instance, and runs of a
      grid in any order.  Reduce: the reduction trees.  RealMath: the exact
      instance on real numbers.
    - SiluMul, Rope, RmsNorm, PrefillSoftmax: kernels/silu_mul.cu, rope.cu,
      rmsnorm.cu, prefill_attention.cu.
    - PagedAttention: kernels/paged_attention.cu, the decode kernel with its
      staging pipeline and the test oracle.  PagedAttentionRef (what a block
      computes, as an online softmax over the tiles), PagedAttentionTheorems
      (the grid, on any arithmetic), PagedAttentionExact (in exact arithmetic).
    - ExecutorLayout, ExecutorMirrors, Launches (also kernels/kernels.cuh),
      Executor: core/model_executor.{hpp,cpp}.  ExecutorInit (construction and
      its failures), ExecutorSteps (steps on a working device), ExecutorWarm
      (construction on a working device, the theorems about steps), ExecutorDump
      (the layer-0 activation dump).
    - The executor's device made of the kernels: KernelDevice (a launch is its
      kernel's launcher on one memory), KernelDecode (what each launch of a step
      leaves), KernelIsolation (two runs of a step side by side; a decode step),
      KernelPrefill (a prompt chunk), KernelExecutor ([DecodeEager] and
      [DecodeGraph] on that device), KernelGeneration ([PrefillChunk], and a
      request's whole life).
    - Engine: core/engine.{hpp,cpp}, over any [StepExecutor].  EngineSteps proves
      it against [StepExecutorLaws]; EngineFaults against an executor about
      which only the shape of results is known; EngineSystem instantiates it
      with the model executor and the allocator above; EngineClient restates
      intake and step for callers that know requests by id; EngineBoot is the
      constructor from a model directory to a serving engine, with every
      resource it holds on the way.
    - Binding: api/pybind.cpp, the engine as Python sees it.
    - Workload (token stream), BenchCli (command line), BenchStats (traces and
      metrics), BenchRun (warm-up, measured loop, gate, exit status),
      BenchTheorems: bench_main.cpp, a client of the engine.

    ** What the theorems show

    - The whole engine ([EngineSystem], [EngineFaults], [EngineBoot]): from any
      directory, whichever runtime calls fail, it either comes up, with the
      configuration the directory states and every weight resident, or gives
      back what it acquired and names the fault (two leaks of the code are
      stated); a good directory boots, with exactly the budgeted pool; on a
      working device no step ever fails, every step keeps the invariant across
      scheduler, allocator, request table, executor and graphs and counts what
      it ran, and every request added finishes; a request is admitted or
      refused exactly as documented and a refusal changes nothing; what a step
      reports to its caller is what happened to each request; an executor
      exception loses nothing but the reports of requests the plan aborted.
    - Python module ([Binding]): which exception construction raises for which
      cause, with everything given back, and the two kinds of options that end
      in an assertion or an overflow instead; in any session ids are handed out in
      order, a refused request raises and changes nothing, a step never raises
      and tells of ids in flight only, each finished once, aborts first; enough
      steps finish every id.
    - Scheduler: no assertion, overflow or exhausted loop in any reachable world;
      blocks and promises are conserved; full reservation never aborts; watermark
      aborts the youngest; admission is first come first served; the effect of a
      step on each request, on every branch.  The allocator refines a pool of
      ids and promises.
    - Executor: slab regions are disjoint and the budget is what construction
      allocates, unless a size leaves its integer type; the mirrors hold exactly the batch and its padding; every launch
      stays in its buffers and reads nothing stale; construction returns or
      releases everything; a graph replay equals an eager step; the layer-0 dump
      holds the input norm, the projection before the rotation, the attention
      output before its norm and the MLP output of layer 0, and does not disturb
      the chunk.
    - cuBLASLt: the column-major calls compute the row-major products, with scale
      and bias, and write every element of the output once and nothing else; a
      cached plan always belongs to its key; a call reaches the library exactly
      when its plan is available and its bias accepted, and no library query
      happens during capture; the JSON report reads back as the wrapper's state,
      byte for byte, and is what a strict reader accepts when the names are UTF-8.
    - Loader: configuration is accepted exactly when pinned; opening a
      safetensors file is sound, complete and leak free, with the one malformed
      header the reader lets through stated, and reads back what a writer
      stored; a model directory is consistent; the weight entries tile
      the slab; BF16 to FP16 is correctly rounded; the staged upload delivers the
      converted elements under every copy schedule; on a runtime that fails
      somewhere the load does what it does on a working one until then, and
      frees the slab.
    - Benchmark driver: a command line is accepted exactly when it says what the
      options then hold, every value in range, and a printed one parses back; the
      percentile rule never leaves its vector however the rounding goes; a run
      over a directory that boots terminates, serves every request in full,
      passes its own gate and exits by what became of its JSON file.
    - Kernels: scatter then gather is the identity on the pool; the embedding
      gather copies rows on every tier; argmax is the leftmost maximum with NaN
      never winning.
    - Floating-point kernels, on any arithmetic and under every order of blocks
      and threads: SiLU, rotary embedding, RMS norm and attention store, bit for
      bit, one documented expression of the memory before the launch, and touch
      nothing else; which tier, block size or pipeline ran does not show (for RMS
      norm the block size fixes the order of the sum, a function of the row
      alone), nor do the contents of masked scores, of unused pool slots or of
      shared memory.  In exact arithmetic the row total is the sum of squares, the
      prefill softmax is the causal softmax, and the paged-attention kernel and
      its oracle both compute softmax attention.

    - The executor on the kernels ([KernelExecutor], [KernelGeneration]): what a
      request decodes is isolated.  Its next token, and the keys and values it
      adds to its cache, are the same in any two batches of one row count, on any
      two executors, in graph replay or eager steps, wherever its blocks lie,
      whatever other rows, stale buffers and unused slots hold, under any
      schedule.  So are the tokens of its whole life, from the first chunk of its
      prompt on: they are a function of the prompt, the weights and the shapes of
      the launches that serve it.

    ** Fuel and measures

    Loops of the scheduler run with fuel read off the state (one more than the
    length of the queue they consume, or the end of the chunk they cover); the
    invariant proofs show that the fuel error is unreachable.  Draining the
    engine takes at most [total_work] steps, a measure each step decreases (for a
    Python driver: the prompt and budget tokens of its requests).  The
    benchmark's measured loop has one iteration of fuel per unit of work of its
    requests and one to leave; its submission loop one per request.

    ** Parameters

    The CUDA runtime (which call fails; for the executor, what a launch computes),
    the device's [expf], [rsqrtf], [sincosf] and the host's [pow], cuBLASLt
    ([LtLibrary]), the JSON parser ([JsonReader]), the file system, the iteration
    order of [std::unordered_map], the allocation of fresh pointers, the copy
    engine's timing, the clock, [strtod], [std::to_chars], the JSON library's
    printer, the benchmark's output file ([JsonOut]) and pybind11's exception
    translators ([Translation]).  What is
    assumed of them is a named hypothesis of the theorem concerned ([working],
    [lt_serves], [products_local], [reader_ok], ...), and each is instantiated
    by a concrete function in a witness.

    ** Not modelled

    - The vendor library's arithmetic: of a product only which operand elements an
      element depends on is assumed ([products_local]), so steps of different row
      counts and chunks of different bounds, for which the library may choose
      different algorithms, are not compared.  Rounding error against exact
      arithmetic is not bounded.
    - The activation dump's copies of device memory run on any device, not on the
      kernel models.
    - The tests.
    - In the Python module, pybind11's conversion of Python objects to C++ values
      and the release of the interpreter lock.
    - Logging, NVTX ranges, the texts of messages; of the benchmark driver the
      printed reports, the layout of the JSON document and the profiler hooks.
    - The offsets and extents of a step's launches are numbers of [Z]; the widths
      and sizes they are made of are checked when the executor is built. *)

From Stdlib Require Export ZArith Lia.
From stdpp Require Export base tactics numbers list gmap strings.

#[global] Open Scope Z_scope.

(** ** Outcomes and the error-and-state monad

    C++ methods mutate an object and may leave by an exception (or by a failed
    [assert] of a debug build).  A computation therefore returns its outcome
    together with the state it leaves behind: the state survives an error, as
    the C++ object does. *)

Inductive outcome (E A : Type) : Type :=
  | Ok (a : A)
  | Err (e : E).
Arguments Ok {E A} a.
Arguments Err {E A} e.

Definition M (E S A : Type) : Type := S → outcome E A * S.

#[export] Instance M_ret {E S} : MRet (M E S) := λ A a s, (Ok a, s).
#[export] Instance M_bind {E S} : MBind (M E S) := λ A B f m s,
  match m s with
  | (Ok a, s') => f a s'
  | (Err e, s') => (Err e, s')
  end.

(** Pure computations that may fail. *)
#[export] Instance outcome_ret {E} : MRet (outcome E) := λ A a, Ok a.
#[export] Instance outcome_bind {E} : MBind (outcome E) := λ A B f x, match x with Ok a => f a | Err e => Err e end.

(** The largest [std::int64_t]. *)
Definition int64_max : Z := 2 ^ 63 - 1.

Definition get {E S} : M E S S := λ s, (Ok s, s).
Definition put {E S} (s' : S) : M E S () := λ _, (Ok (), s').
Definition gets {E S A} (f : S → A) : M E S A := λ s, (Ok (f s), s).
Definition modify {E S} (f : S → S) : M E S () := λ s, (Ok (), f s).
Definition throw {E S A} (e : E) : M E S A := λ s, (Err e, s).

(** [assert(cond)] of a debug build: abort with [e] when the condition is false. *)
Definition assert_ {E S} (e : E) (b : bool) : M E S () :=
  if b then mret () else throw e.

(** A pure computation inside a stateful one. *)
Definition lift {E S A} (x : outcome E A) : M E S A := match x with Ok a => mret a | Err e => throw e end.

(** An optional value whose absence is an error. *)
Definition from_option_or {E S A} (e : E) (o : option A) : M E S A :=
  match o with Some a => mret a | None => throw e end.

(** Run a computation on a component of the state. *)
Definition zoom {E S T A} (view : S → T) (update : T → S → S) (m : M E T A) : M E S A :=
  λ s, match m (view s) with (r, t) => (r, update t s) end.

(** A loop with fuel: the body either asks for another iteration ([inl]) or
    leaves the loop with a result ([inr]).  [oof] is the error of a loop that
    runs out of fuel; the loop rule below shows that a measure bounded by the
    fuel makes it unreachable. *)
Fixpoint loop {E S X R} (oof : E) (fuel : nat) (body : X → M E S (X + R)) (x : X) : M E S R :=
  match fuel with
  | O => throw oof
  | Datatypes.S n =>
      body x ≫= λ r, match r with inl x' => loop oof n body x' | inr res => mret res end
  end.

(** ** Weakest preconditions: total correctness without an error *)

Definition wp {E S A} (m : M E S A) (Q : A → S → Prop) (s : S) : Prop :=
  match m s with
  | (Ok a, s') => Q a s'
  | (Err _, _) => False
  end.

Section wp_rules.
Context {E S : Type}.
Implicit Types s : S.

Lemma wp_ret {A} (a : A) (Q : A → S → Prop) s : Q a s → wp (E:=E) (mret a) Q s.
Proof. done. Qed.

Lemma wp_bind {A B} (m : M E S A) (f : A → M E S B) Q s :
  wp m (λ a s', wp (f a) Q s') s → wp (m ≫= f) Q s.
Proof. unfold wp, mbind, M_bind. by destruct (m s) as [[] ?]. Qed.

Lemma wp_bind_inv {A B} (m : M E S A) (f : A → M E S B) Q s :
  wp (m ≫= f) Q s → wp m (λ a s', wp (f a) Q s') s.
Proof. unfold wp, mbind, M_bind. by destruct (m s) as [[] ?]. Qed.

Lemma wp_mono {A} (m : M E S A) (Q Q' : A → S → Prop) s :
  wp m Q s → (∀ a s', Q a s' → Q' a s') → wp m Q' s.
Proof. unfold wp. destruct (m s) as [[] ?]; naive_solver. Qed.

Lemma wp_and {A} (m : M E S A) (Q Q' : A → S → Prop) s :
  wp m Q s → wp m Q' s → wp m (λ a s', Q a s' ∧ Q' a s') s.
Proof. unfold wp. destruct (m s) as [[] ?]; naive_solver. Qed.

Lemma wp_get (Q : S → S → Prop) s : Q s s → wp (E:=E) get Q s.
Proof. done. Qed.

Lemma wp_gets {A} (f : S → A) (Q : A → S → Prop) s : Q (f s) s → wp (E:=E) (gets f) Q s.
Proof. done. Qed.

Lemma wp_modify (f : S → S) (Q : () → S → Prop) s : Q () (f s) → wp (E:=E) (modify f) Q s.
Proof. done. Qed.

Lemma wp_put s' (Q : () → S → Prop) s : Q () s' → wp (E:=E) (put s') Q s.
Proof. done. Qed.

Lemma wp_assert (e : E) (b : bool) (Q : () → S → Prop) s :
  b = true → Q () s → wp (assert_ e b) Q s.
Proof. by intros ->. Qed.

Lemma wp_from_option {A} (e : E) (o : option A) a (Q : A → S → Prop) s :
  o = Some a → Q a s → wp (from_option_or e o) Q s.
Proof. by intros ->. Qed.

Lemma wp_zoom {T A} (view : S → T) (update : T → S → S) (m : M E T A) Q s :
  wp m (λ a t, Q a (update t s)) (view s) → wp (zoom view update m) Q s.
Proof. unfold wp, zoom. by destruct (m (view s)) as [[] ?]. Qed.

(** A successful run is the same as a weakest precondition of its own result. *)
Lemma wp_run {A} (m : M E S A) (Q : A → S → Prop) s :
  wp m Q s ↔ ∃ a s', m s = (Ok a, s') ∧ Q a s'.
Proof.
  unfold wp. destruct (m s) as [[a|e] s']; split.
  - eauto.
  - intros (?&?&?&?); simplify_eq; done.
  - done.
  - intros (?&?&?&?); simplify_eq.
Qed.

Lemma wp_eq {A} (m : M E S A) (Q : A → S → Prop) s a s' : m s = (Ok a, s') → Q a s' → wp m Q s.
Proof. unfold wp. by intros ->. Qed.

(** The loop rule: an invariant, and a measure that every further iteration
    decreases and the fuel bounds. *)
Lemma wp_loop {X R} (oof : E) (I : X → S → Prop) (measure : X → S → nat)
    (body : X → M E S (X + R)) (Q : R → S → Prop) :
  (∀ x s, I x s →
    wp (body x) (λ r s', match r with
                         | inl x' => I x' s' ∧ (measure x' s' < measure x s)%nat
                         | inr res => Q res s'
                         end) s) →
  ∀ fuel x s, I x s → (measure x s < fuel)%nat → wp (loop oof fuel body x) Q s.
Proof.
  intros Hbody fuel. induction fuel as [|fuel IH]; intros x s HI Hlt; [lia|].
  cbn [loop]. apply wp_bind. eapply wp_mono; [by apply Hbody|].
  intros [x'|res] s'; [|done]. intros [HI' ?]. apply IH; [done|lia].
Qed.

End wp_rules.

(** ** The same with a postcondition for errors

    For statements about every outcome: what holds after a normal return and
    what holds of the state an exception leaves behind. *)

Definition wpx {E S A} (m : M E S A) (Q : A → S → Prop) (R : E → S → Prop) (s : S) : Prop :=
  match m s with
  | (Ok a, s') => Q a s'
  | (Err e, s') => R e s'
  end.

Section wpx_rules.
Context {E S : Type}.
Implicit Types s : S.

Lemma wpx_ret {A} (a : A) (Q : A → S → Prop) (R : E → S → Prop) s : Q a s → wpx (mret a) Q R s.
Proof. done. Qed.

Lemma wpx_throw {A} e (Q : A → S → Prop) (R : E → S → Prop) s : R e s → wpx (throw e) Q R s.
Proof. done. Qed.

Lemma wpx_bind {A B} (m : M E S A) (f : A → M E S B) Q R s :
  wpx m (λ a s', wpx (f a) Q R s') R s → wpx (m ≫= f) Q R s.
Proof. unfold wpx, mbind, M_bind. by destruct (m s) as [[] ?]. Qed.

Lemma wpx_mono {A} (m : M E S A) (Q Q' : A → S → Prop) (R R' : E → S → Prop) s :
  wpx m Q R s → (∀ a s', Q a s' → Q' a s') → (∀ e s', R e s' → R' e s') → wpx m Q' R' s.
Proof. unfold wpx. destruct (m s) as [[] ?]; naive_solver. Qed.

Lemma wpx_get (Q : S → S → Prop) (R : E → S → Prop) s : Q s s → wpx get Q R s.
Proof. done. Qed.

Lemma wpx_gets {A} (f : S → A) (Q : A → S → Prop) (R : E → S → Prop) s : Q (f s) s → wpx (gets f) Q R s.
Proof. done. Qed.

Lemma wpx_modify (f : S → S) (Q : () → S → Prop) (R : E → S → Prop) s : Q () (f s) → wpx (modify f) Q R s.
Proof. done. Qed.

Lemma wpx_put s' (Q : () → S → Prop) (R : E → S → Prop) s : Q () s' → wpx (put s') Q R s.
Proof. done. Qed.

Lemma wpx_assert (e : E) (b : bool) (Q : () → S → Prop) (R : E → S → Prop) s :
  (b = true → Q () s) → (b = false → R e s) → wpx (assert_ e b) Q R s.
Proof. destruct b; naive_solver. Qed.

Lemma wpx_from_option {A} (e : E) (o : option A) (Q : A → S → Prop) (R : E → S → Prop) s :
  (∀ a, o = Some a → Q a s) → (o = None → R e s) → wpx (from_option_or e o) Q R s.
Proof. destruct o; naive_solver. Qed.

Lemma wpx_run {A} (m : M E S A) Q R s x s' :
  wpx m Q R s → m s = (x, s') → match x with Ok a => Q a s' | Err e => R e s' end.
Proof. unfold wpx. by intros Hm Heq; rewrite Heq in Hm; destruct x. Qed.

Lemma wpx_of_wp {A} (m : M E S A) (Q : A → S → Prop) R s : wp m Q s → wpx m Q R s.
Proof. unfold wp, wpx. by destruct (m s) as [[] ?]. Qed.

Lemma wpx_and {A} (m : M E S A) (Q Q' : A → S → Prop) (R R' : E → S → Prop) s :
  wpx m Q R s → wpx m Q' R' s → wpx m (λ a s', Q a s' ∧ Q' a s') (λ e s', R e s' ∧ R' e s') s.
Proof. unfold wpx. by destruct (m s) as [[] ?]. Qed.

Lemma wpx_zoom {T A} (view : S → T) (update : T → S → S) (m : M E T A) Q R s :
  wpx m (λ a t, Q a (update t s)) (λ e t, R e (update t s)) (view s) → wpx (zoom view update m) Q R s.
Proof. unfold wpx, zoom. by destruct (m (view s)) as [[] ?]. Qed.

Lemma wpx_eq {A} (m : M E S A) Q R s x s' :
  m s = (x, s') → (match x with Ok a => Q a s' | Err e => R e s' end) → wpx m Q R s.
Proof. unfold wpx. intros ->. by destruct x. Qed.

Lemma wpx_loop {X L} (oof : E) (I : X → S → Prop) (measure : X → S → nat)
    (body : X → M E S (X + L)) (Q : L → S → Prop) (R : E → S → Prop) :
  (∀ x s, I x s →
    wpx (body x) (λ r s', match r with
                          | inl x' => I x' s' ∧ (measure x' s' < measure x s)%nat
                          | inr res => Q res s'
                          end) R s) →
  ∀ fuel x s, I x s → (measure x s < fuel)%nat → wpx (loop oof fuel body x) Q R s.
Proof.
  intros Hbody fuel. induction fuel as [|fuel IH]; intros x s HI Hlt; [lia|].
  cbn [loop]. apply wpx_bind. eapply wpx_mono; [by apply Hbody| |done].
  intros [x'|res] s'; [|done]. intros [HI' ?]. apply IH; [done|lia].
Qed.

End wpx_rules.

(** ** Runs that agree until a fault

    [m] does what [m'] does, in result and state, except that it may stop with
    an error that satisfies [fault]. *)

Definition follows {E S A} (fault : E → Prop) (m m' : M E S A) : Prop :=
  ∀ s, match m s with
       | (Ok a, s') => m' s = (Ok a, s')
       | (Err e, _) => fault e ∨ ∃ s', m' s = (Err e, s')
       end.

Section follows.
Context {E S : Type} (fault : E → Prop).

Lemma follows_refl {A} (m : M E S A) : follows fault m m.
Proof. intros s. destruct (m s) as [[] ?]; [done|]. right. by eexists. Qed.

Lemma follows_bind {A B} (m m' : M E S A) (f f' : A → M E S B) :
  follows fault m m' → (∀ a, follows fault (f a) (f' a)) → follows fault (m ≫= f) (m' ≫= f').
Proof.
  intros Hm Hf s. unfold mbind, M_bind. specialize (Hm s). destruct (m s) as [[a|e] s1].
  - rewrite Hm. apply Hf.
  - destruct Hm as [?|[s2 ->]]; [by left|right]. by eexists.
Qed.

Lemma follows_loop {X R} (oof : E) (body body' : X → M E S (X + R)) fuel : (∀ x, follows fault (body x) (body' x)) →
  ∀ x, follows fault (loop oof fuel body x) (loop oof fuel body' x).
Proof.
  intros Hb. induction fuel as [|fuel IH]; intros x; [apply follows_refl|]. cbn [loop].
  apply follows_bind; [apply Hb|]. intros [x'|r]; [apply IH|apply follows_refl].
Qed.

End follows.

Ltac wpx_step :=
  lazymatch goal with
  | |- wpx (_ ≫= _) _ _ _ => apply wpx_bind
  | |- wpx (mret _) _ _ _ => apply wpx_ret
  | |- wpx (throw _) _ _ _ => apply wpx_throw
  | |- wpx get _ _ _ => apply wpx_get
  | |- wpx (gets _) _ _ _ => apply wpx_gets
  | |- wpx (modify _) _ _ _ => apply wpx_modify
  | |- wpx (put _) _ _ _ => apply wpx_put
  end.
Ltac wpx_auto := repeat (wpx_step; cbv beta).

(** One symbolic-execution step; [wp_auto] repeats it. *)
Ltac wp_step :=
  lazymatch goal with
  | |- wp (_ ≫= _) _ _ => apply wp_bind
  | |- wp (mret _) _ _ => apply wp_ret
  | |- wp get _ _ => apply wp_get
  | |- wp (gets _) _ _ => apply wp_gets
  | |- wp (modify _) _ _ => apply wp_modify
  | |- wp (put _) _ _ => apply wp_put
  | |- wp (zoom _ _ _) _ _ => apply wp_zoom
  end.
Ltac wp_auto := repeat (wp_step; cbv beta).

(** ** Sums over lists *)

Definition sumZ (l : list Z) : Z := foldr Z.add 0 l.

Lemma sumZ_nil : sumZ [] = 0.
Proof. done. Qed.

Lemma sumZ_cons x l : sumZ (x :: l) = x + sumZ l.
Proof. done. Qed.

Lemma sumZ_app l k : sumZ (l ++ k) = sumZ l + sumZ k.
Proof. induction l as [|x l IH]; [done|]. cbn [app]. rewrite !sumZ_cons, IH. lia. Qed.

#[export] Instance sumZ_proper : Proper ((≡ₚ) ==> (=)) sumZ.
Proof. intros l k H. induction H; rewrite ?sumZ_cons; lia. Qed.

Lemma sumZ_nonneg l : Forall (λ x, 0 <= x) l → 0 <= sumZ l.
Proof. induction 1; rewrite ?sumZ_cons, ?sumZ_nil; lia. Qed.

Lemma sumZ_le l : ∀ x, Forall (λ x, 0 <= x) l → x ∈ l → x <= sumZ l.
Proof.
  induction l as [|y l IH]; intros x Hl Hx; [by apply not_elem_of_nil in Hx|].
  apply Forall_cons in Hl as [Hy Hl]. rewrite sumZ_cons.
  apply elem_of_cons in Hx as [->|Hx].
  - pose proof (sumZ_nonneg l Hl). lia.
  - specialize (IH x Hl Hx). lia.
Qed.

(** ** Vectors used as stacks: [back] and [pop_back] *)

Definition back {A} (l : list A) : option A := last l.
Definition pop_back {A} (l : list A) : list A := List.removelast l.

Lemma pop_back_snoc {A} (l : list A) x : pop_back (l ++ [x]) = l.
Proof. apply List.removelast_last. Qed.

Lemma back_snoc {A} (l : list A) x : back (l ++ [x]) = Some x.
Proof. apply last_snoc. Qed.

Lemma back_Some {A} (l : list A) x : back l = Some x ↔ l = pop_back l ++ [x].
Proof.
  unfold back, pop_back. split.
  - destruct l as [|y l'] using rev_ind; [done|].
    rewrite last_snoc, List.removelast_last. by intros [= ->].
  - intros ->. apply last_snoc.
Qed.

Lemma back_is_Some {A} (l : list A) : l ≠ [] → is_Some (back l).
Proof. destruct l as [|y l'] using rev_ind; [done|]. rewrite back_snoc. eauto. Qed.

(** The empty-vector test of the C++ code. *)
Definition is_nil {A} (l : list A) : bool := match l with [] => true | _ => false end.

Lemma is_nil_true {A} (l : list A) : is_nil l = true ↔ l = [].
Proof. by destruct l. Qed.

Lemma is_nil_false {A} (l : list A) : is_nil l = false ↔ l ≠ [].
Proof. by destruct l. Qed.

(** [vector::size] as an integer. *)
Definition zlen {A} (l : list A) : Z := Z.of_nat (length l).

Lemma zlen_nonneg {A} (l : list A) : 0 <= zlen l.
Proof. unfold zlen. lia. Qed.

Lemma zlen_app {A} (l k : list A) : zlen (l ++ k) = zlen l + zlen k.
Proof. unfold zlen. rewrite length_app. lia. Qed.

Lemma zlen_cons {A} (x : A) l : zlen (x :: l) = 1 + zlen l.
Proof. unfold zlen. cbn [length]. lia. Qed.

Lemma zlen_nil {A} : zlen (@nil A) = 0.
Proof. done. Qed.

#[export] Instance zlen_proper {A} : Proper ((≡ₚ) ==> (=)) (@zlen A).
Proof. intros l k H. unfold zlen. by rewrite H. Qed.

Create HintDb zlen.
#[export] Hint Rewrite @zlen_app @zlen_cons : zlen.
Ltac zlen := autorewrite with zlen in *; repeat change (zlen (@nil _)) with 0 in *.

(** ** Ceiling division and alignment, as the code writes them *)

Lemma ceil_div_spec n d : 0 < d → 0 <= n →
  let q := (n + d - 1) / d in q * d >= n ∧ (q - 1) * d < n.
Proof.
  intros Hd Hn. cbn zeta.
  pose proof (Z.div_mod (n + d - 1) d ltac:(lia)).
  pose proof (Z.mod_pos_bound (n + d - 1) d Hd). nia.
Qed.

(** Generic lemmas on [bool] reflection used by every executable guard. *)
Create HintDb zbool.
#[export] Hint Rewrite Z.ltb_lt Z.leb_le Z.eqb_eq Z.ltb_ge Z.leb_gt Z.eqb_neq
  andb_true_iff andb_false_iff orb_true_iff orb_false_iff negb_true_iff negb_false_iff : zbool.
Ltac zbool := repeat (rewrite ?Z.gtb_ltb, ?Z.geb_leb in * ); autorewrite with zbool in *.
