(* ===== verification/Doubles.v ===== *)
(** * IEEE-754 binary64 arithmetic, as the watermark policy uses it

    The [double] of the C++ code is the standard library's executable
    specification of binary64 ([SpecFloat] with a 53-bit significand and
    exponents below 1024).  The scheduler converts integers, multiplies by the
    free fraction and compares; this file holds those operations, the facts
    about signs and order that admission control relies on, and the bound on a
    rounded product that the percentile rule and the pool size rely on. *)

From S2P Require Import Prelude.
From Stdlib Require Import SpecFloat.

Definition double : Type := spec_float.

(** [static_cast<double>] of an integer (round to nearest, ties to even). *)
Definition double_of_Z (n : Z) : double := binary_normalize 53 1024 n 0 false.
Definition double_mul (x y : double) : double := SFmul 53 1024 x y.
Definition double_lt (x y : double) : bool := SFltb x y.
(** [x >= y] *)
Definition double_ge (x y : double) : bool := SFleb y x.

(** Not NaN and not below zero: either zero, or with a clear sign bit. *)
Definition double_nonneg (x : double) : Prop :=
  match x with
  | S754_zero _ => True
  | S754_infinity s | S754_finite s _ _ => s = false
  | S754_nan => False
  end.

Definition double_finite_nonneg (x : double) : Prop :=
  match x with
  | S754_zero _ => True
  | S754_finite s _ _ => s = false
  | _ => False
  end.

(** ** Rounding keeps the sign *)

Lemma shr_1_nonneg r : 0 <= shr_m r → 0 <= shr_m (shr_1 r).
Proof. destruct r as [[|[p|p|]|p] ? ?]; cbn; lia. Qed.

Lemma iter_shr_1_nonneg p : ∀ r, 0 <= shr_m r → 0 <= shr_m (iter_pos shr_1 p r).
Proof.
  induction p as [p IH|p IH|]; intros r Hr; cbn [iter_pos].
  - apply IH, IH, shr_1_nonneg, Hr.
  - by apply IH, IH.
  - by apply shr_1_nonneg.
Qed.

Lemma shr_fexp_nonneg prec emax m e l :
  0 <= m → 0 <= shr_m (fst (shr_fexp prec emax m e l)).
Proof.
  intros Hm. assert (0 <= shr_m (shr_record_of_loc m l)) as Hl by by destruct l as [|[]].
  unfold shr_fexp, shr. case_match; cbn [fst]; [done|by apply iter_shr_1_nonneg|done].
Qed.

Lemma round_nearest_even_nonneg m l : 0 <= m → 0 <= round_nearest_even m l.
Proof. destruct l as [|[]]; cbn; [lia|destruct (Z.even m); lia|lia|lia]. Qed.

Lemma binary_round_aux_nonneg prec emax m e l :
  0 <= m → double_nonneg (binary_round_aux prec emax false m e l).
Proof.
  intros Hm. unfold binary_round_aux.
  pose proof (shr_fexp_nonneg prec emax m e l Hm) as H1.
  destruct (shr_fexp prec emax m e l) as [r1 e1]; cbn [fst] in H1.
  pose proof (shr_fexp_nonneg prec emax
    (round_nearest_even (shr_m r1) (loc_of_shr_record r1)) e1 loc_Exact
    (round_nearest_even_nonneg _ _ H1)) as H2.
  destruct (shr_fexp _ _ _ e1 _) as [r2 e2]; cbn [fst] in H2.
  destruct (shr_m r2); [done|by case_match|lia].
Qed.

Lemma double_of_Z_nonneg n : 0 <= n → double_nonneg (double_of_Z n).
Proof.
  intros Hn. unfold double_of_Z, binary_normalize, binary_round.
  destruct n as [|p|p]; [done| |lia].
  destruct (shl_align _ _ _). by apply binary_round_aux_nonneg.
Qed.

Lemma double_mul_nonneg x y :
  double_finite_nonneg x → double_finite_nonneg y → double_nonneg (double_mul x y).
Proof.
  destruct x as [| | |[]], y as [| | |[]]; try done.
  intros _ _. cbn. by apply binary_round_aux_nonneg.
Qed.

(** ** Integers below 2^53 convert exactly *)

Lemma digits2_pos_lower p : (2 ^ (Z.pos (digits2_pos p) - 1) <= Z.pos p)%Z.
Proof.
  induction p as [p IH|p IH|]; cbn [digits2_pos]; [| |done].
  all: replace (Z.pos (Pos.succ (digits2_pos p)) - 1) with (Z.succ (Z.pos (digits2_pos p) - 1)) by lia.
  all: rewrite Z.pow_succ_r by lia; lia.
Qed.

Lemma digits2_pos_le p k : Z.pos p < 2 ^ k → 0 <= k → Z.pos (digits2_pos p) <= k.
Proof.
  intros Hp Hk. pose proof (digits2_pos_lower p) as Hl.
  destruct (Z.le_gt_cases (Z.pos (digits2_pos p)) k) as [|Hgt]; [done|exfalso].
  pose proof (Z.pow_le_mono_r 2 k (Z.pos (digits2_pos p) - 1) ltac:(lia) ltac:(lia)). lia.
Qed.

Lemma digits2_pos_shift p d :
  Z.pos (digits2_pos (Pos.iter xO p d)) = Z.pos (digits2_pos p) + Z.pos d.
Proof.
  induction d as [|d IH] using Pos.peano_ind; [cbn; lia|].
  rewrite Pos.iter_succ. cbn [digits2_pos]. lia.
Qed.

(** The canonical representation of an integer of at most 53 bits. *)
Lemma binary_round_exact s p :
  Z.pos p < 2 ^ 53 → ∃ m e, binary_round 53 1024 s p 0 = S754_finite s m e.
Proof.
  intros Hp. pose proof (digits2_pos_le p 53 Hp ltac:(lia)) as Hd.
  unfold binary_round, shl_align.
  set (dg := Z.pos (digits2_pos p)) in *.
  assert (fexp 53 1024 (dg + 0) = dg - 53) as He by (unfold fexp, emin; lia).
  rewrite He.
  assert (∀ mz ez, Z.pos (digits2_pos mz) + ez = dg → ez = dg - 53 →
    binary_round_aux 53 1024 s (Z.pos mz) ez loc_Exact = S754_finite s mz ez) as Haux.
  { intros mz ez Hmz Hez. unfold binary_round_aux, shr_fexp, Zdigits2.
    rewrite Hmz. assert (fexp 53 1024 dg - ez = 0) as Hz by (unfold fexp, emin; lia).
    rewrite Hz. cbn [shr shr_record_of_loc shr_m loc_of_shr_record round_nearest_even].
    rewrite Hmz, Hz. cbn [shr shr_record_of_loc shr_m].
    by destruct (Z.leb_spec ez (1024 - 53)); [|lia]. }
  destruct (dg - 53 - 0) as [|q|q] eqn:Hq; [|lia|].
  - do 2 eexists. apply Haux; lia.
  - do 2 eexists. apply Haux; [|done]. rewrite digits2_pos_shift. fold dg. lia.
Qed.

Lemma double_of_Z_finite n : 0 <= n < 2 ^ 53 → double_finite_nonneg (double_of_Z n).
Proof.
  intros [Hn Hlt]. unfold double_of_Z, binary_normalize. destruct n as [|p|p]; [done| |lia].
  by destruct (binary_round_exact false p Hlt) as (m & e & ->).
Qed.

Lemma double_of_Z_neg n :
  - 2 ^ 53 < n < 0 → ∃ m e, double_of_Z n = S754_finite true m e.
Proof.
  intros [Hlt Hn]. unfold double_of_Z, binary_normalize. destruct n as [|p|p]; [lia|lia|].
  apply binary_round_exact. lia.
Qed.

(** ** Order *)

(** An integer that reaches a non-negative floor is not negative. *)
Lemma double_ge_nonneg n x :
  - 2 ^ 53 < n → double_nonneg x → double_ge (double_of_Z n) x = true → 0 <= n.
Proof.
  intros Hn Hx Hge. destruct (Z.le_gt_cases 0 n) as [|Hneg]; [done|exfalso].
  destruct (double_of_Z_neg n ltac:(lia)) as (m & e & Heq).
  unfold double_ge, SFleb in Hge. rewrite Heq in Hge.
  destruct x as [[]|[]| |[]]; cbn in *; congruence.
Qed.

(** Comparison of two doubles that are not NaN is total. *)
Lemma double_not_lt_ge x y :
  double_nonneg x → double_nonneg y → double_lt x y = false → double_ge x y = true.
Proof.
  unfold double_lt, double_ge, SFltb, SFleb.
  destruct x as [sx|sx| |sx mx ex], y as [sy|sy| |sy my ey]; cbn; try done.
  all: try (intros -> ->; cbn; done).
  all: try (intros -> _; cbn; done).
  all: try (intros _ ->; cbn; done).
  intros -> ->. rewrite (Z.compare_antisym ex ey).
  destruct (Z.compare ex ey) eqn:He; cbn; try done.
  fold (Pos.compare mx my) (Pos.compare my mx). rewrite (Pos.compare_antisym mx my).
  by destruct (Pos.compare mx my).
Qed.

(** The two comparisons of the admission code are complementary on integers. *)
Lemma double_of_Z_not_lt_ge n x :
  - 2 ^ 53 < n → double_nonneg x → double_lt (double_of_Z n) x = false →
  double_ge (double_of_Z n) x = true.
Proof.
  intros Hn Hx Hlt. destruct (Z.le_gt_cases 0 n) as [Hpos|Hneg].
  - by apply double_not_lt_ge; [apply double_of_Z_nonneg| |].
  - exfalso. destruct (double_of_Z_neg n ltac:(lia)) as (m & e & Heq).
    unfold double_lt, SFltb in Hlt. rewrite Heq in Hlt.
    destruct x as [[]|[]| |[]]; cbn in *; congruence.
Qed.

(** ** Rounding *)

Lemma shr_1_half r : 0 <= shr_m r → shr_m (shr_1 r) = shr_m r / 2.
Proof. destruct r as [[|[p|p|]|p] ? ?]; intros H; cbn [shr_1 shr_m] in *; Z.div_mod_to_equations; lia. Qed.

Lemma iter_shr_1_div p : ∀ r, 0 <= shr_m r → shr_m (iter_pos shr_1 p r) = shr_m r / 2 ^ Z.pos p.
Proof.
  induction p as [p IH|p IH|]; intros r Hr; cbn [iter_pos].
  - assert (0 <= shr_m (shr_1 r)) as H1 by (rewrite shr_1_half by done; by apply Z.div_pos).
    assert (0 <= shr_m (iter_pos shr_1 p (shr_1 r))) as H2 by by apply iter_shr_1_nonneg.
    rewrite (IH _ H2), (IH _ H1), shr_1_half by done. rewrite !Z.div_div by lia.
    assert (2 ^ Z.pos p~1 = 2 * 2 ^ Z.pos p * 2 ^ Z.pos p) as ->; [|by rewrite ?Z.mul_assoc].
    rewrite Pos2Z.inj_xI, Z.pow_add_r, Z.pow_twice_r by lia. lia.
  - assert (0 <= shr_m (iter_pos shr_1 p r)) as H2 by by apply iter_shr_1_nonneg.
    rewrite (IH _ H2), (IH _ Hr), Z.div_div by lia.
    assert (2 ^ Z.pos p~0 = 2 ^ Z.pos p * 2 ^ Z.pos p) as ->; [|done]. rewrite <- Z.pow_add_r by lia. f_equal. lia.
  - rewrite shr_1_half by done. done.
Qed.

Lemma digits2_pos_upper p : Z.pos p < 2 ^ Z.pos (digits2_pos p).
Proof.
  induction p as [p IH|p IH|]; cbn [digits2_pos]; [| |done].
  all: rewrite Pos2Z.inj_succ, Z.pow_succ_r by lia; lia.
Qed.

(** A product [M] 2^[E] rounded to 53 bits: with [s] bits shifted out, the
    significand is at most any integer bound of [M] / 2^[s] from above. *)
Lemma round_below_bound M E s N :
  0 < M → fexp 53 1024 (Z.pos (digits2_pos (Z.to_pos M)) + E) - E = s → 0 <= s → E + s <= 900 →
  M < N * 2 ^ s →
  ∃ r, binary_round_aux 53 1024 false M E loc_Exact = r ∧
    match r with
    | S754_zero _ => True
    | S754_finite sg m e => sg = false ∧ E + s <= e ∧ Z.pos m * 2 ^ (e - (E + s)) <= N
    | _ => False
    end.
Proof.
  intros HM Hd Hs He2 HN. eexists. split; [reflexivity|]. unfold binary_round_aux, shr_fexp.
  destruct M as [|M|M]; [lia| |lia]. cbn [Zdigits2 Z.to_pos] in *. rewrite Hd.
  assert (Z.pos (digits2_pos M) <= 53 + s ∧ - 1074 <= E + s) as [Hdig He1] by (unfold fexp, emin in Hd; lia).
  cbn [shr_record_of_loc].
  set (R1 := {| shr_m := Z.pos M; shr_r := false; shr_s := false |}).
  assert (∃ r e, shr R1 E s = (r, e) ∧ e = E + s ∧ 0 <= shr_m r ∧ shr_m r = Z.pos M / 2 ^ s) as (r & e & -> & -> & Hr0 & Hr).
  { destruct s as [|s|s]; [|..|lia]; do 2 eexists; (split; [reflexivity|]); split_and!; try (cbn; lia).
    - cbn. rewrite Z.div_1_r. lia.
    - apply iter_shr_1_nonneg. cbn. lia.
    - by rewrite iter_shr_1_div. }
  set (R := round_nearest_even (shr_m r) (loc_of_shr_record r)).
  assert (0 <= R <= N ∧ R <= 2 ^ 53) as HR.
  { split; [split; [by apply round_nearest_even_nonneg|]|].
    all: assert (shr_m r < N) as Hlt by (rewrite Hr; apply Z.div_lt_upper_bound; [apply Z.pow_pos_nonneg; lia|lia]).
    all: assert (shr_m r < 2 ^ 53) as Hlt' by (rewrite Hr; apply Z.div_lt_upper_bound; [apply Z.pow_pos_nonneg; lia|];
      rewrite <- Z.pow_add_r by lia; eapply Z.lt_le_trans; [apply digits2_pos_upper|apply Z.pow_le_mono_r; lia]).
    all: unfold R, round_nearest_even; destruct (loc_of_shr_record r) as [|[]]; try lia; destruct (Z.even _); lia. }
  set (n := fexp 53 1024 (Zdigits2 R + (E + s)) - (E + s)).
  assert (n <= 1) as Hn.
  { unfold n, fexp, emin. assert (Zdigits2 R <= 54); [|lia]. destruct R as [|p|p]; cbn [Zdigits2]; [lia| |lia].
    apply digits2_pos_le; lia. }
  destruct n as [|n|n]; cbn [shr shr_record_of_loc shr_m].
  - destruct R as [|p|p]; [done| |lia]. destruct (Z.leb_spec (E + s) (1024 - 53)); [|lia]. split; [done|]. split; [lia|].
    rewrite Z.sub_diag. lia.
  - assert (n = 1%positive) as -> by lia. cbn [iter_pos]. rewrite shr_1_half by (cbn; lia). cbn [shr_m].
    destruct (R / 2) as [|p|p] eqn:Hp; [done| |pose proof (Z.div_pos R 2); lia].
    destruct (Z.leb_spec (E + s + 1) (1024 - 53)); [|lia]. split; [done|]. split; [lia|].
    replace (E + s + 1 - (E + s)) with 1 by lia. rewrite <- Hp. Z.div_mod_to_equations. lia.
  - destruct R as [|p|p]; [done| |lia]. destruct (Z.leb_spec (E + s) (1024 - 53)); [|lia]. split; [done|]. split; [lia|].
    rewrite Z.sub_diag. lia.
Qed.

(** Integers below 2^53 are exact, with a full significand. *)
Lemma double_of_Z_exact k : 0 < k < 2 ^ 53 →
  ∃ m e, double_of_Z k = S754_finite false m e ∧ Z.pos (digits2_pos m) = 53 ∧ - 52 <= e <= 0 ∧ Z.pos m = k * 2 ^ (- e).
Proof.
  intros [Hk Hlt]. destruct k as [|p|p]; [lia| |lia]. pose proof (digits2_pos_le p 53 Hlt ltac:(lia)) as Hd.
  unfold double_of_Z, binary_normalize, binary_round. set (dg := Z.pos (digits2_pos p)) in *. assert (1 <= dg) by (unfold dg; lia).
  assert (fexp 53 1024 (dg + 0) = dg - 53) as -> by (unfold fexp, emin; lia).
  assert (∀ mz ez, Z.pos (digits2_pos mz) = 53 → - 52 <= ez <= 0 →
    binary_round_aux 53 1024 false (Z.pos mz) ez loc_Exact = S754_finite false mz ez) as Haux.
  { intros mz ez Hmz Hez. unfold binary_round_aux, shr_fexp, Zdigits2. rewrite Hmz.
    assert (fexp 53 1024 (53 + ez) - ez = 0) as Hz by (unfold fexp, emin; lia). rewrite Hz.
    cbn [shr shr_record_of_loc shr_m loc_of_shr_record round_nearest_even]. rewrite Hmz, Hz.
    cbn [shr shr_record_of_loc shr_m]. by destruct (Z.leb_spec ez (1024 - 53)); [|lia]. }
  unfold shl_align. destruct (dg - 53 - 0) as [|q|q] eqn:Hq; [|lia|].
  - exists p, 0. rewrite Haux by lia. change (2 ^ - 0) with 1. split_and!; [done|fold dg; lia|lia|lia|lia].
  - exists (Pos.iter xO p q), (dg - 53). assert (Z.pos (digits2_pos (Pos.iter xO p q)) = 53) as Hd53
      by (rewrite digits2_pos_shift; fold dg; lia).
    rewrite Haux by lia. split_and!; [done|lia|lia|lia|].
    assert (∀ q, Z.pos (Pos.iter xO p q) = Z.pos p * 2 ^ Z.pos q) as ->.
    { clear. intros q. induction q as [|q IH] using Pos.peano_ind; [cbn; lia|].
      rewrite Pos.iter_succ, Pos2Z.inj_xO, IH, Pos2Z.inj_succ, Z.pow_succ_r by lia. lia. }
    do 2 f_equal. lia.
Qed.

Create HintDb double.
#[export] Hint Resolve double_of_Z_nonneg double_mul_nonneg double_of_Z_finite : double.
