(* ===== verification/Types.v ===== *)
(** * Core scalar types, requests and block tables

    [core/types.hpp], [core/request.hpp] and [core/block_table.hpp]: the
    machine-width integers, the enumerations, the request record and the
    per-request block table, with the error values of the CPU-side core. *)

From S2P Require Import Prelude Doubles.

(** ** Machine-width integers *)

Definition int32_max : Z := 2 ^ 31 - 1.

(** [static_cast<std::int32_t>]: reduction modulo 2^32 into the signed range. *)
Definition to_int32 (z : Z) : Z := (z + 2 ^ 31) mod 2 ^ 32 - 2 ^ 31.

(** A value representable as [std::int32_t]; signed arithmetic whose exact
    result leaves this range is undefined behaviour. *)
Definition int32_ok (z : Z) : Prop := - 2 ^ 31 <= z <= int32_max.

Lemma to_int32_id z : int32_ok z → to_int32 z = z.
Proof. unfold int32_ok, int32_max, to_int32. intros. rewrite Z.mod_small; lia. Qed.

Lemma to_int32_ok z : int32_ok (to_int32 z).
Proof.
  unfold int32_ok, int32_max, to_int32.
  pose proof (Z.mod_pos_bound (z + 2 ^ 31) (2 ^ 32) ltac:(lia)). lia.
Qed.

(** Conversion to [std::uint64_t]. *)
Definition u64 (z : Z) : Z := z mod 2 ^ 64.

(** ** Scalars *)

Notation TokenId := Z (only parsing).
Notation RequestId := Z (only parsing).
Notation BlockId := Z (only parsing).

Definition kInvalidBlockId : BlockId := -1.
Definition kDummyBlockId : BlockId := 0.
Definition kKvBlockSize : Z := 16.

(** [operator/] on [std::int32_t] truncates towards zero. *)
Definition BlocksForTokens (num_tokens : Z) : Z :=
  Z.quot (num_tokens + kKvBlockSize - 1) kKvBlockSize.

Lemma BlocksForTokens_div n : 0 <= n → BlocksForTokens n = (n + 15) / 16.
Proof.
  intros. unfold BlocksForTokens, kKvBlockSize.
  rewrite Z.quot_div_nonneg by lia. f_equal; lia.
Qed.

(** Enough blocks, and not one too many. *)
Lemma BlocksForTokens_spec n :
  0 <= n → n <= BlocksForTokens n * 16 ∧ BlocksForTokens n * 16 < n + 16.
Proof.
  intros. rewrite BlocksForTokens_div by lia.
  pose proof (Z.div_mod (n + 15) 16 ltac:(lia)).
  pose proof (Z.mod_pos_bound (n + 15) 16 ltac:(lia)). lia.
Qed.

Lemma BlocksForTokens_nonneg n : 0 <= n → 0 <= BlocksForTokens n.
Proof. intros. pose proof (BlocksForTokens_spec n). lia. Qed.

Lemma BlocksForTokens_pos n : 0 < n → 0 < BlocksForTokens n.
Proof. intros. pose proof (BlocksForTokens_spec n). lia. Qed.

Lemma BlocksForTokens_mono n m : 0 <= n <= m → BlocksForTokens n <= BlocksForTokens m.
Proof.
  intros. pose proof (BlocksForTokens_spec n). pose proof (BlocksForTokens_spec m). lia.
Qed.

Lemma BlocksForTokens_le n : 0 <= n → BlocksForTokens n <= n.
Proof. intros. pose proof (BlocksForTokens_spec n). lia. Qed.

(** ** Enumerations *)

Inductive Dtype : Type := kF16 | kBF16 | kF32 | kF64 | kI32 | kI64 | kU8 | kUnknown.

Definition DtypeSize (dtype : Dtype) : Z :=
  match dtype with
  | kF16 | kBF16 => 2
  | kF32 | kI32 => 4
  | kF64 | kI64 => 8
  | kU8 => 1
  | kUnknown => 0
  end.

Inductive FinishReason : Type := kNone | kEos | kLength | kAborted.

Inductive RequestState : Type := kWaiting | kPrefill | kRunning | kFinished.

#[export] Instance Dtype_eq_dec : EqDecision Dtype.
Proof. solve_decision. Defined.
#[export] Instance FinishReason_eq_dec : EqDecision FinishReason.
Proof. solve_decision. Defined.
#[export] Instance RequestState_eq_dec : EqDecision RequestState.
Proof. solve_decision. Defined.

Record StepResult : Type := mkStepResult {
  request_id : RequestId;
  token : TokenId;
  finished : bool;
  sr_finish_reason : FinishReason;
}.

(** ** Errors

    [std::invalid_argument] carries the numbers of its message; a failed
    [assert] and an operation the C++ standard leaves undefined carry the
    condition, so that "never fails" theorems exclude them by name. *)

Inductive reject : Type :=
  | PromptEmpty (id : RequestId)
  | MaxNewNotPositive (id : RequestId) (max_new : Z)
  | ExceedsMaxSeqLen (id : RequestId) (prompt_len max_new max_seq_len : Z)
  | NeedsTooManyBlocks (id : RequestId) (worst_case usable : Z)
  | PromptBreaksFloor (id : RequestId) (prompt_blocks usable : Z) (floor : double)
  | TokenOutsideVocab (what : string) (tok vocab_size : Z)
  | PoolSizeOutOfRange (gb : double).

Inductive error : Type :=
  | AssertionFailed (condition : string)
  | UndefinedBehaviour (what : string)
  | OutOfFuel
  | InvalidArgument (r : reject)
  | ExecutorError (what : string)
  | GemmError (what : string)
  | EngineError (what : string).

Definition assert (condition : string) {S} (b : bool) : M error S () :=
  assert_ (AssertionFailed condition) b.

Lemma wp_assert_ {S} c (b : bool) (Q : () → S → Prop) s : b = true → Q () s → wp (assert c b) Q s.
Proof. apply wp_assert. Qed.

(** Discharge a guard whose condition is arithmetic. *)
Ltac wp_guard := apply wp_assert_; [zbool; lia|].

(** ** Checked signed arithmetic

    A signed result outside its type is undefined behaviour; [signed32] and
    [signed64] keep an exact result that fits and stop otherwise. *)

Definition int64_ok (z : Z) : Prop := - 2 ^ 63 <= z <= int64_max.

Definition overflow : error := UndefinedBehaviour "signed integer overflow".

Definition signed32 (z : Z) : outcome error Z := if bool_decide (int32_ok z) then Ok z else Err overflow.
Definition signed64 (z : Z) : outcome error Z := if bool_decide (int64_ok z) then Ok z else Err overflow.

(** [acc * x * y * ...], associated to the left, on [std::int64_t]. *)
Fixpoint product64 (acc : Z) (l : list Z) : outcome error Z :=
  match l with
  | [] => Ok acc
  | x :: l' => p ← signed64 (acc * x); product64 p l'
  end.

(** Checked code computes the exact [a], unless it overflows, which it does not
    when [F] holds. *)
Definition computes {A} (F : Prop) (a : A) (x : outcome error A) : Prop :=
  match x with Ok a' => a' = a | Err e => e = overflow ∧ ¬ F end.

Section computes.
Context {F : Prop}.

Lemma computes_ret {A} (a : A) : computes F a (mret a).
Proof. done. Qed.

Lemma computes_bind {A B} (a : A) (b : B) x (f : A → outcome error B) :
  computes F a x → computes F b (f a) → computes F b (x ≫= f).
Proof. destruct x; cbn; [by intros ->|done]. Qed.

Lemma computes_signed32 z : (F → int32_ok z) → computes F z (signed32 z).
Proof. intros H. unfold signed32. case_bool_decide; [done|]. cbn. by split; [|intros ?%H]. Qed.

Lemma computes_signed64 z : (F → int64_ok z) → computes F z (signed64 z).
Proof. intros H. unfold signed64. case_bool_decide; [done|]. cbn. by split; [|intros ?%H]. Qed.

(** A product by positive factors fits as soon as the whole of it does. *)
Lemma computes_product64_abs l : ∀ acc p, p = foldl Z.mul acc l → Forall (λ x, 0 < x) l →
  (F → Z.abs p <= int64_max) → computes F p (product64 acc l).
Proof.
  induction l as [|x l IH]; intros acc p -> Hl HF; [done|]. apply Forall_cons in Hl as [Hx Hl]. cbn [product64 foldl] in *.
  assert (∀ a, Forall (λ x, 0 < x) l → Z.abs a <= Z.abs (foldl Z.mul a l)) as Hle.
  { clear. induction l as [|y l IH]; intros a Hl; [done|]. apply Forall_cons in Hl as [Hy Hl]. cbn.
    etransitivity; [|apply IH, Hl]. rewrite Z.abs_mul, (Z.abs_eq y) by lia. pose proof (Z.abs_nonneg a). nia. }
  eapply computes_bind; [|by apply IH]. apply computes_signed64. intros Hf.
  specialize (HF Hf). specialize (Hle (acc * x) Hl). unfold int64_ok, int64_max in *. lia.
Qed.

Lemma computes_product64 l acc p : p = foldl Z.mul acc l → 0 < acc → Forall (λ x, 0 < x) l →
  (F → p <= int64_max) → computes F p (product64 acc l).
Proof.
  intros -> Ha Hl HF. apply computes_product64_abs; [done|done|]. intros Hf. specialize (HF Hf).
  assert (0 < foldl Z.mul acc l); [|lia]. clear HF. revert acc Ha. induction Hl as [|x l Hx Hl IH]; intros acc Ha; [done|].
  apply IH. nia.
Qed.

End computes.

(** ** Block tables *)

Record BlockTable : Type := mkBlockTable { blocks_ : list BlockId }.

Definition BlockTable_empty : BlockTable := mkBlockTable [].
Definition Append (block : BlockId) (t : BlockTable) : BlockTable :=
  mkBlockTable (blocks_ t ++ [block]).
Definition num_blocks (t : BlockTable) : Z := to_int32 (zlen (blocks_ t)).
Definition token_capacity (t : BlockTable) : Z := num_blocks t * kKvBlockSize.
(** [std::exchange(blocks_, {})]: the ids, and the table left behind. *)
Definition Release (t : BlockTable) : list BlockId * BlockTable :=
  (blocks_ t, BlockTable_empty).

(** ** Requests *)

Record Request : Type := mkRequest {
  id : RequestId;
  prompt_tokens : list TokenId;
  output_tokens : list TokenId;
  max_new_tokens : Z;
  ignore_eos : bool;
  forced_tokens : list TokenId;
  state : RequestState;
  finish_reason : FinishReason;
  slot : Z;
  reserved_blocks : Z;
  prefill_progress : Z;
  block_table : BlockTable;
}.

(** A request as the engine creates it: the caller's fields and the defaults. *)
Definition new_request (i : RequestId) (prompt : list TokenId) (max_new : Z)
    (ign : bool) (forced : list TokenId) : Request :=
  mkRequest i prompt [] max_new ign forced kWaiting kNone (-1) 0 0 BlockTable_empty.

Definition num_prompt_tokens (r : Request) : Z := to_int32 (zlen (prompt_tokens r)).
Definition num_output_tokens (r : Request) : Z := to_int32 (zlen (output_tokens r)).
Definition seq_len (r : Request) : Z := num_prompt_tokens r + num_output_tokens r.
Definition prefill_done (r : Request) : bool := num_prompt_tokens r <=? prefill_progress r.

(** Field assignments, one per field the core mutates. *)
Definition set_output_tokens v (r : Request) : Request :=
  mkRequest (id r) (prompt_tokens r) v (max_new_tokens r) (ignore_eos r) (forced_tokens r)
    (state r) (finish_reason r) (slot r) (reserved_blocks r) (prefill_progress r) (block_table r).
Definition set_state v (r : Request) : Request :=
  mkRequest (id r) (prompt_tokens r) (output_tokens r) (max_new_tokens r) (ignore_eos r)
    (forced_tokens r) v (finish_reason r) (slot r) (reserved_blocks r) (prefill_progress r)
    (block_table r).
Definition set_finish_reason v (r : Request) : Request :=
  mkRequest (id r) (prompt_tokens r) (output_tokens r) (max_new_tokens r) (ignore_eos r)
    (forced_tokens r) (state r) v (slot r) (reserved_blocks r) (prefill_progress r)
    (block_table r).
Definition set_slot v (r : Request) : Request :=
  mkRequest (id r) (prompt_tokens r) (output_tokens r) (max_new_tokens r) (ignore_eos r)
    (forced_tokens r) (state r) (finish_reason r) v (reserved_blocks r) (prefill_progress r)
    (block_table r).
Definition set_reserved_blocks v (r : Request) : Request :=
  mkRequest (id r) (prompt_tokens r) (output_tokens r) (max_new_tokens r) (ignore_eos r)
    (forced_tokens r) (state r) (finish_reason r) (slot r) v (prefill_progress r)
    (block_table r).
Definition set_prefill_progress v (r : Request) : Request :=
  mkRequest (id r) (prompt_tokens r) (output_tokens r) (max_new_tokens r) (ignore_eos r)
    (forced_tokens r) (state r) (finish_reason r) (slot r) (reserved_blocks r) v
    (block_table r).
Definition set_block_table v (r : Request) : Request :=
  mkRequest (id r) (prompt_tokens r) (output_tokens r) (max_new_tokens r) (ignore_eos r)
    (forced_tokens r) (state r) (finish_reason r) (slot r) (reserved_blocks r)
    (prefill_progress r) v.
