(* ===== verification/Json.v ===== *)
(** * JSON values, as the readers of this repository see them

    The configuration and the safetensors readers parse JSON with a library that
    is not part of the repository.  The parser itself stays a parameter
    ([JsonReader]); this file only fixes the values it hands out, with the
    accessors the code calls on them ([is_object], [find], [get<int64_t>], ...).
    A number is one of three kinds: an unsigned integer literal, a negative
    integer literal, or a floating literal. *)

From S2P Require Import Prelude Doubles Types.

Inductive json : Type :=
  | JNull
  | JBoolean (b : bool)
  | JNegative (n : Z)
  | JUnsigned (n : Z)
  | JFloat (x : double)
  | JString (s : string)
  | JArray (l : list json)
  | JObject (members : list (string * json)).

(** The parser's exceptions the code tells apart: a syntax error
    ([json::parse_error]) and a number no double can hold
    ([json::out_of_range]), both of them [json::exception]s. *)
Inductive json_exception : Type := ParseError | NumberOverflow.

(** The reader: the bytes of a document to its value and the key events of the
    parse (depth and key, in document order), or an exception. *)
Class JsonReader : Type := json_parse : list Z → outcome json_exception (json * list (Z * string)).

Definition u64_max : Z := 2 ^ 64 - 1.
Definition to_int64 (z : Z) : Z := (z + 2 ^ 63) mod 2 ^ 64 - 2 ^ 63.

Definition is_object (v : json) : bool := match v with JObject _ => true | _ => false end.

(** [find(key)] of an object; the code calls it on objects only. *)
Fixpoint assoc {A} (key : string) (l : list (string * A)) : option A :=
  match l with
  | [] => None
  | (k, v) :: l' => if String.eqb k key then Some v else assoc key l'
  end.
Definition find (key : string) (v : json) : option json :=
  match v with JObject ms => assoc key ms | _ => None end.

(** [items()]: the members of an object. *)
Definition items (v : json) : list (string * json) := match v with JObject ms => ms | _ => [] end.

(** [is_number_integer] with [get<std::int64_t>]: unsigned literals are cast. *)
Definition as_int64 (v : json) : option Z :=
  match v with JNegative n => Some n | JUnsigned n => Some (to_int64 n) | _ => None end.

(** [is_number] with [get<double>]. *)
Definition as_double (v : json) : option double :=
  match v with JNegative n | JUnsigned n => Some (double_of_Z n) | JFloat x => Some x | _ => None end.

Definition as_bool (v : json) : option bool := match v with JBoolean b => Some b | _ => None end.
Definition as_string (v : json) : option string := match v with JString s => Some s | _ => None end.

(** [is_number_unsigned] with [get<std::uint64_t>]. *)
Definition as_u64 (v : json) : option Z := match v with JUnsigned n => Some (u64 n) | _ => None end.

(** ** Facts *)

Lemma u64_range z : 0 <= u64 z <= u64_max.
Proof. unfold u64, u64_max. pose proof (Z.mod_pos_bound z (2 ^ 64) ltac:(lia)). lia. Qed.

Lemma u64_id z : 0 <= z <= u64_max → u64 z = z.
Proof. unfold u64, u64_max. intros. apply Z.mod_small. lia. Qed.

Lemma assoc_elem {A} key (l : list (string * A)) v : assoc key l = Some v → (key, v) ∈ l.
Proof.
  induction l as [|[k x] l IH]; cbn; [done|]. destruct (String.eqb_spec k key) as [->|].
  - intros [= ->]. by left.
  - right. by apply IH.
Qed.

Lemma assoc_unique {A} key (l : list (string * A)) v : NoDup l.*1 → (key, v) ∈ l → assoc key l = Some v.
Proof.
  induction l as [|[k x] l IH]; cbn; intros Hn; [by intros ?%not_elem_of_nil|].
  apply NoDup_cons in Hn as [Hk Hn]. intros [[= -> ->]|H]%elem_of_cons; [by rewrite String.eqb_refl|].
  destruct (String.eqb_spec k key) as [->|]; [|by apply IH]. destruct Hk.
  apply list_elem_of_fmap. by exists (key, v).
Qed.
