(* ===== verification/BlockAllocator.v ===== *)
(** * The reservation allocator of KV blocks ([core/block_allocator.{hpp,cpp}])

    The state is the C++ object's: total, promised count, the free stack (its
    back is its top) and the shadow occupancy map.  Every [assert] of a debug
    build is a check that can fail.  [KvAllocator] is the interface the
    scheduler is written against and [KvAllocatorLaws] what it may rely on;
    the last part gives the abstract pool the object implements. *)

From S2P Require Import Prelude Doubles Types.

Record BlockAllocator : Type := mkBlockAllocator {
  total_blocks_ : Z;
  reserved_ : Z;
  free_list_ : list BlockId;
  outstanding_ : list Z;
}.

(** ** Operations *)

Definition total_blocks (a : BlockAllocator) : Z := total_blocks_ a.
Definition usable_blocks (a : BlockAllocator) : Z :=
  if 0 <? total_blocks_ a then total_blocks_ a - 1 else 0.
Definition free_blocks (a : BlockAllocator) : Z := to_int32 (zlen (free_list_ a)).
Definition allocator_reserved_blocks (a : BlockAllocator) : Z := reserved_ a.

Definition DebugCheckInvariant : M error BlockAllocator () :=
  a ← get;
  assert "reserved_ >= 0" (0 <=? reserved_ a);;
  assert "free_list_.size() >= reserved_" (reserved_ a <=? zlen (free_list_ a));;
  assert "free_list_.size() <= usable_blocks()" (zlen (free_list_ a) <=? usable_blocks a).

(** The ids the constructor's loop pushes: [total - 1] down to 1. *)
Definition initial_free_list (total : Z) : list BlockId := reverse (seqZ 1 (total - 1)).

Definition BlockAllocator_new (total : Z) : outcome error BlockAllocator :=
  let a := mkBlockAllocator total 0 (initial_free_list total)
             (replicate (Z.to_nat (if 0 <? total then total else 0)) 0) in
  match (assert "total_blocks_ >= 1" (1 <=? total);; DebugCheckInvariant) a with
  | (Ok _, a') => Ok a'
  | (Err e, _) => Err e
  end.

Definition CanReserve (count : Z) : M error BlockAllocator bool :=
  assert "count >= 0" (0 <=? count);;
  a ← get;
  mret (count <=? zlen (free_list_ a) - reserved_ a).

Definition set_reserved (n : Z) (a : BlockAllocator) : BlockAllocator :=
  mkBlockAllocator (total_blocks_ a) n (free_list_ a) (outstanding_ a).

Definition Reserve (count : Z) : M error BlockAllocator () :=
  assert "count >= 0" (0 <=? count);;
  ok ← CanReserve count;
  assert "CanReserve(count)" ok;;
  modify (λ a, set_reserved (reserved_ a + count) a);;
  DebugCheckInvariant.

Definition Unreserve (count : Z) : M error BlockAllocator () :=
  assert "count >= 0" (0 <=? count);;
  a ← get;
  assert "count <= reserved_" (count <=? reserved_ a);;
  put (set_reserved (reserved_ a - count) a);;
  DebugCheckInvariant.

Definition AllocReserved : M error BlockAllocator BlockId :=
  a ← get;
  assert "reserved_ > 0" (0 <? reserved_ a);;
  assert "!free_list_.empty()" (negb (is_nil (free_list_ a)));;
  block ← from_option_or (UndefinedBehaviour "back() of an empty vector") (back (free_list_ a));
  let a1 := mkBlockAllocator (total_blocks_ a) (reserved_ a - 1) (pop_back (free_list_ a))
              (outstanding_ a) in
  put a1;;
  assert "block != kDummyBlockId && block != kInvalidBlockId"
    (negb (block =? kDummyBlockId) && negb (block =? kInvalidBlockId));;
  assert "block >= 1 && block < total_blocks_" ((1 <=? block) && (block <? total_blocks_ a1));;
  occ ← from_option_or (UndefinedBehaviour "outstanding_ index")
          (outstanding_ a1 !! Z.to_nat block);
  assert "outstanding_[block] == 0" (occ =? 0);;
  put (mkBlockAllocator (total_blocks_ a1) (reserved_ a1) (free_list_ a1)
         (<[Z.to_nat block := 1]> (outstanding_ a1)));;
  DebugCheckInvariant;;
  mret block.

Definition FreeBlock (block : BlockId) : M error BlockAllocator () :=
  assert "block != kInvalidBlockId" (negb (block =? kInvalidBlockId));;
  assert "block != kDummyBlockId" (negb (block =? kDummyBlockId));;
  a ← get;
  assert "block >= 1 && block < total_blocks_" ((1 <=? block) && (block <? total_blocks_ a));;
  occ ← from_option_or (UndefinedBehaviour "outstanding_ index")
          (outstanding_ a !! Z.to_nat block);
  assert "outstanding_[block] == 1" (occ =? 1);;
  put (mkBlockAllocator (total_blocks_ a) (reserved_ a) (free_list_ a ++ [block])
         (<[Z.to_nat block := 0]> (outstanding_ a)));;
  DebugCheckInvariant.

(** ** The object invariant *)

Record alloc_inv (a : BlockAllocator) : Prop := {
  inv_total : 1 <= total_blocks_ a <= int32_max;
  inv_reserved : 0 <= reserved_ a <= zlen (free_list_ a);
  inv_nodup : NoDup (free_list_ a);
  inv_range : ∀ b, b ∈ free_list_ a → 1 <= b < total_blocks_ a;
  inv_outstanding : ∀ b, 0 <= b < total_blocks_ a →
    outstanding_ a !! Z.to_nat b = Some (if decide (1 <= b ∧ b ∉ free_list_ a) then 1 else 0);
}.

Lemma nodup_range_length (l : list Z) n :
  0 <= n → NoDup l → (∀ b, b ∈ l → 1 <= b < n) → zlen l <= n - 1 ∨ l = [].
Proof.
  intros Hn Hnd Hr. destruct (decide (l = [])) as [->|Hl]; [by right|left].
  assert (1 <= n).
  { destruct l as [|b l']; [done|]. pose proof (Hr b ltac:(constructor)). lia. }
  assert (length l <= length (seqZ 1 (n - 1)))%nat as Hlen.
  { apply submseteq_length, NoDup_submseteq; [done|].
    intros b Hb%Hr. apply elem_of_seqZ. lia. }
  rewrite length_seqZ in Hlen. unfold zlen. lia.
Qed.

Lemma alloc_inv_length a : alloc_inv a → zlen (free_list_ a) <= total_blocks_ a - 1.
Proof.
  intros []. destruct (nodup_range_length (free_list_ a) (total_blocks_ a)) as [|Hl];
    [lia|done|done|done|]. rewrite Hl, zlen_nil. lia.
Qed.

Lemma alloc_inv_usable a : alloc_inv a → usable_blocks a = total_blocks_ a - 1.
Proof. intros []. unfold usable_blocks. by destruct (Z.ltb_spec 0 (total_blocks_ a)); [|lia]. Qed.

Lemma alloc_inv_free_blocks a : alloc_inv a → free_blocks a = zlen (free_list_ a).
Proof.
  intros Ha. apply to_int32_id. pose proof (alloc_inv_length a Ha).
  pose proof (zlen_nonneg (free_list_ a)). destruct Ha. unfold int32_ok, int32_max in *. lia.
Qed.

(** Every operation's final check passes when the invariant holds. *)
Lemma wp_DebugCheckInvariant a (Q : () → BlockAllocator → Prop) :
  alloc_inv a → Q () a → wp DebugCheckInvariant Q a.
Proof.
  intros Ha HQ. pose proof (alloc_inv_length a Ha). pose proof (alloc_inv_usable a Ha).
  destruct Ha. unfold DebugCheckInvariant. wp_auto. wp_guard. wp_auto. wp_guard. by wp_guard.
Qed.

(** The constructor establishes the invariant. *)
Lemma initial_free_list_elem total b : b ∈ initial_free_list total ↔ 1 <= b < total.
Proof. unfold initial_free_list. rewrite elem_of_reverse, elem_of_seqZ. lia. Qed.

Lemma initial_free_list_nodup total : NoDup (initial_free_list total).
Proof. unfold initial_free_list. rewrite reverse_Permutation. apply NoDup_seqZ. Qed.

Lemma alloc_inv_new total :
  1 <= total <= int32_max →
  ∃ a, BlockAllocator_new total = Ok a ∧ alloc_inv a ∧
       total_blocks_ a = total ∧ reserved_ a = 0 ∧ free_list_ a = initial_free_list total.
Proof.
  intros Ht. set (a := mkBlockAllocator total 0 (initial_free_list total)
                        (replicate (Z.to_nat (if 0 <? total then total else 0)) 0)).
  assert (alloc_inv a) as Ha.
  { split; cbn.
    - lia.
    - pose proof (zlen_nonneg (initial_free_list total)). lia.
    - apply initial_free_list_nodup.
    - intros b. by rewrite initial_free_list_elem.
    - intros b Hb. destruct (Z.ltb_spec 0 total); [|lia].
      rewrite lookup_replicate_2 by lia. case_decide as Hd; [|done].
      exfalso. apply Hd. apply initial_free_list_elem. lia. }
  exists a. split; [|done]. unfold BlockAllocator_new. fold a.
  assert (wp (assert "total_blocks_ >= 1" (1 <=? total);; DebugCheckInvariant) (λ _ a', a' = a) a) as Hwp.
  { wp_auto. apply wp_assert_; [zbool; lia|]. by apply wp_DebugCheckInvariant. }
  apply wp_run in Hwp as ([] & a' & Heq & ->). by rewrite Heq.
Qed.

(** ** The interface the scheduler uses *)

Class KvAllocator (A : Type) : Type := {
  ka_usable_blocks : A → Z;
  ka_free_blocks : A → Z;
  ka_reserved_blocks : A → Z;
  ka_CanReserve : Z → M error A bool;
  ka_Reserve : Z → M error A ();
  ka_Unreserve : Z → M error A ();
  ka_AllocReserved : M error A BlockId;
  ka_FreeBlock : BlockId → M error A ();
}.

#[export] Instance BlockAllocator_KvAllocator : KvAllocator BlockAllocator := {
  ka_usable_blocks := usable_blocks;
  ka_free_blocks := free_blocks;
  ka_reserved_blocks := allocator_reserved_blocks;
  ka_CanReserve := CanReserve;
  ka_Reserve := Reserve;
  ka_Unreserve := Unreserve;
  ka_AllocReserved := AllocReserved;
  ka_FreeBlock := FreeBlock;
}.

(** What an allocator promises: its free ids are a set of pool ids
    ([ka_pool], up to order), promises never exceed them, and each operation
    used within its contract succeeds and changes the pool as stated. *)
Class KvAllocatorLaws (A : Type) `{!KvAllocator A} : Type := {
  ka_valid : A → Prop;
  ka_pool : A → list BlockId;
  ka_pool_nodup a : ka_valid a → NoDup (ka_pool a);
  ka_pool_range a b : ka_valid a → b ∈ ka_pool a → 1 <= b <= ka_usable_blocks a;
  ka_free_blocks_pool a : ka_valid a → ka_free_blocks a = zlen (ka_pool a);
  ka_reserved_pool a : ka_valid a → 0 <= ka_reserved_blocks a <= zlen (ka_pool a);
  ka_usable_range a : ka_valid a → 0 <= ka_usable_blocks a < int32_max;
  ka_CanReserve_law a n Q : ka_valid a → 0 <= n →
    Q (n <=? zlen (ka_pool a) - ka_reserved_blocks a) a → wp (ka_CanReserve n) Q a;
  ka_Reserve_law a n (Q : () → A → Prop) : ka_valid a →
    0 <= n <= zlen (ka_pool a) - ka_reserved_blocks a →
    (∀ a', ka_valid a' → ka_pool a' = ka_pool a →
       ka_reserved_blocks a' = ka_reserved_blocks a + n →
       ka_usable_blocks a' = ka_usable_blocks a → Q () a') →
    wp (ka_Reserve n) Q a;
  ka_Unreserve_law a n (Q : () → A → Prop) : ka_valid a →
    0 <= n <= ka_reserved_blocks a →
    (∀ a', ka_valid a' → ka_pool a' = ka_pool a →
       ka_reserved_blocks a' = ka_reserved_blocks a - n →
       ka_usable_blocks a' = ka_usable_blocks a → Q () a') →
    wp (ka_Unreserve n) Q a;
  ka_AllocReserved_law a (Q : BlockId → A → Prop) : ka_valid a →
    0 < ka_reserved_blocks a →
    (∀ b a', ka_valid a' → ka_pool a ≡ₚ b :: ka_pool a' →
       ka_reserved_blocks a' = ka_reserved_blocks a - 1 →
       ka_usable_blocks a' = ka_usable_blocks a → Q b a') →
    wp ka_AllocReserved Q a;
  ka_FreeBlock_law a b (Q : () → A → Prop) : ka_valid a →
    1 <= b <= ka_usable_blocks a → b ∉ ka_pool a →
    (∀ a', ka_valid a' → ka_pool a' ≡ₚ b :: ka_pool a →
       ka_reserved_blocks a' = ka_reserved_blocks a →
       ka_usable_blocks a' = ka_usable_blocks a → Q () a') →
    wp (ka_FreeBlock b) Q a;
}.

(** ** The object keeps the promises *)

Lemma alloc_inv_set_reserved a n :
  alloc_inv a → 0 <= n <= zlen (free_list_ a) → alloc_inv (set_reserved n a).
Proof. by intros [] ?. Qed.

Lemma wp_CanReserve a n Q :
  0 <= n → Q (n <=? zlen (free_list_ a) - reserved_ a) a → wp (CanReserve n) Q a.
Proof. intros. unfold CanReserve. wp_auto. wp_guard. by wp_auto. Qed.

Lemma wp_Reserve a n (Q : () → BlockAllocator → Prop) :
  alloc_inv a → 0 <= n <= zlen (free_list_ a) - reserved_ a →
  Q () (set_reserved (reserved_ a + n) a) → wp (Reserve n) Q a.
Proof.
  intros Ha Hn HQ. unfold Reserve. wp_auto. wp_guard. wp_auto. apply wp_CanReserve; [lia|].
  wp_auto. wp_guard. wp_auto. apply wp_DebugCheckInvariant; [|done].
  apply alloc_inv_set_reserved; [done|]. pose proof (inv_reserved a Ha). lia.
Qed.

Lemma wp_Unreserve a n (Q : () → BlockAllocator → Prop) :
  alloc_inv a → 0 <= n <= reserved_ a →
  Q () (set_reserved (reserved_ a - n) a) → wp (Unreserve n) Q a.
Proof.
  intros Ha Hn HQ. unfold Unreserve. wp_auto. wp_guard. wp_auto. wp_guard.
  wp_auto. apply wp_DebugCheckInvariant; [|done].
  apply alloc_inv_set_reserved; [done|]. pose proof (inv_reserved a Ha). lia.
Qed.

Definition popped (a : BlockAllocator) (b : BlockId) (l : list BlockId) : BlockAllocator :=
  mkBlockAllocator (total_blocks_ a) (reserved_ a - 1) l (<[Z.to_nat b := 1]> (outstanding_ a)).

Definition pushed (a : BlockAllocator) (b : BlockId) : BlockAllocator :=
  mkBlockAllocator (total_blocks_ a) (reserved_ a) (free_list_ a ++ [b])
    (<[Z.to_nat b := 0]> (outstanding_ a)).

Lemma alloc_inv_popped a l b :
  alloc_inv a → free_list_ a = l ++ [b] → 0 < reserved_ a → alloc_inv (popped a b l).
Proof.
  intros [Ht Hr Hnd Hrg Ho] Hl Hpos. rewrite Hl in *.
  pose proof (Hrg b ltac:(set_solver)) as Hb.
  apply NoDup_app in Hnd as (Hnd & Hdisj & _).
  split; cbn.
  - done.
  - zlen. lia.
  - done.
  - intros c Hc. apply Hrg. set_solver.
  - intros c Hc. destruct (decide (c = b)) as [->|Hne].
    + rewrite list_lookup_insert_eq.
      2:{ apply lookup_lt_is_Some_1. rewrite (Ho b) by lia. eauto. }
      rewrite decide_True; [done|]. split; [lia|]. intros Hin. apply (Hdisj b Hin). set_solver.
    + rewrite list_lookup_insert_ne by lia. rewrite Ho by lia. f_equal.
      repeat case_decide; set_solver.
Qed.

Lemma alloc_inv_pushed a b :
  alloc_inv a → 1 <= b < total_blocks_ a → b ∉ free_list_ a → alloc_inv (pushed a b).
Proof.
  intros [Ht Hr Hnd Hrg Ho] Hb Hnin. split; cbn.
  - done.
  - zlen. lia.
  - apply NoDup_app. split_and!; [done| |apply NoDup_singleton]. set_solver.
  - intros c. rewrite elem_of_app, list_elem_of_singleton. intros [Hc| ->]; [by apply Hrg|lia].
  - intros c Hc. destruct (decide (c = b)) as [->|Hne].
    + rewrite list_lookup_insert_eq.
      2:{ apply lookup_lt_is_Some_1. rewrite (Ho b) by lia. eauto. }
      rewrite decide_False; [done|]. set_solver.
    + rewrite list_lookup_insert_ne by lia. rewrite Ho by lia. f_equal.
      repeat case_decide; set_solver.
Qed.

Lemma wp_AllocReserved a (Q : BlockId → BlockAllocator → Prop) :
  alloc_inv a → 0 < reserved_ a →
  (∀ l b, free_list_ a = l ++ [b] → Q b (popped a b l)) → wp AllocReserved Q a.
Proof.
  intros Ha Hpos HQ. pose proof (inv_reserved a Ha) as Hr.
  assert (free_list_ a ≠ []) as Hne by (intros Hnil; rewrite Hnil in Hr; zlen; lia).
  destruct (back_is_Some _ Hne) as [b Hb].
  pose proof (proj1 (back_Some _ _) Hb) as Hl.
  set (l := pop_back (free_list_ a)) in *.
  assert (b ∈ free_list_ a) as Hin by (rewrite Hl; set_solver).
  pose proof (inv_range a Ha b Hin) as Hrg.
  pose proof (inv_outstanding a Ha b ltac:(lia)) as Ho.
  rewrite decide_False in Ho by set_solver.
  unfold AllocReserved. wp_auto. apply wp_assert_; [by apply Z.ltb_lt|]. wp_auto.
  apply wp_assert_; [by apply negb_true_iff, is_nil_false|]. wp_auto.
  eapply wp_from_option; [done|]. fold l. wp_auto.
  apply wp_assert_; [unfold kDummyBlockId, kInvalidBlockId; zbool; lia|]. wp_auto. cbn. wp_guard.
  wp_auto. eapply wp_from_option; [done|]. wp_auto. wp_guard. wp_auto.
  apply wp_DebugCheckInvariant; [by apply alloc_inv_popped|]. wp_auto. by apply HQ.
Qed.

Lemma wp_FreeBlock a b (Q : () → BlockAllocator → Prop) :
  alloc_inv a → 1 <= b < total_blocks_ a → b ∉ free_list_ a →
  Q () (pushed a b) → wp (FreeBlock b) Q a.
Proof.
  intros Ha Hb Hnin HQ. pose proof (inv_outstanding a Ha b ltac:(lia)) as Ho.
  rewrite decide_True in Ho by (split; [lia|done]).
  unfold FreeBlock, kInvalidBlockId, kDummyBlockId. wp_auto. wp_guard. wp_auto. wp_guard. wp_auto. wp_guard.
  wp_auto. eapply wp_from_option; [done|]. wp_auto. wp_guard. wp_auto.
  apply wp_DebugCheckInvariant; [by apply alloc_inv_pushed|done].
Qed.

#[export] Program Instance BlockAllocator_KvAllocatorLaws : KvAllocatorLaws BlockAllocator := {
  ka_valid := alloc_inv;
  ka_pool := free_list_;
}.
Next Obligation. intros a []. done. Qed.
Next Obligation. intros a b Ha Hb. cbn. rewrite alloc_inv_usable by done. pose proof (inv_range a Ha b Hb). lia. Qed.
Next Obligation. intros a Ha. by apply alloc_inv_free_blocks. Qed.
Next Obligation. intros a Ha. apply (inv_reserved a Ha). Qed.
Next Obligation. intros a Ha. cbn. rewrite alloc_inv_usable by done. pose proof (inv_total a Ha). lia. Qed.
Next Obligation. intros a n Q Ha Hn HQ. by apply wp_CanReserve. Qed.
Next Obligation.
  intros a n Q Ha Hn HQ. apply wp_Reserve; [done|done|].
  apply HQ; [|done..]. apply alloc_inv_set_reserved; [done|].
  pose proof (inv_reserved a Ha). cbn in *. unfold allocator_reserved_blocks in *. lia.
Qed.
Next Obligation.
  intros a n Q Ha Hn HQ. apply wp_Unreserve; [done|done|].
  apply HQ; [|done..]. apply alloc_inv_set_reserved; [done|].
  pose proof (inv_reserved a Ha). cbn in *. unfold allocator_reserved_blocks in *. lia.
Qed.
Next Obligation.
  intros a Q Ha Hpos HQ. apply wp_AllocReserved; [done|done|]. intros l b Hl.
  apply HQ; [by apply alloc_inv_popped| |done|done]. rewrite Hl. cbn.
  by rewrite Permutation_app_comm.
Qed.
Next Obligation.
  intros a b Q Ha Hb Hnin HQ. cbn in Hb. rewrite alloc_inv_usable in Hb by done.
  apply wp_FreeBlock; [done|lia|done|].
  apply HQ; [apply alloc_inv_pushed; [done|lia|done]| |done|done].
  cbn. by rewrite Permutation_app_comm.
Qed.

(** ** The abstract pool

    What the object means: a set of free ids and a number of promises.  An
    operation is enabled when its contract holds; allocation may hand out any
    free id. *)

Record pool : Type := mkPool { p_total : Z; p_free : gset BlockId; p_reserved : Z }.

Inductive op : Type :=
  | OpReserve (n : Z)
  | OpUnreserve (n : Z)
  | OpAlloc
  | OpFree (b : BlockId).

Definition run_op (o : op) : M error BlockAllocator (option BlockId) :=
  match o with
  | OpReserve n => Reserve n;; mret None
  | OpUnreserve n => Unreserve n;; mret None
  | OpAlloc => b ← AllocReserved; mret (Some b)
  | OpFree b => FreeBlock b;; mret None
  end.

Inductive pool_step : pool → op → option BlockId → pool → Prop :=
  | PReserve p n :
      0 <= n → p_reserved p + n <= Z.of_nat (size (p_free p)) →
      pool_step p (OpReserve n) None (mkPool (p_total p) (p_free p) (p_reserved p + n))
  | PUnreserve p n :
      0 <= n <= p_reserved p →
      pool_step p (OpUnreserve n) None (mkPool (p_total p) (p_free p) (p_reserved p - n))
  | PAlloc p b :
      0 < p_reserved p → b ∈ p_free p →
      pool_step p OpAlloc (Some b) (mkPool (p_total p) (p_free p ∖ {[b]}) (p_reserved p - 1))
  | PFree p b :
      1 <= b < p_total p → b ∉ p_free p →
      pool_step p (OpFree b) None (mkPool (p_total p) ({[b]} ∪ p_free p) (p_reserved p)).

Definition abs (a : BlockAllocator) : pool :=
  mkPool (total_blocks_ a) (list_to_set (free_list_ a)) (reserved_ a).

Lemma abs_size a : alloc_inv a → Z.of_nat (size (p_free (abs a))) = zlen (free_list_ a).
Proof. intros Ha. cbn. rewrite size_list_to_set by apply Ha. done. Qed.

(** ** Misuse is caught

    A contract violation always ends in a failed assertion (of a debug
    build), never in undefined behaviour and never silently. *)

Definition misused {A} (m : M error BlockAllocator A) (a : BlockAllocator) : Prop :=
  ∃ c a', m a = (Err (AssertionFailed c), a').

Lemma misused_bind {A B} (m : M error BlockAllocator A) (f : A → M error BlockAllocator B) a :
  misused m a → misused (m ≫= f) a.
Proof. intros (c & a' & Heq). exists c, a'. unfold mbind, M_bind. by rewrite Heq. Qed.

Lemma misused_assert {B} c b (f : () → M error BlockAllocator B) a :
  b = false ∨ misused (f ()) a → misused (assert c b ≫= f) a.
Proof.
  unfold misused, assert, assert_, mbind, M_bind. intros [->|Hf]; [by do 2 eexists|].
  destruct b; [done|by do 2 eexists].
Qed.

Lemma misused_get {B} (f : BlockAllocator → M error BlockAllocator B) a :
  misused (f a) a → misused (get ≫= f) a.
Proof. done. Qed.

Lemma misuse_Reserve a n :
  ¬ (0 <= n <= zlen (free_list_ a) - reserved_ a) → misused (Reserve n) a.
Proof.
  intros Hn. unfold Reserve. apply misused_assert.
  destruct (Z.leb_spec 0 n) as [Hle|]; [right|by left].
  assert (CanReserve n a = (Ok false, a)) as Hc.
  { unfold CanReserve, assert, assert_, mbind, M_bind, get. destruct (Z.leb_spec 0 n); [|lia].
    unfold mret, M_ret. do 2 f_equal. apply Z.leb_gt. lia. }
  unfold misused, mbind, M_bind. rewrite Hc. cbn. eauto.
Qed.

Lemma misuse_Unreserve a n : ¬ (0 <= n <= reserved_ a) → misused (Unreserve n) a.
Proof.
  intros Hn. unfold Unreserve. apply misused_assert.
  destruct (Z.leb_spec 0 n); [right|by left]. apply misused_get, misused_assert.
  left. zbool. lia.
Qed.

Lemma misuse_Alloc a : reserved_ a <= 0 → misused AllocReserved a.
Proof.
  intros Hr. unfold AllocReserved. apply misused_get, misused_assert. left. zbool. lia.
Qed.

Lemma misuse_Free a b :
  alloc_inv a → ¬ (1 <= b < total_blocks_ a ∧ b ∉ free_list_ a) → misused (FreeBlock b) a.
Proof.
  intros Ha Hb. unfold FreeBlock. apply misused_assert; right. apply misused_assert; right.
  apply misused_get, misused_assert.
  destruct (decide (1 <= b < total_blocks_ a)) as [Hr|Hr].
  2:{ left. zbool. lia. }
  right. rewrite (inv_outstanding a Ha b) by lia.
  rewrite decide_False by naive_solver. cbn. apply misused_assert. by left.
Qed.

(** ** Refinement *)

Definition enabled (p : pool) (o : op) : Prop := ∃ r p', pool_step p o r p'.

Lemma wp_ok {A S} (m : M error S A) Q s r s' : wp m Q s → m s = (Ok r, s') → Q r s'.
Proof. unfold wp. by intros Hwp Heq; rewrite Heq in Hwp. Qed.

(** An enabled operation succeeds, and its effect is the pool's. *)
Lemma run_op_enabled a o :
  alloc_inv a → enabled (abs a) o →
  wp (run_op o) (λ r a', alloc_inv a' ∧ pool_step (abs a) o r (abs a')) a.
Proof.
  intros Ha (r & p' & Hstep). pose proof (abs_size a Ha) as Hs. pose proof (inv_reserved a Ha).
  destruct o as [n|n| |b]; inversion Hstep; subst; cbn -[abs] in *; wp_auto.
  - apply wp_Reserve; [done|cbn in *; lia|]. wp_auto. split.
    + apply alloc_inv_set_reserved; [done|cbn in *; lia].
    + apply (PReserve (abs a) n); [done|lia].
  - apply wp_Unreserve; [done|cbn in *; lia|]. wp_auto. split.
    + apply alloc_inv_set_reserved; [done|cbn in *; lia].
    + by apply (PUnreserve (abs a) n).
  - apply wp_AllocReserved; [done|done|]. intros l b' Hl. wp_auto.
    split; [by apply alloc_inv_popped|].
    pose proof (inv_nodup a Ha) as Hnd. rewrite Hl in Hnd. apply NoDup_app in Hnd as (_ & Hd & _).
    replace (abs (popped a b' l))
      with (mkPool (p_total (abs a)) (p_free (abs a) ∖ {[b']}) (p_reserved (abs a) - 1)).
    + apply PAlloc; [done|]. cbn. rewrite Hl. set_solver.
    + unfold abs, popped. cbn. f_equal. rewrite Hl. apply leibniz_equiv. set_solver.
  - cbn in *. rewrite elem_of_list_to_set in *. apply wp_FreeBlock; [done|lia|done|]. wp_auto.
    split; [by apply alloc_inv_pushed|].
    replace (abs (pushed a b))
      with (mkPool (p_total (abs a)) ({[b]} ∪ p_free (abs a)) (p_reserved (abs a))).
    + apply PFree; cbn; [lia|set_solver].
    + unfold abs, pushed. cbn. f_equal. apply leibniz_equiv. set_solver.
Qed.

(** An operation outside its contract ends in a failed assertion. *)
Lemma run_op_disabled a o : alloc_inv a → ¬ enabled (abs a) o → misused (run_op o) a.
Proof.
  intros Ha Hne. pose proof (abs_size a Ha) as Hs. unfold enabled in Hne.
  destruct o as [n|n| |b]; cbn [run_op]; apply misused_bind.
  - apply misuse_Reserve. intros Hn. apply Hne. do 2 eexists. apply PReserve; [lia|].
    rewrite Hs. cbn. lia.
  - apply misuse_Unreserve. intros Hn. apply Hne. do 2 eexists. by apply PUnreserve.
  - apply misuse_Alloc. destruct (Z.le_gt_cases (reserved_ a) 0) as [|Hpos]; [done|exfalso].
    pose proof (inv_reserved a Ha) as Hr. destruct (free_list_ a) as [|b l] eqn:Hl; [zlen; lia|].
    apply Hne. do 2 eexists. apply (PAlloc _ b); [done|]. cbn. rewrite Hl. set_solver.
  - apply misuse_Free; [done|]. intros [Hb Hnin]. apply Hne. do 2 eexists.
    apply PFree; [done|]. cbn. by rewrite elem_of_list_to_set.
Qed.

(** Whether an operation is enabled can be decided from the object. *)
Lemma enabled_dec a o : alloc_inv a → enabled (abs a) o ∨ ¬ enabled (abs a) o.
Proof.
  intros Ha. pose proof (abs_size a Ha) as Hs. unfold enabled. destruct o as [n|n| |b].
  - destruct (decide (0 <= n ∧ p_reserved (abs a) + n <= Z.of_nat (size (p_free (abs a)))))
      as [[]|Hn]; [left; do 2 eexists; by apply PReserve|right].
    intros (? & ? & Hst). inversion Hst; subst. tauto.
  - destruct (decide (0 <= n <= p_reserved (abs a))) as [|Hn];
      [left; do 2 eexists; by apply PUnreserve|right].
    intros (? & ? & Hst). inversion Hst; subst. tauto.
  - destruct (decide (0 < reserved_ a)) as [Hpos|Hn]; [left|right].
    + pose proof (inv_reserved a Ha). destruct (free_list_ a) as [|b l] eqn:Hl; [zlen; lia|].
      do 2 eexists. apply (PAlloc _ b); [done|]. cbn. rewrite Hl. set_solver.
    + intros (? & ? & Hst). inversion Hst; subst. done.
  - destruct (decide (1 <= b < p_total (abs a) ∧ b ∉ p_free (abs a))) as [[]|Hn];
      [left; do 2 eexists; by apply PFree|right].
    intros (? & ? & Hst). inversion Hst; subst. tauto.
Qed.

Fixpoint run_ops (os : list op) : M error BlockAllocator (list (option BlockId)) :=
  match os with
  | [] => mret []
  | o :: os' => r ← run_op o; rs ← run_ops os'; mret (r :: rs)
  end.

Inductive pool_trace : pool → list op → list (option BlockId) → pool → Prop :=
  | trace_nil p : pool_trace p [] [] p
  | trace_cons p o r p1 os rs p2 :
      pool_step p o r p1 → pool_trace p1 os rs p2 → pool_trace p (o :: os) (r :: rs) p2.

(** The outcome of a run of operations, read in the abstract pool. *)
Definition run_refines (a : BlockAllocator) (os : list op) : Prop :=
  match run_ops os a with
  | (Ok rs, a') => alloc_inv a' ∧ pool_trace (abs a) os rs (abs a')
  | (Err e, _) => ∃ pre o post rs a1 c, os = pre ++ o :: post ∧ run_ops pre a = (Ok rs, a1) ∧
                    pool_trace (abs a) pre rs (abs a1) ∧ ¬ enabled (abs a1) o ∧ e = AssertionFailed c
  end.

Lemma run_ops_refines os : ∀ a, alloc_inv a → run_refines a os.
Proof.
  induction os as [|o os IH]; intros a Ha; [by split; [|constructor]|].
  unfold run_refines. cbn [run_ops]. unfold mbind, M_bind.
  destruct (run_op o a) as [[r|e] a1] eqn:Ho.
  - assert (enabled (abs a) o) as Hen.
    { destruct (enabled_dec a o Ha) as [|Hne]; [done|].
      destruct (run_op_disabled a o Ha Hne) as (c & a2 & Heq). congruence. }
    destruct (wp_ok _ _ _ _ _ (run_op_enabled a o Ha Hen) Ho) as [Ha1 Hstep].
    specialize (IH a1 Ha1). unfold run_refines in IH.
    destruct (run_ops os a1) as [[rs|e] a2].
    + destruct IH as [? ?]. split; [done|by econstructor].
    + destruct IH as (pre & o' & post & rs & a3 & c & -> & Hrun & Htr & Hne & ->).
      exists (o :: pre), o', post, (r :: rs), a3, c. split_and!; [done| |by econstructor|done|done].
      cbn [run_ops]. unfold mbind, M_bind. by rewrite Ho, Hrun.
  - exists [], o, os, [], a. assert (¬ enabled (abs a) o) as Hne.
    { intros Hen. pose proof (run_op_enabled a o Ha Hen) as Hwp. unfold wp in Hwp. by rewrite Ho in Hwp. }
    destruct (run_op_disabled a o Ha Hne) as (c & a2 & Heq). exists c.
    split_and!; [done|done|constructor|done|congruence].
Qed.

(** The pool a fresh object stands for: ids [1 .. total - 1] free, no promise. *)
Definition new_pool (total : Z) : pool :=
  mkPool total (list_to_set (seqZ 1 (total - 1))) 0.

(** C15. The allocator implements the abstract pool.  Construction yields the
    full pool, and every run of operations on the fresh object either is a
    trace of the pool, or follows the pool up to the first operation that the
    pool does not enable and fails there on an assertion of a debug build:
    over-reserving, double free, freeing a foreign or the dummy block and
    allocating without a promise are all caught. *)
Theorem allocator_refines_pool (total : Z) (os : list op) :
  1 <= total <= int32_max →
  ∃ a, BlockAllocator_new total = Ok a ∧ abs a = new_pool total ∧ run_refines a os.
Proof.
  intros Ht. destruct (alloc_inv_new total Ht) as (a & Hnew & Ha & Htot & Hres & Hfree).
  exists a. split_and!; [done| |by apply run_ops_refines].
  unfold abs, new_pool. rewrite Htot, Hres, Hfree. f_equal.
  apply leibniz_equiv. intros b.
  by rewrite !elem_of_list_to_set, initial_free_list_elem, elem_of_seqZ; lia.
Qed.

Lemma allocator_refines_pool_witness :
  1 <= 4 <= int32_max ∧
  ∃ a, BlockAllocator_new 4 = Ok a ∧ abs a = new_pool 4 ∧
       run_refines a [OpReserve 2; OpAlloc; OpFree 1; OpFree 1].
Proof. split; [done|]. apply (allocator_refines_pool 4 [OpReserve 2; OpAlloc; OpFree 1; OpFree 1]). done. Defined.

(** Allocating [n] times in a row. *)
Fixpoint alloc_many (n : nat) : M error BlockAllocator (list BlockId) :=
  match n with
  | O => mret []
  | S n' => b ← AllocReserved; bs ← alloc_many n'; mret (b :: bs)
  end.

Lemma alloc_many_spec n : ∀ a l,
  alloc_inv a → free_list_ a = l ++ reverse (seqZ (total_blocks_ a - zlen (free_list_ a)) (Z.of_nat n)) →
  Z.of_nat n <= reserved_ a →
  wp (alloc_many n) (λ bs a', bs = seqZ (total_blocks_ a - zlen (free_list_ a)) (Z.of_nat n) ∧
                              reserved_ a' = reserved_ a - Z.of_nat n) a.
Proof.
  induction n as [|n IH]; intros a l Ha Hl Hr; [split; [done|lia]|].
  cbn [alloc_many]. wp_auto. apply wp_AllocReserved; [done|lia|]. intros l1 b Hl1.
  assert (zlen (free_list_ a) = zlen l1 + 1) as Hlen by (rewrite Hl1; zlen; lia).
  rewrite Hl1 in Hl at 1. rewrite seqZ_cons in Hl by lia.
  rewrite reverse_cons, app_assoc in Hl. apply app_inj_tail in Hl as [Hl1' ->].
  wp_auto. eapply wp_mono; [apply (IH _ l)|].
  - apply alloc_inv_popped; [done|done|lia].
  - cbn. rewrite Hl1' at 1. do 3 f_equal; lia.
  - cbn. lia.
  - cbn. intros bs a' [-> Ha']. wp_auto. split; [|lia].
    rewrite (seqZ_cons _ (Z.of_nat (S n))) by lia. f_equal. f_equal; lia.
Qed.

Lemma initial_free_list_split total n :
  0 <= n < total →
  initial_free_list total = reverse (seqZ (1 + n) (total - 1 - n)) ++ reverse (seqZ 1 n).
Proof.
  intros. unfold initial_free_list. rewrite <- reverse_app. f_equal.
  rewrite <- seqZ_app by lia. f_equal; lia.
Qed.

Lemma initial_free_list_zlen total : 1 <= total → zlen (initial_free_list total) = total - 1.
Proof. intros. unfold zlen, initial_free_list. rewrite length_reverse, length_seqZ. lia. Qed.

(** A fresh pool is handed out in ascending order of ids, starting at 1:
    the dummy block 0 is never allocated. *)
Theorem alloc_ascending (total : Z) (n : nat) :
  1 <= total <= int32_max → Z.of_nat n < total →
  ∃ a, BlockAllocator_new total = Ok a ∧
       wp (Reserve (Z.of_nat n);; alloc_many n)
          (λ bs a', bs = seqZ 1 (Z.of_nat n) ∧ reserved_ a' = 0) a.
Proof.
  intros Ht Hn. destruct (alloc_inv_new total Ht) as (a & Hnew & Ha & Htot & Hres & Hfree).
  exists a. split; [done|].
  assert (zlen (free_list_ a) = total - 1) as Hz by (rewrite Hfree; apply initial_free_list_zlen; lia).
  wp_auto. apply wp_Reserve; [done|lia|].
  eapply wp_mono; [apply (alloc_many_spec n _ (reverse (seqZ (1 + Z.of_nat n) (total - 1 - Z.of_nat n))))|].
  - apply alloc_inv_set_reserved; [done|lia].
  - cbn. rewrite Hz, Htot, Hfree. replace (total - (total - 1)) with 1 by lia.
    apply initial_free_list_split. lia.
  - cbn. lia.
  - cbn. rewrite Hz, Htot, Hres. intros bs a' [-> ?]. split; [|lia]. f_equal; lia.
Qed.

Lemma alloc_ascending_witness :
  1 <= 6 <= int32_max ∧ Z.of_nat 3 < 6 ∧
  ∃ a, BlockAllocator_new 6 = Ok a ∧
       wp (Reserve (Z.of_nat 3);; alloc_many 3)
          (λ bs a', bs = seqZ 1 (Z.of_nat 3) ∧ reserved_ a' = 0) a.
Proof. split_and!; [done|done|done|]. apply (alloc_ascending 6 3); done. Defined.
