(* ===== verification/Scheduler.v ===== *)
(** * The continuous-batching scheduler ([core/scheduler.{hpp,cpp}])

    Requests are shared objects ([std::shared_ptr]): the heap maps a pointer to
    the request it points to, and queues, plans and the engine's map hold
    pointers.  The scheduler runs on a [World]: that heap, the allocator object
    it was given, and its own members.  The allocator is used through
    [KvAllocator] only.  Every [assert] of a debug build, every access the C++
    standard leaves undefined out of range, and every [int32] sum that could
    overflow is an explicit check that can fail.

    Vectors and deques are lists with the front first, so [running_]'s youngest
    sequence is its last element; [free_slots_] is a stack whose top is its
    last element.  Loops run with a fuel taken from the state; SchedulerInv
    proves that it is never used up. *)

From S2P Require Import Prelude Doubles Types BlockAllocator.

(** ** Options, plans, members *)

Inductive AdmissionPolicy : Type := kReserveFull | kWatermark.

#[export] Instance AdmissionPolicy_eq_dec : EqDecision AdmissionPolicy.
Proof. solve_decision. Defined.

Record SchedulerOptions : Type := mkSchedulerOptions {
  max_batch : Z;
  prefill_chunk_tokens : Z;
  max_seq_len : Z;
  admission_policy : AdmissionPolicy;
  watermark_free_fraction : double;
  eos_token_ids : list TokenId;
}.

Definition RequestPtr : Type := positive.

Record StepPlan : Type := mkStepPlan {
  prefill : option RequestPtr;
  prefill_begin : Z;
  prefill_end : Z;
  decode : list RequestPtr;
  aborted : list RequestPtr;
}.

Definition StepPlan_new : StepPlan := mkStepPlan None 0 0 [] [].

Definition plan_empty (plan : StepPlan) : bool :=
  match prefill plan with None => is_nil (decode plan) && is_nil (aborted plan) | Some _ => false end.

Definition is_prefill (plan : StepPlan) : bool :=
  match prefill plan with Some _ => true | None => false end.

Record Scheduler : Type := mkScheduler {
  options_ : SchedulerOptions;
  waiting_ : list RequestPtr;
  prefill_queue_ : list RequestPtr;
  running_ : list RequestPtr;
  free_slots_ : list Z;
}.

Definition num_waiting (s : Scheduler) : Z := zlen (waiting_ s).
Definition num_running (s : Scheduler) : Z := zlen (prefill_queue_ s) + zlen (running_ s).

(** ** Decode buckets *)

Definition kLadder : list Z := [1; 2; 4; 8; 16; 32; 48; 64].

Definition MakeDecodeBuckets (batch_cap : Z) : list Z :=
  filter (λ bucket, bucket <= batch_cap) kLadder.

Definition SelectBucket (batch_size : Z) (buckets : list Z) : Z :=
  if batch_size <=? 0 then -1 else
  default (-1) (List.find (λ bucket, batch_size <=? bucket) buckets).

(** ** The world and its accessors *)

Record World (A : Type) : Type := mkWorld {
  w_heap : gmap RequestPtr Request;
  w_alloc : A;
  w_sched : Scheduler;
}.
Arguments mkWorld {A}.
Arguments w_heap {A}.
Arguments w_alloc {A}.
Arguments w_sched {A}.

Definition set_waiting q (s : Scheduler) : Scheduler :=
  mkScheduler (options_ s) q (prefill_queue_ s) (running_ s) (free_slots_ s).
Definition set_prefill_queue q (s : Scheduler) : Scheduler :=
  mkScheduler (options_ s) (waiting_ s) q (running_ s) (free_slots_ s).
Definition set_running q (s : Scheduler) : Scheduler :=
  mkScheduler (options_ s) (waiting_ s) (prefill_queue_ s) q (free_slots_ s).
Definition set_free_slots q (s : Scheduler) : Scheduler :=
  mkScheduler (options_ s) (waiting_ s) (prefill_queue_ s) (running_ s) q.

Definition set_decode q (p : StepPlan) : StepPlan :=
  mkStepPlan (prefill p) (prefill_begin p) (prefill_end p) q (aborted p).
Definition set_aborted q (p : StepPlan) : StepPlan :=
  mkStepPlan (prefill p) (prefill_begin p) (prefill_end p) (decode p) q.

(** The constructor. *)
Definition Scheduler_new (options : SchedulerOptions) : outcome error Scheduler :=
  let s := mkScheduler options [] [] [] (reverse (seqZ 0 (max_batch options))) in
  fst ((assert "max_batch >= 1" (1 <=? max_batch options);;
        assert "prefill_chunk_tokens >= 1" (1 <=? prefill_chunk_tokens options);;
        assert "max_seq_len >= 2" (2 <=? max_seq_len options);;
        assert "watermark_free_fraction in [0, 1)"
          (double_ge (watermark_free_fraction options) (double_of_Z 0) &&
           double_lt (watermark_free_fraction options) (double_of_Z 1));;
        mret s) tt).

(** An [int32] sum: outside the representable range it is undefined behaviour. *)
Definition int32_checked {S} (z : Z) : M error S Z :=
  if bool_decide (int32_ok z) then mret z else throw (UndefinedBehaviour "int32 overflow").

Definition blocks_for_tokens {S} (n : Z) : M error S Z :=
  int32_checked (n + kKvBlockSize);; mret (BlocksForTokens n).

(** [vector::erase] of the element [std::find] finds. *)
Fixpoint erase (p : RequestPtr) (l : list RequestPtr) : list RequestPtr :=
  match l with
  | [] => []
  | q :: l' => if decide (q = p) then l' else q :: erase p l'
  end.

Section scheduler.
Context {A : Type} `{!KvAllocator A}.

Notation SM := (M error (World A)).

Definition deref (p : RequestPtr) : SM Request :=
  w ← get;
  from_option_or (UndefinedBehaviour "dangling request pointer") (w_heap w !! p).

Definition update_request (p : RequestPtr) (f : Request → Request) : SM () :=
  modify (λ w, mkWorld (alter f p (w_heap w)) (w_alloc w) (w_sched w)).

Definition update_sched (f : Scheduler → Scheduler) : SM () :=
  modify (λ w, mkWorld (w_heap w) (w_alloc w) (f (w_sched w))).

Definition on_allocator {B} (m : M error A B) : SM B :=
  zoom w_alloc (λ a w, mkWorld (w_heap w) a (w_sched w)) m.

Definition scheduler : SM Scheduler := gets w_sched.
Definition allocator : SM A := gets w_alloc.

(** ** Enqueue *)

Definition throw_invalid {B} (r : reject) : SM B := throw (InvalidArgument r).

Definition ValidateRequest (request : Request) : SM () :=
  s ← scheduler;
  a ← allocator;
  let prompt_len := zlen (prompt_tokens request) in
  if prompt_len =? 0 then throw_invalid (PromptEmpty (id request)) else
  if max_new_tokens request <=? 0
  then throw_invalid (MaxNewNotPositive (id request) (max_new_tokens request)) else
  if max_seq_len (options_ s) <? prompt_len + max_new_tokens request
  then throw_invalid (ExceedsMaxSeqLen (id request) prompt_len (max_new_tokens request)
                        (max_seq_len (options_ s))) else
  match admission_policy (options_ s) with
  | kReserveFull =>
      worst_case ← blocks_for_tokens (num_prompt_tokens request + max_new_tokens request);
      if ka_usable_blocks a <? worst_case
      then throw_invalid (NeedsTooManyBlocks (id request) worst_case (ka_usable_blocks a))
      else mret ()
  | kWatermark =>
      prompt_blocks ← blocks_for_tokens (num_prompt_tokens request);
      let usable := ka_usable_blocks a in
      let floor := double_mul (watermark_free_fraction (options_ s)) (double_of_Z usable) in
      if double_lt (double_of_Z (usable - prompt_blocks)) floor
      then throw_invalid (PromptBreaksFloor (id request) prompt_blocks usable floor)
      else mret ()
  end.

Definition Enqueue (p : RequestPtr) : SM () :=
  request ← deref p;
  assert "request->state == kWaiting" (bool_decide (state request = kWaiting));;
  ValidateRequest request;;
  update_sched (λ s, set_waiting (waiting_ s ++ [p]) s).

(** ** Admission *)

Definition CanAdmit (request : Request) : SM bool :=
  s ← scheduler;
  match admission_policy (options_ s) with
  | kReserveFull =>
      n ← blocks_for_tokens (num_prompt_tokens request + max_new_tokens request);
      on_allocator (ka_CanReserve n)
  | kWatermark =>
      a ← allocator;
      let uncommitted := ka_free_blocks a - ka_reserved_blocks a in
      prompt_blocks ← blocks_for_tokens (num_prompt_tokens request);
      let floor := double_mul (watermark_free_fraction (options_ s))
                     (double_of_Z (ka_usable_blocks a)) in
      mret (double_ge (double_of_Z (uncommitted - prompt_blocks)) floor)
  end.

Definition ReservationFor (request : Request) : SM Z :=
  s ← scheduler;
  match admission_policy (options_ s) with
  | kReserveFull => blocks_for_tokens (num_prompt_tokens request + max_new_tokens request)
  | kWatermark => blocks_for_tokens (num_prompt_tokens request)
  end.

Definition Admit : SM () :=
  s ← scheduler;
  p ← from_option_or (UndefinedBehaviour "front() of an empty deque") (head (waiting_ s));
  update_sched (set_waiting (tail (waiting_ s)));;
  request ← deref p;
  reservation ← ReservationFor request;
  on_allocator (ka_Reserve reservation);;
  update_request p (set_reserved_blocks reservation);;
  assert "!free_slots_.empty()" (negb (is_nil (free_slots_ s)));;
  sl ← from_option_or (UndefinedBehaviour "back() of an empty vector") (back (free_slots_ s));
  update_request p (set_slot sl);;
  update_sched (set_free_slots (pop_back (free_slots_ s)));;
  update_request p (set_state kPrefill);;
  update_sched (λ s', set_prefill_queue (prefill_queue_ s' ++ [p]) s').

(** One test-and-body of the admission [while]. *)
Definition admission_step (_ : ()) : SM (() + ()) :=
  s ← scheduler;
  match waiting_ s with
  | [] => mret (inr ())
  | p :: _ =>
      if num_running s <? max_batch (options_ s) then
        request ← deref p;
        ok ← CanAdmit request;
        if ok : bool then Admit;; mret (inl ()) else mret (inr ())
      else mret (inr ())
  end.

Definition AdmitWaiting : SM () :=
  s ← scheduler;
  loop OutOfFuel (S (length (waiting_ s))) admission_step ().

(** ** Release and abort *)

Fixpoint FreeBlocks (blocks : list BlockId) : SM () :=
  match blocks with
  | [] => mret ()
  | b :: blocks' => on_allocator (ka_FreeBlock b);; FreeBlocks blocks'
  end.

Definition ReleaseResources (p : RequestPtr) : SM () :=
  request ← deref p;
  let (owned, table) := Release (block_table request) in
  update_request p (set_block_table table);;
  FreeBlocks owned;;
  on_allocator (ka_Unreserve (reserved_blocks request));;
  update_request p (set_reserved_blocks 0);;
  if 0 <=? slot request then
    update_sched (λ s, set_free_slots (free_slots_ s ++ [slot request]) s);;
    update_request p (set_slot (-1))
  else mret ().

Definition AbortYoungestRunning (plan : StepPlan) : SM StepPlan :=
  s ← scheduler;
  victim ← from_option_or (UndefinedBehaviour "back() of an empty vector") (back (running_ s));
  update_sched (set_running (pop_back (running_ s)));;
  update_request victim (set_state kFinished);;
  update_request victim (set_finish_reason kAborted);;
  ReleaseResources victim;;
  mret (set_aborted (aborted plan ++ [victim]) plan).

(** ** Block growth *)

(** [request->block_table.Append(allocator_->AllocReserved())] *)
Definition append_reserved (p : RequestPtr) : SM () :=
  b ← on_allocator ka_AllocReserved;
  update_request p (λ r, set_block_table (Append b (block_table r)) r).

(** The same out of the request's own reservation. *)
Definition materialize (p : RequestPtr) : SM () :=
  request ← deref p;
  assert "request->reserved_blocks > 0" (0 <? reserved_blocks request);;
  append_reserved p;;
  update_request p (λ r, set_reserved_blocks (reserved_blocks r - 1) r).

(** One test-and-body of the abort [while]: [inr (true, plan)] when a block can
    be reserved, [inr (false, plan)] when [p] itself was the victim. *)
Definition growth_step (p : RequestPtr) (plan : StepPlan) : SM (StepPlan + bool * StepPlan) :=
  ok ← on_allocator (ka_CanReserve 1);
  if ok : bool then mret (inr (true, plan)) else
  s ← scheduler;
  assert "!running_.empty()" (negb (is_nil (running_ s)));;
  youngest ← from_option_or (UndefinedBehaviour "back() of an empty vector") (back (running_ s));
  let victim_is_self := bool_decide (youngest = p) in
  plan' ← AbortYoungestRunning plan;
  mret (if victim_is_self then inr (false, plan') else inl plan').

Definition EnsureDecodeBlockCapacity (p : RequestPtr) (plan : StepPlan) : SM (bool * StepPlan) :=
  s ← scheduler;
  match admission_policy (options_ s) with
  | kReserveFull => materialize p;; mret (true, plan)
  | kWatermark =>
      r ← loop OutOfFuel (S (length (running_ s))) (growth_step p) plan;
      if fst r : bool then
        on_allocator (ka_Reserve 1);;
        append_reserved p;;
        mret r
      else mret r
  end.

(** ** Planning *)

Definition materialize_step (p : RequestPtr) (upto : Z) (_ : ()) : SM (() + ()) :=
  request ← deref p;
  if token_capacity (block_table request) <? upto
  then materialize p;; mret (inl ())
  else mret (inr ()).

Definition PlanPrefill (p : RequestPtr) : SM StepPlan :=
  s ← scheduler;
  request ← deref p;
  assert "request->state == kPrefill" (bool_decide (state request = kPrefill));;
  upto ← int32_checked (prefill_progress request + prefill_chunk_tokens (options_ s));
  let pbegin := prefill_progress request in
  let pend := Z.min upto (num_prompt_tokens request) in
  assert "plan.prefill_begin < plan.prefill_end" (pbegin <? pend);;
  loop OutOfFuel (S (Z.to_nat pend)) (materialize_step p pend) ();;
  mret (mkStepPlan (Some p) pbegin pend [] []).

(** One test-and-body of the decode [for]: index and plan so far. *)
Definition decode_step (x : nat * StepPlan) : SM (nat * StepPlan + StepPlan) :=
  let (i, plan) := x in
  s ← scheduler;
  match running_ s !! i with
  | None => mret (inr plan)
  | Some p =>
      if zlen (decode plan) <? max_batch (options_ s) then
        request ← deref p;
        if token_capacity (block_table request) <=? seq_len request - 1 then
          assert "seq_len() - 1 == token_capacity()"
            (seq_len request - 1 =? token_capacity (block_table request));;
          r ← EnsureDecodeBlockCapacity p plan;
          if fst r : bool
          then mret (inl (S i, set_decode (decode (snd r) ++ [p]) (snd r)))
          else mret (inl (i, snd r))
        else mret (inl (S i, set_decode (decode plan ++ [p]) plan))
      else mret (inr plan)
  end.

Definition PlanDecode : SM StepPlan :=
  s ← scheduler;
  loop OutOfFuel (S (length (running_ s))) decode_step (O, StepPlan_new).

Definition PlanStep : SM StepPlan :=
  AdmitWaiting;;
  s ← scheduler;
  match prefill_queue_ s with
  | p :: _ => PlanPrefill p
  | [] => PlanDecode
  end.

(** ** Completion *)

Definition IsEosToken (options : SchedulerOptions) (t : TokenId) : bool :=
  bool_decide (t ∈ eos_token_ids options).

(** The token appended at [position]: the scripted one while there is one. *)
Definition appended_token (request : Request) (sampled_token : TokenId) : TokenId :=
  default sampled_token (forced_tokens request !! length (output_tokens request)).

(** The stop checks, on the request after the append. *)
Definition stop_reason (options : SchedulerOptions) (request : Request) (appended : TokenId) : FinishReason :=
  if negb (ignore_eos request) && IsEosToken options appended then kEos
  else if max_new_tokens request <=? num_output_tokens request then kLength
  else kNone.

Definition ApplySampledToken (p : RequestPtr) (sampled_token : TokenId) : SM StepResult :=
  request ← deref p;
  assert "request->state == kPrefill || kRunning"
    (bool_decide (state request = kPrefill) || bool_decide (state request = kRunning));;
  let from_prefill := bool_decide (state request = kPrefill) in
  let appended := appended_token request sampled_token in
  update_request p (λ r, set_output_tokens (output_tokens r ++ [appended]) r);;
  request ← deref p;
  s ← scheduler;
  match stop_reason (options_ s) request appended with
  | kNone =>
      (if from_prefill : bool then
         update_request p (set_state kRunning);;
         update_sched (λ s', set_running (running_ s' ++ [p]) s')
       else mret ());;
      mret (mkStepResult (id request) sampled_token false kNone)
  | reason =>
      update_request p (set_state kFinished);;
      update_request p (set_finish_reason reason);;
      ReleaseResources p;;
      (if from_prefill : bool then mret () else
         s' ← scheduler;
         assert "it != running_.end()" (bool_decide (p ∈ running_ s'));;
         update_sched (set_running (erase p (running_ s'))));;
      mret (mkStepResult (id request) sampled_token true reason)
  end.

Fixpoint report_aborted (l : list RequestPtr) : SM (list StepResult) :=
  match l with
  | [] => mret []
  | p :: l' =>
      request ← deref p;
      assert "state == kFinished && finish_reason == kAborted"
        (bool_decide (state request = kFinished) && bool_decide (finish_reason request = kAborted));;
      rest ← report_aborted l';
      mret (mkStepResult (id request) 0 true kAborted :: rest)
  end.

(** Rows [i], [i + 1], ... of a decode plan with their sampled tokens. *)
Fixpoint apply_rows (i : nat) (rows : list RequestPtr) (sampled_tokens : list TokenId) : SM (list StepResult) :=
  match rows with
  | [] => mret []
  | p :: rows' =>
      t ← from_option_or (UndefinedBehaviour "sampled_tokens index") (sampled_tokens !! i);
      result ← ApplySampledToken p t;
      rest ← apply_rows (S i) rows' sampled_tokens;
      mret (result :: rest)
  end.

Definition CompleteStep (plan : StepPlan) (sampled_tokens : list TokenId) : SM (list StepResult) :=
  emissions ← report_aborted (aborted plan);
  match prefill plan with
  | Some p =>
      s ← scheduler;
      assert "prefill_queue_.front() == request" (bool_decide (head (prefill_queue_ s) = Some p));;
      request ← deref p;
      assert "prefill_progress == plan.prefill_begin"
        (prefill_progress request =? prefill_begin plan);;
      update_request p (set_prefill_progress (prefill_end plan));;
      request ← deref p;
      if negb (prefill_done request) then
        assert "sampled_tokens.empty()" (is_nil sampled_tokens);;
        mret emissions
      else
        assert "sampled_tokens.size() == 1" (zlen sampled_tokens =? 1);;
        update_sched (set_prefill_queue (tail (prefill_queue_ s)));;
        t ← from_option_or (UndefinedBehaviour "front() of an empty vector") (head sampled_tokens);
        result ← ApplySampledToken p t;
        mret (emissions ++ [result])
  | None =>
      assert "sampled_tokens.size() == plan.decode.size()"
        (zlen sampled_tokens =? zlen (decode plan));;
      rest ← apply_rows 0 (decode plan) sampled_tokens;
      mret (emissions ++ rest)
  end.

(** [plan.final_prefill_chunk()] *)
Definition final_prefill_chunk (plan : StepPlan) : SM bool :=
  match prefill plan with
  | None => mret false
  | Some p => request ← deref p; mret (prefill_end plan =? num_prompt_tokens request)
  end.

End scheduler.
