(* ===== verification/SchedulerInv.v ===== *)
(** * The scheduler's invariant and its preservation

    The block ids, the promises and the batch slots held by the admitted
    requests account exactly for the allocator and the free-slot stack
    ([accounts]); every queued request satisfies the predicate of its queue.
    The operations of Scheduler.v are executed symbolically with the [wp] rules,
    which exclude every assertion failure, undefined access, integer overflow
    and exhausted fuel on the way. *)

From S2P Require Import Prelude Doubles Types BlockAllocator Scheduler.

(** ** Options *)

Record opts_ok (o : SchedulerOptions) : Prop := {
  oo_batch : 1 <= max_batch o;
  oo_chunk : 1 <= prefill_chunk_tokens o;
  oo_seq : 2 <= max_seq_len o;
  oo_blocks : max_seq_len o + kKvBlockSize <= int32_max;
  oo_sum : max_seq_len o + prefill_chunk_tokens o <= int32_max;
  oo_floor : double_finite_nonneg (watermark_free_fraction o);
}.

(** ** Requests, by the queue they are in *)

#[export] Instance Request_inhabited : Inhabited Request :=
  populate (new_request 0 [] 0 false []).

Definition nblocks (r : Request) : Z := zlen (blocks_ (block_table r)).
Definition nprompt (r : Request) : Z := zlen (prompt_tokens r).
Definition noutput (r : Request) : Z := zlen (output_tokens r).

(** What only the engine's caller and token production set. *)
Definition text (r : Request) : RequestId * list TokenId * list TokenId * list TokenId * Z * bool :=
  (id r, prompt_tokens r, output_tokens r, forced_tokens r, max_new_tokens r, ignore_eos r).

(** What [ValidateRequest] established. *)
Record static_ok (o : SchedulerOptions) (r : Request) : Prop := {
  so_prompt : 0 < nprompt r;
  so_new : 0 < max_new_tokens r;
  so_len : nprompt r + max_new_tokens r <= max_seq_len o;
}.

(** An idle pool of [u] usable blocks admits the request. *)
Definition fits (o : SchedulerOptions) (u : Z) (r : Request) : Prop :=
  match admission_policy o with
  | kReserveFull => BlocksForTokens (nprompt r + max_new_tokens r) <= u
  | kWatermark => double_lt (double_of_Z (u - BlocksForTokens (nprompt r)))
                    (double_mul (watermark_free_fraction o) (double_of_Z u)) = false
  end.

(** The blocks promised at admission. *)
Definition target (o : SchedulerOptions) (r : Request) : Z :=
  match admission_policy o with
  | kReserveFull => BlocksForTokens (nprompt r + max_new_tokens r)
  | kWatermark => BlocksForTokens (nprompt r)
  end.

Record waiting_ok (o : SchedulerOptions) (u : Z) (r : Request) : Prop := {
  wo_static : static_ok o r;
  wo_fits : fits o u r;
  wo_state : state r = kWaiting;
  wo_output : output_tokens r = [];
  wo_slot : slot r = -1;
  wo_reserved : reserved_blocks r = 0;
  wo_progress : prefill_progress r = 0;
  wo_table : block_table r = BlockTable_empty;
}.

Record prefill_ok (o : SchedulerOptions) (r : Request) : Prop := {
  po_static : static_ok o r;
  po_state : state r = kPrefill;
  po_output : output_tokens r = [];
  po_progress : 0 <= prefill_progress r < nprompt r;
  po_covered : prefill_progress r <= 16 * nblocks r;
  po_reserved : 0 <= reserved_blocks r;
  po_target : nblocks r + reserved_blocks r = target o r;
  po_blocks : nblocks r <= BlocksForTokens (nprompt r);
}.

Record running_ok (o : SchedulerOptions) (r : Request) : Prop := {
  ro_static : static_ok o r;
  ro_state : state r = kRunning;
  ro_progress : prefill_progress r = nprompt r;
  ro_output : 1 <= noutput r < max_new_tokens r;
  ro_reserved : 0 <= reserved_blocks r;
  ro_target : match admission_policy o with
              | kReserveFull => nblocks r + reserved_blocks r = target o r
              | kWatermark => reserved_blocks r = 0
              end;
  ro_blocks : BlocksForTokens (nprompt r + noutput r - 1) <= nblocks r
              <= BlocksForTokens (nprompt r + noutput r);
}.

(** Under these bounds the [int32] views of the sizes are the sizes. *)
Section sizes.
Context (o : SchedulerOptions) (r : Request) (Ho : opts_ok o) (Hr : static_ok o r).

Lemma num_prompt_tokens_eq : num_prompt_tokens r = nprompt r.
Proof using Ho Hr.
  destruct Ho, Hr. apply to_int32_id. pose proof (zlen_nonneg (prompt_tokens r)).
  unfold int32_ok, int32_max, nprompt, kKvBlockSize in *. lia.
Qed.

Lemma num_output_tokens_eq : noutput r <= max_new_tokens r → num_output_tokens r = noutput r.
Proof using Ho Hr.
  destruct Ho, Hr. intros. apply to_int32_id. pose proof (zlen_nonneg (output_tokens r)).
  unfold int32_ok, int32_max, noutput, kKvBlockSize in *. lia.
Qed.

Lemma seq_len_eq : noutput r <= max_new_tokens r → seq_len r = nprompt r + noutput r.
Proof using Ho Hr.
  intros. unfold seq_len. by rewrite num_prompt_tokens_eq, num_output_tokens_eq.
Qed.

Lemma token_capacity_eq :
  nblocks r <= BlocksForTokens (nprompt r + max_new_tokens r) →
  token_capacity (block_table r) = 16 * nblocks r.
Proof using Ho Hr.
  destruct Ho, Hr. intros Hb.
  pose proof (BlocksForTokens_le (nprompt r + max_new_tokens r) ltac:(lia)).
  pose proof (zlen_nonneg (blocks_ (block_table r))).
  unfold token_capacity, num_blocks. rewrite to_int32_id; [unfold nblocks, kKvBlockSize; lia|].
  unfold int32_ok, int32_max, nblocks, kKvBlockSize in *. lia.
Qed.

Lemma target_nonneg : 0 <= target o r.
Proof using Hr.
  destruct Hr. unfold target. destruct (admission_policy o); apply BlocksForTokens_nonneg; lia.
Qed.

Lemma prompt_blocks_le : BlocksForTokens (nprompt r) <= BlocksForTokens (nprompt r + max_new_tokens r).
Proof using Hr. destruct Hr. apply BlocksForTokens_mono. lia. Qed.

Lemma prompt_blocks_le_target : BlocksForTokens (nprompt r) <= target o r.
Proof using Hr.
  unfold target. destruct (admission_policy o); [apply prompt_blocks_le|lia].
Qed.
End sizes.

(** ** The heap *)

Notation Heap := (gmap RequestPtr Request).

(** Every pointer of [l] points to a request that satisfies [P]. *)
Definition all_req (h : Heap) (P : Request → Prop) (l : list RequestPtr) : Prop :=
  Forall (λ p, ∃ r, h !! p = Some r ∧ P r) l.

Lemma all_req_elem h P l p : all_req h P l → p ∈ l → ∃ r, h !! p = Some r ∧ P r.
Proof. intros H ?. by apply (proj1 (Forall_forall _ _) H). Qed.

Lemma all_req_frame h h' P l :
  (∀ q, q ∈ l → h' !! q = h !! q) → all_req h P l → all_req h' P l.
Proof.
  intros Hf H. apply Forall_forall. intros q Hq. rewrite Hf by done.
  by apply (all_req_elem h P l).
Qed.

Lemma all_req_insert h P l p r : p ∉ l → all_req h P l → all_req (<[p := r]> h) P l.
Proof. intros Hp. apply all_req_frame. intros q Hq. rewrite lookup_insert_ne; [done|set_solver]. Qed.

Lemma all_req_app h P l k : all_req h P (l ++ k) ↔ all_req h P l ∧ all_req h P k.
Proof. apply Forall_app. Qed.

Lemma all_req_mono h (P Q : Request → Prop) l : (∀ r, P r → Q r) → all_req h P l → all_req h Q l.
Proof. intros HPQ H. eapply Forall_impl; [exact H|]. naive_solver. Qed.

Definition blocks_at (h : Heap) (p : RequestPtr) : list BlockId := blocks_ (block_table (h !!! p)).

(** Block ids owned, blocks promised and slots held by the requests of [l]. *)
Definition owned (h : Heap) (l : list RequestPtr) : list BlockId := concat (map (blocks_at h) l).
Definition promised (h : Heap) (l : list RequestPtr) : Z :=
  sumZ (map (λ p, reserved_blocks (h !!! p)) l).
Definition slots (h : Heap) (l : list RequestPtr) : list Z := map (λ p, slot (h !!! p)) l.

#[export] Instance owned_proper h : Proper ((≡ₚ) ==> (≡ₚ)) (owned h).
Proof.
  unfold owned. intros l k H. induction H; cbn [map concat]; [done|by f_equiv| |by etrans].
  rewrite !(assoc (++)). f_equiv. apply Permutation_app_comm.
Qed.

#[export] Instance promised_proper h : Proper ((≡ₚ) ==> (=)) (promised h).
Proof. intros l k H. unfold promised. by rewrite H. Qed.

#[export] Instance slots_proper h : Proper ((≡ₚ) ==> (≡ₚ)) (slots h).
Proof. intros l k H. unfold slots. by rewrite H. Qed.

Lemma map_frame {B} (f : Request → B) (h h' : Heap) l :
  (∀ q, q ∈ l → h' !! q = h !! q) → map (λ p, f (h' !!! p)) l = map (λ p, f (h !!! p)) l.
Proof.
  intros Hf. apply map_ext_in. intros q Hq%list_elem_of_In. unfold lookup_total, map_lookup_total.
  by rewrite Hf.
Qed.

Section accounts.
Context {A : Type} `{!KvAllocator A} `{!KvAllocatorLaws A}.

Record accounts (u n : Z) (h : Heap) (l : list RequestPtr) (a : A) (fs : list Z) : Prop := {
  ac_valid : ka_valid a;
  ac_usable : ka_usable_blocks a = u;
  ac_blocks : owned h l ++ ka_pool a ≡ₚ seqZ 1 u;
  ac_promised : ka_reserved_blocks a = promised h l;
  ac_slots : slots h l ++ fs ≡ₚ seqZ 0 n;
  ac_nonneg : Forall (λ p, 0 <= reserved_blocks (h !!! p)) l;
}.

#[export] Instance accounts_proper u n h : Proper ((≡ₚ) ==> (=) ==> (=) ==> iff) (accounts u n h).
Proof.
  intros l k H a ? <- fs ? <-.
  split; intros []; split; try done.
  all: first [by rewrite <- H | by rewrite H].
Qed.

Lemma accounts_frame u n h h' l a fs :
  (∀ q, q ∈ l → h' !! q = h !! q) → accounts u n h l a fs → accounts u n h' l a fs.
Proof.
  intros Hf []. split; try done; unfold owned, promised, slots, blocks_at.
  - by rewrite (map_frame (λ r, blocks_ (block_table r)) h h').
  - by rewrite (map_frame reserved_blocks h h').
  - by rewrite (map_frame slot h h').
  - apply Forall_forall. intros q Hq. unfold lookup_total, map_lookup_total. rewrite Hf by done.
    by apply (proj1 (Forall_forall _ _) ac_nonneg0).
Qed.

(** The account of one request and of the others. *)
Record account_of (u n : Z) (h : Heap) (l : list RequestPtr) (a : A) (fs : list Z) (r : Request) : Prop := {
  ao_valid : ka_valid a;
  ao_usable : ka_usable_blocks a = u;
  ao_blocks : blocks_ (block_table r) ++ owned h l ++ ka_pool a ≡ₚ seqZ 1 u;
  ao_promised : ka_reserved_blocks a = reserved_blocks r + promised h l;
  ao_slots : slot r :: slots h l ++ fs ≡ₚ seqZ 0 n;
  ao_own : 0 <= reserved_blocks r;
  ao_nonneg : Forall (λ p, 0 <= reserved_blocks (h !!! p)) l;
}.

Lemma accounts_split u n h l a fs p r :
  h !! p = Some r → accounts u n h (p :: l) a fs → account_of u n h l a fs r.
Proof.
  intros Hp%lookup_total_correct [Hv Hu Hb Hpr Hs Hn].
  apply Forall_cons in Hn as [? ?]. unfold owned, promised, slots, blocks_at in *.
  cbn [map concat] in *. rewrite sumZ_cons in Hpr. rewrite Hp in *.
  split; try done. by rewrite (assoc (++)).
Qed.

Lemma accounts_join u n h l a fs p r :
  p ∉ l → account_of u n h l a fs r → accounts u n (<[p := r]> h) (p :: l) a fs.
Proof.
  intros Hp [Hv Hu Hb Hpr Hs Hn1 Hn]. unfold owned, promised, slots, blocks_at in *.
  assert (∀ q, q ∈ l → <[p := r]> h !! q = h !! q) as Hf.
  { intros q Hq. rewrite lookup_insert_ne; [done|set_solver]. }
  split; try done; unfold owned, promised, slots, blocks_at; cbn [map concat];
    rewrite ?sumZ_cons, ?lookup_total_insert_eq.
  - rewrite (map_frame (λ r, blocks_ (block_table r)) _ _ _ Hf). by rewrite <- (assoc (++)).
  - by rewrite (map_frame reserved_blocks _ _ _ Hf).
  - by rewrite (map_frame slot _ _ _ Hf).
  - apply Forall_cons. rewrite lookup_total_insert_eq. split; [done|].
    apply Forall_forall. intros q Hq. unfold lookup_total, map_lookup_total. rewrite Hf by done.
    by apply (proj1 (Forall_forall _ _) Hn).
Qed.

Lemma promised_nonneg h l : Forall (λ p, 0 <= reserved_blocks (h !!! p)) l → 0 <= promised h l.
Proof. intros H. apply sumZ_nonneg. by apply Forall_map. Qed.

(** Slots in use are distinct and in range, and so are block ids. *)
Lemma accounts_slot u n h l a fs p :
  accounts u n h l a fs → p ∈ l → 0 <= slot (h !!! p) < n.
Proof.
  intros [] Hp. assert (slot (h !!! p) ∈ seqZ 0 n) as Hin; [|apply elem_of_seqZ in Hin; lia].
  rewrite <- ac_slots0. apply elem_of_app. left. apply list_elem_of_In, in_map_iff.
  exists p. split; [done|by apply list_elem_of_In].
Qed.

Lemma accounts_free_slots u n h l a fs :
  0 <= n → accounts u n h l a fs → zlen l + zlen fs = n.
Proof.
  intros Hn [].
  pose proof (zlen_proper _ _ ac_slots0) as Hz. zlen.
  unfold slots, zlen in *. rewrite length_map, length_seqZ in Hz. lia.
Qed.

Lemma owned_elem h l b : b ∈ owned h l ↔ ∃ p, p ∈ l ∧ b ∈ blocks_at h p.
Proof.
  unfold owned. rewrite list_elem_of_In, in_concat. split.
  - intros (x & Hx & Hb). apply in_map_iff in Hx as (p & <- & Hp).
    exists p. by rewrite !list_elem_of_In.
  - intros (p & Hp & Hb). exists (blocks_at h p). rewrite list_elem_of_In in Hb. split; [|done].
    apply in_map_iff. exists p. by rewrite list_elem_of_In in Hp.
Qed.

Lemma accounts_owned_range u n h l a fs p b :
  accounts u n h l a fs → p ∈ l → b ∈ blocks_at h p → 1 <= b <= u.
Proof.
  intros [] Hp Hb. assert (b ∈ seqZ 1 u) as Hin; [|apply elem_of_seqZ in Hin; lia].
  rewrite <- ac_blocks0. apply elem_of_app. left. apply owned_elem. eauto.
Qed.

(** Free and owned ids, and so free and promised counts, balance. *)
Lemma accounts_count u n h l a fs :
  accounts u n h l a fs → zlen (owned h l) + zlen (ka_pool a) = u.
Proof.
  intros []. pose proof (zlen_proper _ _ ac_blocks0) as Hz. zlen.
  pose proof (ka_usable_range a ac_valid0). unfold zlen in *. rewrite length_seqZ in Hz. lia.
Qed.

Lemma owned_cons h p l : owned h (p :: l) = blocks_at h p ++ owned h l.
Proof. done. Qed.

Lemma promised_cons h p l : promised h (p :: l) = reserved_blocks (h !!! p) + promised h l.
Proof. done. Qed.

Lemma slots_cons h p l : slots h (p :: l) = slot (h !!! p) :: slots h l.
Proof. done. Qed.

(** ** Symbolic execution over a world *)

Implicit Types (h : Heap) (a : A) (s : Scheduler).

Lemma wp_deref h a s p r (Q : Request → World A → Prop) :
  h !! p = Some r → Q r (mkWorld h a s) → wp (deref p) Q (mkWorld h a s).
Proof. intros Hp HQ. unfold deref. wp_auto. by eapply wp_from_option. Qed.

Lemma wp_update_request h a s p f r (Q : () → World A → Prop) :
  h !! p = Some r → Q () (mkWorld (<[p := f r]> h) a s) →
  wp (update_request p f) Q (mkWorld h a s).
Proof.
  intros Hp HQ. unfold update_request. wp_auto. cbn.
  by rewrite alter_alt, Hp.
Qed.

Lemma wp_update_sched h a s f (Q : () → World A → Prop) :
  Q () (mkWorld h a (f s)) → wp (update_sched f) Q (mkWorld h a s).
Proof. done. Qed.

Lemma wp_on_allocator {B} h a s (m : M error A B) (Q : B → World A → Prop) :
  wp m (λ b a', Q b (mkWorld h a' s)) a → wp (on_allocator m) Q (mkWorld h a s).
Proof. intros Hm. unfold on_allocator. by apply wp_zoom. Qed.

Lemma wp_int32_checked {S} z (Q : Z → S → Prop) x :
  int32_ok z → Q z x → wp (int32_checked z) Q x.
Proof. intros Hz HQ. unfold int32_checked. rewrite bool_decide_true by done. done. Qed.

Lemma wp_blocks_for_tokens {S} o n (Q : Z → S → Prop) x :
  opts_ok o → 0 <= n <= max_seq_len o → Q (BlocksForTokens n) x → wp (blocks_for_tokens n) Q x.
Proof.
  intros [] Hn HQ. unfold blocks_for_tokens. wp_auto. apply wp_int32_checked; [|done].
  unfold int32_ok, int32_max, kKvBlockSize in *. lia.
Qed.

(** ** Blocks move between the pool and one request *)

(** The request after [Append(AllocReserved())]. *)
Definition appended_block (b : BlockId) (r : Request) : Request :=
  set_block_table (Append b (block_table r)) r.

Lemma nblocks_appended b r : nblocks (appended_block b r) = nblocks r + 1.
Proof. unfold nblocks, appended_block, Append. cbn. zlen. lia. Qed.

Lemma wp_append_reserved u n h a s p r l k (Q : () → World A → Prop) :
  h !! p = Some r → 0 < k → account_of u n h l a (free_slots_ s) (set_reserved_blocks k r) →
  (∀ b a', let r' := appended_block b r in
     account_of u n h l a' (free_slots_ s) (set_reserved_blocks (k - 1) r') →
     zlen (ka_pool a) = zlen (ka_pool a') + 1 →
     Q () (mkWorld (<[p := r']> h) a' s)) →
  wp (append_reserved p) Q (mkWorld h a s).
Proof.
  intros Hp Hk [Hv Hu Hb Hpr Hs Hn1 Hn] HQ. pose proof (promised_nonneg h l Hn). cbn in *.
  unfold append_reserved. wp_auto. apply wp_on_allocator, ka_AllocReserved_law; [done|lia|].
  intros b a' Hv' Hpool Hres Hus. eapply wp_update_request; [done|].
  apply (HQ b a'); [|rewrite Hpool; zlen; lia].
  split; cbn; try done; [congruence| |lia|lia].
  rewrite <- Hb, Hpool. solve_Permutation.
Qed.

Lemma wp_materialize u n h a s p r l (Q : () → World A → Prop) :
  h !! p = Some r → p ∉ l → 0 < reserved_blocks r → accounts u n h (p :: l) a (free_slots_ s) →
  (∀ b a', let r' := set_reserved_blocks (reserved_blocks r - 1) (appended_block b r) in
     accounts u n (<[p := r']> h) (p :: l) a' (free_slots_ s) →
     Q () (mkWorld (<[p := r']> h) a' s)) →
  wp (materialize p) Q (mkWorld h a s).
Proof.
  intros Hp Hpl Hr Hac HQ. pose proof (accounts_split _ _ _ _ _ _ _ _ Hp Hac) as Hao.
  unfold materialize. wp_auto. eapply wp_deref; [done|]. wp_auto. wp_guard. wp_auto.
  apply (wp_append_reserved u n h a s p r l (reserved_blocks r)); [done|done| |].
  { by destruct Hao; split. }
  intros b a' r' Hao' _. eapply wp_update_request; [apply lookup_insert_eq|]. rewrite insert_insert_eq.
  apply (HQ b a'). by apply accounts_join.
Qed.

(** ** Release *)

Lemma wp_FreeBlocks h s u bs : ∀ a (Q : () → World A → Prop),
  ka_valid a → ka_usable_blocks a = u → NoDup bs → (∀ b, b ∈ bs → 1 <= b <= u ∧ b ∉ ka_pool a) →
  (∀ a', ka_valid a' → ka_usable_blocks a' = u → ka_pool a' ≡ₚ bs ++ ka_pool a →
     ka_reserved_blocks a' = ka_reserved_blocks a → Q () (mkWorld h a' s)) →
  wp (FreeBlocks bs) Q (mkWorld h a s).
Proof.
  induction bs as [|b bs IH]; intros a Q Hv Hu Hnd Hb HQ; cbn [FreeBlocks].
  { by apply wp_ret, HQ. }
  apply NoDup_cons in Hnd as [Hbn Hnd]. destruct (Hb b ltac:(set_solver)).
  apply wp_bind, wp_on_allocator, ka_FreeBlock_law; [done|lia|done|].
  intros a1 Hv1 Hp1 Hr1 Hu1. apply IH; [done|lia|done| |].
  - intros c Hc. destruct (Hb c ltac:(set_solver)). split; [done|]. rewrite Hp1. set_solver.
  - intros a2 Hv2 Hu2 Hp2 Hr2. apply HQ; [done|done| |lia]. rewrite Hp2, Hp1. solve_Permutation.
Qed.

(** The request after [ReleaseResources]. *)
Definition released (r : Request) : Request :=
  set_slot (-1) (set_reserved_blocks 0 (set_block_table BlockTable_empty r)).

Lemma wp_ReleaseResources u n h a s p r l (Q : () → World A → Prop) :
  h !! p = Some r → p ∉ l → accounts u n h (p :: l) a (free_slots_ s) →
  (∀ a', accounts u n (<[p := released r]> h) l a' (free_slots_ s ++ [slot r]) →
     zlen (ka_pool a') = nblocks r + zlen (ka_pool a) →
     Q () (mkWorld (<[p := released r]> h) a' (set_free_slots (free_slots_ s ++ [slot r]) s))) →
  wp (ReleaseResources p) Q (mkWorld h a s).
Proof.
  intros Hp Hpl Hac HQ.
  pose proof (accounts_slot _ _ _ _ _ _ p Hac ltac:(set_solver)) as Hslot.
  rewrite (lookup_total_correct _ _ _ Hp) in Hslot.
  destruct (accounts_split _ _ _ _ _ _ _ _ Hp Hac) as [Hv Hu Hb Hpr Hs Hn1 Hn].
  pose proof (promised_nonneg h l Hn).
  assert (NoDup (seqZ 1 u)) as Hnd by apply NoDup_seqZ. rewrite <- Hb in Hnd.
  apply NoDup_app in Hnd as (Hnd & Hdisj & _).
  unfold ReleaseResources. wp_auto. eapply wp_deref; [done|]. unfold Release. wp_auto.
  eapply wp_update_request; [done|]. wp_auto.
  apply (wp_FreeBlocks _ _ u); [done|done|done| |].
  { intros b Hin. split; [|intros Hin2; apply (Hdisj b Hin); set_solver].
    assert (b ∈ seqZ 1 u) as Hseq by (rewrite <- Hb; set_solver). apply elem_of_seqZ in Hseq. lia. }
  intros a1 Hv1 Hu1 Hp1 Hr1. wp_auto. apply wp_on_allocator, ka_Unreserve_law; [done|lia|].
  intros a2 Hv2 Hp2 Hr2 Hu2. wp_auto.
  eapply wp_update_request; [apply lookup_insert_eq|]. rewrite insert_insert_eq.
  destruct (Z.leb_spec 0 (slot r)); [|lia]. wp_auto. apply wp_update_sched. wp_auto.
  eapply wp_update_request; [apply lookup_insert_eq|]. rewrite insert_insert_eq.
  apply HQ; [|rewrite Hp2, Hp1; zlen; done].
  apply (accounts_frame _ _ h).
  { intros q Hq. rewrite lookup_insert_ne; [done|set_solver]. }
  split; try done; [congruence| |lia|].
  - rewrite <- Hb, Hp2, Hp1. solve_Permutation.
  - rewrite <- Hs. solve_Permutation.
Qed.

(** ** The invariant *)

Definition admitted (s : Scheduler) : list RequestPtr := prefill_queue_ s ++ running_ s.
Definition live (s : Scheduler) : list RequestPtr := waiting_ s ++ admitted s.

Record sched_inv (o : SchedulerOptions) (u : Z) (w : World A) : Prop := {
  si_options : options_ (w_sched w) = o;
  si_nodup : NoDup (live (w_sched w));
  si_waiting : all_req (w_heap w) (waiting_ok o u) (waiting_ (w_sched w));
  si_prefill : all_req (w_heap w) (prefill_ok o) (prefill_queue_ (w_sched w));
  si_running : all_req (w_heap w) (running_ok o) (running_ (w_sched w));
  si_accounts : accounts u (max_batch o) (w_heap w) (admitted (w_sched w)) (w_alloc w)
                  (free_slots_ (w_sched w));
}.

(** ** Admission *)

(** The admission predicate, over the pool the allocator stands for. *)
Definition admissible (o : SchedulerOptions) (u : Z) (a : A) (r : Request) : bool :=
  let uncommitted := zlen (ka_pool a) - ka_reserved_blocks a in
  match admission_policy o with
  | kReserveFull => BlocksForTokens (nprompt r + max_new_tokens r) <=? uncommitted
  | kWatermark => double_ge (double_of_Z (uncommitted - BlocksForTokens (nprompt r)))
                    (double_mul (watermark_free_fraction o) (double_of_Z u))
  end.

Lemma wp_CanAdmit o u h a s r (Q : bool → World A → Prop) :
  opts_ok o → options_ s = o → static_ok o r → ka_valid a → ka_usable_blocks a = u →
  Q (admissible o u a r) (mkWorld h a s) → wp (CanAdmit r) Q (mkWorld h a s).
Proof.
  intros Ho Hos Hst Hv Hu HQ. pose proof (num_prompt_tokens_eq o r Ho Hst) as Hnp.
  unfold admissible in HQ. destruct Hst. unfold CanAdmit. wp_auto. unfold scheduler. wp_auto. cbn.
  rewrite Hos. destruct (admission_policy o); rewrite Hnp.
  - wp_auto. apply (wp_blocks_for_tokens o); [done|lia|].
    apply wp_on_allocator, ka_CanReserve_law; [done|apply BlocksForTokens_nonneg; lia|done].
  - unfold allocator. wp_auto. apply (wp_blocks_for_tokens o); [done|lia|]. wp_auto. cbn.
    by rewrite ka_free_blocks_pool, Hu.
Qed.

(** What makes [Reserve]'s precondition hold after a passing [CanAdmit]. *)
Lemma admissible_target o u a r :
  opts_ok o → static_ok o r → ka_valid a → ka_usable_blocks a = u → admissible o u a r = true →
  target o r <= zlen (ka_pool a) - ka_reserved_blocks a.
Proof.
  intros Ho Hst Hv Hu. unfold admissible, target.
  destruct (admission_policy o); [by intros ?%Z.leb_le|]. intros Hge.
  pose proof (ka_usable_range a Hv). pose proof (ka_reserved_pool a Hv).
  destruct Ho, Hst. pose proof (BlocksForTokens_le (nprompt r) ltac:(lia)).
  unfold int32_max, kKvBlockSize in *.
  apply double_ge_nonneg in Hge; [lia|lia|].
  apply double_mul_nonneg; [done|apply double_of_Z_finite; lia].
Qed.

Lemma wp_ReservationFor o h a s r (Q : Z → World A → Prop) :
  opts_ok o → options_ s = o → static_ok o r →
  Q (target o r) (mkWorld h a s) → wp (ReservationFor r) Q (mkWorld h a s).
Proof.
  intros Ho Hos Hst HQ. pose proof (num_prompt_tokens_eq o r Ho Hst) as Hnp.
  destruct Hst. unfold ReservationFor, target in *. wp_auto. unfold scheduler. wp_auto. cbn.
  rewrite Hos. destruct (admission_policy o); rewrite Hnp;
    (apply (wp_blocks_for_tokens o); [done|lia|done]).
Qed.

Definition admitted_request (o : SchedulerOptions) (sl : Z) (r : Request) : Request :=
  set_state kPrefill (set_slot sl (set_reserved_blocks (target o r) r)).

Lemma admitted_request_ok o u sl r : waiting_ok o u r → prefill_ok o (admitted_request o sl r).
Proof.
  intros [Hst Hfit _ Hout _ Hrv Hpg Htab].
  pose proof (prompt_blocks_le_target o r Hst). pose proof (so_prompt _ _ Hst).
  pose proof (BlocksForTokens_nonneg (nprompt r) ltac:(lia)).
  assert (nblocks (admitted_request o sl r) = 0) as Hnb by (unfold nblocks; cbn; by rewrite Htab).
  change (nprompt r) with (nprompt (admitted_request o sl r)) in *.
  split; rewrite ?Hnb; cbn; try done; rewrite ?Hpg; try lia; by destruct Hst.
Qed.

Lemma wp_Admit o u h a s p ws r (Q : () → World A → Prop) :
  opts_ok o → sched_inv o u (mkWorld h a s) → waiting_ s = p :: ws → h !! p = Some r →
  num_running s < max_batch o → admissible o u a r = true →
  (∀ a' s' sl, let w' := mkWorld (<[p := admitted_request o sl r]> h) a' s' in
     sched_inv o u w' → waiting_ s' = ws → prefill_queue_ s' = prefill_queue_ s ++ [p] →
     running_ s' = running_ s → ka_pool a' = ka_pool a → Q () w') →
  wp Admit Q (mkWorld h a s).
Proof.
  intros Ho [Hos Hnd Hw Hp Hr Hac] Hws Hhp Hnr Hadm HQ. cbn in *.
  assert (waiting_ok o u r) as Hwr.
  { destruct (all_req_elem _ _ _ p Hw) as (r0 & ? & ?); [rewrite Hws; set_solver|]. congruence. }
  pose proof (ac_valid _ _ _ _ _ _ Hac) as Hv. pose proof (ac_usable _ _ _ _ _ _ Hac) as Hu.
  pose proof (admissible_target o u a r Ho (wo_static _ _ _ Hwr) Hv Hu Hadm) as Htgt.
  pose proof (target_nonneg o r (wo_static _ _ _ Hwr)) as Htn.
  pose proof (accounts_free_slots u (max_batch o) h (admitted s) a _ ltac:(destruct Ho; lia) Hac) as Hslots.
  assert (free_slots_ s ≠ []) as Hfs.
  { intros Hnil. rewrite Hnil in Hslots. unfold num_running, admitted in *. zlen. lia. }
  destruct (back_is_Some _ Hfs) as [sl Hsl]. pose proof (proj1 (back_Some _ _) Hsl) as Hpop.
  unfold live in Hnd. rewrite Hws in Hw, Hnd. cbn in Hnd. apply NoDup_cons in Hnd as [Hpn Hnd].
  unfold Admit. wp_auto. unfold scheduler. wp_auto. cbn [w_sched]. rewrite Hws.
  eapply wp_from_option; [done|]. wp_auto. apply wp_update_sched. wp_auto.
  eapply wp_deref; [done|]. wp_auto.
  apply (wp_ReservationFor o); [done|done|apply Hwr|]. wp_auto. apply wp_on_allocator, ka_Reserve_law; [done|lia|].
  intros a' Hv' Hpool' Hres' Hus'. wp_auto.
  eapply wp_update_request; [done|]. wp_auto. apply wp_assert_; [by apply negb_true_iff, is_nil_false|].
  wp_auto. eapply wp_from_option; [done|]. wp_auto.
  eapply wp_update_request; [apply lookup_insert_eq|]. rewrite insert_insert_eq. wp_auto.
  apply wp_update_sched. wp_auto.
  eapply wp_update_request; [apply lookup_insert_eq|]. rewrite insert_insert_eq. wp_auto.
  apply wp_update_sched. apply (HQ _ _ sl); cbn; try done.
  pose proof (wo_table _ _ _ Hwr) as Htab. assert (p ∉ admitted s) as Hpa by set_solver.
  split; cbn; [done| |apply all_req_insert; [set_solver|]; by apply Forall_cons in Hw as []| | |].
  - unfold live, admitted in *. cbn. rewrite <- (app_assoc (prefill_queue_ s)).
    assert (ws ++ prefill_queue_ s ++ [p] ++ running_ s ≡ₚ p :: ws ++ prefill_queue_ s ++ running_ s)
      as -> by solve_Permutation. by apply NoDup_cons.
  - apply all_req_app. split; [apply all_req_insert; [unfold admitted in *; set_solver|done]|].
    apply Forall_singleton. eexists. split; [apply lookup_insert_eq|].
    by apply (admitted_request_ok o u).
  - apply all_req_insert; [unfold admitted in *; set_solver|done].
  - assert (admitted (set_prefill_queue (prefill_queue_ s ++ [p])
       (set_free_slots (pop_back (free_slots_ s)) (set_waiting ws s))) ≡ₚ p :: admitted s) as ->.
    { unfold admitted. cbn. solve_Permutation. }
    apply accounts_join; [done|].
    destruct Hac as [_ _ Hb Hpr Hs Hn]. split; cbn; try done; [congruence| |lia|].
    + by rewrite Htab, Hpool'.
    + rewrite <- Hs. rewrite Hpop at 2. solve_Permutation.
Qed.

(** The queues after admission: a prefix of the arrivals has moved, in order,
    behind the prefills, and nothing else has changed. *)
Record admits (o : SchedulerOptions) (w w' : World A) (pre : list RequestPtr) : Prop := {
  ad_waiting : waiting_ (w_sched w) = pre ++ waiting_ (w_sched w');
  ad_prefill : prefill_queue_ (w_sched w') = prefill_queue_ (w_sched w) ++ pre;
  ad_running : running_ (w_sched w') = running_ (w_sched w);
  ad_pool : ka_pool (w_alloc w') = ka_pool (w_alloc w);
  ad_heap q : q ∉ pre → w_heap w' !! q = w_heap w !! q;
  ad_req q : q ∈ pre → ∃ sl r, w_heap w !! q = Some r ∧ w_heap w' !! q = Some (admitted_request o sl r);
}.

(** Why admission stopped. *)
Definition admission_stopped (o : SchedulerOptions) (u : Z) (w : World A) : Prop :=
  match waiting_ (w_sched w) with
  | [] => True
  | p :: _ => max_batch o <= num_running (w_sched w) ∨
              ∃ r, w_heap w !! p = Some r ∧ admissible o u (w_alloc w) r = false
  end.

Lemma admits_refl o w : admits o w w [].
Proof. split; try done; [by rewrite app_nil_r|set_solver]. Qed.

Lemma admits_step o w h a s p ws pre h' a' s' sl r :
  admits o w (mkWorld h a s) pre → p ∉ pre → waiting_ s = p :: ws → h !! p = Some r →
  h' = <[p := admitted_request o sl r]> h → waiting_ s' = ws →
  prefill_queue_ s' = prefill_queue_ s ++ [p] → running_ s' = running_ s → ka_pool a' = ka_pool a →
  admits o w (mkWorld h' a' s') (pre ++ [p]).
Proof.
  intros [Hw Hp Hr Hpool Hh Hreq] Hpp Hws Hhp -> Hws' Hp' Hr' Hpool'. cbn in *. split; cbn.
  - by rewrite Hws', Hw, Hws, <- app_assoc.
  - by rewrite Hp', Hp, <- app_assoc.
  - congruence.
  - congruence.
  - intros q Hq. rewrite lookup_insert_ne by set_solver. apply Hh. set_solver.
  - intros q [Hq|Hq%list_elem_of_singleton]%elem_of_app.
    + destruct (Hreq q Hq) as (sl' & r' & ? & ?). exists sl', r'. split; [done|].
      rewrite lookup_insert_ne; [done|]. by intros ->.
    + subst q. exists sl, r. rewrite lookup_insert_eq. split; [|done]. by rewrite <- Hh.
Qed.

Lemma wp_AdmitWaiting o u w (Q : () → World A → Prop) :
  opts_ok o → sched_inv o u w →
  (∀ w' pre, sched_inv o u w' → admits o w w' pre → admission_stopped o u w' → Q () w') →
  wp AdmitWaiting Q w.
Proof.
  intros Ho Hinv HQ. unfold AdmitWaiting. wp_auto. unfold scheduler. wp_auto.
  apply (wp_loop OutOfFuel (λ _ w', sched_inv o u w' ∧ ∃ pre, admits o w w' pre)
           (λ _ w', length (waiting_ (w_sched w')))); [|by eauto using admits_refl|lia].
  intros [] [h a s] (Hi & pre & Had). unfold admission_step. wp_auto. unfold scheduler. wp_auto. cbn.
  pose proof (si_options _ _ _ Hi) as Hos. cbn in Hos.
  destruct (waiting_ s) as [|p ws] eqn:Hws.
  { wp_auto. eapply HQ; [done|done|]. unfold admission_stopped. cbn. by rewrite Hws. }
  rewrite Hos. destruct (Z.ltb_spec (num_running s) (max_batch o)) as [Hlt|Hge].
  2:{ wp_auto. eapply HQ; [done|done|]. unfold admission_stopped. cbn. rewrite Hws. by left. }
  destruct (all_req_elem h (waiting_ok o u) (waiting_ s) p) as (r & Hhp & Hwr);
    [apply (si_waiting _ _ _ Hi)|rewrite Hws; set_solver|].
  wp_auto. eapply wp_deref; [done|]. wp_auto.
  pose proof (si_accounts _ _ _ Hi) as Hac.
  apply (wp_CanAdmit o u); [done|done|apply Hwr|apply Hac|apply Hac|].
  destruct (admissible o u a r) eqn:Hadm.
  2:{ wp_auto. eapply HQ; [done|done|]. unfold admission_stopped. cbn. rewrite Hws. right. eauto. }
  wp_auto. eapply (wp_Admit o u); [done|done|done|done|done|done|].
  intros a' s' sl w' Hi' Hws' Hp' Hr' Hpool. wp_auto. split; [split; [done|]|cbn; rewrite Hws'; lia].
  exists (pre ++ [p]). eapply admits_step; [done| |done..].
  intros Hin. pose proof (si_nodup _ _ _ Hi) as Hnd. pose proof (ad_prefill _ _ _ _ Had) as Hpq.
  cbn in *. unfold live, admitted in Hnd. rewrite Hpq, Hws in Hnd. cbn in Hnd.
  apply NoDup_cons in Hnd as [Hnin _]. set_solver.
Qed.

End accounts.

(** [wp_world] runs the administrative steps of a computation on an explicit
    world: binds, reads of the members, updates of the members, and
    dereferences and updates of requests the heap is known to hold. *)
Ltac wp_world_step :=
  lazymatch goal with
  | |- wp (scheduler) _ _ => unfold scheduler; apply wp_gets; cbn [w_sched]
  | |- wp (allocator) _ _ => unfold allocator; apply wp_gets; cbn [w_alloc]
  | |- wp (update_sched _) _ _ => apply wp_update_sched
  | |- wp (on_allocator _) _ _ => apply wp_on_allocator
  | |- wp (deref ?p) _ (mkWorld ?h _ _) =>
      first [ eapply wp_deref; [apply lookup_insert_eq|]
            | match goal with H : h !! p = Some _ |- _ => eapply wp_deref; [exact H|] end ]
  | |- wp (update_request ?p _) _ (mkWorld ?h _ _) =>
      first [ eapply wp_update_request; [apply lookup_insert_eq|]; rewrite insert_insert_eq
            | match goal with H : h !! p = Some _ |- _ => eapply wp_update_request; [exact H|] end ]
  | |- _ => wp_step
  end.
Ltac wp_world := repeat (wp_world_step; cbv beta; cbn [w_heap w_alloc w_sched]).
