(* ===== verification/SchedulerPlan.v ===== *)
(** * Planning preserves the invariant and covers the planned positions

    [PlanStep] symbolically: the prefill chunk's blocks are materialized out of
    the reservation, the decode rows are exactly the running sequences left
    after watermark aborts, and each row's block table covers the position the
    step writes. *)

From S2P Require Import Prelude Doubles Types BlockAllocator Scheduler SchedulerInv.

Section plan.
Context {A : Type} `{!KvAllocator A} `{!KvAllocatorLaws A}.
Context (o : SchedulerOptions) (u : Z) (Ho : opts_ok o).
Implicit Types (h : gmap RequestPtr Request) (a : A) (s : Scheduler) (w : World A).

(** ** Updating and removing one request *)

Lemma all_req_update h P l p r : P r → all_req h P l → all_req (<[p := r]> h) P l.
Proof.
  intros HP H. apply Forall_forall. intros q Hq. destruct (decide (q = p)) as [->|Hne].
  - exists r. by rewrite lookup_insert_eq.
  - rewrite lookup_insert_ne by done. by apply (all_req_elem h P l).
Qed.

Lemma all_req_incl h P l k : (∀ q, q ∈ k → q ∈ l) → all_req h P l → all_req h P k.
Proof. intros Hi H. apply Forall_forall. intros q Hq. by apply (all_req_elem h P l), Hi. Qed.

Lemma live_split s p : NoDup (live s) → p ∈ admitted s →
  p ∉ waiting_ s ∧ (p ∈ prefill_queue_ s → p ∉ running_ s) ∧
  ∃ l, admitted s ≡ₚ p :: l ∧ p ∉ l.
Proof.
  unfold live. intros Hnd Hp. apply NoDup_app in Hnd as (_ & Hdisj & Hnd). split_and!.
  - intros Hw. by apply (Hdisj p).
  - unfold admitted in Hnd. apply NoDup_app in Hnd as (_ & Hd & _). apply Hd.
  - apply elem_of_Permutation in Hp as [l Hl]. exists l. split; [done|].
    rewrite Hl in Hnd. by apply NoDup_cons in Hnd as [].
Qed.

(** Replace the request at [p] by one its queue accepts. *)
Lemma sched_inv_update h a s p r a' :
  sched_inv o u (mkWorld h a s) → p ∈ admitted s →
  (p ∈ prefill_queue_ s → prefill_ok o r) → (p ∈ running_ s → running_ok o r) →
  accounts u (max_batch o) (<[p := r]> h) (admitted s) a' (free_slots_ s) →
  sched_inv o u (mkWorld (<[p := r]> h) a' s).
Proof.
  intros [Hos Hnd Hw Hp Hr Hac] Hin HP HR Hac'. cbn in *.
  destruct (live_split s p Hnd Hin) as (Hnw & Hpr & _).
  split; cbn; try done.
  - by apply all_req_insert.
  - destruct (decide (p ∈ prefill_queue_ s)); [apply all_req_update; auto|by apply all_req_insert].
  - destruct (decide (p ∈ running_ s)); [apply all_req_update; auto|by apply all_req_insert].
Qed.

(** Take the request at [p] out of the admitted queues. *)
Lemma sched_inv_remove h a s p r a' s' :
  sched_inv o u (mkWorld h a s) → options_ s' = options_ s → waiting_ s' = waiting_ s →
  admitted s ≡ₚ p :: admitted s' →
  (∀ q, q ∈ prefill_queue_ s' → q ∈ prefill_queue_ s) → (∀ q, q ∈ running_ s' → q ∈ running_ s) →
  accounts u (max_batch o) (<[p := r]> h) (admitted s') a' (free_slots_ s') →
  sched_inv o u (mkWorld (<[p := r]> h) a' s').
Proof.
  intros [Hos Hnd Hw Hp Hr Hac] Hopt Hwt Hadm Hpq Hrq Hac'. cbn in *.
  unfold live in Hnd. rewrite Hadm in Hnd.
  assert (NoDup (p :: waiting_ s ++ admitted s')) as Hnd'.
  { rewrite Permutation_middle. done. }
  apply NoDup_cons in Hnd' as [Hpn Hnd']. apply not_elem_of_app in Hpn as [Hpw Hpa].
  unfold admitted in Hpa. apply not_elem_of_app in Hpa as [Hpp Hprn].
  split; cbn; [congruence|unfold live; by rewrite Hwt|..|done].
  - rewrite Hwt. by apply all_req_insert.
  - apply all_req_insert; [done|]. by apply (all_req_incl _ _ (prefill_queue_ s)).
  - apply all_req_insert; [done|]. by apply (all_req_incl _ _ (running_ s)).
Qed.

(** ** Materialization inside the invariant *)

Lemma wp_materialize_in h a s p r (Q : () → World A → Prop) :
  NoDup (live s) → p ∈ admitted s → h !! p = Some r → 0 < reserved_blocks r →
  accounts u (max_batch o) h (admitted s) a (free_slots_ s) →
  (∀ b a', let r' := set_reserved_blocks (reserved_blocks r - 1) (appended_block b r) in
     accounts u (max_batch o) (<[p := r']> h) (admitted s) a' (free_slots_ s) →
     Q () (mkWorld (<[p := r']> h) a' s)) →
  wp (materialize p) Q (mkWorld h a s).
Proof.
  intros Hnd Hin Hp Hr Hac HQ. destruct (live_split s p Hnd Hin) as (_ & _ & l & Hl & Hpl).
  eapply (wp_materialize u (max_batch o) _ _ _ _ _ l); [done|done|done|by rewrite <- Hl|].
  intros b a' r' Hac'. apply HQ. by rewrite Hl.
Qed.

(** A request whose table has grown by materialized blocks. *)
Definition grown (r r' : Request) : Prop :=
  ∃ t k, r' = set_reserved_blocks k (set_block_table t r).

Lemma grown_refl r : grown r r.
Proof. exists (block_table r), (reserved_blocks r). by destruct r. Qed.

Lemma grown_appended r r' b k :
  grown r r' → grown r (set_reserved_blocks k (appended_block b r')).
Proof. intros (t & k' & ->). by eexists _, _. Qed.

Lemma nblocks_nonneg r : 0 <= nblocks r.
Proof. apply zlen_nonneg. Qed.

Lemma prefill_ok_materialize r b :
  prefill_ok o r → 16 * nblocks r < nprompt r →
  0 < reserved_blocks r ∧
  prefill_ok o (set_reserved_blocks (reserved_blocks r - 1) (appended_block b r)).
Proof using Ho.
  intros [Hst ? ? ? ? ? Ht ?] Hlt.
  pose proof (prompt_blocks_le_target o r Hst). pose proof (so_prompt _ _ Hst).
  pose proof (BlocksForTokens_spec (nprompt r) ltac:(lia)).
  assert (nblocks (set_reserved_blocks (reserved_blocks r - 1) (appended_block b r)) = nblocks r + 1)
    as Hnb by apply nblocks_appended.
  split; [lia|]. split; rewrite ?Hnb; try done; cbn; try lia; [by destruct Hst| |].
  all: unfold target in *; cbn; unfold nprompt in *; cbn; lia.
Qed.

(** ** The prefill chunk *)

Definition chunk_end (r : Request) : Z :=
  Z.min (prefill_progress r + prefill_chunk_tokens o) (nprompt r).

Lemma wp_PlanPrefill h a s p rest r (Q : StepPlan → World A → Prop) :
  sched_inv o u (mkWorld h a s) → prefill_queue_ s = p :: rest → h !! p = Some r →
  (∀ r' a', grown r r' → chunk_end r <= 16 * nblocks r' →
     sched_inv o u (mkWorld (<[p := r']> h) a' s) →
     Q (mkStepPlan (Some p) (prefill_progress r) (chunk_end r) [] []) (mkWorld (<[p := r']> h) a' s)) →
  wp (PlanPrefill p) Q (mkWorld h a s).
Proof using Ho.
  intros Hinv Hpq Hp HQ. pose proof Hinv as [Hos Hnd Hw Hpre Hr Hac]. cbn in *.
  destruct (all_req_elem _ _ _ p Hpre) as (r0 & Heq & Hok); [rewrite Hpq; set_solver|].
  assert (r0 = r) as -> by congruence. clear Heq.
  assert (p ∈ admitted s) as Hin by (unfold admitted; rewrite Hpq; set_solver).
  pose proof (po_static _ _ Hok) as Hst. pose proof (num_prompt_tokens_eq o r Ho Hst) as Hnp.
  unfold PlanPrefill. wp_auto. unfold scheduler. wp_auto. cbn [w_sched]. rewrite Hos.
  eapply wp_deref; [done|]. wp_auto.
  apply wp_assert_; [by rewrite bool_decide_true by apply Hok|]. wp_auto. rewrite Hnp.
  pose proof Ho. destruct Hst, Hok as [_ _ _ ? ? _ _ _].
  apply wp_int32_checked; [destruct Ho; unfold int32_ok, int32_max, kKvBlockSize in *; lia|].
  wp_auto. fold (chunk_end r).
  apply wp_assert_; [destruct Ho; apply Z.ltb_lt; unfold chunk_end; lia|]. wp_auto.
  apply (wp_loop OutOfFuel (λ _ w', ∃ r' a', w' = mkWorld (<[p := r']> h) a' s ∧ grown r r' ∧
            sched_inv o u w')
           (λ _ w', Z.to_nat (chunk_end r - 16 * nblocks (w_heap w' !!! p)))).
  2:{ exists r, a. split_and!; [by rewrite insert_id|apply grown_refl|done]. }
  2:{ cbn. pose proof (nblocks_nonneg (h !!! p)). lia. }
  intros [] w' (r' & a' & -> & Hg & Hinv'). unfold materialize_step.
  pose proof Hinv' as [_ _ _ Hpre' _ Hac']. cbn in *.
  destruct (all_req_elem _ _ _ p Hpre') as (r0 & Heq & Hok'); [rewrite Hpq; set_solver|].
  rewrite lookup_insert_eq in Heq. injection Heq as <-.
  assert (nprompt r' = nprompt r) as Hnp' by by destruct Hg as (? & ? & ->).
  wp_auto. eapply wp_deref; [apply lookup_insert_eq|].
  rewrite (token_capacity_eq o r' Ho (po_static _ _ Hok')).
  2:{ pose proof (po_blocks _ _ Hok'). pose proof (prompt_blocks_le o r' (po_static _ _ Hok')). lia. }
  destruct (Z.ltb_spec (16 * nblocks r') (chunk_end r)) as [Hlt|Hge].
  2:{ wp_auto. by apply HQ. }
  assert (16 * nblocks r' < nprompt r') as Hlt' by (unfold chunk_end in Hlt; lia).
  destruct (prefill_ok_materialize r' 0 Hok' Hlt') as [Hpos _].
  wp_auto. eapply (wp_materialize_in (<[p := r']> h)); [done|done|apply lookup_insert_eq|done|done|].
  intros b a2 r2 Hac2. rewrite insert_insert_eq in *. wp_auto. split.
  - exists r2, a2. split_and!; [done|by apply grown_appended|].
    rewrite <- (insert_insert_eq h p r2 r') in *.
    apply (sched_inv_update _ a'); [done|done| | |done].
    + intros _. by apply prefill_ok_materialize.
    + intros Hrun. destruct (live_split s p Hnd Hin) as (_ & Hd & _).
      exfalso. apply Hd; [rewrite Hpq; set_solver|done].
  - cbn. rewrite !lookup_total_insert_eq. pose proof (nblocks_nonneg r').
    assert (nblocks r2 = nblocks r' + 1) as -> by apply nblocks_appended. lia.
Qed.

(** ** Aborting the youngest sequence *)

Definition aborted_request (r : Request) : Request :=
  released (set_finish_reason kAborted (set_state kFinished r)).

Lemma wp_AbortYoungestRunning h a s plan l v r (Q : StepPlan → World A → Prop) :
  sched_inv o u (mkWorld h a s) → running_ s = l ++ [v] → h !! v = Some r →
  (∀ a' s', let w' := mkWorld (<[v := aborted_request r]> h) a' s' in
     sched_inv o u w' → running_ s' = l → waiting_ s' = waiting_ s →
     prefill_queue_ s' = prefill_queue_ s → zlen (ka_pool a') = nblocks r + zlen (ka_pool a) →
     Q (set_aborted (aborted plan ++ [v]) plan) w') →
  wp (AbortYoungestRunning plan) Q (mkWorld h a s).
Proof.
  intros Hinv Hrun Hv HQ. pose proof Hinv as [Hos Hnd Hw Hp Hr Hac]. cbn in *.
  assert (admitted s ≡ₚ v :: prefill_queue_ s ++ l) as Hperm.
  { unfold admitted. rewrite Hrun. solve_Permutation. }
  assert (v ∉ prefill_queue_ s ++ l) as Hvn.
  { unfold live in Hnd. rewrite Hperm in Hnd. apply NoDup_app in Hnd as (_ & _ & Hnd).
    by apply NoDup_cons in Hnd as []. }
  unfold AbortYoungestRunning. wp_auto. unfold scheduler. wp_auto. cbn [w_sched]. rewrite Hrun.
  eapply wp_from_option; [apply back_snoc|]. rewrite pop_back_snoc. wp_auto.
  apply wp_update_sched. wp_auto. eapply wp_update_request; [done|]. wp_auto.
  eapply wp_update_request; [apply lookup_insert_eq|]. rewrite insert_insert_eq. wp_auto.
  apply (wp_ReleaseResources u (max_batch o) _ _ _ _
           (set_finish_reason kAborted (set_state kFinished r)) (prefill_queue_ s ++ l)).
  - apply lookup_insert_eq.
  - done.
  - cbn. apply accounts_join; [done|]. rewrite Hperm in Hac.
    by destruct (accounts_split _ _ _ _ _ _ _ _ Hv Hac); split.
  - intros a' Hac' Hpool. rewrite insert_insert_eq in *. cbn in *. wp_auto. apply HQ; try done.
    apply (sched_inv_remove _ a s); try done. intros q Hq. cbn in Hq. rewrite Hrun. set_solver.
Qed.

(** ** Growth of one decode row *)

(** The plan's prefill part is unused while a decode batch is planned. *)
Definition decode_plan (rows ab : list RequestPtr) : StepPlan := mkStepPlan None 0 0 rows ab.

(** An aborted request: finished as such, and holding nothing. *)
Record aborted_ok (r : Request) : Prop := {
  ab_state : state r = kFinished;
  ab_reason : finish_reason r = kAborted;
  ab_table : blocks_ (block_table r) = [];
  ab_reserved : reserved_blocks r = 0;
  ab_slot : slot r = -1;
}.

(** The invariant of decode planning from [w0]: aborted sequences have left
    [running_] from its back, and only policy [kWatermark] aborts. *)
Record planning (w0 w : World A) (ab : list RequestPtr) : Prop := {
  pl_inv : sched_inv o u w;
  pl_prefill : prefill_queue_ (w_sched w) = [];
  pl_waiting : waiting_ (w_sched w) = waiting_ (w_sched w0);
  pl_running : running_ (w_sched w0) = running_ (w_sched w) ++ reverse ab;
  pl_policy : admission_policy o = kReserveFull → ab = [];
  pl_aborted : all_req (w_heap w) aborted_ok ab;
  pl_nodup : NoDup (running_ (w_sched w0));
  pl_heap q r : q ∉ ab → w_heap w0 !! q = Some r → ∃ r', w_heap w !! q = Some r' ∧ grown r r';
  pl_text q r : w_heap w0 !! q = Some r → ∃ r', w_heap w !! q = Some r' ∧ text r' = text r;
}.

(** A cell updated without touching its text. *)
Lemma text_insert (h0 h : gmap RequestPtr Request) p r r' :
  (∀ q rq, h0 !! q = Some rq → ∃ rq', h !! q = Some rq' ∧ text rq' = text rq) →
  h !! p = Some r → text r' = text r →
  ∀ q rq, h0 !! q = Some rq → ∃ rq', <[p := r']> h !! q = Some rq' ∧ text rq' = text rq.
Proof.
  intros Ht Hp Hr q rq Hq. destruct (Ht q rq Hq) as (rq' & Hq' & Heq).
  destruct (decide (q = p)) as [->|Hne]; [|exists rq'; by rewrite lookup_insert_ne].
  exists r'. rewrite lookup_insert_eq. split; [done|]. congruence.
Qed.

Lemma grown_text r r' : grown r r' → text r' = text r.
Proof. by intros (t & k & ->). Qed.

Lemma planning_aborted_not_live w0 w ab p :
  planning w0 w ab → p ∈ running_ (w_sched w) → p ∉ ab.
Proof.
  intros [] Hp Hab. rewrite pl_running0 in pl_nodup0. apply NoDup_app in pl_nodup0 as (_ & Hd & _).
  apply (Hd p Hp). by rewrite elem_of_reverse.
Qed.

Lemma planning_insert w0 h a s ab p r r' a' :
  planning w0 (mkWorld h a s) ab → p ∈ running_ s → h !! p = Some r → grown r r' →
  sched_inv o u (mkWorld (<[p := r']> h) a' s) → planning w0 (mkWorld (<[p := r']> h) a' s) ab.
Proof.
  intros Hpl Hp Hr Hg Hi. pose proof (planning_aborted_not_live _ _ _ p Hpl Hp) as Hpab.
  destruct Hpl as [_ ? ? ? ? Hab ? Hh Ht]. split; try done; cbn in *; [by apply all_req_insert| |].
  - intros q rq Hq Hrq. destruct (Hh q rq Hq Hrq) as (rq' & Hq' & Hg').
    destruct (decide (q = p)) as [->|Hne]; [|exists rq'; by rewrite lookup_insert_ne].
    exists r'. rewrite lookup_insert_eq. split; [done|]. rewrite Hr in Hq'. injection Hq' as <-.
    destruct Hg as (t & k & ->), Hg' as (t' & k' & ->). by eexists _, _.
  - apply text_insert with r; [done|done|by apply grown_text].
Qed.

Lemma planning_abort w0 h a s ab l v r a' s' :
  planning w0 (mkWorld h a s) ab → admission_policy o = kWatermark → running_ s = l ++ [v] →
  h !! v = Some r → sched_inv o u (mkWorld (<[v := aborted_request r]> h) a' s') →
  running_ s' = l → waiting_ s' = waiting_ s → prefill_queue_ s' = prefill_queue_ s →
  planning w0 (mkWorld (<[v := aborted_request r]> h) a' s') (ab ++ [v]).
Proof.
  intros Hpl Hpol Hrun Hv Hi Hrun' Hw' Hp'.
  assert (v ∉ ab) as Hvab.
  { eapply planning_aborted_not_live; [done|]. cbn. rewrite Hrun. set_solver. }
  destruct Hpl as [_ ? ? ? ? Hab ? Hh Ht]. cbn in *. split; cbn; try done; try congruence.
  - rewrite Hrun', reverse_snoc. rewrite pl_running0, Hrun. by rewrite <- app_assoc.
  - apply all_req_app. split; [by apply all_req_insert|]. apply Forall_singleton.
    eexists. rewrite lookup_insert_eq. split; [done|by split].
  - intros q rq Hq. apply not_elem_of_app in Hq as [Hq Hqv].
    rewrite lookup_insert_ne by set_solver. by apply Hh.
  - by apply text_insert with r.
Qed.

(** Under [kWatermark] with no prefill pending nothing is promised. *)
Lemma watermark_no_promise h a s :
  sched_inv o u (mkWorld h a s) → prefill_queue_ s = [] → admission_policy o = kWatermark →
  ka_reserved_blocks a = 0.
Proof.
  intros [_ _ _ _ Hr Hac] Hp Hpol. cbn in *. rewrite (ac_promised _ _ _ _ _ _ Hac).
  unfold admitted. rewrite Hp. cbn [app]. clear Hac.
  induction Hr as [|p l (r & Hpr & Hok) Hr IH]; [done|]. rewrite promised_cons, IH.
  rewrite (lookup_total_correct _ _ _ Hpr). pose proof (ro_target _ _ Hok) as Ht.
  rewrite Hpol in Ht. lia.
Qed.

(** A row before growth: its table is exactly full; after: it covers the row. *)
Lemma running_ok_full r :
  running_ok o r → 16 * nblocks r <= nprompt r + noutput r - 1 →
  16 * nblocks r = nprompt r + noutput r - 1.
Proof using Ho.
  intros [Hst ? ? Hout ? ? Hb] Hle. destruct Hst.
  pose proof (BlocksForTokens_spec (nprompt r + noutput r - 1) ltac:(lia)). lia.
Qed.

Lemma running_ok_grown r b k :
  running_ok o r → 16 * nblocks r <= nprompt r + noutput r - 1 →
  match admission_policy o with kReserveFull => k = reserved_blocks r - 1 | kWatermark => k = 0 end →
  (admission_policy o = kReserveFull → 0 < reserved_blocks r) ∧
  (0 <= k → running_ok o (set_reserved_blocks k (appended_block b r))) ∧
  nprompt r + noutput r <= 16 * (nblocks r + 1).
Proof using Ho.
  intros Hok Hle Hk. pose proof (running_ok_full r Hok Hle) as Heq.
  destruct Hok as [Hst Hs Hp Hout Hres Ht Hb]. pose proof Hst as [? ? ?].
  pose proof (BlocksForTokens_spec (nprompt r + noutput r) ltac:(lia)).
  pose proof (BlocksForTokens_spec (nprompt r + max_new_tokens r) ltac:(lia)).
  assert (nblocks (set_reserved_blocks k (appended_block b r)) = nblocks r + 1) as Hnb
    by apply nblocks_appended.
  unfold target in *. split_and!; [intros Hpol; rewrite Hpol in *; lia| |lia].
  intros Hk0. split; rewrite ?Hnb; cbn; try done.
  - destruct (admission_policy o) eqn:Hpol; [|done]. unfold target. rewrite Hpol.
    unfold nprompt in *. cbn. lia.
  - unfold nprompt, noutput in *. cbn. lia.
Qed.

(** The state after some aborts: a prefix of [running_] is left, its requests
    untouched. *)
Record shrunk (h : gmap RequestPtr Request) (s : Scheduler) (w : World A) : Prop := {
  sh_prefix : running_ (w_sched w) `prefix_of` running_ s;
  sh_heap q : q ∈ running_ (w_sched w) → w_heap w !! q = h !! q;
}.

Lemma shrunk_refl h a s : shrunk h s (mkWorld h a s).
Proof. by split. Qed.

(** What growth of row [i] leaves behind, by its result. *)
Definition grow_post (w0 : World A) (h : gmap RequestPtr Request) (s : Scheduler) (i : nat)
    (p : RequestPtr) (rows : list RequestPtr) (x : bool * StepPlan) (w : World A) : Prop :=
  ∃ ab, snd x = decode_plan rows ab ∧ planning w0 w ab ∧
    running_ (w_sched w) `prefix_of` running_ s ∧
    (∀ q, q ∈ running_ (w_sched w) → q ≠ p → w_heap w !! q = h !! q) ∧
    if fst x then
      running_ (w_sched w) !! i = Some p ∧
      ∃ r, w_heap w !! p = Some r ∧ nprompt r + noutput r <= 16 * nblocks r
    else running_ (w_sched w) = take i (running_ s).

Lemma running_not_prefill h a s p :
  sched_inv o u (mkWorld h a s) → p ∈ running_ s → p ∈ prefill_queue_ s → False.
Proof.
  intros Hi Hr Hp. destruct (live_split s p (si_nodup _ _ _ Hi)) as (_ & Hd & _); [|by apply Hd].
  unfold admitted. set_solver.
Qed.

Lemma grow_full w0 h a s i p r rows ab :
  planning w0 (mkWorld h a s) ab → running_ s !! i = Some p → h !! p = Some r →
  admission_policy o = kReserveFull → 16 * nblocks r <= nprompt r + noutput r - 1 →
  wp (materialize p) (λ _ w, grow_post w0 h s i p rows (true, decode_plan rows ab) w) (mkWorld h a s).
Proof using Ho.
  intros Hpl Hi Hp Hpol Hle. pose proof (pl_inv _ _ _ Hpl) as Hinv.
  pose proof Hinv as [Hos Hnd _ _ Hr Hac]. cbn in *.
  assert (p ∈ running_ s) as Hin by by eapply list_elem_of_lookup_2.
  assert (p ∈ admitted s) as Hadm by (unfold admitted; set_solver).
  destruct (all_req_elem _ _ _ p Hr Hin) as (r0 & Heq & Hok).
  assert (r0 = r) as -> by congruence. clear Heq.
  destruct (running_ok_grown r 0 (reserved_blocks r - 1) Hok Hle) as (Hpos & _ & Hcov);
    [by rewrite Hpol|].
  eapply wp_materialize_in; [done|done|done|by apply Hpos|done|].
  intros b a' r' Hac'.
  destruct (running_ok_grown r b (reserved_blocks r - 1) Hok Hle) as (_ & Hok' & _);
    [by rewrite Hpol|]. specialize (Hpos Hpol).
  exists ab. cbn. split_and!; [done| |done| |done|].
  - eapply planning_insert; [done|done|done| |].
    + apply grown_appended, grown_refl.
    + eapply sched_inv_update; [done|done| | |done].
      * intros Hpq. exfalso. by eapply running_not_prefill.
      * intros _. apply Hok'. lia.
  - intros q _ Hne. by rewrite lookup_insert_ne.
  - exists r'. rewrite lookup_insert_eq. split; [done|].
    assert (nblocks r' = nblocks r + 1) as -> by apply nblocks_appended. exact Hcov.
Qed.

(** One turn of the abort loop. *)
Lemma wp_growth_step w0 h s i p rows ab' w :
  admission_policy o = kWatermark →
  planning w0 w ab' → shrunk h s w → running_ (w_sched w) !! i = Some p →
  wp (growth_step p (decode_plan rows ab'))
    (λ x w', match x with
     | inl plan' => (∃ ab'', plan' = decode_plan rows ab'' ∧ planning w0 w' ab'' ∧ shrunk h s w' ∧
                       running_ (w_sched w') !! i = Some p) ∧
                    (length (running_ (w_sched w')) < length (running_ (w_sched w)))%nat
     | inr (true, plan') => ∃ ab'', plan' = decode_plan rows ab'' ∧ planning w0 w' ab'' ∧
                       shrunk h s w' ∧ running_ (w_sched w') !! i = Some p ∧
                       1 <= zlen (ka_pool (w_alloc w'))
     | inr (false, plan') => ∃ ab'', plan' = decode_plan rows ab'' ∧ planning w0 w' ab'' ∧
                       shrunk h s w' ∧ running_ (w_sched w') = take i (running_ s)
     end) w.
Proof.
  intros Hpol Hpl [Hpre Hheap] Hi. destruct w as [h1 a1 s1]. cbn in *.
  pose proof (pl_inv _ _ _ Hpl) as Hinv. pose proof Hinv as [_ _ _ _ Hr Hac]. cbn in *.
  pose proof (watermark_no_promise _ _ _ Hinv (pl_prefill _ _ _ Hpl) Hpol) as Hres.
  unfold growth_step. wp_auto. apply wp_on_allocator, ka_CanReserve_law; [apply Hac|lia|].
  rewrite Hres. destruct (Z.leb_spec 1 (zlen (ka_pool a1) - 0)) as [Hge|Hlt].
  { wp_auto. exists ab'. split_and!; [done|done|by split|done|cbn; lia]. }
  wp_auto. unfold scheduler. wp_auto. cbn [w_sched].
  assert (p ∈ running_ s1) as Hin by by eapply list_elem_of_lookup_2.
  assert (running_ s1 ≠ []) as Hne by (intros Hnil; rewrite Hnil in Hin; set_solver).
  destruct (back_is_Some _ Hne) as [v Hv]. pose proof (proj1 (back_Some _ _) Hv) as Hrun.
  set (l := pop_back (running_ s1)) in *.
  destruct (all_req_elem _ _ _ v Hr) as (r & Hvr & _); [rewrite Hrun; set_solver|].
  apply wp_assert_; [by apply negb_true_iff, is_nil_false|]. wp_auto.
  eapply wp_from_option; [done|]. wp_auto.
  eapply wp_AbortYoungestRunning; [done|done|done|].
  intros a' s' w' Hinv' Hrun' Hw' Hp' Hpool. cbn.
  assert (planning w0 w' (ab' ++ [v])) as Hpl' by (eapply planning_abort; done).
  pose proof (pl_nodup _ _ _ Hpl') as Hnd0.
  assert (v ∉ l) as Hvl.
  { pose proof (si_nodup _ _ _ Hinv) as Hnd. cbn in Hnd. unfold live, admitted in Hnd.
    rewrite Hrun in Hnd. apply NoDup_app in Hnd as (_ & _ & Hnd).
    apply NoDup_app in Hnd as (_ & _ & Hnd). apply NoDup_app in Hnd as (_ & Hd & _).
    intros Hin'. apply (Hd v Hin'). set_solver. }
  assert (shrunk h s w') as Hsh'.
  { split; cbn; rewrite Hrun'.
    - etrans; [|exact Hpre]. rewrite Hrun. by apply prefix_app_r.
    - intros q Hq. rewrite lookup_insert_ne by set_solver. apply Hheap. rewrite Hrun. set_solver. }
  wp_auto. destruct (decide (v = p)) as [->|Hvp].
  - rewrite bool_decide_true by done. exists (ab' ++ [p]). split_and!; [done|done|done|].
    cbn. rewrite Hrun'. rewrite Hrun in Hi. destruct Hpre as [k Hk]. rewrite Hrun in Hk.
    apply lookup_app_Some in Hi as [Hi|[Hlen Hi]].
    { exfalso. apply Hvl. by eapply list_elem_of_lookup_2. }
    apply list_lookup_singleton_Some in Hi as [Hi _].
    rewrite Hk, <- app_assoc. rewrite take_app_le by lia. rewrite take_ge by lia. done.
  - rewrite bool_decide_false by done. split.
    + exists (ab' ++ [v]). split_and!; [done|done|done|]. cbn. rewrite Hrun'. rewrite Hrun in Hi.
      apply lookup_app_Some in Hi as [Hi|[_ Hi]]; [done|].
      apply list_lookup_singleton_Some in Hi as [_ Hi]. congruence.
    + cbn. rewrite Hrun', Hrun, length_app. cbn. lia.
Qed.

Lemma lookup_prefix_take {B} (l k : list B) i x :
  k `prefix_of` l → k !! i = Some x → l !! i = Some x ∧ take i k = take i l.
Proof.
  intros [t ->] Hx. pose proof (lookup_lt_Some _ _ _ Hx). split.
  - by rewrite lookup_app_l.
  - by rewrite take_app_le by lia.
Qed.

(** The block claimed after the abort loop: [Reserve(1)], [AllocReserved]. *)
Lemma grow_watermark w0 h a s i p r ab :
  planning w0 (mkWorld h a s) ab → running_ s !! i = Some p → h !! p = Some r →
  admission_policy o = kWatermark → 16 * nblocks r <= nprompt r + noutput r - 1 →
  1 <= zlen (ka_pool a) →
  wp (on_allocator (ka_Reserve 1);; append_reserved p)
    (λ _ w, ∃ r', grown r r' ∧ nprompt r' + noutput r' <= 16 * nblocks r' ∧
       planning w0 w ab ∧ w_sched w = s ∧ w_heap w = <[p := r']> h) (mkWorld h a s).
Proof using Ho.
  intros Hpl Hi Hp Hpol Hle Hpool. pose proof (pl_inv _ _ _ Hpl) as Hinv.
  pose proof (watermark_no_promise _ _ _ Hinv (pl_prefill _ _ _ Hpl) Hpol) as Hres.
  pose proof Hinv as [Hos Hnd _ _ Hr Hac]. cbn in *.
  assert (p ∈ running_ s) as Hin by by eapply list_elem_of_lookup_2.
  assert (p ∈ admitted s) as Hadm by (unfold admitted; set_solver).
  destruct (all_req_elem _ _ _ p Hr Hin) as (r0 & Heq & Hok).
  assert (r0 = r) as -> by congruence. clear Heq.
  assert (reserved_blocks r = 0) as Hr0 by (pose proof (ro_target _ _ Hok) as Ht; by rewrite Hpol in Ht).
  destruct (live_split s p Hnd Hadm) as (_ & _ & l & Hl & Hpn). rewrite Hl in Hac.
  destruct (accounts_split _ _ _ _ _ _ _ _ Hp Hac) as [Hv Hu Hb Hpr Hs Hn1 Hn].
  wp_auto. apply wp_on_allocator, ka_Reserve_law; [done|lia|].
  intros a1 Hv1 Hp1 Hr1 Hu1.
  apply (wp_append_reserved u (max_batch o) h a1 s p r l 1); [done|lia| |].
  { split; cbn; try done; [congruence|by rewrite Hp1|lia]. }
  intros b a' r' Hao _.
  assert (r' = set_reserved_blocks 0 r') as Hr' by (subst r'; unfold appended_block; cbn; by rewrite <- Hr0).
  destruct (running_ok_grown r b 0 Hok Hle) as (_ & Hok' & Hcov); [by rewrite Hpol|].
  specialize (Hok' ltac:(lia)). fold r' in Hok'. rewrite <- Hr' in Hok'.
  assert (grown r r') as Hg by (rewrite Hr'; apply grown_appended, grown_refl).
  exists r'. split_and!; [done| | |done|done].
  { assert (nblocks r' = nblocks r + 1) as -> by apply nblocks_appended. exact Hcov. }
  eapply planning_insert; [done|done|done|done|].
  eapply sched_inv_update; [done|done| |done|].
  - intros Hpq. exfalso. by eapply running_not_prefill.
  - cbn. rewrite Hl. apply accounts_join; [done|]. change (1 - 1) with 0 in Hao. by rewrite <- Hr' in Hao.
Qed.

Lemma wp_Ensure w0 h a s i p r rows ab :
  planning w0 (mkWorld h a s) ab → running_ s !! i = Some p → h !! p = Some r →
  16 * nblocks r <= nprompt r + noutput r - 1 →
  wp (EnsureDecodeBlockCapacity p (decode_plan rows ab)) (grow_post w0 h s i p rows) (mkWorld h a s).
Proof using Ho.
  intros Hpl Hi Hp Hle. pose proof (si_options _ _ _ (pl_inv _ _ _ Hpl)) as Hos. cbn in Hos.
  unfold EnsureDecodeBlockCapacity. wp_auto. unfold scheduler. wp_auto. cbn [w_sched]. rewrite Hos.
  destruct (admission_policy o) eqn:Hpol.
  { wp_auto. eapply wp_mono; [by eapply grow_full|]. intros [] w Hpost. by wp_auto. }
  wp_auto.
  apply (wp_loop OutOfFuel (λ plan' w', ∃ ab', plan' = decode_plan rows ab' ∧ planning w0 w' ab' ∧
            shrunk h s w' ∧ running_ (w_sched w') !! i = Some p)
           (λ _ w', length (running_ (w_sched w')))).
  2:{ exists ab. split_and!; [done|done|apply shrunk_refl|done]. }
  2:{ cbn. lia. }
  intros plan' w' (ab' & -> & Hpl' & Hsh & Hi').
  eapply wp_mono; [by apply (wp_growth_step w0 h s i p rows ab' w')|].
  intros [plan2|[[] plan2]] w2; [done| |].
  - intros (ab2 & -> & Hpl2 & [Hpre Hheap] & Hi2 & Hpool). cbn [fst].
    destruct w2 as [h2 a2 s2]. cbn in *.
    assert (h2 !! p = Some r) as Hp2 by (rewrite Hheap; [done|by eapply list_elem_of_lookup_2]).
    pose proof (grow_watermark w0 h2 a2 s2 i p r ab2 Hpl2 Hi2 Hp2 Hpol Hle Hpool) as Hwp.
    apply wp_bind. eapply wp_mono; [exact (wp_bind_inv _ _ _ _ Hwp)|].
    intros [] w3 Hwp3. apply wp_bind. eapply wp_mono; [exact Hwp3|].
    intros [] [h4 a4 s4] (r' & Hg & Hcov & Hpl4 & Hs4 & Hh4). cbn in Hs4, Hh4. subst. wp_auto.
    exists ab2. cbn. split_and!; [done|done|done| |done|].
    + intros q Hq Hne. rewrite lookup_insert_ne by done. by apply Hheap.
    + exists r'. by rewrite lookup_insert_eq.
  - intros (ab2 & -> & Hpl2 & [Hpre Hheap] & Hrun2). wp_auto. exists ab2. cbn.
    split_and!; [done|done|done| |done]. intros q Hq _. by apply Hheap.
Qed.

(** ** The decode batch *)

(** The table holds the position the next step writes. *)
Definition covered (r : Request) : Prop := nprompt r + noutput r <= 16 * nblocks r.

Definition decode_inv (w0 : World A) (x : nat * StepPlan) (w : World A) : Prop :=
  ∃ ab, snd x = decode_plan (take (fst x) (running_ (w_sched w))) ab ∧ planning w0 w ab ∧
    (fst x <= length (running_ (w_sched w)))%nat ∧
    all_req (w_heap w) covered (take (fst x) (running_ (w_sched w))).

Definition decode_post (w0 : World A) (plan : StepPlan) (w : World A) : Prop :=
  ∃ ab, plan = decode_plan (running_ (w_sched w)) ab ∧ planning w0 w ab ∧
    all_req (w_heap w) covered (running_ (w_sched w)).

Lemma running_le_batch w : sched_inv o u w → zlen (running_ (w_sched w)) <= max_batch o.
Proof using Ho.
  intros [_ _ _ _ _ Hac]. assert (0 <= max_batch o) as Hb by (destruct Ho; lia).
  pose proof (accounts_free_slots _ _ _ _ _ _ Hb Hac) as Hs. unfold admitted in Hs. zlen.
  pose proof (zlen_nonneg (free_slots_ (w_sched w))).
  pose proof (zlen_nonneg (prefill_queue_ (w_sched w))). lia.
Qed.

Lemma wp_decode_step w0 x w :
  decode_inv w0 x w →
  wp (decode_step x) (λ y w', match y with
      | inl x' => decode_inv w0 x' w' ∧
          (length (running_ (w_sched w')) - fst x' < length (running_ (w_sched w)) - fst x)%nat
      | inr plan => decode_post w0 plan w'
      end) w.
Proof using Ho.
  destruct x as [i plan], w as [h a s]. intros (ab & Hplan & Hpl & Hile & Hcov). cbn in *.
  subst plan. pose proof (pl_inv _ _ _ Hpl) as Hinv. pose proof Hinv as [Hos Hnd _ _ Hr Hac].
  unfold decode_step. wp_auto. unfold scheduler. wp_auto. cbn [w_sched w_heap decode decode_plan] in *.
  destruct (running_ s !! i) as [p|] eqn:Hi.
  2:{ apply lookup_ge_None in Hi. wp_auto. rewrite take_ge in * by lia. by exists ab. }
  pose proof (lookup_lt_Some _ _ _ Hi) as Hlt. rewrite Hos.
  destruct (Z.ltb_spec (zlen (take i (running_ s))) (max_batch o)) as [_|Hge].
  2:{ exfalso. pose proof (running_le_batch _ Hinv) as Hb. cbn in Hb. unfold zlen in *.
      rewrite length_take in Hge. lia. }
  assert (p ∈ running_ s) as Hin by by eapply list_elem_of_lookup_2.
  destruct (all_req_elem _ _ _ p Hr Hin) as (r & Hp & Hok).
  pose proof Hok as [Hst _ _ Hout _ _ Hbl]. pose proof Hst as [? ? ?].
  pose proof (BlocksForTokens_mono (nprompt r + noutput r) (nprompt r + max_new_tokens r) ltac:(lia)).
  wp_auto. eapply wp_deref; [done|].
  rewrite (seq_len_eq o r Ho Hst), (token_capacity_eq o r Ho Hst) by lia.
  destruct (Z.leb_spec (16 * nblocks r) (nprompt r + noutput r - 1)) as [Hle|Hgt].
  - pose proof (running_ok_full r Hok Hle) as Heq.
    wp_auto. apply wp_assert_; [apply Z.eqb_eq; lia|]. wp_auto.
    eapply wp_mono; [by eapply wp_Ensure|].
    intros [b plan'] w' (ab' & -> & Hpl' & Hpre & Hheap & Hb). cbn [fst snd] in *.
    assert (all_req (w_heap w') covered (take i (running_ (w_sched w')))) as Hcov'.
    { destruct Hpre as [t Ht]. pose proof Hcov as Hcov2. rewrite Ht in Hcov2.
      apply (all_req_incl h _ _ (take i (running_ (w_sched w')))) in Hcov2.
      2:{ intros q Hq. rewrite take_app. set_solver. }
      eapply all_req_frame; [|exact Hcov2]. intros q Hq. apply Hheap.
      { rewrite <- (take_drop i (running_ (w_sched w'))). set_solver. }
      intros ->. assert (NoDup (running_ s)) as Hndr.
      { unfold live, admitted in Hnd. apply NoDup_app in Hnd as (_ & _ & Hnd).
        by apply NoDup_app in Hnd as (_ & _ & Hnd). }
      apply list_elem_of_lookup in Hq as [j Hj]. apply lookup_take_Some in Hj as [Hj Hji].
      assert (running_ s !! j = Some p) as Hj' by (rewrite Ht; by apply lookup_app_l_Some).
      pose proof (NoDup_lookup _ _ _ _ Hndr Hi Hj'). lia. }
    destruct b.
    + destruct Hb as [Hi' (r' & Hp' & Hc')]. wp_auto.
      destruct (lookup_prefix_take _ _ _ _ Hpre Hi') as [_ Htake].
      pose proof (lookup_lt_Some _ _ _ Hi'). apply prefix_length in Hpre. split; [|cbn; lia].
      exists ab'. cbn. rewrite (take_S_r _ _ _ Hi'), Htake. split_and!; [done|done|lia|].
      apply all_req_app. rewrite <- Htake. split; [done|]. apply Forall_singleton. eauto.
    + wp_auto. rewrite Hb in *. split.
      * exists ab'. cbn. rewrite Hb, take_take, Nat.min_id. rewrite take_take, Nat.min_id in Hcov'.
        rewrite length_take. split_and!; [done|done|lia|done].
      * cbn. rewrite length_take. lia.
  - wp_auto. split; [|cbn; lia]. exists ab. cbn. rewrite (take_S_r _ _ _ Hi).
    split_and!; [done|done|lia|]. apply all_req_app. split; [done|]. apply Forall_singleton.
    exists r. split; [done|]. unfold covered. lia.
Qed.

Lemma wp_PlanDecode w :
  sched_inv o u w → prefill_queue_ (w_sched w) = [] → wp PlanDecode (decode_post w) w.
Proof using Ho.
  intros Hinv Hpq. unfold PlanDecode. wp_auto. unfold scheduler. wp_auto.
  apply (wp_loop OutOfFuel (decode_inv w)
           (λ x w', length (running_ (w_sched w')) - fst x)%nat); [apply wp_decode_step| |].
  - exists []. cbn. rewrite take_0. split_and!; [done| |lia|constructor].
    split; try done; [by rewrite app_nil_r|constructor| | |by eauto].
    + pose proof (si_nodup _ _ _ Hinv) as Hnd. unfold live, admitted in Hnd.
      apply NoDup_app in Hnd as (_ & _ & Hnd). by apply NoDup_app in Hnd as (_ & _ & Hnd).
    + intros q r _ Hr. exists r. split; [done|apply grown_refl].
  - cbn. lia.
Qed.

(** ** The whole of [PlanStep] *)

(** A dedicated prefill slice of the oldest admitted prefill. *)
Record prefill_post (w1 : World A) (plan : StepPlan) (w : World A) : Prop := {
  pp_parts : ∃ p rest r r' a', prefill_queue_ (w_sched w1) = p :: rest ∧
    w_heap w1 !! p = Some r ∧ grown r r' ∧ chunk_end r <= 16 * nblocks r' ∧
    w = mkWorld (<[p := r']> (w_heap w1)) a' (w_sched w1) ∧
    plan = mkStepPlan (Some p) (prefill_progress r) (chunk_end r) [] [];
}.

(** Admission, and then one of the two kinds of plan. *)
Record plan_post (w0 : World A) (plan : StepPlan) (w : World A) : Prop := {
  pt_inv : sched_inv o u w;
  pt_parts : ∃ w1 pre, admits o w0 w1 pre ∧ sched_inv o u w1 ∧ admission_stopped o u w1 ∧
    (prefill_post w1 plan w ∨ prefill_queue_ (w_sched w1) = [] ∧ decode_post w1 plan w);
}.

Lemma wp_PlanStep w : sched_inv o u w → wp PlanStep (plan_post w) w.
Proof using Ho.
  intros Hinv. unfold PlanStep. wp_auto. apply (wp_AdmitWaiting o u); [done|done|].
  intros w1 pre Hi1 Had Hstop. wp_auto. unfold scheduler. wp_auto.
  destruct (prefill_queue_ (w_sched w1)) as [|p rest] eqn:Hpq.
  - eapply wp_mono; [by apply wp_PlanDecode|]. intros plan w2 Hpost. split.
    + destruct Hpost as (ab & _ & Hpl & _). apply Hpl.
    + exists w1, pre. split_and!; [done|done|done|right; done].
  - destruct w1 as [h a s]. cbn in Hpq.
    destruct (all_req_elem _ _ _ p (si_prefill _ _ _ Hi1)) as (r & Hp & _); [cbn; rewrite Hpq; set_solver|].
    eapply wp_PlanPrefill; [done|done|done|]. intros r' a' Hg Hc Hi2. split; [done|].
    exists (mkWorld h a s), pre. split_and!; [done|done|done|left]. constructor.
    exists p, rest, r, r', a'. done.
Qed.

(** What [CompleteStep] is entitled to assume of the plan it is given. *)
Definition plan_ok (w : World A) (plan : StepPlan) : Prop :=
  match prefill plan with
  | Some p => decode plan = [] ∧ aborted plan = [] ∧ ∃ rest r,
      prefill_queue_ (w_sched w) = p :: rest ∧ w_heap w !! p = Some r ∧
      prefill_begin plan = prefill_progress r ∧ prefill_end plan = chunk_end r ∧
      prefill_end plan <= 16 * nblocks r
  | None => prefill_queue_ (w_sched w) = [] ∧ decode plan = running_ (w_sched w) ∧
      all_req (w_heap w) covered (running_ (w_sched w)) ∧
      all_req (w_heap w) aborted_ok (aborted plan) ∧
      NoDup (aborted plan) ∧ (∀ p, p ∈ aborted plan → p ∉ running_ (w_sched w)) ∧
      (admission_policy o = kReserveFull → aborted plan = [])
  end.

Lemma planning_nodup w0 w ab :
  planning w0 w ab → NoDup ab ∧ (∀ p, p ∈ ab → p ∉ running_ (w_sched w)).
Proof.
  intros []. rewrite pl_running0 in pl_nodup0. apply NoDup_app in pl_nodup0 as (_ & Hd & Hnd).
  split; [by rewrite reverse_Permutation in Hnd|].
  intros p Hp Hr. apply (Hd p Hr). by rewrite elem_of_reverse.
Qed.

Lemma plan_post_ok w0 plan w : plan_post w0 plan w → plan_ok w plan.
Proof.
  intros [Hi (w1 & pre & _ & Hi1 & _ & [Hp|[Hpq Hd]])]; unfold plan_ok.
  - destruct Hp as [(p & rest & r & r' & a' & Hpq & Hr & Hg & Hc & -> & ->)]. cbn.
    split_and!; [done|done|]. exists rest, r'. rewrite lookup_insert_eq.
    destruct Hg as (t & k & ->). done.
  - destruct Hd as (ab & -> & Hpl & Hcov). cbn. destruct (planning_nodup _ _ _ Hpl).
    destruct Hpl. done.
Qed.

End plan.
