(* ===== verification/SchedulerStep.v ===== *)
(** * Completing a step: emissions, stop checks, release

    [ApplySampledToken] and [CompleteStep] executed symbolically.  The stop
    decision and the request a token leaves behind are pure functions of the
    request and the token ([reason_for], [next_request], [result_for]); the
    operations are proved to compute them and to keep the invariant. *)

From S2P Require Import Prelude Doubles Types BlockAllocator Scheduler SchedulerInv SchedulerPlan.

(** ** The effect of one produced token, as pure functions *)

Definition after_append (r : Request) (t : TokenId) : Request :=
  set_output_tokens (output_tokens r ++ [appended_token r t]) r.

Definition reason_for (o : SchedulerOptions) (r : Request) (t : TokenId) : FinishReason :=
  stop_reason o (after_append r t) (appended_token r t).

Definition finished_request (reason : FinishReason) (r : Request) : Request :=
  released (set_finish_reason reason (set_state kFinished r)).

Definition next_request (o : SchedulerOptions) (r : Request) (t : TokenId) : Request :=
  if decide (reason_for o r t = kNone) then set_state kRunning (after_append r t)
  else finished_request (reason_for o r t) (after_append r t).

Definition result_for (o : SchedulerOptions) (r : Request) (t : TokenId) : StepResult :=
  mkStepResult (id r) t (negb (bool_decide (reason_for o r t = kNone))) (reason_for o r t).

Lemma noutput_append r t : noutput (after_append r t) = noutput r + 1.
Proof. unfold noutput, after_append. cbn. zlen. lia. Qed.

(** The stop decision as the header states it: EOS first, then the length. *)
Lemma reason_for_spec o r t :
  opts_ok o → static_ok o r → noutput r < max_new_tokens r →
  reason_for o r t =
    if bool_decide (ignore_eos r = false ∧ appended_token r t ∈ eos_token_ids o) then kEos
    else if bool_decide (noutput r + 1 = max_new_tokens r) then kLength else kNone.
Proof.
  intros Ho Hst Hlt. unfold reason_for, stop_reason, IsEosToken.
  assert (static_ok o (after_append r t)) as Hst' by by destruct Hst.
  rewrite (num_output_tokens_eq o _ Ho Hst') by (rewrite noutput_append; cbn; lia).
  rewrite noutput_append. cbn.
  assert (negb (ignore_eos r) && bool_decide (appended_token r t ∈ eos_token_ids o)
          = bool_decide (ignore_eos r = false ∧ appended_token r t ∈ eos_token_ids o)) as ->.
  { destruct (ignore_eos r); cbn; [|apply bool_decide_ext; naive_solver].
    symmetry. apply bool_decide_false. naive_solver. }
  case_bool_decide; [done|].
  destruct (Z.leb_spec (max_new_tokens r) (noutput r + 1)).
  - by rewrite bool_decide_true by lia.
  - by rewrite bool_decide_false by lia.
Qed.

Lemma reason_none o r t :
  opts_ok o → static_ok o r → noutput r < max_new_tokens r → reason_for o r t = kNone →
  noutput r + 1 < max_new_tokens r.
Proof. intros ??? H. rewrite reason_for_spec in H by done. repeat case_bool_decide; try done. lia. Qed.

Section step.
Context {A : Type} `{!KvAllocator A} `{!KvAllocatorLaws A}.
Context (o : SchedulerOptions) (u : Z) (Ho : opts_ok o).
Implicit Types (h : gmap RequestPtr Request) (a : A) (s : Scheduler) (w : World A).

(** ** The request stays well formed *)

Lemma running_of_prefill r t :
  prefill_ok o r → nprompt r <= 16 * nblocks r →
  reason_for o (set_prefill_progress (nprompt r) r) t = kNone →
  running_ok o (next_request o (set_prefill_progress (nprompt r) r) t).
Proof using Ho.
  intros [Hst ? Hout ? ? ? Ht Hb] Hcov Hr. pose proof Hst as [? ? ?].
  set (r1 := set_prefill_progress (nprompt r) r) in *.
  assert (noutput r1 = 0) as Hno by (unfold noutput, r1; cbn; by rewrite Hout).
  assert (static_ok o r1) as Hst1 by by destruct Hst.
  pose proof (reason_none o r1 t Ho Hst1 ltac:(cbn; lia) Hr) as Hlt.
  pose proof (BlocksForTokens_spec (nprompt r) ltac:(lia)).
  pose proof (BlocksForTokens_spec (nprompt r + 1) ltac:(lia)).
  assert (noutput (set_state kRunning (after_append r1 t)) = 1) as Hno1.
  { transitivity (noutput (after_append r1 t)); [done|]. rewrite noutput_append. lia. }
  unfold next_request. rewrite decide_True by done. split; rewrite ?Hno1; try done.
  - cbn. cbn in Hlt. lia.
  - unfold target in *. destruct (admission_policy o); [done|]. cbn.
    change (nprompt r) with (zlen (prompt_tokens r)) in *. lia.
  - change (nblocks (set_state kRunning (after_append r1 t))) with (nblocks r).
    change (nprompt (set_state kRunning (after_append r1 t))) with (nprompt r).
    replace (nprompt r + 1 - 1) with (nprompt r) by lia. lia.
Qed.

Lemma running_of_running r t :
  running_ok o r → covered r → reason_for o r t = kNone → running_ok o (next_request o r t).
Proof using Ho.
  intros [Hst ? ? Hout ? Ht Hb] Hcov Hr. pose proof Hst as [? ? ?].
  pose proof (reason_none o r t Ho Hst ltac:(lia) Hr) as Hlt. unfold covered in Hcov.
  pose proof (BlocksForTokens_spec (nprompt r + noutput r) ltac:(lia)).
  pose proof (BlocksForTokens_spec (nprompt r + noutput r + 1) ltac:(lia)).
  assert (noutput (set_state kRunning (after_append r t)) = noutput r + 1) as Hno1.
  { transitivity (noutput (after_append r t)); [done|]. by rewrite noutput_append. }
  unfold next_request. rewrite decide_True by done. split; rewrite ?Hno1; try done.
  - cbn. lia.
  - change (nblocks (set_state kRunning (after_append r t))) with (nblocks r).
    change (nprompt (set_state kRunning (after_append r t))) with (nprompt r).
    replace (nprompt r + (noutput r + 1) - 1) with (nprompt r + noutput r) by lia.
    replace (nprompt r + (noutput r + 1)) with (nprompt r + noutput r + 1) by lia. lia.
Qed.

(** The account of a request does not see its progress, state or tokens. *)
Lemma account_of_fields n h l a fs r r' :
  block_table r' = block_table r → reserved_blocks r' = reserved_blocks r → slot r' = slot r →
  account_of u n h l a fs r → account_of u n h l a fs r'.
Proof. intros Hb Hr Hs [? ? ? ? ? ? ?]. split; rewrite ?Hb, ?Hr, ?Hs; done. Qed.

(** ** The two uses of [ApplySampledToken] *)

(** Common tail: the request finishes and everything it holds is returned. *)
Lemma wp_finish {B} h a s p r l reason (k : M error (World A) B) (Q : B → World A → Prop) :
  h !! p = Some r → p ∉ l → accounts u (max_batch o) h (p :: l) a (free_slots_ s) →
  (∀ a', accounts u (max_batch o) (<[p := finished_request reason r]> h) l a'
           (free_slots_ s ++ [slot r]) →
     wp k Q (mkWorld (<[p := finished_request reason r]> h) a'
               (set_free_slots (free_slots_ s ++ [slot r]) s))) →
  wp (update_request p (set_state kFinished);; update_request p (set_finish_reason reason);;
      ReleaseResources p;; k) Q (mkWorld h a s).
Proof.
  intros Hp Hpl Hac HQ. wp_auto. eapply wp_update_request; [done|]. wp_auto.
  eapply wp_update_request; [apply lookup_insert_eq|]. rewrite insert_insert_eq. wp_auto.
  apply (wp_ReleaseResources u (max_batch o) _ _ _ _ (set_finish_reason reason (set_state kFinished r)) l).
  - apply lookup_insert_eq.
  - done.
  - apply accounts_join; [done|]. apply (account_of_fields _ _ _ _ _ r); [done|done|done|].
    eapply accounts_split; [exact Hp|exact Hac].
  - intros a' Hac' _. rewrite insert_insert_eq in *. by apply HQ.
Qed.

(** ** Final prefill chunk *)

Definition after_prefill (r : Request) : Request := set_prefill_progress (nprompt r) r.

Lemma wp_Apply_prefill h a s p rest r t (Q : StepResult → World A → Prop) :
  sched_inv o u (mkWorld h a s) → prefill_queue_ s = p :: rest → h !! p = Some r →
  nprompt r <= 16 * nblocks r →
  (∀ a' s', let w' := mkWorld (<[p := next_request o (after_prefill r) t]> h) a' s' in
     sched_inv o u w' → waiting_ s' = waiting_ s → prefill_queue_ s' = rest →
     running_ s' = (if decide (reason_for o (after_prefill r) t = kNone)
                    then running_ s ++ [p] else running_ s) →
     Q (result_for o (after_prefill r) t) w') →
  wp (ApplySampledToken p t) Q
    (mkWorld (<[p := after_prefill r]> h) a (set_prefill_queue rest s)).
Proof using Ho.
  intros Hinv Hpq Hp Hcov HQ. pose proof Hinv as [Hos Hnd Hw Hpre Hr Hac]. cbn in *.
  destruct (all_req_elem _ _ _ p Hpre) as (r0 & Heq & Hok); [rewrite Hpq; set_solver|].
  assert (r0 = r) as -> by congruence. clear Heq.
  set (r1 := after_prefill r) in *. set (r2 := after_append r1 t).
  assert (admitted s = p :: rest ++ running_ s) as Hadm by (unfold admitted; by rewrite Hpq).
  assert (p ∉ rest ++ running_ s) as Hpn.
  { unfold live in Hnd. rewrite Hadm in Hnd. apply NoDup_app in Hnd as (_ & _ & Hnd).
    by apply NoDup_cons in Hnd as []. }
  rewrite Hadm in Hac. pose proof (accounts_split _ _ _ _ _ _ _ _ Hp Hac) as Hao.
  assert (account_of u (max_batch o) h (rest ++ running_ s) a (free_slots_ s) r2) as Hao2.
  { by apply (account_of_fields _ _ _ _ _ r). }
  unfold ApplySampledToken. wp_auto. eapply wp_deref; [apply lookup_insert_eq|]. wp_auto.
  assert (state r1 = kPrefill) as Hst1 by apply Hok.
  apply wp_assert_; [by rewrite bool_decide_true|]. wp_auto. rewrite bool_decide_true by done.
  eapply wp_update_request; [apply lookup_insert_eq|]. rewrite insert_insert_eq.
  fold (after_append r1 t). fold r2. wp_auto.
  eapply wp_deref; [apply lookup_insert_eq|]. wp_auto. unfold scheduler. wp_auto.
  cbn [w_sched options_ set_prefill_queue]. rewrite Hos.
  change (stop_reason o r2 (appended_token r1 t)) with (reason_for o r1 t).
  unfold next_request in HQ. fold r2 in HQ. change (id r2) with (id r1).
  assert (∀ reason, reason ≠ kNone → reason_for o r1 t = reason →
    wp (update_request p (set_state kFinished);; update_request p (set_finish_reason reason);;
        ReleaseResources p;; mret ();; mret (mkStepResult (id r1) t true reason)) Q
      (mkWorld (<[p := r2]> h) a (set_prefill_queue rest s))) as Hfin.
  { intros reason Hne Hreason. rewrite Hreason in HQ. rewrite !(decide_False (P:=reason = kNone)) in HQ by done.
    assert (result_for o r1 t = mkStepResult (id r1) t true reason) as Hres.
    { unfold result_for. rewrite Hreason. by rewrite bool_decide_false. }
    eapply (wp_finish _ _ _ _ r2 (rest ++ running_ s)); [apply lookup_insert_eq|done| |].
    { by apply accounts_join. }
    intros a' Hac'. rewrite insert_insert_eq in *. wp_auto. rewrite <- Hres.
    apply HQ; try done. cbn.
    apply (sched_inv_remove o u h a s); try done; cbn; rewrite ?Hadm; try done.
    intros q Hq. rewrite Hpq. set_solver. }
  destruct (reason_for o r1 t) eqn:Hreason; try by apply Hfin.
  rewrite !decide_True in HQ by done.
  wp_auto. eapply wp_update_request; [apply lookup_insert_eq|]. rewrite insert_insert_eq. wp_auto.
  apply wp_update_sched. wp_auto.
  assert (result_for o r1 t = mkStepResult (id r1) t false kNone) as <-.
  { unfold result_for. by rewrite Hreason. }
  apply HQ; try done.
  assert (nprompt r <= 16 * nblocks r → running_ok o (set_state kRunning r2)) as Hnext.
  { intros Hc. pose proof (running_of_prefill r t Hok Hc Hreason) as Hrun.
    unfold next_request in Hrun. by rewrite decide_True in Hrun by done. }
  assert (p ∉ waiting_ s) as Hpw.
  { destruct (live_split s p Hnd) as [? _]; [rewrite Hadm; set_solver|done]. }
  apply not_elem_of_app in Hpn as [Hpn1 Hpn2].
  assert (admitted (set_running (running_ s ++ [p]) (set_prefill_queue rest s)) ≡ₚ admitted s) as Hperm.
  { rewrite Hadm. unfold admitted. cbn. solve_Permutation. }
  split; cbn; [done| |by apply all_req_insert| | |].
  - unfold live in *. cbn. by rewrite Hperm.
  - apply all_req_insert; [done|]. apply (all_req_incl _ _ (prefill_queue_ s)); [|done].
    intros q Hq. rewrite Hpq. set_solver.
  - apply all_req_app. split; [by apply all_req_insert|]. apply Forall_singleton.
    eexists. split; [apply lookup_insert_eq|]. by apply Hnext.
  - rewrite Hperm, Hadm. apply accounts_join; [set_solver|].
    by apply (account_of_fields _ _ _ _ _ r2).
Qed.

(** ** Decode rows *)

Lemma erase_perm p l : p ∈ l → l ≡ₚ p :: erase p l.
Proof.
  induction l as [|q l IH]; intros Hp; [by apply not_elem_of_nil in Hp|]. cbn [erase].
  case_decide as Hq; [by subst|]. apply elem_of_cons in Hp as [->|Hp]; [done|].
  rewrite (IH Hp) at 1. solve_Permutation.
Qed.

Lemma erase_incl p l q : q ∈ erase p l → q ∈ l.
Proof.
  induction l as [|x l IH]; cbn [erase]; [done|]. case_decide; [set_solver|].
  rewrite !elem_of_cons. naive_solver.
Qed.

(** The running list after the row at [p] has received a token. *)
Definition running_after (r : Request) (t : TokenId) (p : RequestPtr) (l : list RequestPtr) :
    list RequestPtr :=
  if decide (reason_for o r t = kNone) then l else erase p l.

Lemma wp_Apply_running h a s p r t (Q : StepResult → World A → Prop) :
  sched_inv o u (mkWorld h a s) → p ∈ running_ s → h !! p = Some r → covered r →
  (∀ a' s', let w' := mkWorld (<[p := next_request o r t]> h) a' s' in
     sched_inv o u w' → waiting_ s' = waiting_ s → prefill_queue_ s' = prefill_queue_ s →
     running_ s' = running_after r t p (running_ s) → Q (result_for o r t) w') →
  wp (ApplySampledToken p t) Q (mkWorld h a s).
Proof using Ho.
  intros Hinv Hin Hp Hcov HQ. pose proof Hinv as [Hos Hnd Hw Hpre Hr Hac]. cbn in *.
  destruct (all_req_elem _ _ _ p Hr Hin) as (r0 & Heq & Hok).
  assert (r0 = r) as -> by congruence. clear Heq.
  set (r2 := after_append r t).
  assert (p ∈ admitted s) as Hadm by (unfold admitted; set_solver).
  assert (admitted s ≡ₚ p :: prefill_queue_ s ++ erase p (running_ s)) as Hperm.
  { unfold admitted. rewrite (erase_perm p (running_ s) Hin) at 1. solve_Permutation. }
  assert (p ∉ prefill_queue_ s ++ erase p (running_ s)) as Hpn.
  { unfold live in Hnd. rewrite Hperm in Hnd. apply NoDup_app in Hnd as (_ & _ & Hnd).
    by apply NoDup_cons in Hnd as []. }
  rewrite Hperm in Hac. pose proof (accounts_split _ _ _ _ _ _ _ _ Hp Hac) as Hao.
  assert (account_of u (max_batch o) h (prefill_queue_ s ++ erase p (running_ s)) a (free_slots_ s) r2)
    as Hao2 by by apply (account_of_fields _ _ _ _ _ r).
  pose proof (ro_state _ _ Hok) as Hst1.
  unfold ApplySampledToken. wp_auto. eapply wp_deref; [done|]. wp_auto. rewrite Hst1.
  apply wp_assert_; [done|]. wp_auto.
  eapply wp_update_request; [done|]. fold (after_append r t). fold r2. wp_auto.
  eapply wp_deref; [apply lookup_insert_eq|]. wp_auto. unfold scheduler. wp_auto.
  cbn [w_sched]. rewrite Hos. change (bool_decide (kRunning = kPrefill)) with false.
  change (stop_reason o r2 (appended_token r t)) with (reason_for o r t).
  unfold next_request, running_after in HQ. fold r2 in HQ. change (id r2) with (id r). cbv iota.
  assert (∀ reason, reason ≠ kNone → reason_for o r t = reason →
    wp (update_request p (set_state kFinished);; update_request p (set_finish_reason reason);;
        ReleaseResources p;;
        (s' ← scheduler;
         assert "it != running_.end()" (bool_decide (p ∈ running_ s'));;
         update_sched (set_running (erase p (running_ s'))));;
        mret (mkStepResult (id r) t true reason)) Q (mkWorld (<[p := r2]> h) a s)) as Hfin.
  { intros reason Hne Hreason. rewrite Hreason in HQ.
    rewrite !(decide_False (P:=reason = kNone)) in HQ by done.
    assert (result_for o r t = mkStepResult (id r) t true reason) as Hres.
    { unfold result_for. rewrite Hreason. by rewrite bool_decide_false. }
    eapply (wp_finish _ _ _ _ r2 (prefill_queue_ s ++ erase p (running_ s)));
      [apply lookup_insert_eq|done|by apply accounts_join|].
    intros a' Hac'. rewrite insert_insert_eq in *. wp_auto. unfold scheduler. wp_auto. cbn [w_sched].
    apply wp_assert_; [by rewrite bool_decide_true|]. apply wp_update_sched. wp_auto. rewrite <- Hres.
    apply HQ; try done. apply (sched_inv_remove o u h a s); try done.
    cbn. intros q. apply erase_incl. }
  destruct (reason_for o r t) eqn:Hreason; try by apply Hfin.
  rewrite !decide_True in HQ by done. wp_auto.
  assert (result_for o r t = mkStepResult (id r) t false kNone) as <-.
  { unfold result_for. by rewrite Hreason. }
  assert (set_state kRunning r2 = r2) as Hr2.
  { unfold r2, after_append, set_state, set_output_tokens. cbn. by rewrite <- Hst1. }
  rewrite Hr2 in HQ. apply HQ; try done.
  eapply sched_inv_update; [done|done| | |].
  - intros Hpq. exfalso. by eapply running_not_prefill.
  - intros _. pose proof (running_of_running r t Hok Hcov Hreason) as Hrun.
    unfold next_request in Hrun. rewrite decide_True in Hrun by done. fold r2 in Hrun. by rewrite Hr2 in Hrun.
  - rewrite Hperm. by apply accounts_join.
Qed.

(** ** The rows of a decode plan *)

(** The rows that go on decoding, and the emissions, row by row. *)
Fixpoint keep (h : gmap RequestPtr Request) (rows : list RequestPtr) (ts : list TokenId) : list RequestPtr :=
  match rows, ts with
  | p :: rows', t :: ts' =>
      if decide (reason_for o (h !!! p) t = kNone) then p :: keep h rows' ts' else keep h rows' ts'
  | _, _ => []
  end.

Definition emits (h : gmap RequestPtr Request) (rows : list RequestPtr) (ts : list TokenId) : list StepResult :=
  zip_with (λ p t, result_for o (h !!! p) t) rows ts.

(** Each row's request has taken its token; all others are untouched. *)
Record rows_applied (h h' : gmap RequestPtr Request) (rows : list RequestPtr) (ts : list TokenId) : Prop := {
  ra_other q : q ∉ rows → h' !! q = h !! q;
  ra_rows : Forall2 (λ p t, ∃ r, h !! p = Some r ∧ h' !! p = Some (next_request o r t)) rows ts;
}.

Lemma keep_frame h h' rows : (∀ q, q ∈ rows → h' !! q = h !! q) → ∀ ts,
  keep h' rows ts = keep h rows ts ∧ emits h' rows ts = emits h rows ts.
Proof.
  induction rows as [|p rows IH]; intros Hf [|t ts]; [done..|].
  destruct (IH (λ q Hq, Hf q (list_elem_of_further _ _ _ Hq)) ts) as [IH1 IH2].
  unfold emits in *. cbn [keep zip_with]. rewrite IH1, IH2.
  assert (h' !!! p = h !!! p) as ->; [|done].
  unfold lookup_total, map_lookup_total. rewrite Hf; [done|set_solver].
Qed.

Lemma rows_applied_cons h h1 h' p rows r t ts :
  p ∉ rows → h !! p = Some r → h1 = <[p := next_request o r t]> h →
  rows_applied h1 h' rows ts → rows_applied h h' (p :: rows) (t :: ts).
Proof.
  intros Hp Hr -> [Ho1 Hr1]. split.
  - intros q Hq. rewrite Ho1 by set_solver. rewrite lookup_insert_ne; [done|set_solver].
  - constructor.
    + exists r. split; [done|]. by rewrite Ho1, lookup_insert_eq.
    + apply Forall2_same_length_lookup in Hr1 as [Hlen Hr1]. apply Forall2_same_length_lookup.
      split; [done|]. intros i q t' Hq Ht'. destruct (Hr1 i q t' Hq Ht') as (r' & Hr' & Hn).
      exists r'. rewrite lookup_insert_ne in Hr'; [done|].
      intros ->. apply Hp. by eapply list_elem_of_lookup_2.
Qed.

Lemma wp_apply_rows rows : ∀ h a s pre i ts (Q : list StepResult → World A → Prop),
  sched_inv o u (mkWorld h a s) → running_ s = pre ++ rows → all_req h covered rows →
  length ts = (i + length rows)%nat →
  (∀ h' a' s', sched_inv o u (mkWorld h' a' s') → waiting_ s' = waiting_ s →
     prefill_queue_ s' = prefill_queue_ s → running_ s' = pre ++ keep h rows (drop i ts) →
     rows_applied h h' rows (drop i ts) → Q (emits h rows (drop i ts)) (mkWorld h' a' s')) →
  wp (apply_rows i rows ts) Q (mkWorld h a s).
Proof using Ho.
  induction rows as [|p rows IH]; intros h a s pre i ts Q Hinv Hrun Hcov Hlen HQ; cbn [apply_rows].
  { apply wp_ret. rewrite drop_ge in HQ by (cbn in Hlen; lia). apply HQ; [done..|by split]. }
  cbn in Hlen. destruct (lookup_lt_is_Some_2 ts i ltac:(lia)) as [t Ht].
  assert (drop i ts = t :: drop (S i) ts) as Hdrop by by apply drop_S.
  apply Forall_cons in Hcov as [(r & Hp & Hc) Hcov].
  assert (NoDup (pre ++ p :: rows)) as Hnd.
  { rewrite <- Hrun. pose proof (si_nodup _ _ _ Hinv) as Hnd. cbn in Hnd. unfold live, admitted in Hnd.
    apply NoDup_app in Hnd as (_ & _ & Hnd). by apply NoDup_app in Hnd as (_ & _ & Hnd). }
  apply NoDup_app in Hnd as (_ & Hd & [Hpn _]%NoDup_cons).
  assert (p ∉ pre) as Hpp by (intros Hin; apply (Hd p Hin); set_solver).
  apply wp_bind. eapply wp_from_option; [done|]. apply wp_bind.
  apply (wp_Apply_running _ _ _ p r t); [done|rewrite Hrun; set_solver|done|done|].
  intros a' s' w' Hinv' Hw' Hpq' Hrun'. apply wp_bind. unfold w' in *.
  assert (∀ q, q ∈ rows → <[p:=next_request o r t]> h !! q = h !! q) as Hf.
  { intros q Hq. rewrite lookup_insert_ne; [done|]. by intros ->. }
  destruct (keep_frame h (<[p:=next_request o r t]> h) rows Hf (drop (S i) ts)) as [Hk He].
  assert (keep h (p :: rows) (drop i ts) =
          (if decide (reason_for o r t = kNone) then [p] else []) ++ keep h rows (drop (S i) ts)) as Hkeep.
  { rewrite Hdrop. cbn [keep]. rewrite (lookup_total_correct _ _ _ Hp). by case_decide. }
  apply (IH _ _ _ (pre ++ if decide (reason_for o r t = kNone) then [p] else []) (S i) ts);
    [done| | |lia|].
  - rewrite Hrun', Hrun. unfold running_after. case_decide; [by rewrite <- app_assoc|].
    rewrite app_nil_r. clear -Hpp. induction pre as [|x pre IHp]; cbn [erase app].
    + by rewrite decide_True.
    + rewrite decide_False by set_solver. rewrite IHp; [done|set_solver].
  - by eapply all_req_frame.
  - intros h2 a2 s2 Hi2 Hw2 Hpq2 Hrun2 Hap. apply wp_ret. rewrite He.
    assert (emits h (p :: rows) (drop i ts) = result_for o r t :: emits h rows (drop (S i) ts)) as <-.
    { rewrite Hdrop. unfold emits. cbn [zip_with]. by rewrite (lookup_total_correct _ _ _ Hp). }
    apply HQ; [done|congruence|congruence| |].
    + by rewrite Hrun2, Hk, Hkeep, <- app_assoc.
    + rewrite Hdrop. by eapply rows_applied_cons.
Qed.

(** ** Reported aborts *)

Definition aborted_results (h : gmap RequestPtr Request) (ab : list RequestPtr) : list StepResult :=
  map (λ p, mkStepResult (id (h !!! p)) 0 true kAborted) ab.

Lemma wp_report_aborted h a s ab : ∀ (Q : list StepResult → World A → Prop),
  all_req h aborted_ok ab →
  Q (aborted_results h ab) (mkWorld h a s) → wp (report_aborted ab) Q (mkWorld h a s).
Proof.
  induction ab as [|p ab IH]; intros Q Hab HQ; cbn [report_aborted]; [by apply wp_ret|].
  apply Forall_cons in Hab as [(r & Hp & [Hs Hf _ _ _]) Hab].
  apply wp_bind. eapply wp_deref; [done|]. apply wp_bind. rewrite Hs, Hf. apply wp_assert_; [done|].
  apply wp_bind. apply IH; [done|]. apply wp_ret.
  unfold aborted_results in HQ. cbn [map] in HQ. by rewrite (lookup_total_correct _ _ _ Hp) in HQ.
Qed.

(** ** The whole of [CompleteStep] *)

(** The tokens the executor hands back for a plan. *)
Definition sampled_ok (w : World A) (plan : StepPlan) (ts : list TokenId) : Prop :=
  match prefill plan with
  | Some p => length ts = if prefill_end plan =? nprompt (w_heap w !!! p) then 1%nat else 0%nat
  | None => length ts = length (decode plan)
  end.

Inductive complete_post (w : World A) : StepPlan → list TokenId → list StepResult → World A → Prop :=
  | complete_chunk p b e rest r a' :
      prefill_queue_ (w_sched w) = p :: rest → w_heap w !! p = Some r → e < nprompt r →
      complete_post w (mkStepPlan (Some p) b e [] []) [] []
        (mkWorld (<[p := set_prefill_progress e r]> (w_heap w)) a' (w_sched w))
  | complete_prefill p b rest r t a' s' :
      prefill_queue_ (w_sched w) = p :: rest → w_heap w !! p = Some r →
      waiting_ s' = waiting_ (w_sched w) → prefill_queue_ s' = rest →
      running_ s' = (if decide (reason_for o (after_prefill r) t = kNone)
                     then running_ (w_sched w) ++ [p] else running_ (w_sched w)) →
      complete_post w (mkStepPlan (Some p) b (nprompt r) [] []) [t] [result_for o (after_prefill r) t]
        (mkWorld (<[p := next_request o (after_prefill r) t]> (w_heap w)) a' s')
  | complete_decode ab ts w' :
      prefill_queue_ (w_sched w) = [] →
      waiting_ (w_sched w') = waiting_ (w_sched w) → prefill_queue_ (w_sched w') = [] →
      running_ (w_sched w') = keep (w_heap w) (running_ (w_sched w)) ts →
      rows_applied (w_heap w) (w_heap w') (running_ (w_sched w)) ts →
      complete_post w (decode_plan (running_ (w_sched w)) ab) ts
        (aborted_results (w_heap w) ab ++ emits (w_heap w) (running_ (w_sched w)) ts) w'.

(** An intermediate chunk only moves the progress. *)
Lemma prefill_ok_progress r e :
  prefill_ok o r → 0 <= e < nprompt r → e <= 16 * nblocks r → prefill_ok o (set_prefill_progress e r).
Proof. intros [Hst ? ? ? ? ? ? ?] ? ?. split; try done. by destruct Hst. Qed.

Lemma wp_Complete_prefill h a s p rest r b e ts (Q : list StepResult → World A → Prop) :
  let w := mkWorld h a s in let plan := mkStepPlan (Some p) b e [] [] in
  sched_inv o u w → prefill_queue_ s = p :: rest → h !! p = Some r → b = prefill_progress r →
  e = chunk_end o r → e <= 16 * nblocks r → sampled_ok w plan ts →
  (∀ res w', sched_inv o u w' → complete_post w plan ts res w' → Q res w') →
  wp (CompleteStep plan ts) Q w.
Proof using Ho.
  intros w plan Hinv Hpq Hp -> -> Hcov Hts HQ. pose proof Hinv as [Hos Hnd Hw Hpre Hr Hac].
  cbn in Hos, Hnd, Hw, Hpre, Hr, Hac.
  destruct (all_req_elem _ _ _ p Hpre) as (r0 & Heq & Hok); [rewrite Hpq; set_solver|].
  assert (r0 = r) as -> by congruence. clear Heq.
  pose proof (po_static _ _ Hok) as Hst. pose proof (num_prompt_tokens_eq o r Ho Hst) as Hnp.
  pose proof (po_progress _ _ Hok) as Hpg.
  unfold sampled_ok in Hts. cbn in Hts. rewrite (lookup_total_correct _ _ _ Hp) in Hts.
  unfold CompleteStep. cbn [aborted prefill plan]. wp_auto. unfold report_aborted. wp_auto.
  unfold scheduler. wp_auto. cbn [w_sched w]. rewrite Hpq.
  apply wp_assert_; [by rewrite bool_decide_true|]. wp_auto. eapply wp_deref; [done|]. wp_auto.
  apply wp_assert_; [apply Z.eqb_eq; reflexivity|]. wp_auto.
  eapply wp_update_request; [done|]. wp_auto. eapply wp_deref; [apply lookup_insert_eq|].
  assert (prefill_done (set_prefill_progress (chunk_end o r) r) = (nprompt r <=? chunk_end o r)) as Hdone.
  { unfold prefill_done. change (num_prompt_tokens (set_prefill_progress (chunk_end o r) r))
      with (num_prompt_tokens r). by rewrite Hnp. }
  change (prefill_end plan) with (chunk_end o r). rewrite Hdone.
  assert (0 <= chunk_end o r <= nprompt r) as Hce by (destruct Ho; unfold chunk_end; lia).
  destruct (Z.eqb_spec (chunk_end o r) (nprompt r)) as [Hfin|Hmid].
  - rewrite Hfin, Z.leb_refl. cbn [negb]. destruct ts as [|t [|]]; try done.
    wp_auto. apply wp_assert_; [done|]. wp_auto. apply wp_update_sched. wp_auto. cbn [head tail].
    eapply wp_from_option; [done|]. wp_auto. fold (after_prefill r).
    eapply (wp_Apply_prefill _ _ _ _ rest); [done|done|done|lia|].
    intros a' s' w' Hinv' Hws' Hpq' Hrun'. wp_auto. apply HQ; [done|].
    unfold plan. rewrite Hfin. by eapply complete_prefill.
  - destruct (Z.leb_spec (nprompt r) (chunk_end o r)); [lia|]. cbn [negb].
    destruct ts; [|done]. wp_auto. apply wp_assert_; [done|]. wp_auto.
    assert (p ∈ admitted s) as Hin by (unfold admitted; rewrite Hpq; set_solver).
    apply HQ; [|eapply complete_chunk; [done|done|lia]].
    apply (sched_inv_update _ _ h a); [done|done| | |].
    + intros _. apply prefill_ok_progress; [done|lia|lia].
    + intros Hrun. destruct (live_split s p Hnd Hin) as (_ & Hd & _).
      exfalso. apply Hd; [rewrite Hpq; set_solver|done].
    + destruct (live_split s p Hnd Hin) as (_ & _ & l & Hl & Hpn). rewrite Hl in *.
      apply accounts_join; [done|]. apply (account_of_fields _ _ _ _ _ r); [done..|].
      by eapply accounts_split.
Qed.

Lemma wp_CompleteStep w plan ts :
  sched_inv o u w → plan_ok o w plan → sampled_ok w plan ts →
  (prefill plan = None → prefill_begin plan = 0 ∧ prefill_end plan = 0) →
  wp (CompleteStep plan ts) (λ res w', sched_inv o u w' ∧ complete_post w plan ts res w') w.
Proof using Ho.
  destruct w as [h a s], plan as [[p|] b e rows ab]. all: unfold plan_ok; cbn.
  - intros Hinv (-> & -> & rest & r & Hpq & Hp & -> & -> & Hcov) Hts _.
    eapply wp_Complete_prefill; [done|done|done|done|done|done|done|done].
  - intros Hinv (Hpq & -> & Hcov & Hab & _ & _) Hts Hbe. destruct (Hbe eq_refl) as [-> ->].
    unfold sampled_ok in Hts. cbn in Hts. unfold CompleteStep. cbn [aborted prefill decode].
    wp_auto. apply wp_report_aborted; [done|]. wp_auto.
    apply wp_assert_; [unfold zlen; apply Z.eqb_eq; lia|]. wp_auto.
    apply (wp_apply_rows _ _ _ _ []); [done|done|done|done|].
    intros h' a' s' Hi' Hw' Hpq' Hrun' Hap. wp_auto. split; [done|].
    rewrite drop_0 in *. apply complete_decode; cbn; [done|done|congruence|done|done].
Qed.

End step.
