(* ===== verification/SchedulerLive.v ===== *)
(** * Enqueue, progress and termination

    A request is queued exactly when the validation rules accept it; a world
    with live requests always has a step to run; and every completed step
    consumes part of a finite amount of work. *)

From S2P Require Import Prelude Doubles Types BlockAllocator Scheduler SchedulerInv SchedulerPlan SchedulerStep.

Section live.
Context {A : Type} `{!KvAllocator A} `{!KvAllocatorLaws A}.
Context (o : SchedulerOptions) (u : Z) (Ho : opts_ok o).
Implicit Types (h : gmap RequestPtr Request) (a : A) (s : Scheduler) (w : World A).

(** ** Enqueue *)

(** The acceptance rule, over the numbers of the request. *)
Definition acceptable (r : Request) : Prop :=
  0 < nprompt r ∧ 0 < max_new_tokens r ∧ nprompt r + max_new_tokens r <= max_seq_len o ∧ fits o u r.

#[export] Instance fits_dec r : Decision (fits o u r).
Proof. unfold fits. destruct (admission_policy o); apply _. Defined.
#[export] Instance acceptable_dec r : Decision (acceptable r).
Proof. unfold acceptable. apply _. Defined.

(** The rejection [ValidateRequest] throws for an unacceptable request. *)
Definition rejection (r : Request) : reject :=
  if nprompt r =? 0 then PromptEmpty (id r) else
  if max_new_tokens r <=? 0 then MaxNewNotPositive (id r) (max_new_tokens r) else
  if max_seq_len o <? nprompt r + max_new_tokens r
  then ExceedsMaxSeqLen (id r) (nprompt r) (max_new_tokens r) (max_seq_len o) else
  match admission_policy o with
  | kReserveFull => NeedsTooManyBlocks (id r) (BlocksForTokens (nprompt r + max_new_tokens r)) u
  | kWatermark => PromptBreaksFloor (id r) (BlocksForTokens (nprompt r)) u
      (double_mul (watermark_free_fraction o) (double_of_Z u))
  end.

Lemma blocks_for_tokens_run {S} n (x : S) :
  0 <= n <= max_seq_len o → blocks_for_tokens n x = (Ok (BlocksForTokens n), x).
Proof using Ho.
  intros Hn. unfold blocks_for_tokens, int32_checked, mbind, M_bind.
  rewrite bool_decide_true; [done|]. destruct Ho. unfold int32_ok, int32_max, kKvBlockSize in *. lia.
Qed.

Lemma ValidateRequest_run h a s r :
  options_ s = o → ka_usable_blocks a = u →
  ValidateRequest r (mkWorld h a s) =
    (if decide (acceptable r) then Ok () else Err (InvalidArgument (rejection r)), mkWorld h a s).
Proof using Ho.
  intros Hos Hu. unfold ValidateRequest, scheduler, allocator, rejection.
  unfold gets, mbind at 1, M_bind at 1. cbn [w_sched]. rewrite Hos.
  unfold mbind at 1, M_bind at 1. cbn [w_alloc]. rewrite Hu.
  change (zlen (prompt_tokens r)) with (nprompt r). pose proof (zlen_nonneg (prompt_tokens r)) as Hz.
  change (zlen (prompt_tokens r)) with (nprompt r) in Hz.
  destruct (Z.eqb_spec (nprompt r) 0); [rewrite decide_False by (unfold acceptable; lia); done|].
  destruct (Z.leb_spec (max_new_tokens r) 0); [rewrite decide_False by (unfold acceptable; lia); done|].
  destruct (Z.ltb_spec (max_seq_len o) (nprompt r + max_new_tokens r));
    [rewrite decide_False by (unfold acceptable; lia); done|].
  assert (static_ok o r) as Hst by (split; lia).
  rewrite (num_prompt_tokens_eq o r Ho Hst).
  assert (acceptable r ↔ fits o u r) as Hacc by (unfold acceptable; naive_solver lia).
  rewrite (decide_ext _ _ _ _ Hacc). unfold fits_dec, fits at 1 in Hacc.
  destruct (admission_policy o) eqn:Hpol; unfold mbind, M_bind; rewrite blocks_for_tokens_run by lia.
  - destruct (Z.ltb_spec u (BlocksForTokens (nprompt r + max_new_tokens r)));
      [rewrite decide_False|rewrite decide_True]; try done; unfold fits; rewrite Hpol; lia.
  - destruct (double_lt _ _) eqn:Hlt;
      [rewrite decide_False|rewrite decide_True]; try done; unfold fits; rewrite Hpol; congruence.
Qed.

(** A request as the engine hands it to [Enqueue]. *)
Definition fresh_request (r : Request) : Prop :=
  ∃ i prompt mx ign forced, r = new_request i prompt mx ign forced.

Lemma waiting_ok_fresh r : fresh_request r → acceptable r → waiting_ok o u r.
Proof. intros (i & prompt & mx & ign & forced & ->) (? & ? & ? & ?). by repeat split. Qed.

(** Enqueue of a fresh request at a pointer no queue holds. *)
Lemma Enqueue_run h a s p r :
  sched_inv o u (mkWorld h a s) → h !! p = Some r → fresh_request r → p ∉ live s →
  Enqueue p (mkWorld h a s) =
    if decide (acceptable r)
    then (Ok (), mkWorld h a (set_waiting (waiting_ s ++ [p]) s))
    else (Err (InvalidArgument (rejection r)), mkWorld h a s).
Proof using Ho.
  intros [Hos _ _ _ _ Hac] Hp Hr Hpl. cbn in *.
  unfold Enqueue, mbind, M_bind, deref, get, mbind, M_bind. cbn [w_heap]. rewrite Hp. cbn.
  rewrite bool_decide_true by by destruct Hr as (?&?&?&?&?&->). cbn.
  rewrite ValidateRequest_run by (done || apply Hac). by case_decide.
Qed.

Lemma sched_inv_enqueue h a s p r :
  sched_inv o u (mkWorld h a s) → h !! p = Some r → fresh_request r → p ∉ live s → acceptable r →
  sched_inv o u (mkWorld h a (set_waiting (waiting_ s ++ [p]) s)).
Proof.
  intros [Hos Hnd Hw Hp Hr Hac] Hhp Hf Hpl Hacc. cbn in *. split; cbn; try done.
  - unfold live in *. cbn. change (admitted (set_waiting _ s)) with (admitted s).
    assert ((waiting_ s ++ [p]) ++ admitted s ≡ₚ p :: waiting_ s ++ admitted s) as ->
      by solve_Permutation. by apply NoDup_cons.
  - apply all_req_app. split; [done|]. apply Forall_singleton. exists r.
    split; [done|by apply waiting_ok_fresh].
Qed.

(** A cell that no queue refers to may appear or disappear. *)
Lemma sched_inv_frame h h' a s :
  sched_inv o u (mkWorld h a s) → (∀ q, q ∈ live s → h' !! q = h !! q) → sched_inv o u (mkWorld h' a s).
Proof.
  intros [Hos Hnd Hw Hp Hr Hac] Hf. cbn in *. unfold live, admitted in Hf.
  split; cbn; try done; try (eapply all_req_frame; [|done]; intros q Hq; apply Hf; set_solver).
  eapply accounts_frame; [|done]. intros q Hq. apply Hf. unfold admitted in Hq. set_solver.
Qed.

(** ** An idle pool admits the head of the queue *)

Lemma idle_admissible h a fs r :
  accounts u (max_batch o) h [] a fs → static_ok o r → fits o u r → admissible o u a r = true.
Proof using Ho.
  intros Hac Hst Hfit. pose proof (accounts_count _ _ _ _ _ _ Hac) as Hc.
  destruct Hac as [Hv Hu _ Hpr _ _]. unfold owned, promised in *. cbn in Hc, Hpr.
  change (zlen []) with 0 in Hc. unfold admissible, fits in *. rewrite Hpr.
  replace (zlen (ka_pool a) - 0) with u by lia. pose proof (ka_usable_range a Hv).
  destruct Ho, Hst. destruct (admission_policy o); [by apply Z.leb_le|].
  pose proof (BlocksForTokens_le (nprompt r) ltac:(lia)). unfold int32_max, kKvBlockSize in *.
  apply double_of_Z_not_lt_ge; [lia| |done].
  apply double_mul_nonneg; [done|apply double_of_Z_finite; lia].
Qed.

Lemma plan_progress w0 plan w :
  plan_post o u w0 plan w → live (w_sched w0) ≠ [] → plan_empty plan = false.
Proof using Ho.
  intros [Hi (w1 & pre & Had & Hi1 & Hstop & [Hp|[Hpq Hd]])] Hlive.
  { by destruct Hp as [(p & rest & r & r' & a' & _ & _ & _ & _ & _ & ->)]. }
  destruct Hd as (ab & -> & Hpl & _). unfold plan_empty. cbn.
  pose proof (pl_running _ _ _ _ _ Hpl) as Hrun.
  destruct (running_ (w_sched w)) as [|p l]; [|done]. cbn in *.
  destruct ab as [|p ab]; [|done]. exfalso. cbn in Hrun. apply Hlive.
  pose proof (si_accounts _ _ _ Hi1) as Hac. unfold admitted in Hac. rewrite Hpq, Hrun in Hac.
  unfold live, admitted. rewrite (ad_waiting _ _ _ _ Had). rewrite <- (ad_running _ _ _ _ Had), Hrun.
  pose proof (ad_prefill _ _ _ _ Had) as Hpq'. rewrite Hpq in Hpq'.
  symmetry in Hpq'. apply app_nil in Hpq' as [-> ->].
  unfold admission_stopped in Hstop. destruct (waiting_ (w_sched w1)) as [|q ws] eqn:Hws; [done|].
  exfalso. destruct (all_req_elem _ _ _ q (si_waiting _ _ _ Hi1)) as (r & Hq & Hok).
  { rewrite Hws. set_solver. }
  destruct Hstop as [Hb|(r' & Hr' & Hadm)].
  - unfold num_running in Hb. rewrite Hpq, Hrun in Hb. change (@zlen RequestPtr []) with 0 in Hb.
    destruct Ho. lia.
  - assert (r' = r) as -> by congruence.
    by rewrite (idle_admissible _ _ _ r Hac (wo_static _ _ _ Hok) (wo_fits _ _ _ Hok)) in Hadm.
Qed.

(** Every live pointer points to a request. *)
Lemma si_live_lookup w : sched_inv o u w → ∀ q, q ∈ live (w_sched w) → is_Some (w_heap w !! q).
Proof.
  intros [_ _ Hw Hp Hr _] q Hq. unfold live, admitted in Hq. rewrite !elem_of_app in Hq.
  destruct Hq as [Hq|[Hq|Hq]];
    [destruct (all_req_elem _ _ _ q Hw Hq) as (r & ? & _)|
     destruct (all_req_elem _ _ _ q Hp Hq) as (r & ? & _)|
     destruct (all_req_elem _ _ _ q Hr Hq) as (r & ? & _)]; eauto.
Qed.

(** ** Work *)

(** Prompt positions and output tokens a request may still need. *)
Definition work (r : Request) : nat :=
  Z.to_nat (nprompt r - prefill_progress r) + Z.to_nat (max_new_tokens r - noutput r).

Definition work_of (h : gmap RequestPtr Request) (l : list RequestPtr) : nat :=
  sum_list_with (λ p, work (h !!! p)) l.

Definition total_work (w : World A) : nat := work_of (w_heap w) (live (w_sched w)).

Lemma work_of_app h l k : work_of h (l ++ k) = (work_of h l + work_of h k)%nat.
Proof. apply sum_list_with_app. Qed.

#[local] Instance work_of_proper h : Proper ((≡ₚ) ==> (=)) (work_of h).
Proof. intros l k Hlk. unfold work_of. by rewrite Hlk. Qed.

Lemma work_of_cons h p l : work_of h (p :: l) = (work (h !!! p) + work_of h l)%nat.
Proof. done. Qed.

Lemma work_of_frame h h' l :
  (∀ q, q ∈ l → work (h' !!! q) = work (h !!! q)) → work_of h' l = work_of h l.
Proof.
  induction l as [|p l IH]; intros Hf; [done|]. rewrite !work_of_cons, IH, Hf; [done|set_solver|].
  intros q Hq. apply Hf. set_solver.
Qed.

Lemma work_lookup h h' q : h' !! q = h !! q → work (h' !!! q) = work (h !!! q).
Proof. intros Hq. unfold lookup_total, map_lookup_total. by rewrite Hq. Qed.

Lemma work_grown r r' : grown r r' → work r' = work r.
Proof. by intros (t & k & ->). Qed.

Lemma work_running_pos r : running_ok o r → (1 <= work r)%nat.
Proof. intros []. unfold work. lia. Qed.

Lemma work_of_ge_length h P l :
  all_req h P l → (∀ r, P r → (1 <= work r)%nat) → (length l <= work_of h l)%nat.
Proof.
  intros H HP. induction H as [|p l (r & Hp & Hr) H IH]; [done|].
  rewrite work_of_cons, (lookup_total_correct _ _ _ Hp). specialize (HP r Hr). cbn. lia.
Qed.

(** Admission only moves requests. *)
Lemma admits_work w w' pre : sched_inv o u w → admits o w w' pre → total_work w' = total_work w.
Proof.
  intros Hi [Hw Hp Hr _ Hh Hreq]. unfold total_work.
  assert (live (w_sched w') ≡ₚ live (w_sched w)) as ->.
  { unfold live, admitted. rewrite Hw, Hp, Hr. solve_Permutation. }
  apply work_of_frame. intros q _. destruct (decide (q ∈ pre)) as [Hq|Hq].
  - destruct (Hreq q Hq) as (sl & r & H1 & H2). by rewrite (lookup_total_correct _ _ _ H1), (lookup_total_correct _ _ _ H2).
  - by apply work_lookup, Hh.
Qed.

(** Planning consumes the work of the sequences it aborts. *)
Lemma plan_work w0 plan w :
  sched_inv o u w0 → plan_post o u w0 plan w →
  (total_work w + length (aborted plan) <= total_work w0)%nat.
Proof.
  intros Hi0 [Hi (w1 & pre & Had & Hi1 & _ & [Hp|[Hpq Hd]])]; rewrite <- (admits_work w0 w1 pre Hi0 Had).
  - destruct Hp as [(p & rest & r & r' & a' & _ & Hr & Hg & _ & -> & ->)]. cbn.
    assert (total_work (mkWorld (<[p:=r']> (w_heap w1)) a' (w_sched w1)) = total_work w1) as ->; [|lia].
    apply work_of_frame. intros q _. cbn. destruct (decide (q = p)) as [->|Hne].
    + by rewrite lookup_total_insert_eq, (lookup_total_correct _ _ _ Hr), (work_grown r r').
    + by rewrite lookup_total_insert_ne.
  - destruct Hd as (ab & -> & Hpl & _). cbn. pose proof (pl_running _ _ _ _ _ Hpl) as Hrun.
    destruct (planning_nodup _ _ _ _ _ Hpl) as [_ Hnr].
    unfold total_work, live, admitted. rewrite Hpq, (pl_prefill _ _ _ _ _ Hpl), (pl_waiting _ _ _ _ _ Hpl). cbn [app].
    rewrite Hrun, !work_of_app.
    assert (∀ q, q ∈ live (w_sched w1) → q ∉ ab → work (w_heap w !!! q) = work (w_heap w1 !!! q)) as Hsame.
    { intros q Hq Hab. destruct (si_live_lookup w1 Hi1 q Hq) as [r Hr].
      destruct (pl_heap _ _ _ _ _ Hpl q r Hab Hr) as (r' & Hr' & Hg).
      by rewrite (lookup_total_correct _ _ _ Hr), (lookup_total_correct _ _ _ Hr'), (work_grown r r'). }
    rewrite (work_of_frame (w_heap w1) (w_heap w) (waiting_ (w_sched w1))).
    2:{ intros q Hq. apply Hsame; [unfold live; set_solver|]. intros Hab.
        pose proof (si_nodup _ _ _ Hi1) as Hnd. unfold live, admitted in Hnd. rewrite Hrun in Hnd.
        apply NoDup_app in Hnd as (_ & Hd & _). apply (Hd q Hq).
        rewrite !elem_of_app, elem_of_reverse. tauto. }
    rewrite (work_of_frame (w_heap w1) (w_heap w) (running_ (w_sched w))).
    2:{ intros q Hq. apply Hsame; [unfold live, admitted; rewrite Hrun; set_solver|].
        intros Hab. by apply (Hnr q). }
    assert (length ab <= work_of (w_heap w1) (reverse ab))%nat; [|lia].
    rewrite <- (length_reverse ab). apply (work_of_ge_length _ (running_ok o)); [|apply work_running_pos].
    eapply all_req_incl; [|apply (si_running _ _ _ Hi1)]. intros q Hq. rewrite Hrun. set_solver.
Qed.

Lemma work_next r t :
  static_ok o r → noutput r < max_new_tokens r → prefill_progress r = nprompt r →
  reason_for o r t = kNone → (work (next_request o r t) + 1 = work r)%nat.
Proof using Ho.
  intros Hst Hlt Hpg Hr. pose proof (reason_none o r t Ho Hst Hlt Hr) as Hlt'.
  unfold next_request. rewrite decide_True by done. unfold work.
  change (noutput (set_state kRunning (after_append r t))) with (noutput (after_append r t)).
  rewrite noutput_append. cbn. change (nprompt (set_state kRunning (after_append r t))) with (nprompt r). lia.
Qed.

(** Every decode row consumes work. *)
Lemma keep_work h h' rows ts :
  all_req h (running_ok o) rows → rows_applied o h h' rows ts →
  (work_of h' (keep o h rows ts) + length rows <= work_of h rows)%nat.
Proof using Ho.
  intros Hok [_ Hrows]. revert Hok. induction Hrows as [|p t rows ts (r & Hr & Hn) Hrows IH]; intros Hok; [done|].
  apply Forall_cons in Hok as [(r0 & Hr0 & Hok0) Hok]. assert (r0 = r) as -> by congruence.
  specialize (IH Hok). cbn [keep length]. rewrite work_of_cons, (lookup_total_correct _ _ _ Hr).
  pose proof (work_running_pos r Hok0). case_decide as Hreason; [|lia].
  rewrite work_of_cons, (lookup_total_correct _ _ _ Hn).
  pose proof (work_next r t (ro_static _ _ Hok0) ltac:(apply Hok0) (ro_progress _ _ Hok0) Hreason). lia.
Qed.

Lemma live_perm_prefill s p rest :
  prefill_queue_ s = p :: rest → live s ≡ₚ p :: waiting_ s ++ rest ++ running_ s.
Proof. intros Hp. unfold live, admitted. rewrite Hp. solve_Permutation. Qed.

(** Completion consumes work unless there was nothing to execute. *)
Lemma complete_work w plan ts res w' :
  sched_inv o u w → plan_ok o w plan → complete_post o w plan ts res w' →
  (total_work w' + (if is_prefill plan then 1 else length (decode plan)) <= total_work w)%nat.
Proof using Ho.
  intros Hi Hplan Hc. destruct Hc as [p b e rest r a' Hpq Hr He|p b rest r t a' s' Hpq Hr Hw' Hpq' Hrun'|
    ab ts w' Hpq Hw' Hpq' Hrun' Hap]; cbn [is_prefill prefill decode decode_plan].
  all: pose proof (si_nodup _ _ _ Hi) as Hnd.
  - destruct Hplan as (_ & _ & rest' & r' & Hpq' & Hr' & _ & He' & _). cbn in He'.
    assert (r' = r) as -> by congruence.
    destruct (all_req_elem _ _ _ p (si_prefill _ _ _ Hi)) as (r0 & Hr0 & Hok); [rewrite Hpq; set_solver|].
    assert (r0 = r) as -> by congruence.
    rewrite (live_perm_prefill (w_sched w) p rest) in Hnd by done. apply NoDup_cons in Hnd as [Hpn _].
    unfold total_work. cbn [w_sched w_heap]. rewrite (live_perm_prefill (w_sched w) p rest) by done.
    rewrite !work_of_cons, lookup_total_insert_eq, (lookup_total_correct _ _ _ Hr).
    rewrite (work_of_frame (w_heap w)).
    2:{ intros q Hq. rewrite lookup_total_insert_ne; [done|by intros ->]. }
    pose proof (po_progress _ _ Hok). unfold work. cbn.
    change (nprompt (set_prefill_progress e r)) with (nprompt r).
    change (noutput (set_prefill_progress e r)) with (noutput r).
    destruct Ho. unfold chunk_end in He'. lia.
  - destruct (all_req_elem _ _ _ p (si_prefill _ _ _ Hi)) as (r0 & Hr0 & Hok); [rewrite Hpq; set_solver|].
    assert (r0 = r) as -> by congruence. pose proof (po_static _ _ Hok) as Hst.
    assert (noutput r = 0) as Hno by (unfold noutput; by rewrite (po_output _ _ Hok)).
    rewrite (live_perm_prefill (w_sched w) p rest) in Hnd by done. apply NoDup_cons in Hnd as [Hpn _].
    unfold total_work. cbn [w_sched w_heap]. rewrite (live_perm_prefill (w_sched w) p rest) by done.
    rewrite work_of_cons, (lookup_total_correct _ _ _ Hr).
    set (h' := <[p:=next_request o (after_prefill r) t]> (w_heap w)).
    assert (work_of h' (waiting_ (w_sched w) ++ rest ++ running_ (w_sched w))
            = work_of (w_heap w) (waiting_ (w_sched w) ++ rest ++ running_ (w_sched w))) as <-.
    { apply work_of_frame. intros q Hq. unfold h'. rewrite lookup_total_insert_ne; [done|by intros ->]. }
    assert (work r = (Z.to_nat (nprompt r - prefill_progress r) + work (after_prefill r))%nat) as Hwr.
    { unfold work, after_prefill. cbn. change (nprompt (set_prefill_progress (nprompt r) r)) with (nprompt r).
      change (noutput (set_prefill_progress (nprompt r) r)) with (noutput r). lia. }
    pose proof (po_progress _ _ Hok). unfold live, admitted. rewrite Hw', Hpq', Hrun'. case_decide as Hreason.
    + assert (waiting_ (w_sched w) ++ rest ++ running_ (w_sched w) ++ [p] ≡ₚ
              p :: waiting_ (w_sched w) ++ rest ++ running_ (w_sched w)) as -> by solve_Permutation.
      rewrite work_of_cons. unfold h' at 1. rewrite lookup_total_insert_eq.
      pose proof (work_next (after_prefill r) t ltac:(by destruct Hst)
        ltac:(change (noutput (after_prefill r)) with (noutput r); destruct Hst; cbn; lia) eq_refl Hreason). lia.
    + lia.
  - unfold total_work, live, admitted. rewrite Hw', Hpq', Hpq, Hrun'. cbn [app]. rewrite !work_of_app.
    pose proof (keep_work _ _ _ _ (si_running _ _ _ Hi) Hap).
    rewrite (work_of_frame (w_heap w)).
    2:{ intros q Hq. apply work_lookup, (ra_other _ _ _ _ _ Hap). intros Hq2.
        unfold live, admitted in Hnd. rewrite Hpq in Hnd. apply NoDup_app in Hnd as (_ & Hd & _).
        by apply (Hd q). }
    lia.
Qed.

End live.
