(* ===== verification/SchedulerText.v ===== *)
(** * Which requests a step keeps, reports and drops

    Across [PlanStep] and [CompleteStep] a request's caller-side fields never
    change, every live request either stays live or is reported as finished
    under its id, and the only tokens appended are sampled or forced ones. *)

From S2P Require Import Prelude Doubles Types BlockAllocator Scheduler SchedulerInv SchedulerPlan SchedulerStep SchedulerLive.

Section text.
Context {A : Type} `{!KvAllocator A} `{!KvAllocatorLaws A}.
Context (o : SchedulerOptions) (u : Z) (Ho : opts_ok o).
Implicit Types (h : gmap RequestPtr Request) (w : World A).

Definition ids (h : gmap RequestPtr Request) (l : list RequestPtr) : list RequestId := map (λ p, id (h !!! p)) l.
Definition finished_ids (res : list StepResult) : list RequestId := map request_id (filter (λ r, finished r = true) res).

Lemma finished_ids_app k l : finished_ids (k ++ l) = finished_ids k ++ finished_ids l.
Proof. unfold finished_ids. by rewrite filter_app, map_app. Qed.

Lemma ids_app h k l : ids h (k ++ l) = ids h k ++ ids h l.
Proof. apply map_app. Qed.

Lemma ids_frame h h' l :
  (∀ p, p ∈ l → id (h' !!! p) = id (h !!! p)) → ids h' l = ids h l.
Proof. intros H. apply map_ext_in. intros p Hp. apply H. by apply list_elem_of_In. Qed.

(** ** Planning *)

Definition same_text (h h' : gmap RequestPtr Request) : Prop :=
  ∀ q r, h !! q = Some r → ∃ r', h' !! q = Some r' ∧ text r' = text r.

Lemma same_text_refl h : same_text h h.
Proof. intros q r Hq. by exists r. Qed.

Lemma same_text_trans h1 h2 h3 : same_text h1 h2 → same_text h2 h3 → same_text h1 h3.
Proof.
  intros H12 H23 q r Hq. destruct (H12 q r Hq) as (r2 & Hq2 & E2). destruct (H23 q r2 Hq2) as (r3 & Hq3 & E3).
  exists r3. split; [done|congruence].
Qed.

Lemma admits_text w w' pre : admits o w w' pre → same_text (w_heap w) (w_heap w').
Proof.
  intros Had q r Hq. destruct (decide (q ∈ pre)) as [Hin|Hin].
  - destruct (ad_req _ _ _ _ Had q Hin) as (sl & r0 & H0 & H1). assert (r0 = r) as -> by congruence. by eexists.
  - exists r. by rewrite (ad_heap _ _ _ _ Had).
Qed.

Lemma plan_live w0 plan w :
  sched_inv o u w0 → plan_post o u w0 plan w →
  live (w_sched w0) ≡ₚ live (w_sched w) ++ aborted plan ∧ same_text (w_heap w0) (w_heap w).
Proof.
  intros Hi0 [_ (w1 & pre & Had & Hi1 & _ & Hp)].
  assert (live (w_sched w1) ≡ₚ live (w_sched w0)) as <-.
  { destruct Had as [Hw Hpq Hr _ _ _]. unfold live, admitted. rewrite Hw, Hpq, Hr. solve_Permutation. }
  assert (same_text (w_heap w1) (w_heap w) → same_text (w_heap w0) (w_heap w)) as Htr.
  { apply same_text_trans. by eapply admits_text. }
  destruct Hp as [[(p & rest & r & r' & a' & _ & Hr & Hg & _ & -> & ->)]|[Hpq (ab & -> & Hpl & _)]]; cbn.
  - split; [by rewrite app_nil_r|]. apply Htr. cbn. unfold same_text. eapply text_insert; [apply same_text_refl|exact Hr|].
    by apply grown_text.
  - split; [|by apply Htr; intros q r; apply Hpl]. unfold live, admitted.
    rewrite Hpq, (pl_prefill _ _ _ _ _ Hpl), (pl_waiting _ _ _ _ _ Hpl), (pl_running _ _ _ _ _ Hpl).
    cbn [app]. rewrite reverse_Permutation. solve_Permutation.
Qed.

(** ** Completion *)

(** The rows whose request finishes. *)
Fixpoint fins (h : gmap RequestPtr Request) (rows : list RequestPtr) (ts : list TokenId) : list RequestPtr :=
  match rows, ts with
  | p :: rows', t :: ts' =>
      if decide (reason_for o (h !!! p) t = kNone) then fins h rows' ts' else p :: fins h rows' ts'
  | _, _ => []
  end.

Lemma keep_fins h rows : ∀ ts, length ts = length rows → rows ≡ₚ keep o h rows ts ++ fins h rows ts.
Proof.
  induction rows as [|p rows IH]; intros [|t ts] Hl; [done..|]. injection Hl as Hl. cbn [keep fins].
  case_decide; cbn [app]; [by constructor; apply IH|]. rewrite <- Permutation_middle. by constructor; apply IH.
Qed.

Lemma finished_emits h rows : ∀ ts, length ts = length rows → finished_ids (emits o h rows ts) = ids h (fins h rows ts).
Proof.
  induction rows as [|p rows IH]; intros [|t ts] Hl; [done..|]. injection Hl as Hl. unfold emits in *.
  cbn [zip_with fins]. change (?x :: ?y) with ([x] ++ y). rewrite finished_ids_app, (IH ts Hl).
  unfold finished_ids, result_for. cbn [finished]. case_decide as Hr.
  - rewrite bool_decide_true by done. done.
  - rewrite bool_decide_false by done. done.
Qed.

Lemma finished_aborted h ab : finished_ids (aborted_results h ab) = ids h ab.
Proof.
  induction ab as [|p ab IH]; [done|]. change (aborted_results h (p :: ab)) with
    ([mkStepResult (id (h !!! p)) 0 true kAborted] ++ aborted_results h ab). by rewrite finished_ids_app, IH.
Qed.

(** A request before and after completion: new output tokens are forced or
    among the sampled ones. *)
Definition prolongs (ts : list TokenId) (r r' : Request) : Prop :=
  id r' = id r ∧ prompt_tokens r' = prompt_tokens r ∧ forced_tokens r' = forced_tokens r ∧
  ∀ t, t ∈ output_tokens r' → t ∈ output_tokens r ∨ t ∈ forced_tokens r ∨ t ∈ ts.

Lemma prolongs_refl ts r : prolongs ts r r.
Proof. by repeat split; auto. Qed.

Lemma prolongs_next ts r t : t ∈ ts → prolongs ts r (next_request o r t).
Proof.
  intros Ht. assert (output_tokens (next_request o r t) = output_tokens r ++ [appended_token r t]) as Hout.
  { unfold next_request. by case_decide. }
  split_and!; try (unfold next_request; by case_decide). intros x. rewrite Hout. intros [?|Hx]%elem_of_app; [by left|right].
  apply list_elem_of_singleton in Hx as ->. unfold appended_token.
  destruct (forced_tokens r !! _) as [f|] eqn:Hf; [left; by eapply list_elem_of_lookup_2|by right].
Qed.

Lemma complete_live w plan ts res w' :
  sched_inv o u w → plan_ok o w plan → sampled_ok w plan ts → complete_post o w plan ts res w' →
  (∃ fin, live (w_sched w) ≡ₚ live (w_sched w') ++ fin ∧ finished_ids res = ids (w_heap w) (aborted plan ++ fin)) ∧
  ∀ q r, w_heap w !! q = Some r → ∃ r', w_heap w' !! q = Some r' ∧ prolongs ts r r'.
Proof.
  intros Hi Hplan Hts Hc. destruct Hc as [p b e rest r a' Hpq Hr He|p b rest r t a' s' Hpq Hr Hw' Hpq' Hrun'|
    ab ts w' Hpq Hw' Hpq' Hrun' Hap]; cbn [aborted decode_plan w_heap w_sched].
  - split; [exists []; by rewrite app_nil_r|]. intros q rq Hq. destruct (decide (q = p)) as [->|Hne].
    + exists (set_prefill_progress e r). rewrite lookup_insert_eq. split; [done|]. assert (rq = r) as -> by congruence.
      by repeat split; auto.
    + exists rq. rewrite lookup_insert_ne by done. split; [done|apply prolongs_refl].
  - split.
    + exists (if decide (reason_for o (after_prefill r) t = kNone) then [] else [p]). split.
      * unfold live, admitted. rewrite Hw', Hpq', Hrun', Hpq. case_decide; solve_Permutation.
      * unfold finished_ids, result_for, ids. cbn [app filter]. case_decide as Hd.
        -- by rewrite bool_decide_true by done.
        -- rewrite bool_decide_false by done. cbn. by rewrite (lookup_total_correct _ _ _ Hr).
    + intros q rq Hq. destruct (decide (q = p)) as [->|Hne].
      * assert (rq = r) as -> by congruence. eexists. rewrite lookup_insert_eq. split; [done|].
        apply (prolongs_next [t] (after_prefill r) t). set_solver.
      * exists rq. rewrite lookup_insert_ne by done. split; [done|apply prolongs_refl].
  - assert (length ts = length (running_ (w_sched w))) as Hlen by exact Hts. split.
    + exists (fins (w_heap w) (running_ (w_sched w)) ts). split.
      * unfold live, admitted. rewrite Hw', Hpq', Hrun', Hpq. cbn [app]. rewrite <- app_assoc.
        by rewrite <- keep_fins.
      * by rewrite finished_ids_app, finished_aborted, finished_emits, ids_app.
    + intros q rq Hq. destruct (decide (q ∈ running_ (w_sched w))) as [Hin|Hin].
      * destruct Hap as [_ Hrows]. apply list_elem_of_lookup in Hin as [i Hin].
        destruct (lookup_lt_is_Some_2 ts i) as [t Ht]; [rewrite Hlen; by eapply lookup_lt_Some|].
        destruct (Forall2_lookup_lr _ _ _ _ _ _ Hrows Hin Ht) as (r0 & Hr0 & Hn). assert (r0 = rq) as -> by congruence.
        eexists. split; [exact Hn|]. apply prolongs_next. by eapply list_elem_of_lookup_2.
      * exists rq. rewrite (ra_other _ _ _ _ _ Hap) by done. split; [done|apply prolongs_refl].
Qed.

End text.
