(* ===== verification/SchedulerStream.v ===== *)
(** * What a step tells the caller about each request

    A step reports every live request at most once.  A report either carries
    the token the request took, with the reason the stop rule gives, or says
    that the watermark policy aborted it; a request without a report keeps its
    tokens.  The statements speak of a request's [text] only (what its caller
    and the produced tokens set), so that planning does not disturb them. *)

From S2P Require Import Prelude Doubles Types BlockAllocator Scheduler SchedulerInv SchedulerPlan SchedulerStep SchedulerLive SchedulerText.

Section stream.
Context {A : Type} `{!KvAllocator A} `{!KvAllocatorLaws A}.
Context (o : SchedulerOptions) (u : Z) (Ho : opts_ok o).
Implicit Types (h : gmap RequestPtr Request) (w : World A) (r : Request) (t : TokenId) (x : StepResult).

(** The stop rule of core/scheduler.hpp: a stop token, then the length. *)
Definition stop_rule r t : FinishReason :=
  if bool_decide (ignore_eos r = false ∧ appended_token r t ∈ eos_token_ids o) then kEos
  else if bool_decide (noutput r + 1 = max_new_tokens r) then kLength else kNone.

(** [x] tells what happened to a request between [r] and [r']. *)
Inductive reported r x r' : Prop :=
  | reported_token t :
      x = mkStepResult (id r) t (negb (bool_decide (stop_rule r t = kNone))) (stop_rule r t) →
      text r' = text (after_append r t) → reported r x r'
  | reported_abort :
      admission_policy o = kWatermark → x = mkStepResult (id r) 0 true kAborted → text r' = text r → reported r x r'.

Lemma reported_id r x r' : reported r x r' → request_id x = id r.
Proof. by intros [t -> _|_ -> _]. Qed.

(** A report depends on the request's text alone. *)
Lemma text_fields r r' : text r' = text r →
  id r' = id r ∧ prompt_tokens r' = prompt_tokens r ∧ output_tokens r' = output_tokens r ∧
  forced_tokens r' = forced_tokens r ∧ max_new_tokens r' = max_new_tokens r ∧ ignore_eos r' = ignore_eos r.
Proof. unfold text. by intros [=]. Qed.

Lemma reported_text r1 r2 x r' : text r2 = text r1 → reported r2 x r' → reported r1 x r'.
Proof.
  intros Htx. pose proof (text_fields _ _ Htx) as (Hi & Hp & Hout & Hf & Hm & Hig). intros [t Hx Ht|Hpol Hx Ht].
  - assert (appended_token r2 t = appended_token r1 t) as Hap by (unfold appended_token; by rewrite Hf, Hout).
    assert (stop_rule r2 t = stop_rule r1 t) as Hs by (unfold stop_rule, noutput; by rewrite Hig, Hap, Hout, Hm).
    apply (reported_token _ _ _ t); [by rewrite Hx, Hs, Hi|]. rewrite Ht. unfold text, after_append. cbn. congruence.
  - apply reported_abort; [done|by rewrite Hx, Hi|congruence].
Qed.

(** The code's decision is the rule, and the next request's text is the append's. *)
Lemma result_reported r t :
  static_ok o r → noutput r < max_new_tokens r → reported r (result_for o r t) (next_request o r t).
Proof using Ho.
  intros Hst Hlt. apply (reported_token _ _ _ t).
  - unfold result_for. by rewrite (reason_for_spec o r t Ho Hst Hlt).
  - unfold next_request. by case_decide.
Qed.

Definition report_of (w w' : World A) (l : list RequestPtr) (p : RequestPtr) x : Prop :=
  p ∈ l ∧ ∃ r r', w_heap w !! p = Some r ∧ w_heap w' !! p = Some r' ∧ reported r x r'.

(** One report per request of [ps], and no token for any other. *)
Record step_reports (w w' : World A) (l : list RequestPtr) (res : list StepResult) (ps : list RequestPtr) : Prop := {
  sr_once : NoDup ps;
  sr_each : Forall2 (report_of w w' l) ps res;
  sr_rest q r : q ∉ ps → w_heap w !! q = Some r → ∃ r', w_heap w' !! q = Some r' ∧ text r' = text r;
}.

Lemma reports_silent w w' l : same_text (w_heap w) (w_heap w') → step_reports w w' l [] [].
Proof. intros Ht. split; [constructor|constructor|]. intros q r _. apply Ht. Qed.

(** The rows of a decode step. *)
Lemma rows_reported w w' l rows ts :
  all_req (w_heap w) (running_ok o) rows → rows_applied o (w_heap w) (w_heap w') rows ts → (∀ p, p ∈ rows → p ∈ l) →
  Forall2 (report_of w w' l) rows (emits o (w_heap w) rows ts).
Proof using Ho.
  intros Hok [_ Hrows] Hl. unfold emits. induction Hrows as [|p t rows ts (r & Hr & Hn) _ IH]; cbn [zip_with]; constructor.
  - split; [apply Hl; set_solver|]. apply Forall_cons in Hok as [(r0 & Hr0 & Hrun) _]. assert (r0 = r) as -> by congruence.
    exists r, (next_request o r t). split; [done|]. split; [done|]. rewrite (lookup_total_correct _ _ _ Hr).
    apply result_reported; [by apply Hrun|]. pose proof (ro_output _ _ Hrun). lia.
  - apply IH; [by apply Forall_cons in Hok as [_ ?]|]. intros q Hq. apply Hl. set_solver.
Qed.

(** The sequences planning aborted. *)
Lemma aborts_reported w w' l ab :
  admission_policy o = kWatermark → all_req (w_heap w) aborted_ok ab → (∀ p, p ∈ ab → w_heap w' !! p = w_heap w !! p) →
  (∀ p, p ∈ ab → p ∈ l) → Forall2 (report_of w w' l) ab (aborted_results (w_heap w) ab).
Proof.
  intros Hpol Hab Hf Hl. unfold aborted_results. induction ab as [|p ab IH]; cbn [map]; constructor.
  - split; [apply Hl; set_solver|]. apply Forall_cons in Hab as [(r & Hr & _) _]. exists r, r.
    split; [done|]. split; [by rewrite Hf by set_solver|]. rewrite (lookup_total_correct _ _ _ Hr). by apply reported_abort.
  - apply Forall_cons in Hab as [_ Hab]. apply IH; [done|set_solver..].
Qed.

Lemma complete_reports w plan ts res w' :
  sched_inv o u w → plan_ok o w plan → complete_post o w plan ts res w' →
  ∃ ps, step_reports w w' (live (w_sched w) ++ aborted plan) res ps.
Proof using Ho.
  intros Hi Hplan Hc. destruct Hc as [p b e rest r a' Hpq Hr He|p b rest r t a' s' Hpq Hr Hw' Hpq' Hrun'|
    ab ts w' Hpq Hw' Hpq' Hrun' Hap]; cbn [aborted decode_plan].
  - exists []. apply reports_silent. cbn. unfold same_text. eapply text_insert; [apply same_text_refl|done|done].
  - destruct (all_req_elem _ _ _ p (si_prefill _ _ _ Hi)) as (r0 & Hr0 & Hok); [rewrite Hpq; set_solver|].
    assert (r0 = r) as -> by congruence. pose proof (po_static _ _ Hok) as Hst.
    exists [p]. split; [apply NoDup_singleton| |].
    + constructor; [|constructor]. split; [unfold live, admitted; rewrite Hpq; set_solver|].
      exists r, (next_request o (after_prefill r) t). split; [done|]. cbn. rewrite lookup_insert_eq. split; [done|].
      apply (reported_text r (after_prefill r)); [done|]. apply result_reported; [by destruct Hst|].
      change (noutput (after_prefill r)) with (noutput r). unfold noutput. rewrite (po_output _ _ Hok).
      change (max_new_tokens (after_prefill r)) with (max_new_tokens r). destruct Hst. unfold zlen. cbn. lia.
    + intros q rq Hq Hrq. exists rq. cbn. rewrite lookup_insert_ne by set_solver. done.
  - destruct Hplan as (_ & _ & _ & Hab & Hndab & Hdis & Hpol). cbn in Hab, Hndab, Hdis, Hpol.
    pose proof (si_nodup _ _ _ Hi) as Hnd. unfold live, admitted in Hnd. rewrite Hpq in Hnd. cbn in Hnd.
    apply NoDup_app in Hnd as (_ & _ & Hnd).
    exists (ab ++ running_ (w_sched w)). split.
    + apply NoDup_app. split; [done|]. split; [|done]. done.
    + apply Forall2_app.
      * destruct (admission_policy o) eqn:Hp; [rewrite Hpol by done; constructor|].
        apply aborts_reported; [done|done| |set_solver]. intros p Hin. apply (ra_other _ _ _ _ _ Hap). by apply Hdis.
      * apply rows_reported; [apply Hi|done|]. intros p Hin. unfold live, admitted. set_solver.
    + intros q r Hq Hr. exists r. rewrite (ra_other _ _ _ _ _ Hap); [done|]. intros Hin. apply Hq. set_solver.
Qed.

(** Planning first does not change what is reported. *)
Lemma reports_after_planning w0 w w' l res ps :
  same_text (w_heap w0) (w_heap w) → (∀ p, p ∈ l → is_Some (w_heap w0 !! p)) →
  step_reports w w' l res ps → step_reports w0 w' l res ps.
Proof.
  intros Htx Hl [Hnd He Hr]. split; [done| |].
  - eapply Forall2_impl; [exact He|]. intros p x (Hp & r & r' & Hr0 & Hr' & Hx). split; [done|].
    destruct (Hl p Hp) as [rp Hrp]. destruct (Htx p rp Hrp) as (rq & Hrq & Heq). assert (rq = r) as -> by congruence.
    exists rp, r'. split; [done|]. split; [done|]. by apply (reported_text rp r).
  - intros q r Hq Hq0. destruct (Htx q r Hq0) as (r1 & Hr1 & E1). destruct (Hr q r1 Hq Hr1) as (r2 & Hr2 & E2).
    exists r2. split; [done|]. congruence.
Qed.

Lemma step_reports_live w0 plan w ts res w' :
  sched_inv o u w0 → plan_post o u w0 plan w → complete_post o w plan ts res w' →
  ∃ ps, step_reports w0 w' (live (w_sched w0)) res ps.
Proof using Ho.
  intros Hi Hpost Hc. destruct (plan_live o u _ _ _ Hi Hpost) as [Hl Htx].
  destruct (complete_reports w plan ts res w' (pt_inv _ _ _ _ _ Hpost) (plan_post_ok _ _ _ _ _ Hpost) Hc) as (ps & Hps).
  exists ps. apply (reports_after_planning w0 w w'); [done|by apply si_live_lookup with o u|].
  destruct Hps as [? He ?]. split; [done| |done]. eapply Forall2_impl; [exact He|]. intros p x [Hp ?]. split; [by rewrite Hl|done].
Qed.

End stream.
