(* ===== verification/SchedulerTheorems.v ===== *)
(** * What the scheduler guarantees

    The theorems are about worlds reachable from a fresh scheduler over any
    allocator that keeps the laws of [KvAllocatorLaws], by enqueueing fresh
    requests and running steps; a step may also stop after [PlanStep], which is
    what an executor that throws leaves behind. *)

From S2P Require Import Prelude Doubles Types BlockAllocator Scheduler SchedulerInv SchedulerPlan SchedulerStep SchedulerLive.

(** ** A fresh scheduler *)

Definition options_valid (o : SchedulerOptions) : bool :=
  (1 <=? max_batch o) && (1 <=? prefill_chunk_tokens o) && (2 <=? max_seq_len o) &&
  double_ge (watermark_free_fraction o) (double_of_Z 0) &&
  double_lt (watermark_free_fraction o) (double_of_Z 1).

Lemma Scheduler_new_run o :
  options_valid o = true → Scheduler_new o = Ok (mkScheduler o [] [] [] (reverse (seqZ 0 (max_batch o)))).
Proof.
  unfold options_valid. rewrite !andb_true_iff. intros [[[[H1 H2] H3] H4] H5].
  unfold Scheduler_new. by rewrite H1, H2, H3, H4, H5.
Qed.

(** The constructor's range check on the free fraction. *)
Lemma fraction_finite x :
  double_ge x (double_of_Z 0) = true → double_lt x (double_of_Z 1) = true → double_finite_nonneg x.
Proof.
  unfold double_ge, double_lt. destruct x as [s|[]| |[] m e]; try done.
Qed.

Lemma opts_ok_valid o :
  options_valid o = true → max_seq_len o + kKvBlockSize <= int32_max →
  max_seq_len o + prefill_chunk_tokens o <= int32_max → opts_ok o.
Proof.
  unfold options_valid. rewrite !andb_true_iff, !Z.leb_le. intros [[[[H1 H2] H3] H4] H5] ??.
  split; [done..|]. by apply fraction_finite.
Qed.

Section reachable.
Context {A : Type} `{!KvAllocator A} `{!KvAllocatorLaws A}.
Context (o : SchedulerOptions) (u : Z) (Ho : opts_ok o).
Implicit Types (h : gmap RequestPtr Request) (a : A) (s : Scheduler) (w : World A).

(** The allocator the engine constructs: everything free, nothing promised. *)
Definition fresh_allocator (a : A) : Prop :=
  ka_valid a ∧ ka_usable_blocks a = u ∧ ka_reserved_blocks a = 0 ∧ ka_pool a ≡ₚ seqZ 1 u.

Inductive reachable : World A → Prop :=
  | reach_new a s :
      fresh_allocator a → Scheduler_new o = Ok s → reachable (mkWorld ∅ a s)
  | reach_submit h a s p r x w' :
      reachable (mkWorld h a s) → h !! p = None → fresh_request r →
      Enqueue p (mkWorld (<[p := r]> h) a s) = (x, w') → reachable w'
  | reach_plan w plan w1 :
      reachable w → PlanStep w = (Ok plan, w1) → reachable w1
  | reach_step w plan w1 ts res w2 :
      reachable w → PlanStep w = (Ok plan, w1) → sampled_ok w1 plan ts →
      CompleteStep plan ts w1 = (Ok res, w2) → reachable w2.

Lemma sched_inv_new a s :
  fresh_allocator a → Scheduler_new o = Ok s → sched_inv o u (mkWorld ∅ a s).
Proof using Ho.
  intros (Hv & Hu & Hr & Hp) Hs.
  assert (s = mkScheduler o [] [] [] (reverse (seqZ 0 (max_batch o)))) as ->.
  { unfold Scheduler_new in Hs. cbn in Hs. unfold assert, assert_, mbind, M_bind in Hs.
    repeat (case_match; cbn in *; try done); simplify_eq; done. }
  split; cbn; [done|constructor|constructor|constructor|constructor|].
  split; cbn; [done|done|by rewrite Hp|done|by rewrite reverse_Permutation|constructor].
Qed.

Lemma sched_inv_submit h a s p r x w' :
  sched_inv o u (mkWorld h a s) → h !! p = None → fresh_request r →
  Enqueue p (mkWorld (<[p := r]> h) a s) = (x, w') → sched_inv o u w'.
Proof using Ho.
  intros Hi Hp Hr Heq.
  assert (p ∉ live s) as Hpl.
  { intros Hin. destruct (si_live_lookup o u _ Hi p Hin) as [? Hs]. cbn in Hs. congruence. }
  assert (sched_inv o u (mkWorld (<[p := r]> h) a s)) as Hi'.
  { eapply sched_inv_frame; [done|exact Hi|]. intros q Hq. rewrite lookup_insert_ne; [done|by intros ->]. }
  rewrite (Enqueue_run o u Ho _ _ _ _ r Hi') in Heq by (done || apply lookup_insert_eq).
  case_decide; injection Heq as <- <-; [|done].
  eapply sched_inv_enqueue; [done|apply lookup_insert_eq|done|done|done].
Qed.

Lemma plan_begin_end w0 plan w :
  plan_post o u w0 plan w → prefill plan = None → prefill_begin plan = 0 ∧ prefill_end plan = 0.
Proof.
  intros [_ (w1 & pre & _ & _ & _ & [Hp|[_ Hd]])].
  - by destruct Hp as [(p & rest & r & r' & a' & _ & _ & _ & _ & _ & ->)].
  - by destruct Hd as (ab & -> & _).
Qed.

(** A plan, its successful computation, and what completes it. *)
Lemma PlanStep_run w :
  sched_inv o u w → ∃ plan w1, PlanStep w = (Ok plan, w1) ∧ plan_post o u w plan w1.
Proof using Ho. intros Hi. apply wp_run. by apply wp_PlanStep. Qed.

Lemma CompleteStep_run w0 plan w ts :
  plan_post o u w0 plan w → sampled_ok w plan ts →
  ∃ res w2, CompleteStep plan ts w = (Ok res, w2) ∧ sched_inv o u w2 ∧ complete_post o w plan ts res w2.
Proof using Ho.
  intros Hp Hts. apply wp_run. apply wp_CompleteStep; [done|apply Hp|by eapply plan_post_ok|done|].
  by eapply plan_begin_end.
Qed.

Lemma reachable_sched_inv w : reachable w → sched_inv o u w.
Proof using Ho.
  induction 1 as [a s Ha Hs|h a s p r x w' _ IH Hp Hr Heq|w plan w1 _ IH Heq|w plan w1 ts res w2 _ IH Heq Hts Hc].
  - by apply sched_inv_new.
  - by eapply sched_inv_submit.
  - destruct (PlanStep_run w IH) as (plan' & w1' & Heq' & Hpost). rewrite Heq in Heq'.
    injection Heq' as <- <-. apply Hpost.
  - destruct (PlanStep_run w IH) as (plan' & w1' & Heq' & Hpost). rewrite Heq in Heq'.
    injection Heq' as <- <-. destruct (CompleteStep_run _ _ _ _ Hpost Hts) as (res' & w2' & Hc' & Hi & _).
    rewrite Hc in Hc'. by injection Hc' as <- <-.
Qed.

(** ** Running until the queues are empty *)

Variable exec : World A → StepPlan → list TokenId.

(** [n] engine iterations without new arrivals; an empty plan stops. *)
Fixpoint run_steps (n : nat) : M error (World A) (list StepResult) :=
  match n with
  | O => mret []
  | S n' =>
      plan ← PlanStep;
      if plan_empty plan then mret [] else
      w ← get;
      res ← CompleteStep plan (exec w plan);
      rest ← run_steps n';
      mret (res ++ rest)
  end.

Lemma live_nil_work w : sched_inv o u w → (total_work w = 0)%nat → live (w_sched w) = [].
Proof.
  intros Hi Hw. destruct (live (w_sched w)) as [|p l] eqn:Hl; [done|exfalso].
  assert (1 <= work (w_heap w !!! p))%nat as Hpos.
  { assert (p ∈ live (w_sched w)) as Hp by (rewrite Hl; set_solver).
    destruct Hi as [_ _ H1 H2 H3 _]. unfold live, admitted in Hp. rewrite !elem_of_app in Hp.
    destruct Hp as [Hp|[Hp|Hp]].
    - destruct (all_req_elem _ _ _ p H1 Hp) as (r & -> %lookup_total_correct & Hr).
      destruct (wo_static _ _ _ Hr). unfold work, noutput. rewrite (wo_output _ _ _ Hr).
      change (zlen []) with 0. lia.
    - destruct (all_req_elem _ _ _ p H2 Hp) as (r & -> %lookup_total_correct & Hr).
      pose proof (po_progress _ _ Hr). unfold work. lia.
    - destruct (all_req_elem _ _ _ p H3 Hp) as (r & -> %lookup_total_correct & Hr).
      by apply (work_running_pos o). }
  unfold total_work in Hw. rewrite Hl, work_of_cons in Hw. lia.
Qed.

Lemma run_steps_drain n : ∀ w,
  (∀ w plan, sampled_ok w plan (exec w plan)) → sched_inv o u w → (total_work w <= n)%nat →
  wp (run_steps n) (λ _ w', sched_inv o u w' ∧ live (w_sched w') = []) w.
Proof using Ho.
  induction n as [|n IH]; intros w Hexec Hi Hn.
  { apply wp_ret. split; [done|]. apply live_nil_work; [done|lia]. }
  cbn [run_steps]. destruct (PlanStep_run w Hi) as (plan & w1 & Heq & Hpost).
  apply wp_bind. eapply wp_eq; [done|]. pose proof (plan_work o u Ho _ _ _ Hi Hpost) as Hw1.
  destruct (plan_empty plan) eqn:Hempty.
  { apply wp_ret. split; [apply Hpost|].
    destruct (live (w_sched w)) as [|p l] eqn:Hl.
    - destruct Hpost as [Hi1 _]. apply live_nil_work; [done|].
      unfold total_work in *. rewrite Hl in Hw1. cbn in Hw1. lia.
    - pose proof (plan_progress o u Ho _ _ _ Hpost) as Hp. rewrite Hl in Hp.
      by rewrite Hp in Hempty. }
  apply wp_bind, wp_get, wp_bind.
  destruct (CompleteStep_run _ _ _ _ Hpost (Hexec w1 plan)) as (res & w2 & Hc & Hi2 & Hpost2).
  eapply wp_eq; [done|]. pose proof (complete_work o u Ho _ _ _ _ _ (pt_inv _ _ _ _ _ Hpost)
    (plan_post_ok _ _ _ _ _ Hpost) Hpost2) as Hw2.
  apply wp_bind. eapply wp_mono; [apply IH; [done|done|]|intros; by apply wp_ret].
  unfold plan_empty, is_prefill in *. destruct (prefill plan); [lia|].
  destruct (decode plan); [|cbn in *; lia]. destruct (aborted plan); [done|]. cbn in *. lia.
Qed.

End reachable.

(** ** The guarantees *)

Section guarantees.
Context {A : Type} `{!KvAllocator A} `{!KvAllocatorLaws A}.
Context (o : SchedulerOptions) (u : Z).
Implicit Types (w : World A).

Lemma reachable_plan w plan w1 :
  opts_ok o → reachable o u w → PlanStep w = (Ok plan, w1) →
  sched_inv o u w ∧ plan_post o u w plan w1.
Proof.
  intros Ho Hw Heq. pose proof (reachable_sched_inv o u Ho w Hw) as Hi. split; [done|].
  destruct (PlanStep_run o u Ho w Hi) as (plan' & w1' & Heq' & Hpost). rewrite Heq in Heq'.
  by injection Heq' as <- <-.
Qed.

(** C12. From every reachable world planning succeeds, and completing the plan
    succeeds for every batch of tokens an executor may return: no assertion of
    a debug build fails, no container is accessed out of range, no [int32] sum
    overflows, and no loop runs forever. *)
Theorem step_never_fails w :
  opts_ok o → reachable o u w →
  ∃ plan w1, PlanStep w = (Ok plan, w1) ∧ reachable o u w1 ∧
    ∀ ts, sampled_ok w1 plan ts →
      ∃ res w2, CompleteStep plan ts w1 = (Ok res, w2) ∧ reachable o u w2.
Proof.
  intros Ho Hw. pose proof (reachable_sched_inv o u Ho w Hw) as Hi.
  destruct (PlanStep_run o u Ho w Hi) as (plan & w1 & Heq & Hpost).
  exists plan, w1. split_and!; [done|by eapply reach_plan|]. intros ts Hts.
  destruct (CompleteStep_run o u Ho _ _ _ _ Hpost Hts) as (res & w2 & Hc & _).
  exists res, w2. split; [done|]. by eapply reach_step.
Qed.

(** C13. Blocks are conserved and never shared: in every reachable world the
    blocks of the admitted requests and the free blocks are pairwise distinct
    and together are exactly the usable ids [1 .. u]; the allocator's promise
    count is the sum of the requests' own, and is covered by free blocks. *)
Theorem blocks_conserved w :
  opts_ok o → reachable o u w →
  NoDup (owned (w_heap w) (admitted (w_sched w)) ++ ka_pool (w_alloc w)) ∧
  (∀ b, b ∈ owned (w_heap w) (admitted (w_sched w)) ++ ka_pool (w_alloc w) ↔ 1 <= b <= u) ∧
  ka_reserved_blocks (w_alloc w) = promised (w_heap w) (admitted (w_sched w)) ∧
  ka_reserved_blocks (w_alloc w) <= ka_free_blocks (w_alloc w).
Proof.
  intros Ho Hw. destruct (reachable_sched_inv o u Ho w Hw) as [_ _ _ _ _ [Hv Hu Hb Hp _ _]].
  split_and!; [rewrite Hb; apply NoDup_seqZ|intros b; rewrite Hb, elem_of_seqZ; lia|done|].
  rewrite ka_free_blocks_pool by done. pose proof (ka_reserved_pool _ Hv). lia.
Qed.

(** C14. Under the default policy decode never exhausts the pool: no step
    aborts a sequence, and planning keeps every live request. *)
Theorem reserve_full_never_aborts w plan w1 :
  opts_ok o → admission_policy o = kReserveFull → reachable o u w →
  PlanStep w = (Ok plan, w1) → aborted plan = [] ∧ live (w_sched w1) ≡ₚ live (w_sched w).
Proof.
  intros Ho Hpol Hw Heq. destruct (reachable_plan _ _ _ Ho Hw Heq) as [_ [_ (w2 & pre & Had & _ & _ & Hpost)]].
  assert (live (w_sched w2) ≡ₚ live (w_sched w)) as <-.
  { destruct Had as [Hwt Hp Hr _ _ _]. unfold live, admitted. rewrite Hwt, Hp, Hr. solve_Permutation. }
  destruct Hpost as [[(p & rest & r & r' & a' & _ & _ & _ & _ & -> & ->)]|[Hpq (ab & -> & Hpl & _)]]; [done|].
  pose proof (pl_policy _ _ _ _ _ Hpl Hpol) as ->. cbn. split; [done|].
  pose proof (pl_running _ _ _ _ _ Hpl) as Hrun. cbn in Hrun. rewrite app_nil_r in Hrun.
  unfold live, admitted. by rewrite Hrun, Hpq, (pl_waiting _ _ _ _ _ Hpl), (pl_prefill _ _ _ _ _ Hpl).
Qed.

(** A decode plan is safe to execute: its rows are exactly the running
    sequences, pairwise distinct and at most [max_batch]; each row's block
    table covers the whole sequence, including the position this step writes,
    and holds only physical ids of the pool (never the dummy block 0). *)
Theorem decode_rows_covered w plan w1 :
  opts_ok o → reachable o u w → PlanStep w = (Ok plan, w1) → prefill plan = None →
  decode plan = running_ (w_sched w1) ∧ NoDup (decode plan) ∧ zlen (decode plan) <= max_batch o ∧
  ∀ p, p ∈ decode plan → ∃ r, w_heap w1 !! p = Some r ∧ state r = kRunning ∧
    prefill_progress r = num_prompt_tokens r ∧ 1 <= num_output_tokens r < max_new_tokens r ∧
    seq_len r <= token_capacity (block_table r) ∧ seq_len r < max_seq_len o ∧
    ∀ b, b ∈ blocks_ (block_table r) → 1 <= b <= u.
Proof.
  intros Ho Hw Heq Hpre. destruct (reachable_plan _ _ _ Ho Hw Heq) as [_ Hpost].
  pose proof (plan_post_ok _ _ _ _ _ Hpost) as Hok. unfold plan_ok in Hok. rewrite Hpre in Hok.
  destruct Hok as (Hpq & -> & Hcov & _). destruct Hpost as [Hi _].
  pose proof (si_nodup _ _ _ Hi) as Hnd. unfold live, admitted in Hnd.
  apply NoDup_app in Hnd as (_ & _ & Hnd). apply NoDup_app in Hnd as (_ & _ & Hnd).
  split_and!; [done|done|by apply (running_le_batch o u)|].
  intros p Hp. destruct (all_req_elem _ _ _ p (si_running _ _ _ Hi) Hp) as (r & Hr & Hrok).
  destruct (all_req_elem _ _ _ p Hcov Hp) as (r' & Hr' & Hc). assert (r' = r) as -> by congruence.
  exists r. pose proof Hrok as [Hst ? ? Hout ? ? Hb]. pose proof Hst as [? ? ?].
  pose proof (BlocksForTokens_mono (nprompt r + noutput r) (nprompt r + max_new_tokens r) ltac:(lia)).
  rewrite (num_prompt_tokens_eq o r Ho Hst), (num_output_tokens_eq o r Ho Hst),
    (seq_len_eq o r Ho Hst), (token_capacity_eq o r Ho Hst) by lia.
  split_and!; try done; try lia. intros b Hb'.
  apply (accounts_owned_range _ _ _ _ _ _ p b (si_accounts _ _ _ Hi)).
  - unfold admitted. set_solver.
  - unfold blocks_at. by rewrite (lookup_total_correct _ _ _ Hr).
Qed.

(** Watermark recovery aborts exactly the youngest running sequences: the
    rows of a decode plan are a prefix of the running list before the step, the
    aborted ones the rest, from the back; an aborted request ends as
    [kAborted] and holds no block, no promise and no slot. *)
Theorem watermark_aborts_youngest w plan w1 :
  opts_ok o → reachable o u w → PlanStep w = (Ok plan, w1) → prefill plan = None →
  running_ (w_sched w) = decode plan ++ reverse (aborted plan) ∧
  ∀ p, p ∈ aborted plan → p ∉ decode plan ∧ ∃ r, w_heap w1 !! p = Some r ∧ aborted_ok r.
Proof.
  intros Ho Hw Heq Hpre. destruct (reachable_plan _ _ _ Ho Hw Heq) as [_ [_ (w2 & pre & Had & _ & _ & Hpost)]].
  rewrite <- (ad_running _ _ _ _ Had).
  destruct Hpost as [[(p & rest & r & r' & a' & _ & _ & _ & _ & _ & ->)]|[_ (ab & -> & Hpl & _)]]; [done|].
  cbn. split; [by apply Hpl|]. intros p Hp. split; [by apply (planning_nodup _ _ _ _ _ Hpl)|].
  by apply (all_req_elem _ _ _ p (pl_aborted _ _ _ _ _ Hpl)).
Qed.

(** C17. Admission is first come, first served: it moves a prefix of the waiting
    queue, in order, behind the prefills, and stops only when the queue is
    empty, the batch is full, or the pool cannot take the head. *)
Theorem admission_is_fcfs w :
  opts_ok o → reachable o u w →
  ∃ w' pre, AdmitWaiting w = (Ok (), w') ∧ sched_inv o u w' ∧
    waiting_ (w_sched w) = pre ++ waiting_ (w_sched w') ∧
    prefill_queue_ (w_sched w') = prefill_queue_ (w_sched w) ++ pre ∧
    running_ (w_sched w') = running_ (w_sched w) ∧
    (∀ p, p ∈ pre → ∃ r, w_heap w' !! p = Some r ∧ state r = kPrefill ∧
                         reserved_blocks r = target o r) ∧
    admission_stopped o u w'.
Proof.
  intros Ho Hw. pose proof (reachable_sched_inv o u Ho w Hw) as Hi.
  assert (wp AdmitWaiting (λ _ w', ∃ pre, sched_inv o u w' ∧ admits o w w' pre ∧ admission_stopped o u w') w)
    as Hwp by (apply (wp_AdmitWaiting o u); eauto).
  apply wp_run in Hwp as ([] & w' & Heq & pre & Hi' & [? ? ? _ _ Hreq] & Hstop).
  exists w', pre. split_and!; try done. intros p Hp. destruct (Hreq p Hp) as (sl & r & _ & Hr).
  by eexists.
Qed.

(** A prefill plan is the next chunk of the oldest admitted prompt: it
    starts where the last one ended, holds at least one and at most
    [prefill_chunk_tokens] tokens, stays inside the prompt, and its blocks
    are in place. *)
Theorem prefill_plan_chunk w plan w1 p :
  opts_ok o → reachable o u w → PlanStep w = (Ok plan, w1) → prefill plan = Some p →
  decode plan = [] ∧ aborted plan = [] ∧ head (prefill_queue_ (w_sched w1)) = Some p ∧
  ∃ r, w_heap w1 !! p = Some r ∧ state r = kPrefill ∧ prefill_begin plan = prefill_progress r ∧
    prefill_end plan = Z.min (prefill_begin plan + prefill_chunk_tokens o) (num_prompt_tokens r) ∧
    0 <= prefill_begin plan < prefill_end plan ∧ prefill_end plan <= token_capacity (block_table r).
Proof.
  intros Ho Hw Heq Hpre. destruct (reachable_plan _ _ _ Ho Hw Heq) as [_ Hpost].
  pose proof (plan_post_ok _ _ _ _ _ Hpost) as Hok. unfold plan_ok in Hok. rewrite Hpre in Hok.
  destruct Hok as (-> & -> & rest & r & Hpq & Hr & -> & -> & Hcov). destruct Hpost as [Hi _].
  destruct (all_req_elem _ _ _ p (si_prefill _ _ _ Hi)) as (r' & Hr' & Hrok); [rewrite Hpq; set_solver|].
  assert (r' = r) as -> by congruence. rewrite Hpq. split_and!; [done|done|done|]. exists r.
  pose proof (po_static _ _ Hrok) as Hst. pose proof (po_progress _ _ Hrok).
  pose proof (prompt_blocks_le o r Hst). pose proof (po_blocks _ _ Hrok).
  rewrite (num_prompt_tokens_eq o r Ho Hst), (token_capacity_eq o r Ho Hst) by lia.
  unfold chunk_end in *. destruct Ho. split_and!; try done; try lia. apply Hrok.
Qed.

(** C16. Completing a step has exactly the specified effect: an intermediate
    chunk only advances the progress and emits nothing; a final chunk emits the
    first token and either joins the decode batch or finishes; a decode step
    reports the aborts first and then one result per row in order, the running
    list keeping, in order, the rows that go on. *)
Theorem complete_step_effect w plan w1 ts res w2 :
  opts_ok o → reachable o u w → PlanStep w = (Ok plan, w1) → sampled_ok w1 plan ts →
  CompleteStep plan ts w1 = (Ok res, w2) → complete_post o w1 plan ts res w2.
Proof.
  intros Ho Hw Heq Hts Hc. destruct (reachable_plan _ _ _ Ho Hw Heq) as [_ Hpost].
  destruct (CompleteStep_run o u Ho _ _ _ _ Hpost Hts) as (res' & w2' & Hc' & _ & Hpost').
  rewrite Hc in Hc'. by injection Hc' as <- <-.
Qed.

(** Batch slots: the admitted requests hold pairwise distinct slots of
    [0 .. max_batch), the free stack holds the others, and at most [max_batch]
    requests are admitted at a time. *)
Theorem slots_distinct w :
  opts_ok o → reachable o u w →
  NoDup (slots (w_heap w) (admitted (w_sched w)) ++ free_slots_ (w_sched w)) ∧
  (∀ sl, sl ∈ slots (w_heap w) (admitted (w_sched w)) ++ free_slots_ (w_sched w) ↔ 0 <= sl < max_batch o) ∧
  num_running (w_sched w) <= max_batch o.
Proof.
  intros Ho Hw. pose proof (reachable_sched_inv o u Ho w Hw) as Hi.
  pose proof (si_accounts _ _ _ Hi) as Hac. pose proof Hac as [_ _ _ _ Hs _].
  split_and!; [rewrite Hs; apply NoDup_seqZ|intros sl; rewrite Hs, elem_of_seqZ; lia|].
  assert (0 <= max_batch o) as Hb by (destruct Ho; lia).
  pose proof (accounts_free_slots _ _ _ _ _ _ Hb Hac) as Hz. unfold admitted, num_running in *. zlen.
  pose proof (zlen_nonneg (free_slots_ (w_sched w))). lia.
Qed.

(** [Enqueue] accepts a fresh request exactly when its numbers pass the
    four rules (non-empty prompt, positive budget, within [max_seq_len], fits
    an idle pool), appends it to the queue then, and otherwise throws the
    rejection naming the first failing rule and changes nothing. *)
Theorem enqueue_decision h a s p r :
  opts_ok o → reachable o u (mkWorld h a s) → h !! p = None → fresh_request r →
  Enqueue p (mkWorld (<[p := r]> h) a s) =
    if decide (acceptable o u r)
    then (Ok (), mkWorld (<[p := r]> h) a (set_waiting (waiting_ s ++ [p]) s))
    else (Err (InvalidArgument (rejection o u r)), mkWorld (<[p := r]> h) a s).
Proof.
  intros Ho Hw Hp Hr. pose proof (reachable_sched_inv o u Ho _ Hw) as Hi.
  assert (p ∉ live s) as Hpl.
  { intros Hin. destruct (si_live_lookup o u _ Hi p Hin) as [? Hs]. cbn in Hs. congruence. }
  apply (Enqueue_run o u Ho _ _ _ _ r); [|apply lookup_insert_eq|done|done].
  eapply sched_inv_frame; [done|exact Hi|]. intros q Hq. rewrite lookup_insert_ne; [done|by intros ->].
Qed.

(** No starvation: while a request is live the plan is not empty, so every
    iteration of the engine loop executes or reports something. *)
Theorem plan_makes_progress w plan w1 :
  opts_ok o → reachable o u w → PlanStep w = (Ok plan, w1) → live (w_sched w) ≠ [] →
  plan_empty plan = false.
Proof.
  intros Ho Hw Heq Hl. destruct (reachable_plan _ _ _ Ho Hw Heq) as [_ Hpost].
  by eapply plan_progress.
Qed.

(** The engine drains: without new arrivals, as many iterations as there
    are prompt positions and output tokens left to process complete every live
    request, for every executor that returns the right number of tokens; none
    of them fails. *)
Theorem engine_drains (exec : World A → StepPlan → list TokenId) w :
  opts_ok o → reachable o u w → (∀ w plan, sampled_ok w plan (exec w plan)) →
  ∃ res w', run_steps exec (total_work w) w = (Ok res, w') ∧ live (w_sched w') = [].
Proof.
  intros Ho Hw Hexec. pose proof (reachable_sched_inv o u Ho w Hw) as Hi.
  pose proof (run_steps_drain o u Ho exec (total_work w) w Hexec Hi ltac:(lia)) as Hwp.
  apply wp_run in Hwp as (res & w' & Heq & _ & Hl). eauto.
Qed.

(** A passing [CanAdmit] establishes [Reserve]'s precondition under both
    policies: the blocks admission promises are free and uncommitted, also when
    the watermark floor is computed in floating point. *)
Theorem can_admit_can_reserve w r :
  opts_ok o → reachable o u w → static_ok o r →
  ∃ b, CanAdmit r w = (Ok b, w) ∧
    (b = true → target o r <= ka_free_blocks (w_alloc w) - ka_reserved_blocks (w_alloc w)).
Proof.
  intros Ho Hw Hst. pose proof (reachable_sched_inv o u Ho w Hw) as Hi. destruct w as [h a s].
  pose proof (si_accounts _ _ _ Hi) as [Hv Hu _ _ _ _]. pose proof (si_options _ _ _ Hi) as Hos.
  assert (wp (CanAdmit r) (λ b w', b = admissible o u a r ∧ w' = mkWorld h a s) (mkWorld h a s)) as Hwp
    by by apply (wp_CanAdmit o u).
  apply wp_run in Hwp as (b & w' & Heq & -> & ->). exists (admissible o u a r). split; [done|].
  cbn in *. rewrite ka_free_blocks_pool by done. by apply admissible_target.
Qed.

End guarantees.

(** ** Pure decisions *)

(** The stop decision: the token that is appended is the scripted one while
    teacher forcing has one for the position, else the sampled one; EOS (unless
    ignored) wins over the length limit, which applies exactly when the budget
    is used up; the result always reports the sampled token. *)
Theorem stop_decision o r t :
  opts_ok o → static_ok o r → noutput r < max_new_tokens r →
  output_tokens (next_request o r t) =
    output_tokens r ++ [default t (forced_tokens r !! length (output_tokens r))] ∧
  let appended := default t (forced_tokens r !! length (output_tokens r)) in
  let reason := if bool_decide (ignore_eos r = false ∧ appended ∈ eos_token_ids o) then kEos
                else if bool_decide (noutput r + 1 = max_new_tokens r) then kLength else kNone in
  result_for o r t = mkStepResult (id r) t (negb (bool_decide (reason = kNone))) reason.
Proof.
  intros Ho Hst Hlt. split; [unfold next_request; by case_decide|].
  cbn zeta. unfold result_for. by rewrite (reason_for_spec o r t Ho Hst Hlt).
Qed.

(** [SelectBucket] on the ladder of a batch cap returns the smallest bucket
    that holds the batch, and -1 exactly when there is none. *)
Theorem select_bucket_smallest (cap n : Z) :
  let b := SelectBucket n (MakeDecodeBuckets cap) in
  (b ∈ kLadder ∧ 1 <= n <= b ∧ b <= cap ∧ ∀ c, c ∈ kLadder → n <= c → b <= c) ∨
  (b = -1 ∧ (n <= 0 ∨ ∀ c, c ∈ kLadder → c <= cap → c < n)).
Proof.
  cbn zeta. unfold SelectBucket. destruct (Z.leb_spec n 0); [right; by split; [|left]|].
  destruct (List.find _ _) as [b|] eqn:Hf; cbn.
  - left. assert (b ∈ kLadder ∧ b <= cap ∧ n <= b) as (Hb & Hbc & Hnb).
    { apply find_some in Hf as [Hin Hle]. apply list_elem_of_In, list_elem_of_filter in Hin as [? ?].
      by apply Z.leb_le in Hle. }
    split_and!; [done|lia|done|done|]. intros c Hc Hnc.
    destruct (Z.le_gt_cases b c) as [|Hlt]; [done|exfalso].
    revert Hf. unfold MakeDecodeBuckets, kLadder in *. rewrite !elem_of_cons, elem_of_nil in Hc.
    rewrite !filter_cons. cbn [filter list_filter].
    repeat match goal with |- context [decide (?x <= cap)] => destruct (decide (x <= cap)) end;
      cbn; repeat match goal with |- context [n <=? ?x] => destruct (Z.leb_spec n x) end;
      intros [= <-]; lia.
  - right. split; [done|right]. intros c Hc Hcap.
    assert ((n <=? c) = false) as Hle; [|by apply Z.leb_gt in Hle].
    eapply find_none in Hf; [done|]. apply list_elem_of_In, list_elem_of_filter. done.
Qed.

(** ** Concrete instances

    A pool of 8 usable blocks, a batch of 2, 16-token chunks; three requests
    enqueued on the real allocator under each policy.  The witnesses below run
    the definitions on these worlds. *)

Module Example.

(** The [double] nearest to 0.10. *)
Definition tenth : double := SpecFloat.S754_finite false 7205759403792794 (-56).

Definition opts (policy : AdmissionPolicy) : SchedulerOptions :=
  mkSchedulerOptions 2 16 128 policy tenth [151645; 151643].

Definition pool8 : BlockAllocator :=
  match BlockAllocator_new 9 with Ok a => a | Err _ => mkBlockAllocator 0 0 [] [] end.

Definition start (policy : AdmissionPolicy) : World BlockAllocator :=
  mkWorld ∅ pool8 (mkScheduler (opts policy) [] [] [] [1; 0]).

Definition submit (p : RequestPtr) (r : Request) (w : World BlockAllocator) : World BlockAllocator :=
  snd (Enqueue p (mkWorld (<[p := r]> (w_heap w)) (w_alloc w) (w_sched w))).

Definition request (i : Z) (len : nat) (budget : Z) : Request :=
  new_request i (replicate len 7) budget false [].

(** Three requests: 20 + 4, 16 + 2 and 5 + 1 tokens. *)
Definition world (policy : AdmissionPolicy) : World BlockAllocator :=
  submit 3%positive (request 2 5 1) (submit 2%positive (request 1 16 2)
    (submit 1%positive (request 0 20 4) (start policy))).

(** Two requests of 48 + 40 tokens, whose growth the pool cannot hold. *)
Definition contended (policy : AdmissionPolicy) : World BlockAllocator :=
  submit 2%positive (request 1 48 40) (submit 1%positive (request 0 48 40) (start policy)).

(** One iteration, with an executor that samples token 9 for every row. *)
Definition tokens (w : World BlockAllocator) (plan : StepPlan) : list TokenId :=
  match prefill plan with
  | Some p => if prefill_end plan =? nprompt (w_heap w !!! p) then [9] else []
  | None => replicate (length (decode plan)) 9
  end.

Definition planned (w : World BlockAllocator) : StepPlan :=
  match PlanStep w with (Ok plan, _) => plan | _ => StepPlan_new end.

Definition iterate (w : World BlockAllocator) : World BlockAllocator :=
  let (x, w1) := PlanStep w in
  match x with
  | Ok plan => snd (CompleteStep plan (tokens w1 plan) w1)
  | Err _ => w1
  end.

Lemma tokens_ok w plan : sampled_ok w plan (tokens w plan).
Proof.
  unfold sampled_ok, tokens. destruct (prefill plan); [by case_match|]. apply length_replicate.
Qed.

Lemma opts_fine policy : opts_ok (opts policy).
Proof. by apply opts_ok_valid; destruct policy. Qed.

Lemma pool8_fresh : fresh_allocator 8 pool8.
Proof.
  destruct (alloc_inv_new 9) as (a & Heq & Ha & Ht & Hr & Hf); [done|].
  assert (pool8 = a) as -> by (unfold pool8; by rewrite Heq). split_and!; [done| |done|].
  - cbn. rewrite alloc_inv_usable by done. lia.
  - cbn. rewrite Hf. unfold initial_free_list. by rewrite reverse_Permutation.
Qed.

Lemma start_reachable policy : reachable (opts policy) 8 (start policy).
Proof. apply reach_new; [apply pool8_fresh|]. by destruct policy. Qed.

Lemma submit_reachable policy w p r :
  reachable (opts policy) 8 w → w_heap w !! p = None → fresh_request r →
  reachable (opts policy) 8 (submit p r w).
Proof.
  destruct w as [h a s]. intros Hw Hp Hr. unfold submit. cbn in *.
  destruct (Enqueue _ _) as [x w'] eqn:Heq. by eapply reach_submit.
Qed.

Lemma request_fresh i len budget : fresh_request (request i len budget).
Proof. by repeat eexists. Qed.

Lemma world_reachable policy : reachable (opts policy) 8 (world policy).
Proof.
  unfold world. repeat (apply submit_reachable; [| by destruct policy; vm_compute | apply request_fresh]).
  apply start_reachable.
Qed.

Lemma contended_reachable policy : reachable (opts policy) 8 (contended policy).
Proof.
  unfold contended. repeat (apply submit_reachable; [| by destruct policy; vm_compute | apply request_fresh]).
  apply start_reachable.
Qed.

Lemma iterate_reachable policy w :
  reachable (opts policy) 8 w → reachable (opts policy) 8 (iterate w).
Proof.
  intros Hw. pose proof (reachable_sched_inv _ _ (opts_fine policy) _ Hw) as Hi.
  destruct (PlanStep_run _ _ (opts_fine policy) _ Hi) as (plan & w1 & Heq & Hpost).
  destruct (CompleteStep_run _ _ (opts_fine policy) _ _ _ _ Hpost (tokens_ok w1 plan))
    as (res & w2 & Hc & _).
  unfold iterate. rewrite Heq, Hc. by apply (reach_step _ _ w plan w1 (tokens w1 plan) res w2); [|..|apply tokens_ok|].
Qed.

(** [n] iterations. *)
Definition iterations (n : nat) (w : World BlockAllocator) : World BlockAllocator := Nat.iter n iterate w.

Lemma iterations_reachable policy n w :
  reachable (opts policy) 8 w → reachable (opts policy) 8 (iterations n w).
Proof. intros Hw. induction n; [done|by apply iterate_reachable]. Qed.

(** The world after admission, two prefills and a decode step, at a decode step. *)
Definition mid (policy : AdmissionPolicy) : World BlockAllocator := iterations 3 (world policy).

Lemma mid_reachable policy : reachable (opts policy) 8 (mid policy).
Proof. apply iterations_reachable, world_reachable. Qed.

(** The world whose next step finds the pool empty under [kWatermark]. *)
Definition exhausted : World BlockAllocator := iterations 22 (contended kWatermark).

Lemma exhausted_reachable : reachable (opts kWatermark) 8 exhausted.
Proof. apply iterations_reachable, contended_reachable. Qed.

(** The state left by a step, its plan and its results. *)
Definition stepped (w : World BlockAllocator) : StepPlan * World BlockAllocator :=
  match PlanStep w with (Ok plan, w1) => (plan, w1) | (Err _, w1) => (StepPlan_new, w1) end.


Definition next (w : World BlockAllocator) : World BlockAllocator := snd (PlanStep w).

Lemma mid_plan policy : PlanStep (mid policy) = (Ok (planned (mid policy)), next (mid policy)).
Proof. by destruct policy; vm_compute. Qed.

Lemma exhausted_plan : PlanStep exhausted = (Ok (planned exhausted), next exhausted).
Proof. by vm_compute. Qed.

End Example.

(** ** Witnesses *)

Lemma step_never_fails_witness :
  ∃ plan w1, PlanStep (Example.mid kWatermark) = (Ok plan, w1) ∧
    reachable (Example.opts kWatermark) 8 w1 ∧
    ∀ ts, sampled_ok w1 plan ts → ∃ res w2, CompleteStep plan ts w1 = (Ok res, w2) ∧
      reachable (Example.opts kWatermark) 8 w2.
Proof.
  apply (step_never_fails (Example.opts kWatermark) 8 (Example.mid kWatermark));
    [apply Example.opts_fine|apply Example.mid_reachable].
Defined.

Lemma blocks_conserved_witness :
  owned (w_heap (Example.mid kReserveFull)) (admitted (w_sched (Example.mid kReserveFull))) = [1; 2; 3] ∧
  NoDup (owned (w_heap (Example.mid kReserveFull)) (admitted (w_sched (Example.mid kReserveFull)))
         ++ ka_pool (w_alloc (Example.mid kReserveFull))).
Proof.
  split; [by vm_compute|].
  apply (blocks_conserved (Example.opts kReserveFull) 8 (Example.mid kReserveFull));
    [apply Example.opts_fine|apply Example.mid_reachable].
Defined.

Lemma reserve_full_never_aborts_witness :
  decode (Example.planned (Example.mid kReserveFull)) = [1%positive; 2%positive] ∧
  aborted (Example.planned (Example.mid kReserveFull)) = [].
Proof.
  split; [by vm_compute|].
  apply (reserve_full_never_aborts (Example.opts kReserveFull) 8 (Example.mid kReserveFull) _
           (Example.next (Example.mid kReserveFull)));
    [apply Example.opts_fine|done|apply Example.mid_reachable|apply Example.mid_plan].
Defined.

Lemma decode_rows_covered_witness :
  decode (Example.planned Example.exhausted) = [1%positive] ∧
  ∃ r, w_heap (Example.next Example.exhausted) !! 1%positive = Some r ∧
       seq_len r = 65 ∧ seq_len r <= token_capacity (block_table r).
Proof.
  split; [by vm_compute|].
  destruct (decode_rows_covered (Example.opts kWatermark) 8 Example.exhausted
              (Example.planned Example.exhausted) (Example.next Example.exhausted)
              (Example.opts_fine _) Example.exhausted_reachable Example.exhausted_plan
              ltac:(by vm_compute)) as (_ & _ & _ & Hrows).
  destruct (Hrows 1%positive ltac:(by vm_compute; constructor)) as (r & Hr & _ & _ & _ & Hc & _).
  exists r. split_and!; [done| |done].
  assert (Some r = w_heap (Example.next Example.exhausted) !! 1%positive) as Heq by done.
  assert (fmap seq_len (w_heap (Example.next Example.exhausted) !! 1%positive) = Some 65) as Hl
    by by vm_compute.
  rewrite <- Heq in Hl. by injection Hl.
Defined.

Lemma watermark_aborts_youngest_witness :
  aborted (Example.planned Example.exhausted) = [2%positive] ∧
  running_ (w_sched Example.exhausted) =
    decode (Example.planned Example.exhausted) ++ reverse (aborted (Example.planned Example.exhausted)).
Proof.
  split; [by vm_compute|].
  apply (watermark_aborts_youngest (Example.opts kWatermark) 8 Example.exhausted
           (Example.planned Example.exhausted) (Example.next Example.exhausted));
    [apply Example.opts_fine|apply Example.exhausted_reachable|apply Example.exhausted_plan|by vm_compute].
Defined.

Lemma admission_is_fcfs_witness :
  ∃ w' pre, AdmitWaiting (Example.world kReserveFull) = (Ok (), w') ∧
    waiting_ (w_sched (Example.world kReserveFull)) = pre ++ waiting_ (w_sched w') ∧
    admission_stopped (Example.opts kReserveFull) 8 w'.
Proof.
  destruct (admission_is_fcfs (Example.opts kReserveFull) 8 (Example.world kReserveFull)
    (Example.opts_fine _) (Example.world_reachable _)) as (w' & pre & ? & _ & ? & _ & _ & _ & ?).
  exists w', pre. split_and!; assumption.
Defined.

Lemma prefill_plan_chunk_witness :
  prefill (Example.planned (Example.world kReserveFull)) = Some 1%positive ∧
  prefill_end (Example.planned (Example.world kReserveFull)) = 16 ∧
  decode (Example.planned (Example.world kReserveFull)) = [].
Proof.
  split_and!; [by vm_compute|by vm_compute|].
  assert (PlanStep (Example.world kReserveFull) =
          (Ok (Example.planned (Example.world kReserveFull)), Example.next (Example.world kReserveFull)))
    as Heq by by vm_compute.
  destruct (prefill_plan_chunk (Example.opts kReserveFull) 8 (Example.world kReserveFull)
    (Example.planned (Example.world kReserveFull)) (Example.next (Example.world kReserveFull)) 1%positive
    (Example.opts_fine _) (Example.world_reachable _) Heq ltac:(by vm_compute)) as [Hd _].
  exact Hd.
Defined.

Lemma complete_step_effect_witness :
  let w := Example.mid kReserveFull in let w1 := Example.next w in
  complete_post (Example.opts kReserveFull) w1 (Example.planned w) [9; 151643]
    [mkStepResult 0 9 false kNone; mkStepResult 1 151643 true kEos]
    (snd (CompleteStep (Example.planned w) [9; 151643] w1)).
Proof.
  apply (complete_step_effect (Example.opts kReserveFull) 8 (Example.mid kReserveFull));
    [apply Example.opts_fine|apply Example.mid_reachable|apply Example.mid_plan|by vm_compute|by vm_compute].
Defined.

Lemma slots_distinct_witness :
  slots (w_heap (Example.mid kReserveFull)) (admitted (w_sched (Example.mid kReserveFull))) = [0; 1] ∧
  num_running (w_sched (Example.mid kReserveFull)) <= 2.
Proof.
  split; [by vm_compute|].
  apply (slots_distinct (Example.opts kReserveFull) 8 (Example.mid kReserveFull));
    [apply Example.opts_fine|apply Example.mid_reachable].
Defined.

Lemma enqueue_decision_witness :
  fst (Enqueue 9%positive (mkWorld (<[9%positive := Example.request 7 100 30]> ∅) Example.pool8
         (mkScheduler (Example.opts kReserveFull) [] [] [] [1; 0])))
  = Err (InvalidArgument (ExceedsMaxSeqLen 7 100 30 128)).
Proof.
  rewrite (enqueue_decision (Example.opts kReserveFull) 8 ∅ Example.pool8
             (mkScheduler (Example.opts kReserveFull) [] [] [] [1; 0]) 9%positive (Example.request 7 100 30));
    [by vm_compute|apply Example.opts_fine|apply Example.start_reachable|by vm_compute|apply Example.request_fresh].
Defined.

Lemma plan_makes_progress_witness : plan_empty (Example.planned Example.exhausted) = false.
Proof.
  apply (plan_makes_progress (Example.opts kWatermark) 8 Example.exhausted _ (Example.next Example.exhausted));
    [apply Example.opts_fine|apply Example.exhausted_reachable|apply Example.exhausted_plan|by vm_compute].
Defined.

Lemma engine_drains_witness :
  total_work (Example.world kReserveFull) = 48%nat ∧
  ∃ res w', run_steps Example.tokens 48 (Example.world kReserveFull) = (Ok res, w') ∧ live (w_sched w') = [].
Proof.
  split; [by vm_compute|].
  apply (engine_drains (Example.opts kReserveFull) 8 Example.tokens (Example.world kReserveFull));
    [apply Example.opts_fine|apply Example.world_reachable|apply Example.tokens_ok].
Defined.

Lemma can_admit_can_reserve_witness :
  ∃ b, CanAdmit (Example.request 5 48 40) (Example.mid kWatermark) = (Ok b, Example.mid kWatermark) ∧
    (b = true → target (Example.opts kWatermark) (Example.request 5 48 40) <=
       ka_free_blocks (w_alloc (Example.mid kWatermark)) - ka_reserved_blocks (w_alloc (Example.mid kWatermark))).
Proof.
  apply (can_admit_can_reserve (Example.opts kWatermark) 8 (Example.mid kWatermark));
    [apply Example.opts_fine|apply Example.mid_reachable|by repeat split].
Defined.

Lemma stop_decision_witness :
  result_for (Example.opts kReserveFull) (Example.request 0 20 1) 151645 = mkStepResult 0 151645 true kEos.
Proof.
  destruct (stop_decision (Example.opts kReserveFull) (Example.request 0 20 1) 151645
    (Example.opts_fine _) ltac:(by repeat split) ltac:(done)) as [_ Hr].
  rewrite Hr. by vm_compute.
Defined.
