(* ===== verification/ModelConfig.v ===== *)
(** * The model configuration record ([core/config.hpp])

    The dimensions the rest of the engine reads, with the KV-cache size and the
    stop-set test.  Config.v holds the parser that produces it. *)

From S2P Require Import Prelude Doubles Types.

(** [float]: the standard library's executable binary32. *)
Definition float32 : Type := SpecFloat.spec_float.

Record ModelConfig : Type := mkModelConfig {
  hidden_size : Z;
  num_layers : Z;
  num_q_heads : Z;
  num_kv_heads : Z;
  head_dim : Z;
  intermediate_size : Z;
  vocab_size : Z;
  rms_norm_eps : float32;
  rope_theta : float32;
  max_position_embeddings : Z;
  tie_word_embeddings : bool;
  qkv_bias : bool;
  cfg_eos_token_ids : list TokenId;
}.

(** [ModelConfig::IsEosToken] *)
Definition config_IsEosToken (c : ModelConfig) (t : TokenId) : bool :=
  bool_decide (t ∈ cfg_eos_token_ids c).

(** FP16 KV bytes per token over all layers, as the code multiplies them and as
    a number. *)
Definition KvBytesPerToken (c : ModelConfig) : outcome error Z :=
  product64 2 [num_layers c; num_kv_heads c; head_dim c; 2].

Definition kv_token_bytes (c : ModelConfig) : Z :=
  2 * num_layers c * num_kv_heads c * head_dim c * 2.

(** The pinned checkpoint (docs/MODEL_SPEC.md): 1e-6 and 1e6 as binary32. *)
Definition qwen25 : ModelConfig :=
  mkModelConfig 1536 28 12 2 128 8960 151936
    (SpecFloat.S754_finite false 8796093 (-43)) (SpecFloat.S754_finite false 16000000 (-4))
    32768 true true [151645; 151643].

Lemma qwen25_kv_bytes : KvBytesPerToken qwen25 = Ok 28672.
Proof. done. Qed.
