(* ===== verification/GemmConfig.v ===== *)
(** * GEMM configurations ([gemm/cublaslt_gemm.{hpp,cpp}])

    The tuple that identifies one matrix product, its three factories, the
    validation that precedes a descriptor build, and the storage the product
    touches.  The theorems give the row-major meaning of the column-major
    products and show that the batched prefill products never write an element
    twice. *)

From S2P Require Import Prelude Doubles Types.

(** The values of the library enumerations the code names. *)
Inductive cublasOperation : Type := CUBLAS_OP_N | CUBLAS_OP_T | CUBLAS_OP_C.
Inductive cudaDataType : Type := CUDA_R_16F | CUDA_R_32F | CUDA_R_other.
Inductive GemmEpilogue : Type := EpilogueNone | EpilogueBias.

#[export] Instance cublasOperation_eq_dec : EqDecision cublasOperation.
Proof. solve_decision. Defined.
#[export] Instance cudaDataType_eq_dec : EqDecision cudaDataType.
Proof. solve_decision. Defined.
#[export] Instance GemmEpilogue_eq_dec : EqDecision GemmEpilogue.
Proof. solve_decision. Defined.

Record GemmConfig : Type := mkGemmConfig {
  g_m : Z; g_n : Z; g_k : Z;
  op_a : cublasOperation; op_b : cublasOperation;
  lda : Z; ldb : Z; ldd : Z;
  type_d : cudaDataType;
  epilogue : GemmEpilogue;
  batch : Z; stride_a : Z; stride_b : Z; stride_d : Z;
  min_align_a_bytes : Z; min_align_b_bytes : Z; min_align_d_bytes : Z;
}.

#[export] Instance GemmConfig_eq_dec : EqDecision GemmConfig.
Proof. solve_decision. Defined.

(** ** Factories *)

Definition Linear (rows out_features in_features act_row_stride out_row_stride : Z)
    (e : GemmEpilogue) : GemmConfig :=
  mkGemmConfig out_features rows in_features CUBLAS_OP_T CUBLAS_OP_N
    in_features act_row_stride out_row_stride CUDA_R_16F e 1 0 0 0 16 16 16.

Definition PrefillScores (chunk_rows ctx head_dim heads_per_group q_row_stride : Z) : GemmConfig :=
  mkGemmConfig ctx chunk_rows head_dim CUBLAS_OP_T CUBLAS_OP_N
    head_dim q_row_stride ctx CUDA_R_32F EpilogueNone heads_per_group
    0
    (if 1 <? heads_per_group then head_dim else 0)
    (if 1 <? heads_per_group then chunk_rows * ctx else 0)
    16 16 4.

Definition PrefillPv (chunk_rows ctx head_dim heads_per_group out_row_stride : Z) : GemmConfig :=
  mkGemmConfig head_dim chunk_rows ctx CUBLAS_OP_N CUBLAS_OP_N
    head_dim ctx out_row_stride CUDA_R_16F EpilogueNone heads_per_group
    0
    (if 1 <? heads_per_group then chunk_rows * ctx else 0)
    (if 1 <? heads_per_group then head_dim else 0)
    16 2 16.

(** ** Validation *)

Definition IsPowerOfTwo (value : Z) : bool :=
  (0 <? value) && (Z.land value (value - 1) =? 0).

Definition stored_rows_a (c : GemmConfig) : Z := if decide (op_a c = CUBLAS_OP_N) then g_m c else g_k c.
Definition stored_cols_a (c : GemmConfig) : Z := if decide (op_a c = CUBLAS_OP_N) then g_k c else g_m c.
Definition stored_rows_b (c : GemmConfig) : Z := if decide (op_b c = CUBLAS_OP_N) then g_k c else g_n c.
Definition stored_cols_b (c : GemmConfig) : Z := if decide (op_b c = CUBLAS_OP_N) then g_n c else g_k c.

Definition is_op_n_or_t (op : cublasOperation) : bool :=
  bool_decide (op = CUBLAS_OP_N) || bool_decide (op = CUBLAS_OP_T).

(** The checks in their order; the first failing one is the error. *)
Definition config_checks (c : GemmConfig) : list (bool * string) :=
  [ ((g_m c <? 1) || (g_n c <? 1) || (g_k c <? 1), "m, n, k must all be >= 1"%string);
    (negb (is_op_n_or_t (op_a c)), "op_a must be N or T"%string);
    (negb (is_op_n_or_t (op_b c)), "op_b must be N or T"%string);
    (lda c <? stored_rows_a c, "lda smaller than the stored A row count"%string);
    (ldb c <? stored_rows_b c, "ldb smaller than the stored B row count"%string);
    (ldd c <? g_m c, "ldd smaller than m"%string);
    (negb (bool_decide (type_d c = CUDA_R_16F)) && negb (bool_decide (type_d c = CUDA_R_32F)),
      "type_d must be CUDA_R_16F or CUDA_R_32F"%string);
    (batch c <? 1, "batch must be >= 1"%string);
    ((1 <? batch c) && ((stride_a c <? 0) || (stride_b c <? 0) || (stride_d c <? 0)),
      "batch strides must be non-negative"%string);
    ((1 <? batch c) && (stride_d c =? 0), "stride_d of 0 would overlap batched outputs"%string);
    (bool_decide (epilogue c = EpilogueBias) && negb (batch c =? 1),
      "the bias epilogue is only used non-batched (qkv projection)"%string);
    (bool_decide (epilogue c = EpilogueBias) && negb (bool_decide (type_d c = CUDA_R_16F)),
      "the bias epilogue requires FP16 D"%string);
    (negb (IsPowerOfTwo (min_align_a_bytes c)) || negb (IsPowerOfTwo (min_align_b_bytes c)) ||
     negb (IsPowerOfTwo (min_align_d_bytes c)), "minimum alignments must be powers of two"%string) ].

Fixpoint first_reason (l : list (bool * string)) : option string :=
  match l with
  | [] => None
  | (bad, why) :: l' => if bad then Some why else first_reason l'
  end.

Definition ValidateConfig (c : GemmConfig) : outcome error () :=
  match first_reason (config_checks c) with
  | Some why => Err (GemmError why)
  | None => Ok ()
  end.

(** Strides of a non-batched product are meaningless and zeroed. *)
Definition Normalized (c : GemmConfig) : GemmConfig :=
  if batch c =? 1 then
    mkGemmConfig (g_m c) (g_n c) (g_k c) (op_a c) (op_b c) (lda c) (ldb c) (ldd c) (type_d c)
      (epilogue c) (batch c) 0 0 0 (min_align_a_bytes c) (min_align_b_bytes c) (min_align_d_bytes c)
  else c.

(** ** The hash of the cache key, in [uint64] arithmetic *)

Definition u32 (z : Z) : Z := z mod 2 ^ 32.

Definition operation_code (op : cublasOperation) : Z :=
  match op with CUBLAS_OP_N => 0 | CUBLAS_OP_T => 1 | CUBLAS_OP_C => 2 end.
Definition data_type_code (t : cudaDataType) : Z :=
  match t with CUDA_R_32F => 0 | CUDA_R_16F => 2 | CUDA_R_other => 14 end.
Definition epilogue_code (e : GemmEpilogue) : Z :=
  match e with EpilogueNone => 0 | EpilogueBias => 1 end.

Definition mix (h value : Z) : Z :=
  let value := u64 (value * 0xbf58476d1ce4e5b9) in
  let value := Z.lxor value (Z.shiftr value 31) in
  u64 (Z.lxor h value * 0x94d049bb133111eb).

Definition hash_fields (c : GemmConfig) : list Z :=
  [ u32 (g_m c); u32 (g_n c); u32 (g_k c); u32 (operation_code (op_a c)); u32 (operation_code (op_b c));
    u64 (lda c); u64 (ldb c); u64 (ldd c); u32 (data_type_code (type_d c));
    u32 (epilogue_code (epilogue c)); u32 (batch c); u64 (stride_a c); u64 (stride_b c); u64 (stride_d c);
    u32 (min_align_a_bytes c); u32 (min_align_b_bytes c); u32 (min_align_d_bytes c) ].

Definition GemmConfigHash (c : GemmConfig) : Z :=
  let h := foldl mix 0x9e3779b97f4a7c15 (hash_fields c) in
  Z.lxor h (Z.shiftr h 32).

(** ** Facts *)

Lemma IsPowerOfTwo_pow k : 0 <= k → IsPowerOfTwo (2 ^ k) = true.
Proof.
  intros Hk. unfold IsPowerOfTwo. apply andb_true_iff. pose proof (Z.pow_pos_nonneg 2 k ltac:(lia) Hk).
  split; [by apply Z.ltb_lt|]. apply Z.eqb_eq.
  replace (2 ^ k - 1) with (Z.ones k) by (rewrite Z.ones_equiv; lia). rewrite Z.land_ones by done.
  by rewrite Z.mod_same by lia.
Qed.

Lemma IsPowerOfTwo_inv v : IsPowerOfTwo v = true → v = 2 ^ Z.log2 v.
Proof.
  unfold IsPowerOfTwo. rewrite andb_true_iff, Z.ltb_lt, Z.eqb_eq. intros [Hpos Hland].
  pose proof (Z.log2_spec v Hpos) as [Hlo Hhi]. pose proof (Z.log2_nonneg v).
  destruct (Z.eq_dec v (2 ^ Z.log2 v)) as [|Hne]; [done|exfalso].
  assert (Z.testbit (Z.land v (v - 1)) (Z.log2 v) = true) as Hbit.
  { rewrite Z.land_spec, Z.bit_log2 by done. cbn [andb].
    replace (Z.log2 v) with (Z.log2 (v - 1)); [apply Z.bit_log2; lia|].
    apply Z.log2_unique; lia. }
  by rewrite Hland, Z.testbit_0_l in Hbit.
Qed.

Lemma Normalized_idemp c : Normalized (Normalized c) = Normalized c.
Proof. unfold Normalized. destruct (batch c =? 1) eqn:Hb; cbn; by rewrite Hb. Qed.

Lemma first_reason_none l : first_reason l = None ↔ Forall (λ x, fst x = false) l.
Proof.
  induction l as [|[bad why] l IH]; cbn; [by split|].
  destruct bad; [split; [done|intros H; by inversion H]|]. rewrite IH. split; [by constructor|].
  intros H. by inversion H.
Qed.

Lemma ValidateConfig_ok c : ValidateConfig c = Ok () ↔ Forall (λ x, fst x = false) (config_checks c).
Proof.
  rewrite <- first_reason_none. unfold ValidateConfig. by destruct (first_reason (config_checks c)).
Qed.

(** What validation establishes. *)
Record config_ok (c : GemmConfig) : Prop := {
  co_dims : 1 <= g_m c ∧ 1 <= g_n c ∧ 1 <= g_k c;
  co_ops : op_a c ≠ CUBLAS_OP_C ∧ op_b c ≠ CUBLAS_OP_C;
  co_lds : stored_rows_a c <= lda c ∧ stored_rows_b c <= ldb c ∧ g_m c <= ldd c;
  co_type : type_d c ≠ CUDA_R_other;
  co_batch : 1 <= batch c;
  co_strides : 1 < batch c → 0 <= stride_a c ∧ 0 <= stride_b c ∧ 0 < stride_d c;
  co_bias : epilogue c = EpilogueBias → batch c = 1 ∧ type_d c = CUDA_R_16F;
  co_aligns : IsPowerOfTwo (min_align_a_bytes c) = true ∧ IsPowerOfTwo (min_align_b_bytes c) = true ∧
    IsPowerOfTwo (min_align_d_bytes c) = true;
}.

Lemma ValidateConfig_spec c : ValidateConfig c = Ok () ↔ config_ok c.
Proof.
  rewrite ValidateConfig_ok. unfold config_checks. rewrite !Forall_cons. cbn [fst].
  rewrite !orb_false_iff, !andb_false_iff, !negb_false_iff, !orb_false_iff, !bool_decide_eq_false,
    !bool_decide_eq_true, !Z.ltb_ge, !Z.eqb_neq, !Z.eqb_eq.
  unfold is_op_n_or_t. rewrite !orb_true_iff, !bool_decide_eq_true. split.
  - intros (Hd & Ha & Hb & H1 & H2 & H3 & Ht & Hn & Hs & Hz & He1 & He2 & Hal & _).
    split; [lia| |lia| |lia|lia| |tauto].
    + split; intros Heq; rewrite Heq in *; naive_solver.
    + intros Heq; rewrite Heq in *; naive_solver.
    + intros He. split; [destruct He1; [done|lia]|destruct He2; done].
  - intros [? [Ha Hb] ? ? ? ? He ?].
    assert (type_d c = CUDA_R_16F ∨ type_d c = CUDA_R_32F) by (destruct (type_d c); naive_solver).
    assert (epilogue c ≠ EpilogueBias ∨ batch c = 1 ∧ type_d c = CUDA_R_16F).
    { destruct (decide (epilogue c = EpilogueBias)); [right; by apply He|by left]. }
    assert (op_a c = CUBLAS_OP_N ∨ op_a c = CUBLAS_OP_T) by (destruct (op_a c); tauto).
    assert (op_b c = CUBLAS_OP_N ∨ op_b c = CUBLAS_OP_T) by (destruct (op_b c); tauto).
    split_and!; first [apply Forall_nil; done|tauto|lia].
Qed.

(** ** The factories are valid exactly for sensible extents *)

Lemma pow2_aligns : IsPowerOfTwo 16 = true ∧ IsPowerOfTwo 4 = true ∧ IsPowerOfTwo 2 = true.
Proof. done. Qed.

(** The stored shapes of a factory's operands, computed. *)
Ltac stored := unfold stored_rows_a, stored_rows_b, stored_cols_a, stored_cols_b in *; cbn in *; repeat (case_decide; try done).

Lemma linear_valid rows out inp act_stride out_stride e :
  ValidateConfig (Linear rows out inp act_stride out_stride e) = Ok () ↔
  1 <= rows ∧ 1 <= out ∧ 1 <= inp ∧ inp <= act_stride ∧ out <= out_stride.
Proof.
  rewrite ValidateConfig_spec. split.
  - intros [? _ Hl _ _ _ _ _]. stored; lia.
  - intros ?. split; cbn; try done; try lia. stored; lia.
Qed.

Lemma scores_valid rows ctx hd heads q_stride :
  ValidateConfig (PrefillScores rows ctx hd heads q_stride) = Ok () ↔
  1 <= rows ∧ 1 <= ctx ∧ 1 <= hd ∧ 1 <= heads ∧ hd <= q_stride.
Proof.
  rewrite ValidateConfig_spec. split.
  - intros [? _ Hl _ ? _ _ _]. stored; lia.
  - intros ?. split; cbn; try done; try lia; [stored; lia|].
    intros Hh. destruct (Z.ltb_spec 1 heads); nia.
Qed.

Lemma pv_valid rows ctx hd heads out_stride :
  ValidateConfig (PrefillPv rows ctx hd heads out_stride) = Ok () ↔
  1 <= rows ∧ 1 <= ctx ∧ 1 <= hd ∧ 1 <= heads ∧ hd <= out_stride.
Proof.
  rewrite ValidateConfig_spec. split.
  - intros [? _ Hl _ ? _ _ _]. stored; lia.
  - intros ?. split; cbn; try done; try lia; [stored; lia|].
    intros Hh. destruct (Z.ltb_spec 1 heads); nia.
Qed.

(** ** Storage

    Matrices are column-major: element [(i, j)] of batch [h] lies at offset
    [h * stride + j * ld + i]; an operand is read through its transposition. *)

Definition a_offset (c : GemmConfig) (h i l : Z) : Z :=
  h * stride_a c + (if decide (op_a c = CUBLAS_OP_N) then l * lda c + i else i * lda c + l).
Definition b_offset (c : GemmConfig) (h l j : Z) : Z :=
  h * stride_b c + (if decide (op_b c = CUBLAS_OP_N) then j * ldb c + l else l * ldb c + j).
Definition d_offset (c : GemmConfig) (h i j : Z) : Z := h * stride_d c + j * ldd c + i.

(** An element of the result. *)
Definition d_index (c : GemmConfig) (h i j : Z) : Prop :=
  0 <= h < batch c ∧ 0 <= i < g_m c ∧ 0 <= j < g_n c.

(** Two digits in a mixed base are determined by their value. *)
Lemma digits_unique w q1 q2 r1 r2 :
  0 <= r1 < w → 0 <= r2 < w → q1 * w + r1 = q2 * w + r2 → q1 = q2 ∧ r1 = r2.
Proof. intros. assert (q1 = q2) by nia. subst. split; lia. Qed.

(** Distinct elements of the result have distinct offsets. *)
Definition no_overlap (c : GemmConfig) : Prop :=
  ∀ h i j h' i' j', d_index c h i j → d_index c h' i' j' →
    d_offset c h i j = d_offset c h' i' j' → h = h' ∧ i = i' ∧ j = j'.

Lemma linear_no_overlap rows out inp act_stride os e :
  out <= os → no_overlap (Linear rows out inp act_stride os e).
Proof.
  unfold no_overlap, d_index, d_offset. cbn. intros Hos h i j h' i' j' ?? Heq.
  destruct (digits_unique os j j' i i'); lia.
Qed.

Lemma scores_no_overlap rows ctx hd heads qs : no_overlap (PrefillScores rows ctx hd heads qs).
Proof.
  unfold no_overlap, d_index, d_offset. cbn. intros h i j h' i' j' ?? Heq.
  destruct (Z.ltb_spec 1 heads).
  - destruct (digits_unique (rows * ctx) h h' (j * ctx + i) (j' * ctx + i')) as [? Hr]; [nia..|].
    destruct (digits_unique ctx j j' i i'); lia.
  - destruct (digits_unique ctx j j' i i'); lia.
Qed.

Lemma pv_no_overlap rows ctx hd heads os :
  heads * hd <= os → no_overlap (PrefillPv rows ctx hd heads os).
Proof.
  unfold no_overlap, d_index, d_offset. cbn. intros Hos h i j h' i' j' ?? Heq.
  destruct (Z.ltb_spec 1 heads).
  - destruct (digits_unique os j j' (h * hd + i) (h' * hd + i')) as [? Hr]; [nia|nia|lia|].
    destruct (digits_unique hd h h' i i'); lia.
  - destruct (digits_unique os j j' i i'); [nia|nia|lia|lia].
Qed.

(** Offsets of the packed scores and of the interleaved attention output. *)
Lemma scores_d_offset rows ctx hd heads qs h s t :
  0 <= h < heads → d_offset (PrefillScores rows ctx hd heads qs) h s t = h * (rows * ctx) + t * ctx + s.
Proof.
  intros. unfold d_offset. cbn. destruct (Z.ltb_spec 1 heads); [lia|]. replace h with 0 by lia. lia.
Qed.

Lemma pv_d_offset rows ctx hd heads os h d t :
  0 <= h < heads → d_offset (PrefillPv rows ctx hd heads os) h d t = t * os + h * hd + d.
Proof.
  intros. unfold d_offset. cbn. destruct (Z.ltb_spec 1 heads); [lia|]. replace h with 0 by lia. lia.
Qed.

(** ** Row-major meaning

    [matmul] is the vendor library's product.  What the code relies on is its
    documented result: [D = alpha op(A) op(B) + beta C], here with [beta = 0] so
    that the old contents of [D] are not read, then the epilogue - the bias
    vector's element [i] added to row [i] - and the conversion to [D]'s type.
    So element [(i, j)] of batch [h] combines row [i] of [op(A)] with column
    [j] of [op(B)], and no other element of memory is written ([None]).  How
    products are accumulated ([dot]), scaled, biased and rounded ([store]) is
    the library's business, as are the operand types.  Nothing is promised for
    a result whose elements overlap in memory. *)

Section meaning.
Context {T S R K : Type}.
Variable dot : list (T * T) → S.

(** Row [i] of [op(A)] against column [j] of [op(B)]. *)
Definition product (c : GemmConfig) (a b : Z → T) (h i j : Z) : S :=
  dot (map (λ l, (a (a_offset c h i l), b (b_offset c h l j))) (seqZ 0 (g_k c))).

Variable scale : K → S → S.
Variable add_bias : S → T → S.
Variable store : cudaDataType → S → R.
Variable matmul : GemmConfig → K → (Z → T) → (Z → T) → (Z → T) → Z → option R.

(** The epilogue and the conversion, for one element of result row [i]. *)
Definition finish (t : cudaDataType) (e : GemmEpilogue) (alpha : K) (bias : Z → T) (i : Z) (s : S) : R :=
  store t (if decide (e = EpilogueBias) then add_bias (scale alpha s) (bias i) else scale alpha s).

Definition matmul_documented : Prop :=
  ∀ c alpha a b bias, ValidateConfig c = Ok () → no_overlap c →
    (∀ h i j, d_index c h i j → matmul c alpha a b bias (d_offset c h i j) =
       Some (finish (type_d c) (epilogue c) alpha bias i (product c a b h i j))) ∧
    (∀ x, (∀ h i j, d_index c h i j → x ≠ d_offset c h i j) → matmul c alpha a b bias x = None).

(** One element of a product, at its offset. *)
Lemma product_at c alpha a b bias h i j at_ (f : Z → T * T) :
  matmul_documented → ValidateConfig c = Ok () → no_overlap c → d_index c h i j →
  at_ = d_offset c h i j → (∀ l, (a (a_offset c h i l), b (b_offset c h l j)) = f l) →
  matmul c alpha a b bias at_ = Some (finish (type_d c) (epilogue c) alpha bias i (dot (map f (seqZ 0 (g_k c))))).
Proof.
  intros Hdoc Hv Hn Hd -> Hf. rewrite (proj1 (Hdoc c alpha a b bias Hv Hn)) by done. unfold product.
  by rewrite (map_ext _ f) by done.
Qed.

(** C18. The column-major products compute the row-major layers they stand for,
    write no element twice and nothing else.  A linear layer of row-major
    weights [w] gives, at row [r] and feature [f], the scaled product of row [r]
    of the activation with row [f] of the weights, plus bias [f] under the bias
    epilogue; the scores of head [h] pair query row [t] with key row [s]; the
    output pairs the probabilities of row [t] with column [d] of the values.
    Head [h] reads its queries and writes its output at column [h * head_dim] of
    the token's row, which is why the row holds all heads.  Distinct elements of
    each result lie at distinct offsets, and a place that is none of these
    offsets - the padding of a strided row, the other columns - is not written. *)
Theorem row_major_products (rows out inp act_stride out_stride ctx hd heads q_stride o_stride : Z) e alpha bias :
  matmul_documented →
  1 <= rows ∧ 1 <= out ∧ 1 <= inp ∧ inp <= act_stride ∧ out <= out_stride →
  1 <= ctx ∧ 1 <= hd ∧ 1 <= heads ∧ heads * hd <= q_stride ∧ heads * hd <= o_stride →
  let linear := Linear rows out inp act_stride out_stride e in
  let scores := PrefillScores rows ctx hd heads q_stride in
  let pv := PrefillPv rows ctx hd heads o_stride in
  (no_overlap linear ∧ no_overlap scores ∧ no_overlap pv) ∧
  (∀ w act, (∀ r f, 0 <= r < rows → 0 <= f < out →
       matmul linear alpha w act bias (r * out_stride + f) = Some (finish CUDA_R_16F e alpha bias f
         (dot (map (λ l, (w (f * inp + l), act (r * act_stride + l))) (seqZ 0 inp))))) ∧
     ∀ x, (∀ r f, 0 <= r < rows → 0 <= f < out → x ≠ r * out_stride + f) → matmul linear alpha w act bias x = None) ∧
  (∀ khat q, (∀ h t s, 0 <= h < heads → 0 <= t < rows → 0 <= s < ctx →
       matmul scores alpha khat q bias (h * (rows * ctx) + t * ctx + s) = Some (finish CUDA_R_32F EpilogueNone alpha bias s
         (dot (map (λ l, (khat (s * hd + l), q (t * q_stride + h * hd + l))) (seqZ 0 hd))))) ∧
     ∀ x, (∀ h t s, 0 <= h < heads → 0 <= t < rows → 0 <= s < ctx → x ≠ h * (rows * ctx) + t * ctx + s) →
       matmul scores alpha khat q bias x = None) ∧
  (∀ vhat probs, (∀ h t d, 0 <= h < heads → 0 <= t < rows → 0 <= d < hd →
       matmul pv alpha vhat probs bias (t * o_stride + h * hd + d) = Some (finish CUDA_R_16F EpilogueNone alpha bias d
         (dot (map (λ l, (vhat (l * hd + d), probs (h * (rows * ctx) + t * ctx + l))) (seqZ 0 ctx))))) ∧
     ∀ x, (∀ h t d, 0 <= h < heads → 0 <= t < rows → 0 <= d < hd → x ≠ t * o_stride + h * hd + d) →
       matmul pv alpha vhat probs bias x = None).
Proof.
  intros Hdoc Hlin Hatt linear scores pv.
  assert (no_overlap linear) as Nl by (apply linear_no_overlap; lia).
  assert (no_overlap scores) as Ns by apply scores_no_overlap.
  assert (no_overlap pv) as Np by (apply pv_no_overlap; lia).
  assert (ValidateConfig linear = Ok ()) as Vl by (by apply linear_valid).
  assert (ValidateConfig scores = Ok ()) as Vs by (apply scores_valid; nia).
  assert (ValidateConfig pv = Ok ()) as Vp by (apply pv_valid; nia).
  split; [done|]. split; [|split]; intros a b; split.
  - intros r f Hr Hf. apply (product_at linear alpha a b bias 0 f r);
      [done..|unfold d_index; cbn; lia|unfold d_offset; cbn; lia|].
    intros l. unfold a_offset, b_offset. cbn. repeat (case_decide; try done).
  - intros x Hx. apply (proj2 (Hdoc linear alpha a b bias Vl Nl)). unfold d_index, d_offset. cbn. intros h i j Hd.
    replace h with 0 by lia. apply (Hx j i); lia.
  - intros h t s Hh Ht Hs. apply (product_at scores alpha a b bias h s t);
      [done..|unfold d_index; cbn; lia|by unfold scores; rewrite scores_d_offset|].
    intros l. unfold a_offset, b_offset. cbn. repeat (case_decide; try done).
    destruct (Z.ltb_spec 1 heads); [do 2 f_equal; lia|]. replace h with 0 by lia. do 2 f_equal; lia.
  - intros x Hx. apply (proj2 (Hdoc scores alpha a b bias Vs Ns)). unfold d_index. cbn. intros h i j Hd.
    unfold scores. rewrite scores_d_offset by lia. apply Hx; lia.
  - intros h t d Hh Ht Hd. apply (product_at pv alpha a b bias h d t);
      [done..|unfold d_index; cbn; lia|by unfold pv; rewrite pv_d_offset|].
    intros l. unfold a_offset, b_offset. cbn. repeat (case_decide; try done).
    destruct (Z.ltb_spec 1 heads); [do 2 f_equal; lia|]. replace h with 0 by lia. do 2 f_equal; lia.
  - intros x Hx. apply (proj2 (Hdoc pv alpha a b bias Vp Np)). unfold d_index. cbn. intros h i j Hd.
    unfold pv. rewrite pv_d_offset by lia. apply Hx; lia.
Qed.

End meaning.

(** A product library on integers that keeps the documented promise: it looks
    up which element lies at the offset and computes it. *)
Module ProductExample.

Definition dot (l : list (Z * Z)) : Z := sumZ (map (λ x, fst x * snd x) l).

Definition indices (c : GemmConfig) : list (Z * Z * Z) :=
  h ← seqZ 0 (batch c); i ← seqZ 0 (g_m c); j ← seqZ 0 (g_n c); [(h, i, j)].

Definition matmul (c : GemmConfig) (alpha : Z) (a b bias : Z → Z) (at_ : Z) : option Z :=
  match List.find (λ '(h, i, j), d_offset c h i j =? at_) (indices c) with
  | Some (h, i, j) => Some (finish Z.mul Z.add (λ _ x, x) (type_d c) (epilogue c) alpha bias i (product dot c a b h i j))
  | None => None
  end.

Lemma indices_elem c h i j : (h, i, j) ∈ indices c ↔ d_index c h i j.
Proof.
  unfold indices, d_index. setoid_rewrite list_elem_of_bind. setoid_rewrite list_elem_of_bind.
  setoid_rewrite list_elem_of_bind. setoid_rewrite list_elem_of_singleton.
  setoid_rewrite elem_of_seqZ. split.
  - intros (h' & (i' & (j' & Heq & ?) & ?) & ?). simplify_eq. lia.
  - intros ?. exists h. split; [|lia]. exists i. split; [|lia]. exists j. split; [done|lia].
Qed.

Lemma matmul_ok : matmul_documented dot Z.mul Z.add (λ _ x, x) matmul.
Proof.
  intros c alpha a b bias _ Hno. split.
  - intros h i j Hd. unfold matmul. pose proof Hd as Hin. apply indices_elem in Hin.
    destruct (List.find _ _) as [[[h' i'] j']|] eqn:Hf.
    + apply find_some in Hf as [Hin' Heq%Z.eqb_eq]. apply list_elem_of_In, indices_elem in Hin'.
      by destruct (Hno _ _ _ _ _ _ Hin' Hd Heq) as (-> & -> & ->).
    + apply list_elem_of_In in Hin. pose proof (find_none _ _ Hf _ Hin) as Hn. cbn in Hn. by rewrite Z.eqb_refl in Hn.
  - intros x Hx. unfold matmul. destruct (List.find _ _) as [[[h i] j]|] eqn:Hf; [|done].
    apply find_some in Hf as [Hin Heq%Z.eqb_eq]. apply list_elem_of_In, indices_elem in Hin. by destruct (Hx h i j Hin).
Qed.

End ProductExample.

(** Two rows of three features with a bias, rows five apart: row 1, feature 2. *)
Lemma row_major_products_witness :
  ProductExample.matmul (Linear 2 3 4 4 5 EpilogueBias) 7 (λ x, x) (λ x, x) (λ x, 100 + x) (1 * 5 + 2) =
  Some (7 * ProductExample.dot (map (λ l, (2 * 4 + l, 1 * 4 + l)) (seqZ 0 4)) + 102) ∧
  ProductExample.matmul (Linear 2 3 4 4 5 EpilogueBias) 7 (λ x, x) (λ x, x) (λ x, 100 + x) 3 = None.
Proof.
  destruct (row_major_products ProductExample.dot Z.mul Z.add (λ _ x, x) ProductExample.matmul
    2 3 4 4 5 5 8 2 16 16 EpilogueBias 7 (λ x, 100 + x) ProductExample.matmul_ok ltac:(lia) ltac:(lia)) as (_ & Hl & _).
  destruct (Hl (λ x, x) (λ x, x)) as [Hv Hn]. split; [by rewrite Hv by lia|]. apply Hn. intros r f ? ?. lia.
Defined.
