(* ===== verification/Gemm.v ===== *)
(** * The cuBLASLt wrapper and its plan cache ([gemm/cublaslt_gemm.{hpp,cpp}])

    The vendor library is a parameter ([LtLibrary]): what its calls answer.
    The object keeps, besides the C++ members, the sequence of library calls it
    has made, so that "no heuristic query while a stream is capturing" is a
    statement about that sequence. *)

From S2P Require Import Prelude Doubles Types ModelConfig GemmConfig.

(** ** What the vendor library answers *)

Inductive cublasStatus : Type := CUBLAS_SUCCESS | CUBLAS_NOT_SUPPORTED | CUBLAS_failure (name : string).

Record HeuristicResult (Algo : Type) : Type := mkResult {
  r_state : cublasStatus;
  r_workspaceSize : Z;
  r_wavesCount : float32;
  r_algo : Algo;
}.
Arguments mkResult {Algo}.
Arguments r_state {Algo}.
Arguments r_workspaceSize {Algo}.
Arguments r_wavesCount {Algo}.
Arguments r_algo {Algo}.

Inductive AlgoAttr : Type :=
  | CONFIG_ID | TILE_ID | STAGES_ID | SPLITK_NUM | REDUCTION_SCHEME | CTA_SWIZZLING | CUSTOM_OPTION.

(** A stored matrix, as the library is told about it. *)
Record Layout : Type := mkLayout {
  lay_type : cudaDataType; lay_rows : Z; lay_cols : Z; lay_ld : Z;
  lay_batch : option (Z * Z);
}.

(** The operation descriptor, the four layouts and the preference. *)
Record Descriptors : Type := mkDescriptors {
  d_transa : cublasOperation; d_transb : cublasOperation;
  d_bias_type : option cudaDataType;
  layout_a : Layout; layout_b : Layout; layout_c : Layout; layout_d : Layout;
  pref_workspace : Z; pref_align_a : Z; pref_align_b : Z; pref_align_c : Z; pref_align_d : Z;
}.

Inductive StreamCapture : Type := CaptureNone | CaptureActive | CaptureInvalidated.

Inductive LtCall : Type :=
  | CallDescriptors (d : Descriptors)
  | CallHeuristic (d : Descriptors) (requested : Z)
  | CallIsCapturing
  | CallSetBias
  | CallMatmul (c : GemmConfig).

Record LtLibrary (Algo : Type) : Type := mkLt {
  lt_create : cublasStatus;
  lt_malloc : Z → bool;
  lt_device : option (string * Z * Z);
  lt_version : Z;
  lt_descriptors : Descriptors → option string;
  lt_heuristic : Descriptors → cublasStatus * list (HeuristicResult Algo);
  lt_attr : Algo → AlgoAttr → option Z;
  lt_set_bias : GemmConfig → cublasStatus;
  lt_matmul : GemmConfig → Algo → cublasStatus;
}.
Arguments lt_create {Algo}.
Arguments lt_malloc {Algo}.
Arguments lt_device {Algo}.
Arguments lt_version {Algo}.
Arguments lt_descriptors {Algo}.
Arguments lt_heuristic {Algo}.
Arguments lt_attr {Algo}.
Arguments lt_set_bias {Algo}.
Arguments lt_matmul {Algo}.

(** ** The object *)

Record Plan (Algo : Type) : Type := mkPlan {
  p_config : GemmConfig;
  p_tag : string;
  p_available : bool;
  p_algo : option Algo;
  p_algo_workspace_bytes : Z;
  p_waves_count : float32;
  p_attrs : AlgoAttr → Z;
}.
Arguments mkPlan {Algo}.
Arguments p_config {Algo}.
Arguments p_tag {Algo}.
Arguments p_available {Algo}.
Arguments p_algo {Algo}.
Arguments p_algo_workspace_bytes {Algo}.
Arguments p_waves_count {Algo}.
Arguments p_attrs {Algo}.

Record CublasLtGemm (Algo : Type) : Type := mkGemm {
  handle_ : bool;
  workspace_ : bool;
  workspace_bytes_ : Z;
  device_name_ : string;
  cc_major_ : Z;
  cc_minor_ : Z;
  cublaslt_version_ : Z;
  plans_ : list (Plan Algo);
  plan_index_ : list (GemmConfig * nat);
  lt_log : list LtCall;
}.
Arguments mkGemm {Algo}.
Arguments handle_ {Algo}.
Arguments workspace_ {Algo}.
Arguments workspace_bytes_ {Algo}.
Arguments device_name_ {Algo}.
Arguments cc_major_ {Algo}.
Arguments cc_minor_ {Algo}.
Arguments cublaslt_version_ {Algo}.
Arguments plans_ {Algo}.
Arguments plan_index_ {Algo}.
Arguments lt_log {Algo}.

Definition CublasLtGemm_new {Algo} : CublasLtGemm Algo := mkGemm false false 0 "" 0 0 0 [] [] [].

Definition initialized {Algo} (g : CublasLtGemm Algo) : bool := handle_ g.

(** ** Descriptors of a configuration *)

Definition kRequestedAlgos : Z := 8.

Definition batch_attr (c : GemmConfig) (stride : Z) : option (Z * Z) :=
  if 1 <? batch c then Some (batch c, stride) else None.

Definition descriptors_of (workspace_bytes : Z) (c : GemmConfig) : Descriptors :=
  let layout_cd := mkLayout (type_d c) (g_m c) (g_n c) (ldd c) (batch_attr c (stride_d c)) in
  mkDescriptors (op_a c) (op_b c)
    (if decide (epilogue c = EpilogueBias) then Some CUDA_R_16F else None)
    (mkLayout CUDA_R_16F (stored_rows_a c) (stored_cols_a c) (lda c) (batch_attr c (stride_a c)))
    (mkLayout CUDA_R_16F (stored_rows_b c) (stored_cols_b c) (ldb c) (batch_attr c (stride_b c)))
    layout_cd layout_cd workspace_bytes
    (u32 (min_align_a_bytes c)) (u32 (min_align_b_bytes c)) (u32 (min_align_d_bytes c)) (u32 (min_align_d_bytes c)).

Section gemm.
Context {Algo : Type} (lt : LtLibrary Algo).
Notation GM := (M error (CublasLtGemm Algo)).
Implicit Types (g : CublasLtGemm Algo) (c : GemmConfig).

Definition record_call (k : LtCall) : GM () :=
  modify (λ g, mkGemm (handle_ g) (workspace_ g) (workspace_bytes_ g) (device_name_ g) (cc_major_ g)
                 (cc_minor_ g) (cublaslt_version_ g) (plans_ g) (plan_index_ g) (lt_log g ++ [k])).

Definition CheckCublas (status : cublasStatus) (what : string) : GM () :=
  match status with
  | CUBLAS_SUCCESS => mret ()
  | _ => throw (GemmError what)
  end.

Definition RequireInit : GM () :=
  g ← get;
  if initialized g then mret () else throw (GemmError "Init() must be called before use").

(** [plan_index_.find]: the map holds one entry per key. *)
Definition index_find (l : list (GemmConfig * nat)) c : option nat :=
  snd <$> List.find (λ x, bool_decide (fst x = c)) l.

Definition FindPlan c : GM (option (Plan Algo)) :=
  g ← get;
  match index_find (plan_index_ g) c with
  | None => mret None
  | Some i => p ← from_option_or (UndefinedBehaviour "plans_ index") (plans_ g !! i); mret (Some p)
  end.

(** The first usable result: its state is good and it fits the workspace. *)
Definition select_algo (workspace_bytes : Z) (rs : list (HeuristicResult Algo)) : option (HeuristicResult Algo) :=
  List.find (λ r, match r_state r with CUBLAS_SUCCESS => true | _ => false end &&
                  negb (workspace_bytes <? r_workspaceSize r)) rs.

Definition read_algo_attr (a : Algo) (attr : AlgoAttr) : Z := default (-1) (lt_attr lt a attr).

Definition zero_float : float32 := SpecFloat.S754_zero false.

Definition plan_of c tag (found : option (HeuristicResult Algo)) : Plan Algo :=
  match found with
  | Some r => mkPlan c tag true (Some (r_algo r)) (r_workspaceSize r) (r_wavesCount r) (read_algo_attr (r_algo r))
  | None => mkPlan c tag false None 0 zero_float (λ _, -1)
  end.

(** [plans_.push_back; plan_index_.emplace]: an existing key would be kept. *)
Definition cache_plan (p : Plan Algo) : GM () :=
  modify (λ g, mkGemm (handle_ g) (workspace_ g) (workspace_bytes_ g) (device_name_ g) (cc_major_ g)
                 (cc_minor_ g) (cublaslt_version_ g) (plans_ g ++ [p])
                 (match index_find (plan_index_ g) (p_config p) with
                  | None => plan_index_ g ++ [(p_config p, length (plans_ g))]
                  | Some _ => plan_index_ g
                  end) (lt_log g)).

Definition BuildPlan c (tag : string) : GM (Plan Algo) :=
  match ValidateConfig c with Err e => throw e | Ok _ => mret () end;;
  g ← get;
  let d := descriptors_of (workspace_bytes_ g) c in
  record_call (CallDescriptors d);;
  match lt_descriptors lt d with Some what => throw (GemmError what) | None => mret () end;;
  record_call (CallHeuristic d kRequestedAlgos);;
  let '(status, results) := lt_heuristic lt d in
  found ← match status with
          | CUBLAS_SUCCESS => mret (select_algo (workspace_bytes_ g) results)
          | CUBLAS_NOT_SUPPORTED => mret None
          | CUBLAS_failure _ => throw (GemmError "cublasLtMatmulAlgoGetHeuristic")
          end;
  let plan := plan_of c tag found in
  cache_plan plan;;
  mret plan.

Definition Probe c (tag : string) : GM bool :=
  RequireInit;;
  let normalized := Normalized c in
  cached ← FindPlan normalized;
  match cached with
  | Some plan => mret (p_available plan)
  | None => plan ← BuildPlan normalized tag; mret (p_available plan)
  end.

(** [stream]: what [cudaStreamIsCapturing] answers, or that it fails. *)
Definition PlanFor c (stream : option StreamCapture) (tag : string) : GM (Plan Algo) :=
  cached ← FindPlan c;
  match cached with
  | Some plan => mret plan
  | None =>
      RequireInit;;
      record_call CallIsCapturing;;
      match stream with
      | None => throw (GemmError "cudaStreamIsCapturing failed")
      | Some CaptureNone => BuildPlan c tag
      | Some _ => throw (GemmError "configuration missing from the plan cache while the stream is capturing")
      end
  end.

Definition RunImpl c (stream : option StreamCapture) (tag : string) : GM () :=
  RequireInit;;
  let normalized := Normalized c in
  plan ← PlanFor normalized stream tag;
  algo ← (if p_available plan
          then from_option_or (UndefinedBehaviour "algo of an available plan") (p_algo plan)
          else throw (GemmError "no cuBLASLt algorithm available"));
  (if decide (epilogue normalized = EpilogueBias)
   then record_call CallSetBias;; CheckCublas (lt_set_bias lt normalized) "set CUBLASLT_MATMUL_DESC_BIAS_POINTER"
   else mret ());;
  record_call (CallMatmul normalized);;
  CheckCublas (lt_matmul lt normalized algo) "cublasLtMatmul".

(** ** The run calls *)

Definition GemmFp16 (rows out_features in_features act_row_stride out_row_stride : Z)
    (stream : option StreamCapture) : GM () :=
  RunImpl (Linear rows out_features in_features act_row_stride out_row_stride EpilogueNone) stream "linear".

Definition GemmBiasFp16 (bias_is_null : bool) (rows out_features in_features act_row_stride out_row_stride : Z)
    (stream : option StreamCapture) : GM () :=
  if bias_is_null then throw (GemmError "GemmBiasFp16 requires a non-null bias vector") else
  RunImpl (Linear rows out_features in_features act_row_stride out_row_stride EpilogueBias) stream "linear_bias".

(** The two overloads: half and float results. *)
Definition GemmStridedBatched_half c (stream : option StreamCapture) : GM () :=
  if negb (bool_decide (type_d c = CUDA_R_16F)) then throw (GemmError "FP16-D overload called with config.type_d != CUDA_R_16F") else
  if negb (bool_decide (epilogue c = EpilogueNone)) then throw (GemmError "strided-batched runs do not support epilogues") else
  RunImpl c stream "strided_batched_f16".

Definition GemmStridedBatched_float c (stream : option StreamCapture) : GM () :=
  if negb (bool_decide (type_d c = CUDA_R_32F)) then throw (GemmError "FP32-D overload called with config.type_d != CUDA_R_32F") else
  if negb (bool_decide (epilogue c = EpilogueNone)) then throw (GemmError "strided-batched runs do not support epilogues") else
  RunImpl c stream "strided_batched_f32".

(** ** Initialisation *)

(** The shapes of the model, with the report tags of the self-check. *)
Definition self_check_shapes : list (GemmConfig * string) :=
  let hidden := 1536 in let qkv_out := 2048 in let gate_up := 17920 in let inter := 8960 in
  let vocab := 151936 in let head_dim := 128 in let group := 6 in
  let rows := 1 in let chunk := 64 in let ctx := 256 in
  [ (Linear rows qkv_out hidden hidden qkv_out EpilogueBias, "self_check:qkv_bias"%string);
    (Linear rows qkv_out hidden hidden qkv_out EpilogueNone, "self_check:qkv_plain_fallback"%string);
    (Linear rows hidden hidden hidden hidden EpilogueNone, "self_check:o_proj"%string);
    (Linear rows gate_up hidden hidden gate_up EpilogueNone, "self_check:gate_up"%string);
    (Linear rows hidden inter gate_up hidden EpilogueNone, "self_check:down"%string);
    (Linear rows vocab hidden hidden vocab EpilogueNone, "self_check:lm_head"%string);
    (PrefillScores chunk ctx head_dim group 2048, "self_check:prefill_scores_batched"%string);
    (PrefillScores chunk ctx head_dim 1 2048, "self_check:prefill_scores_per_head"%string);
    (PrefillPv chunk ctx head_dim group 1536, "self_check:prefill_pv_batched"%string);
    (PrefillPv chunk ctx head_dim 1 1536, "self_check:prefill_pv_per_head"%string) ].

Fixpoint probe_all (l : list (GemmConfig * string)) : GM () :=
  match l with
  | [] => mret ()
  | (c, tag) :: l' => Probe c tag;; probe_all l'
  end.

Definition SelfCheckModelShapes : GM () := probe_all self_check_shapes.

Definition set_init (handle ws : bool) (bytes : Z) : GM () :=
  modify (λ g, mkGemm handle ws bytes (device_name_ g) (cc_major_ g) (cc_minor_ g) (cublaslt_version_ g)
                 (plans_ g) (plan_index_ g) (lt_log g)).

Definition set_device (name : string) (major minor version : Z) : GM () :=
  modify (λ g, mkGemm (handle_ g) (workspace_ g) (workspace_bytes_ g) name major minor version
                 (plans_ g) (plan_index_ g) (lt_log g)).

(** A failure after [cublasLtCreate] leaves the handle behind, as the code does. *)
Definition Init (workspace_bytes : Z) : GM () :=
  g ← get;
  (if initialized g then throw (GemmError "Init() called twice") else mret ());;
  (if workspace_bytes =? 0 then throw (GemmError "workspace size must be nonzero") else mret ());;
  CheckCublas (lt_create lt) "cublasLtCreate";;
  set_init true false workspace_bytes;;
  (if lt_malloc lt workspace_bytes then set_init true true workspace_bytes
   else throw (GemmError "cudaMalloc of the shared workspace failed"));;
  match lt_device lt with
  | None => throw (GemmError "cudaGetDeviceProperties")
  | Some (name, major, minor) => set_device name major minor (lt_version lt)
  end;;
  SelfCheckModelShapes.

End gemm.

(** ** The cache invariant *)

Section cache.
Context {Algo : Type} (lt : LtLibrary Algo).
Implicit Types (g : CublasLtGemm Algo) (c : GemmConfig).

(** A cached plan: its key is normalised and valid, and an available plan has
    an algorithm that fits the shared workspace. *)
Record plan_ok (bytes : Z) (p : Plan Algo) : Prop := {
  pk_normal : Normalized (p_config p) = p_config p;
  pk_valid : ValidateConfig (p_config p) = Ok ();
  pk_algo : p_available p = true → is_Some (p_algo p) ∧ p_algo_workspace_bytes p <= bytes;
}.

Record cache_ok g : Prop := {
  ck_plans : Forall (plan_ok (workspace_bytes_ g)) (plans_ g);
  ck_index : ∀ c i, index_find (plan_index_ g) c = Some i ↔ ∃ p, plans_ g !! i = Some p ∧ p_config p = c;
  ck_handle : plans_ g ≠ [] → handle_ g = true;
}.

(** The plan of a key, if any. *)
Definition cached g c : option (Plan Algo) :=
  i ← index_find (plan_index_ g) c; plans_ g !! i.

Lemma cached_Some g c p : cache_ok g → cached g c = Some p → plan_ok (workspace_bytes_ g) p ∧ p_config p = c.
Proof.
  unfold cached. intros [Hp Hi _] Hc. destruct (index_find _ c) as [i|] eqn:Hf; [|done]. cbn in Hc.
  apply Hi in Hf as (p' & Hp' & <-). assert (p' = p) as -> by congruence.
  split; [|done]. by apply (proj1 (Forall_lookup _ _) Hp i).
Qed.

Lemma FindPlan_run g c : cache_ok g → FindPlan c g = (Ok (cached g c), g).
Proof.
  intros [_ Hi _]. unfold FindPlan, cached, mbind, M_bind, get.
  destruct (index_find (plan_index_ g) c) as [i|] eqn:Hf; cbn; [|done].
  apply Hi in Hf as (p & -> & _). done.
Qed.

Lemma cached_none g c : cache_ok g → cached g c = None → index_find (plan_index_ g) c = None.
Proof.
  intros [_ Hi _] Hc. unfold cached in Hc. destruct (index_find _ c) as [i|] eqn:Hf; [|done].
  apply Hi in Hf as (p & Hp & _). cbn in Hc. congruence.
Qed.

Lemma index_find_app l k c : index_find (l ++ k) c =
  match index_find l c with Some i => Some i | None => index_find k c end.
Proof.
  unfold index_find. induction l as [|x l IH]; [done|]. cbn [app List.find].
  destruct (bool_decide _); done.
Qed.

(** States that differ only in their log agree on everything else. *)
Definition same_but_log g g' : Prop :=
  handle_ g' = handle_ g ∧ workspace_bytes_ g' = workspace_bytes_ g ∧ plans_ g' = plans_ g ∧
  plan_index_ g' = plan_index_ g.

Lemma cache_ok_log g g' : same_but_log g g' → cache_ok g → cache_ok g'.
Proof. intros (H1 & H2 & H3 & H4) [? ? ?]. by split; rewrite ?H1, ?H2, ?H3, ?H4. Qed.

(** Adding a plan under a fresh key. *)
Definition with_plan (p : Plan Algo) g : CublasLtGemm Algo :=
  mkGemm (handle_ g) (workspace_ g) (workspace_bytes_ g) (device_name_ g) (cc_major_ g) (cc_minor_ g)
    (cublaslt_version_ g) (plans_ g ++ [p]) (plan_index_ g ++ [(p_config p, length (plans_ g))]) (lt_log g).

Lemma index_fresh_snoc g p c i :
  cache_ok g → cached g (p_config p) = None →
  index_find (plan_index_ g ++ [(p_config p, length (plans_ g))]) c = Some i ↔
  ∃ q, (plans_ g ++ [p]) !! i = Some q ∧ p_config q = c.
Proof.
  intros Hg Hn. pose proof (cached_none _ _ Hg Hn) as Hfresh. pose proof (ck_index _ Hg) as Hi.
  rewrite index_find_app. destruct (index_find (plan_index_ g) c) as [j|] eqn:Hf.
  - apply Hi in Hf as Hp. destruct Hp as (q & Hq & Hqc). pose proof (lookup_lt_Some _ _ _ Hq).
    split; [intros [= <-]; exists q; by rewrite lookup_app_l|].
    intros (q' & Hq' & Hqc'). destruct (decide (i < length (plans_ g))%nat).
    + rewrite lookup_app_l in Hq' by done. rewrite <- Hf. apply Hi. eauto.
    + apply lookup_app_Some in Hq' as [Hq'|[_ Hq']]; [by apply lookup_lt_Some in Hq'|].
      apply list_lookup_singleton_Some in Hq' as [_ <-]. congruence.
  - unfold index_find. cbn. case_bool_decide as Hd; cbn.
    + split; [intros [= <-]; exists p; by rewrite list_lookup_middle|].
      intros (q' & Hq' & Hqc'). apply lookup_app_Some in Hq' as [Hq'|[? Hq']].
      { assert (index_find (plan_index_ g) c = Some i) by (apply Hi; eauto). congruence. }
      apply list_lookup_singleton_Some in Hq' as [? _]. f_equal. lia.
    + split; [done|]. intros (q' & Hq' & Hqc'). apply lookup_app_Some in Hq' as [Hq'|[? Hq']].
      { assert (index_find (plan_index_ g) c = Some i) by (apply Hi; eauto). congruence. }
      apply list_lookup_singleton_Some in Hq' as [_ <-]. done.
Qed.

Lemma cache_ok_with_plan g p :
  cache_ok g → handle_ g = true → plan_ok (workspace_bytes_ g) p → cached g (p_config p) = None →
  cache_ok (with_plan p g).
Proof.
  intros Hg Hh Hp Hn. split; cbn; [|intros; by apply index_fresh_snoc|done].
  apply Forall_app. split; [apply Hg|by constructor].
Qed.

Lemma cached_with_plan g p c :
  cache_ok g → handle_ g = true → plan_ok (workspace_bytes_ g) p → cached g (p_config p) = None →
  cached (with_plan p g) c = if decide (c = p_config p) then Some p else cached g c.
Proof.
  intros Hg Hh Hp Hn. pose proof (cached_none _ _ Hg Hn) as Hfresh.
  unfold cached. cbn [with_plan plans_ plan_index_]. rewrite index_find_app. case_decide as Hd.
  - subst. rewrite Hfresh. unfold index_find. cbn [List.find fst]. rewrite bool_decide_true by done.
    cbn. by rewrite list_lookup_middle.
  - destruct (index_find (plan_index_ g) c) as [i|] eqn:Hf; cbn.
    + apply (ck_index _ Hg) in Hf as (q & Hq & _). rewrite lookup_app_l; [done|by eapply lookup_lt_Some].
    + unfold index_find. cbn. by rewrite bool_decide_false by done.
Qed.

(** ** Building a plan *)

Definition is_heuristic (k : LtCall) : bool := match k with CallHeuristic _ _ => true | _ => false end.

(** The effect of a build: nothing but calls on failure, one plan on success. *)
Definition built c g (r : option (Plan Algo)) g' : Prop :=
  ∃ calls, match r with
           | None => same_but_log g g' ∧ lt_log g' = lt_log g ++ calls
           | Some p => ∃ g1, same_but_log g g1 ∧ lt_log g1 = lt_log g ++ calls ∧ g' = with_plan p g1 ∧
                       p_config p = c ∧ plan_ok (workspace_bytes_ g) p
           end.

Lemma select_algo_fits bytes rs r :
  select_algo bytes rs = Some r → r_workspaceSize (r : HeuristicResult Algo) <= bytes.
Proof.
  unfold select_algo. intros [_ Hr]%find_some. apply andb_true_iff in Hr as [_ Hr].
  apply negb_true_iff, Z.ltb_ge in Hr. lia.
Qed.

Lemma plan_of_ok bytes c tag rs :
  Normalized c = c → ValidateConfig c = Ok () → plan_ok bytes (plan_of lt c tag (select_algo bytes rs)).
Proof.
  intros Hn Hv. destruct (select_algo bytes rs) as [r|] eqn:Hs; split; cbn; try done.
  intros _. split; [by eexists|by eapply select_algo_fits].
Qed.

Lemma wpx_cache_plan g p (Q : () → CublasLtGemm Algo → Prop) R :
  index_find (plan_index_ g) (p_config p) = None → Q () (with_plan p g) → wpx (cache_plan p) Q R g.
Proof. intros Hn HQ. unfold cache_plan. apply wpx_modify. by rewrite Hn. Qed.

Lemma plan_of_config c tag found : p_config (plan_of lt c tag found) = c.
Proof. by destruct found. Qed.

Lemma wpx_BuildPlan g c tag :
  cache_ok g → Normalized c = c → cached g c = None →
  wpx (BuildPlan lt c tag) (λ p g', built c g (Some p) g') (λ _ g', built c g None g') g.
Proof.
  intros Hg Hn Hc. pose proof (cached_none _ _ Hg Hc) as Hfresh. unfold BuildPlan.
  apply wpx_bind. destruct (ValidateConfig c) as [[]|e] eqn:Hv.
  2:{ apply wpx_throw. exists []. by rewrite app_nil_r. }
  apply wpx_ret. wpx_auto. unfold record_call. wpx_auto.
  destruct (lt_descriptors lt _); wpx_auto.
  { eexists. split; [|done]. done. }
  destruct (lt_heuristic lt _) as [status results]. wpx_auto.
  assert (∀ found g1 calls, same_but_log g g1 → lt_log g1 = lt_log g ++ calls →
    plan_ok (workspace_bytes_ g) (plan_of lt c tag found) →
    wpx (cache_plan (plan_of lt c tag found);; mret (plan_of lt c tag found))
      (λ p g', built c g (Some p) g') (λ _ g', built c g None g') g1) as Hcache.
  { intros found g1 calls Hs Hl Hok. apply wpx_bind, wpx_cache_plan.
    - rewrite plan_of_config. by destruct Hs as (_ & _ & _ & ->).
    - apply wpx_ret. exists calls, g1. split_and!; [done|exact Hl|done|apply plan_of_config|done]. }
  destruct status; wpx_auto.
  - eapply Hcache; [done|cbn; by rewrite <- app_assoc|by apply plan_of_ok].
  - eapply Hcache; [done|cbn; by rewrite <- app_assoc|by apply (plan_of_ok _ c tag [])].
  - eexists. split; [done|]. cbn. by rewrite <- app_assoc.
Qed.

Lemma built_cache_ok g c r g' :
  cache_ok g → handle_ g = true → cached g c = None → built c g r g' → cache_ok g'.
Proof.
  intros Hg Hh Hc [calls Hb]. destruct r as [p|].
  - destruct Hb as (g1 & Hs & _ & -> & Hpc & Hp). pose proof Hs as (H1 & H2 & H3 & H4).
    apply cache_ok_with_plan; [by eapply cache_ok_log|congruence|by rewrite H2|].
    unfold cached in *. by rewrite H3, H4, Hpc.
  - by eapply cache_ok_log; [apply Hb|].
Qed.

Lemma built_cached g c p g' k :
  cache_ok g → handle_ g = true → cached g c = None → built c g (Some p) g' →
  cached g' k = if decide (k = c) then Some p else cached g k.
Proof.
  intros Hg Hh Hc (calls & g1 & Hs & _ & -> & Hpc & Hp). pose proof Hs as (H1 & H2 & H3 & H4).
  assert (cached g1 = cached g) as Heq by (unfold cached; by rewrite H3, H4).
  rewrite (cached_with_plan g1);
    [|by eapply cache_ok_log|congruence|by rewrite H2|by rewrite Hpc, Heq].
  by rewrite Hpc, Heq.
Qed.

Lemma handle_of_cached g c p : cache_ok g → cached g c = Some p → handle_ g = true.
Proof.
  intros Hg Hc. apply (ck_handle _ Hg). unfold cached in Hc. intros Hnil. rewrite Hnil in Hc.
  by destruct (index_find _ c).
Qed.

(** ** The run path *)

(** What a run of a cached plan may do: at most one attribute write, and the
    product itself. *)
Definition run_calls c (calls : list LtCall) : Prop :=
  calls = [] ∨ calls = [CallSetBias] ∨ calls = [CallMatmul c] ∨ calls = [CallSetBias; CallMatmul c].

(** The tail of a run, once its plan is known. *)
Definition run_plan c (p : Plan Algo) : M error (CublasLtGemm Algo) () :=
  algo ← (if p_available p
          then from_option_or (UndefinedBehaviour "algo of an available plan") (p_algo p)
          else throw (GemmError "no cuBLASLt algorithm available"));
  (if decide (epilogue c = EpilogueBias)
   then record_call CallSetBias;; CheckCublas (lt_set_bias lt c) "set CUBLASLT_MATMUL_DESC_BIAS_POINTER"
   else mret ());;
  record_call (CallMatmul c);;
  CheckCublas (lt_matmul lt c algo) "cublasLtMatmul".

Definition logged g calls g' : Prop := same_but_log g g' ∧ lt_log g' = lt_log g ++ calls.

Lemma logged_record g g1 calls k :
  logged g calls g1 →
  logged g (calls ++ [k]) (mkGemm (handle_ g1) (workspace_ g1) (workspace_bytes_ g1) (device_name_ g1)
    (cc_major_ g1) (cc_minor_ g1) (cublaslt_version_ g1) (plans_ g1) (plan_index_ g1) (lt_log g1 ++ [k])).
Proof. intros [(H1 & H2 & H3 & H4) Hl]. split; [done|]. cbn. by rewrite Hl, <- app_assoc. Qed.

Lemma wpx_CheckCublas status what (Q : () → CublasLtGemm Algo → Prop) R g :
  (status = CUBLAS_SUCCESS → Q () g) → R (GemmError what) g → wpx (CheckCublas status what) Q R g.
Proof. destruct status; naive_solver. Qed.

(** The product is called exactly when the plan is available and the bias
    pointer, if any, was accepted; the run succeeds exactly when that call does. *)
Definition bias_set c : Prop := epilogue c ≠ EpilogueBias ∨ lt_set_bias lt c = CUBLAS_SUCCESS.

Definition run_done c (p : Plan Algo) (calls : list LtCall) (x : outcome error ()) : Prop :=
  run_calls c calls ∧
  (CallMatmul c ∈ calls ↔ p_available p = true ∧ bias_set c) ∧
  (x = Ok () ↔ CallMatmul c ∈ calls ∧ ∃ algo, p_algo p = Some algo ∧ lt_matmul lt c algo = CUBLAS_SUCCESS) ∧
  ∀ e, x = Err e → ∃ what, e = GemmError what.

Ltac run_done_case :=
  rewrite ?elem_of_cons, ?elem_of_nil;
  (split; [tauto|]); (split; [intuition congruence|]);
  (split; [|intros ? Herr; inversion Herr; by eexists]);
  (split; [intros Hx; first [discriminate Hx|split; [tauto|by eexists]]|]);
  intros [? (? & Hsome & ?)]; first [done|exfalso; intuition congruence].

Lemma run_plan_done g c p x g' : plan_ok (workspace_bytes_ g) p → run_plan c p g = (x, g') →
  ∃ calls, logged g calls g' ∧ run_done c p calls x.
Proof.
  intros Hp Heq. unfold run_plan, record_call, CheckCublas in Heq. unfold mbind, M_bind in Heq.
  unfold run_done, run_calls, bias_set.
  destruct (p_available p) eqn:Hav; cycle 1.
  { injection Heq as <- <-. exists []. split; [split; [done|by rewrite app_nil_r]|]; run_done_case. }
  destruct (pk_algo _ _ Hp Hav) as [[a Ha] _]. rewrite Ha in Heq |- *. cbn in Heq. case_decide as Hb.
  - destruct (lt_set_bias lt c) eqn:Hs; cbn in Heq;
      [|injection Heq as <- <-; exists [CallSetBias]; (split; [by split|run_done_case])..].
    exists [CallSetBias; CallMatmul c]. destruct (lt_matmul lt c a) eqn:Hm; injection Heq as <- <-;
      (split; [split; [done|cbn; by rewrite <- app_assoc]|run_done_case]).
  - exists [CallMatmul c]. destruct (lt_matmul lt c a) eqn:Hm; injection Heq as <- <-; (split; [by split|run_done_case]).
Qed.

Lemma wpx_run_plan g c p :
  plan_ok (workspace_bytes_ g) p →
  wpx (run_plan c p)
    (λ _ g', p_available p = true ∧ ∃ calls, run_calls c calls ∧ CallMatmul c ∈ calls ∧ logged g calls g')
    (λ e g', (∃ what, e = GemmError what) ∧ ∃ calls, run_calls c calls ∧ logged g calls g' ∧
             (p_available p = false → calls = [])) g.
Proof.
  intros Hp. assert (logged g [] g) as H0 by (split; [done|by rewrite app_nil_r]).
  unfold run_plan. apply wpx_bind. destruct (p_available p) eqn:Hav.
  2:{ apply wpx_throw. split; [by eexists|]. exists []. split_and!; [by left|done|done]. }
  destruct (pk_algo _ _ Hp Hav) as [[a ->] _]. apply wpx_from_option; [|done]. intros ? [= <-].
  assert (∀ calls g1, logged g calls g1 → calls = [] ∨ calls = [CallSetBias] →
    wpx (record_call (CallMatmul c);; CheckCublas (lt_matmul lt c a) "cublasLtMatmul")
      (λ _ g', true = true ∧ ∃ calls, run_calls c calls ∧ CallMatmul c ∈ calls ∧ logged g calls g')
      (λ e g', (∃ what, e = GemmError what) ∧ ∃ calls, run_calls c calls ∧ logged g calls g' ∧
               (true = false → calls = [])) g1) as Hlast.
  { intros calls g1 Hl Hc. unfold record_call. wpx_auto. apply (logged_record _ _ _ (CallMatmul c)) in Hl.
    assert (run_calls c (calls ++ [CallMatmul c])) by (unfold run_calls; destruct Hc as [->| ->]; auto).
    apply wpx_CheckCublas.
    - intros _. split; [done|]. eexists. split_and!; [done|set_solver|done].
    - split; [by eexists|]. eexists. by split_and!. }
  apply wpx_bind. case_decide.
  - unfold record_call at 1. wpx_auto. apply (logged_record _ _ _ CallSetBias) in H0. cbn [app] in H0.
    apply wpx_CheckCublas.
    + intros _. by eapply Hlast; [|right].
    + split; [by eexists|]. eexists. split_and!; [by right; left|done|done].
  - apply wpx_ret. by eapply Hlast; [|left].
Qed.

(** ** Every operation keeps the cache consistent *)

Inductive gemm_op : Type :=
  | OpInit (bytes : Z)
  | OpProbe (c : GemmConfig) (tag : string)
  | OpGemm (rows out_features in_features act_row_stride out_row_stride : Z) (stream : option StreamCapture)
  | OpGemmBias (bias_is_null : bool) (rows out_features in_features act_row_stride out_row_stride : Z)
      (stream : option StreamCapture)
  | OpBatchedHalf (c : GemmConfig) (stream : option StreamCapture)
  | OpBatchedFloat (c : GemmConfig) (stream : option StreamCapture).

Definition gemm_call (o : gemm_op) : M error (CublasLtGemm Algo) () :=
  match o with
  | OpInit bytes => Init lt bytes
  | OpProbe c tag => Probe lt c tag;; mret ()
  | OpGemm r o i a s stream => GemmFp16 lt r o i a s stream
  | OpGemmBias n r o i a s stream => GemmBiasFp16 lt n r o i a s stream
  | OpBatchedHalf c stream => GemmStridedBatched_half lt c stream
  | OpBatchedFloat c stream => GemmStridedBatched_float lt c stream
  end.

(** Objects after any sequence of calls, the ones that threw included. *)
Inductive gemm_reachable : CublasLtGemm Algo → Prop :=
  | gemm_new : gemm_reachable CublasLtGemm_new
  | gemm_step g o x g' : gemm_reachable g → gemm_call o g = (x, g') → gemm_reachable g'.

(** A step keeps the invariant and every plan cached before it. *)
Definition extends g g' : Prop :=
  cache_ok g' ∧ ∀ k p, cached g k = Some p → cached g' k = Some p.

Lemma extends_refl g : cache_ok g → extends g g.
Proof. by split. Qed.

Lemma extends_trans g1 g2 g3 : extends g1 g2 → extends g2 g3 → extends g1 g3.
Proof. intros [_ H1] [? H2]. split; [done|]. eauto. Qed.

Lemma extends_log g g' : same_but_log g g' → cache_ok g → extends g g'.
Proof.
  intros Hs Hg. split; [by eapply cache_ok_log|]. intros k p. unfold cached.
  by destruct Hs as (_ & _ & -> & ->).
Qed.

Lemma extends_built g c r g' :
  cache_ok g → handle_ g = true → cached g c = None → built c g r g' → extends g g'.
Proof.
  intros Hg Hh Hc Hb. split; [by eapply built_cache_ok|]. destruct r as [p|].
  - intros k q Hq. rewrite (built_cached g c p g') by done. case_decide; [congruence|done].
  - destruct Hb as [calls [Hs _]]. by apply extends_log.
Qed.

(** A step that ends in either way extends the cache. *)
Definition steps_extend {A} (m : M error (CublasLtGemm Algo) A) : Prop :=
  ∀ g, cache_ok g → wpx m (λ _ g', extends g g') (λ _ g', extends g g') g.

Lemma steps_extend_bind {A B} (m : M error (CublasLtGemm Algo) A) (f : A → M error (CublasLtGemm Algo) B) :
  steps_extend m → (∀ a, steps_extend (f a)) → steps_extend (m ≫= f).
Proof.
  intros Hm Hf g Hg. apply wpx_bind. eapply wpx_mono; [by apply Hm| |done].
  intros a g1 H1. eapply wpx_mono; [apply (Hf a g1), H1| |]; intros; cbv beta in *; by eapply extends_trans.
Qed.

Lemma steps_extend_throw {A} e : steps_extend (A:=A) (throw e).
Proof. intros g Hg. by apply wpx_throw, extends_refl. Qed.

Lemma steps_extend_ret {A} (a : A) : steps_extend (mret a).
Proof. intros g Hg. by apply wpx_ret, extends_refl. Qed.

Lemma cache_ok_Normalized g c p : cache_ok g → cached g (Normalized c) = Some p → p_config p = Normalized c.
Proof. intros Hg Hc. by apply (cached_Some g). Qed.

Lemma RequireInit_run g : RequireInit g = (if handle_ g then Ok () else Err (GemmError "Init() must be called before use"), g).
Proof. unfold RequireInit, mbind, M_bind, get, initialized. by destruct (handle_ g). Qed.

Lemma Probe_extends c tag : steps_extend (Probe lt c tag).
Proof.
  intros g Hg. unfold Probe. apply wpx_bind. unfold wpx at 1. rewrite RequireInit_run.
  destruct (handle_ g) eqn:Hh; [|by apply extends_refl]. apply wpx_bind. unfold wpx at 1.
  rewrite FindPlan_run by done. destruct (cached g (Normalized c)) as [p|] eqn:Hc.
  { by apply wpx_ret, extends_refl. }
  apply wpx_bind. eapply wpx_mono; [apply wpx_BuildPlan; [done|apply Normalized_idemp|done]| |].
  - intros p g' Hb. apply wpx_ret. by apply (extends_built g _ _ g' Hg Hh Hc Hb).
  - intros e g' Hb. by apply (extends_built g _ _ g' Hg Hh Hc Hb).
Qed.

Lemma PlanFor_extends g c stream tag :
  cache_ok g → Normalized c = c →
  wpx (PlanFor lt c stream tag) (λ p g', extends g g' ∧ cached g' c = Some p) (λ _ g', extends g g') g.
Proof.
  intros Hg Hn. unfold PlanFor. apply wpx_bind. unfold wpx at 1. rewrite FindPlan_run by done.
  destruct (cached g c) as [p|] eqn:Hc; [by apply wpx_ret; split; [apply extends_refl|]|].
  apply wpx_bind. unfold wpx at 1. rewrite RequireInit_run.
  destruct (handle_ g) eqn:Hh; [|by apply extends_refl].
  unfold record_call. wpx_auto. set (g1 := mkGemm _ _ _ _ _ _ _ _ _ _).
  assert (same_but_log g g1) as Hs by done. assert (extends g g1) as H1 by (by apply extends_log).
  destruct stream as [[]|]; try by apply wpx_throw.
  eapply wpx_mono; [apply wpx_BuildPlan; [apply H1|done|done]| |].
  - intros p g' Hb. split; [apply (extends_trans _ g1); [done|]; by apply (extends_built g1 c (Some p) g' (proj1 H1))|].
    rewrite (built_cached g1 c p g' c (proj1 H1)) by done. by rewrite decide_True.
  - intros e g' Hb. apply (extends_trans _ g1); [done|]. by apply (extends_built g1 c None g' (proj1 H1)).
Qed.

Lemma RunImpl_extends c stream tag : steps_extend (RunImpl lt c stream tag).
Proof.
  intros g Hg. unfold RunImpl. apply wpx_bind. unfold wpx at 1. rewrite RequireInit_run.
  destruct (handle_ g) eqn:Hh; [|by apply extends_refl]. apply wpx_bind.
  eapply wpx_mono; [apply PlanFor_extends; [done|apply Normalized_idemp]| |done].
  intros p g1 [H1 Hp]. destruct (cached_Some g1 _ p (proj1 H1) Hp) as [Hok _].
  eapply wpx_mono; [by apply (wpx_run_plan g1 (Normalized c) p)| |].
  - intros _ g2 (_ & calls & _ & _ & Hs & _). eapply extends_trans; [done|]. by apply extends_log, H1.
  - intros _ g2 (_ & calls & _ & [Hs _] & _). eapply extends_trans; [done|]. by apply extends_log, H1.
Qed.

Lemma probe_all_extends l : steps_extend (probe_all lt l).
Proof.
  induction l as [|[c tag] l IH]; cbn [probe_all]; [apply steps_extend_ret|].
  apply steps_extend_bind; [apply Probe_extends|done].
Qed.

Lemma gemm_call_keeps o : ∀ g, cache_ok g →
  wpx (gemm_call o) (λ _ g', cache_ok g') (λ _ g', cache_ok g') g.
Proof.
  assert (∀ {A} (m : M error (CublasLtGemm Algo) A), steps_extend m → ∀ g, cache_ok g →
            wpx m (λ _ g', cache_ok g') (λ _ g', cache_ok g') g) as Hkeep.
  { intros A m Hm g Hg. eapply wpx_mono; [by apply Hm| |]; cbv beta; intros ? ? [? _]; done. }
  destruct o as [bytes|c tag|r o i a s stream|n r o i a s stream|c stream|c stream]; cbn [gemm_call].
  - intros g Hg. unfold Init. wpx_auto. unfold initialized. destruct (handle_ g) eqn:Hh; wpx_auto; [done|].
    destruct (bytes =? 0); wpx_auto; [done|]. apply wpx_CheckCublas; [intros _|done].
    assert (plans_ g = []) as Hp.
    { destruct (plans_ g) eqn:Heq; [done|]. rewrite (ck_handle _ Hg) in Hh; [done|by rewrite Heq]. }
    assert (∀ g', plans_ g' = plans_ g → plan_index_ g' = plan_index_ g → cache_ok g') as Hok.
    { intros g' H1 H2. destruct Hg as [_ Hi _].
      split; [rewrite H1, Hp; constructor|by rewrite H1, H2|by rewrite H1, Hp]. }
    unfold set_init, set_device. wpx_auto. destruct (lt_malloc lt bytes); wpx_auto; [|by apply Hok].
    destruct (lt_device lt) as [[[name major] minor]|]; wpx_auto; [|by apply Hok].
    apply Hkeep; [apply probe_all_extends|by apply Hok].
  - apply Hkeep, steps_extend_bind; [apply Probe_extends|intros; apply steps_extend_ret].
  - apply Hkeep, RunImpl_extends.
  - apply Hkeep. unfold GemmBiasFp16. destruct n; [apply steps_extend_throw|apply RunImpl_extends].
  - apply Hkeep. unfold GemmStridedBatched_half.
    repeat case_match; first [apply steps_extend_throw|apply RunImpl_extends].
  - apply Hkeep. unfold GemmStridedBatched_float.
    repeat case_match; first [apply steps_extend_throw|apply RunImpl_extends].
Qed.

Lemma gemm_reachable_ok g : gemm_reachable g → cache_ok g.
Proof.
  induction 1 as [|g o x g' _ IH Heq]; [split; [constructor| |done]|].
  { intros c i. cbn. split; [done|]. by intros (p & Hp & _). }
  pose proof (wpx_run _ _ _ _ _ _ (gemm_call_keeps o g IH) Heq). by destruct x.
Qed.

(** The plan cache is consistent in every state the wrapper can be in, the
    states after an exception included: each configuration has at most one
    plan, found under its key; every key is normalised and valid; and an
    available plan has an algorithm that fits the shared workspace. *)
Theorem plan_cache_consistent g :
  gemm_reachable g →
  (∀ i j p q, plans_ g !! i = Some p → plans_ g !! j = Some q → p_config p = p_config q → i = j) ∧
  (∀ i p, plans_ g !! i = Some p → FindPlan (p_config p) g = (Ok (Some p), g) ∧
     Normalized (p_config p) = p_config p ∧ ValidateConfig (p_config p) = Ok () ∧
     (p_available p = true → is_Some (p_algo p) ∧ p_algo_workspace_bytes p <= workspace_bytes_ g)).
Proof.
  intros Hg%gemm_reachable_ok. split.
  - intros i j p q Hp Hq Heq. assert (Some i = Some j) as [=]; [|done].
    rewrite <- (proj2 (ck_index _ Hg (p_config p) i)) by eauto.
    rewrite <- (proj2 (ck_index _ Hg (p_config q) j)) by eauto. by rewrite Heq.
  - intros i p Hp. destruct (proj1 (Forall_lookup _ _) (ck_plans _ Hg) i p Hp) as [Hn Hv Ha].
    split_and!; [|done..]. rewrite FindPlan_run by done. unfold cached.
    rewrite (proj2 (ck_index _ Hg (p_config p) i)) by eauto. cbn. by rewrite Hp.
Qed.

(** C19. Runs are safe inside a graph capture.  A run whose configuration is
    cached makes no heuristic query and changes no plan, whatever the stream
    does.  It calls the product at most once, and exactly when the plan is
    available and the library accepted the bias pointer (if there is one); it
    succeeds exactly when that call was made and the library reported success,
    and throws otherwise - so a call that fails is made and then thrown, never
    swallowed.  A run of an unknown configuration on a stream that is capturing
    (or cannot tell) throws before any query, and caches nothing. *)
Theorem run_capture_safe g c stream tag x g' :
  gemm_reachable g → RunImpl lt c stream tag g = (x, g') →
  match cached g (Normalized c) with
  | Some p => ∃ calls, logged g calls g' ∧ run_done (Normalized c) p calls x
  | None => stream ≠ Some CaptureNone →
      (∃ what, x = Err (GemmError what)) ∧ logged g (if handle_ g then [CallIsCapturing] else []) g'
  end.
Proof.
  intros Hg%gemm_reachable_ok Heq. destruct (cached g (Normalized c)) as [p|] eqn:Hc.
  - destruct (cached_Some g _ p Hg Hc) as [Hok _]. apply run_plan_done; [done|]. rewrite <- Heq.
    unfold RunImpl, PlanFor, run_plan. unfold mbind, M_bind.
    by rewrite RequireInit_run, (handle_of_cached g _ p), FindPlan_run, Hc by done.
  - intros Hs. unfold RunImpl, PlanFor, mbind, M_bind in Heq.
    rewrite RequireInit_run in Heq. destruct (handle_ g) eqn:Hh.
    + rewrite FindPlan_run, Hc, RequireInit_run, Hh in Heq by done. cbn in Heq.
      destruct stream as [[]|]; try done; injection Heq as <- <-; (split; [by eexists|]); done.
    + injection Heq as <- <-. split; [by eexists|]. split; [done|by rewrite app_nil_r].
Qed.

(** Probing caches: after a probe has answered, every configuration that
    is the same problem (equal after normalisation) is answered from the cache,
    with the same availability, without a library call and without a change of
    state; all plans cached before are kept. *)
Theorem probe_is_cached g c tag b g' :
  gemm_reachable g → Probe lt c tag g = (Ok b, g') →
  (∀ c' tag', Normalized c' = Normalized c → Probe lt c' tag' g' = (Ok b, g')) ∧
  (∀ k p, cached g k = Some p → cached g' k = Some p).
Proof.
  intros Hg%gemm_reachable_ok Heq.
  pose proof (wpx_run _ _ _ _ _ _ (Probe_extends c tag g Hg) Heq) as [Hg' Hext]. split; [|done].
  assert (∃ p, cached g' (Normalized c) = Some p ∧ p_available p = b) as (p & Hp & <-).
  { unfold Probe in Heq. unfold mbind, M_bind in Heq. rewrite RequireInit_run in Heq.
    destruct (handle_ g) eqn:Hh; [|done]. rewrite FindPlan_run in Heq by done.
    destruct (cached g (Normalized c)) as [p|] eqn:Hc; [injection Heq as <- <-; by exists p|].
    destruct (BuildPlan lt (Normalized c) tag g) as [[p|] g1] eqn:Hb; [|done]. injection Heq as <- <-.
    exists p. split; [|done].
    pose proof (wpx_run _ _ _ _ _ _ (wpx_BuildPlan g _ tag Hg (Normalized_idemp c) Hc) Hb) as Hbuilt.
    rewrite (built_cached g _ p g1) by done. by rewrite decide_True. }
  intros c' tag' Hn. unfold Probe, mbind, M_bind.
  by rewrite RequireInit_run, (handle_of_cached g' _ p), Hn, FindPlan_run, Hp by done.
Qed.

(** ** Initialisation on a working library *)

(** The library's answers on a working device: nothing fails, although it may
    have no algorithm for a product. *)
Record lt_works (bytes : Z) : Prop := {
  lw_create : lt_create lt = CUBLAS_SUCCESS;
  lw_malloc : lt_malloc lt bytes = true;
  lw_device : is_Some (lt_device lt);
  lw_descriptors : ∀ d, lt_descriptors lt d = None;
  lw_heuristic : ∀ d, fst (lt_heuristic lt d) = CUBLAS_SUCCESS ∨ fst (lt_heuristic lt d) = CUBLAS_NOT_SUPPORTED;
}.

Lemma wp_Probe_fresh g c tag (Q : bool → CublasLtGemm Algo → Prop) bytes :
  lt_works bytes → cache_ok g → handle_ g = true → Normalized c = c → ValidateConfig c = Ok () →
  cached g c = None →
  (∀ p g', p_config p = c → p_tag p = tag → plans_ g' = plans_ g ++ [p] → handle_ g' = true →
     cache_ok g' → (∀ k, cached g' k = if decide (k = c) then Some p else cached g k) →
     Q (p_available p) g') →
  wp (Probe lt c tag) Q g.
Proof.
  intros Hlt Hg Hh Hn Hv Hc HQ. unfold Probe. apply wp_bind. eapply wp_eq; [by rewrite RequireInit_run, Hh|].
  rewrite Hn. apply wp_bind. eapply wp_eq; [by apply FindPlan_run|]. rewrite Hc. wp_auto.
  destruct (BuildPlan lt c tag g) as [x g1] eqn:Hb.
  pose proof (wpx_run _ _ _ _ _ _ (wpx_BuildPlan g c tag Hg Hn Hc) Hb) as Hbuilt.
  assert (∃ found, x = Ok (plan_of lt c tag found)) as [found ->].
  { unfold BuildPlan, mbind, M_bind, record_call, modify, get, mret, M_ret in Hb.
    rewrite Hv, (lw_descriptors _ Hlt) in Hb. pose proof (lw_heuristic _ Hlt (descriptors_of (workspace_bytes_ g) c)) as Hst.
    destruct (lt_heuristic lt _) as [st rs]. cbn [fst] in Hst.
    destruct Hst as [->| ->]; injection Hb as <- _; [by exists (select_algo (workspace_bytes_ g) rs)|by exists None]. }
  eapply wp_eq; [done|]. wp_auto. apply HQ.
  - apply plan_of_config.
  - by destruct found.
  - destruct Hbuilt as (calls & g2 & (_ & _ & Hp & _) & _ & -> & _). cbn. by rewrite Hp.
  - destruct Hbuilt as (calls & g2 & (Hh2 & _) & _ & -> & _). cbn. by rewrite Hh2.
  - by apply (built_cache_ok g c _ g1 Hg Hh Hc Hbuilt).
  - intros k. by apply built_cached.
Qed.

Lemma wp_probe_all bytes l : ∀ g,
  lt_works bytes → cache_ok g → handle_ g = true → NoDup (map fst l) →
  Forall (λ x, Normalized (fst x) = fst x ∧ ValidateConfig (fst x) = Ok () ∧ cached g (fst x) = None) l →
  wp (probe_all lt l) (λ _ g', map (λ p, (p_config p, p_tag p)) (plans_ g') =
                               map (λ p, (p_config p, p_tag p)) (plans_ g) ++ l ∧ handle_ g' = true) g.
Proof.
  induction l as [|[c tag] l IH]; intros g Hlt Hg Hh Hnd Hl; cbn [probe_all map] in *.
  { apply wp_ret. by rewrite app_nil_r. }
  apply Forall_cons in Hl as [(Hn & Hv & Hc) Hl]. apply NoDup_cons in Hnd as [Hnin Hnd].
  wp_auto. apply (wp_Probe_fresh _ _ _ _ bytes); [done..|].
  intros p g' Hpc Hpt Hp Hh' Hg' Hk. eapply wp_mono; [apply IH; [done..|]|].
  - apply Forall_forall. intros x Hx. destruct (proj1 (Forall_forall _ _) Hl x Hx) as (? & ? & Hcx).
    split_and!; [done|done|]. rewrite Hk. case_decide as Heq; [|done].
    exfalso. apply Hnin. cbn in Heq. rewrite <- Heq. apply list_elem_of_fmap. by exists x.
  - cbv beta. intros [] g2 [Hm ?]. split; [|done]. rewrite Hm, Hp, map_app, <- app_assoc. cbn.
    by rewrite Hpc, Hpt.
Qed.

Lemma self_check_valid :
  NoDup (map fst self_check_shapes) ∧
  Forall (λ x, Normalized (fst x) = fst x ∧ ValidateConfig (fst x) = Ok ()) self_check_shapes.
Proof. split; [apply (bool_decide_eq_true_1 _); by vm_compute|repeat constructor]. Qed.

(** On a working library initialisation succeeds and leaves exactly the
    ten model shapes in the cache, in report order, each valid and with its
    own plan, whether or not the library has an algorithm for them; a second
    initialisation is refused and changes nothing. *)
Theorem init_self_checks bytes :
  0 < bytes → lt_works bytes →
  ∃ g, Init lt bytes CublasLtGemm_new = (Ok (), g) ∧ initialized g = true ∧
    map (λ p, (p_config p, p_tag p)) (plans_ g) = self_check_shapes ∧
    Init lt bytes g = (Err (GemmError "Init() called twice"), g).
Proof.
  intros Hb Hlt. destruct self_check_valid as [Hnd Hv].
  assert (wp (Init lt bytes) (λ _ g', map (λ p, (p_config p, p_tag p)) (plans_ g') = self_check_shapes ∧
                                      handle_ g' = true) CublasLtGemm_new) as Hwp.
  { unfold Init. wp_auto. destruct (Z.eqb_spec bytes 0); [lia|]. rewrite (lw_create _ Hlt), (lw_malloc _ Hlt).
    destruct (lw_device _ Hlt) as [[[name major] minor] ->]. wp_auto. unfold CheckCublas, set_init, set_device.
    wp_auto. apply (wp_probe_all bytes); [done| |done|done|].
    - split; cbn; [constructor| |done]. intros c i. split; [done|]. by intros (p & Hp & _).
    - eapply Forall_impl; [done|]. cbv beta. intros x [? ?]. by split_and!. }
  apply wp_run in Hwp as ([] & g & Heq & Hm & Hh). exists g. split_and!; [done|done|done|].
  unfold Init, mbind, M_bind, get, initialized. by rewrite Hh.
Qed.

End cache.

(** ** A concrete library: one algorithm for every product but the batched
    scores, which it does not support *)
Module GemmExample.

Definition supports (d : Descriptors) : bool :=
  match lay_batch (layout_d d), lay_type (layout_d d) with Some _, CUDA_R_32F => false | _, _ => true end.

Definition lib : LtLibrary Z :=
  mkLt Z CUBLAS_SUCCESS (λ _, true) (Some ("device"%string, 7, 5)) 120000 (λ _, None)
    (λ d, if supports d then (CUBLAS_SUCCESS, [mkResult CUBLAS_SUCCESS 1024 zero_float 7])
          else (CUBLAS_NOT_SUPPORTED, []))
    (λ _ _, Some 1) (λ _, CUBLAS_SUCCESS) (λ _ _, CUBLAS_SUCCESS).

Lemma lib_works bytes : lt_works lib bytes.
Proof. split; [done|done|by eexists|done|]. intros d. cbn. destruct (supports d); cbn; auto. Qed.

Definition ready : CublasLtGemm Z := snd (Init lib (32 * 2 ^ 20) CublasLtGemm_new).

Lemma ready_reachable : gemm_reachable lib ready.
Proof.
  eapply (gemm_step lib _ (OpInit (32 * 2 ^ 20)) (fst (Init lib (32 * 2 ^ 20) CublasLtGemm_new)));
    [apply gemm_new|]. apply surjective_pairing.
Qed.

(** The decode batch of one row of the QKV projection. *)
Definition qkv : GemmConfig := Linear 1 2048 1536 1536 2048 EpilogueBias.
(** A row count nothing was warmed up for. *)
Definition cold : GemmConfig := Linear 3 2048 1536 1536 2048 EpilogueBias.

End GemmExample.

Lemma plan_cache_consistent_witness :
  length (plans_ GemmExample.ready) = 10%nat ∧
  (∀ i j p q, plans_ GemmExample.ready !! i = Some p → plans_ GemmExample.ready !! j = Some q →
     p_config p = p_config q → i = j).
Proof. split; [by vm_compute|]. apply (plan_cache_consistent GemmExample.lib GemmExample.ready GemmExample.ready_reachable). Defined.

Lemma run_capture_safe_witness :
  let g := GemmExample.ready in
  let r := RunImpl GemmExample.lib GemmExample.cold (Some CaptureActive) "linear_bias" g in
  cached g (Normalized GemmExample.cold) = None ∧
  (∃ what, fst r = Err (GemmError what)) ∧ logged g [CallIsCapturing] (snd r) ∧
  let warm := RunImpl GemmExample.lib GemmExample.qkv (Some CaptureActive) "linear_bias" g in
  fst warm = Ok () ∧ ∃ p calls, logged g calls (snd warm) ∧ run_done GemmExample.lib (Normalized GemmExample.qkv) p calls (fst warm).
Proof.
  cbv zeta. assert (cached GemmExample.ready (Normalized GemmExample.cold) = None) as Hc by (by vm_compute).
  assert (handle_ GemmExample.ready = true) as Hh by (by vm_compute).
  split; [exact Hc|].
  pose proof (run_capture_safe GemmExample.lib GemmExample.ready GemmExample.cold (Some CaptureActive) "linear_bias"
    _ _ GemmExample.ready_reachable (surjective_pairing _)) as H.
  rewrite Hc, Hh in H. destruct (H ltac:(discriminate)) as [H1 H2]. split; [exact H1|]. split; [exact H2|]. split; [by vm_compute|].
  pose proof (run_capture_safe GemmExample.lib GemmExample.ready GemmExample.qkv (Some CaptureActive) "linear_bias"
    _ _ GemmExample.ready_reachable (surjective_pairing _)) as Hw.
  destruct (cached GemmExample.ready (Normalized GemmExample.qkv)) as [p|] eqn:Hq; [|by vm_compute in Hq].
  exists p. exact Hw.
Defined.

Lemma probe_is_cached_witness :
  let c := PrefillScores 64 256 128 6 2048 in
  Probe GemmExample.lib c "again" GemmExample.ready = (Ok false, GemmExample.ready) ∧
  (∀ c' tag', Normalized c' = Normalized c → Probe GemmExample.lib c' tag' GemmExample.ready = (Ok false, GemmExample.ready)).
Proof.
  cbv zeta.
  assert (Probe GemmExample.lib (PrefillScores 64 256 128 6 2048) "again" GemmExample.ready =
          (Ok false, GemmExample.ready)) as Hp by (by vm_compute).
  split; [exact Hp|].
  apply (probe_is_cached GemmExample.lib GemmExample.ready (PrefillScores 64 256 128 6 2048) "again" false
    GemmExample.ready GemmExample.ready_reachable Hp).
Defined.

Lemma init_self_checks_witness :
  0 < 1024 ∧ ∃ g, Init GemmExample.lib 1024 CublasLtGemm_new = (Ok (), g) ∧ initialized g = true ∧
    map (λ p, (p_config p, p_tag p)) (plans_ g) = self_check_shapes ∧
    Init GemmExample.lib 1024 g = (Err (GemmError "Init() called twice"), g).
Proof. split; [done|]. apply (init_self_checks GemmExample.lib 1024); [done|apply GemmExample.lib_works]. Defined.
