(* ===== verification/GemmServe.v ===== *)
(** * The cuBLASLt wrapper as its clients see it

    Two views of the wrapper for the executor.  On any library, every operation
    keeps the plan cache consistent and fails with a [GemmError] only.  On a
    library that serves every product, runs and probes succeed, and a run inside
    a graph capture succeeds exactly for configurations already cached. *)

From S2P Require Import Prelude Doubles Types ModelConfig GemmConfig Gemm.

Lemma ValidateConfig_Normalized c : ValidateConfig c = Ok () → ValidateConfig (Normalized c) = Ok ().
Proof.
  rewrite !ValidateConfig_spec. unfold Normalized. destruct (Z.eqb_spec (batch c) 1) as [Hb|]; [|done].
  intros []. split; cbn; try done; lia.
Qed.

Section total.
Context {Algo : Type} (lt : LtLibrary Algo).
Implicit Types (g : CublasLtGemm Algo) (c : GemmConfig).
Notation GM := (M error (CublasLtGemm Algo)).

(** Fails with a [GemmError], if at all. *)
Definition gemm_errors {A} (m : GM A) g : Prop := wpx m (λ _ _, True) (λ e _, ∃ what, e = GemmError what) g.

(** Keeps the cache consistent, whatever the outcome. *)
Definition gemm_total {A} (m : GM A) : Prop :=
  ∀ g, cache_ok g → wpx m (λ _ g', cache_ok g') (λ e g', cache_ok g' ∧ ∃ what, e = GemmError what) g.

Lemma gemm_total_intro {A} (m : GM A) :
  steps_extend m → (∀ g, cache_ok g → gemm_errors m g) → gemm_total m.
Proof.
  intros Hm He g Hg. eapply wpx_mono; [apply wpx_and; [by apply Hm|by apply He]| |]; cbv beta.
  - by intros _ g' [[? _] _].
  - by intros ? ? [[? _] ?].
Qed.

Lemma gemm_errors_throw {A} what g : gemm_errors (A:=A) (throw (GemmError what)) g.
Proof. by eexists. Qed.

Lemma CheckCublas_errors status what g : gemm_errors (CheckCublas status what) g.
Proof. destruct status; [done|by eexists..]. Qed.

Lemma BuildPlan_errors c tag g : gemm_errors (BuildPlan lt c tag) g.
Proof.
  unfold BuildPlan, gemm_errors. wpx_step. unfold ValidateConfig.
  destruct (first_reason (config_checks c)); wpx_auto; [by eexists|]. unfold record_call. wpx_auto.
  destruct (lt_descriptors lt _); wpx_auto; [by eexists|].
  destruct (lt_heuristic lt _) as [[| |] rs]; wpx_auto; unfold cache_plan; wpx_auto; first [done|by eexists].
Qed.

Lemma Probe_errors c tag g : cache_ok g → gemm_errors (Probe lt c tag) g.
Proof.
  intros Hg. unfold gemm_errors, Probe. wpx_step. eapply wpx_eq; [apply RequireInit_run|].
  destruct (handle_ g); [|by eexists]. wpx_step. eapply wpx_eq; [by apply FindPlan_run|].
  destruct (cached g _); [done|]. wpx_step.
  eapply wpx_mono; [apply BuildPlan_errors|done|done].
Qed.

Lemma RunImpl_errors c stream tag g : cache_ok g → gemm_errors (RunImpl lt c stream tag) g.
Proof.
  intros Hg. unfold gemm_errors, RunImpl. wpx_step. eapply wpx_eq; [apply RequireInit_run|].
  destruct (handle_ g) eqn:Hh; [|by eexists]. wpx_step.
  eapply wpx_mono; [apply wpx_and; [apply (PlanFor_extends lt g _ stream tag Hg (Normalized_idemp c))|]| |].
  - instantiate (1 := λ e _, ∃ what, e = GemmError what). instantiate (1 := λ _ _, True).
    unfold PlanFor. wpx_step. eapply wpx_eq; [by apply FindPlan_run|].
    destruct (cached g _); [done|]. wpx_step. eapply wpx_eq; [apply RequireInit_run|].
    rewrite Hh. unfold record_call. wpx_auto. destruct stream as [[]|]; try by eexists. apply BuildPlan_errors.
  - cbv beta. intros p g1 [[H1 Hp] _]. destruct (cached_Some g1 _ p (proj1 H1) Hp) as [Hok _].
    eapply wpx_mono; [apply (wpx_run_plan lt g1 (Normalized c) p Hok)|done|]. cbv beta. by intros e g2 [? _].
  - by intros e g1 [_ ?].
Qed.

Lemma Probe_total c tag : gemm_total (Probe lt c tag).
Proof. apply gemm_total_intro; [apply Probe_extends|intros; by apply Probe_errors]. Qed.

Lemma RunImpl_total c stream tag : gemm_total (RunImpl lt c stream tag).
Proof. apply gemm_total_intro; [apply RunImpl_extends|intros; by apply RunImpl_errors]. Qed.

Lemma throw_total {A} what : gemm_total (A:=A) (throw (GemmError what)).
Proof. intros g Hg. apply wpx_throw. split; [done|by eexists]. Qed.

Lemma GemmStridedBatched_float_total c stream : gemm_total (GemmStridedBatched_float lt c stream).
Proof. unfold GemmStridedBatched_float. repeat case_match; first [apply throw_total|apply RunImpl_total]. Qed.

Lemma GemmStridedBatched_half_total c stream : gemm_total (GemmStridedBatched_half lt c stream).
Proof. unfold GemmStridedBatched_half. repeat case_match; first [apply throw_total|apply RunImpl_total]. Qed.

Lemma probe_all_total l : gemm_total (probe_all lt l).
Proof.
  induction l as [|[c tag] l IH]; intros g Hg; cbn [probe_all]; [done|]. wpx_step.
  eapply wpx_mono; [by apply Probe_total| |done]. cbv beta. intros _ g1 Hg1. by apply IH.
Qed.

Lemma Init_total bytes : gemm_total (Init lt bytes).
Proof.
  intros g Hg. eapply wpx_mono; [apply wpx_and; [apply (gemm_call_keeps lt (OpInit bytes) g Hg)|]| |].
  - instantiate (1 := λ e _, ∃ what, e = GemmError what). instantiate (1 := λ _ _, True).
    unfold gemm_call, Init. wpx_auto. unfold initialized. destruct (handle_ g) eqn:Hh; wpx_auto; [by eexists|].
    destruct (bytes =? 0); wpx_auto; [by eexists|]. apply wpx_CheckCublas; [intros _|by eexists].
    assert (plans_ g = []) as Hp.
    { destruct (plans_ g) eqn:Heq; [done|]. rewrite (ck_handle _ Hg) in Hh; [done|by rewrite Heq]. }
    unfold set_init, set_device. wpx_auto. destruct (lt_malloc lt bytes); wpx_auto; [|by eexists].
    destruct (lt_device lt) as [[[name major] minor]|]; wpx_auto; [|by eexists].
    unfold SelfCheckModelShapes. eapply wpx_mono; [apply probe_all_total|done|by intros ? ? [_ ?]].
    destruct Hg as [_ Hi _]. split; cbn; [rewrite Hp; constructor|done|done].
  - by intros _ g' [? _].
  - by intros e g' [? ?].
Qed.

End total.

#[export] Hint Resolve Probe_total RunImpl_total throw_total GemmStridedBatched_float_total
  GemmStridedBatched_half_total Init_total : gemm.

(** ** A library that serves every product *)

Section serving.
Context {Algo : Type} (lt : LtLibrary Algo) (bytes : Z).
Implicit Types (g : CublasLtGemm Algo) (c : GemmConfig).

Record lt_serves : Prop := {
  lv_works : lt_works lt bytes;
  lv_algo : ∀ d, fst (lt_heuristic lt d) = CUBLAS_SUCCESS ∧ is_Some (select_algo bytes (snd (lt_heuristic lt d)));
  lv_bias : ∀ c, lt_set_bias lt c = CUBLAS_SUCCESS;
  lv_matmul : ∀ c a, lt_matmul lt c a = CUBLAS_SUCCESS;
}.

Record serving g : Prop := {
  sv_cache : cache_ok g;
  sv_handle : handle_ g = true;
  sv_bytes : workspace_bytes_ g = bytes;
  sv_available : Forall (λ p, p_available p = true) (plans_ g);
}.

(** A configuration with a plan in the cache. *)
Definition known g c : Prop := is_Some (cached g (Normalized c)).

(** The cache only grows. *)
Definition grows g g' : Prop := serving g' ∧ ∀ c, known g c → known g' c.

Lemma grows_refl g : serving g → grows g g.
Proof. by split. Qed.

Lemma grows_trans g1 g2 g3 : grows g1 g2 → grows g2 g3 → grows g1 g3.
Proof. intros [_ H1] [? H2]. split; auto. Qed.

Lemma serving_log g g' : same_but_log g g' → serving g → grows g g'.
Proof.
  intros Hs [Hc Hh Hb Ha]. pose proof Hs as (H1 & H2 & H3 & H4).
  split; [split; [by eapply cache_ok_log|congruence|congruence|by rewrite H3]|].
  intros c. unfold known, cached. by rewrite H3, H4.
Qed.

Lemma wp_BuildPlan_serving g c tag (Q : Plan Algo → CublasLtGemm Algo → Prop) :
  lt_serves → serving g → Normalized c = c → ValidateConfig c = Ok () → cached g c = None →
  (∀ p g', p_available p = true → cached g' c = Some p → grows g g' → Q p g') →
  wp (BuildPlan lt c tag) Q g.
Proof.
  intros Hlt Hg Hn Hv Hc HQ. pose proof Hg as [Hg1 Hh Hb Ha].
  destruct (BuildPlan lt c tag g) as [x g1] eqn:Heq.
  pose proof (wpx_run _ _ _ _ _ _ (wpx_BuildPlan lt g c tag Hg1 Hn Hc) Heq) as Hbuilt.
  assert (∃ found, is_Some found ∧ x = Ok (plan_of lt c tag found)) as (found & [r ->] & ->).
  { unfold BuildPlan, mbind, M_bind, record_call, modify, get, mret, M_ret in Heq.
    rewrite Hv, (lw_descriptors _ _ (lv_works Hlt)), Hb in Heq.
    destruct (lv_algo Hlt (descriptors_of bytes c)) as [Hst Hsel].
    destruct (lt_heuristic lt _) as [st rs]. cbn in Hst, Hsel. subst st. injection Heq as <- _. eauto. }
  eapply wp_eq; [done|]. set (p := plan_of lt c tag (Some r)) in *.
  assert (cached g1 c = Some p) as Hp1.
  { rewrite (built_cached g c p g1 c Hg1 Hh Hc Hbuilt). by rewrite decide_True. }
  apply HQ; [done|done|]. split.
  - pose proof Hbuilt as (calls & g2 & (H1 & H2 & H3 & H4) & _ & Heq1 & _). split.
    + by eapply (built_cache_ok g c (Some p)); [..|exact Hbuilt].
    + rewrite Heq1. cbn. congruence.
    + rewrite Heq1. cbn. congruence.
    + rewrite Heq1. cbn. rewrite H3. apply Forall_app. split; [done|]. by constructor.
  - intros c' [q Hq]. unfold known. rewrite (built_cached g c p g1 _ Hg1 Hh Hc Hbuilt). case_decide; eauto.
Qed.

Lemma cached_available g c p : serving g → cached g c = Some p → p_available p = true.
Proof.
  intros [_ _ _ Ha] Hc. unfold cached in Hc. destruct (index_find _ c) as [i|]; [|done]. cbn in Hc.
  by apply (proj1 (Forall_lookup _ _) Ha i).
Qed.

Lemma wp_Probe_serving g c tag :
  lt_serves → serving g → ValidateConfig c = Ok () →
  wp (Probe lt c tag) (λ b g', b = true ∧ known g' c ∧ grows g g') g.
Proof.
  intros Hlt Hg Hv%ValidateConfig_Normalized. pose proof Hg as [Hg1 Hh Hb Ha]. unfold Probe. wp_step.
  eapply wp_eq; [by rewrite RequireInit_run, Hh|]. wp_step. eapply wp_eq; [by apply FindPlan_run|].
  destruct (cached g (Normalized c)) as [p|] eqn:Hc.
  - apply wp_ret. split_and!; [by apply (cached_available g (Normalized c))|by eexists|by apply grows_refl].
  - wp_step. apply wp_BuildPlan_serving; [done|done|apply Normalized_idemp|done|done|].
    intros p g' Hp Hc' Hgr. apply wp_ret. split_and!; [done|by eexists|done].
Qed.

Lemma wp_RunImpl_serving g c stream tag :
  lt_serves → serving g → ValidateConfig c = Ok () → known g c ∨ stream = Some CaptureNone →
  wp (RunImpl lt c stream tag) (λ _ g', known g' c ∧ grows g g') g.
Proof.
  intros Hlt Hg Hv%ValidateConfig_Normalized Hk. pose proof Hg as [Hg1 Hh Hb Ha]. unfold RunImpl. wp_step.
  eapply wp_eq; [by rewrite RequireInit_run, Hh|]. wp_step.
  assert (∀ p g1, p_available p = true → cached g1 (Normalized c) = Some p → grows g g1 →
    wp (run_plan lt (Normalized c) p) (λ _ g', known g' c ∧ grows g g') g1) as Hrun.
  { intros p g1 Hp Hc Hgr. destruct (cached_Some g1 _ p (sv_cache _ (proj1 Hgr)) Hc) as [Hok _].
    destruct (pk_algo _ _ Hok Hp) as [[a Ha'] _]. unfold run_plan. rewrite Hp, Ha'. wp_auto.
    apply (wp_from_option _ _ a); [done|].
    assert (∀ g2, grows g1 g2 → wp (record_call (CallMatmul (Normalized c));;
      CheckCublas (lt_matmul lt (Normalized c) a) "cublasLtMatmul") (λ _ g', known g' c ∧ grows g g') g2) as Hlast.
    { intros g2 H2. unfold record_call. wp_auto. rewrite (lv_matmul Hlt). apply wp_ret.
      set (g3 := mkGemm _ _ _ _ _ _ _ _ _ _).
      assert (grows g1 g3) as H3 by (eapply grows_trans; [done|]; apply serving_log; [done|apply H2]).
      split; [apply H3; by eexists|by eapply grows_trans]. }
    wp_auto. case_decide.
    - unfold record_call at 1. wp_auto. rewrite (lv_bias Hlt). apply wp_ret. apply Hlast.
      apply serving_log; [done|apply Hgr].
    - wp_auto. apply Hlast. apply grows_refl, Hgr. }
  unfold PlanFor. wp_step. eapply wp_eq; [by apply FindPlan_run|].
  destruct (cached g (Normalized c)) as [p|] eqn:Hc.
  { apply wp_ret. apply Hrun; [by apply (cached_available g (Normalized c))|done|by apply grows_refl]. }
  destruct Hk as [[p Hp]|Hs]; [congruence|]. subst stream. wp_step.
  eapply wp_eq; [by rewrite RequireInit_run, Hh|]. unfold record_call. wp_auto.
  set (g1 := mkGemm _ _ _ _ _ _ _ _ _ _). assert (same_but_log g g1) as Hlog by done.
  apply wp_BuildPlan_serving; [done|by apply (serving_log g)|apply Normalized_idemp|done|done|].
  intros p g' Hp Hc' Hgr. apply Hrun; [done|done|]. eapply grows_trans; [by apply serving_log|done].
Qed.

Lemma wp_probe_all_serving l : ∀ g,
  lt_serves → serving g → Forall (λ x, ValidateConfig (fst x) = Ok ()) l →
  wp (probe_all lt l) (λ _ g', serving g') g.
Proof.
  induction l as [|[c tag] l IH]; intros g Hlt Hg Hl; cbn [probe_all]; [done|].
  apply Forall_cons in Hl as [Hc Hl]. wp_step. eapply wp_mono; [by apply wp_Probe_serving|].
  cbv beta. intros b g' (_ & _ & [Hg' _]). by apply IH.
Qed.

Lemma wp_Init_serving : 0 < bytes → lt_serves → wp (Init lt bytes) (λ _ g, serving g) CublasLtGemm_new.
Proof.
  intros Hb Hlt. pose proof (lv_works Hlt) as [Hcr Hm [[[name major] minor] Hd] _ _]. unfold Init. wp_auto. unfold initialized. cbn [handle_ CublasLtGemm_new]. wp_auto.
  destruct (Z.eqb_spec bytes 0); [lia|]. wp_auto. rewrite Hcr, Hm, Hd. unfold CheckCublas, set_init, set_device. wp_auto.
  apply wp_probe_all_serving; [done| |].
  - split; [|done|done|constructor]. split; cbn; [constructor| |done].
    intros c i. split; [done|]. by intros (p & Hp & _).
  - eapply Forall_impl; [apply self_check_valid|]. by intros x [_ ?].
Qed.

End serving.
