(* ===== verification/GemmReport.v ===== *)
(** * The algorithm report of the cuBLASLt wrapper ([gemm/cublaslt_gemm.cpp])

    [AlgoReportJson] prints the wrapper's state as JSON text with string
    appends.  The first part is that printer with its helpers; the second is a
    reference reader of JSON text (RFC 8259, code points below 128 in escapes),
    once passing bytes through and once insisting on UTF-8; the theorem is that
    the reader gets back, for any state and any bytes in the device name and the
    tags - for UTF-8 ones in the strict reading - exactly the document the report
    stands for. *)

From S2P Require Import Prelude Doubles Types ModelConfig GemmConfig Gemm.
From Stdlib Require Import Ascii.
From stdpp Require Import pretty.
#[local] Open Scope string_scope.
#[local] Open Scope Z_scope.

(** ** The printer *)

Definition OpName (op : cublasOperation) : string :=
  match op with CUBLAS_OP_N => "N" | CUBLAS_OP_T => "T" | CUBLAS_OP_C => "C" end.

Definition TypeName (type : cudaDataType) : string :=
  match type with CUDA_R_16F => "f16" | CUDA_R_32F => "f32" | CUDA_R_other => "?" end.

Definition EpilogueName (e : GemmEpilogue) : string := match e with EpilogueBias => "bias" | EpilogueNone => "none" end.

(** The characters the escapes turn on, by code. *)
Definition code (a : ascii) : Z := Z.of_N (N_of_ascii a).
Definition char_of (n : Z) : ascii := ascii_of_N (Z.to_N n).
Definition quote_char : ascii := char_of 34.
Definition backslash : ascii := char_of 92.

(** [%04x] of a value below 256. *)
Definition hex_char (n : Z) : ascii := char_of (if n <? 10 then 48 + n else 87 + n).
Definition hex4 (n : Z) : string := String "0" (String "0" (String (hex_char (n / 16)) (String (hex_char (n mod 16)) ""))).

Definition escape_char (ch : ascii) : string :=
  if Ascii.eqb ch quote_char then String backslash (String quote_char "")
  else if Ascii.eqb ch backslash then String backslash (String backslash "")
  else if code ch <? 0x20 then String backslash (String "u" (hex4 (Z.land (code ch) 0xff)))
  else String ch "".

Fixpoint EscapeJson (in_ : string) : string :=
  match in_ with "" => "" | String ch rest => escape_char ch +:+ EscapeJson rest end.

Definition float_is_finite (x : float32) : bool :=
  match x with SpecFloat.S754_zero _ | SpecFloat.S754_finite _ _ _ => true | _ => false end.

(** [json += piece;] for each piece in turn; a double quote inside a literal of
    the code is written as a single one here and replaced. *)
Definition append_pieces (json : string) (pieces : list string) : string := foldl String.append json pieces.

Fixpoint quotes (s : string) : string :=
  match s with "" => "" | String a rest => String (if Ascii.eqb a "'" then quote_char else a) (quotes rest) end.

Section printer.
Context {Algo : Type}.
(** [std::to_chars] of a float widened to double, into 48 bytes. *)
Context (to_chars : float32 → option string).

Definition AppendJsonFloat (json : string) (value : float32) : string :=
  if negb (float_is_finite value) then json +:+ "0" else
  match to_chars value with Some text => json +:+ text | None => json +:+ "0" end.

(** One entry of the loop over [plans_]. *)
Definition append_plan (s : string * bool) (p : Plan Algo) : string * bool :=
  let (json, first) := s in
  let json := if first then json else json +:+ ", " in
  let c := p_config p in
  let json := append_pieces json
    [quotes "{'tag': '"; EscapeJson (p_tag p); quotes "', 'm': "; pretty (g_m c); quotes ", 'n': "; pretty (g_n c);
     quotes ", 'k': "; pretty (g_k c); quotes ", 'op_a': '"; OpName (op_a c); quotes "', 'op_b': '"; OpName (op_b c);
     quotes "', 'lda': "; pretty (lda c); quotes ", 'ldb': "; pretty (ldb c); quotes ", 'ldd': "; pretty (ldd c);
     quotes ", 'type_d': '"; TypeName (type_d c); quotes "', 'epilogue': '"; EpilogueName (epilogue c);
     quotes "', 'batch': "; pretty (batch c); quotes ", 'stride_a': "; pretty (stride_a c); quotes ", 'stride_b': "; pretty (stride_b c);
     quotes ", 'stride_d': "; pretty (stride_d c); quotes ", 'min_align_bytes': ["; pretty (min_align_a_bytes c); ", ";
     pretty (min_align_b_bytes c); ", "; pretty (min_align_d_bytes c); quotes "], 'available': "; if p_available p then "true" else "false"] in
  let json :=
    if p_available p then
      let json := append_pieces json
        [quotes ", 'algo': {'id': "; pretty (p_attrs p CONFIG_ID); quotes ", 'tile_id': "; pretty (p_attrs p TILE_ID);
         quotes ", 'stages_id': "; pretty (p_attrs p STAGES_ID); quotes ", 'splitk': "; pretty (p_attrs p SPLITK_NUM);
         quotes ", 'reduction_scheme': "; pretty (p_attrs p REDUCTION_SCHEME); quotes ", 'cta_swizzling': "; pretty (p_attrs p CTA_SWIZZLING);
         quotes ", 'custom_option': "; pretty (p_attrs p CUSTOM_OPTION); quotes ", 'workspace_bytes': "; pretty (p_algo_workspace_bytes p);
         quotes ", 'waves_count': "] in
      AppendJsonFloat json (p_waves_count p) +:+ "}"
    else json +:+ quotes ", 'algo': null" in
  (json +:+ "}", false).

Definition AlgoReportJson (g : CublasLtGemm Algo) : string :=
  let json := append_pieces (quotes "{'initialized': ")
    [if initialized g then "true" else "false"; quotes ", 'device': '"; EscapeJson (device_name_ g); quotes "', 'compute_capability': '";
     pretty (cc_major_ g); "."; pretty (cc_minor_ g); quotes "', 'cublaslt_version': "; pretty (cublaslt_version_ g);
     quotes ", 'workspace_bytes': "; pretty (workspace_bytes_ g); quotes ", 'configs': ["] in
  (foldl append_plan (json, true) (plans_ g)).1 +:+ "]}".

End printer.

(** The destructor: the plans with their descriptors, the workspace, the handle. *)
Definition CublasLtGemm_delete {Algo} (g : CublasLtGemm Algo) : CublasLtGemm Algo :=
  let g := mkGemm (handle_ g) (workspace_ g) (workspace_bytes_ g) (device_name_ g) (cc_major_ g) (cc_minor_ g) (cublaslt_version_ g)
             [] (plan_index_ g) (lt_log g) in
  let g := if workspace_ g then mkGemm (handle_ g) false (workspace_bytes_ g) (device_name_ g) (cc_major_ g) (cc_minor_ g)
             (cublaslt_version_ g) (plans_ g) (plan_index_ g) (lt_log g) else g in
  if handle_ g then mkGemm false (workspace_ g) (workspace_bytes_ g) (device_name_ g) (cc_major_ g) (cc_minor_ g) (cublaslt_version_ g)
    (plans_ g) (plan_index_ g) (lt_log g) else g.

(** ** A reader of JSON text *)

(** A document; a number is kept as its literal. *)
Inductive jtext : Type :=
  | TNull
  | TBool (b : bool)
  | TNumber (literal : string)
  | TString (s : string)
  | TArray (l : list jtext)
  | TObject (members : list (string * jtext)).

(** *** Number literals, as an automaton *)

Inductive number_state : Type := NStart | NMinus | NZero | NInt | NDot | NFrac | NExp | NExpSign | NExpDigits.

Definition is_digit (a : ascii) : bool := (48 <=? code a) && (code a <=? 57).

Definition number_step (st : number_state) (a : ascii) : option number_state :=
  let digit := is_digit a in
  let e := Ascii.eqb a "e" || Ascii.eqb a "E" in
  let dot := Ascii.eqb a "." in
  let first := if Ascii.eqb a "0" then Some NZero else if digit then Some NInt else None in
  match st with
  | NStart => if Ascii.eqb a "-" then Some NMinus else first
  | NMinus => first
  | NZero => if dot then Some NDot else if e then Some NExp else None
  | NInt => if digit then Some NInt else if dot then Some NDot else if e then Some NExp else None
  | NDot => if digit then Some NFrac else None
  | NFrac => if digit then Some NFrac else if e then Some NExp else None
  | NExp => if Ascii.eqb a "+" || Ascii.eqb a "-" then Some NExpSign else if digit then Some NExpDigits else None
  | NExpSign | NExpDigits => if digit then Some NExpDigits else None
  end.

#[local] Arguments number_step : simpl never.

Definition number_accepts (st : number_state) : bool :=
  match st with NZero | NInt | NFrac | NExpDigits => true | _ => false end.

Fixpoint number_run (st : number_state) (s : string) : option number_state :=
  match s with "" => Some st | String a s' => match number_step st a with Some st' => number_run st' s' | None => None end end.

Definition is_number (s : string) : bool := match number_run NStart s with Some st => number_accepts st | None => false end.

(** The longest run of the automaton. *)
Fixpoint scan_number_text (st : number_state) (s : string) : string * number_state * string :=
  match s with
  | "" => ("", st, "")
  | String a s' =>
      match number_step st a with
      | Some st' => let '(lit, st'', rest) := scan_number_text st' s' in (String a lit, st'', rest)
      | None => ("", st, s)
      end
  end.

(** *** Strings *)

Definition hex_value (a : ascii) : option Z :=
  let n := code a in
  if (48 <=? n) && (n <=? 57) then Some (n - 48)
  else if (97 <=? n) && (n <=? 102) then Some (n - 87)
  else if (65 <=? n) && (n <=? 70) then Some (n - 55) else None.

Definition unescape (a : ascii) : option ascii :=
  if Ascii.eqb a quote_char then Some quote_char else if Ascii.eqb a backslash then Some backslash else if Ascii.eqb a "/" then Some a
  else if Ascii.eqb a "b" then Some (char_of 8) else if Ascii.eqb a "f" then Some (char_of 12) else if Ascii.eqb a "n" then Some (char_of 10)
  else if Ascii.eqb a "r" then Some (char_of 13) else if Ascii.eqb a "t" then Some (char_of 9) else None.

Definition unicode (h1 h2 h3 h4 : ascii) : option ascii :=
  match hex_value h1, hex_value h2, hex_value h3, hex_value h4 with
  | Some a, Some b, Some c, Some d => let n := 4096 * a + 256 * b + 16 * c + d in if n <? 128 then Some (char_of n) else None
  | _, _, _, _ => None
  end.

Definition cons_char (a : ascii) (r : option (string * string)) : option (string * string) :=
  match r with Some (s, rest) => Some (String a s, rest) | None => None end.

(** The rest of a string after its opening quote. *)
Fixpoint read_chars (s : string) : option (string * string) :=
  match s with
  | "" => None
  | String a s1 =>
      if Ascii.eqb a quote_char then Some ("", s1)
      else if Ascii.eqb a backslash then
        match s1 with
        | "" => None
        | String e s2 =>
            match unescape e with
            | Some ch => cons_char ch (read_chars s2)
            | None =>
                if Ascii.eqb e "u" then
                  match s2 with
                  | String h1 (String h2 (String h3 (String h4 s3))) =>
                      match unicode h1 h2 h3 h4 with Some ch => cons_char ch (read_chars s3) | None => None end
                  | _ => None
                  end
                else None
            end
        end
      else if code a <? 0x20 then None else cons_char a (read_chars s1)
  end.

(** *** Values *)

Definition is_blank (a : ascii) : bool := (code a =? 32) || (code a =? 9) || (code a =? 10) || (code a =? 13).

Fixpoint skip_blank (s : string) : string :=
  match s with String a s' => if is_blank a then skip_blank s' else s | "" => "" end.

(** [s] without the prefix [p]. *)
Fixpoint strip (p s : string) : option string :=
  match p, s with
  | "", _ => Some s
  | String a p', String b s' => if Ascii.eqb a b then strip p' s' else None
  | _, _ => None
  end.

(** An expected character, after blanks. *)
Definition expect (a : ascii) (s : string) : option string :=
  match skip_blank s with String b s' => if Ascii.eqb a b then Some s' else None | "" => None end.

Definition read_key (s : string) : option (string * string) :=
  s ← expect quote_char s;
  '(k, s) ← read_chars s;
  s ← expect ":" s;
  Some (k, s).

Fixpoint read_value (fuel : nat) (s : string) : option (jtext * string) :=
  match fuel with
  | O => None
  | S f =>
      match skip_blank s with
      | "" => None
      | String a s1 =>
          if Ascii.eqb a quote_char then '(t, rest) ← read_chars s1; Some (TString t, rest)
          else if Ascii.eqb a "[" then
            match expect "]" s1 with
            | Some rest => Some (TArray [], rest)
            | None => '(l, rest) ← read_elements f s1; Some (TArray l, rest)
            end
          else if Ascii.eqb a "{" then
            match expect "}" s1 with
            | Some rest => Some (TObject [], rest)
            | None => '(l, rest) ← read_members f s1; Some (TObject l, rest)
            end
          else if Ascii.eqb a "t" then rest ← strip "rue" s1; Some (TBool true, rest)
          else if Ascii.eqb a "f" then rest ← strip "alse" s1; Some (TBool false, rest)
          else if Ascii.eqb a "n" then rest ← strip "ull" s1; Some (TNull, rest)
          else
            let '(lit, st, rest) := scan_number_text NStart (String a s1) in
            if number_accepts st then Some (TNumber lit, rest) else None
      end
  end
with read_elements (fuel : nat) (s : string) : option (list jtext * string) :=
  match fuel with
  | O => None
  | S f =>
      '(v, s) ← read_value f s;
      match expect "," s with
      | Some s => '(l, rest) ← read_elements f s; Some (v :: l, rest)
      | None => rest ← expect "]" s; Some ([v], rest)
      end
  end
with read_members (fuel : nat) (s : string) : option (list (string * jtext) * string) :=
  match fuel with
  | O => None
  | S f =>
      '(k, s) ← read_key s;
      '(v, s) ← read_value f s;
      match expect "," s with
      | Some s => '(l, rest) ← read_members f s; Some ((k, v) :: l, rest)
      | None => rest ← expect "}" s; Some ([(k, v)], rest)
      end
  end.

(** A whole document: a value, then only blanks.  This reader passes bytes above
    127 through. *)
Definition read_bytes (s : string) : option jtext :=
  '(v, rest) ← read_value (S (String.length s)) s;
  match skip_blank rest with "" => Some v | _ => None end.

(** *** UTF-8 (RFC 3629), as an automaton

    What may follow: a fresh character, some continuation bytes, or the second
    byte of a sequence whose range is narrower. *)
Inductive utf8_state : Type := UStart | UOne | UTwo | UThree | UAfterE0 | UAfterED | UAfterF0 | UAfterF4.

Definition utf8_step (st : utf8_state) (a : ascii) : option utf8_state :=
  let n := code a in
  let within lo hi st' := if (lo <=? n) && (n <=? hi) then Some st' else None in
  match st with
  | UStart =>
      if n <? 0x80 then Some UStart
      else if n <? 0xc2 then None
      else if n <? 0xe0 then Some UOne
      else if n =? 0xe0 then Some UAfterE0
      else if n =? 0xed then Some UAfterED
      else if n <? 0xf0 then Some UTwo
      else if n =? 0xf0 then Some UAfterF0
      else if n <? 0xf4 then Some UThree
      else if n =? 0xf4 then Some UAfterF4 else None
  | UOne => within 0x80 0xbf UStart
  | UTwo => within 0x80 0xbf UOne
  | UThree => within 0x80 0xbf UTwo
  | UAfterE0 => within 0xa0 0xbf UOne
  | UAfterED => within 0x80 0x9f UOne
  | UAfterF0 => within 0x90 0xbf UTwo
  | UAfterF4 => within 0x80 0x8f UTwo
  end.

Fixpoint utf8_run (st : utf8_state) (s : string) : option utf8_state :=
  match s with "" => Some st | String a s' => match utf8_step st a with Some st' => utf8_run st' s' | None => None end end.

Definition utf8 (s : string) : Prop := utf8_run UStart s = Some UStart.
#[export] Instance utf8_dec s : Decision (utf8 s).
Proof. unfold utf8. assert (EqDecision utf8_state) by solve_decision. apply _. Defined.

(** The standard's reader: the text is UTF-8. *)
Definition read_json (s : string) : option jtext := if decide (utf8 s) then read_bytes s else None.

(** ** The document a state stands for *)

Section document.
Context {Algo : Type} (to_chars : float32 → option string).

Definition number (n : Z) : jtext := TNumber (pretty n).

(** What [AppendJsonFloat] appends. *)
Definition float_text (x : float32) : string := if float_is_finite x then default "0" (to_chars x) else "0".

Definition algo_document (p : Plan Algo) : jtext := TObject
  [("id", number (p_attrs p CONFIG_ID)); ("tile_id", number (p_attrs p TILE_ID)); ("stages_id", number (p_attrs p STAGES_ID));
   ("splitk", number (p_attrs p SPLITK_NUM)); ("reduction_scheme", number (p_attrs p REDUCTION_SCHEME));
   ("cta_swizzling", number (p_attrs p CTA_SWIZZLING)); ("custom_option", number (p_attrs p CUSTOM_OPTION));
   ("workspace_bytes", number (p_algo_workspace_bytes p)); ("waves_count", TNumber (float_text (p_waves_count p)))].

Definition plan_document (p : Plan Algo) : jtext :=
  let c := p_config p in
  TObject
  [("tag", TString (p_tag p)); ("m", number (g_m c)); ("n", number (g_n c)); ("k", number (g_k c));
   ("op_a", TString (OpName (op_a c))); ("op_b", TString (OpName (op_b c))); ("lda", number (lda c)); ("ldb", number (ldb c));
   ("ldd", number (ldd c)); ("type_d", TString (TypeName (type_d c))); ("epilogue", TString (EpilogueName (epilogue c)));
   ("batch", number (batch c)); ("stride_a", number (stride_a c)); ("stride_b", number (stride_b c)); ("stride_d", number (stride_d c));
   ("min_align_bytes", TArray [number (min_align_a_bytes c); number (min_align_b_bytes c); number (min_align_d_bytes c)]);
   ("available", TBool (p_available p)); ("algo", if p_available p then algo_document p else TNull)].

Definition report_document (g : CublasLtGemm Algo) : jtext := TObject
  [("initialized", TBool (initialized g)); ("device", TString (device_name_ g));
   ("compute_capability", TString (pretty (cc_major_ g) +:+ "." +:+ pretty (cc_minor_ g)));
   ("cublaslt_version", number (cublaslt_version_ g)); ("workspace_bytes", number (workspace_bytes_ g));
   ("configs", TArray (map plan_document (plans_ g)))].

End document.

(** ** Printing a document *)

Fixpoint render (v : jtext) : string :=
  match v with
  | TNull => "null"
  | TBool b => if b then "true" else "false"
  | TNumber lit => lit
  | TString s => String quote_char (EscapeJson s +:+ String quote_char "")
  | TArray l => "[" +:+ String.concat ", " (map render l) +:+ "]"
  | TObject l =>
      "{" +:+ String.concat ", " (map (λ m, String quote_char (EscapeJson m.1 +:+ String quote_char (": " +:+ render m.2))) l) +:+ "}"
  end.

Definition render_member (m : string * jtext) : string :=
  String quote_char (EscapeJson m.1 +:+ String quote_char (": " +:+ render m.2)).

(** Every number is a number literal. *)
Fixpoint well_formed (v : jtext) : Prop :=
  match v with
  | TNumber lit => is_number lit = true
  | TArray l => foldr (λ v P, well_formed v ∧ P) True l
  | TObject l => foldr (λ m P, well_formed m.2 ∧ P) True l
  | _ => True
  end.

Lemma app_empty_r s : s +:+ "" = s.
Proof. induction s as [|a s IH]; [done|]. by apply (f_equal (String a)). Qed.

Lemma app_nil_s s : "" +:+ s = s.
Proof. done. Qed.
Lemma app_cons_s a s t : String a s +:+ t = String a (s +:+ t).
Proof. done. Qed.

Lemma app_assoc_s s t u : s +:+ (t +:+ u) = (s +:+ t) +:+ u.
Proof. induction s as [|a s IH]; [done|]. by apply (f_equal (String a)). Qed.

Lemma length_app s t : String.length (s +:+ t) = (String.length s + String.length t)%nat.
Proof. induction s as [|a s IH]; [done|]. by apply (f_equal S). Qed.

(** Case analysis on a character: all 256 of them. *)
Ltac each_char a := destruct a as [[] [] [] [] [] [] [] []].

Lemma read_escaped ch X : read_chars (escape_char ch +:+ X) = cons_char ch (read_chars X).
Proof. each_char ch; reflexivity. Qed.

Lemma read_EscapeJson s rest : read_chars (EscapeJson s +:+ String quote_char rest) = Some (s, rest).
Proof.
  induction s as [|ch s IH]; [done|]. cbn [EscapeJson]. by rewrite <- app_assoc_s, read_escaped, IH.
Qed.

(** What may follow a number: the end, a comma or a closing bracket. *)
Definition stops (s : string) : Prop :=
  match s with "" => True | String a _ => a = ","%char ∨ a = "]"%char ∨ a = "}"%char end.

Lemma scan_number_run lit : ∀ st st' rest, number_run st lit = Some st' → stops rest →
  scan_number_text st (lit +:+ rest) = (lit, st', rest).
Proof.
  induction lit as [|a lit IH]; intros st st' rest; rewrite ?app_cons_s; cbn.
  - intros [= ->] Hs. destruct rest as [|b rest]; [done|].
    assert (number_step st' b = None) as Hb by (destruct Hs as [-> | [-> | ->]]; by destruct st').
    rewrite app_nil_s. cbn. by rewrite Hb.
  - destruct (number_step st a) as [st1|]; [|done]. intros Hr Hs. by rewrite (IH st1 st' rest).
Qed.

Lemma number_first a st : number_step NStart a = Some st →
  is_blank a = false ∧ Ascii.eqb a quote_char = false ∧ Ascii.eqb a "[" = false ∧ Ascii.eqb a "{" = false ∧
  Ascii.eqb a "t" = false ∧ Ascii.eqb a "f" = false ∧ Ascii.eqb a "n" = false ∧ Ascii.eqb "]" a = false.
Proof. each_char a; intros H; (discriminate H || done). Qed.

Lemma number_head lit : is_number lit = true → ∃ a s st, lit = String a s ∧ number_step NStart a = Some st.
Proof.
  unfold is_number. destruct lit as [|a s]; [done|]. cbn. destruct (number_step NStart a) as [st|] eqn:E; [|done]. eauto.
Qed.

Lemma is_number_digit x st : (x < 10)%N → st = NInt ∨ ((0 < x)%N ∧ (st = NStart ∨ st = NMinus)) →
  number_step st (pretty_N_char x) = Some NInt.
Proof.
  intros Hx Hst. assert (∀ k, (k < 10)%nat → (st = NInt ∨ ((0 < k)%nat ∧ (st = NStart ∨ st = NMinus))) →
    number_step st (pretty_N_char (N.of_nat k)) = Some NInt) as H.
  { intros k Hk [-> | [H0 [-> | ->]]]; do 10 (destruct k as [|k]; [done || lia|]); lia. }
  rewrite <- (N2Nat.id x). apply H; [lia|]. destruct Hst as [?|[? ?]]; [by left|right; split; [lia|done]].
Qed.

Lemma number_run_pretty st s : st = NStart ∨ st = NMinus → ∀ x, (0 < x)%N → number_run st (pretty_N_go x s) = number_run NInt s.
Proof.
  intros Hst x. revert s. induction (N.lt_wf_0 x) as [x _ IH]. intros s Hx. rewrite pretty_N_go_step by done.
  assert (x mod 10 < 10)%N by (apply N.mod_lt; lia).
  destruct (decide (x / 10 = 0)%N) as [Hz|Hz].
  - rewrite Hz, pretty_N_go_0. cbn. rewrite is_number_digit; [done|done|].
    pose proof (N.div_mod x 10 ltac:(lia)). right. split; [lia|done].
  - rewrite IH; [|apply N.div_lt; lia|by apply N.neq_0_lt_0]. cbn. by rewrite is_number_digit by (try done; by left).
Qed.

Lemma pretty_is_number (n : Z) : is_number (pretty n) = true.
Proof.
  unfold is_number. destruct n as [|p|p]; [done| |].
  - assert (pretty (Z.pos p) = pretty_N_go (Npos p) "") as -> by done. by rewrite number_run_pretty by (auto; lia).
  - assert (pretty (Z.neg p) = String "-" (pretty_N_go (Npos p) "")) as -> by done.
    change (match number_run NMinus (pretty_N_go (N.pos p) "") with Some st => number_accepts st | None => false end = true).
    by rewrite number_run_pretty by (auto; lia).
Qed.

(** *** The reader on printed text *)

(** A printed value starts with a character that is neither blank nor a closing bracket. *)
Lemma render_head v : well_formed v → ∃ a s, render v = String a s ∧ is_blank a = false ∧ Ascii.eqb "]" a = false.
Proof.
  destruct v as [|[]|lit|s|l|l]; cbn; intros Hw; try by eexists _, _.
  apply number_head in Hw as (a & s & st & -> & Hst). apply number_first in Hst as (Hb & _ & _ & _ & _ & _ & _ & Hc). by exists a, s.
Qed.

Lemma read_elements_blank f s : read_elements f (String " " s) = read_elements f s.
Proof. destruct f as [|[|f]]; done. Qed.
Lemma read_members_blank f s : read_members f (String " " s) = read_members f s.
Proof. by destruct f. Qed.

Lemma read_key_printed k s : read_key (String quote_char (EscapeJson k +:+ String quote_char (String ":" s))) = Some (k, s).
Proof.
  unfold read_key. change (expect quote_char (String quote_char ?X)) with (Some X). cbn [mbind option_bind]. by rewrite read_EscapeJson.
Qed.

(** Separated items, then the closing bracket and [rest]. *)
Definition closing {A} (f : A → string) (x : A) (l : list A) (close : ascii) (rest : string) : string :=
  f x +:+ foldr (λ y s, ", " +:+ f y +:+ s) (String close rest) l.

Lemma concat_closing {A} (f : A → string) x l close rest :
  String.concat ", " (map f (x :: l)) +:+ String close rest = closing f x l close rest.
Proof.
  unfold closing. revert x. induction l as [|y l IH]; intros x; [done|].
  change (String.concat ", " (map f (x :: y :: l))) with (f x +:+ ", " +:+ String.concat ", " (map f (y :: l))).
  rewrite <- !app_assoc_s, IH. done.
Qed.

Lemma length_concat {A} (f : A → string) x y l :
  String.length (String.concat ", " (map f (x :: y :: l))) = (String.length (f x) + 2 + String.length (String.concat ", " (map f (y :: l))))%nat.
Proof.
  change (String.concat ", " (map f (x :: y :: l))) with (f x +:+ ", " +:+ String.concat ", " (map f (y :: l))).
  rewrite !length_app. cbn [String.length]. lia.
Qed.

Definition reads_value (f : nat) : Prop := ∀ v rest,
  well_formed v → (String.length (render v) < f)%nat → stops rest → read_value f (render v +:+ rest) = Some (v, rest).
Definition reads_elements (f : nat) : Prop := ∀ v l rest,
  foldr (λ v P, well_formed v ∧ P) True (v :: l) → (S (String.length (String.concat ", " (map render (v :: l)))) < f)%nat →
  read_elements f (closing render v l "]" rest) = Some (v :: l, rest).
Definition reads_members (f : nat) : Prop := ∀ m l rest,
  foldr (λ m P, well_formed m.2 ∧ P) True (m :: l) → (S (String.length (String.concat ", " (map render_member (m :: l)))) < f)%nat →
  read_members f (closing render_member m l "}" rest) = Some (m :: l, rest).

Lemma reads_elements_step f : reads_value f → reads_elements f → reads_elements (S f).
Proof.
  intros IHv IHl v l rest [Hv Hl] Hlen. unfold closing. cbn [read_elements]. destruct l as [|w l].
  - cbn in Hlen. rewrite IHv; [done|done|lia|by right; left].
  - rewrite length_concat in Hlen. rewrite IHv; [|done|lia|by left]. cbn [foldr mbind option_bind].
    change (expect "," (", " +:+ ?X)) with (Some (String " " X)). cbn iota beta.
    rewrite read_elements_blank. fold (closing render w l "]" rest).
    rewrite (IHl w l rest); [done|done|lia].
Qed.

Lemma reads_members_step f : reads_value f → reads_members f → reads_members (S f).
Proof.
  intros IHv IHl [k v] l rest [Hv Hl] Hlen. unfold closing.
  assert (String.length (render v) < String.length (render_member (k, v)))%nat as Hm.
  { unfold render_member. cbn [String.length fst snd]. rewrite length_app. cbn [String.length]. rewrite length_app. cbn [String.length]. lia. }
  cbn [read_members]. unfold render_member at 1. cbn [fst snd].
  assert (∀ X, String quote_char (EscapeJson k +:+ String quote_char (": " +:+ render v)) +:+ X =
    String quote_char (EscapeJson k +:+ String quote_char (String ":" (String " " (render v +:+ X))))) as ->.
  { intros X. rewrite !app_cons_s, <- !app_assoc_s, !app_cons_s, <- app_assoc_s. done. }
  rewrite read_key_printed. cbn [mbind option_bind].
  assert (∀ X, read_value f (String " " X) = read_value f X) as -> by (by destruct f). destruct l as [|w l].
  - cbn [map String.concat] in Hlen. rewrite IHv; [done|done|lia|by right; right].
  - rewrite length_concat in Hlen. rewrite IHv; [|done|lia|by left]. cbn [foldr mbind option_bind].
    change (expect "," (", " +:+ ?X)) with (Some (String " " X)). cbn iota beta.
    rewrite read_members_blank. fold (closing render_member w l "}" rest). rewrite (IHl w l rest); [done|done|lia].
Qed.

Lemma read_value_array f s : read_value (S f) (String "[" s) =
  match expect "]" s with Some rest => Some (TArray [], rest) | None => '(l, rest) ← read_elements f s; Some (TArray l, rest) end.
Proof. done. Qed.
Lemma read_value_object f s : read_value (S f) (String "{" s) =
  match expect "}" s with Some rest => Some (TObject [], rest) | None => '(l, rest) ← read_members f s; Some (TObject l, rest) end.
Proof. done. Qed.

Lemma reads_value_step f : reads_elements f → reads_members f → reads_value (S f).
Proof.
  intros IHl IHm v rest Hw Hlen Hs. destruct v as [|[]|lit|s|l|l]; try done.
  - cbn [render] in *. pose proof Hw as Hn. apply number_head in Hn as (a & s & st & -> & Hst).
    destruct (number_first a st Hst) as (Hb & H1 & H2 & H3 & H4 & H5 & H6 & _).
    unfold well_formed, is_number in Hw. destruct (number_run NStart (String a s)) as [st'|] eqn:Hr; [|done].
    pose proof (scan_number_run _ _ _ rest Hr Hs) as Hscan.
    change (String a s +:+ rest) with (String a (s +:+ rest)) in *. cbn [read_value skip_blank]. rewrite Hb, H1, H2, H3, H4, H5, H6, Hscan.
    by rewrite Hw.
  - cbn [render]. change (String quote_char (EscapeJson s +:+ String quote_char "") +:+ rest)
      with (String quote_char ((EscapeJson s +:+ String quote_char "") +:+ rest)).
    rewrite <- app_assoc_s, app_cons_s, app_nil_s. cbn [read_value skip_blank].
    change (is_blank quote_char) with false. change (Ascii.eqb quote_char quote_char) with true. cbn iota. by rewrite read_EscapeJson.
  - cbn [render] in *. destruct l as [|v l]; [done|].
    assert ((("[" +:+ String.concat ", " (map render (v :: l)) +:+ "]") +:+ rest) = String "[" (closing render v l "]" rest)) as ->.
    { rewrite <- concat_closing. change ("[" +:+ ?Y) with (String "[" Y). by rewrite app_cons_s, <- app_assoc_s. }
    assert (∀ X, expect "]" (render v +:+ X) = None) as He.
    { intros X. destruct (render_head v (proj1 Hw)) as (a & s & -> & Hb & Hc). unfold expect. rewrite app_cons_s. cbn [skip_blank]. rewrite Hb. cbn iota. by rewrite Hc. }
    rewrite read_value_array. unfold closing at 1. rewrite He, IHl; [done|exact Hw|].
    rewrite !length_app in Hlen. cbn [String.length] in Hlen. lia.
  - cbn [render] in *. fold render_member in *. destruct l as [|m l]; [done|].
    assert ((("{" +:+ String.concat ", " (map render_member (m :: l)) +:+ "}") +:+ rest) = String "{" (closing render_member m l "}" rest)) as ->.
    { rewrite <- concat_closing. change ("{" +:+ ?Y) with (String "{" Y). by rewrite app_cons_s, <- app_assoc_s. }
    rewrite read_value_object. unfold closing at 1. unfold render_member at 1.
    change (expect "}" (String quote_char ?X +:+ ?Y)) with (@None string). rewrite IHm; [done|exact Hw|].
    rewrite !length_app in Hlen. cbn [String.length] in Hlen. lia.
Qed.

Lemma reads_all f : reads_value f ∧ reads_elements f ∧ reads_members f.
Proof.
  induction f as [|f (IHv & IHl & IHm)]; [by split_and!; intros ? **; lia|].
  split; [by apply reads_value_step|]. split; [by apply reads_elements_step|by apply reads_members_step].
Qed.

Lemma read_render v : well_formed v → read_bytes (render v) = Some v.
Proof.
  intros Hw. unfold read_bytes. rewrite <- (app_empty_r (render v)) at 2. destruct (reads_all (S (String.length (render v)))) as (H & _).
  by rewrite H; [|done|lia|].
Qed.

(** The destructor leaves no plan, workspace or handle behind, whatever was initialised. *)
Lemma delete_releases_everything {Algo} (g : CublasLtGemm Algo) :
  let g' := CublasLtGemm_delete g in plans_ g' = [] ∧ workspace_ g' = false ∧ initialized g' = false.
Proof. by destruct g as [[] []]. Qed.

(** ** The report is a printed document *)

Definition joined (pieces : list string) : string := foldr String.append "" pieces.

Lemma append_pieces_joined l : ∀ json, append_pieces json l = json +:+ joined l.
Proof.
  induction l as [|x l IH]; intros json; cbn [append_pieces joined foldl foldr]; [by rewrite app_empty_r|].
  change (append_pieces (json +:+ x) l = json +:+ (x +:+ joined l)). by rewrite IH, app_assoc_s.
Qed.

Lemma render_object l : render (TObject l) = "{" +:+ String.concat ", " (map render_member l) +:+ "}".
Proof. done. Qed.
Lemma render_array l : render (TArray l) = "[" +:+ String.concat ", " (map render l) +:+ "]".
Proof. done. Qed.
Lemma render_text s : render (TString s) = quotes "'" +:+ EscapeJson s +:+ quotes "'".
Proof. done. Qed.
Lemma render_bool b : render (TBool b) = if b then "true" else "false".
Proof. done. Qed.
Lemma render_number (n : Z) : render (number n) = pretty n.
Proof. done. Qed.
Lemma render_literal s : render (TNumber s) = s.
Proof. done. Qed.
Lemma render_field k v : render_member (k, v) = quotes "'" +:+ EscapeJson k +:+ quotes "': " +:+ render v.
Proof. done. Qed.

(** Print a document of known shape, as pieces nested to the right. *)
Ltac printed :=
  rewrite ?render_object, ?render_array; cbn [map String.concat];
  rewrite ?render_field, ?render_number, ?render_text, ?render_bool, ?render_literal.

Lemma EscapeJson_app s t : EscapeJson (s +:+ t) = EscapeJson s +:+ EscapeJson t.
Proof. induction s as [|a s IH]; [done|]. rewrite app_cons_s. cbn [EscapeJson]. by rewrite IH, app_assoc_s. Qed.

(** Nothing in a number literal is escaped. *)
Lemma number_plain_run s : ∀ st st', number_run st s = Some st' → EscapeJson s = s.
Proof.
  induction s as [|a s IH]; intros st st'; [done|]. cbn [number_run EscapeJson].
  destruct (number_step st a) as [st1|] eqn:E; [|done]. intros Hr. rewrite (IH st1 st' Hr).
  assert (escape_char a = String a "") as ->; [|done]. destruct st; each_char a; (discriminate E || done).
Qed.
Lemma number_plain (n : Z) : EscapeJson (pretty n) = pretty n.
Proof.
  pose proof (pretty_is_number n) as H. unfold is_number in H. destruct (number_run NStart (pretty n)) as [st|] eqn:E; [|done].
  by eapply number_plain_run.
Qed.

(** *** A printed document is UTF-8 when its strings are *)

Lemma utf8_run_app s t : ∀ st, utf8_run st (s +:+ t) = utf8_run st s ≫= λ st', utf8_run st' t.
Proof.
  induction s as [|a s IH]; intros st; [done|]. rewrite app_cons_s. cbn [utf8_run]. by destruct (utf8_step st a).
Qed.

Lemma utf8_app s t : utf8 s → utf8 t → utf8 (s +:+ t).
Proof. unfold utf8. intros Hs Ht. by rewrite utf8_run_app, Hs. Qed.

Lemma utf8_escape_char st a : utf8_run st (escape_char a) = utf8_step st a.
Proof. destruct st; each_char a; reflexivity. Qed.

Lemma utf8_EscapeJson s : ∀ st, utf8_run st (EscapeJson s) = utf8_run st s.
Proof.
  induction s as [|a s IH]; intros st; [done|]. cbn [EscapeJson]. rewrite utf8_run_app, utf8_escape_char. cbn [utf8_run].
  destruct (utf8_step st a); [apply IH|done].
Qed.

Lemma number_utf8 s : ∀ st st', number_run st s = Some st' → utf8 s.
Proof.
  induction s as [|a s IH]; intros st st'; [done|]. cbn [number_run].
  destruct (number_step st a) as [st1|] eqn:E; [|done]. intros Hr. unfold utf8. cbn [utf8_run].
  assert (utf8_step UStart a = Some UStart) as ->; [|by eapply IH]. destruct st; each_char a; (discriminate E || done).
Qed.

Lemma literal_utf8 s : is_number s = true → utf8 s.
Proof. unfold is_number. destruct (number_run NStart s) eqn:E; [|done]. intros _. by eapply number_utf8. Qed.

(** Every string of the document is UTF-8, and every number a literal. *)
Fixpoint text_utf8 (v : jtext) : Prop :=
  match v with
  | TNumber lit => is_number lit = true
  | TString s => utf8 s
  | TArray l => foldr (λ v P, text_utf8 v ∧ P) True l
  | TObject l => foldr (λ m P, utf8 m.1 ∧ text_utf8 m.2 ∧ P) True l
  | _ => True
  end.

Lemma utf8_quoted s t : utf8 s → utf8 t → utf8 (String quote_char (EscapeJson s +:+ String quote_char t)).
Proof.
  intros Hs Ht. change (utf8 (EscapeJson s +:+ String quote_char t)). apply utf8_app; [|exact Ht].
  unfold utf8. by rewrite utf8_EscapeJson.
Qed.

Lemma utf8_concat l : (∀ s, s ∈ l → utf8 s) → utf8 (String.concat ", " l).
Proof.
  induction l as [|s l IH]; intros Hl; [done|]. destruct l as [|t l]; [apply Hl, list_elem_of_here|].
  cbn [String.concat]. apply utf8_app; [apply Hl, list_elem_of_here|]. apply (utf8_app ", "); [done|].
  apply IH. intros x Hx. apply Hl. by apply list_elem_of_further.
Qed.

Fixpoint render_utf8 (v : jtext) : text_utf8 v → utf8 (render v).
Proof.
  destruct v as [|b|lit|s|l|l]; intros Hv; [done|by destruct b|by apply literal_utf8|by apply utf8_quoted| |].
  - rewrite render_array. apply (utf8_app "["); [done|]. apply utf8_app; [|done]. apply utf8_concat.
    intros s (v & -> & Hin)%list_elem_of_fmap. revert Hv Hin. cbn [text_utf8].
    induction l as [|w l IH]; [by intros _ ?%not_elem_of_nil|]. cbn [foldr]. intros [Hw Hl] [->|Hin]%elem_of_cons; [by apply render_utf8|by apply IH].
  - rewrite render_object. apply (utf8_app "{"); [done|]. apply utf8_app; [|done]. apply utf8_concat.
    intros s (m & -> & Hin)%list_elem_of_fmap. revert Hv Hin. cbn [text_utf8].
    induction l as [|w l IH]; [by intros _ ?%not_elem_of_nil|]. cbn [foldr]. intros (Hk & Hw & Hl) [->|Hin]%elem_of_cons; [|by apply IH].
    unfold render_member. apply utf8_quoted; [done|]. apply (utf8_app ": "); [done|by apply render_utf8].
Qed.

Section report.
Context {Algo : Type} (to_chars : float32 → option string).

Lemma AppendJsonFloat_text json x : AppendJsonFloat to_chars json x = json +:+ float_text to_chars x.
Proof. unfold AppendJsonFloat, float_text. destruct (float_is_finite x); [|done]. by destruct (to_chars x). Qed.

Lemma op_plain op : EscapeJson (OpName op) = OpName op.
Proof. by destruct op. Qed.
Lemma type_plain t : EscapeJson (TypeName t) = TypeName t.
Proof. by destruct t. Qed.
Lemma epilogue_plain e : EscapeJson (EpilogueName e) = EpilogueName e.
Proof. by destruct e. Qed.

Lemma append_plan_document json first (p : Plan Algo) :
  append_plan to_chars (json, first) p = (json +:+ (if first then "" else ", ") +:+ render (plan_document to_chars p), false).
Proof.
  unfold append_plan. f_equal. rewrite !append_pieces_joined, AppendJsonFloat_text.
  assert ((if first then json else json +:+ ", ") = json +:+ (if first then "" else ", ")) as -> by (destruct first; by rewrite ?app_empty_r).
  set (j := json +:+ _). assert (∀ X, json +:+ (if first then "" else ", ") +:+ X = j +:+ X) as -> by (intros; apply app_assoc_s).
  unfold plan_document, algo_document. cbv zeta. set (c := p_config p).
  destruct (p_available p); printed; printed; cbn [joined foldr]; rewrite !op_plain, !type_plain, !epilogue_plain, <- !app_assoc_s; reflexivity.
Qed.

Lemma append_plans_document (ps : list (Plan Algo)) : ∀ json, (foldl (append_plan to_chars) (json, false) ps).1 =
  json +:+ foldr (λ p s, ", " +:+ render (plan_document to_chars p) +:+ s) "" ps.
Proof.
  induction ps as [|p ps IH]; intros json; cbn [foldl foldr fst]; [by rewrite app_empty_r|].
  rewrite append_plan_document, IH. by rewrite <- !app_assoc_s.
Qed.

Lemma plans_document (ps : list (Plan Algo)) json : (foldl (append_plan to_chars) (json, true) ps).1 =
  json +:+ String.concat ", " (map render (map (plan_document to_chars) ps)).
Proof.
  destruct ps as [|p ps]; cbn [foldl]; [by cbn; rewrite app_empty_r|].
  rewrite append_plan_document, append_plans_document, app_nil_s, <- app_assoc_s. f_equal. cbn [map].
  generalize (plan_document to_chars p) as d. induction ps as [|q ps IH]; intros d; [apply app_empty_r|].
  cbn [foldr map]. rewrite IH. done.
Qed.

Lemma report_is_document (g : CublasLtGemm Algo) : AlgoReportJson to_chars g = render (report_document to_chars g).
Proof.
  unfold AlgoReportJson, report_document. rewrite plans_document, append_pieces_joined. cbn [joined foldr].
  printed. printed. rewrite <- !app_assoc_s.
  assert (∀ a b, EscapeJson (pretty (a : Z) +:+ "." +:+ pretty (b : Z)) = pretty a +:+ "." +:+ pretty b) as ->.
  { intros a b. rewrite !EscapeJson_app, !number_plain. done. }
  rewrite <- !app_assoc_s. reflexivity.
Qed.

Lemma report_well_formed (g : CublasLtGemm Algo) :
  (∀ x text, to_chars x = Some text → is_number text = true) → well_formed (report_document to_chars g).
Proof.
  intros Hc. assert (∀ n : Z, well_formed (number n)) as Hn by (intros; apply pretty_is_number).
  assert (∀ x, is_number (float_text to_chars x) = true) as Hf.
  { intros x. unfold float_text. destruct (float_is_finite x); [|done]. destruct (to_chars x) as [text|] eqn:E; [by eapply Hc|done]. }
  assert (∀ p : Plan Algo, well_formed (plan_document to_chars p)) as Hp.
  { intros p. unfold plan_document, algo_document. cbn -[is_number number pretty]. split_and!; try done; try apply Hn.
    destruct (p_available p); [|done]. cbn -[is_number number pretty]. split_and!; try done; try apply Hn; apply Hf. }
  cbn -[is_number number pretty]. split_and!; try done; try apply Hn.
  generalize (plans_ g) as ps. induction ps as [|p ps IH]; [done|]. split; [apply Hp|done].
Qed.

Lemma report_utf8 (g : CublasLtGemm Algo) :
  (∀ x text, to_chars x = Some text → is_number text = true) → utf8 (device_name_ g) → (∀ p, p ∈ plans_ g → utf8 (p_tag p)) →
  text_utf8 (report_document to_chars g).
Proof.
  intros Hc Hname Htags. assert (∀ n : Z, text_utf8 (number n)) as Hn by (intros; apply pretty_is_number).
  assert (∀ x, is_number (float_text to_chars x) = true) as Hf.
  { intros x. unfold float_text. destruct (float_is_finite x); [|done]. destruct (to_chars x) as [text|] eqn:E; [by eapply Hc|done]. }
  assert (∀ p : Plan Algo, utf8 (p_tag p) → text_utf8 (plan_document to_chars p)) as Hp.
  { intros p Hp. unfold plan_document, algo_document. cbn -[is_number number pretty utf8]. split_and!; try done; try apply Hn;
      [by destruct (op_a (p_config p))|by destruct (op_b (p_config p))|by destruct (type_d (p_config p))|by destruct (epilogue (p_config p))|].
    destruct (p_available p); [|done]. cbn -[is_number number pretty utf8]. split_and!; try done; try apply Hn; apply Hf. }
  cbn -[is_number number pretty utf8]. split_and!; try done; try apply Hn.
  - apply utf8_app; [apply literal_utf8, pretty_is_number|]. apply (utf8_app "."); [done|apply literal_utf8, pretty_is_number].
  - revert Htags. generalize (plans_ g) as ps. induction ps as [|p ps IH]; intros Ht; [done|].
    split; [apply Hp, Ht, list_elem_of_here|]. apply IH. intros q Hq. apply Ht. by apply list_elem_of_further.
Qed.

End report.

(** C20. The algorithm report is a faithful document: whatever the state of the
    wrapper and whatever bytes the device name and the tags hold, a JSON reader
    that passes bytes through gets back the initialisation flag, the device, the
    workspace and one entry per cached configuration in insertion order, each
    with its whole key, its availability and the recorded algorithm (null when
    there is none).  When the device name and the tags are UTF-8 so is the
    report, and a reader that insists on UTF-8, like the one the benchmark driver
    uses, gets back the same. *)
Theorem algo_report_reads_back {Algo} to_chars (g : CublasLtGemm Algo) :
  (∀ x text, to_chars x = Some text → is_number text = true) →
  read_bytes (AlgoReportJson to_chars g) = Some (report_document to_chars g) ∧
  (utf8 (device_name_ g) → (∀ p, p ∈ plans_ g → utf8 (p_tag p)) →
   read_json (AlgoReportJson to_chars g) = Some (report_document to_chars g)).
Proof.
  intros Hc. rewrite report_is_document. pose proof (read_render _ (report_well_formed to_chars g Hc)) as Hr. split; [exact Hr|].
  intros Hn Ht. unfold read_json. rewrite decide_True; [exact Hr|]. by apply render_utf8, report_utf8.
Qed.

(** A device name with a quote, a backslash and a line feed; one plan with an
    algorithm, one without. *)
Lemma algo_report_reads_back_witness :
  let name := String quote_char (String backslash (String (char_of 10) "GPU")) in
  let c := Linear 1 2048 1536 1536 2048 EpilogueBias in
  let to_chars := λ _ : float32, Some "0.25" in
  let g := mkGemm true true 33554432 name 8 9 120000
    [mkPlan c "linear_bias" true (Some 7) 1024 zero_float (λ _, -1); mkPlan c name false None 0 zero_float (λ _, -1)] [] [] in
  read_bytes (AlgoReportJson to_chars g) = Some (report_document to_chars g) ∧
  read_json (AlgoReportJson to_chars g) = Some (report_document to_chars g).
Proof.
  intros name c to_chars g. destruct (algo_report_reads_back to_chars g) as [H1 H2]; [intros x text [= <-]; reflexivity|].
  split; [exact H1|]. apply H2; [reflexivity|]. intros p Hp. cbn in Hp. rewrite !elem_of_cons, elem_of_nil in Hp.
  destruct Hp as [->|[->|[]]]; reflexivity.
Defined.
