(* ===== verification/HalfFloat.v ===== *)
(** * BF16 to FP16 conversion ([loader/convert.hpp], scalar core)

    The conversion is integer arithmetic on bit patterns.  A binary32 or
    binary16 pattern without its sign stands for an integer number of units
    ([fp32_units] of 2^-149, [fp16_units] scaled to the same unit), so that
    "correctly rounded" is a statement about integers: no binary16 value is
    nearer, and a tie goes to the even pattern. *)

From S2P Require Import Prelude GemmConfig.

Definition u16 (z : Z) : Z := z mod 2 ^ 16.

(** ** The scalar functions, on unsigned words *)

Definition Bf16BitsToFp32Bits (bf16_bits : Z) : Z := u32 (Z.shiftl bf16_bits 16).

Definition Fp32BitsToFp16BitsRne (fp32_bits : Z) : Z :=
  let sign := u16 (Z.land (Z.shiftr fp32_bits 16) 0x8000) in
  let abs := Z.land fp32_bits 0x7FFFFFFF in
  if 0x7F800000 <? abs then u16 (Z.lor sign 0x7E00) else
  if 0x47800000 <=? abs then u16 (Z.lor sign 0x7C00) else
  let exp32 := Z.shiftr abs 23 in
  if 113 <=? exp32 then
    let rebased := u32 (abs - u32 (Z.shiftl 112 23)) in
    let lsb := Z.land (Z.shiftr rebased 13) 1 in
    let rounded := u32 (rebased + 0x0FFF + lsb) in
    u16 (Z.lor sign (Z.shiftr rounded 13))
  else if 102 <=? exp32 then
    let sig := Z.lor 0x00800000 (Z.land abs 0x007FFFFF) in
    let shift := u32 (126 - exp32) in
    let q := Z.shiftr sig shift in
    let rem := Z.land sig (u32 (u32 (Z.shiftl 1 shift) - 1)) in
    let halfway := u32 (Z.shiftl 1 (u32 (shift - 1))) in
    let round_up := (halfway <? rem) || ((rem =? halfway) && negb (Z.land q 1 =? 0)) in
    u16 (Z.lor sign (u32 (q + (if round_up then 1 else 0))))
  else sign.

Definition Bf16BitsToFp16BitsRne (bf16_bits : Z) : Z := Fp32BitsToFp16BitsRne (Bf16BitsToFp32Bits bf16_bits).

Definition Bf16OverflowsFp16 (bf16_bits : Z) : bool :=
  let abs := u16 (Z.land bf16_bits 0x7FFF) in (0x4780 <=? abs) && (abs <=? 0x7F80).

Definition IsNanFp16Bits (fp16_bits : Z) : bool := 0x7C00 <? Z.land fp16_bits 0x7FFF.
Definition IsInfFp16Bits (fp16_bits : Z) : bool := Z.land fp16_bits 0x7FFF =? 0x7C00.

(** ** Patterns as magnitudes *)

(** A pattern without sign in a format of [p] mantissa bits, in units of its
    smallest subnormal: the mantissa below [2^p], and the exponent field. *)
Definition units (p a : Z) : Z :=
  if a <? 2 ^ p then a else (2 ^ p + a mod 2 ^ p) * 2 ^ (a / 2 ^ p - 1).

(** In units of 2^-149: binary32's own, and binary16's times 2^125. *)
Definition fp32_units (a : Z) : Z := units 23 a.
Definition fp16_units (c : Z) : Z := units 10 c * 2 ^ 125.

(** [r] is the binary16 pattern nearest to [x]: every other one up to 2^16 (the
    pattern of infinity, which overflow rounds to) is farther, or as far and
    [r] is even. *)
Definition nearest_even (x r : Z) : Prop :=
  0 <= r <= 0x7C00 ∧
  ∀ c, 0 <= c <= 0x7C00 → c ≠ r →
    Z.abs (fp16_units r - x) < Z.abs (fp16_units c - x) ∨
    Z.abs (fp16_units r - x) = Z.abs (fp16_units c - x) ∧ Z.even r = true.

Lemma units_succ p a : 0 <= p → 0 <= a → units p a < units p (a + 1).
Proof.
  intros Hp Ha. unfold units. pose proof (Z.pow_pos_nonneg 2 p ltac:(lia) Hp) as HP.
  set (P := 2 ^ p) in *. destruct (Z.ltb_spec a P), (Z.ltb_spec (a + 1) P); try lia.
  - assert (a + 1 = 1 * P) as -> by lia. rewrite Z.mod_mul, Z.div_mul by lia.
    change (2 ^ (1 - 1)) with 1. lia.
  - pose proof (Z.div_mod a P ltac:(lia)) as Hdm. pose proof (Z.mod_pos_bound a P HP) as Hm.
    set (k := a / P) in *. set (m := a mod P) in *.
    assert (1 <= k) by nia.
    destruct (Z.lt_ge_cases (m + 1) P).
    + rewrite <- (Z.mod_unique (a + 1) P k (m + 1)), <- (Z.div_unique (a + 1) P k (m + 1)) by lia.
      pose proof (Z.pow_pos_nonneg 2 (k - 1) ltac:(lia) ltac:(lia)). nia.
    + rewrite <- (Z.mod_unique (a + 1) P (k + 1) 0), <- (Z.div_unique (a + 1) P (k + 1) 0) by lia.
      replace (k + 1 - 1) with (Z.succ (k - 1)) by lia. rewrite Z.pow_succ_r by lia.
      pose proof (Z.pow_pos_nonneg 2 (k - 1) ltac:(lia) ltac:(lia)). nia.
Qed.

Lemma units_mono p a b : 0 <= p → 0 <= a <= b → units p a <= units p b.
Proof.
  intros Hp [Ha Hab]. pattern b. apply Zlt_lower_bound_ind with (z := a); [|done].
  intros x IH Hx. destruct (Z.eq_dec x a) as [->|]; [lia|].
  specialize (IH (x - 1) ltac:(lia)). pose proof (units_succ p (x - 1) Hp ltac:(lia)).
  replace (x - 1 + 1) with x in * by lia. lia.
Qed.

Lemma fp16_units_mono a b : 0 <= a <= b → fp16_units a <= fp16_units b.
Proof. intros. unfold fp16_units. pose proof (units_mono 10 a b ltac:(lia) ltac:(lia)). nia. Qed.

(** Rounding between two neighbouring patterns. *)
Lemma nearest_even_between x q (up : bool) :
  0 <= q < 0x7C00 → fp16_units q <= x < fp16_units (q + 1) →
  (up = true ↔ fp16_units q + fp16_units (q + 1) < 2 * x ∨
               (2 * x = fp16_units q + fp16_units (q + 1) ∧ Z.odd q = true)) →
  nearest_even x (q + (if up then 1 else 0)).
Proof.
  intros Hq Hx Hup. split; [destruct up; lia|]. intros c Hc Hne.
  assert (c <= q - 1 ∨ c = q ∨ c = q + 1 ∨ q + 2 <= c) as Hcases by lia.
  assert (fp16_units c <= fp16_units q ∨ fp16_units (q + 1) <= fp16_units c) as Hc2.
  { destruct (Z.le_gt_cases c q); [left|right]; apply fp16_units_mono; lia. }
  assert (c < q → fp16_units c < fp16_units q) as Hlt1.
  { intros. unfold fp16_units. pose proof (units_mono 10 c (q - 1) ltac:(lia) ltac:(lia)).
    pose proof (units_succ 10 (q - 1) ltac:(lia) ltac:(lia)). replace (q - 1 + 1) with q in * by lia. nia. }
  assert (q + 1 < c → fp16_units (q + 1) < fp16_units c) as Hlt2.
  { intros. unfold fp16_units. pose proof (units_mono 10 (q + 2) c ltac:(lia) ltac:(lia)).
    pose proof (units_succ 10 (q + 1) ltac:(lia) ltac:(lia)). replace (q + 1 + 1) with (q + 2) in * by lia. nia. }
  pose proof (Z.negb_odd q) as Hodd. pose proof (Z.even_succ q) as Hsucc. unfold Z.succ in Hsucc.
  destruct up.
  - destruct (proj1 Hup eq_refl) as [?|[Htie Ho]].
    + left. destruct Hcases as [?|[->|[->|?]]]; lia.
    + rewrite Hsucc, Ho. destruct Hcases as [?|[->|[->|?]]]; [left|right|lia|left]; lia.
  - assert (2 * x < fp16_units q + fp16_units (q + 1) ∨
            2 * x = fp16_units q + fp16_units (q + 1) ∧ Z.odd q = false) as [?|[Htie Ho]].
    { destruct (Z.odd q) eqn:Ho; destruct (Z.lt_trichotomy (2 * x) (fp16_units q + fp16_units (q + 1))) as [?|[?|?]];
        try (left; lia); try (right; split; [lia|done]); exfalso; assert (false = true) by (apply Hup; tauto); done. }
    + left. rewrite Z.add_0_r in *. destruct Hcases as [?|[->|[->|?]]]; lia.
    + rewrite Z.add_0_r in *. rewrite Ho in Hodd. cbn in Hodd.
      destruct Hcases as [?|[->|[->|?]]]; [left|lia|right|left]; try lia; split; [lia|by rewrite <- Hodd].
Qed.

(** ** The bit operations as arithmetic *)

Lemma land_mask x k : 0 <= k → Z.land x (2 ^ k - 1) = x mod 2 ^ k.
Proof. intros. replace (2 ^ k - 1) with (Z.ones k) by (rewrite Z.ones_equiv; lia). by apply Z.land_ones. Qed.

Lemma lor_high k s x : 0 <= k → 0 <= x < 2 ^ k → Z.lor (s * 2 ^ k) x = s * 2 ^ k + x.
Proof.
  intros Hk Hx. assert (Z.land (s * 2 ^ k) x = 0) as Hl.
  { rewrite <- Z.shiftl_mul_pow2 by done. apply Z.bits_inj'. intros i Hi.
    rewrite Z.land_spec, Z.bits_0. destruct (Z.lt_ge_cases i k).
    - by rewrite Z.shiftl_spec_low by done.
    - destruct (Z.eq_dec x 0) as [->|]; [by rewrite Z.bits_0, andb_false_r|].
      rewrite (Z.bits_above_log2 x i), andb_false_r; [done|lia|].
      apply Z.lt_le_trans with k; [|done]. apply Z.log2_lt_pow2; lia. }
  rewrite <- Z.lxor_lor, <- Z.add_nocarry_lxor by done. done.
Qed.

(** The sign bit and the magnitude of a word. *)
Lemma sign_word b : 0 <= b < 2 ^ 32 → u16 (Z.land (Z.shiftr b 16) 0x8000) = (b / 2 ^ 31) * 2 ^ 15.
Proof.
  intros Hb. rewrite Z.shiftr_div_pow2 by lia. set (h := b / 2 ^ 16).
  assert (0 <= h < 2 ^ 16) by (unfold h; split; [apply Z.div_pos; lia|apply Z.div_lt_upper_bound; lia]).
  assert (b / 2 ^ 31 = h / 2 ^ 15) as -> by (unfold h; rewrite Z.div_div by lia; done).
  assert (Z.land h 0x8000 = h / 2 ^ 15 * 2 ^ 15) as ->.
  { assert (h / 2 ^ 15 = 0 ∨ h / 2 ^ 15 = 1) as Hq.
    { pose proof (Z.div_pos h (2 ^ 15) ltac:(lia) ltac:(lia)).
      pose proof (Z.div_lt_upper_bound h (2 ^ 15) 2 ltac:(lia) ltac:(lia)). lia. }
    apply Z.bits_inj'. intros i Hi. change 0x8000 with (2 ^ 15). rewrite Z.land_spec, Z.pow2_bits_eqb by lia.
    rewrite Z.mul_pow2_bits by lia. destruct (Z.eqb_spec 15 i) as [<-|Hne].
    - rewrite andb_true_r, Z.sub_diag. rewrite Z.bit0_odd.
      by rewrite Z.testbit_odd, Z.shiftr_div_pow2 by lia.
    - rewrite andb_false_r. symmetry. destruct (Z.lt_ge_cases i 15).
      + by rewrite Z.testbit_neg_r by lia.
      + destruct Hq as [-> | ->]; [by rewrite Z.bits_0|].
        apply Z.bits_above_log2; [lia|cbn; lia]. }
  unfold u16. rewrite Z.mod_small; [done|].
  pose proof (Z.div_pos h (2 ^ 15) ltac:(lia) ltac:(lia)).
  pose proof (Z.mul_div_le h (2 ^ 15) ltac:(lia)). lia.
Qed.

(** The magnitude part of the result, as arithmetic on the magnitude. *)
Definition fp16_code (a : Z) : Z :=
  if 0x7F800000 <? a then 0x7E00 else
  if 0x47800000 <=? a then 0x7C00 else
  if 113 * 2 ^ 23 <=? a then
    let r := a - 112 * 2 ^ 23 in (r + 4095 + r / 2 ^ 13 mod 2) / 2 ^ 13
  else if 102 * 2 ^ 23 <=? a then
    let sig := 2 ^ 23 + a mod 2 ^ 23 in
    let shift := 126 - a / 2 ^ 23 in
    let rem := sig mod 2 ^ shift in
    let q := sig / 2 ^ shift in
    q + (if (2 ^ (shift - 1) <? rem) || ((rem =? 2 ^ (shift - 1)) && negb (q mod 2 =? 0)) then 1 else 0)
  else 0.

Lemma fp16_code_range a : 0 <= a < 2 ^ 31 → 0 <= fp16_code a < 2 ^ 15.
Proof.
  intros Ha. unfold fp16_code. destruct (Z.ltb_spec 0x7F800000 a); [lia|].
  destruct (Z.leb_spec 0x47800000 a); [lia|]. destruct (Z.leb_spec (113 * 2 ^ 23) a).
  { set (r := a - 112 * 2 ^ 23). pose proof (Z.mod_pos_bound (r / 2 ^ 13) 2 ltac:(lia)). cbv zeta.
    split; [apply Z.div_pos; lia|apply Z.div_lt_upper_bound; lia]. }
  destruct (Z.leb_spec (102 * 2 ^ 23) a); [|lia]. cbv zeta.
  set (shift := 126 - a / 2 ^ 23).
  assert (102 <= a / 2 ^ 23 <= 112).
  { split; [apply Z.div_le_lower_bound; lia|]. enough (a / 2 ^ 23 < 113) by lia. apply Z.div_lt_upper_bound; lia. }
  pose proof (Z.mod_pos_bound a (2 ^ 23) ltac:(lia)).
  pose proof (Z.pow_pos_nonneg 2 shift ltac:(lia) ltac:(lia)).
  assert (0 <= (2 ^ 23 + a mod 2 ^ 23) / 2 ^ shift < 2 ^ 10).
  { split; [apply Z.div_pos; lia|]. apply Z.div_lt_upper_bound; [lia|].
    pose proof (Z.pow_le_mono_r 2 14 shift ltac:(lia) ltac:(lia)). lia. }
  case_match; lia.
Qed.

Lemma u32_small z : 0 <= z < 2 ^ 32 → u32 z = z.
Proof. apply Z.mod_small. Qed.

Lemma land_1 q : Z.land q 1 = q mod 2.
Proof. exact (land_mask q 1 ltac:(lia)). Qed.

(** The two rounding computations, free of wrap-around. *)
Lemma normal_word a :
  113 * 2 ^ 23 <= a < 2 ^ 31 →
  let rebased := u32 (a - u32 (Z.shiftl 112 23)) in
  let r := a - 112 * 2 ^ 23 in
  Z.shiftr (u32 (rebased + 0x0FFF + Z.land (Z.shiftr rebased 13) 1)) 13 = (r + 4095 + r / 2 ^ 13 mod 2) / 2 ^ 13.
Proof.
  intros Ha. cbv zeta. change (u32 (Z.shiftl 112 23)) with (112 * 2 ^ 23).
  rewrite (u32_small (a - _)) by lia. set (r := a - 112 * 2 ^ 23).
  replace (Z.land (Z.shiftr r 13) 1) with (r / 2 ^ 13 mod 2).
  2:{ by rewrite Z.shiftr_div_pow2, land_1 by lia. }
  pose proof (Z.mod_pos_bound (r / 2 ^ 13) 2 ltac:(lia)).
  rewrite u32_small by (unfold r in *; lia). by rewrite Z.shiftr_div_pow2 by lia.
Qed.

Lemma subnormal_word a :
  102 * 2 ^ 23 <= a < 113 * 2 ^ 23 →
  let sig := Z.lor 0x00800000 (Z.land a 0x007FFFFF) in
  let shift := u32 (126 - a / 2 ^ 23) in
  sig = 2 ^ 23 + a mod 2 ^ 23 ∧ shift = 126 - a / 2 ^ 23 ∧ 14 <= shift <= 24 ∧
  Z.shiftr sig shift = sig / 2 ^ shift ∧ 0 <= sig / 2 ^ shift < 2 ^ 10 ∧
  Z.land sig (u32 (u32 (Z.shiftl 1 shift) - 1)) = sig mod 2 ^ shift ∧
  u32 (Z.shiftl 1 (u32 (shift - 1))) = 2 ^ (shift - 1).
Proof.
  intros Ha. cbv zeta.
  assert (102 <= a / 2 ^ 23 <= 112).
  { split; [apply Z.div_le_lower_bound; lia|]. enough (a / 2 ^ 23 < 113) by lia. apply Z.div_lt_upper_bound; lia. }
  set (e := a / 2 ^ 23) in *. rewrite (u32_small (126 - e)) by lia. set (shift := 126 - e).
  change 0x007FFFFF with (2 ^ 23 - 1). rewrite land_mask by lia.
  pose proof (Z.mod_pos_bound a (2 ^ 23) ltac:(lia)) as Hm.
  change 0x00800000 with (1 * 2 ^ 23). rewrite lor_high by lia. rewrite Z.mul_1_l.
  set (sig := 2 ^ 23 + a mod 2 ^ 23) in *.
  pose proof (Z.pow_le_mono_r 2 14 shift ltac:(lia) ltac:(lia)).
  pose proof (Z.pow_le_mono_r 2 shift 24 ltac:(lia) ltac:(lia)).
  rewrite !Z.shiftl_mul_pow2, !Z.mul_1_l by lia.
  rewrite (u32_small (2 ^ shift)), (u32_small (2 ^ shift - 1)), (u32_small (shift - 1)) by (unfold sig, shift in *; lia).
  split_and!; [done|done|lia|lia|by rewrite Z.shiftr_div_pow2 by lia|apply Z.div_pos; lia|
    apply Z.div_lt_upper_bound; lia|by rewrite land_mask by lia|].
  rewrite Z.shiftl_mul_pow2, Z.mul_1_l by lia.
  pose proof (Z.pow_le_mono_r 2 (shift - 1) 24 ltac:(lia) ltac:(lia)).
  pose proof (Z.pow_pos_nonneg 2 (shift - 1) ltac:(lia) ltac:(lia)). apply u32_small. lia.
Qed.

Lemma Fp32BitsToFp16BitsRne_code b :
  0 <= b < 2 ^ 32 → Fp32BitsToFp16BitsRne b = b / 2 ^ 31 * 2 ^ 15 + fp16_code (b mod 2 ^ 31).
Proof.
  intros Hb. unfold Fp32BitsToFp16BitsRne. cbv zeta. rewrite sign_word by done.
  change 0x7FFFFFFF with (2 ^ 31 - 1). rewrite land_mask by lia.
  pose proof (Z.mod_pos_bound b (2 ^ 31) ltac:(lia)) as Ha. set (a := b mod 2 ^ 31) in *.
  pose proof (fp16_code_range a ltac:(lia)) as Hc.
  pose proof (Z.div_pos b (2 ^ 31) ltac:(lia) ltac:(lia)).
  pose proof (Z.div_lt_upper_bound b (2 ^ 31) 2 ltac:(lia) ltac:(lia)). set (s := b / 2 ^ 31) in *.
  assert (∀ x, x = fp16_code a → u16 (Z.lor (s * 2 ^ 15) x) = s * 2 ^ 15 + fp16_code a) as Hword.
  { intros x ->. rewrite lor_high by lia. unfold u16. apply Z.mod_small. lia. }
  unfold fp16_code in Hword at 1.
  destruct (Z.ltb_spec 0x7F800000 a); [by apply Hword|].
  destruct (Z.leb_spec 0x47800000 a); [by apply Hword|].
  rewrite Z.shiftr_div_pow2 by lia.
  assert ((113 <=? a / 2 ^ 23) = (113 * 2 ^ 23 <=? a)) as ->.
  { pose proof (Z.mul_div_le a (2 ^ 23) ltac:(lia)). pose proof (Z.mul_succ_div_gt a (2 ^ 23) ltac:(lia)).
    destruct (Z.leb_spec 113 (a / 2 ^ 23)), (Z.leb_spec (113 * 2 ^ 23) a); lia. }
  assert ((102 <=? a / 2 ^ 23) = (102 * 2 ^ 23 <=? a)) as ->.
  { pose proof (Z.mul_div_le a (2 ^ 23) ltac:(lia)). pose proof (Z.mul_succ_div_gt a (2 ^ 23) ltac:(lia)).
    destruct (Z.leb_spec 102 (a / 2 ^ 23)), (Z.leb_spec (102 * 2 ^ 23) a); lia. }
  destruct (Z.leb_spec (113 * 2 ^ 23) a).
  - apply Hword. rewrite normal_word by lia. done.
  - destruct (Z.leb_spec (102 * 2 ^ 23) a); [|specialize (Hword 0 eq_refl); rewrite <- Hword].
    + apply Hword. destruct (subnormal_word a ltac:(lia)) as (Hsig & Hsh & Hb14 & Hq & Hq2 & Hrem & Hhalf).
      rewrite Hq, Hrem, Hhalf, land_1. rewrite Hsh, Hsig in *. apply u32_small. case_match; lia.
    + rewrite Z.lor_0_r. unfold u16. rewrite Z.mod_small; lia.
Qed.

(** ** Correct rounding *)

(** Values around a normal pattern: [E] is the FP16 exponent field. *)
Lemma fp32_units_at e m : 1 <= e → 0 <= m < 2 ^ 23 → fp32_units (e * 2 ^ 23 + m) = (2 ^ 23 + m) * 2 ^ (e - 1).
Proof.
  intros He Hm. unfold fp32_units, units. destruct (Z.ltb_spec (e * 2 ^ 23 + m) (2 ^ 23)); [lia|].
  rewrite <- (Z.mod_unique (e * 2 ^ 23 + m) (2 ^ 23) e m), <- (Z.div_unique (e * 2 ^ 23 + m) (2 ^ 23) e m) by lia.
  done.
Qed.

Lemma fp16_units_at e m : 1 <= e → 0 <= m < 2 ^ 10 → fp16_units (e * 2 ^ 10 + m) = (2 ^ 10 + m) * 2 ^ (e + 124).
Proof.
  intros He Hm. unfold fp16_units, units. destruct (Z.ltb_spec (e * 2 ^ 10 + m) (2 ^ 10)); [lia|].
  rewrite <- (Z.mod_unique (e * 2 ^ 10 + m) (2 ^ 10) e m), <- (Z.div_unique (e * 2 ^ 10 + m) (2 ^ 10) e m) by lia.
  rewrite <- Z.mul_assoc, <- Z.pow_add_r by lia. do 2 f_equal. lia.
Qed.

(** The next pattern is one step of the mantissa away, across a carry too. *)
Lemma fp16_units_next e m : 1 <= e → 0 <= m < 2 ^ 10 →
  fp16_units (e * 2 ^ 10 + m + 1) = (2 ^ 10 + m + 1) * 2 ^ (e + 124).
Proof.
  intros He Hm. destruct (Z.eq_dec m (2 ^ 10 - 1)) as [->|].
  - replace (e * 2 ^ 10 + (2 ^ 10 - 1) + 1) with ((e + 1) * 2 ^ 10 + 0) by lia.
    rewrite fp16_units_at by lia. replace (e + 1 + 124) with (Z.succ (e + 124)) by lia.
    rewrite Z.pow_succ_r by lia. lia.
  - rewrite <- Z.add_assoc, fp16_units_at by lia. lia.
Qed.

Lemma fp16_units_low c : 0 <= c <= 2 ^ 10 → fp16_units c = c * 2 ^ 125.
Proof.
  intros Hc. destruct (Z.eq_dec c (2 ^ 10)) as [->|]; [done|]. unfold fp16_units, units.
  destruct (Z.ltb_spec c (2 ^ 10)); [done|lia].
Qed.

Lemma parity_mod2 q : Z.odd q = negb (q mod 2 =? 0).
Proof. rewrite Zmod_odd. by destruct (Z.odd q). Qed.

Lemma rne_normal a :
  113 * 2 ^ 23 <= a < 0x47800000 → nearest_even (fp32_units a) (fp16_code a).
Proof.
  intros Ha. unfold fp16_code. destruct (Z.ltb_spec 0x7F800000 a); [lia|].
  destruct (Z.leb_spec 0x47800000 a); [lia|]. destruct (Z.leb_spec (113 * 2 ^ 23) a); [|lia]. cbv zeta.
  set (r := a - 112 * 2 ^ 23).
  pose proof (Z.div_mod r (2 ^ 13) ltac:(lia)) as Hq. pose proof (Z.mod_pos_bound r (2 ^ 13) ltac:(lia)) as Ht.
  set (q := r / 2 ^ 13) in *. set (t := r mod 2 ^ 13) in *.
  pose proof (Z.div_mod q (2 ^ 10) ltac:(lia)) as He. pose proof (Z.mod_pos_bound q (2 ^ 10) ltac:(lia)) as Hm.
  set (e := q / 2 ^ 10) in *. set (m := q mod 2 ^ 10) in *.
  assert (1 <= e <= 30) as Her by (unfold r in *; lia).
  assert (fp32_units a = fp16_units q + t * 2 ^ (e + 111)) as Hx.
  { replace a with ((e + 112) * 2 ^ 23 + (m * 2 ^ 13 + t)) by (unfold r in *; lia).
    rewrite fp32_units_at by lia. replace q with (e * 2 ^ 10 + m) by lia. rewrite fp16_units_at by lia.
    replace (e + 112 - 1) with (e + 111) by lia. replace (e + 124) with (13 + (e + 111)) by lia.
    rewrite (Z.pow_add_r 2 13) by lia. lia. }
  assert (fp16_units (q + 1) = fp16_units q + 2 ^ 13 * 2 ^ (e + 111)) as Hx1.
  { replace q with (e * 2 ^ 10 + m) by lia. rewrite fp16_units_next, fp16_units_at by lia.
    replace (e + 124) with (13 + (e + 111)) by lia. rewrite (Z.pow_add_r 2 13) by lia. lia. }
  pose proof (Z.pow_pos_nonneg 2 (e + 111) ltac:(lia) ltac:(lia)) as HP. set (P := 2 ^ (e + 111)) in *.
  pose proof (Z.mod_pos_bound q 2 ltac:(lia)) as Hpar.
  set (up := (2 ^ 12 <? t) || ((t =? 2 ^ 12) && Z.odd q)).
  assert ((r + 4095 + q mod 2) / 2 ^ 13 = q + (if up then 1 else 0)) as ->.
  { symmetry. apply (Z.div_unique _ _ _ (t + 4095 + q mod 2 - (if up then 2 ^ 13 else 0))); [|destruct up; lia].
    left. unfold up. rewrite parity_mod2.
    destruct (Z.ltb_spec (2 ^ 12) t), (Z.eqb_spec t (2 ^ 12)), (Z.eqb_spec (q mod 2) 0); cbn [orb andb negb]; lia. }
  apply nearest_even_between; [lia|rewrite Hx, Hx1; nia|]. rewrite Hx, Hx1.
  unfold up. rewrite orb_true_iff, andb_true_iff, Z.ltb_lt, Z.eqb_eq. split.
  - intros [?|[-> ?]]; [left; nia|right; split; [lia|done]].
  - intros [?|[? ?]]; [left; nia|right; split; [nia|done]].
Qed.

Lemma rne_subnormal a :
  102 * 2 ^ 23 <= a < 113 * 2 ^ 23 → nearest_even (fp32_units a) (fp16_code a).
Proof.
  intros Ha. unfold fp16_code. destruct (Z.ltb_spec 0x7F800000 a); [lia|].
  destruct (Z.leb_spec 0x47800000 a); [lia|]. destruct (Z.leb_spec (113 * 2 ^ 23) a); [lia|].
  destruct (Z.leb_spec (102 * 2 ^ 23) a); [|lia]. cbv zeta.
  pose proof (Z.div_mod a (2 ^ 23) ltac:(lia)) as Hdm. pose proof (Z.mod_pos_bound a (2 ^ 23) ltac:(lia)) as Hm.
  set (e := a / 2 ^ 23) in *. set (m := a mod 2 ^ 23) in *.
  assert (102 <= e <= 112) as He by lia. set (shift := 126 - e).
  assert (fp32_units a = (2 ^ 23 + m) * 2 ^ (e - 1)) as Hx.
  { replace a with (e * 2 ^ 23 + m) by lia. apply fp32_units_at; lia. }
  pose proof (Z.pow_pos_nonneg 2 (shift - 1) ltac:(lia) ltac:(lia)) as Hh.
  assert (2 ^ shift = 2 * 2 ^ (shift - 1)) as Hs.
  { rewrite <- Z.pow_succ_r by lia. f_equal. lia. }
  assert (2 ^ shift * 2 ^ (e - 1) = 2 ^ 125) as Hsp.
  { rewrite <- Z.pow_add_r by lia. f_equal. lia. }
  pose proof (Z.pow_le_mono_r 2 14 shift ltac:(lia) ltac:(lia)) as H14.
  set (sig := 2 ^ 23 + m) in *.
  pose proof (Z.div_mod sig (2 ^ shift) ltac:(lia)) as Hqr.
  pose proof (Z.mod_pos_bound sig (2 ^ shift) ltac:(lia)) as Ht.
  assert (0 <= sig / 2 ^ shift < 2 ^ 10) as Hq.
  { split; [apply Z.div_pos; lia|apply Z.div_lt_upper_bound; lia]. }
  set (q := sig / 2 ^ shift) in *. set (t := sig mod 2 ^ shift) in *.
  rewrite <- parity_mod2. pose proof (Z.pow_pos_nonneg 2 (e - 1) ltac:(lia) ltac:(lia)) as HP.
  set (P := 2 ^ (e - 1)) in *. set (half := 2 ^ (shift - 1)) in *.
  assert (fp16_units q = q * (2 * half * P) ∧ fp16_units (q + 1) = (q + 1) * (2 * half * P)) as [Hv0 Hv1].
  { rewrite !fp16_units_low by lia. rewrite <- Hsp, Hs. lia. }
  apply nearest_even_between; [lia|rewrite Hv0, Hv1, Hx; nia|]. rewrite Hv0, Hv1, Hx.
  rewrite orb_true_iff, andb_true_iff, Z.ltb_lt, Z.eqb_eq. split.
  - intros [?|[-> ?]]; [left; nia|right; split; [nia|done]].
  - intros [?|[? ?]]; [left; nia|right; split; [nia|done]].
Qed.

Lemma rne_zero a : 0 <= a < 102 * 2 ^ 23 → nearest_even (fp32_units a) (fp16_code a).
Proof.
  intros Ha. assert (0 <= fp32_units a < 2 ^ 124) as Hx.
  { split.
    - unfold fp32_units. pose proof (units_mono 23 0 a ltac:(lia) ltac:(lia)). by change (units 23 0) with 0 in *.
    - unfold fp32_units. pose proof (units_mono 23 a (101 * 2 ^ 23 + (2 ^ 23 - 1)) ltac:(lia) ltac:(lia)) as Hle.
      change (units 23 (101 * 2 ^ 23 + (2 ^ 23 - 1))) with (16777215 * 2 ^ 100) in Hle. lia. }
  unfold fp16_code. destruct (Z.ltb_spec 0x7F800000 a); [lia|]. destruct (Z.leb_spec 0x47800000 a); [lia|].
  destruct (Z.leb_spec (113 * 2 ^ 23) a); [lia|]. destruct (Z.leb_spec (102 * 2 ^ 23) a); [lia|].
  apply (nearest_even_between _ 0 false); [lia| |].
  - change (fp16_units 0) with 0. change (fp16_units (0 + 1)) with (2 ^ 125). lia.
  - change (fp16_units 0) with 0. change (fp16_units (0 + 1)) with (2 ^ 125). split; [done|lia].
Qed.

Lemma rne_overflow a : 0x47800000 <= a <= 0x7F800000 → nearest_even (fp32_units a) (fp16_code a).
Proof.
  intros Ha. unfold fp16_code. destruct (Z.ltb_spec 0x7F800000 a); [lia|].
  destruct (Z.leb_spec 0x47800000 a); [|lia]. split; [lia|]. intros c Hc Hne. left.
  assert (fp16_units 0x7C00 <= fp32_units a).
  { unfold fp32_units. change (fp16_units 0x7C00) with (units 23 0x47800000). apply units_mono; lia. }
  assert (fp16_units c < fp16_units 0x7C00).
  { unfold fp16_units. pose proof (units_succ 10 c ltac:(lia) ltac:(lia)).
    pose proof (units_mono 10 (c + 1) 0x7C00 ltac:(lia) ltac:(lia)). nia. }
  lia.
Qed.

(** C28. The conversion of binary32 to binary16 is correctly rounded on every
    word: the sign is kept; a NaN becomes the canonical quiet NaN; any other
    magnitude, infinity included, becomes the nearest binary16 pattern, ties to
    even, with subnormal results exact and 2^16 standing for infinity. *)
Theorem fp32_to_fp16_correctly_rounded b :
  0 <= b < 2 ^ 32 →
  let a := b mod 2 ^ 31 in
  ∃ code, Fp32BitsToFp16BitsRne b = b / 2 ^ 31 * 2 ^ 15 + code ∧ 0 <= code < 2 ^ 15 ∧
    (a <= 0x7F800000 → nearest_even (fp32_units a) code) ∧ (0x7F800000 < a → code = 0x7E00).
Proof.
  intros Hb a. pose proof (Z.mod_pos_bound b (2 ^ 31) ltac:(lia)) as Ha. fold a in Ha.
  pose proof (fp16_code_range a Ha). exists (fp16_code a).
  split_and!; [by apply Fp32BitsToFp16BitsRne_code|lia|lia| |].
  - intros Hfin. destruct (Z.lt_ge_cases a (102 * 2 ^ 23)) as [Hz|]; [apply rne_zero; lia|].
    destruct (Z.lt_ge_cases a (113 * 2 ^ 23)); [apply rne_subnormal; lia|].
    destruct (Z.lt_ge_cases a 0x47800000); [apply rne_normal; lia|apply rne_overflow; lia].
  - intros Hnan. unfold fp16_code. by destruct (Z.ltb_spec 0x7F800000 a); [|lia].
Qed.

Lemma fp32_to_fp16_correctly_rounded_witness :
  0 <= 0xC7800000 < 2 ^ 32 ∧ Fp32BitsToFp16BitsRne 0xC7800000 = 0xFC00 ∧
  ∃ code, Fp32BitsToFp16BitsRne 0x3F801000 = 0x3F801000 / 2 ^ 31 * 2 ^ 15 + code ∧ 0 <= code < 2 ^ 15 ∧
    (0x3F801000 mod 2 ^ 31 <= 0x7F800000 → nearest_even (fp32_units (0x3F801000 mod 2 ^ 31)) code) ∧
    (0x7F800000 < 0x3F801000 mod 2 ^ 31 → code = 0x7E00).
Proof. split; [done|]. split; [done|]. apply (fp32_to_fp16_correctly_rounded 0x3F801000). done. Defined.

(** ** The BF16 inputs of the loader *)

Lemma Bf16BitsToFp32Bits_shift w : 0 <= w < 2 ^ 16 → Bf16BitsToFp32Bits w = w * 2 ^ 16.
Proof. intros. unfold Bf16BitsToFp32Bits. rewrite Z.shiftl_mul_pow2 by lia. apply u32_small. lia. Qed.

(** Sign and magnitude of a BF16 word. *)
Definition bf16_sign (w : Z) : Z := w / 2 ^ 15.
Definition bf16_abs (w : Z) : Z := w mod 2 ^ 15.
Definition bf16_units (w : Z) : Z := fp32_units (bf16_abs w * 2 ^ 16).

Lemma bf16_code w :
  0 <= w < 2 ^ 16 → Bf16BitsToFp16BitsRne w = bf16_sign w * 2 ^ 15 + fp16_code (bf16_abs w * 2 ^ 16).
Proof.
  intros Hw. unfold Bf16BitsToFp16BitsRne. rewrite Bf16BitsToFp32Bits_shift by done.
  rewrite Fp32BitsToFp16BitsRne_code by lia. unfold bf16_sign, bf16_abs.
  rewrite (Zdiv_mult_cancel_r w (2 ^ 15) (2 ^ 16) ltac:(lia) : w * 2 ^ 16 / 2 ^ 31 = w / 2 ^ 15).
  by rewrite (Zmult_mod_distr_r w (2 ^ 15) (2 ^ 16) : w * 2 ^ 16 mod 2 ^ 31 = w mod 2 ^ 15 * 2 ^ 16).
Qed.

Lemma Bf16OverflowsFp16_spec w :
  0 <= w < 2 ^ 16 → Bf16OverflowsFp16 w = (0x4780 <=? bf16_abs w) && (bf16_abs w <=? 0x7F80).
Proof.
  intros Hw. unfold Bf16OverflowsFp16, bf16_abs. change 0x7FFF with (2 ^ 15 - 1).
  rewrite land_mask by lia. pose proof (Z.mod_pos_bound w (2 ^ 15) ltac:(lia)).
  unfold u16. by rewrite Z.mod_small by lia.
Qed.

(** FP16's largest finite value, 65504, in units of 2^-149. *)
Definition fp16_max_units : Z := 65504 * 2 ^ 149.

(** BF16 has fewer mantissa bits than FP16: in FP16's normal range nothing is
    rounded. *)
Lemma bf16_exact w :
  0 <= w < 2 ^ 16 → 113 * 2 ^ 7 <= bf16_abs w < 0x4780 →
  fp16_units (fp16_code (bf16_abs w * 2 ^ 16)) = bf16_units w.
Proof.
  intros Hw Ha. unfold bf16_units. set (a := bf16_abs w) in *.
  pose proof (Z.div_mod a (2 ^ 7) ltac:(lia)) as Hd. pose proof (Z.mod_pos_bound a (2 ^ 7) ltac:(lia)) as Hm.
  set (e := a / 2 ^ 7) in *. set (m := a mod 2 ^ 7) in *.
  unfold fp16_code. destruct (Z.ltb_spec 0x7F800000 (a * 2 ^ 16)); [lia|].
  destruct (Z.leb_spec 0x47800000 (a * 2 ^ 16)); [lia|].
  destruct (Z.leb_spec (113 * 2 ^ 23) (a * 2 ^ 16)); [|lia]. cbv zeta.
  replace (a * 2 ^ 16 - 112 * 2 ^ 23) with ((((e - 112) * 2 ^ 10) + m * 2 ^ 3) * 2 ^ 13) by lia.
  rewrite Z.div_mul by lia. set (q := (e - 112) * 2 ^ 10 + m * 2 ^ 3).
  pose proof (Z.mod_pos_bound q 2 ltac:(lia)).
  rewrite <- (Z.div_unique (q * 2 ^ 13 + 4095 + q mod 2) (2 ^ 13) q (4095 + q mod 2)) by lia.
  unfold q. rewrite fp16_units_at by lia.
  replace (a * 2 ^ 16) with (e * 2 ^ 23 + m * 2 ^ 16) by lia. rewrite fp32_units_at by lia.
  replace (e - 112 + 124) with (13 + (e - 1)) by (unfold e; lia). rewrite (Z.pow_add_r 2 13) by lia. lia.
Qed.

Lemma bf16_units_mono w v :
  bf16_abs w <= bf16_abs v → 0 <= bf16_abs w → bf16_units w <= bf16_units v.
Proof. intros. unfold bf16_units, fp32_units. apply units_mono; lia. Qed.

(** The loader's overflow test is exact, and nothing slips past it: a word
    is refused exactly when it is not a NaN and its magnitude exceeds 65504
    (infinity included); an accepted number converts to a finite FP16 number,
    without any rounding when its magnitude is at least 2^-14. *)
Theorem bf16_conversion w :
  0 <= w < 2 ^ 16 →
  (Bf16OverflowsFp16 w = true ↔ bf16_abs w <= 0x7F80 ∧ fp16_max_units < bf16_units w) ∧
  (Bf16OverflowsFp16 w = false → bf16_abs w <= 0x7F80 →
     let code := fp16_code (bf16_abs w * 2 ^ 16) in
     Bf16BitsToFp16BitsRne w = bf16_sign w * 2 ^ 15 + code ∧ code < 0x7C00 ∧
     nearest_even (bf16_units w) code ∧
     (2 ^ (149 - 14) <= bf16_units w → fp16_units code = bf16_units w)).
Proof.
  intros Hw. rewrite Bf16OverflowsFp16_spec by done.
  assert (0 <= bf16_abs w < 2 ^ 15) as Hr by (unfold bf16_abs; apply Z.mod_pos_bound; lia).
  assert (∀ v, 0 <= v <= bf16_abs w → units 23 (v * 2 ^ 16) <= bf16_units w) as Hlo.
  { intros v Hv. unfold bf16_units, fp32_units. apply units_mono; lia. }
  assert (∀ v, bf16_abs w <= v → bf16_units w <= units 23 (v * 2 ^ 16)) as Hhi.
  { intros v Hv. unfold bf16_units, fp32_units. apply units_mono; lia. }
  split.
  - rewrite andb_true_iff, !Z.leb_le. split.
    + intros [H1 H2]. split; [done|]. specialize (Hlo 0x4780 ltac:(lia)).
      change (units 23 (0x4780 * 2 ^ 16)) with (65536 * 2 ^ 149) in Hlo. unfold fp16_max_units. lia.
    + intros [H1 H2]. split; [|done]. destruct (Z.le_gt_cases 0x4780 (bf16_abs w)); [done|exfalso].
      specialize (Hhi 0x477F ltac:(lia)). change (units 23 (0x477F * 2 ^ 16)) with (65280 * 2 ^ 149) in Hhi.
      unfold fp16_max_units in *. lia.
  - intros Hno Hnan. rewrite andb_false_iff, !Z.leb_gt in Hno. destruct Hno as [Hlt|]; [|lia].
    cbv zeta. split; [by apply bf16_code|].
    assert (nearest_even (bf16_units w) (fp16_code (bf16_abs w * 2 ^ 16))) as Hne.
    { unfold bf16_units. set (a := bf16_abs w * 2 ^ 16) in *.
      destruct (Z.lt_ge_cases a (102 * 2 ^ 23)); [apply rne_zero; lia|].
      destruct (Z.lt_ge_cases a (113 * 2 ^ 23)); [apply rne_subnormal; lia|]. apply rne_normal. lia. }
    split; [|split; [done|]].
    + pose proof Hne as [Hc Hall]. destruct (Z.eq_dec (fp16_code (bf16_abs w * 2 ^ 16)) 0x7C00) as [Heq|]; [|lia].
      exfalso. rewrite Heq in Hall. specialize (Hall 0x7BFF ltac:(lia) ltac:(lia)).
      specialize (Hhi 0x477F ltac:(lia)). change (units 23 (0x477F * 2 ^ 16)) with (65280 * 2 ^ 149) in Hhi.
      change (fp16_units 0x7C00) with (65536 * 2 ^ 149) in Hall.
      change (fp16_units 0x7BFF) with (65504 * 2 ^ 149) in Hall. lia.
    + intros Hbig. apply bf16_exact; [done|]. split; [|done].
      destruct (Z.le_gt_cases (113 * 2 ^ 7) (bf16_abs w)); [done|exfalso].
      specialize (Hhi (113 * 2 ^ 7 - 1) ltac:(lia)).
      change (units 23 ((113 * 2 ^ 7 - 1) * 2 ^ 16)) with (255 * 2 ^ 127) in Hhi. lia.
Qed.

Lemma bf16_conversion_witness :
  0 <= 0xC77F < 2 ^ 16 ∧ Bf16OverflowsFp16 0x4780 = true ∧ Bf16BitsToFp16BitsRne 0xC77F = 0xFBF8 ∧
  (Bf16OverflowsFp16 0xC77F = true ↔ bf16_abs 0xC77F <= 0x7F80 ∧ fp16_max_units < bf16_units 0xC77F).
Proof. split; [done|]. split; [done|]. split; [done|]. apply (bf16_conversion 0xC77F). done. Defined.
