(* ===== verification/Uploader.v ===== *)
(** * The staged weight upload ([loader/convert.{hpp,cpp}])

    Elements are converted into one of two pinned slots and copied to the
    device asynchronously.  The stream is an explicit queue of commands in issue
    order; the copy engine may execute any number of them at any point of the
    host code (the schedule [dma] is arbitrary), and a copy reads its slot when
    it executes, not when it is issued.  The theorem says that the events make
    this invisible: whatever the schedule, the device receives the converted
    elements. *)

From S2P Require Import Prelude Types HalfFloat.

Inductive load_error : Type :=
  | Fp16Overflow (tensor : string) (element : Z) (bf16_bits : Z)
  | UnsupportedDtype (tensor : string)
  | StagingEmpty
  | StagingTooSmall (bytes : Z)
  | CudaFailed (what : string)
  | SourceTooShort
  | LoadOutOfFuel.

(** ** The stream and the uploader *)

Inductive command : Type :=
  | Copy (slot : bool) (dst : Z) (len : nat)
  | Record (slot : bool).

Record StagedUploader : Type := mkUploader {
  slot_bytes_ : Z;
  stage : bool → list Z;
  slot_pending_ : bool → bool;
  next_slot_ : bool;
  (** the environment: the stream's unexecuted commands, device memory (in
      16-bit elements), and how many runtime calls have been made *)
  queue : list command;
  device : Z → Z;
  clock : nat;
}.

Definition chunk_elements (u : StagedUploader) : Z := slot_bytes_ u / 2.

Definition set_stage v u := mkUploader (slot_bytes_ u) v (slot_pending_ u) (next_slot_ u) (queue u) (device u) (clock u).
Definition set_pending v u := mkUploader (slot_bytes_ u) (stage u) v (next_slot_ u) (queue u) (device u) (clock u).
Definition set_next v u := mkUploader (slot_bytes_ u) (stage u) (slot_pending_ u) v (queue u) (device u) (clock u).
Definition set_queue v d u := mkUploader (slot_bytes_ u) (stage u) (slot_pending_ u) (next_slot_ u) v d (clock u).
Definition set_clock v u := mkUploader (slot_bytes_ u) (stage u) (slot_pending_ u) (next_slot_ u) (queue u) (device u) v.

Definition upd (f : bool → list Z) (s : bool) (v : list Z) : bool → list Z := λ t, if eqb t s then v else f t.
Definition updb (f : bool → bool) (s v : bool) : bool → bool := λ t, if eqb t s then v else f t.

(** Executing a command: a copy moves the slot's present content. *)
Definition exec1 (st : bool → list Z) (d : Z → Z) (k : command) : Z → Z :=
  match k with
  | Copy s dst n => λ a, if (dst <=? a) && (a <? dst + Z.of_nat n)
                         then default 0 (st s !! Z.to_nat (a - dst)) else d a
  | Record _ => d
  end.
Definition exec (st : bool → list Z) (d : Z → Z) (q : list command) : Z → Z := foldl (exec1 st) d q.

(** What remains once the last record of the slot's event has been reached. *)
Fixpoint after_record (s : bool) (q : list command) : option (list command) :=
  match q with
  | [] => None
  | k :: q' =>
      match after_record s q' with
      | Some r => Some r
      | None => match k with Record t => if eqb t s then Some q' else None | Copy _ _ _ => None end
      end
  end.

(** [static_cast<uint16_t>] of two little-endian bytes. *)
Definition word_at (src : list Z) (i : nat) : option Z :=
  match src !! (2 * i)%nat, src !! (2 * i + 1)%nat with
  | Some lo, Some hi => Some (lo + 256 * hi)
  | _, _ => None
  end.

Section uploader.
Variable dma : nat → nat.
Variable cuda_ok : nat → bool.
Notation UM := (M load_error StagedUploader).

(** The engine makes some progress. *)
Definition progress : UM () :=
  modify (λ u, let n := dma (clock u) in
    set_clock (S (clock u)) (set_queue (drop n (queue u)) (exec (stage u) (device u) (take n (queue u))) u)).

(** A runtime call: it may fail; otherwise its effect is [f].  The copy engine
    goes on either way. *)
Definition CudaCheck (what : string) (f : StagedUploader → StagedUploader) : UM () :=
  u ← get;
  if cuda_ok (clock u) then modify f;; progress else progress;; throw (CudaFailed what).

Definition EventSynchronize (s : bool) (u : StagedUploader) : StagedUploader :=
  match after_record s (queue u) with
  | None => u
  | Some rest =>
      set_queue rest (exec (stage u) (device u) (take (length (queue u) - length rest) (queue u))) u
  end.

Definition WaitSlot (s : bool) : UM () :=
  u ← get;
  if slot_pending_ u s then
    CudaCheck "cudaEventSynchronize(slot event)" (EventSynchronize s);;
    modify (λ u, set_pending (updb (slot_pending_ u) s false) u)
  else mret ().

(** [ConvertBf16ToFp16]: into the slot, element by element from index [i]. *)
Definition put_stage (s : bool) (i : nat) (v : Z) : UM () :=
  modify (λ u, set_stage (upd (stage u) s (<[i := v]> (stage u s))) u).

Fixpoint ConvertBf16ToFp16 (s : bool) (src : list Z) (src_base i : nat) (n : nat) (tensor : string) (index_base : Z) : UM () :=
  match n with
  | O => mret ()
  | S n' =>
      bf16 ← from_option_or SourceTooShort (word_at src (src_base + i));
      (if Bf16OverflowsFp16 bf16 then throw (Fp16Overflow tensor (index_base + Z.of_nat i) bf16) else mret ());;
      put_stage s i (Bf16BitsToFp16BitsRne bf16);;
      ConvertBf16ToFp16 s src src_base (S i) n' tensor index_base
  end.

(** [memcpy(stage, chunk_src, n * 2)] *)
Fixpoint copy_words (s : bool) (src : list Z) (src_base i : nat) (n : nat) : UM () :=
  match n with
  | O => mret ()
  | S n' =>
      w ← from_option_or SourceTooShort (word_at src (src_base + i));
      put_stage s i w;;
      copy_words s src src_base (S i) n'
  end.

(** One iteration of the chunk loop at element [offset]. *)
Definition upload_chunk (dst : Z) (src : list Z) (count : Z) (bf16 : bool) (tensor : string) (index_base offset : Z) :
    UM (Z + ()) :=
  if negb (offset <? count) then mret (inr ()) else
  u ← get;
  let chunk := chunk_elements u in
  let n := Z.to_nat (Z.min chunk (count - offset)) in
  let slot := next_slot_ u in
  WaitSlot slot;;
  progress;;
  (if bf16 then ConvertBf16ToFp16 slot src (Z.to_nat offset) 0 n tensor (index_base + offset)
   else copy_words slot src (Z.to_nat offset) 0 n);;
  progress;;
  CudaCheck "cudaMemcpyAsync(H2D weight chunk)" (λ u, set_queue (queue u ++ [Copy slot (dst + offset) n]) (device u) u);;
  CudaCheck "cudaEventRecord(slot event)" (λ u, set_queue (queue u ++ [Record slot]) (device u) u);;
  modify (λ u, set_next (negb slot) (set_pending (updb (slot_pending_ u) slot true) u));;
  mret (inl (offset + chunk)).

Definition Upload (dst : Z) (src : list Z) (count : Z) (src_dtype : Dtype) (tensor : string) (index_base : Z) : UM () :=
  match src_dtype with
  | kBF16 => loop LoadOutOfFuel (S (Z.to_nat count)) (upload_chunk dst src count true tensor index_base) 0
  | kF16 => loop LoadOutOfFuel (S (Z.to_nat count)) (upload_chunk dst src count false tensor index_base) 0
  | _ => throw (UnsupportedDtype tensor)
  end.

Definition Synchronize : UM () := WaitSlot false;; WaitSlot true.

End uploader.

Definition kMinStagingBytes : Z := 4 * 2 ^ 10.

(** What an uploader holds on the host: its pinned buffer and its two events. *)
Record Host : Type := mkHost { pinned_buffers : Z; slot_events : Z }.

Definition add_buffers n h := mkHost (pinned_buffers h + n) (slot_events h).
Definition add_events n h := mkHost (pinned_buffers h) (slot_events h + n).

Notation HM := (M load_error Host).

(** An exception leaving [m] destroys the members constructed before it. *)
Definition unwind_members {A} (destroy : Host → Host) (m : HM A) : HM A := λ h,
  match m h with
  | (Err e, h') => (Err e, destroy h')
  | r => r
  end.

Section new.
(** The answers of [cudaHostAlloc] and of the two [cudaEventCreateWithFlags]. *)
Variable host_alloc : bool.
Variable event_created : bool → bool.

Definition PinnedStagingBuffer_new (bytes : Z) : HM () :=
  if bytes =? 0 then throw StagingEmpty else
  if host_alloc then modify (add_buffers 1) else throw (CudaFailed "cudaHostAlloc(staging)").

Definition create_event (s : bool) : HM () :=
  if event_created s then modify (add_events 1) else throw (CudaFailed "cudaEventCreateWithFlags(slot event)").

(** The constructor over device memory [d]; the slots' initial content is
    whatever the allocation holds ([fill]).  Only members are destroyed when its
    body throws: the buffer is, an event already created is not. *)
Definition StagedUploader_new (staging_bytes : Z) (fill : bool → list Z) (d : Z → Z) : HM StagedUploader :=
  PinnedStagingBuffer_new staging_bytes;;
  unwind_members (add_buffers (-1)) (
    let slot_bytes := Z.land (staging_bytes / 2) (Z.lnot 1) in
    (if staging_bytes <? kMinStagingBytes then throw (StagingTooSmall staging_bytes) else mret ());;
    create_event false;;
    create_event true;;
    mret (mkUploader slot_bytes (λ s, resize (Z.to_nat (slot_bytes / 2)) 0 (fill s)) (λ _, false) false [] d 0)).

End new.

(** The destructor's part on the host: both events, then the buffer. *)
Definition release_host (h : Host) : Host := add_buffers (-1) (add_events (-2) h).

(** ** What the pending commands will write *)

Definition drain (u : StagedUploader) : Z → Z := exec (stage u) (device u) (queue u).

Definition no_copy (s : bool) (q : list command) : Prop :=
  Forall (λ k, match k with Copy t _ _ => t ≠ s | Record _ => True end) q.

(** Every queued copy out of a slot is followed by a record of its event. *)
Definition guarded (s : bool) (q : list command) : Prop :=
  no_copy s q ∨ ∃ pre post, q = pre ++ Record s :: post ∧ no_copy s post.

Record uploader_ok (u : StagedUploader) : Prop := {
  uo_chunk : 0 < chunk_elements u;
  uo_len : ∀ s, length (stage u s) = Z.to_nat (chunk_elements u);
  uo_guard : ∀ s, guarded s (queue u);
  uo_pending : ∀ s, slot_pending_ u s = false → no_copy s (queue u);
}.

Lemma exec_app st d q1 q2 : exec st d (q1 ++ q2) = exec st (exec st d q1) q2.
Proof. apply foldl_app. Qed.

Lemma exec_take_drop st d n q : exec st (exec st d (take n q)) (drop n q) = exec st d q.
Proof. by rewrite <- exec_app, take_drop. Qed.

Lemma exec_stage st s v q : no_copy s q → ∀ d, exec (upd st s v) d q = exec st d q.
Proof.
  induction 1 as [|k q Hk _ IH]; intros d; [done|].
  change (exec (upd st s v) (exec1 (upd st s v) d k) q = exec st (exec1 st d k) q). rewrite IH. f_equal.
  destruct k as [t dst n|]; [|done]. unfold exec1, upd. by rewrite (proj2 (eqb_false_iff t s) Hk).
Qed.

Lemma exec_ext st q : ∀ d d' a, (∀ a, d a = d' a) → exec st d q a = exec st d' q a.
Proof.
  induction q as [|k q IH]; intros d d' a Hd; [apply Hd|]. cbn. apply IH. intros b.
  destruct k; cbn; [|done]. by rewrite Hd.
Qed.

Lemma no_copy_app s q1 q2 : no_copy s (q1 ++ q2) ↔ no_copy s q1 ∧ no_copy s q2.
Proof. apply Forall_app. Qed.

Lemma no_copy_drop s n q : no_copy s q → no_copy s (drop n q).
Proof. apply Forall_drop. Qed.

Lemma guarded_drop s n q : guarded s q → guarded s (drop n q).
Proof.
  intros [Hn|(pre & post & -> & Hp)]; [left; by apply no_copy_drop|].
  destruct (Nat.le_gt_cases (length pre) n).
  - left. rewrite drop_app_ge by done. destruct (n - length pre)%nat as [|m]; cbn [drop].
    + by constructor.
    + by apply no_copy_drop.
  - right. exists (drop n pre), post. split; [|done]. by rewrite drop_app_le by lia.
Qed.

Lemma guarded_snoc s q k : guarded s q → no_copy s [k] → guarded s (q ++ [k]).
Proof.
  intros [Hn|(pre & post & -> & Hp)] Hk; [left; by apply no_copy_app|right].
  exists pre, (post ++ [k]). rewrite <- app_assoc. split; [done|by apply no_copy_app].
Qed.

(** Reaching the event of a slot leaves none of its copies behind. *)
Lemma after_record_suffix s q r : after_record s q = Some r → ∃ k pre, q = pre ++ k :: r.
Proof.
  revert r. induction q as [|k q IH]; intros r; cbn; [done|].
  destruct (after_record s q) as [r'|]; [intros [= <-]|].
  - destruct (IH r' eq_refl) as (k' & pre & ->). by exists k', (k :: pre).
  - destruct k as [|t]; [done|]. destruct (eqb t s); [intros [= <-]|done]. by exists (Record t), [].
Qed.

Lemma after_record_post s pre post :
  ∃ r, after_record s (pre ++ Record s :: post) = Some r ∧ ∃ n, r = drop n post.
Proof.
  assert (∃ r, after_record s (Record s :: post) = Some r ∧ ∃ n, r = drop n post) as (r & Hr & Hn).
  { cbn. rewrite eqb_reflx. destruct (after_record s post) as [r|] eqn:Hp.
    - destruct (after_record_suffix _ _ _ Hp) as (k & pre' & ->). exists r. split; [done|].
      exists (S (length pre')). by rewrite drop_app_ge, Nat.sub_succ_l, Nat.sub_diag by lia.
    - exists post. split; [done|]. by exists 0%nat. }
  exists r. split; [|done]. induction pre as [|k pre IH]; [done|]. cbn [app after_record]. by rewrite IH.
Qed.

Lemma EventSynchronize_spec s u :
  guarded s (queue u) →
  ∃ n, EventSynchronize s u = set_queue (drop n (queue u)) (exec (stage u) (device u) (take n (queue u))) u ∧
       no_copy s (drop n (queue u)).
Proof.
  unfold EventSynchronize. intros Hg. destruct (after_record s (queue u)) as [r|] eqn:Hr.
  - destruct (after_record_suffix _ _ _ Hr) as (k & pre & Hq).
    exists (length (queue u) - length r)%nat.
    assert (length (queue u) - length r = S (length pre))%nat as Hl.
    { rewrite Hq, length_app. cbn. lia. }
    assert (drop (length (queue u) - length r) (queue u) = r) as Hd.
    { rewrite Hl, Hq, drop_app_ge, Nat.sub_succ_l, Nat.sub_diag by lia. done. }
    rewrite Hd. split; [done|]. destruct Hg as [Hn|(pre' & post & Hq' & Hp)].
    + rewrite Hq in Hn. apply no_copy_app in Hn as [_ Hn]. by inversion Hn.
    + destruct (after_record_post s pre' post) as (r' & Hr' & n & ->). rewrite Hq', Hr' in Hr.
      injection Hr as <-. by apply no_copy_drop.
  - exists 0%nat. rewrite drop_0, take_0. split; [by destruct u|].
    destruct Hg as [|(pre & post & Hq & _)]; [done|].
    destruct (after_record_post s pre post) as (r & Hr' & _). rewrite Hq, Hr' in Hr. done.
Qed.

(** ** One step at a time *)

(** The engine has moved: host data is the same, the pending writes too. *)
Definition moved (u u' : StagedUploader) : Prop :=
  slot_bytes_ u' = slot_bytes_ u ∧ stage u' = stage u ∧ slot_pending_ u' = slot_pending_ u ∧
  next_slot_ u' = next_slot_ u ∧ drain u' = drain u ∧ ∃ n, queue u' = drop n (queue u).

Lemma moved_ok u u' : uploader_ok u → moved u u' → uploader_ok u'.
Proof.
  intros [H1 H2 H3 H4] (Hb & Hs & Hp & _ & _ & n & Hq).
  split; unfold chunk_elements in *; rewrite ?Hb, ?Hs, ?Hp, ?Hq; try done.
  - intros s. by apply guarded_drop.
  - intros s ?. by apply no_copy_drop, H4.
Qed.

(** What the device ends up with for one word. *)
Definition element (bf16 : bool) (w : Z) : Z := if bf16 then Bf16BitsToFp16BitsRne w else w.
Definition refused (bf16 : bool) (w : Z) : bool := bf16 && Bf16OverflowsFp16 w.

Section steps.
Variable dma : nat → nat.
Variable cuda_ok : nat → bool.
Hypothesis Hcuda : ∀ k, cuda_ok k = true.
Implicit Types (u : StagedUploader) (s : bool) (Q : () → StagedUploader → Prop)
  (R : load_error → StagedUploader → Prop).

Lemma wpx_progress u Q R : (∀ u', moved u u' → Q () u') → wpx (progress dma) Q R u.
Proof.
  intros HQ. unfold progress. apply wpx_modify, HQ. unfold moved, drain. cbn.
  split_and!; [done..| |by eexists]. apply exec_take_drop.
Qed.

Lemma wpx_CudaCheck what f u Q R :
  (∀ u', moved (f u) u' → Q () u') → wpx (CudaCheck dma cuda_ok what f) Q R u.
Proof using Hcuda.
  intros HQ. unfold CudaCheck. wpx_auto. rewrite Hcuda. wpx_auto. by apply wpx_progress.
Qed.

(** A slot that is free to be rewritten, in the middle of an iteration. *)
Record mid (s : bool) (u0 u : StagedUploader) : Prop := {
  md_bytes : slot_bytes_ u = slot_bytes_ u0;
  md_next : next_slot_ u = next_slot_ u0;
  md_ok : uploader_ok u;
  md_free : no_copy s (queue u);
  md_pending : slot_pending_ u s = false;
  md_drain : drain u = drain u0;
  md_keeps : ∀ t, no_copy t (queue u0) → no_copy t (queue u);
}.

Lemma mid_moved s u0 u u' : mid s u0 u → moved u u' → mid s u0 u'.
Proof.
  intros [? ? Ho Hf Hp Hd Hk] Hm. pose proof (moved_ok _ _ Ho Hm) as Ho'.
  destruct Hm as (Hb & Hs & Hpp & Hn & Hdd & n & Hq). split; try congruence.
  - rewrite Hq. by apply no_copy_drop.
  - intros t Ht. rewrite Hq. by apply no_copy_drop, Hk.
Qed.

Lemma updb_eq f s v : updb f s v s = v.
Proof. unfold updb. by rewrite eqb_reflx. Qed.

Lemma updb_ne f s v t : t ≠ s → updb f s v t = f t.
Proof. intros. unfold updb. by rewrite (proj2 (eqb_false_iff t s)). Qed.

Lemma wpx_WaitSlot s u Q R :
  uploader_ok u → (∀ u', mid s u u' → Q () u') → wpx (WaitSlot dma cuda_ok s) Q R u.
Proof using Hcuda.
  intros Ho HQ. unfold WaitSlot. wpx_auto. destruct (slot_pending_ u s) eqn:Hp.
  2:{ apply wpx_ret, HQ. split; try done. by apply (uo_pending _ Ho). }
  apply wpx_bind, wpx_CudaCheck. intros u1 H1. wpx_auto. apply HQ.
  destruct (EventSynchronize_spec s u (uo_guard _ Ho s)) as (n & Heq & Hfree). rewrite Heq in H1.
  assert (moved u (set_queue (drop n (queue u)) (exec (stage u) (device u) (take n (queue u))) u)) as H0.
  { unfold moved, drain. cbn. split_and!; [done..| |by eexists]. apply exec_take_drop. }
  pose proof (moved_ok _ _ (moved_ok _ _ Ho H0) H1) as Ho1.
  destruct H0 as (_ & _ & _ & _ & Hd0 & _). destruct H1 as (Hb & Hs & Hpp & Hn & Hd & m & Hq).
  assert (no_copy s (queue u1)) as Hf1 by (rewrite Hq; by apply no_copy_drop).
  split; cbn; [done|done| |done|apply updb_eq| |].
  - destruct Ho1 as [H1 H2 H3 H4]. split; cbn; [done..|]. intros t Ht.
    destruct (decide (t = s)) as [->|Hne]; [done|]. rewrite updb_ne in Ht by done. by apply H4.
  - change (drain u1 = drain u). by rewrite Hd.
  - intros t Ht. rewrite Hq. by apply no_copy_drop, no_copy_drop.
Qed.

Lemma upd_eq f s v : upd f s v s = v.
Proof. unfold upd. by rewrite eqb_reflx. Qed.

Lemma upd_ne f s v t : t ≠ s → upd f s v t = f t.
Proof. intros. unfold upd. by rewrite (proj2 (eqb_false_iff t s)). Qed.

Lemma mid_put s u0 u i v : mid s u0 u → mid s u0 (set_stage (upd (stage u) s (<[i := v]> (stage u s))) u).
Proof.
  intros [? ? [H1 H2 H3 H4] Hf Hp Hd Hk]. split; cbn; try done.
  - split; cbn; try done. intros t. destruct (decide (t = s)) as [->|Hne].
    + rewrite upd_eq, length_insert. apply H2.
    + rewrite upd_ne by done. apply H2.
  - rewrite <- Hd. unfold drain. cbn. by apply exec_stage.
Qed.

(** Filling the slot, in either mode; [bf16] tells which. *)
Definition stage_fill (bf16 : bool) s src base i n tensor index_base : M load_error StagedUploader () :=
  if bf16 then ConvertBf16ToFp16 s src base i n tensor index_base else copy_words s src base i n.

Definition words_from (src : list Z) (base i n : nat) : Prop :=
  ∀ j, (i <= j < i + n)%nat → is_Some (word_at src (base + j)).

Definition filled (bf16 : bool) (src : list Z) (base n : nat) (l : list Z) : Prop :=
  ∀ j w, (j < n)%nat → word_at src (base + j) = Some w → refused bf16 w = false ∧ l !! j = Some (element bf16 w).

(** The first refused element from [i] on. *)
Definition first_refused (bf16 : bool) (src : list Z) (base i j : nat) (w : Z) : Prop :=
  (i <= j)%nat ∧ word_at src (base + j) = Some w ∧ refused bf16 w = true ∧
  ∀ j' w', (i <= j' < j)%nat → word_at src (base + j') = Some w' → refused bf16 w' = false.

Lemma filled_put bf16 src base i l w :
  filled bf16 src base i l → word_at src (base + i) = Some w → refused bf16 w = false →
  (i < length l)%nat → filled bf16 src base (S i) (<[i := element bf16 w]> l).
Proof.
  intros Hf Hw Hr Hi j w' Hj Hw'. destruct (decide (j = i)) as [->|Hne].
  - rewrite list_lookup_insert_eq by done. assert (w' = w) as -> by congruence. done.
  - rewrite list_lookup_insert_ne by done. apply (Hf j w'); [lia|done].
Qed.

Lemma wpx_stage_fill bf16 s u0 src base tensor index_base n : ∀ i u Q R,
  mid s u0 u → words_from src base i n → filled bf16 src base i (stage u s) →
  (i + n <= Z.to_nat (chunk_elements u0))%nat →
  (∀ u', mid s u0 u' → filled bf16 src base (i + n) (stage u' s) → Q () u') →
  (∀ j w u', mid s u0 u' → first_refused bf16 src base i j w → (j < i + n)%nat →
     R (Fp16Overflow tensor (index_base + Z.of_nat j) w) u') →
  wpx (stage_fill bf16 s src base i n tensor index_base) Q R u.
Proof.
  induction n as [|n IH]; intros i u Q R Hm Hw Hf Hlen HQ HR.
  { assert (stage_fill bf16 s src base i 0 tensor index_base = mret ()) as -> by by destruct bf16.
    apply wpx_ret, HQ; [done|by rewrite Nat.add_0_r]. }
  destruct (Hw i ltac:(lia)) as [w Hwi].
  assert (i < length (stage u s))%nat as Hi.
  { rewrite (uo_len _ (md_ok _ _ _ Hm)). unfold chunk_elements in *. rewrite (md_bytes _ _ _ Hm). lia. }
  assert (wpx (put_stage s i (element bf16 w);; stage_fill bf16 s src base (S i) n tensor index_base) Q R u ∨
          refused bf16 w = true) as Hrest.
  { destruct (refused bf16 w) eqn:Hr; [by right|left]. unfold put_stage. wpx_auto.
    apply IH.
    - by apply mid_put.
    - intros j Hj. apply Hw. lia.
    - cbn. rewrite upd_eq. by apply filled_put.
    - lia.
    - intros u' Hm' Hf'. apply HQ; [done|]. by replace (i + S n)%nat with (S i + n)%nat by lia.
    - intros j w' u' Hm' (Hle & Hj & Hr' & Hall) Hlt. apply HR; [done| |lia].
      split_and!; [lia|done|done|]. intros j' w'' Hj' Hw''.
      destruct (decide (j' = i)) as [->|]; [congruence|]. apply (Hall j'); [lia|done]. }
  destruct bf16; cbn [stage_fill ConvertBf16ToFp16 copy_words] in *.
  - wpx_auto. rewrite Hwi. apply wpx_ret. apply wpx_bind. unfold refused in Hrest. cbn [andb] in Hrest.
    destruct (Bf16OverflowsFp16 w) eqn:Hov.
    + apply wpx_throw, HR; [done| |lia]. split_and!; [lia|done|done|lia].
    + apply wpx_ret. by destruct Hrest.
  - wpx_auto. rewrite Hwi. apply wpx_ret. by destruct Hrest.
Qed.

(** Issuing the copy of a filled slot and its event. *)
Definition with_copy s dst n u : StagedUploader := set_queue (queue u ++ [Copy s dst n]) (device u) u.
Definition with_record s u : StagedUploader := set_queue (queue u ++ [Record s]) (device u) u.
Definition flipped s u : StagedUploader := set_next (negb s) (set_pending (updb (slot_pending_ u) s true) u).

Lemma drain_with_copy s dst n u : drain (with_copy s dst n u) = exec1 (stage u) (drain u) (Copy s dst n).
Proof. exact (exec_app (stage u) (device u) (queue u) [Copy s dst n]). Qed.

Lemma drain_with_record s u : drain (with_record s u) = drain u.
Proof. exact (exec_app (stage u) (device u) (queue u) [Record s]). Qed.

Lemma issue_spec s u0 u dst n u1 u2 :
  mid s u0 u → moved (with_copy s dst n u) u1 → moved (with_record s u1) u2 →
  uploader_ok (flipped s u2) ∧ slot_bytes_ u2 = slot_bytes_ u0 ∧
  drain (flipped s u2) = exec1 (stage u) (drain u0) (Copy s dst n).
Proof.
  intros [Hb Hn Ho Hf Hp Hd _] (Hb1 & Hs1 & Hp1 & _ & Hd1 & k1 & Hq1) (Hb2 & Hs2 & Hp2 & _ & Hd2 & k2 & Hq2).
  cbn in Hb1, Hs1, Hp1, Hq1, Hb2, Hs2, Hp2, Hq2.
  assert (∀ t, t ≠ s → guarded t (queue u) → guarded t (queue u2)) as Hg.
  { intros t Hne Hg. rewrite Hq2. apply guarded_drop, guarded_snoc; [|by constructor].
    rewrite Hq1. apply guarded_drop, guarded_snoc; [done|]. by constructor; [apply not_eq_sym|]. }
  assert (∀ t, t ≠ s → no_copy t (queue u) → no_copy t (queue u2)) as Hc.
  { intros t Hne Hc. rewrite Hq2. apply no_copy_drop, no_copy_app. split; [|by constructor].
    rewrite Hq1. apply no_copy_drop, no_copy_app. split; [done|]. by constructor; [apply not_eq_sym|]. }
  split_and!.
  - destruct Ho as [H1 H2 H3 H4]. unfold chunk_elements in *.
    split; cbn; rewrite ?Hb2, ?Hb1, ?Hs2, ?Hs1; try done; unfold chunk_elements; cbn; rewrite ?Hb2, ?Hb1; try done.
    + intros t. destruct (decide (t = s)) as [->|Hne]; [|by apply Hg].
      rewrite Hq2. apply guarded_drop. right. exists (queue u1), []. split; [done|constructor].
    + intros t Ht. destruct (decide (t = s)) as [->|Hne]; [by rewrite updb_eq in Ht|].
      rewrite updb_ne, Hp2, Hp1 in Ht by done. by apply Hc, H4.
  - congruence.
  - change (drain (flipped s u2)) with (drain u2). by rewrite Hd2, drain_with_record, Hd1, drain_with_copy, Hd.
Qed.

(** ** The chunk loop *)

Section transfer.
Context (bf16 : bool) (src : list Z) (count dst : Z) (tensor : string) (index_base : Z).
Context (Hcount : 0 <= count) (Hsrc : ∀ j, Z.of_nat j < count → is_Some (word_at src j)).

(** Device memory [d] with the first [m] elements of the tensor in place. *)
Definition received (d : Z → Z) (m : Z) : Z → Z :=
  λ a, if (dst <=? a) && (a <? dst + m)
       then default 0 (element bf16 <$> word_at src (Z.to_nat (a - dst))) else d a.

Definition accepted (m : Z) : Prop :=
  ∀ j w, Z.of_nat j < m → word_at src j = Some w → refused bf16 w = false.

Record transfer_inv (u0 : StagedUploader) (offset : Z) (u : StagedUploader) : Prop := {
  ti_offset : 0 <= offset;
  ti_ok : uploader_ok u;
  ti_bytes : slot_bytes_ u = slot_bytes_ u0;
  ti_accepted : accepted (Z.min offset count);
  ti_drain : ∀ a, drain u a = received (drain u0) (Z.min offset count) a;
}.

Definition transfer_error (u0 : StagedUploader) (e : load_error) (u : StagedUploader) : Prop :=
  uploader_ok u ∧ ∃ j w, e = Fp16Overflow tensor (index_base + Z.of_nat j) w ∧ Z.of_nat j < count ∧
    first_refused bf16 src 0 0 j w.

Lemma upload_chunk_eq offset :
  upload_chunk dma cuda_ok dst src count bf16 tensor index_base offset =
  (if negb (offset <? count) then mret (inr ()) else
   u ← get;
   let chunk := chunk_elements u in
   let n := Z.to_nat (Z.min chunk (count - offset)) in
   let slot := next_slot_ u in
   WaitSlot dma cuda_ok slot;;
   progress dma;;
   stage_fill bf16 slot src (Z.to_nat offset) 0 n tensor (index_base + offset);;
   progress dma;;
   CudaCheck dma cuda_ok "cudaMemcpyAsync(H2D weight chunk)" (with_copy slot (dst + offset) n);;
   CudaCheck dma cuda_ok "cudaEventRecord(slot event)" (with_record slot);;
   modify (flipped slot);;
   mret (inl (offset + chunk))).
Proof. done. Qed.

(** A chunk extends what the device has received. *)
Lemma received_extend u0 u offset n s st a :
  0 <= offset → offset + Z.of_nat n <= count → Z.of_nat n <= count - offset →
  (∀ a, drain u a = received (drain u0) offset a) →
  filled bf16 src (Z.to_nat offset) n (st s) →
  exec1 st (drain u) (Copy s (dst + offset) n) a = received (drain u0) (offset + Z.of_nat n) a.
Proof using Hsrc.
  intros H0 H1 H2 Hd Hf. unfold exec1. rewrite Hd. unfold received.
  destruct (Z.leb_spec (dst + offset) a), (Z.ltb_spec a (dst + offset + Z.of_nat n)); cbn [andb];
    destruct (Z.leb_spec dst a), (Z.ltb_spec a (dst + (offset + Z.of_nat n))), (Z.ltb_spec a (dst + offset));
    cbn [andb]; try lia; try done.
  set (j := Z.to_nat (a - (dst + offset))).
  destruct (Hsrc (Z.to_nat offset + j)) as [w Hw]; [unfold j; lia|].
  destruct (Hf j w) as [_ Hl]; [unfold j; lia|done|]. fold j. rewrite Hl. cbn.
  replace (Z.to_nat (a - dst)) with (Z.to_nat offset + j)%nat by (unfold j; lia). by rewrite Hw.
Qed.

Lemma wpx_upload_chunk u0 offset u :
  transfer_inv u0 offset u →
  wpx (upload_chunk dma cuda_ok dst src count bf16 tensor index_base offset)
    (λ r u', match r with
             | inl o' => transfer_inv u0 o' u' ∧ (Z.to_nat (count - o') < Z.to_nat (count - offset))%nat
             | inr _ => transfer_inv u0 count u'
             end) (transfer_error u0) u.
Proof using Hcuda Hcount Hsrc.
  intros [Ho Hok Hb Hacc Hd]. rewrite upload_chunk_eq. destruct (Z.ltb_spec offset count) as [Hlt|Hge]; cbn [negb].
  2:{ apply wpx_ret. rewrite Z.min_r in Hacc, Hd by lia. split; rewrite ?Z.min_id; done. }
  wpx_auto. pose proof (uo_chunk _ Hok) as Hc. set (chunk := chunk_elements u) in *.
  set (n := Z.to_nat (Z.min chunk (count - offset))). set (s := next_slot_ u).
  rewrite Z.min_l in Hacc, Hd by lia.
  apply wpx_WaitSlot; [done|]. intros u1 H1. wpx_auto. apply wpx_progress. intros u2 H2.
  pose proof (mid_moved _ _ _ _ H1 H2) as Hm2. apply wpx_bind.
  apply (wpx_stage_fill bf16 s u).
  - done.
  - intros j Hj. apply Hsrc. unfold n in *. lia.
  - intros j w Hj. lia.
  - unfold n. fold chunk. lia.
  - intros u3 Hm3 Hf. wpx_auto. apply wpx_progress. intros u4 H4.
    pose proof (mid_moved _ _ _ _ Hm3 H4) as Hm4. apply wpx_bind, wpx_CudaCheck. intros u5 H5.
    apply wpx_bind, wpx_CudaCheck. intros u6 H6. wpx_auto.
    destruct (issue_spec _ _ _ _ _ _ _ Hm4 H5 H6) as (Hok6 & Hb6 & Hd6).
    assert (Z.min (offset + chunk) count = offset + Z.of_nat n) as Hmin by (unfold n; lia).
    split; [|unfold n in *; lia]. split; rewrite ?Hmin.
    + lia.
    + done.
    + cbn. congruence.
    + intros j w Hj Hw. destruct (Z.lt_ge_cases (Z.of_nat j) offset); [by apply (Hacc j w)|].
      apply (Hf (j - Z.to_nat offset)%nat w); [lia|].
      by replace (Z.to_nat offset + (j - Z.to_nat offset))%nat with j by lia.
    + intros a. rewrite Hd6. apply received_extend; [lia|unfold n; lia|unfold n; lia|done|].
      destruct H4 as (_ & -> & _). exact Hf.
  - intros j w u' Hm' (Hle & Hj & Hr & Hall) Hjn. split; [apply Hm'|].
    exists (Z.to_nat offset + j)%nat, w. split_and!.
    + f_equal. lia.
    + unfold n in *. lia.
    + split_and!; [lia|done|done|]. intros j' w' Hj' Hw'. cbn in Hw'.
      destruct (Z.lt_ge_cases (Z.of_nat j') offset); [by apply (Hacc j' w')|].
      apply (Hall (j' - Z.to_nat offset)%nat w'); [lia|].
      by replace (Z.to_nat offset + (j' - Z.to_nat offset))%nat with j' by lia.
Qed.

Lemma wpx_transfer u0 :
  uploader_ok u0 →
  wpx (loop LoadOutOfFuel (S (Z.to_nat count)) (upload_chunk dma cuda_ok dst src count bf16 tensor index_base) 0)
    (λ _ u, transfer_inv u0 count u) (transfer_error u0) u0.
Proof using Hcuda Hcount Hsrc.
  intros Ho. apply (wpx_loop _ (λ o u, transfer_inv u0 o u) (λ o _, Z.to_nat (count - o))).
  - intros o u Hi. eapply wpx_mono; [by apply wpx_upload_chunk| |done].
    intros [o'|[]] u' Hr; [exact Hr|done].
  - split; rewrite ?Z.min_l by lia; [lia|done|done| |].
    + intros j w Hj. lia.
    + intros a. unfold received. destruct (Z.leb_spec dst a), (Z.ltb_spec a (dst + 0)); cbn [andb]; lia || done.
  - lia.
Qed.

End transfer.

End steps.

(** A constructed uploader is consistent and holds its three objects. *)
Record uploader_built (bytes : Z) (d : Z → Z) (h : Host) (u : StagedUploader) (h' : Host) : Prop := {
  cs_ok : uploader_ok u;
  cs_drain : drain u = d;
  cs_chunk : chunk_elements u = bytes / 4;
  cs_pending s : slot_pending_ u s = false;
  cs_host : release_host h' = h;
}.

(** Which runtime call refused, and what it leaves: the buffer is given back,
    and the first event stays when it is the second that is refused. *)
Inductive staging_failed (host_alloc : bool) (event_created : bool → bool) (h : Host) : load_error → Host → Prop :=
  | sf_buffer : host_alloc = false → staging_failed host_alloc event_created h (CudaFailed "cudaHostAlloc(staging)") h
  | sf_first : event_created false = false →
      staging_failed host_alloc event_created h (CudaFailed "cudaEventCreateWithFlags(slot event)") h
  | sf_second : event_created false = true → event_created true = false →
      staging_failed host_alloc event_created h (CudaFailed "cudaEventCreateWithFlags(slot event)") (add_events 1 h).

Lemma host_balance n k (h : Host) : add_buffers (-1) (add_events n (add_events k (add_buffers 1 h))) = add_events (n + k) h.
Proof. destruct h. unfold add_buffers, add_events. cbn. f_equal; lia. Qed.

Lemma add_events_0 h : add_events 0 h = h.
Proof. destruct h. unfold add_events. cbn. f_equal; lia. Qed.

Lemma wpx_StagedUploader_new host_alloc event_created bytes fill d h :
  kMinStagingBytes <= bytes →
  wpx (StagedUploader_new host_alloc event_created bytes fill d) (uploader_built bytes d h) (staging_failed host_alloc event_created h) h.
Proof.
  unfold kMinStagingBytes. intros Hb. unfold StagedUploader_new, PinnedStagingBuffer_new. apply wpx_bind.
  destruct (Z.eqb_spec bytes 0); [lia|]. destruct host_alloc eqn:Ha; [|by apply wpx_throw, sf_buffer]. apply wpx_modify.
  unfold unwind_members, wpx, create_event, mbind, M_bind.
  destruct (Z.ltb_spec bytes kMinStagingBytes); [unfold kMinStagingBytes in *; lia|]. cbn [mret M_ret].
  pose proof (host_balance 0 0 h) as H0. pose proof (host_balance 0 1 h) as H1. rewrite !add_events_0 in *.
  destruct (event_created false) eqn:He0; cbn [modify throw]; [|rewrite H0; by apply sf_first].
  destruct (event_created true) eqn:He1; cbn [modify throw]; [|rewrite H1; by apply sf_second].
  assert (Z.land (bytes / 2) (Z.lnot 1) = 2 * (bytes / 4)) as Hslot.
  { change 1 with (Z.ones 1) at 1. rewrite <- Z.ldiff_land, Z.ldiff_ones_r by lia.
    rewrite Z.shiftl_mul_pow2, Z.shiftr_div_pow2, Z.div_div by lia. change (2 * 2 ^ 1) with 4.
    change (2 ^ 1) with 2. lia. }
  rewrite Hslot. assert (2 * (bytes / 4) / 2 = bytes / 4) as Hhalf by (rewrite Z.mul_comm; by apply Z.div_mul).
  split; [|done|done|done|].
  2:{ destruct h. unfold release_host, add_buffers, add_events. cbn. f_equal; lia. }
  split; unfold chunk_elements; cbn; rewrite ?Hhalf.
  - apply Z.div_str_pos. lia.
  - intros s. apply length_resize.
  - intros s. left. constructor.
  - intros s _. constructor.
Qed.

(** ** Waiting for everything *)

Lemma exec_no_copies st q : (∀ s, no_copy s q) → ∀ d, exec st d q = d.
Proof.
  intros Hq. assert (Forall (λ k, match k with Copy _ _ _ => False | Record _ => True end) q) as Hf.
  { apply Forall_forall. intros k Hk. destruct k as [t dst n|]; [|done].
    exact (proj1 (Forall_forall _ _) (Hq t) _ Hk eq_refl). }
  clear Hq. induction Hf as [|k q Hk _ IH]; intros d; [done|]. destruct k; [done|]. apply IH.
Qed.

Lemma Synchronize_ok dma cuda_ok u :
  (∀ k, cuda_ok k = true) → uploader_ok u →
  ∃ u', Synchronize dma cuda_ok u = (Ok (), u') ∧ uploader_ok u' ∧ (∀ s, no_copy s (queue u')) ∧
        device u' = drain u.
Proof.
  intros Hc Ho.
  assert (wpx (Synchronize dma cuda_ok) (λ _ u', uploader_ok u' ∧ (∀ s, no_copy s (queue u')) ∧ drain u' = drain u)
            (λ _ _, False) u) as Hx.
  { unfold Synchronize. apply wpx_bind, wpx_WaitSlot; [done|done|]. intros u1 H1.
    apply wpx_WaitSlot; [done|apply H1|]. intros u2 H2. split_and!; [apply H2| |].
    - intros []; [apply (md_free _ _ _ H2)|]. apply (md_keeps _ _ _ H2), (md_free _ _ _ H1).
    - by rewrite (md_drain _ _ _ H2), (md_drain _ _ _ H1). }
  destruct (Synchronize dma cuda_ok u) as [x u'] eqn:Heq.
  pose proof (wpx_run _ _ _ _ _ _ Hx Heq) as H. destruct x as [[]|]; [|done].
  destruct H as (H1 & H2 & H3). exists u'. split_and!; [done..|].
  rewrite <- H3. unfold drain. by rewrite exec_no_copies.
Qed.

(** C29. The staged upload is correct under every schedule of the copy engine.
    From a consistent uploader, with a runtime that does not fail, uploading a
    BF16 or FP16 tensor either succeeds, and once the slots are synchronised
    the device holds, at every address, the converted element there or what
    the earlier transfers put there; or it throws for the first element above
    the FP16 range, with its index in the tensor, and the uploader stays
    consistent. *)
Theorem staged_upload dma cuda_ok u dst src count (bf16 : bool) tensor index_base :
  (∀ k, cuda_ok k = true) → uploader_ok u → 0 <= count →
  (∀ j, Z.of_nat j < count → is_Some (word_at src j)) →
  match Upload dma cuda_ok dst src count (if bf16 then kBF16 else kF16) tensor index_base u with
  | (Ok _, u1) => uploader_ok u1 ∧ accepted bf16 src count ∧
      ∃ u2, Synchronize dma cuda_ok u1 = (Ok (), u2) ∧ uploader_ok u2 ∧
            ∀ a, device u2 a = received bf16 src dst (drain u) count a
  | (Err e, u1) => uploader_ok u1 ∧ ∃ j w, e = Fp16Overflow tensor (index_base + Z.of_nat j) w ∧
      Z.of_nat j < count ∧ first_refused bf16 src 0 0 j w
  end.
Proof.
  intros Hc Ho Hn Hs. destruct (Upload _ _ _ _ _ _ _ _ _) as [x u1] eqn:Heq.
  assert (loop LoadOutOfFuel (S (Z.to_nat count)) (upload_chunk dma cuda_ok dst src count bf16 tensor index_base) 0 u =
          (x, u1)) as Hloop by (rewrite <- Heq; by destruct bf16).
  pose proof (wpx_run _ _ _ _ _ _ (wpx_transfer dma cuda_ok Hc bf16 src count dst tensor index_base Hn Hs u Ho) Hloop) as H.
  destruct x as [[]|e]; [|exact H].
  destruct H as [_ Ho1 _ Hacc Hd]. rewrite Z.min_id in Hacc, Hd. split_and!; [done|done|].
  destruct (Synchronize_ok dma cuda_ok u1 Hc Ho1) as (u2 & H2 & Ho2 & _ & Hdev).
  exists u2. split_and!; [done|done|]. intros a. by rewrite Hdev.
Qed.

(** ** A failing runtime *)

(** What [~StagedUploader] waits for before the staging buffer is freed. *)
Definition Destroy (u : StagedUploader) : StagedUploader :=
  let wait s u := if slot_pending_ u s then EventSynchronize s u else u in
  wait true (wait false u).

(** The second event refused: the buffer is freed, the first event is not. *)
Lemma event_failure_leaks fill d :
  StagedUploader_new true (λ s, negb s) kMinStagingBytes fill d (mkHost 0 0) =
    (Err (CudaFailed "cudaEventCreateWithFlags(slot event)"), mkHost 0 1).
Proof. done. Qed.

(** Whatever the runtime answers, a run does what it does on a working one until
    a call is refused. *)
Definition cuda_fault (cuda_ok : nat → bool) (e : load_error) : Prop :=
  ∃ what k, e = CudaFailed what ∧ cuda_ok k = false.

Section faults.
Variable dma : nat → nat.
Variable cuda_ok : nat → bool.
Notation up := (λ _ : nat, true).
Notation follows := (follows (cuda_fault cuda_ok)).

Lemma follows_CudaCheck what f : follows (CudaCheck dma cuda_ok what f) (CudaCheck dma up what f).
Proof.
  intros u. unfold CudaCheck, mbind, M_bind, get. destruct (cuda_ok (clock u)) eqn:Hk; [by cbn|]. left. by eexists _, _.
Qed.

Lemma follows_WaitSlot s : follows (WaitSlot dma cuda_ok s) (WaitSlot dma up s).
Proof.
  apply follows_bind; [apply follows_refl|]. intros u. destruct (slot_pending_ u s); [|apply follows_refl].
  apply follows_bind; [apply follows_CudaCheck|]. intros _. apply follows_refl.
Qed.

Lemma follows_upload_chunk dst src count bf16 tensor index_base offset :
  follows (upload_chunk dma cuda_ok dst src count bf16 tensor index_base offset)
    (upload_chunk dma up dst src count bf16 tensor index_base offset).
Proof.
  unfold upload_chunk. destruct (negb (offset <? count)); [apply follows_refl|].
  repeat (apply follows_bind; [by first [apply follows_WaitSlot|apply follows_CudaCheck|apply follows_refl]|intros ?]).
  apply follows_refl.
Qed.

Lemma follows_Upload dst src count dtype tensor index_base :
  follows (Upload dma cuda_ok dst src count dtype tensor index_base) (Upload dma up dst src count dtype tensor index_base).
Proof. destruct dtype; try apply follows_refl; apply follows_loop; intros x; apply follows_upload_chunk. Qed.

Lemma follows_Synchronize : follows (Synchronize dma cuda_ok) (Synchronize dma up).
Proof. apply follows_bind; [|intros _]; apply follows_WaitSlot. Qed.

End faults.

Module UploaderExample.

(** Three BF16 elements: 1.0, -2.0 and 65280. *)
Definition bytes : list Z := [0x80; 0x3F; 0x00; 0xC0; 0x7F; 0x47].
Definition lazy_dma : nat → nat := λ _, 0%nat.
Definition memory : Z → Z := λ _, 0.
Definition fresh : StagedUploader :=
  mkUploader 4 (λ _, [0; 0]) (λ _, false) false [] memory 0.

Lemma fresh_ok : uploader_ok fresh.
Proof. split; [done|done|left; constructor|constructor]. Qed.

(** The third runtime call, the first chunk's event record, fails. *)
Definition record_fails (k : nat) : bool := negb (Nat.eqb k 3).

End UploaderExample.

Lemma staged_upload_witness :
  let run := Upload UploaderExample.lazy_dma (λ _, true) 10 UploaderExample.bytes 3 kBF16 "w" 0 UploaderExample.fresh in
  fst run = Ok () ∧
  match run with
  | (Ok _, u1) => uploader_ok u1 ∧ accepted true UploaderExample.bytes 3 ∧
      ∃ u2, Synchronize UploaderExample.lazy_dma (λ _, true) u1 = (Ok (), u2) ∧ uploader_ok u2 ∧
            ∀ a, device u2 a = received true UploaderExample.bytes 10 (drain UploaderExample.fresh) 3 a
  | (Err e, u1) => uploader_ok u1 ∧ ∃ j w, e = Fp16Overflow "w" (0 + Z.of_nat j) w ∧ Z.of_nat j < 3 ∧
      first_refused true UploaderExample.bytes 0 0 j w
  end.
Proof.
  split; [by vm_compute|].
  apply (staged_upload UploaderExample.lazy_dma (λ _, true) UploaderExample.fresh 10 UploaderExample.bytes 3 true "w" 0);
    [done|apply UploaderExample.fresh_ok|done|].
  intros j Hj. destruct j as [|[|[|j]]]; [by eexists|by eexists|by eexists|lia].
Defined.

(** When the runtime fails to record a slot's event after the copy was
    issued, the slot is not marked as pending: the destructor then waits for
    nothing, and the copy is still in flight when the staging buffer goes
    away. *)
Theorem record_failure_leaves_copy :
  let '(r, u) := Upload UploaderExample.lazy_dma UploaderExample.record_fails 10 UploaderExample.bytes 3 kBF16 "w" 0
                   UploaderExample.fresh in
  r = Err (CudaFailed "cudaEventRecord(slot event)") ∧
  slot_pending_ u false = false ∧ queue (Destroy u) = [Copy false 10 2].
Proof. by vm_compute. Qed.
