(* ===== verification/Safetensors.v ===== *)
(** * The safetensors reader ([loader/safetensors.{hpp,cpp}])

    Opening a file maps it and parses its header; a checkpoint is one file or
    the shards an index names.  The operating system's side is explicit: what
    the disk holds is a parameter, and the counts of open descriptors and live
    mappings are the state every operation threads, so that the error paths'
    clean-up is part of what is proved.  The JSON parser is a parameter
    ([JsonReader]).  A pointer into a read-only mapping is the list of bytes
    from it to the end of the mapping. *)

From S2P Require Import Prelude Doubles Types Json.

Inductive Kind : Type :=
  | kIo | kTruncatedHeader | kMalformedHeader | kMalformedIndex
  | kOffsetsOutOfBounds | kUnknownDtype | kDuplicateName | kMissingTensor.

(** The kind, the file and the offending name of the message. *)
Inductive SafetensorsError : Type := mkSafetensorsError (kind : Kind) (path what : string).

Record TensorView : Type := mkTensorView {
  tv_dtype : Dtype;
  tv_shape : list Z;
  tv_data : list Z;
  tv_nbytes : Z;
}.

Notation TensorMap := (gmap string TensorView).

Definition Fail {S A} (kind : Kind) (path what : string) : M SafetensorsError S A :=
  throw (mkSafetensorsError kind path what).

(** [emplace]: an existing entry stays. *)
Definition emplace (name : string) (view : TensorView) (m : TensorMap) : TensorMap :=
  match m !! name with Some _ => m | None => <[name := view]> m end.

Definition ReadLeU64 (bytes : list Z) : Z :=
  foldr (λ b value, Z.lor (u64 (Z.shiftl value 8)) (u64 b)) 0 (take 8 bytes).

Definition DtypeFromString (s : string) : Dtype :=
  if String.eqb s "F16" then kF16
  else if String.eqb s "BF16" then kBF16
  else if String.eqb s "F32" then kF32
  else if String.eqb s "F64" then kF64
  else if String.eqb s "I32" then kI32
  else if String.eqb s "I64" then kI64
  else if String.eqb s "U8" then kU8
  else kUnknown.

(** ** The header *)

Section header.
Context {reader : JsonReader}.
Variable path : string.
Notation HM := (M SafetensorsError TensorMap).

Definition RequireU64 (value : json) (tensor : string) : HM Z :=
  match as_u64 value with Some n => mret n | None => Fail kMalformedHeader path tensor end.

(** The state of the key watcher: the depth of the root's keys, the names seen
    there and the first repeated one. *)
Record KeyWatch : Type := mkKeyWatch { root_key_depth : Z; seen : gset string; duplicate : string }.

Definition watch_keys (w : KeyWatch) (event : Z * string) : KeyWatch :=
  let (depth, key) := event in
  let root := if root_key_depth w <? 0 then depth else root_key_depth w in
  if depth =? root then
    if bool_decide (key ∈ seen w)
    then mkKeyWatch root (seen w) (if String.eqb (duplicate w) "" then key else duplicate w)
    else mkKeyWatch root ({[key]} ∪ seen w) (duplicate w)
  else mkKeyWatch root (seen w) (duplicate w).

Definition no_keys : KeyWatch := mkKeyWatch (-1) ∅ "".

(** The shape array: the elements so far and their running count. *)
Fixpoint parse_shape (name : string) (dims : list json) (elem_count : Z) (shape : list Z) : HM (Z * list Z) :=
  match dims with
  | [] => mret (elem_count, shape)
  | dim_json :: dims' =>
      dim ← RequireU64 dim_json name;
      if (int64_max <? dim) || (negb (dim =? 0) && (u64_max / dim <? elem_count))
      then Fail kMalformedHeader path name
      else parse_shape name dims' (u64 (elem_count * dim)) (shape ++ [dim])
  end.

(** One member of the header object. *)
Definition parse_tensor (data_section : list Z) (data_size : Z) (member : string * json) : HM () :=
  let (name, spec) := member in
  if String.eqb name "__metadata__" then mret () else
  if negb (is_object spec) then Fail kMalformedHeader path name else
  match find "dtype" spec, find "shape" spec, find "data_offsets" spec with
  | Some dtype_it, Some shape_it, Some offsets_it =>
      dtype_str ← match as_string dtype_it with Some s => mret s | None => Fail kMalformedHeader path name end;
      let dtype := DtypeFromString dtype_str in
      if bool_decide (dtype = kUnknown) then Fail kUnknownDtype path name else
      dims ← match shape_it with JArray l => mret l | _ => Fail kMalformedHeader path name end;
      '(elem_count, shape) ← parse_shape name dims 1 [];
      '(begin_json, end_json) ←
        match offsets_it with JArray [b; e] => mret (b, e) | _ => Fail kMalformedHeader path name end;
      begin ← RequireU64 begin_json name;
      end_ ← RequireU64 end_json name;
      if (end_ <? begin) || (data_size <? end_) then Fail kOffsetsOutOfBounds path name else
      let dtype_size := DtypeSize dtype in
      if u64_max / dtype_size <? elem_count then Fail kMalformedHeader path name else
      let expected_bytes := u64 (elem_count * dtype_size) in
      if negb (end_ - begin =? expected_bytes) then Fail kMalformedHeader path name else
      modify (emplace name (mkTensorView dtype shape (drop (Z.to_nat begin) data_section) (end_ - begin)))
  | _, _, _ => Fail kMalformedHeader path name
  end.

Fixpoint parse_tensors (data_section : list Z) (data_size : Z) (members : list (string * json)) : HM () :=
  match members with
  | [] => mret ()
  | m :: members' => parse_tensor data_section data_size m;; parse_tensors data_section data_size members'
  end.

Definition ParseHeader (mapped : list Z) : HM () :=
  let header_size := ReadLeU64 mapped in
  let follow := zlen mapped - 8 in
  if follow <? header_size then Fail kTruncatedHeader path "" else
  let n := Z.to_nat header_size in
  let data_section := drop (8 + n) mapped in
  let data_size := follow - header_size in
  match json_parse (take n (drop 8 mapped)) with
  | Err _ => Fail kMalformedHeader path ""
  | Ok (header, events) =>
      let dup := duplicate (foldl watch_keys no_keys events) in
      if negb (String.eqb dup "") then Fail kDuplicateName path dup else
      if negb (is_object header) then Fail kMalformedHeader path "" else
      parse_tensors data_section data_size (items header)
  end.

End header.

(** ** Files *)

Record OsFile : Type := mkOsFile { can_open : bool; can_stat : bool; can_map : bool; contents : list Z }.

Record Os : Type := mkOs { open_fds : Z; mappings : Z }.
Definition add_fds (n : Z) (os : Os) : Os := mkOs (open_fds os + n) (mappings os).
Definition add_mappings (n : Z) (os : Os) : Os := mkOs (open_fds os) (mappings os + n).

Record SafetensorsFile : Type := mkSafetensorsFile {
  mapped_base_ : option (list Z);
  path_ : string;
  tensors_ : TensorMap;
}.

Record SafetensorsModel : Type := mkSafetensorsModel {
  shards_ : list SafetensorsFile;
  merged_ : TensorMap;
}.

Section files.
Context {reader : JsonReader}.
Variable disk : string → OsFile.
Notation FM := (M SafetensorsError Os).

(** [~SafetensorsFile] *)
Definition file_Release (f : SafetensorsFile) : FM () :=
  match mapped_base_ f with Some _ => modify (add_mappings (-1)) | None => mret () end.

(** The move constructor: the new object and what is left of the old one, whose
    mapping is gone. *)
Definition move_construct (other : SafetensorsFile) : SafetensorsFile * SafetensorsFile :=
  (other, mkSafetensorsFile None (path_ other) (tensors_ other)).

(** Move assignment to [this]: release, then take over. *)
Definition move_assign (same_object : bool) (this other : SafetensorsFile) : FM (SafetensorsFile * SafetensorsFile) :=
  if same_object then mret (this, other) else file_Release this;; mret (move_construct other).

Definition Open (path : string) : FM SafetensorsFile :=
  let file := disk path in
  if negb (can_open file) then Fail kIo path "open" else
  modify (add_fds 1);;
  if negb (can_stat file) then modify (add_fds (-1));; Fail kIo path "fstat" else
  if zlen (contents file) <? 8 then modify (add_fds (-1));; Fail kTruncatedHeader path "" else
  (if can_map file then modify (add_mappings 1) else mret ());;
  modify (add_fds (-1));;
  if negb (can_map file) then Fail kIo path "mmap" else
  match ParseHeader path (contents file) ∅ with
  | (Ok _, tensors) => mret (mkSafetensorsFile (Some (contents file)) path tensors)
  | (Err e, tensors) => file_Release (mkSafetensorsFile (Some (contents file)) path tensors);; throw e
  end.

Definition file_Contains (f : SafetensorsFile) (name : string) : bool := bool_decide (is_Some (tensors_ f !! name)).
Definition file_Tensor (f : SafetensorsFile) (name : string) : outcome SafetensorsError TensorView :=
  match tensors_ f !! name with
  | Some v => Ok v
  | None => Err (mkSafetensorsError kMissingTensor (path_ f) name)
  end.

(** ** Models *)

Definition Contains (m : SafetensorsModel) (name : string) : bool := bool_decide (is_Some (merged_ m !! name)).
Definition Tensor (m : SafetensorsModel) (name : string) : outcome SafetensorsError TensorView :=
  match merged_ m !! name with
  | Some v => Ok v
  | None => Err (mkSafetensorsError kMissingTensor "model" name)
  end.

Definition OpenSingle (safetensors_path : string) : FM SafetensorsModel :=
  f ← Open safetensors_path; mret (mkSafetensorsModel [f] (tensors_ f)).

(** Paths and the unordered iteration of a tensor map are the library's. *)
Variable path_exists : string → bool.
Variable path_append : string → string → string.
Variable parent_path : string → string.
Variable iteration : TensorMap → list (string * TensorView).

Definition ReadWholeFile (path : string) : FM (list Z) :=
  if can_open (disk path) then mret (contents (disk path)) else Fail kIo path "open".

(** The destructor of a vector of shards. *)
Fixpoint release_all (shards : list SafetensorsFile) : FM () :=
  match shards with [] => mret () | f :: fs => file_Release f;; release_all fs end.

(** Run [m]; an exception destroys the shards on its way out. *)
Definition unwinding {A} (shards : list SafetensorsFile) (m : FM A) : FM A := λ os,
  match m os with
  | (Ok a, os') => (Ok a, os')
  | (Err e, os') => (release_all shards;; throw e) os'
  end.

(** [std::map]'s emplace: sorted by name, without repetition. *)
Fixpoint insert_name (n : string) (l : list string) : list string :=
  match l with
  | [] => [n]
  | x :: l' =>
      match String.compare n x with
      | Lt => n :: l
      | Eq => l
      | Gt => x :: insert_name n l'
      end
  end.

Fixpoint shard_names (index_path : string) (weight_map : list (string * json)) (names : list string) : FM (list string) :=
  match weight_map with
  | [] => mret names
  | (tensor_name, shard_json) :: rest =>
      match shard_json with
      | JString s => shard_names index_path rest (insert_name s names)
      | _ => Fail kMalformedIndex index_path tensor_name
      end
  end.

Fixpoint open_shards (base_dir : string) (names : list string) (shards : list SafetensorsFile) :
    FM (list SafetensorsFile) :=
  match names with
  | [] => mret shards
  | name :: rest =>
      f ← unwinding shards (Open (path_append base_dir name));
      open_shards base_dir rest (shards ++ [f])
  end.

Fixpoint merge_tensors (index_path : string) (views : list (string * TensorView)) (merged : TensorMap) : FM TensorMap :=
  match views with
  | [] => mret merged
  | (name, view) :: rest =>
      match merged !! name with
      | Some _ => Fail kDuplicateName index_path name
      | None => merge_tensors index_path rest (<[name := view]> merged)
      end
  end.

Fixpoint merge_shards (index_path : string) (shards : list SafetensorsFile) (merged : TensorMap) : FM TensorMap :=
  match shards with
  | [] => mret merged
  | f :: rest =>
      merged' ← merge_tensors index_path (iteration (tensors_ f)) merged;
      merge_shards index_path rest merged'
  end.

(** [shards_[shard_slot.at(name)]] *)
Definition shard_at (names : list string) (shards : list SafetensorsFile) (name : string) : option SafetensorsFile :=
  assoc name (zip names shards).

Fixpoint check_entries (index_path : string) (names : list string) (shards : list SafetensorsFile)
    (weight_map : list (string * json)) : FM () :=
  match weight_map with
  | [] => mret ()
  | (tensor_name, shard_json) :: rest =>
      match as_string shard_json ≫= shard_at names shards with
      | Some shard =>
          if file_Contains shard tensor_name then check_entries index_path names shards rest
          else Fail kMissingTensor index_path tensor_name
      | None => Fail kMalformedIndex index_path tensor_name
      end
  end.

Definition OpenIndex (index_path : string) : FM SafetensorsModel :=
  text ← ReadWholeFile index_path;
  match json_parse text with
  | Err _ => Fail kMalformedIndex index_path ""
  | Ok (index, _) =>
      match find "weight_map" index with
      | Some (JObject weight_map) =>
          names ← shard_names index_path weight_map [];
          shards ← open_shards (parent_path index_path) names [];
          unwinding shards
            (merged ← merge_shards index_path shards ∅;
             check_entries index_path names shards weight_map;;
             mret (mkSafetensorsModel shards merged))
      | _ => Fail kMalformedIndex index_path ""
      end
  end.

Definition kSingleFileName : string := "model.safetensors".
Definition kIndexFileName : string := "model.safetensors.index.json".

Definition OpenDir (model_dir : string) : FM SafetensorsModel :=
  if path_exists (path_append model_dir kSingleFileName) then OpenSingle (path_append model_dir kSingleFileName)
  else if path_exists (path_append model_dir kIndexFileName) then OpenIndex (path_append model_dir kIndexFileName)
  else Fail kIo model_dir "neither".

End files.

(** ** What a header member denotes *)

Definition product (l : list Z) : Z := foldr Z.mul 1 l.

Lemma product_cons x l : product (x :: l) = x * product l.
Proof. done. Qed.

Lemma product_app l k : product (l ++ k) = product l * product k.
Proof.
  unfold product. induction l as [|x l IH]; [by rewrite Z.mul_1_l|]. cbn [app foldr]. rewrite IH. lia.
Qed.

(** Every dimension fits [int64_t] and every partial product [uint64_t]. *)
Fixpoint shape_fits (acc : Z) (dims : list Z) : Prop :=
  match dims with
  | [] => True
  | d :: dims' => 0 <= d <= int64_max ∧ acc * d <= u64_max ∧ shape_fits (acc * d) dims'
  end.

Record denotes (section : list Z) (size : Z) (spec : json) (v : TensorView) : Prop := mkDenotes {
  dn_dtype : ∃ s, find "dtype" spec = Some (JString s) ∧ DtypeFromString s = tv_dtype v;
  dn_known : tv_dtype v ≠ kUnknown;
  dn_shape : ∃ l, find "shape" spec = Some (JArray l) ∧ mapM as_u64 l = Some (tv_shape v);
  dn_fits : shape_fits 1 (tv_shape v);
  dn_span : ∃ jb je b e,
    find "data_offsets" spec = Some (JArray [jb; je]) ∧ as_u64 jb = Some b ∧ as_u64 je = Some e ∧
    b <= e <= size ∧ tv_data v = drop (Z.to_nat b) section ∧ tv_nbytes v = e - b;
  dn_bytes : tv_nbytes v = product (tv_shape v) * DtypeSize (tv_dtype v);
}.

Lemma shape_fits_product dims : ∀ acc, 0 <= acc → acc <= u64_max → shape_fits acc dims → 0 <= acc * product dims <= u64_max.
Proof.
  induction dims as [|d dims IH]; intros acc Ha Hm; cbn [shape_fits].
  - intros _. change (product []) with 1. lia.
  - intros (Hd & Hp & Hf). rewrite product_cons, Z.mul_assoc. apply IH; [nia|done|done].
Qed.

Lemma DtypeSize_pos d : d ≠ kUnknown → 1 <= DtypeSize d <= 8.
Proof. by destruct d; cbn; intros; try lia. Qed.

(** The overflow test is exact. *)
Lemma overflow_test ec d : 0 <= ec → 0 <= d →
  negb (d =? 0) && (u64_max / d <? ec) = true ↔ u64_max < ec * d.
Proof.
  intros Hec Hd. zbool. split.
  - intros [H0 H]. pose proof (Z.mul_succ_div_gt u64_max d ltac:(lia)).
    pose proof (Z.mul_le_mono_nonneg_l (Z.succ (u64_max / d)) ec d ltac:(lia) ltac:(lia)). lia.
  - intros H. assert (d ≠ 0) by (intros ->; unfold u64_max in *; lia). split; [done|].
    apply Z.div_lt_upper_bound; lia.
Qed.

Section header_facts.
Context {reader : JsonReader}.
Variable path : string.
Implicit Types (m : TensorMap).

Lemma wpx_RequireU64 value tensor (Q : Z → TensorMap → Prop) R m :
  (∀ n, as_u64 value = Some n → 0 <= n <= u64_max → Q n m) →
  (∀ e, as_u64 value = None → R e m) → wpx (RequireU64 path value tensor) Q R m.
Proof.
  intros HQ HR. unfold RequireU64. destruct (as_u64 value) as [n|] eqn:Hv.
  - apply wpx_ret, HQ; [done|]. destruct value; try done. injection Hv as <-. apply u64_range.
  - by apply wpx_throw, HR.
Qed.

Lemma wpx_parse_shape name dims : ∀ ec shape m (Q : Z * list Z → TensorMap → Prop) R,
  0 <= ec <= u64_max →
  (∀ ds, mapM as_u64 dims = Some ds → shape_fits ec ds → Q (ec * product ds, shape ++ ds) m) →
  (∀ e, (∀ ds, mapM as_u64 dims = Some ds → ¬ shape_fits ec ds) → R e m) →
  wpx (parse_shape path name dims ec shape) Q R m.
Proof.
  induction dims as [|dj dims IH]; intros ec shape m Q R Hec HQ HR; cbn [parse_shape].
  { apply wpx_ret. rewrite <- (Z.mul_1_r ec), <- (app_nil_r shape). by apply (HQ []). }
  wpx_auto. apply wpx_RequireU64.
  2:{ intros e Hv. apply HR. cbn. rewrite Hv. cbn. done. }
  intros d Hv Hd. pose proof (overflow_test ec d ltac:(lia) ltac:(lia)) as Ho.
  assert (∀ ds, mapM as_u64 (dj :: dims) = Some ds → ∃ ds', ds = d :: ds' ∧ mapM as_u64 dims = Some ds') as Hm.
  { cbn. rewrite Hv. cbn. destruct (mapM as_u64 dims) as [ds'|]; cbn; [|done]. intros ds [= <-]. eauto. }
  destruct (Z.ltb_spec int64_max d); cbn [orb].
  { apply wpx_throw, HR. intros ds Hds. destruct (Hm ds Hds) as (ds' & -> & _). cbn. lia. }
  destruct (negb (d =? 0) && (u64_max / d <? ec)) eqn:Hov.
  { apply wpx_throw, HR. intros ds Hds. destruct (Hm ds Hds) as (ds' & -> & _). cbn.
    pose proof (proj1 Ho eq_refl). lia. }
  assert (ec * d <= u64_max) as Hle by (destruct (Z.le_gt_cases (ec * d) u64_max); [done|]; discriminate (proj2 Ho ltac:(lia))).
  rewrite (u64_id (ec * d)) by nia. apply IH; [nia| |].
  - intros ds' Hds' Hf. rewrite <- Z.mul_assoc, <- product_cons.
    rewrite <- app_assoc. apply HQ; [|cbn; split_and!; [lia..|done]]. cbn. rewrite Hv. cbn. by rewrite Hds'.
  - intros e Hno. apply HR. intros ds Hds. destruct (Hm ds Hds) as (ds' & -> & Hds'). cbn.
    intros (_ & _ & Hf). by apply (Hno ds').
Qed.

(** The fields of a member that denotes a view. *)
Lemma denotes_fields section size spec v :
  denotes section size spec v →
  ∃ s dims jb je b e,
    find "dtype" spec = Some (JString s) ∧ find "shape" spec = Some (JArray dims) ∧
    find "data_offsets" spec = Some (JArray [jb; je]) ∧
    (is_object spec = true ∧ tv_dtype v = DtypeFromString s ∧ tv_dtype v ≠ kUnknown) ∧
    (mapM as_u64 dims = Some (tv_shape v) ∧ shape_fits 1 (tv_shape v)) ∧
    as_u64 jb = Some b ∧ as_u64 je = Some e ∧ b <= e <= size ∧
    e - b = product (tv_shape v) * DtypeSize (tv_dtype v).
Proof.
  intros [(s & Hs & Hd) Hk (dims & Hdims & Hm) Hf (jb & je & b & e & Ho & Hb & He & Hr & _ & Hn) Hbytes].
  exists s, dims, jb, je, b, e. split_and!; try done; [by destruct spec|lia..].
Qed.

(** Refuse the member: a view it denotes would contradict what was read. *)
Ltac refused :=
  try apply wpx_throw; intros v Hv;
  destruct (denotes_fields _ _ _ _ Hv)
    as (?s & ?dims & ?jb & ?je & ?b & ?e & ?Hs & ?Hdims & ?Ho & (?Hobj & ?Hd & ?Hk) & (?Hm & ?Hf) & ?Hb & ?He & ?Hr & ?Hn);
  simplify_eq; try match goal with H : tv_dtype v = _ |- _ => rewrite H in * end;
  try (congruence || lia || naive_solver).

(** A member that denotes no view is refused; one that does is entered. *)
Lemma wpx_parse_tensor section size name spec m :
  name ≠ "__metadata__"%string →
  wpx (parse_tensor path section size (name, spec))
    (λ _ m', ∃ v, denotes section size spec v ∧ m' = emplace name v m)
    (λ e m', ∀ v, ¬ denotes section size spec v) m.
Proof.
  intros Hname. unfold parse_tensor. destruct (String.eqb_spec name "__metadata__") as [|_]; [done|].
  destruct (is_object spec) eqn:Hobj; cbn [negb]; [|refused].
  destruct (find "dtype" spec) as [dj|] eqn:Hd; [|refused].
  destruct (find "shape" spec) as [sj|] eqn:Hs; [|refused].
  destruct (find "data_offsets" spec) as [oj|] eqn:Ho; [|refused].
  apply wpx_bind. destruct dj as [| | | | |s| |]; cbn [as_string]; try by refused.
  apply wpx_ret. case_bool_decide as Hk; [refused|].
  apply wpx_bind. destruct sj as [| | | | | |dims|]; try by refused.
  apply wpx_ret, wpx_bind, wpx_parse_shape; [by cbn| |intros e Hno; refused].
  intros ds Hds Hfit. rewrite Z.mul_1_l. cbn [app].
  pose proof (shape_fits_product ds 1 ltac:(lia) ltac:(done) Hfit) as Hprod. rewrite Z.mul_1_l in Hprod.
  apply wpx_bind. destruct oj as [| | | | | |[|jb [|je [|]]]|]; try by refused.
  apply wpx_ret, wpx_bind, wpx_RequireU64; [|intros e Hno; refused].
  intros b Hb Hbr. apply wpx_bind, wpx_RequireU64; [|intros e Hno; refused].
  intros e He Her. pose proof (DtypeSize_pos _ Hk) as Hsz.
  destruct (Z.ltb_spec e b); cbn [orb]; [refused|]. destruct (Z.ltb_spec size e); [refused|].
  pose proof (overflow_test (product ds) (DtypeSize (DtypeFromString s)) ltac:(lia) ltac:(lia)) as Hov.
  rewrite (proj2 (Z.eqb_neq _ 0)) in Hov by lia. cbn [negb andb] in Hov.
  destruct (u64_max / DtypeSize (DtypeFromString s) <? product ds) eqn:Ht.
  { apply proj1 in Hov. specialize (Hov eq_refl). refused. }
  assert (product ds * DtypeSize (DtypeFromString s) <= u64_max) as Hle.
  { destruct (Z.le_gt_cases (product ds * DtypeSize (DtypeFromString s)) u64_max); [done|].
    discriminate (proj2 Hov ltac:(lia)). }
  rewrite u64_id by nia.
  destruct (Z.eqb_spec (e - b) (product ds * DtypeSize (DtypeFromString s))) as [Heq|Hne]; cbn [negb].
  2:{ refused. }
  apply wpx_modify. eexists. split; [|done]. split; [by exists s|done|by exists dims|done| |exact Heq].
  exists jb, je, b, e. by split_and!.
Qed.

End header_facts.

(** ** Repeated names *)

(** The keys of the root object, in document order. *)
Definition keys_at (depth : Z) (events : list (Z * string)) : list string :=
  (filter (λ ev : Z * string, ev.1 = depth) events).*2.
Definition root_keys (events : list (Z * string)) : list string :=
  match events with [] => [] | ev :: _ => keys_at ev.1 events end.

(** No name is repeated; the watcher cannot see a repeated empty name. *)
Definition unrepeated (keys : list string) : Prop := NoDup (filter (λ k, k ≠ ""%string) keys).

Lemma unrepeated_cons k keys :
  unrepeated (k :: keys) ↔ (k = ""%string ∨ k ∉ keys) ∧ unrepeated keys.
Proof.
  unfold unrepeated. destruct (decide (k = ""%string)) as [->|Hk].
  - rewrite filter_cons_False by (intros H; by apply H). naive_solver.
  - rewrite filter_cons_True by done. rewrite NoDup_cons, list_elem_of_filter. naive_solver.
Qed.

Lemma keys_at_cons depth ev events :
  keys_at depth (ev :: events) = (if decide (ev.1 = depth) then [ev.2] else []) ++ keys_at depth events.
Proof. unfold keys_at. rewrite filter_cons. by destruct (decide _). Qed.

Lemma watch_fold depth events : ∀ names dup,
  0 <= depth →
  duplicate (foldl watch_keys (mkKeyWatch depth names dup) events) = ""%string ↔
  dup = ""%string ∧ unrepeated (keys_at depth events) ∧
  ∀ k, k ∈ keys_at depth events → k ≠ ""%string → k ∉ names.
Proof.
  induction events as [|[d k] events IH]; intros names dup Hd.
  { cbn. split; [intros ->|by intros (? & _)]. split_and!; [done|constructor|by intros ? ?%not_elem_of_nil]. }
  cbn [foldl]. rewrite keys_at_cons. unfold watch_keys at 2. cbn [root_key_depth seen duplicate fst snd].
  destruct (Z.ltb_spec depth 0); [lia|]. destruct (Z.eqb_spec d depth) as [->|Hne].
  2:{ rewrite decide_False by done. by apply IH. }
  rewrite decide_True by done. cbn [app]. rewrite unrepeated_cons. setoid_rewrite elem_of_cons.
  case_bool_decide as Hin; rewrite IH by done.
  - destruct (String.eqb_spec dup "") as [->|Hdup]; [|by split; intros [? _]].
    split; [intros (-> & Hx)|intros (_ & Hx)].
    + destruct Hx as [H1 H2]. split_and!; [done|by left|done|]. intros k' [->|?]; [done|by apply H2].
    + destruct Hx as [[[->|Hk] H1] H2].
      * split_and!; [done|done|]. intros k' ?. apply H2. by right.
      * destruct (decide (k = ""%string)) as [->|Hne]; [|by destruct (H2 k (or_introl eq_refl) Hne)].
        split_and!; [done|done|]. intros k' ?. apply H2. by right.
  - setoid_rewrite not_elem_of_union. setoid_rewrite not_elem_of_singleton. split; intros (-> & Hx).
    + destruct Hx as [H1 H2]. split_and!; [done| |done|].
      * destruct (decide (k = ""%string)) as [->|Hne]; [by left|right]. intros Hk. by destruct (H2 k Hk Hne).
      * intros k' [->|Hk'] Hne; [done|]. by apply (H2 k').
    + destruct Hx as [[Hk H1] H2]. split_and!; [done|done|]. intros k' Hk' Hne. split; [|apply H2; [by right|done]].
      intros ->. by destruct Hk.
Qed.

Lemma duplicate_spec events :
  (∀ ev, ev ∈ events → 0 <= ev.1) →
  duplicate (foldl watch_keys no_keys events) = ""%string ↔ unrepeated (root_keys events).
Proof.
  intros Hev. destruct events as [|[d k] events]; [split; [intros _; constructor|done]|].
  assert (0 <= d) as Hd by (apply (Hev (d, k)); by left).
  assert (watch_keys no_keys (d, k) = watch_keys (mkKeyWatch d ∅ "") (d, k)) as Hfirst.
  { unfold watch_keys. cbn [root_key_depth seen duplicate no_keys]. by destruct (d <? 0). }
  cbn [foldl]. rewrite Hfirst.
  pose proof (watch_fold d ((d, k) :: events) ∅ "" Hd) as Hw. cbn [foldl] in Hw. rewrite Hw. clear Hw. cbn [root_keys fst]. split; [by intros (_ & ? & _)|]. intros Hu.
  split_and!; [done|done|]. intros k' _ _. apply not_elem_of_empty.
Qed.

(** ** What a file denotes *)

(** The parser's documented side: an object's names are distinct, and an event's
    depth is a nesting count. *)
Definition reader_ok (reader : JsonReader) : Prop :=
  ∀ doc v events, json_parse doc = Ok (v, events) →
    NoDup (items v).*1 ∧ ∀ ev, ev ∈ events → 0 <= ev.1.

Section members.
Variables (section : list Z) (size : Z).

(** A member other than [__metadata__] denotes a view. *)
Definition member_denotes (member : string * json) : Prop :=
  member.1 = "__metadata__"%string ∨ ∃ v, denotes section size member.2 v.

(** [members] give [name] the view [v]. *)
Definition header_view (members : list (string * json)) (name : string) (v : TensorView) : Prop :=
  ∃ spec, (name, spec) ∈ members ∧ name ≠ "__metadata__"%string ∧ denotes section size spec v.

Lemma header_view_cons n s members name v :
  header_view ((n, s) :: members) name v ↔
  (name = n ∧ n ≠ "__metadata__"%string ∧ denotes section size s v) ∨ header_view members name v.
Proof.
  split.
  - intros (spec & [[= -> ->]|Hin]%elem_of_cons & Hm & Hd); [by left|right]. by exists spec.
  - intros [(-> & Hm & Hd)|(spec & Hin & Hm & Hd)]; [exists s|exists spec]; (split; [|done]); [by left|by right].
Qed.

Lemma header_view_elem members name v : header_view members name v → name ∈ members.*1.
Proof. intros (spec & Hin & _). apply list_elem_of_fmap. by exists (name, spec). Qed.

End members.

Definition header_bytes (bytes : list Z) : list Z := take (Z.to_nat (ReadLeU64 bytes)) (drop 8 bytes).
Definition data_section (bytes : list Z) : list Z := drop (8 + Z.to_nat (ReadLeU64 bytes)) bytes.

Definition data_size (bytes : list Z) : Z := zlen bytes - 8 - ReadLeU64 bytes.

Lemma ReadLeU64_nonneg bytes : 0 <= ReadLeU64 bytes.
Proof.
  unfold ReadLeU64. induction (take 8 bytes) as [|b l IH]; [done|]. cbn [foldr].
  apply Z.lor_nonneg. split; apply u64_range.
Qed.

(** A file whose header has the members [members] and whose root names satisfy
    [names]. *)
Record well_formed {reader : JsonReader} (names : list string → Prop) (bytes : list Z) (members : list (string * json)) : Prop := mkWellFormed {
  ho_length : ReadLeU64 bytes <= zlen bytes - 8;
  ho_parse : ∃ header events, json_parse (header_bytes bytes) = Ok (header, events) ∧
    is_object header = true ∧ names (root_keys events) ∧ items header = members;
  ho_members : Forall (member_denotes (data_section bytes) (data_size bytes)) members;
}.

(** A well-formed header: no name is repeated, the empty one included. *)
Definition header_ok {reader : JsonReader} : list Z → list (string * json) → Prop := well_formed NoDup.

(** The one ill-formed kind of header the code lets through: only the empty name
    is repeated.  The parsed object keeps one of its entries. *)
Definition blank_repeated {reader : JsonReader} : list Z → list (string * json) → Prop :=
  well_formed (λ keys, unrepeated keys ∧ ¬ NoDup keys).

Definition header_read {reader : JsonReader} bytes members : Prop := header_ok bytes members ∨ blank_repeated bytes members.

Lemma NoDup_unrepeated keys : NoDup keys → unrepeated keys.
Proof. apply NoDup_filter. Qed.

Lemma header_read_seen {reader : JsonReader} bytes members : header_read bytes members ↔ well_formed unrepeated bytes members.
Proof.
  split.
  - intros [[? (h & e & ? & ? & Hn & ?) ?]|[? (h & e & ? & ? & [Hn _] & ?) ?]]; (split; [done| |done]); exists h, e; split_and!; try done.
    by apply NoDup_unrepeated.
  - intros [? (h & e & ? & ? & Hn & ?) ?]. destruct (decide (NoDup (root_keys e))) as [Hd|Hd]; [left|right];
      (split; [done| |done]); exists h, e; by split_and!.
Qed.

(** The view its member gives to a name. *)
Definition file_view (bytes : list Z) (members : list (string * json)) (name : string) (v : TensorView) : Prop :=
  header_view (data_section bytes) (data_size bytes) members name v.

Lemma denotes_unique section size spec v w : denotes section size spec v → denotes section size spec w → v = w.
Proof.
  intros [(s & Hs & Hd) _ (l & Hl & Hm) _ (jb & je & b & e & Ho & Hb & He & _ & Hdata & Hn) _].
  intros [(s' & Hs' & Hd') _ (l' & Hl' & Hm') _ (jb' & je' & b' & e' & Ho' & Hb' & He' & _ & Hdata' & Hn') _].
  destruct v, w; cbn in *. simplify_eq. done.
Qed.

Section open_facts.
Context {reader : JsonReader}.
Hypothesis Hreader : reader_ok reader.
Implicit Types (path name : string) (spec : json) (m : TensorMap).

Lemma wpx_parse_tensors path section size members : ∀ m,
  NoDup members.*1 → (∀ name, name ∈ members.*1 → m !! name = None) →
  wpx (parse_tensors path section size members)
    (λ _ m', Forall (member_denotes section size) members ∧
       ∀ name v, m' !! name = Some v ↔ m !! name = Some v ∨ header_view section size members name v)
    (λ _ _, ¬ Forall (member_denotes section size) members) m.
Proof using.
  induction members as [|[n s] members IH]; intros m Hnd Hfree; cbn [parse_tensors].
  { apply wpx_ret. split; [constructor|]. intros name v. split; [by left|].
    intros [|(? & ?%not_elem_of_nil & _)]; done. }
  apply NoDup_cons in Hnd as [Hn Hnd]. apply wpx_bind.
  assert (∀ P Q : Prop, ¬ Q → ¬ (P ∧ Q)) as Hand by naive_solver.
  destruct (decide (n = "__metadata__"%string)) as [->|Hmeta].
  - unfold parse_tensor. rewrite String.eqb_refl. apply wpx_ret.
    eapply wpx_mono; [apply IH; [done|intros ? ?; apply Hfree; by right]| |].
    + intros _ m' [Hall Hm']. split; [constructor; [by left|done]|]. intros name v. rewrite Hm', header_view_cons. naive_solver.
    + intros ? ? Hno. rewrite Forall_cons. by apply Hand.
  - eapply wpx_mono; [by apply wpx_parse_tensor| |].
    2:{ intros e m' Hno [[?|[v Hv]] _]%Forall_cons; [done|by apply (Hno v)]. }
    intros _ m1 (v1 & Hv1 & ->). unfold emplace. rewrite Hfree by (by left).
    eapply wpx_mono; [apply IH; [done|]| |].
    + intros name Hin. rewrite lookup_insert_ne by (intros ->; done). apply Hfree. by right.
    + intros _ m' [Hall Hm']. split; [constructor; [right; by exists v1|done]|]. intros name v. rewrite Hm', header_view_cons.
      destruct (decide (name = n)) as [->|Hne]; [|rewrite lookup_insert_ne by done; naive_solver].
      rewrite lookup_insert_eq, Hfree by (by left). split.
      * intros [[= <-]|Hv]; [right; by left|]. by destruct Hn; apply header_view_elem in Hv.
      * intros [|[(_ & _ & Hv)|Hv]]; [done| |by right]. left. f_equal. by apply (denotes_unique section size s).
    + intros ? ? Hno. rewrite Forall_cons. by apply Hand.
Qed.

(** The header of a mapped file: the views it denotes, or a refusal. *)
Lemma ParseHeader_spec path bytes :
  match ParseHeader path bytes ∅ with
  | (Ok _, tensors) => ∃ members, header_read bytes members ∧
      ∀ name v, tensors !! name = Some v ↔ file_view bytes members name v
  | (Err _, _) => ∀ members, ¬ header_read bytes members
  end.
Proof using Hreader.
  unfold ParseHeader. destruct (Z.ltb_spec (zlen bytes - 8) (ReadLeU64 bytes)) as [Hlt|Hle].
  { intros members [Hlen _ _]%header_read_seen. lia. }
  fold (header_bytes bytes) (data_section bytes) (data_size bytes).
  destruct (json_parse (header_bytes bytes)) as [[header events]|exn] eqn:Hparse.
  2:{ intros members [_ (? & ? & ? & _) _]%header_read_seen. congruence. }
  destruct (Hreader _ _ _ Hparse) as [Hnd Hev].
  assert (∀ members, header_read bytes members → is_object header = true ∧ unrepeated (root_keys events) ∧
    Forall (member_denotes (data_section bytes) (data_size bytes)) (items header)) as Hinv.
  { intros members H. apply header_read_seen in H as [_ (h & evs & Hp & Ho & Hu & <-) Hall]. rewrite Hparse in Hp. by injection Hp as <- <-. }
  destruct (String.eqb_spec (duplicate (foldl watch_keys no_keys events)) "") as [Hdup|Hdup]; cbn [negb].
  2:{ intros tensors (_ & Hu & _)%Hinv. by apply Hdup, duplicate_spec. }
  destruct (is_object header) eqn:Hobj; cbn [negb]; [|by intros tensors (? & _)%Hinv].
  pose proof (wpx_parse_tensors path (data_section bytes) (data_size bytes) (items header) ∅
    Hnd (λ _ _, eq_refl)) as H.
  destruct (parse_tensors _ _ _ _ _) as [[[]|e] tensors] eqn:Hrun; pose proof (wpx_run _ _ _ _ _ _ H Hrun) as Hr.
  - destruct Hr as [Hall Hr]. exists (items header). split.
    + apply header_read_seen. split; [done| |done]. exists header, events. by split_and!; [..|apply duplicate_spec|].
    + intros name v. rewrite Hr, lookup_empty. unfold file_view. naive_solver.
  - by intros members (_ & _ & ?)%Hinv.
Qed.

(** What every accepted tensor satisfies. *)
Record view_ok (v : TensorView) : Prop := mkViewOk {
  vo_dtype : tv_dtype v ≠ kUnknown;
  vo_shape : Forall (λ d, 0 <= d <= int64_max) (tv_shape v);
  vo_bytes : tv_nbytes v = product (tv_shape v) * DtypeSize (tv_dtype v);
  vo_inside : 0 <= tv_nbytes v <= zlen (tv_data v);
}.

Lemma shape_fits_dims dims : ∀ acc, shape_fits acc dims → Forall (λ d, 0 <= d <= int64_max) dims.
Proof using.
  induction dims as [|d dims IH]; intros acc; [constructor|]. intros (Hd & _ & Hf). constructor; [done|by apply (IH (acc * d))].
Qed.

Lemma file_view_ok bytes members name v : header_read bytes members → file_view bytes members name v → view_ok v.
Proof using.
  intros [Hlen _ _]%header_read_seen (spec & _ & _ & [_ Hk _ Hf (jb & je & b & e & _ & Hb & _ & Hr & Hd & Hn) Hbytes]).
  pose proof (ReadLeU64_nonneg bytes) as Hpos. assert (0 <= b) by (destruct jb; try done; injection Hb as <-; apply u64_range).
  split; [done|by apply (shape_fits_dims _ 1)|done|]. rewrite Hd, Hn.
  unfold data_size, data_section, zlen in *. rewrite !length_drop. lia.
Qed.

End open_facts.

(** ** Opening one file *)

Section open_file.
Context {reader : JsonReader}.
Variable disk : string → OsFile.

Definition readable (f : OsFile) : bool := can_open f && can_stat f && can_map f.

Lemma os_eq os a b : a = open_fds os → b = mappings os → mkOs a b = os.
Proof. intros -> ->. by destruct os. Qed.

(** [Open] keeps the mapping exactly when it returns a file. *)
Lemma Open_spec path os :
  reader_ok reader →
  wpx (Open disk path)
    (λ f os', os' = add_mappings 1 os ∧ mapped_base_ f = Some (contents (disk path)) ∧ path_ f = path ∧
       readable (disk path) = true ∧
       ∃ members, header_read (contents (disk path)) members ∧
         ∀ name v, tensors_ f !! name = Some v ↔ file_view (contents (disk path)) members name v)
    (λ e os', os' = os ∧ (readable (disk path) = true → ∀ members, ¬ header_read (contents (disk path)) members)) os.
Proof.
  intros Hr. unfold Open, readable. destruct (can_open (disk path)); cbn [negb andb]; [|by apply wpx_throw].
  assert (∀ n, add_fds (-1) (add_fds 1 (add_mappings n os)) = add_mappings n os) as Hfd.
  { intros n. destruct os. unfold add_fds, add_mappings. cbn. f_equal; lia. }
  pose proof (Hfd 0) as Hfd0. replace (add_mappings 0 os) with os in Hfd0
    by (unfold add_mappings; symmetry; apply os_eq; lia).
  wpx_auto. destruct (can_stat (disk path)); cbn [negb andb].
  2:{ wpx_auto. split; [exact Hfd0|done]. }
  destruct (Z.ltb_spec (zlen (contents (disk path))) 8).
  { wpx_auto. split; [exact Hfd0|]. intros _ members [Hlen _ _]%header_read_seen.
    pose proof (ReadLeU64_nonneg (contents (disk path))). lia. }
  destruct (can_map (disk path)); cbn [negb]; wpx_auto; [|by split; [exact Hfd0|]].
  replace (add_fds (-1) (add_mappings 1 (add_fds 1 os))) with (add_mappings 1 os) by (symmetry; apply (Hfd 1)).
  pose proof (ParseHeader_spec Hr path (contents (disk path))) as Hp.
  destruct (ParseHeader path (contents (disk path)) ∅) as [[[]|e] tensors].
  - apply wpx_ret. by split_and!.
  - cbn [file_Release mapped_base_]. wpx_auto. split; [|done]. unfold add_mappings. apply os_eq; cbn; lia.
Qed.

End open_file.

(** A mapping has one owner: after a move assignment between distinct objects,
    destroying both releases each of the two mappings once. *)
Lemma move_assign_owner (this other : SafetensorsFile) os :
  is_Some (mapped_base_ this) → is_Some (mapped_base_ other) →
  ∃ new old, move_assign false this other os = (Ok (new, old), add_mappings (-1) os) ∧
    file_Release new os = (Ok (), add_mappings (-1) os) ∧ file_Release old os = (Ok (), os).
Proof.
  intros [b Hb] [b' Hb']. unfold move_assign, mbind, M_bind, file_Release. rewrite Hb. cbn. do 2 eexists.
  split; [done|]. by rewrite Hb'.
Qed.

(** C23. Opening a safetensors file is sound and complete but for one case, and
    leaks nothing.  On success one mapping is kept, no descriptor is, and the
    header is well-formed - its names distinct - or fails to be so only in
    repeating the empty name, which the code does not notice although its header
    file promises an error ([kDuplicateName]); the tensor table is exactly what
    the header's members denote, each view has a known dtype,
    dimensions that fit [int64_t], a byte count equal to the exact (unwrapped)
    product of its shape with the element size, and a data pointer with that
    many bytes left in the mapping.  On failure nothing stays open or mapped,
    and if the operating system let the file be read its header is not
    well-formed. *)
Theorem open_typed_views (reader : JsonReader) (disk : string → OsFile) path os :
  reader_ok reader →
  match Open disk path os with
  | (Ok f, os') => os' = add_mappings 1 os ∧
      (∃ members, (header_ok (contents (disk path)) members ∨ blank_repeated (contents (disk path)) members) ∧
         ∀ name v, file_Tensor f name = Ok v ↔ file_view (contents (disk path)) members name v) ∧
      ∀ name v, file_Tensor f name = Ok v → view_ok v
  | (Err _, os') => os' = os ∧
      (readable (disk path) = true → ∀ members, ¬ header_ok (contents (disk path)) members ∧ ¬ blank_repeated (contents (disk path)) members)
  end.
Proof.
  intros Hr. pose proof (Open_spec disk path os Hr) as H. unfold wpx in H.
  destruct (Open disk path os) as [[f|e] os'].
  2: { destruct H as [-> Hno]. split; [done|]. intros Hrd members. split; intros Hm; apply (Hno Hrd members); [by left|by right]. }
  destruct H as (-> & _ & _ & _ & members & Hok & Hv).
  assert (∀ name v, file_Tensor f name = Ok v ↔ file_view (contents (disk path)) members name v) as Ht.
  { intros name v. rewrite <- Hv. unfold file_Tensor. destruct (tensors_ f !! name); naive_solver. }
  split_and!; [done|by exists members|]. intros name v Hn%Ht. by apply (file_view_ok (contents (disk path)) members name).
Qed.

(** ** A small checkpoint *)

(** A reader that knows finitely many documents. *)
Definition table_reader (table : list (list Z * (json * list (Z * string)))) : JsonReader :=
  λ doc, match List.find (λ e, bool_decide (e.1 = doc)) table with Some e => Ok e.2 | None => Err ParseError end.

Lemma table_reader_ok table :
  Forall (λ e : list Z * (json * list (Z * string)), NoDup (items e.2.1).*1 ∧ Forall (λ ev : Z * string, 0 <= ev.1) e.2.2) table →
  reader_ok (table_reader table).
Proof.
  intros Ht doc v events. unfold json_parse, table_reader. destruct (List.find _ table) as [e|] eqn:Hf; [|done].
  intros [= He]. apply List.find_some in Hf as [Hin _]. apply list_elem_of_In in Hin.
  destruct (proj1 (Forall_forall _ _) Ht e Hin) as [Hn Hd]. rewrite He in Hn, Hd. split; [done|].
  by apply Forall_forall.
Qed.

Module CheckpointExample.

(** Bytes of a text, written with single quotes for double ones. *)
Fixpoint text (s : string) : list Z :=
  match s with
  | EmptyString => []
  | String c s' => let n := Z.of_nat (Ascii.nat_of_ascii c) in (if n =? 39 then 34 else n) :: text s'
  end.

Definition spec_of (dtype : string) (dims : list Z) (b e : Z) : json :=
  JObject [("dtype", JString dtype); ("shape", JArray (JUnsigned <$> dims));
           ("data_offsets", JArray [JUnsigned b; JUnsigned e])]%string.
Definition spec_events (name : string) : list (Z * string) :=
  [(1, name); (2, "dtype"); (2, "shape"); (2, "data_offsets")]%string.

(** One tensor of two bytes: a length prefix of 53, the header, the data. *)
Definition header_w : list Z := text "{'w':{'dtype':'U8','shape':[2],'data_offsets':[0,2]}}".
Definition header_b : list Z := text "{'b':{'dtype':'BF16','shape':[1],'data_offsets':[0,2]}}".
Definition file_of (header data : list Z) : list Z :=
  [zlen header; 0; 0; 0; 0; 0; 0; 0] ++ header ++ data.

Definition index_text : list Z := text "{'weight_map':{'b':'2.st','w':'1.st'}}".

Definition reader : JsonReader := table_reader
  [(header_w, (JObject [("w", spec_of "U8" [2] 0 2)], spec_events "w"));
   (header_b, (JObject [("b", spec_of "BF16" [1] 0 2)], spec_events "b"));
   (index_text, (JObject [("weight_map", JObject [("b", JString "2.st"); ("w", JString "1.st")])], []))]%string.

Lemma reader_is_ok : reader_ok reader.
Proof. apply table_reader_ok. repeat constructor; cbn; lia || by intros ?%not_elem_of_nil. Qed.

Definition disk (path : string) : OsFile :=
  if String.eqb path "m/1.st" then mkOsFile true true true (file_of header_w [7; 9])
  else if String.eqb path "m/2.st" then mkOsFile true true true (file_of header_b [128; 63])
  else if String.eqb path "m/model.safetensors.index.json" then mkOsFile true true true index_text
  else mkOsFile false false false [].

Definition path_exists (path : string) : bool := can_open (disk path).
Definition path_append (dir name : string) : string := dir +:+ "/" +:+ name.
Definition parent_path (path : string) : string := "m".
Definition idle : Os := mkOs 0 0.

End CheckpointExample.

Lemma open_typed_views_witness :
  match Open (reader:=CheckpointExample.reader) CheckpointExample.disk "m/1.st" CheckpointExample.idle with
  | (Ok f, _) => file_Tensor f "w" = Ok (mkTensorView kU8 [2] [7; 9] 2)
  | (Err _, _) => False
  end ∧
  match Open (reader:=CheckpointExample.reader) CheckpointExample.disk "m/1.st" CheckpointExample.idle with
  | (Ok f, os') => os' = add_mappings 1 CheckpointExample.idle ∧
      (∃ members, (header_ok (reader:=CheckpointExample.reader) (contents (CheckpointExample.disk "m/1.st")) members ∨ blank_repeated (reader:=CheckpointExample.reader) (contents (CheckpointExample.disk "m/1.st")) members) ∧
         ∀ name v, file_Tensor f name = Ok v ↔ file_view (contents (CheckpointExample.disk "m/1.st")) members name v) ∧
      ∀ name v, file_Tensor f name = Ok v → view_ok v
  | (Err _, os') => os' = CheckpointExample.idle ∧
      (readable (CheckpointExample.disk "m/1.st") = true →
       ∀ members, ¬ header_ok (reader:=CheckpointExample.reader) (contents (CheckpointExample.disk "m/1.st")) members ∧ ¬ blank_repeated (reader:=CheckpointExample.reader) (contents (CheckpointExample.disk "m/1.st")) members)
  end.
Proof.
  split; [by vm_compute|].
  apply (open_typed_views CheckpointExample.reader CheckpointExample.disk "m/1.st" CheckpointExample.idle).
  apply CheckpointExample.reader_is_ok.
Defined.

(** The exception occurs: a header that names two tensors with the empty name. *)
Definition blank_header : list Z :=
  CheckpointExample.text "{'':{'dtype':'U8','shape':[2],'data_offsets':[0,2]},'':{'dtype':'U8','shape':[1],'data_offsets':[0,1]}}".

Lemma repeated_blank_opens :
  let reader := table_reader [(blank_header, (JObject [(""%string, CheckpointExample.spec_of "U8" [1] 0 1)],
    CheckpointExample.spec_events "" ++ CheckpointExample.spec_events ""))] in
  ∃ f os', Open (reader:=reader) (λ _, mkOsFile true true true (CheckpointExample.file_of blank_header [7; 9])) "m/1.st" CheckpointExample.idle = (Ok f, os') ∧
    file_Tensor f "" = Ok (mkTensorView kU8 [1] [7; 9] 1).
Proof. do 2 eexists. split; [vm_compute; reflexivity|by vm_compute]. Qed.
