(* ===== verification/SafetensorsIndex.v ===== *)
(** * Sharded checkpoints: what [OpenIndex] and [OpenDir] guarantee

    The shards an index names are opened one by one, merged into one table and
    checked against the index; every exception on the way destroys the shards
    that were already open. *)

From S2P Require Import Prelude Doubles Types Json Safetensors.

(** ** The merged table *)

Section merging.
Variable iteration : TensorMap → list (string * TensorView).
Hypothesis Hiter : ∀ m, iteration m ≡ₚ map_to_list m.
Implicit Types (m merged : TensorMap) (f g : SafetensorsFile) (os : Os).

Lemma iteration_elem m name v : (name, v) ∈ iteration m ↔ m !! name = Some v.
Proof. by rewrite Hiter, elem_of_map_to_list. Qed.

Lemma iteration_nodup m : NoDup (iteration m).*1.
Proof. rewrite Hiter. apply NoDup_fst_map_to_list. Qed.

Lemma wpx_merge_tensors index_path views : ∀ merged os,
  NoDup views.*1 →
  wpx (merge_tensors index_path views merged)
    (λ m' os', os' = os ∧ (∀ name, name ∈ views.*1 → merged !! name = None) ∧
       ∀ name v, m' !! name = Some v ↔ merged !! name = Some v ∨ (name, v) ∈ views)
    (λ _ os', os' = os) os.
Proof using.
  induction views as [|[n w] views IH]; intros merged os Hnd; cbn [merge_tensors].
  { apply wpx_ret. split; [done|]. split; [by intros ? ?%not_elem_of_nil|].
    intros name v. split; [by left|]. by intros [|?%not_elem_of_nil]. }
  apply NoDup_cons in Hnd as [Hn Hnd]. destruct (merged !! n) as [x|] eqn:Hm; [by apply wpx_throw|].
  eapply wpx_mono; [by apply IH| |done]. intros m' os' (-> & Hfree & Hm'). split; [done|]. split.
  - intros name [->|Hin]%elem_of_cons; [done|]. specialize (Hfree name Hin).
    by rewrite lookup_insert_ne in Hfree by (intros ->; done).
  - intros name v. rewrite Hm', elem_of_cons. destruct (decide (name = n)) as [->|Hne].
    + rewrite lookup_insert_eq, Hm. split; [intros [[= ->]|?]; [right; by left|right; by right]|].
      intros [|[[= ->]|?]]; [done|by left|by right].
    + rewrite lookup_insert_ne by done. split.
      * intros [?|?]; [by left|by right; right].
      * intros [?|[[= -> ->]|?]]; [by left|done|by right].
Qed.

(** The shards hold disjoint names, none of them in [merged]. *)
Definition shard_view (shards : list SafetensorsFile) (name : string) (v : TensorView) : Prop :=
  ∃ f, f ∈ shards ∧ tensors_ f !! name = Some v.

Fixpoint fresh_shards (shards : list SafetensorsFile) (taken : string → Prop) : Prop :=
  match shards with
  | [] => True
  | f :: rest => (∀ name, is_Some (tensors_ f !! name) → ¬ taken name) ∧
      fresh_shards rest (λ name, taken name ∨ is_Some (tensors_ f !! name))
  end.

Lemma fresh_shards_ext shards : ∀ P Q, (∀ n, P n ↔ Q n) → fresh_shards shards P → fresh_shards shards Q.
Proof using.
  induction shards as [|f shards IH]; intros P Q HPQ; [done|]. cbn. intros [Hf Hr]. split.
  - intros name Hn HQ. by apply (Hf name Hn), HPQ.
  - eapply IH; [|exact Hr]. intros n. cbn. by rewrite HPQ.
Qed.

Lemma wpx_merge_shards index_path shards : ∀ merged os,
  wpx (merge_shards iteration index_path shards merged)
    (λ m' os', os' = os ∧ fresh_shards shards (λ name, is_Some (merged !! name)) ∧
       ∀ name v, m' !! name = Some v ↔ merged !! name = Some v ∨ shard_view shards name v)
    (λ _ os', os' = os) os.
Proof using Hiter.
  induction shards as [|f shards IH]; intros merged os; cbn [merge_shards].
  { apply wpx_ret. split_and!; [done..|]. intros name v. split; [by left|].
    by intros [|(? & ?%not_elem_of_nil & _)]. }
  apply wpx_bind. eapply wpx_mono; [apply wpx_merge_tensors, iteration_nodup| |done].
  intros m1 os1 (-> & Hfree & Hm1). eapply wpx_mono; [apply IH| |done].
  intros m' os' (-> & Hfresh & Hm'). split; [done|]. cbn [fresh_shards]. split_and!.
  - intros name [v Hv] [w Hw]. rewrite (Hfree name) in Hw; [done|].
    apply list_elem_of_fmap. exists (name, v). split; [done|]. by apply iteration_elem.
  - eapply fresh_shards_ext; [|exact Hfresh]. intros n. cbn. unfold is_Some.
    setoid_rewrite Hm1. setoid_rewrite iteration_elem.
    split; [intros [v [?|?]]; [left|right]; by exists v|intros [[v ?]|[v ?]]; exists v; [by left|by right]].
  - intros name v. rewrite Hm', Hm1, iteration_elem. unfold shard_view.
    setoid_rewrite elem_of_cons. split.
    + intros [[?|?]|(g & ? & ?)]; [by left|right; exists f; auto|right; exists g; auto].
    + intros [?|(g & [->|?] & ?)]; [by left; left|by left; right|right; exists g; auto].
Qed.

(** Distinct shards share no name. *)
Lemma fresh_shards_disjoint shards : ∀ P i j f g name,
  fresh_shards shards P → (i < j)%nat → shards !! i = Some f → shards !! j = Some g →
  is_Some (tensors_ f !! name) → ¬ is_Some (tensors_ g !! name).
Proof using.
  assert (∀ shards P j g name, fresh_shards shards P → shards !! j = Some g → P name →
    ¬ is_Some (tensors_ g !! name)) as Htaken.
  { clear. induction shards as [|f shards IH]; intros P j g name Hfr Hj HP Hn; [done|]. destruct Hfr as [Hf Hr].
    destruct j as [|j]; cbn in Hj; [injection Hj as ->; by apply (Hf name Hn)|].
    apply (IH _ j g name Hr Hj); [by left|done]. }
  induction shards as [|h shards IH]; intros P i j f g name Hfr Hij Hi Hj Hn; [done|]. destruct Hfr as [Hf Hr].
  destruct j as [|j]; [lia|]. destruct i as [|i]; cbn in Hi, Hj.
  - injection Hi as ->. apply (Htaken shards _ j g name Hr Hj). by right.
  - apply (IH _ i j f g name Hr); [lia|done..].
Qed.

End merging.

(** ** Opening the shards *)

Section index.
Context {reader : JsonReader}.
Hypothesis Hreader : reader_ok reader.
Variable disk : string → OsFile.
Variable path_append : string → string → string.
Implicit Types (f : SafetensorsFile) (os : Os) (shards : list SafetensorsFile).

(** An opened file is the file at [path]. *)
Definition opened (path : string) f : Prop :=
  path_ f = path ∧ is_Some (mapped_base_ f) ∧
  ∃ members, header_read (contents (disk path)) members ∧
    ∀ name v, tensors_ f !! name = Some v ↔ file_view (contents (disk path)) members name v.

Lemma add_mappings_add a b os : add_mappings a (add_mappings b os) = add_mappings (b + a) os.
Proof. destruct os. unfold add_mappings. cbn. f_equal. lia. Qed.

Lemma add_mappings_0 os : add_mappings 0 os = os.
Proof. destruct os. unfold add_mappings. cbn. f_equal. lia. Qed.

Lemma release_all_run shards : ∀ os,
  Forall (λ f, is_Some (mapped_base_ f)) shards →
  release_all shards os = (Ok (), add_mappings (- zlen shards) os).
Proof using.
  induction shards as [|f shards IH]; intros os Hs.
  { change (- zlen (@nil SafetensorsFile)) with 0. by rewrite add_mappings_0. }
  apply Forall_cons in Hs as [[b Hb] Hs]. cbn [release_all]. unfold mbind, M_bind, file_Release. rewrite Hb.
  cbn [modify]. rewrite IH, add_mappings_add, zlen_cons by done. do 2 f_equal. lia.
Qed.

Lemma wpx_unwinding {A} shards (m : M SafetensorsError Os A) (Q : A → Os → Prop) (R : SafetensorsError → Os → Prop) os :
  Forall (λ f, is_Some (mapped_base_ f)) shards →
  wpx m Q (λ e os', R e (add_mappings (- zlen shards) os')) os → wpx (unwinding shards m) Q R os.
Proof using.
  intros Hs. unfold wpx, unwinding. destruct (m os) as [[a|e] os']; [done|].
  intros HR. unfold mbind, M_bind. by rewrite release_all_run.
Qed.

Lemma wpx_open_shards base_dir names : ∀ shards os,
  Forall (λ f, is_Some (mapped_base_ f)) shards →
  wpx (open_shards disk path_append base_dir names shards)
    (λ fs os', os' = add_mappings (zlen names) os ∧
       ∃ new, fs = shards ++ new ∧ Forall2 (λ n f, opened (path_append base_dir n) f) names new)
    (λ _ os', os' = add_mappings (- zlen shards) os) os.
Proof using Hreader.
  induction names as [|n names IH]; intros shards os Hs; cbn [open_shards].
  { apply wpx_ret. rewrite zlen_nil, add_mappings_0. split; [done|]. exists []. by rewrite app_nil_r. }
  apply wpx_bind, wpx_unwinding; [done|]. eapply wpx_mono; [by apply Open_spec| |].
  2:{ intros e os' [-> _]. done. }
  intros f os1 (-> & Hmap & Hpath & _ & Hden). eapply wpx_mono; [apply IH| |].
  - apply Forall_app. split; [done|]. constructor; [by eexists|constructor].
  - intros fs os' (-> & new & -> & Hnew). rewrite add_mappings_add, zlen_cons. split; [done|].
    exists (f :: new). rewrite <- app_assoc. split; [done|]. constructor; [|done].
    split_and!; [done|by eexists|done].
  - intros _ os' ->. rewrite add_mappings_add, zlen_app, zlen_cons, zlen_nil. f_equal. lia.
Qed.

(** ** The index's claims *)

Lemma wpx_check_entries index_path names shards weight_map os :
  wpx (check_entries index_path names shards weight_map)
    (λ _ os', os' = os ∧ ∀ tensor j, (tensor, j) ∈ weight_map →
       ∃ s f, j = JString s ∧ (s, f) ∈ zip names shards ∧ is_Some (tensors_ f !! tensor))
    (λ _ os', os' = os) os.
Proof using.
  induction weight_map as [|[t j] rest IH]; cbn [check_entries].
  { apply wpx_ret. split; [done|]. by intros ? ? ?%not_elem_of_nil. }
  destruct (as_string j ≫= shard_at names shards) as [f|] eqn:Hf; [|by apply wpx_throw].
  unfold file_Contains. case_bool_decide as Hc; [|by apply wpx_throw].
  eapply wpx_mono; [exact IH| |done]. intros _ os' [-> Hall]. split; [done|].
  intros tensor j' [[= -> ->]|Hin]%elem_of_cons; [|by apply Hall].
  destruct j; try done. exists s, f. split_and!; [done| |done]. by apply assoc_elem.
Qed.

End index.

Section open_index.
Context {reader : JsonReader}.
Variables (disk : string → OsFile) (path_append : string → string → string).
Variables (parent_path : string → string) (iteration : TensorMap → list (string * TensorView)).
Hypothesis Hreader : reader_ok reader.
Hypothesis Hiter : ∀ m, iteration m ≡ₚ map_to_list m.
Implicit Types (f g : SafetensorsFile) (os : Os).

(** A consistent model: its shards are files of the disk with disjoint names,
    and its table is exactly their union. *)
Record model_ok (m : SafetensorsModel) : Prop := mkModelOk {
  mo_shards : ∀ f, f ∈ shards_ m → opened disk (path_ f) f;
  mo_disjoint : ∀ i j f g name, (i < j)%nat → shards_ m !! i = Some f → shards_ m !! j = Some g →
    is_Some (tensors_ f !! name) → ¬ is_Some (tensors_ g !! name);
  mo_table : ∀ name v, merged_ m !! name = Some v ↔ shard_view (shards_ m) name v;
}.

Lemma model_view_ok m name v : model_ok m → Tensor m name = Ok v → view_ok v.
Proof using.
  intros [Hs _ Ht]. unfold Tensor. destruct (merged_ m !! name) as [w|] eqn:Hm; [intros [= ->]|done].
  apply Ht in Hm as (f & Hf & Hv). destruct (Hs f Hf) as (_ & _ & members & Hok & Hview).
  apply Hview in Hv. by apply (file_view_ok (contents (disk (path_ f))) members name).
Qed.

Lemma wpx_OpenSingle path os :
  wpx (OpenSingle disk path)
    (λ m os', os' = add_mappings (zlen (shards_ m)) os ∧ model_ok m ∧ zlen (shards_ m) = 1)
    (λ _ os', os' = os) os.
Proof using Hreader.
  unfold OpenSingle. apply wpx_bind. eapply wpx_mono; [by apply Open_spec| |by intros ? ? [-> _]].
  intros f os1 (-> & Hmap & Hpath & _ & members & Hok & Hv). apply wpx_ret. split_and!; [done| |done]. split; cbn.
  - intros g ->%list_elem_of_singleton. rewrite Hpath. split_and!; [done|by eexists|by exists members].
  - intros i j g g' name Hij Hi Hj. destruct i, j; cbn in *; try lia; done.
  - intros name v. unfold shard_view. setoid_rewrite list_elem_of_singleton.
    split; [intros Hn; by exists f|by intros (g & -> & Hg)].
Qed.

(** Every entry of the index is answered by the shard it names. *)
Definition index_served (index_path : string) (m : SafetensorsModel) : Prop :=
  ∃ weight_map index events, json_parse (contents (disk index_path)) = Ok (index, events) ∧
    find "weight_map" index = Some (JObject weight_map) ∧
    ∀ tensor j, (tensor, j) ∈ weight_map → ∃ s f, j = JString s ∧ f ∈ shards_ m ∧
      path_ f = path_append (parent_path index_path) s ∧ is_Some (tensors_ f !! tensor).

Lemma wpx_shard_names index_path weight_map : ∀ names os,
  wpx (shard_names index_path weight_map names) (λ _ os', os' = os) (λ _ os', os' = os) os.
Proof using.
  induction weight_map as [|[t j] rest IH]; intros names os; cbn [shard_names]; [by apply wpx_ret|].
  destruct j; try by apply wpx_throw. apply IH.
Qed.

Lemma wpx_OpenIndex index_path os :
  wpx (OpenIndex disk path_append parent_path iteration index_path)
    (λ m os', os' = add_mappings (zlen (shards_ m)) os ∧ model_ok m ∧ index_served index_path m)
    (λ _ os', os' = os) os.
Proof using Hreader Hiter.
  unfold OpenIndex, ReadWholeFile. apply wpx_bind. destruct (can_open (disk index_path)); [|by apply wpx_throw].
  apply wpx_ret. destruct (json_parse (contents (disk index_path))) as [[index events]|exn] eqn:Hp; [|by apply wpx_throw].
  destruct (find "weight_map" index) as [w|] eqn:Hw; [|by apply wpx_throw].
  destruct w as [| | | | | | |weight_map]; try by apply wpx_throw.
  apply wpx_bind. eapply wpx_mono; [apply wpx_shard_names| |done]. intros names os1 ->.
  apply wpx_bind. eapply wpx_mono; [by apply wpx_open_shards| |].
  2:{ intros _ os' ->. apply (add_mappings_0 os). }
  intros fs os1 (-> & shards & -> & Hsh). cbn [app]. pose proof (Forall2_length _ _ _ Hsh) as Hlen.
  assert (zlen names = zlen shards) as Hz by (unfold zlen; lia). rewrite Hz.
  assert (∀ n f, (n, f) ∈ zip names shards → opened disk (path_append (parent_path index_path) n) f ∧ f ∈ shards) as Hzip.
  { intros n f (i & Hi)%list_elem_of_lookup. apply lookup_zip_Some in Hi as [Hn Hf]. split.
    - exact (Forall2_lookup_lr _ _ _ _ _ _ Hsh Hn Hf).
    - by apply (list_elem_of_lookup_2 shards i). }
  assert (Forall (λ f, is_Some (mapped_base_ f)) shards) as Hmapped.
  { apply Forall_forall. intros f (i & Hf)%list_elem_of_lookup.
    destruct (lookup_lt_is_Some_2 names i) as [n Hn]; [apply lookup_lt_Some in Hf; lia|].
    pose proof (Forall2_lookup_lr _ _ _ _ _ _ Hsh Hn Hf) as (_ & Hm & _). done. }
  apply wpx_unwinding; [done|]. apply wpx_bind. eapply wpx_mono; [by apply wpx_merge_shards| |].
  2:{ intros _ os' ->. rewrite add_mappings_add, Z.add_opp_diag_r. apply add_mappings_0. }
  intros merged os1 (-> & Hfresh & Hm). apply wpx_bind. eapply wpx_mono; [apply wpx_check_entries| |].
  2:{ intros _ os' ->. rewrite add_mappings_add, Z.add_opp_diag_r. apply add_mappings_0. }
  intros _ os1 [-> Hentries]. apply wpx_ret. cbn [shards_]. split_and!; [done| |].
  - split; cbn [shards_ merged_].
    + intros f (i & Hf)%list_elem_of_lookup.
      destruct (lookup_lt_is_Some_2 names i) as [n Hn]; [apply lookup_lt_Some in Hf; lia|].
      pose proof (Forall2_lookup_lr _ _ _ _ _ _ Hsh Hn Hf) as Ho. destruct Ho as [Hpath Ho]. by rewrite Hpath.
    + intros i j f g name. by apply (fresh_shards_disjoint shards (λ name, is_Some ((∅ : TensorMap) !! name))).
    + intros name v. rewrite Hm, lookup_empty. naive_solver.
  - exists weight_map, index, events. split_and!; [done|done|]. intros tensor j Hin.
    destruct (Hentries tensor j Hin) as (s & f & -> & Hz' & Hc). destruct (Hzip s f Hz') as [[Hpath _] Hf].
    by exists s, f.
Qed.

Lemma wpx_OpenDir path_exists model_dir os :
  wpx (OpenDir disk path_exists path_append parent_path iteration model_dir)
    (λ m os', os' = add_mappings (zlen (shards_ m)) os ∧ model_ok m ∧
      (path_exists (path_append model_dir kSingleFileName) = true ∧ zlen (shards_ m) = 1 ∨
       index_served (path_append model_dir kIndexFileName) m))
    (λ _ os', os' = os) os.
Proof using Hreader Hiter.
  unfold OpenDir. destruct (path_exists (path_append model_dir kSingleFileName)).
  - eapply wpx_mono; [by apply wpx_OpenSingle| |done]. intros m os' (? & ? & ?). auto.
  - destruct (path_exists (path_append model_dir kIndexFileName)); [|by apply wpx_throw].
    eapply wpx_mono; [by apply wpx_OpenIndex| |done]. intros m os' (? & ? & ?). auto.
Qed.

(** The destructor of an open model gives every mapping back. *)
Lemma release_model m os : model_ok m → release_all (shards_ m) os = (Ok (), add_mappings (- zlen (shards_ m)) os).
Proof using.
  intros [Hs _ _]. apply release_all_run. apply Forall_forall. intros f Hf. by destruct (Hs f Hf) as (_ & ? & _).
Qed.

End open_index.

(** C26. Opening a model directory.  On success the model has one mapping per
    shard and none else; its shards are well-formed files of the disk (but
    for a repeated empty name, which the code lets through) whose names are
    pairwise disjoint, its table is exactly their union, every view
    it hands out is well typed, and every entry of an index is answered by the
    very shard the index names for it.  On failure, whichever shard or check
    fails, every mapping and descriptor made on the way is released. *)
Theorem open_model_consistent (reader : JsonReader) (disk : string → OsFile) (path_exists : string → bool)
    (path_append : string → string → string) (parent_path : string → string)
    (iteration : TensorMap → list (string * TensorView)) model_dir os :
  reader_ok reader → (∀ m, iteration m ≡ₚ map_to_list m) →
  match OpenDir disk path_exists path_append parent_path iteration model_dir os with
  | (Ok m, os') => os' = add_mappings (zlen (shards_ m)) os ∧ model_ok disk m ∧
      (∀ name v, Tensor m name = Ok v → view_ok v) ∧
      (path_exists (path_append model_dir kSingleFileName) = true ∧ zlen (shards_ m) = 1 ∨
       index_served disk path_append parent_path (path_append model_dir kIndexFileName) m)
  | (Err _, os') => os' = os
  end.
Proof.
  intros Hr Hi. pose proof (wpx_OpenDir disk path_append parent_path iteration Hr Hi path_exists model_dir os) as H.
  unfold wpx in H. destruct (OpenDir _ _ _ _ _ _ os) as [[m|e] os']; [|exact H].
  destruct H as (? & ? & ?). split_and!; try done. intros name v. by apply (model_view_ok disk m).
Qed.

Lemma open_model_consistent_witness :
  let run := OpenDir (reader:=CheckpointExample.reader) CheckpointExample.disk CheckpointExample.path_exists
    CheckpointExample.path_append CheckpointExample.parent_path map_to_list "m" CheckpointExample.idle in
  match run with
  | (Ok m, os') => mappings os' = 2 ∧ Tensor m "b" = Ok (mkTensorView kBF16 [1] [128; 63] 2)
  | (Err _, _) => False
  end ∧
  match run with
  | (Ok m, os') => os' = add_mappings (zlen (shards_ m)) CheckpointExample.idle ∧
      model_ok (reader:=CheckpointExample.reader) CheckpointExample.disk m ∧
      (∀ name v, Tensor m name = Ok v → view_ok v) ∧
      (CheckpointExample.path_exists (CheckpointExample.path_append "m" kSingleFileName) = true ∧ zlen (shards_ m) = 1 ∨
       index_served (reader:=CheckpointExample.reader) CheckpointExample.disk CheckpointExample.path_append
         CheckpointExample.parent_path (CheckpointExample.path_append "m" kIndexFileName) m)
  | (Err _, os') => os' = CheckpointExample.idle
  end.
Proof.
  split; [by vm_compute|].
  apply (open_model_consistent CheckpointExample.reader CheckpointExample.disk CheckpointExample.path_exists
    CheckpointExample.path_append CheckpointExample.parent_path map_to_list "m" CheckpointExample.idle).
  - apply CheckpointExample.reader_is_ok.
  - done.
Defined.
