(* ===== verification/SafetensorsFormat.v ===== *)
(** * The safetensors format: what a writer stores, the reader returns

    A reference writer of the file layout described in
    [loader/safetensors.hpp] (length prefix, JSON header, data section), and the
    round trip through [Open]. *)

From S2P Require Import Prelude Doubles Types HalfFloat Json Safetensors SafetensorsIndex.

(** ** The writer *)

Fixpoint le_bytes (n : nat) (z : Z) : list Z :=
  match n with
  | O => []
  | S n' => z mod 256 :: le_bytes n' (z / 256)
  end.

Record entry : Type := mkEntry { en_name : string; en_dtype : Dtype; en_shape : list Z; en_bytes : list Z }.

Definition dtype_name (d : Dtype) : string :=
  match d with
  | kF16 => "F16" | kBF16 => "BF16" | kF32 => "F32" | kF64 => "F64"
  | kI32 => "I32" | kI64 => "I64" | kU8 => "U8" | kUnknown => "?"
  end.

Definition member_of (off : Z) (e : entry) : string * json :=
  (en_name e,
   JObject [("dtype", JString (dtype_name (en_dtype e)));
            ("shape", JArray (JUnsigned <$> en_shape e));
            ("data_offsets", JArray [JUnsigned off; JUnsigned (off + zlen (en_bytes e))])]%string).

(** Tensors are laid out back to back from [off]. *)
Fixpoint members_from (off : Z) (es : list entry) : list (string * json) :=
  match es with
  | [] => []
  | e :: es' => member_of off e :: members_from (off + zlen (en_bytes e)) es'
  end.

Definition data_of (es : list entry) : list Z := concat (en_bytes <$> es).

Section writer.
Variable print : json → list Z.

Definition write_file (es : list entry) : list Z :=
  let header := print (JObject (members_from 0 es)) in
  le_bytes 8 (zlen header) ++ header ++ data_of es.
End writer.

(** The parser reads back what the printer wrote for [members]: the same
    members, in an order of its own, announced key by key. *)
Definition prints (reader : JsonReader) (print : json → list Z) (members : list (string * json)) : Prop :=
  ∃ h events, json_parse (print (JObject members)) = Ok (h, events) ∧
    is_object h = true ∧ items h ≡ₚ members ∧ root_keys events = members.*1.

Record entry_ok (e : entry) : Prop := mkEntryOk {
  eo_name : en_name e ≠ "__metadata__"%string;
  eo_dtype : en_dtype e ≠ kUnknown;
  eo_shape : shape_fits 1 (en_shape e);
  eo_bytes : zlen (en_bytes e) = product (en_shape e) * DtypeSize (en_dtype e);
}.

(** ** The length prefix *)

Lemma length_le_bytes n : ∀ z, length (le_bytes n z) = n.
Proof. induction n as [|n IH]; intros z; [done|]. cbn. by rewrite IH. Qed.

Definition le_value (bytes : list Z) : Z := foldr (λ b value, Z.lor (u64 (Z.shiftl value 8)) (u64 b)) 0 bytes.

Lemma le_value_le_bytes n : ∀ z, (n <= 8)%nat → 0 <= z < 256 ^ Z.of_nat n → le_value (le_bytes n z) = z.
Proof.
  induction n as [|n IH]; intros z Hn Hz; [cbn in *; lia|].
  rewrite Nat2Z.inj_succ, Z.pow_succ_r in Hz by lia. cbn [le_bytes]. unfold le_value. cbn [foldr].
  fold (le_value (le_bytes n (z / 256))). pose proof (Z.div_mod z 256 ltac:(lia)) as Hdm.
  pose proof (Z.mod_pos_bound z 256 ltac:(lia)) as Hb.
  assert (0 <= z / 256 < 256 ^ Z.of_nat n) as Hq by (split; [apply Z.div_pos; lia|apply Z.div_lt_upper_bound; lia]).
  rewrite IH by (done || lia). rewrite Z.shiftl_mul_pow2 by lia.
  assert (256 ^ Z.of_nat n <= 2 ^ 56) as Hp.
  { change (2 ^ 56) with (256 ^ 7). apply Z.pow_le_mono_r; lia. }
  rewrite !u64_id by (unfold u64_max; lia). rewrite lor_high by (cbn; lia). change (2 ^ 8) with 256. lia.
Qed.

Lemma ReadLeU64_le_bytes n rest : 0 <= n <= u64_max → ReadLeU64 (le_bytes 8 n ++ rest) = n.
Proof.
  intros Hn. pose proof (length_le_bytes 8 n) as Hl. pose proof (le_value_le_bytes 8 n (le_n 8)) as Hv.
  revert Hl Hv. generalize (le_bytes 8 n). intros l Hl Hv. unfold ReadLeU64.
  rewrite take_app_length' by done. apply Hv. change (256 ^ Z.of_nat 8) with (2 ^ 64). unfold u64_max in *. lia.
Qed.

(** The parts of a written file. *)
Lemma written_parts header data :
  zlen header <= u64_max →
  let bytes := le_bytes 8 (zlen header) ++ header ++ data in
  ReadLeU64 bytes = zlen header ∧ header_bytes bytes = header ∧ data_section bytes = data ∧
  data_size bytes = zlen data ∧ zlen bytes = 8 + zlen header + zlen data.
Proof.
  intros Hh bytes. pose proof (zlen_nonneg header) as H0.
  assert (ReadLeU64 bytes = zlen header) as Hr by (apply ReadLeU64_le_bytes; lia).
  assert (zlen bytes = 8 + zlen header + zlen data) as Hl.
  { unfold bytes. rewrite !zlen_app. unfold zlen at 1. rewrite length_le_bytes. lia. }
  assert (Z.to_nat (zlen header) = length header) as Hn by (unfold zlen; lia).
  split_and!; [done| | | |done].
  - unfold header_bytes. rewrite Hr, Hn. unfold bytes. rewrite drop_app_length' by by rewrite length_le_bytes.
    by rewrite take_app_length.
  - unfold data_section. rewrite Hr, Hn. unfold bytes. rewrite app_assoc.
    apply drop_app_length'. by rewrite length_app, length_le_bytes.
  - unfold data_size. lia.
Qed.

(** ** The members *)

Lemma members_names es : ∀ off, (members_from off es).*1 = en_name <$> es.
Proof. induction es as [|e es IH]; intros off; [done|]. cbn. by rewrite IH. Qed.

Lemma DtypeFromString_name d : DtypeFromString (dtype_name d) = d.
Proof. by destruct d. Qed.

Lemma as_u64_dims dims acc : shape_fits acc dims → mapM as_u64 (JUnsigned <$> dims) = Some dims.
Proof.
  intros Hf. apply mapM_Some, Forall2_fmap_l, Forall_Forall2_diag.
  eapply Forall_impl; [by eapply shape_fits_dims|]. intros d Hd. cbn.
  by rewrite u64_id by (unfold int64_max, u64_max in *; lia).
Qed.

(** The view of an entry whose bytes start at [off] of the data section. *)
Definition view_at (section : list Z) (off : Z) (e : entry) : TensorView :=
  mkTensorView (en_dtype e) (en_shape e) (drop (Z.to_nat off) section) (zlen (en_bytes e)).

Lemma member_of_denotes section size off e :
  entry_ok e → 0 <= off → off + zlen (en_bytes e) <= size → size <= u64_max →
  denotes section size (member_of off e).2 (view_at section off e).
Proof.
  intros [_ Hd Hs Hb] Ho He Hsz. pose proof (zlen_nonneg (en_bytes e)) as Hl. split; cbn.
  - exists (dtype_name (en_dtype e)). by rewrite DtypeFromString_name.
  - done.
  - exists (JUnsigned <$> en_shape e). split; [done|]. by apply (as_u64_dims _ 1).
  - done.
  - exists (JUnsigned off), (JUnsigned (off + zlen (en_bytes e))), off, (off + zlen (en_bytes e)). cbn.
    rewrite !u64_id by lia. by split_and!; try lia.
  - done.
Qed.

(** Every member of the header is the one of an entry, placed at its bytes. *)
Lemma members_from_elem es : ∀ pre name spec,
  (name, spec) ∈ members_from (zlen pre) es →
  ∃ e off, e ∈ es ∧ (name, spec) = member_of off e ∧ 0 <= off ∧
    off + zlen (en_bytes e) <= zlen (pre ++ data_of es) ∧
    take (length (en_bytes e)) (drop (Z.to_nat off) (pre ++ data_of es)) = en_bytes e.
Proof.
  induction es as [|e es IH]; intros pre name spec; cbn [members_from]; [by intros ?%not_elem_of_nil|].
  change (data_of (e :: es)) with (en_bytes e ++ data_of es).
  pose proof (zlen_nonneg pre). pose proof (zlen_nonneg (data_of es)).
  intros [Hhere|Hin]%elem_of_cons.
  - exists e, (zlen pre). split_and!; [by left|done|done|rewrite !zlen_app; lia|].
    unfold zlen. rewrite Nat2Z.id, drop_app_length. apply take_app_length.
  - rewrite <- zlen_app in Hin. destruct (IH _ _ _ Hin) as (e' & off & He & Hm & Ho & Hle & Ht).
    rewrite <- app_assoc in Hle, Ht. exists e', off. split_and!; try done. by right.
Qed.

Lemma entry_member es off e : e ∈ es → ∃ spec, (en_name e, spec) ∈ members_from off es.
Proof.
  intros He. assert (en_name e ∈ (members_from off es).*1) as Hin.
  { rewrite members_names. by apply list_elem_of_fmap_2. }
  apply list_elem_of_fmap in Hin as ([n spec] & Hn & Hin). cbn in Hn. subst n. by exists spec.
Qed.

Lemma entry_unique es e e' : NoDup (en_name <$> es) → e ∈ es → e' ∈ es → en_name e = en_name e' → e = e'.
Proof.
  intros Hnd (i & Hi)%list_elem_of_lookup (j & Hj)%list_elem_of_lookup Hn.
  assert (i = j) as ->; [|congruence].
  apply (NoDup_lookup (en_name <$> es) i j (en_name e) Hnd); rewrite list_lookup_fmap.
  - by rewrite Hi.
  - by rewrite Hj, Hn.
Qed.

(** ** The written file *)

Section written.
Context {reader : JsonReader}.
Variables (print : json → list Z) (es : list entry) (h : json) (events : list (Z * string)).
Hypothesis Hes : Forall entry_ok es.
Hypothesis Hnd : NoDup (en_name <$> es).
Hypothesis Hlen : zlen (write_file print es) <= u64_max.
Hypothesis Hparse : json_parse (print (JObject (members_from 0 es))) = Ok (h, events).
Hypothesis Hobj : is_object h = true.
Hypothesis Hitems : items h ≡ₚ members_from 0 es.
Hypothesis Hkeys : root_keys events = (members_from 0 es).*1.

Let bytes := write_file print es.

Lemma written_sections :
  ReadLeU64 bytes = zlen (print (JObject (members_from 0 es))) ∧
  header_bytes bytes = print (JObject (members_from 0 es)) ∧
  data_section bytes = data_of es ∧ data_size bytes = zlen (data_of es) ∧ ReadLeU64 bytes <= zlen bytes - 8 ∧
  zlen (data_of es) <= u64_max.
Proof using Hlen.
  set (header := print (JObject (members_from 0 es))). pose proof (zlen_nonneg (data_of es)).
  pose proof (zlen_nonneg header). assert (zlen bytes = 8 + zlen header + zlen (data_of es)) as Hl.
  { unfold bytes, write_file. rewrite !zlen_app. unfold zlen at 1. rewrite length_le_bytes. fold header. lia. }
  destruct (written_parts header (data_of es)) as (HR & HH & HD & HS & _); [unfold bytes in *; lia|].
  split_and!; try done; [|unfold bytes in *; lia]. unfold bytes in *. change (write_file print es) with
    (le_bytes 8 (zlen header) ++ header ++ data_of es) in *. lia.
Qed.

Lemma written_member name spec :
  (name, spec) ∈ items h →
  ∃ e off, e ∈ es ∧ en_name e = name ∧ entry_ok e ∧
    denotes (data_section bytes) (data_size bytes) spec (view_at (data_of es) off e) ∧
    take (length (en_bytes e)) (drop (Z.to_nat off) (data_of es)) = en_bytes e.
Proof using Hes Hlen Hitems.
  destruct written_sections as (_ & _ & HD & HS & _ & Hu). rewrite Hitems. intros Hin.
  destruct (members_from_elem es [] name spec Hin) as (e & off & He & [= -> ->] & Ho & Hle & Ht). exists e, off.
  pose proof (proj1 (Forall_forall _ _) Hes e He) as Hok. split_and!; try done. rewrite HD, HS.
  by apply (member_of_denotes (data_of es) (zlen (data_of es)) off e).
Qed.

Lemma written_header_ok : header_ok bytes (items h).
Proof using Hes Hnd Hlen Hparse Hobj Hitems Hkeys.
  destruct written_sections as (_ & HH & _ & _ & Hle & _). split; [done| |].
  - exists h, events. rewrite HH. split_and!; try done. by rewrite Hkeys, members_names.
  - apply Forall_forall. intros [name spec] Hin. right.
    destruct (written_member _ _ Hin) as (e & off & _ & _ & _ & Hd & _). by eexists.
Qed.

(** The views of the file are the views of the entries. *)
Lemma written_view name v :
  file_view bytes (items h) name v →
  ∃ e off, e ∈ es ∧ en_name e = name ∧ v = view_at (data_of es) off e ∧
    take (length (en_bytes e)) (drop (Z.to_nat off) (data_of es)) = en_bytes e.
Proof using Hes Hlen Hitems.
  intros (spec & Hin & _ & Hv). destruct (written_member _ _ Hin) as (e & off & He & Hn & _ & Hd & Ht).
  exists e, off. split_and!; try done. by eapply denotes_unique.
Qed.

Lemma written_entry e : e ∈ es → ∃ v, file_view bytes (items h) (en_name e) v.
Proof using Hes Hlen Hitems.
  intros He. destruct (entry_member es 0 e He) as [spec Hin]. rewrite <- Hitems in Hin.
  destruct (written_member _ _ Hin) as (e' & off & _ & Hn & Hok & Hd & _).
  exists (view_at (data_of es) off e'), spec. split_and!; [done| |done]. rewrite <- Hn. apply Hok.
Qed.

End written.

(** What opening a written file yields. *)
Lemma open_written (reader : JsonReader) (print : json → list Z) (disk : string → OsFile) path os es :
  reader_ok reader → prints reader print (members_from 0 es) →
  Forall entry_ok es → NoDup (en_name <$> es) → zlen (write_file print es) <= u64_max →
  disk path = mkOsFile true true true (write_file print es) →
  ∃ f, Open disk path os = (Ok f, add_mappings 1 os) ∧
    (∀ name, is_Some (tensors_ f !! name) ↔ name ∈ (en_name <$> es)) ∧
    ∀ e, e ∈ es → ∃ v, tensors_ f !! en_name e = Some v ∧ tv_dtype v = en_dtype e ∧ tv_shape v = en_shape e ∧
      take (Z.to_nat (tv_nbytes v)) (tv_data v) = en_bytes e.
Proof.
  intros Hr (h & events & Hparse & Hobj & Hitems & Hkeys) Hes Hnd Hlen Hdisk.
  pose proof (written_header_ok print es h events Hes Hnd Hlen Hparse Hobj Hitems Hkeys) as Hok.
  pose proof (written_view print es h Hes Hlen Hitems) as Hview.
  pose proof (written_entry print es h Hes Hlen Hitems) as Hentry.
  pose proof (Open_spec disk path os Hr) as H. unfold wpx in H. rewrite Hdisk in H. cbn [contents] in H.
  destruct (Open disk path os) as [[f|e] os']; [|by destruct H as [_ Hno]; destruct (Hno eq_refl (items h)); left].
  destruct H as (-> & _ & _ & _ & members' & Hok' & Hv). exists f. split; [done|].
  assert (members' = items h) as ->.
  { apply header_read_seen in Hok'. destruct (ho_parse _ _ _ Hok) as (h1 & ev1 & Hp1 & _ & _ & <-).
    destruct (ho_parse _ _ _ Hok') as (h2 & ev2 & Hp2 & _ & _ & <-). congruence. }
  split.
  - intros name. split.
    + intros [v Hv1%Hv]. destruct (Hview _ _ Hv1) as (e & off & He & <- & _). by apply list_elem_of_fmap_2.
    + intros (e & -> & He)%list_elem_of_fmap. destruct (Hentry e He) as [v Hv1]. exists v. by apply Hv.
  - intros e He. destruct (Hentry e He) as [v Hv1]. exists v. split.
    + by apply Hv.
    + destruct (Hview _ _ Hv1) as (e' & off & He' & Hn & -> & Ht).
      rewrite (entry_unique es e e' Hnd He He' (eq_sym Hn)). split_and!; [done|done|]. cbn.
      unfold zlen. by rewrite Nat2Z.id.
Qed.

(** C24. Round trip of the file format: a table of well-formed tensors with
    distinct names, written as length prefix, JSON header and back-to-back data,
    opens to exactly those tensors, with their dtypes, shapes and bytes. *)
Theorem file_round_trip (reader : JsonReader) (print : json → list Z) (disk : string → OsFile) path os es :
  reader_ok reader → prints reader print (members_from 0 es) →
  Forall entry_ok es → NoDup (en_name <$> es) → zlen (write_file print es) <= u64_max →
  disk path = mkOsFile true true true (write_file print es) →
  ∃ f, Open disk path os = (Ok f, add_mappings 1 os) ∧
    (∀ name, file_Contains f name = true ↔ name ∈ (en_name <$> es)) ∧
    ∀ e, e ∈ es → ∃ v, file_Tensor f (en_name e) = Ok v ∧
      tv_dtype v = en_dtype e ∧ tv_shape v = en_shape e ∧
      take (Z.to_nat (tv_nbytes v)) (tv_data v) = en_bytes e.
Proof.
  intros Hr Hp Hes Hnd Hlen Hdisk.
  destruct (open_written reader print disk path os es Hr Hp Hes Hnd Hlen Hdisk) as (f & Hf & Hin & Hv). exists f.
  split; [done|]. split; [intros name; unfold file_Contains; by rewrite bool_decide_eq_true|].
  intros e He. destruct (Hv e He) as (v & Hn & ?). exists v. split; [|done]. unfold file_Tensor. by rewrite Hn.
Qed.

Module FormatExample.

Definition entries : list entry := [mkEntry "w" kU8 [2] [7; 9]; mkEntry "b" kBF16 [1; 1] [128; 63]].

(** Any one-to-one naming of documents by bytes will do; here a document is
    printed as the names of its members. *)
Definition print (v : json) : list Z := concat ((λ m : string * json, CheckpointExample.text m.1) <$> items v).

Definition sorted : json := JObject [member_of 2 (mkEntry "b" kBF16 [1; 1] [128; 63]); member_of 0 (mkEntry "w" kU8 [2] [7; 9])].
Definition reader : JsonReader := table_reader
  [(CheckpointExample.text "wb", (sorted, CheckpointExample.spec_events "w" ++ CheckpointExample.spec_events "b"))].
Definition disk (path : string) : OsFile := mkOsFile true true true (write_file print entries).

End FormatExample.

Lemma file_round_trip_witness :
  zlen (write_file FormatExample.print FormatExample.entries) = 14 ∧
  ∃ f, Open (reader:=FormatExample.reader) FormatExample.disk "x.st" CheckpointExample.idle =
         (Ok f, add_mappings 1 CheckpointExample.idle) ∧
    (∀ name, file_Contains f name = true ↔ name ∈ (en_name <$> FormatExample.entries)) ∧
    ∀ e, e ∈ FormatExample.entries → ∃ v, file_Tensor f (en_name e) = Ok v ∧
      tv_dtype v = en_dtype e ∧ tv_shape v = en_shape e ∧
      take (Z.to_nat (tv_nbytes v)) (tv_data v) = en_bytes e.
Proof.
  split; [by vm_compute|].
  apply (file_round_trip FormatExample.reader FormatExample.print FormatExample.disk "x.st" CheckpointExample.idle
    FormatExample.entries).
  - apply table_reader_ok. repeat constructor; cbn; try lia; set_solver.
  - exists FormatExample.sorted, (CheckpointExample.spec_events "w" ++ CheckpointExample.spec_events "b").
    split_and!; [by vm_compute|done| |done]. apply Permutation_swap.
  - repeat constructor; cbn; try done; lia.
  - repeat constructor; set_solver.
  - by vm_compute.
  - done.
Defined.
