(* ===== verification/Weights.v ===== *)
(** * The weight map and the device layout ([loader/weights.{hpp,cpp}])

    Every checkpoint tensor has one destination range in a single device slab;
    the fusions (Q, K and V into one matrix, gate and up into another) are row
    concatenations, so they exist only as offsets.  This file holds the map, the
    layout and the address of an entry, and shows that the entries tile the slab
    exactly; WeightsLoad.v holds the constructor that fills it. *)

From stdpp Require Import pretty sorting.
From S2P Require Import Prelude Doubles Types ModelConfig Uploader Json Safetensors.

Definition kHiddenSize : Z := 1536.
Definition kNumLayers : Z := 28.
Definition kVocabSize : Z := 151936.
Definition kIntermediateSize : Z := 8960.
Definition kQRows : Z := 1536.
Definition kKvRows : Z := 256.
Definition kQRowBegin : Z := 0.
Definition kKRowBegin : Z := 1536.
Definition kVRowBegin : Z := 1792.
Definition kQkvRows : Z := 2048.
Definition kGateRows : Z := 8960.
Definition kGateRowBegin : Z := 0.
Definition kUpRowBegin : Z := 8960.
Definition kGateUpRows : Z := 17920.
Definition kNumNormVectors : Z := 2 * kNumLayers + 1.
Definition kTotalWeightBytesTied : Z :=
  2 * (kVocabSize * kHiddenSize
       + kNumLayers * (kQkvRows * kHiddenSize + kQkvRows
                       + kHiddenSize * kHiddenSize
                       + kGateUpRows * kHiddenSize
                       + kHiddenSize * kIntermediateSize
                       + 2 * kHiddenSize)
       + kHiddenSize).

(** The header's [static_assert]s. *)
Lemma weight_layout_static_asserts :
  kKRowBegin = kQRowBegin + kQRows ∧ kVRowBegin = kKRowBegin + kKvRows ∧ kQkvRows = kVRowBegin + kKvRows ∧
  kUpRowBegin = kGateRowBegin + kGateRows ∧ kGateUpRows = kUpRowBegin + kGateRows ∧
  kNumNormVectors = 57 ∧ kTotalWeightBytesTied = 3087428608.
Proof. done. Qed.

Inductive DeviceTensorKind : Type :=
  | kEmbed | kWqkv | kBqkv | kWo | kWgateup | kWdown | kInputNorm | kPostAttnNorm | kFinalNorm | kLmHead.

Record WeightMapEntry : Type := mkWeightMapEntry {
  hf_name : string;
  dest : DeviceTensorKind;
  layer : Z;
  dest_row_begin : Z;
  expected_shape : list Z;
}.

Definition num_elements (e : WeightMapEntry) : Z := foldl Z.mul 1 (expected_shape e).
Definition dest_rows (e : WeightMapEntry) : Z := match expected_shape e with [] => 0 | d :: _ => d end.

(** [WeightsError], by the check that throws it, and what escapes from the
    uploader during the load. *)
Inductive weights_error : Type :=
  | GeometryMismatch (what : string) (actual expected : Z)
  | QkvBiasRequired
  | HeadRequired
  | TensorMissing (name : string)
  | ShapeMismatch (name : string) (shape expected : list Z)
  | DtypeUnsupported (name : string)
  | SlabAllocationFailed (bytes : Z)
  | UploadFailed (e : load_error)
  | WeightsAssertion (condition : string).

(** ** Geometry *)

Section geometry.
Context {S : Type}.
Notation WM := (M weights_error S).

Definition CheckGeometry (actual expected : Z) (what : string) : WM () :=
  if negb (actual =? expected) then throw (GeometryMismatch what actual expected) else mret ().

Definition RequireDesignGeometry (c : ModelConfig) : WM () :=
  CheckGeometry (hidden_size c) kHiddenSize "hidden_size";;
  CheckGeometry (num_layers c) kNumLayers "num_hidden_layers";;
  CheckGeometry (vocab_size c) kVocabSize "vocab_size";;
  CheckGeometry (intermediate_size c) kIntermediateSize "intermediate_size";;
  CheckGeometry (num_q_heads c * head_dim c) kQRows "num_attention_heads * head_dim (fused Q rows)";;
  CheckGeometry (num_kv_heads c * head_dim c) kKvRows "num_key_value_heads * head_dim (fused K/V rows)";;
  if negb (qkv_bias c) then throw QkvBiasRequired else mret ().

Definition DestRowWidth (kind : DeviceTensorKind) (c : ModelConfig) : Z :=
  match kind with
  | kEmbed | kLmHead | kWqkv | kWo | kWgateup => hidden_size c
  | kWdown => intermediate_size c
  | kBqkv | kInputNorm | kPostAttnNorm | kFinalNorm => 1
  end.

(** ** The map *)

Definition LayerTensorName (l : Z) (suffix : string) : string := "model.layers." +:+ pretty l +:+ suffix.

(** The body of the loop over the layers. *)
Definition layer_entries (hidden inter q_rows kv_rows l : Z) : list WeightMapEntry :=
  [ mkWeightMapEntry (LayerTensorName l ".input_layernorm.weight") kInputNorm l 0 [hidden];
    mkWeightMapEntry (LayerTensorName l ".self_attn.q_proj.weight") kWqkv l kQRowBegin [q_rows; hidden];
    mkWeightMapEntry (LayerTensorName l ".self_attn.q_proj.bias") kBqkv l kQRowBegin [q_rows];
    mkWeightMapEntry (LayerTensorName l ".self_attn.k_proj.weight") kWqkv l kKRowBegin [kv_rows; hidden];
    mkWeightMapEntry (LayerTensorName l ".self_attn.k_proj.bias") kBqkv l kKRowBegin [kv_rows];
    mkWeightMapEntry (LayerTensorName l ".self_attn.v_proj.weight") kWqkv l kVRowBegin [kv_rows; hidden];
    mkWeightMapEntry (LayerTensorName l ".self_attn.v_proj.bias") kBqkv l kVRowBegin [kv_rows];
    mkWeightMapEntry (LayerTensorName l ".self_attn.o_proj.weight") kWo l 0 [hidden; hidden];
    mkWeightMapEntry (LayerTensorName l ".post_attention_layernorm.weight") kPostAttnNorm l 0 [hidden];
    mkWeightMapEntry (LayerTensorName l ".mlp.gate_proj.weight") kWgateup l kGateRowBegin [inter; hidden];
    mkWeightMapEntry (LayerTensorName l ".mlp.up_proj.weight") kWgateup l kUpRowBegin [inter; hidden];
    mkWeightMapEntry (LayerTensorName l ".mlp.down_proj.weight") kWdown l 0 [hidden; inter] ].

Definition map_entries (hidden layers vocab inter q_rows kv_rows : Z) (has_lm_head : bool) : list WeightMapEntry :=
  [mkWeightMapEntry "model.embed_tokens.weight" kEmbed (-1) 0 [vocab; hidden]] ++
  concat (layer_entries hidden inter q_rows kv_rows <$> seqZ 0 layers) ++
  [mkWeightMapEntry "model.norm.weight" kFinalNorm (-1) 0 [hidden]] ++
  (if has_lm_head then [mkWeightMapEntry "lm_head.weight" kLmHead (-1) 0 [vocab; hidden]] else []).

Definition BuildWeightMap (c : ModelConfig) (has_lm_head : bool) : WM (list WeightMapEntry) :=
  RequireDesignGeometry c;;
  mret (map_entries (hidden_size c) (num_layers c) (vocab_size c) (intermediate_size c)
          (num_q_heads c * head_dim c) (num_kv_heads c * head_dim c) has_lm_head).

End geometry.

(** ** The layout *)

Record LayerOffsets : Type := mkLayerOffsets {
  w_qkv : Z; b_qkv : Z; w_o : Z; w_gateup : Z; w_down : Z; input_norm : Z; post_attn_norm : Z;
}.

Record WeightsLayout : Type := mkWeightsLayout {
  embed : Z;
  layers : list LayerOffsets;
  final_norm : Z;
  lm_head : Z;
  lm_head_aliases_embed : bool;
  total_bytes : Z;
}.

(** The lambda [place]: the running offset is the state. *)
Definition place_bytes (bytes : Z) : M weights_error Z Z :=
  at_ ← get; put (Z.quot (at_ + bytes + 256 - 1) 256 * 256);; mret at_.

Definition place_layer (hidden inter : Z) : M weights_error Z LayerOffsets :=
  qkv ← place_bytes (kQkvRows * hidden * 2);
  b ← place_bytes (kQkvRows * 2);
  o ← place_bytes (hidden * hidden * 2);
  gateup ← place_bytes (kGateUpRows * hidden * 2);
  down ← place_bytes (hidden * inter * 2);
  inorm ← place_bytes (hidden * 2);
  pnorm ← place_bytes (hidden * 2);
  mret (mkLayerOffsets qkv b o gateup down inorm pnorm).

Fixpoint place_layers (n : nat) (hidden inter : Z) : M weights_error Z (list LayerOffsets) :=
  match n with
  | O => mret []
  | S n' => l ← place_layer hidden inter; ls ← place_layers n' hidden inter; mret (l :: ls)
  end.

Definition place_all (c : ModelConfig) (has_lm_head : bool) : M weights_error Z WeightsLayout :=
  let hidden := hidden_size c in
  let inter := intermediate_size c in
  let vocab := vocab_size c in
  e ← place_bytes (vocab * hidden * 2);
  ls ← place_layers (Z.to_nat (num_layers c)) hidden inter;
  fnorm ← place_bytes (hidden * 2);
  h ← (if has_lm_head then place_bytes (vocab * hidden * 2) else mret e);
  total ← get;
  mret (mkWeightsLayout e ls fnorm h (negb has_lm_head) total).

Definition ComputeWeightsLayout {S} (c : ModelConfig) (has_lm_head : bool) : M weights_error S WeightsLayout :=
  RequireDesignGeometry c;;
  match place_all c has_lm_head 0 with
  | (Ok l, _) => mret l
  | (Err e, _) => throw e
  end.

Definition TotalDeviceBytes {S} (c : ModelConfig) (has_separate_lm_head : bool) : M weights_error S Z :=
  l ← ComputeWeightsLayout c has_separate_lm_head; mret (total_bytes l).

(** The layer of a per-layer kind must exist; a debug build asserts it. *)
Definition LayerAt {S} (ls : list LayerOffsets) (l : Z) : M weights_error S LayerOffsets :=
  if (0 <=? l) && (l <? zlen ls)
  then from_option_or (WeightsAssertion "layer in range") (ls !! Z.to_nat l)
  else throw (WeightsAssertion "layer in range").

Definition OffsetFor {S} (l : WeightsLayout) (kind : DeviceTensorKind) (layer : Z) : M weights_error S Z :=
  match kind with
  | kEmbed => mret (embed l)
  | kLmHead => mret (lm_head l)
  | kFinalNorm => mret (final_norm l)
  | kWqkv => at_ ← LayerAt (layers l) layer; mret (w_qkv at_)
  | kBqkv => at_ ← LayerAt (layers l) layer; mret (b_qkv at_)
  | kWo => at_ ← LayerAt (layers l) layer; mret (w_o at_)
  | kWgateup => at_ ← LayerAt (layers l) layer; mret (w_gateup at_)
  | kWdown => at_ ← LayerAt (layers l) layer; mret (w_down at_)
  | kInputNorm => at_ ← LayerAt (layers l) layer; mret (input_norm at_)
  | kPostAttnNorm => at_ ← LayerAt (layers l) layer; mret (post_attn_norm at_)
  end.

Definition EntryByteOffset {S} (l : WeightsLayout) (e : WeightMapEntry) (c : ModelConfig) : M weights_error S Z :=
  base ← OffsetFor l (dest e) (layer e);
  mret (base + dest_row_begin e * DestRowWidth (dest e) c * 2).

(** ** The design geometry *)

Record design_geometry (c : ModelConfig) : Prop := mkDesignGeometry {
  dg_hidden : hidden_size c = kHiddenSize;
  dg_layers : num_layers c = kNumLayers;
  dg_vocab : vocab_size c = kVocabSize;
  dg_inter : intermediate_size c = kIntermediateSize;
  dg_q : num_q_heads c * head_dim c = kQRows;
  dg_kv : num_kv_heads c * head_dim c = kKvRows;
  dg_bias : qkv_bias c = true;
}.

Lemma geometry_run {S} c (s : S) :
  match RequireDesignGeometry c s with
  | (Ok _, s') => s' = s ∧ design_geometry c
  | (Err _, s') => s' = s ∧ ¬ design_geometry c
  end.
Proof.
  unfold RequireDesignGeometry, CheckGeometry, mbind, M_bind.
  repeat match goal with |- context [negb (?a =? ?b)] => destruct (Z.eqb_spec a b); cbn [negb throw mret M_ret] end;
    try (split; [done|]; intros []; congruence).
  destruct (qkv_bias c) eqn:Hb; cbn [negb throw mret M_ret]; (split; [done|]); [by split|]. intros []. congruence.
Qed.

Lemma geometry_passes {S} c (s : S) : design_geometry c → RequireDesignGeometry c s = (Ok (), s).
Proof.
  intros Hg. pose proof (geometry_run c s) as H. destruct (RequireDesignGeometry c s) as [[[]|e] s'].
  - by destruct H as [-> _].
  - by destruct H.
Qed.

(** The map and the layout of the design geometry. *)
Definition design_map (b : bool) : list WeightMapEntry :=
  map_entries kHiddenSize kNumLayers kVocabSize kIntermediateSize kQRows kKvRows b.
Definition design_layout (b : bool) : WeightsLayout :=
  match place_all qwen25 b 0 with (Ok l, _) => l | (Err _, _) => mkWeightsLayout 0 [] 0 0 false 0 end.

Lemma BuildWeightMap_design {S} c b (s : S) : design_geometry c → BuildWeightMap c b s = (Ok (design_map b), s).
Proof.
  intros Hg. unfold BuildWeightMap, mbind, M_bind. rewrite geometry_passes by done.
  by destruct Hg as [-> -> -> -> -> -> _].
Qed.

Lemma ComputeWeightsLayout_design {S} c b (s : S) :
  design_geometry c → ComputeWeightsLayout c b s = (Ok (design_layout b), s).
Proof.
  intros Hg. unfold ComputeWeightsLayout, mbind, M_bind. rewrite geometry_passes by done.
  assert (place_all c b = place_all qwen25 b) as ->.
  { unfold place_all. by destruct Hg as [-> -> -> -> _ _ _]. }
  by destruct b.
Qed.

(** The byte offset of an entry of the design map. *)
Definition offset_in (l : WeightsLayout) (e : WeightMapEntry) : Z :=
  match EntryByteOffset l e qwen25 () with (Ok o, _) => o | (Err _, _) => -1 end.
Definition entry_offset (b : bool) : WeightMapEntry → Z := offset_in (design_layout b).
Definition entry_bytes (e : WeightMapEntry) : Z := 2 * num_elements e.

Definition entry_placed (l : WeightsLayout) (e : WeightMapEntry) : bool :=
  match EntryByteOffset l e qwen25 () with (Ok o, _) => (0 <=? o) && (o mod 256 =? 0) | (Err _, _) => false end.

Lemma entries_placed b : forallb (entry_placed (design_layout b)) (design_map b) = true.
Proof. by destruct b; vm_compute. Qed.

(** An offset depends on the two row widths only. *)
Lemma EntryByteOffset_config {S T} l e c c' (s : S) (t : T) r :
  hidden_size c' = hidden_size c → intermediate_size c' = intermediate_size c →
  EntryByteOffset l e c s = (Ok r, s) → EntryByteOffset l e c' t = (Ok r, t).
Proof.
  intros Hh Hi. unfold EntryByteOffset, OffsetFor, LayerAt, mbind, M_bind, DestRowWidth. rewrite Hh, Hi.
  destruct (dest e); try (by intros [= <-]); destruct (_ && _); try done;
    destruct (layers l !! Z.to_nat (layer e)); try done; by intros [= <-].
Qed.

Lemma EntryByteOffset_design {S} c b e (s : S) :
  design_geometry c → e ∈ design_map b →
  EntryByteOffset (design_layout b) e c s = (Ok (entry_offset b e), s) ∧
  0 <= entry_offset b e ∧ (256 | entry_offset b e).
Proof.
  intros Hg He. pose proof (proj1 (forallb_forall _ _) (entries_placed b) e) as Hp.
  rewrite <- list_elem_of_In in Hp. specialize (Hp He). unfold entry_placed in Hp. unfold entry_offset, offset_in.
  destruct (EntryByteOffset (design_layout b) e qwen25 ()) as [[o|] []] eqn:Ho; [|done].
  apply andb_true_iff in Hp as [Hp1 Hp2]. zbool. split_and!; [|done|by apply Z.mod_divide].
  by apply (EntryByteOffset_config _ _ qwen25 c ()); [apply Hg|apply Hg|].
Qed.

(** ** Tiling *)

(** Consecutive non-empty ranges from [lo] to [hi]. *)
Fixpoint tiles (lo hi : Z) (ranges : list (Z * Z)) : bool :=
  match ranges with
  | [] => lo =? hi
  | (o, n) :: rest => (o =? lo) && (0 <? n) && tiles (lo + n) hi rest
  end.

Definition in_range (r : Z * Z) (a : Z) : Prop := r.1 <= a < r.1 + r.2.

Lemma tiles_bounds ranges : ∀ lo hi,
  tiles lo hi ranges = true → lo <= hi ∧ ∀ r, r ∈ ranges → lo <= r.1 ∧ 0 < r.2 ∧ r.1 + r.2 <= hi.
Proof.
  induction ranges as [|[o n] ranges IH]; intros lo hi; cbn; zbool.
  - intros ->. split; [lia|by intros ? ?%not_elem_of_nil].
  - intros [[-> Hn] Ht]. destruct (IH _ _ Ht) as [Hle Hr]. split; [lia|].
    intros r [->|Hin]%elem_of_cons; cbn; [lia|]. specialize (Hr r Hin). lia.
Qed.

(** Every address is in one range, and in one only. *)
Lemma tiles_cover ranges : ∀ lo hi a,
  tiles lo hi ranges = true → lo <= a < hi →
  ∃ i r, ranges !! i = Some r ∧ in_range r a ∧ ∀ j r', ranges !! j = Some r' → in_range r' a → j = i.
Proof.
  induction ranges as [|[o n] ranges IH]; intros lo hi a Ht Ha; cbn in Ht; zbool; [lia|].
  destruct Ht as [[-> Hn] Ht]. destruct (Z.lt_ge_cases a (lo + n)) as [Hlt|Hge].
  - exists 0%nat, (lo, n). split_and!; [done|unfold in_range; cbn; lia|]. intros [|j] r' Hj Hin; [done|exfalso].
    apply (list_elem_of_lookup_2 ranges) in Hj. apply tiles_bounds in Ht as [_ Ht]. specialize (Ht r' Hj).
    unfold in_range in Hin. lia.
  - destruct (IH _ _ a Ht) as (i & r & Hi & Hr & Hu); [lia|]. exists (S i), r. split_and!; [done|done|].
    intros [|j] r' Hj Hin; [|f_equal; by apply (Hu j r')]. cbn in Hj. injection Hj as <-. unfold in_range in Hin. cbn in Hin. lia.
Qed.

Definition slab_order (x y : Z * WeightMapEntry) : Prop := x.1 <= y.1.
#[export] Instance slab_order_dec : RelDecision slab_order.
Proof. intros x y. unfold slab_order. apply _. Defined.

(** The map in slab order. *)
Definition sorted_by (l : WeightsLayout) (map : list WeightMapEntry) : list WeightMapEntry :=
  (merge_sort slab_order ((λ e, (offset_in l e, e)) <$> map)).*2.
Definition sorted_map (b : bool) : list WeightMapEntry := sorted_by (design_layout b) (design_map b).
Definition range_in (l : WeightsLayout) (e : WeightMapEntry) : Z * Z := (offset_in l e, entry_bytes e).
Definition entry_range (b : bool) : WeightMapEntry → Z * Z := range_in (design_layout b).

Definition slab_bytes (b : bool) : Z :=
  kTotalWeightBytesTied + (if b then kVocabSize * kHiddenSize * 2 else 0).

Lemma sorted_map_tiles b : tiles 0 (slab_bytes b) (entry_range b <$> sorted_map b) = true.
Proof. by destruct b; vm_compute. Qed.

Lemma sorted_map_perm b : sorted_map b ≡ₚ design_map b.
Proof.
  unfold sorted_map, sorted_by. generalize (design_map b). intros l. rewrite merge_sort_Permutation, <- list_fmap_compose.
  by rewrite list_fmap_id.
Qed.

Lemma entry_bounds b e :
  e ∈ design_map b → 0 <= entry_offset b e ∧ 0 < entry_bytes e ∧ entry_offset b e + entry_bytes e <= slab_bytes b.
Proof.
  intros He. destruct (tiles_bounds _ _ _ (sorted_map_tiles b)) as [_ H].
  apply (H (entry_range b e)). apply list_elem_of_fmap_2. by rewrite sorted_map_perm.
Qed.

Lemma entry_covering b a :
  0 <= a < slab_bytes b →
  ∃ e, e ∈ design_map b ∧ in_range (entry_range b e) a ∧
    ∀ e', e' ∈ design_map b → in_range (entry_range b e') a → e' = e.
Proof.
  intros Ha. destruct (tiles_cover _ _ _ a (sorted_map_tiles b) Ha) as (i & r & Hi & Hr & Hu).
  rewrite list_lookup_fmap in Hi. apply fmap_Some in Hi as (e & Hi & ->). exists e.
  split_and!; [rewrite <- (sorted_map_perm b); by eapply list_elem_of_lookup_2|done|].
  intros e' He' Hin. rewrite <- (sorted_map_perm b) in He'. apply list_elem_of_lookup in He' as [j Hj].
  specialize (Hu j (entry_range b e')). rewrite list_lookup_fmap, Hj in Hu. specialize (Hu eq_refl Hin). congruence.
Qed.

(** Two entries whose ranges meet are the same. *)
Lemma entries_disjoint b e e' a :
  e ∈ design_map b → e' ∈ design_map b → in_range (entry_range b e) a → in_range (entry_range b e') a → e = e'.
Proof.
  intros He He' Hin Hin'. pose proof (entry_bounds b e He) as Hb.
  unfold in_range, entry_range, range_in, entry_offset in *. cbn in *.
  destruct (entry_covering b a ltac:(lia)) as (x & _ & _ & Hu). by rewrite (Hu e), (Hu e').
Qed.

Fixpoint distinct (names : list string) : bool :=
  match names with
  | [] => true
  | x :: names' => negb (existsb (String.eqb x) names') && distinct names'
  end.

Lemma distinct_NoDup names : distinct names = true → NoDup names.
Proof.
  induction names as [|x names IH]; [constructor|]. cbn. rewrite andb_true_iff, negb_true_iff.
  intros [Hx Hn%IH]. constructor; [|done]. intros Hin. apply not_true_iff_false in Hx. apply Hx.
  apply existsb_exists. exists x. split; [by apply list_elem_of_In|]. apply String.eqb_refl.
Qed.

Lemma map_names_nodup b : NoDup (hf_name <$> design_map b).
Proof. apply distinct_NoDup. by destruct b; vm_compute. Qed.

Definition covers {S} (l : WeightsLayout) (c : ModelConfig) (s : S) (e : WeightMapEntry) (a : Z) : Prop :=
  ∃ off, EntryByteOffset l e c s = (Ok off, s) ∧ off <= a < off + 2 * num_elements e.

(** C22. The entries tile the slab.  For every configuration of the design
    geometry, with or without a separate head, the map has 338 (339) entries
    with distinct names; each has a 256-byte aligned offset inside the slab,
    and every byte of the slab belongs to exactly one entry: the fusions leave
    neither gap nor overlap, and the slab is exactly 3,087,428,608 bytes (plus
    466,747,392 for a separate head). *)
Theorem weights_tile_slab {S} c b (s : S) :
  design_geometry c →
  ∃ map l, BuildWeightMap c b s = (Ok map, s) ∧ ComputeWeightsLayout c b s = (Ok l, s) ∧
    length map = (338 + if b then 1 else 0)%nat ∧ NoDup (hf_name <$> map) ∧
    total_bytes l = 3087428608 + (if b then 466747392 else 0) ∧
    (∀ e, e ∈ map → ∃ off, EntryByteOffset l e c s = (Ok off, s) ∧
       0 <= off ∧ (256 | off) ∧ 0 < num_elements e ∧ off + 2 * num_elements e <= total_bytes l) ∧
    ∀ a, 0 <= a < total_bytes l → ∃ e, e ∈ map ∧ covers l c s e a ∧ ∀ e', e' ∈ map → covers l c s e' a → e' = e.
Proof.
  intros Hg. exists (design_map b), (design_layout b).
  rewrite BuildWeightMap_design, ComputeWeightsLayout_design by done.
  assert (total_bytes (design_layout b) = slab_bytes b) as Htotal by (by destruct b; vm_compute).
  split_and!; [done|done|by destruct b; vm_compute|apply map_names_nodup|by destruct b; vm_compute| |].
  - intros e He. destruct (EntryByteOffset_design c b e s Hg He) as (Ho & Hpos & Hal).
    pose proof (entry_bounds b e He) as (_ & Hn & Hb). unfold entry_bytes in *. exists (entry_offset b e).
    split_and!; [done|done|done|lia|lia].
  - intros a Ha. rewrite Htotal in Ha. destruct (entry_covering b a Ha) as (e & He & Hin & Hu). exists e.
    assert (∀ e', e' ∈ design_map b → covers (design_layout b) c s e' a ↔ in_range (entry_range b e') a) as Hcov.
    { intros e' He'. destruct (EntryByteOffset_design c b e' s Hg He') as (Ho & _). unfold covers, in_range.
      rewrite Ho. split; [by intros (off & [= <-] & ?)|]. intros. by exists (entry_offset b e'). }
    split_and!; [done|by apply Hcov|]. intros e' He' Hc. apply Hu; [done|by apply Hcov].
Qed.

Lemma weights_tile_slab_witness :
  design_geometry qwen25 ∧
  ∃ map l, BuildWeightMap qwen25 false () = (Ok map, ()) ∧ ComputeWeightsLayout qwen25 false () = (Ok l, ()) ∧
    length map = 338%nat ∧ NoDup (hf_name <$> map) ∧ total_bytes l = 3087428608 + 0 ∧
    (∀ e, e ∈ map → ∃ off, EntryByteOffset l e qwen25 () = (Ok off, ()) ∧
       0 <= off ∧ (256 | off) ∧ 0 < num_elements e ∧ off + 2 * num_elements e <= total_bytes l) ∧
    ∀ a, 0 <= a < total_bytes l → ∃ e, e ∈ map ∧ covers l qwen25 () e a ∧
      ∀ e', e' ∈ map → covers l qwen25 () e' a → e' = e.
Proof.
  split; [by split|]. apply (weights_tile_slab qwen25 false ()). by split.
Defined.
