(* ===== verification/WeightsLoad.v ===== *)
(** * Loading the weights ([DeviceWeights] of [loader/weights.cpp])

    The constructor validates the whole inventory, allocates the slab, streams
    every tensor through the staged uploader and drains it; on a failed upload it
    drains, frees the slab and rethrows.  The uploader's own state, the slab and
    the live device allocations are the state. *)

From S2P Require Import Prelude Doubles Types ModelConfig HalfFloat Uploader Json Safetensors Weights.

Record Load : Type := mkLoad {
  wl_uploader : StagedUploader;
  slab_ : option Z;
  live_slabs : list Z;
}.

Record DeviceWeights : Type := mkDeviceWeights {
  dw_layout : WeightsLayout;
  dw_num_layers : Z;
  dw_slab : Z;
}.

Definition set_uploader u s := mkLoad u (slab_ s) (live_slabs s).

Section load.
(** The copy engine's schedule, the runtime's answers, and [cudaMalloc]. *)
Variable dma : nat → nat.
Variable cuda_ok : nat → bool.
Variable cuda_malloc : Z → option Z.
Notation LM := (M weights_error Load).

Definition on_uploader {A} (m : M load_error StagedUploader A) : LM A := λ s,
  match m (wl_uploader s) with
  | (Ok a, u) => (Ok a, set_uploader u s)
  | (Err e, u) => (Err (UploadFailed e), set_uploader u s)
  end.

Definition ValidateEntry (model : SafetensorsModel) (e : WeightMapEntry) : LM () :=
  match Tensor model (hf_name e) with
  | Err _ => throw (TensorMissing (hf_name e))
  | Ok view =>
      if negb (bool_decide (tv_shape view = expected_shape e))
      then throw (ShapeMismatch (hf_name e) (tv_shape view) (expected_shape e)) else
      if negb (bool_decide (tv_dtype view = kBF16)) && negb (bool_decide (tv_dtype view = kF16))
      then throw (DtypeUnsupported (hf_name e)) else mret ()
  end.

Fixpoint validate_all (model : SafetensorsModel) (map : list WeightMapEntry) : LM () :=
  match map with [] => mret () | e :: rest => ValidateEntry model e;; validate_all model rest end.

(** Device pointers are byte addresses; the uploader counts FP16 elements. *)
Definition At (slab byte_offset : Z) : Z := (slab + byte_offset) / 2.

Definition upload_entry (model : SafetensorsModel) (c : ModelConfig) (l : WeightsLayout) (slab : Z) (e : WeightMapEntry) : LM () :=
  match Tensor model (hf_name e) with
  | Err _ => throw (TensorMissing (hf_name e))
  | Ok view =>
      off ← EntryByteOffset l e c;
      on_uploader (Upload dma cuda_ok (At slab off) (tv_data view) (num_elements e) (tv_dtype view) (hf_name e) 0)
  end.

Fixpoint upload_all (model : SafetensorsModel) (c : ModelConfig) (l : WeightsLayout) (slab : Z) (map : list WeightMapEntry) : LM () :=
  match map with [] => mret () | e :: rest => upload_entry model c l slab e;; upload_all model c l slab rest end.

Definition cuda_free (slab : Z) : LM () :=
  modify (λ s, mkLoad (wl_uploader s) None (List.remove Z.eq_dec slab (live_slabs s))).

(** The handler: drain (best effort), free, rethrow. *)
Definition load_or_free {A} (slab : Z) (body : LM A) : LM A := λ s,
  match body s with
  | (Ok a, s') => (Ok a, s')
  | (Err e, s') =>
      let s'' := snd (on_uploader (Synchronize dma cuda_ok) s') in
      (cuda_free slab;; throw e) s''
  end.

Definition DeviceWeights_new (model : SafetensorsModel) (c : ModelConfig) : LM DeviceWeights :=
  let has_lm_head := Contains model "lm_head.weight" in
  (if negb has_lm_head && negb (tie_word_embeddings c) then throw HeadRequired else mret ());;
  layout ← ComputeWeightsLayout c has_lm_head;
  map ← BuildWeightMap c has_lm_head;
  validate_all model map;;
  match cuda_malloc (total_bytes layout) with
  | None => throw (SlabAllocationFailed (total_bytes layout))
  | Some slab =>
      modify (λ s, mkLoad (wl_uploader s) (Some slab) (slab :: live_slabs s));;
      load_or_free slab
        (upload_all model c layout slab map;; on_uploader (Synchronize dma cuda_ok));;
      mret (mkDeviceWeights layout (num_layers c) slab)
  end.

Definition DeviceWeights_delete (w : DeviceWeights) : LM () := cuda_free (dw_slab w).

End load.

(** ** Rules *)

Section rules.
Variable dma : nat → nat.
Variable cuda_ok : nat → bool.
Hypothesis Hcuda : ∀ k, cuda_ok k = true.
Implicit Types (s : Load) (e : WeightMapEntry) (v : TensorView).

Lemma wpx_on_uploader {A} (m : M load_error StagedUploader A) (Q : A → Load → Prop) R s :
  wpx m (λ a u, Q a (set_uploader u s)) (λ err u, R (UploadFailed err) (set_uploader u s)) (wl_uploader s) →
  wpx (on_uploader m) Q R s.
Proof using. unfold wpx, on_uploader. by destruct (m (wl_uploader s)) as [[] ?]. Qed.

(** Whether a tensor is converted. *)
Definition is_bf16 (v : TensorView) : bool := bool_decide (tv_dtype v = kBF16).

(** What validation establishes of an entry's tensor. *)
Definition entry_valid (model : SafetensorsModel) (e : WeightMapEntry) : Prop :=
  ∃ v, Tensor model (hf_name e) = Ok v ∧ tv_shape v = expected_shape e ∧
    tv_dtype v = (if is_bf16 v then kBF16 else kF16).

(** Why the constructor gave up. *)
Definition invalid_entry (model : SafetensorsModel) (map : list WeightMapEntry) (err : weights_error) : Prop :=
  ∃ e, e ∈ map ∧
    match err with
    | TensorMissing name => name = hf_name e ∧ Contains model name = false
    | ShapeMismatch name shape expected => name = hf_name e ∧ expected = expected_shape e ∧ shape ≠ expected ∧
        ∃ v, Tensor model name = Ok v ∧ tv_shape v = shape
    | DtypeUnsupported name => name = hf_name e ∧
        ∃ v, Tensor model name = Ok v ∧ tv_dtype v ≠ kBF16 ∧ tv_dtype v ≠ kF16
    | _ => False
    end.

Lemma Tensor_missing model name err : Tensor model name = Err err → Contains model name = false.
Proof using.
  unfold Tensor, Contains. destruct (merged_ model !! name) eqn:Hm; [done|]. intros _.
  apply bool_decide_eq_false. by intros [].
Qed.

Lemma wpx_validate_all model map s :
  wpx (validate_all model map)
    (λ _ s', s' = s ∧ Forall (entry_valid model) map)
    (λ err s', s' = s ∧ invalid_entry model map err) s.
Proof using.
  induction map as [|e map IH]; cbn [validate_all]; [apply wpx_ret; split; [done|constructor]|].
  apply wpx_bind. unfold ValidateEntry. destruct (Tensor model (hf_name e)) as [v|err] eqn:Hv.
  2:{ apply wpx_throw. split; [done|]. exists e. split; [by left|]. split; [done|]. by eapply Tensor_missing. }
  case_bool_decide as Hs; cbn [negb].
  2:{ apply wpx_throw. split; [done|]. exists e. split; [by left|]. split_and!; try done. by exists v. }
  destruct (decide (tv_dtype v = kBF16)) as [Hb|Hb].
  2: destruct (decide (tv_dtype v = kF16)) as [Hf|Hf].
  3:{ rewrite !bool_decide_eq_false_2 by done. apply wpx_throw. split; [done|]. exists e. split; [by left|].
      split; [done|]. by exists v. }
  all: rewrite ?(bool_decide_eq_true_2 _ Hb), ?(bool_decide_eq_true_2 _ Hf), ?andb_false_r; cbn [negb andb].
  all: apply wpx_ret; eapply wpx_mono; [exact IH|intros _ s' [-> Hall]|intros err s' [-> (e' & He' & H)]].
  all: try (split; [done|]; exists e'; split; [by right|exact H]).
  all: split; [done|]; constructor; [|done]; exists v; unfold is_bf16;
    rewrite ?(bool_decide_eq_true_2 _ Hb), ?(bool_decide_eq_false_2 _ Hb); done.
Qed.

(** Upload, in either mode, as one rule. *)
Lemma wpx_Upload (bf16 : bool) dst src count tensor index_base u :
  0 <= count → (∀ j, Z.of_nat j < count → is_Some (word_at src j)) → uploader_ok u →
  wpx (Upload dma cuda_ok dst src count (if bf16 then kBF16 else kF16) tensor index_base)
    (λ _ u', uploader_ok u' ∧ accepted bf16 src count ∧ ∀ a, drain u' a = received bf16 src dst (drain u) count a)
    (λ err u', uploader_ok u' ∧ ∃ j w, err = Fp16Overflow tensor (index_base + Z.of_nat j) w ∧ Z.of_nat j < count ∧
       first_refused bf16 src 0 0 j w) u.
Proof using Hcuda.
  intros Hn Hs Ho. eapply wpx_mono.
  - destruct bf16; by apply wpx_transfer.
  - intros _ u' [_ Ho' _ Hacc Hd]. rewrite Z.min_id in Hacc, Hd. done.
  - done.
Qed.

End rules.

(** ** The contents of the slab *)

Section slab.
Variables (model : SafetensorsModel) (b : bool) (slab : Z).

Definition entry_at (e : WeightMapEntry) : Z := At slab (entry_offset b e).
Definition in_entry (e : WeightMapEntry) (a : Z) : Prop := entry_at e <= a < entry_at e + num_elements e.

(** Memory [d] holds the converted elements of the entry's tensor. *)
Definition resident (d : Z → Z) (e : WeightMapEntry) : Prop :=
  ∃ v, Tensor model (hf_name e) = Ok v ∧
    ∀ j, Z.of_nat j < num_elements e → ∃ w, word_at (tv_data v) j = Some w ∧
      refused (is_bf16 v) w = false ∧ d (entry_at e + Z.of_nat j) = element (is_bf16 v) w.

Lemma resident_ext d d' e : (∀ a, in_entry e a → d' a = d a) → resident d e → resident d' e.
Proof.
  intros Hd (v & Hv & Hr). exists v. split; [done|]. intros j Hj. destruct (Hr j Hj) as (w & Hw & Ha & He).
  exists w. split_and!; try done. rewrite Hd; [done|]. unfold in_entry. lia.
Qed.

Hypothesis Hslab : (256 | slab).

Lemma in_entry_range e a :
  (256 | entry_offset b e) → in_entry e a ↔ in_range (entry_range b e) (2 * a - slab).
Proof using Hslab.
  intros [o Ho]. destruct Hslab as [k Hk]. unfold in_entry, entry_at, At, in_range, entry_range, range_in, entry_bytes. cbn [fst snd].
  fold (entry_offset b e).
  rewrite Ho, Hk. replace (k * 256 + o * 256) with ((k * 128 + o * 128) * 2) by lia. rewrite Z.div_mul by lia. lia.
Qed.

End slab.

Lemma design_map_nodup b : NoDup (design_map b).
Proof.
  apply (NoDup_fmap_1 hf_name), map_names_nodup.
Qed.

Lemma foldl_mul l : ∀ acc, foldl Z.mul acc l = acc * product l.
Proof.
  induction l as [|x l IH]; intros acc; [by rewrite Z.mul_1_r|]. cbn [foldl]. rewrite IH, product_cons. lia.
Qed.

Lemma num_elements_product e : num_elements e = product (expected_shape e).
Proof. unfold num_elements. rewrite foldl_mul. lia. Qed.

(** ** The load *)

Section loading.
Variable dma : nat → nat.
Variable cuda_ok : nat → bool.
Hypothesis Hcuda : ∀ k, cuda_ok k = true.
Variables (model : SafetensorsModel) (c : ModelConfig) (b : bool) (slab : Z).
Hypothesis Hgeo : design_geometry c.
Hypothesis Hslab : (256 | slab).
Hypothesis Hviews : ∀ name v, Tensor model name = Ok v → view_ok v.
Implicit Types (s : Load) (e : WeightMapEntry) (v : TensorView).

(** A valid tensor has all its words in the mapping. *)
Lemma valid_words e v j :
  Tensor model (hf_name e) = Ok v → entry_valid model e → Z.of_nat j < num_elements e → is_Some (word_at (tv_data v) j).
Proof using Hviews.
  intros Hv (v' & Hv' & Hs & Hd) Hj. assert (v' = v) as -> by congruence.
  destruct (Hviews _ _ Hv) as [_ _ Hb Hin]. rewrite num_elements_product, <- Hs in Hj.
  assert (DtypeSize (tv_dtype v) = 2) as H2 by (rewrite Hd; by destruct (is_bf16 v)).
  rewrite H2 in Hb. unfold word_at, zlen in *.
  destruct (lookup_lt_is_Some_2 (tv_data v) (2 * j)) as [lo ->]; [lia|].
  destruct (lookup_lt_is_Some_2 (tv_data v) (2 * j + 1)) as [hi ->]; [lia|]. done.
Qed.

(** The memory [d0] with the entries [done] in place. *)
Record loaded (d0 : Z → Z) (done : list WeightMapEntry) (u : StagedUploader) : Prop := mkLoaded {
  ld_ok : uploader_ok u;
  ld_resident : ∀ e, e ∈ done → resident model b slab (drain u) e;
  ld_outside : ∀ a, (∀ e, e ∈ done → ¬ in_entry b slab e a) → drain u a = d0 a;
}.

(** What an upload that fails reports. *)
Definition upload_refused (err : weights_error) : Prop :=
  ∃ e v j w, e ∈ design_map b ∧ Tensor model (hf_name e) = Ok v ∧ Z.of_nat j < num_elements e ∧
    first_refused (is_bf16 v) (tv_data v) 0 0 j w ∧ err = UploadFailed (Fp16Overflow (hf_name e) (Z.of_nat j) w).

Lemma wpx_upload_entry d0 done e s :
  e ∈ design_map b → (∀ e', e' ∈ done → e' ∈ design_map b) → e ∉ done → entry_valid model e →
  loaded d0 done (wl_uploader s) →
  wpx (upload_entry dma cuda_ok model c (design_layout b) slab e)
    (λ _ s', ∃ u, s' = set_uploader u s ∧ loaded d0 (done ++ [e]) u)
    (λ err s', (∃ u, s' = set_uploader u s ∧ uploader_ok u) ∧ upload_refused err) s.
Proof using Hcuda Hgeo Hslab Hviews.
  intros He Hdone Hnew Hvalid [Ho Hres Hout]. destruct (EntryByteOffset_design c b e s Hgeo He) as (Hoff & Hpos & Hal).
  pose proof (entry_bounds b e He) as (_ & Hlen & _). unfold entry_bytes in Hlen.
  destruct Hvalid as (v & Hv & Hshape & Hd). assert (entry_valid model e) as Hvalid by (by exists v).
  unfold upload_entry. rewrite Hv. apply wpx_bind. eapply wpx_eq; [exact Hoff|]. cbn beta.
  apply wpx_on_uploader. rewrite Hd. eapply wpx_mono; [apply (wpx_Upload dma cuda_ok Hcuda)| |].
  - lia.
  - intros j Hj. by apply (valid_words e v j).
  - done.
  - intros _ u (Hok & Hacc & Hdrain). exists u. split; [done|]. fold (entry_at b slab e) in Hdrain.
    assert (∀ a, ¬ in_entry b slab e a → drain u a = drain (wl_uploader s) a) as Hframe.
    { intros a Ha. rewrite Hdrain. unfold received, in_entry in *.
      destruct (Z.leb_spec (entry_at b slab e) a), (Z.ltb_spec a (entry_at b slab e + num_elements e)); cbn; try done. lia. }
    split; [done| |].
    + intros e' [He'| ->%list_elem_of_singleton]%elem_of_app.
      * eapply resident_ext; [|by apply Hres]. intros a Ha. apply Hframe. intros Ha'.
        apply (in_entry_range b slab Hslab) in Ha; [|by apply (EntryByteOffset_design c b e' s Hgeo), Hdone].
        apply (in_entry_range b slab Hslab) in Ha'; [|done].
        apply Hnew. by rewrite (entries_disjoint b e e' (2 * a - slab) He (Hdone e' He') Ha' Ha).
      * exists v. split; [done|]. intros j Hj. destruct (valid_words e v j Hv Hvalid Hj) as [w Hw].
        exists w. split_and!; [done|by apply (Hacc j w)|]. rewrite Hdrain. unfold received.
        destruct (Z.leb_spec (entry_at b slab e) (entry_at b slab e + Z.of_nat j)); [|lia].
        destruct (Z.ltb_spec (entry_at b slab e + Z.of_nat j) (entry_at b slab e + num_elements e)); [|lia]. cbn [andb].
        by replace (Z.to_nat (entry_at b slab e + Z.of_nat j - entry_at b slab e)) with j by lia; rewrite Hw.
    + intros a Ha. rewrite Hframe; [apply Hout; intros e' He'|]; apply Ha, elem_of_app; [by left|right; by left].
  - intros err u (Hok & j & w & -> & Hj & Hf). split; [by exists u|].
    exists e, v, j, w. by split_and!.
Qed.

Lemma wpx_upload_all d0 todo : ∀ done s,
  design_map b = done ++ todo → Forall (entry_valid model) todo → loaded d0 done (wl_uploader s) →
  wpx (upload_all dma cuda_ok model c (design_layout b) slab todo)
    (λ _ s', ∃ u, s' = set_uploader u s ∧ loaded d0 (design_map b) u)
    (λ err s', (∃ u, s' = set_uploader u s ∧ uploader_ok u) ∧ upload_refused err) s.
Proof using Hcuda Hgeo Hslab Hviews.
  induction todo as [|e todo IH]; intros done s Hmap Hvalid Hld; cbn [upload_all].
  { apply wpx_ret. exists (wl_uploader s). split; [by destruct s|]. by rewrite Hmap, app_nil_r. }
  apply Forall_cons in Hvalid as [He Hvalid]. pose proof (design_map_nodup b) as Hnd. rewrite Hmap in Hnd.
  apply NoDup_app in Hnd as (_ & Hnd & _). apply wpx_bind.
  eapply wpx_mono; [eapply (wpx_upload_entry d0 done)| |done].
  - rewrite Hmap. apply elem_of_app. right. by left.
  - intros e' He'. rewrite Hmap. apply elem_of_app. by left.
  - intros Hin. apply (Hnd e Hin). by left.
  - done.
  - done.
  - intros _ s' (u & -> & Hu). eapply wpx_mono; [apply (IH (done ++ [e]))| |].
    + by rewrite Hmap, <- app_assoc.
    + done.
    + done.
    + intros _ s' (u' & -> & ?). by exists u'.
    + intros err s' [(u' & -> & ?) ?]. split; [by exists u'|done].
Qed.

End loading.

(** ** The constructor *)

(** A refusal before any device work. *)
Definition load_refused (cuda_malloc : Z → option Z) (model : SafetensorsModel) (c : ModelConfig) (err : weights_error) : Prop :=
  let b := Contains model "lm_head.weight" in
  match err with
  | HeadRequired => b = false ∧ tie_word_embeddings c = false
  | GeometryMismatch _ _ _ | QkvBiasRequired => ¬ design_geometry c
  | SlabAllocationFailed n => n = slab_bytes b ∧ cuda_malloc n = None
  | _ => invalid_entry model (design_map b) err
  end.

Lemma geometry_refusal {S} c (s : S) err s' :
  RequireDesignGeometry c s = (Err err, s') →
  s' = s ∧ ¬ design_geometry c ∧ ((∃ w a x, err = GeometryMismatch w a x) ∨ err = QkvBiasRequired).
Proof.
  intros H. pose proof (geometry_run c s) as Hg. rewrite H in Hg. destruct Hg as [-> Hg]. split_and!; [done|done|].
  revert H. unfold RequireDesignGeometry, CheckGeometry, mbind, M_bind.
  repeat match goal with |- context [negb (?a =? ?b)] => destruct (a =? b); cbn [negb throw mret M_ret];
    [|intros [= <-]; left; by do 3 eexists] end.
  destruct (qkv_bias c); cbn [negb throw mret M_ret]; [done|]. intros [= <-]. by right.
Qed.

(** A checkpoint that loads: every entry valid, no element above the FP16 range. *)
Record loadable (model : SafetensorsModel) : Prop := mkLoadable {
  la_valid : Forall (entry_valid model) (design_map (Contains model "lm_head.weight"));
  la_finite e v j w : e ∈ design_map (Contains model "lm_head.weight") → Tensor model (hf_name e) = Ok v →
    word_at (tv_data v) j = Some w → refused (is_bf16 v) w = false;
}.

Lemma invalid_not_valid model map err : Forall (entry_valid model) map → ¬ invalid_entry model map err.
Proof.
  intros Hv (e & He & H). destruct (proj1 (Forall_forall _ _) Hv e He) as (v & Hn & Hs & Hd).
  assert (Contains model (hf_name e) = true) as Hc.
  { unfold Contains. unfold Tensor in Hn. apply bool_decide_eq_true. by destruct (merged_ model !! hf_name e). }
  destruct err; try done.
  - destruct H as [-> H]. congruence.
  - destruct H as (-> & -> & Hne & v' & Hv' & <-). by rewrite Hn in Hv'; injection Hv' as <-.
  - destruct H as (-> & v' & Hv' & Hb & Hf). rewrite Hn in Hv'. injection Hv' as <-. by destruct (is_bf16 v).
Qed.

(** Nothing refuses a loadable checkpoint of the pinned configuration. *)
Lemma loadable_accepted cuda_malloc model c err :
  loadable model → design_geometry c → tie_word_embeddings c = true →
  is_Some (cuda_malloc (slab_bytes (Contains model "lm_head.weight"))) →
  ¬ load_refused cuda_malloc model c err ∧ ¬ upload_refused model (Contains model "lm_head.weight") err.
Proof.
  intros [Hv Hf] Hg Ht [p Hp]. split.
  - unfold load_refused. destruct err; try by apply invalid_not_valid.
    + by intros Hn.
    + by intros Hn.
    + intros [_ ?]. congruence.
    + intros [-> ?]. congruence.
  - intros (e & v & j & w & He & Hv' & _ & (_ & Hw & Hr & _) & _). rewrite (Hf e v j w He Hv' Hw) in Hr. done.
Qed.

Section constructor.
Variable dma : nat → nat.
Variable cuda_ok : nat → bool.
Variable cuda_malloc : Z → option Z.
Hypothesis Hcuda : ∀ k, cuda_ok k = true.
Variables (model : SafetensorsModel) (c : ModelConfig) (u : StagedUploader) (live : list Z).
Hypothesis Hu : uploader_ok u.
Hypothesis Hviews : ∀ name v, Tensor model name = Ok v → view_ok v.
Hypothesis Hmalloc : ∀ n p, cuda_malloc n = Some p → (256 | p) ∧ p ∉ live.
Let b := Contains model "lm_head.weight".

(** Drained: no copy is queued any more. *)
Definition quiescent (v : StagedUploader) : Prop := uploader_ok v ∧ ∀ k, no_copy k (queue v).

Lemma wpx_drain s (Q : () → Load → Prop) R :
  uploader_ok (wl_uploader s) →
  (∀ v, quiescent v → device v = drain (wl_uploader s) → Q () (set_uploader v s)) →
  wpx (on_uploader (Synchronize dma cuda_ok)) Q R s.
Proof using Hcuda.
  intros Ho HQ. destruct (Synchronize_ok dma cuda_ok (wl_uploader s) Hcuda Ho) as (v & Hrun & Hv & Hn & Hd).
  apply wpx_on_uploader. eapply wpx_eq; [exact Hrun|]. cbn beta iota. by apply HQ.
Qed.

Lemma wpx_load_or_free {A} slab (body : M weights_error Load A) (Q : A → Load → Prop) (R : weights_error → Load → Prop) s :
  wpx body Q (λ err s', uploader_ok (wl_uploader s') ∧
    ∀ v, quiescent v → R err (mkLoad v None (List.remove Z.eq_dec slab (live_slabs s')))) s →
  wpx (load_or_free dma cuda_ok slab body) Q R s.
Proof using Hcuda.
  unfold wpx, load_or_free. destruct (body s) as [[a|err] s']; [done|]. intros [Ho HR].
  destruct (Synchronize_ok dma cuda_ok (wl_uploader s') Hcuda Ho) as (v & Hrun & Hv & Hn & _).
  unfold on_uploader. rewrite Hrun. cbn. by apply HR.
Qed.

Lemma wpx_DeviceWeights_new :
  wpx (DeviceWeights_new dma cuda_ok cuda_malloc model c)
    (λ w s', dw_layout w = design_layout b ∧ dw_num_layers w = num_layers c ∧ cuda_malloc (slab_bytes b) = Some (dw_slab w) ∧
       slab_ s' = Some (dw_slab w) ∧ live_slabs s' = dw_slab w :: live ∧ quiescent (wl_uploader s') ∧
       Forall (entry_valid model) (design_map b) ∧
       loaded model b (dw_slab w) (drain u) (design_map b) (wl_uploader s') ∧
       device (wl_uploader s') = drain (wl_uploader s'))
    (λ err s', slab_ s' = None ∧ live_slabs s' = live ∧
       (wl_uploader s' = u ∧ load_refused cuda_malloc model c err ∨
        quiescent (wl_uploader s') ∧ upload_refused model b err)) (mkLoad u None live).
Proof using Hcuda Hu Hviews Hmalloc.
  unfold DeviceWeights_new. fold b. apply wpx_bind.
  destruct (negb b && negb (tie_word_embeddings c)) eqn:Hhead.
  { apply wpx_throw. split_and!; [done|done|]. left. apply andb_true_iff in Hhead as [H1 H2]. zbool. done. }
  apply wpx_ret, wpx_bind. destruct (RequireDesignGeometry c (mkLoad u None live)) as [[[]|err] s0] eqn:Hg.
  2:{ eapply wpx_eq; [unfold ComputeWeightsLayout, mbind, M_bind; by rewrite Hg|]. cbn beta iota.
      destruct (geometry_refusal _ _ _ _ Hg) as (-> & Hno & Hr). split_and!; [done|done|]. left. split; [done|].
      by destruct Hr as [(? & ? & ? & ->)| ->]. }
  assert (design_geometry c) as Hgeo by (pose proof (geometry_run c (mkLoad u None live)) as H; rewrite Hg in H; apply H).
  eapply wpx_eq; [by apply ComputeWeightsLayout_design|]. cbn beta iota. apply wpx_bind.
  eapply wpx_eq; [by apply BuildWeightMap_design|]. cbn beta iota. apply wpx_bind.
  eapply wpx_mono; [apply wpx_validate_all| |].
  2:{ intros err s' [-> Hi]. split_and!; [done|done|]. left. split; [done|].
      by destruct Hi as (e & He & Hm); destruct err; try done; exists e. }
  intros _ s' [-> Hvalid]. assert (total_bytes (design_layout b) = slab_bytes b) as -> by by destruct b.
  destruct (cuda_malloc (slab_bytes b)) as [slab|] eqn:Hm; [|by apply wpx_throw; split_and!; [..|left]].
  destruct (Hmalloc _ _ Hm) as [Hal Hfresh]. wpx_auto.
  apply wpx_load_or_free, wpx_bind. eapply wpx_mono; [apply (wpx_upload_all dma cuda_ok Hcuda model c b slab Hgeo Hal Hviews (drain u) (design_map b) [])| |].
  - done.
  - done.
  - split; [done|by intros ? ?%not_elem_of_nil|done].
  - intros _ s' (v & -> & Hld). apply wpx_drain; [apply Hld|]. intros v' Hv' Hdev. apply wpx_ret.
    assert (drain v' = device v') as Hdr by (unfold drain; apply exec_no_copies; apply Hv').
    split_and!; try done. cbn. destruct Hld as [_ Hres Hout]. split; [apply Hv'| |]; rewrite Hdr, Hdev; [exact Hres|exact Hout].
  - intros err s' [(v & -> & Hok) Hr]. split; [done|]. intros v' Hv'. cbn. split_and!; [done| |by right].
    destruct (Z.eq_dec slab slab); [|done]. apply List.notin_remove. intros Hin. apply Hfresh. by apply list_elem_of_In.
Qed.

End constructor.

(** ** On a runtime that may fail *)

Section faults.
Variable dma : nat → nat.
Variable cuda_ok : nat → bool.
Variable cuda_malloc : Z → option Z.
Notation up := (λ _ : nat, true).

(** A refused call, as the loader passes it on. *)
Definition load_fault (err : weights_error) : Prop := ∃ e, err = UploadFailed e ∧ cuda_fault cuda_ok e.

Notation follows := (follows load_fault).

Lemma follows_on_uploader {A} (m m' : M load_error StagedUploader A) :
  Prelude.follows (cuda_fault cuda_ok) m m' → follows (on_uploader m) (on_uploader m').
Proof using.
  intros Hm s. specialize (Hm (wl_uploader s)). unfold on_uploader. destruct (m (wl_uploader s)) as [[a|e] u].
  - by rewrite Hm.
  - destruct Hm as [Hf|[u' ->]]; [left; by exists e|right; by eexists].
Qed.

Lemma follows_upload_all model c l slab map :
  follows (upload_all dma cuda_ok model c l slab map) (upload_all dma up model c l slab map).
Proof using.
  induction map as [|e map IH]; cbn [upload_all]; [apply follows_refl|]. apply follows_bind; [|done]. unfold upload_entry.
  destruct (Tensor model (hf_name e)); [|apply follows_refl]. apply follows_bind; [apply follows_refl|]. intros off.
  apply follows_on_uploader, follows_Upload.
Qed.

Lemma follows_load_or_free {A} slab (body body' : M weights_error Load A) :
  follows body body' → follows (load_or_free dma cuda_ok slab body) (load_or_free dma up slab body').
Proof using.
  intros Hb s. specialize (Hb s). unfold load_or_free. destruct (body s) as [[a|e] s1]; [by rewrite Hb|].
  cbn. destruct Hb as [?|[s2 ->]]; [by left|right; by eexists].
Qed.

Lemma follows_DeviceWeights_new model c :
  follows (DeviceWeights_new dma cuda_ok cuda_malloc model c) (DeviceWeights_new dma up cuda_malloc model c).
Proof using.
  unfold DeviceWeights_new. repeat (apply follows_bind; [apply follows_refl|intros ?]).
  destruct (cuda_malloc _) as [slab|]; [|apply follows_refl]. apply follows_bind; [apply follows_refl|]. intros _.
  apply follows_bind; [|intros _; apply follows_refl]. apply follows_load_or_free.
  apply follows_bind; [apply follows_upload_all|]. intros _. apply follows_on_uploader, follows_Synchronize.
Qed.

(** The slab's pointer and the live slabs are the loader's own. *)
Definition keeps_slabs {A} (m : M weights_error Load A) : Prop :=
  ∀ s, (m s).2 = set_uploader (wl_uploader (m s).2) s.

Lemma keeps_slabs_on {A} (m : M load_error StagedUploader A) : keeps_slabs (on_uploader m).
Proof using. intros s. unfold on_uploader. by destruct (m (wl_uploader s)) as [[] ?]. Qed.

Lemma keeps_slabs_bind {A B} (m : M weights_error Load A) (f : A → M weights_error Load B) :
  keeps_slabs m → (∀ a, keeps_slabs (f a)) → keeps_slabs (m ≫= f).
Proof using.
  intros Hm Hf s. unfold mbind, M_bind. specialize (Hm s). destruct (m s) as [[a|e] s1]; [|done]. cbn [snd] in Hm.
  rewrite (Hf a s1) at 1. by rewrite Hm.
Qed.

Lemma keeps_slabs_upload_all model c slab map : ∀ s, design_geometry c →
  Forall (λ e, e ∈ design_map (Contains model "lm_head.weight")) map →
  let m := upload_all dma cuda_ok model c (design_layout (Contains model "lm_head.weight")) slab map in
  (m s).2 = set_uploader (wl_uploader (m s).2) s.
Proof using.
  intros s Hg Hmap. cbv zeta. revert s. change (keeps_slabs (upload_all dma cuda_ok model c (design_layout (Contains model "lm_head.weight")) slab map)).
  induction Hmap as [|e map He _ IH]; cbn [upload_all]; [by intros []|]. apply keeps_slabs_bind; [|done].
  intros s. unfold upload_entry. destruct (Tensor model (hf_name e)); [|by destruct s].
  destruct (EntryByteOffset_design c (Contains model "lm_head.weight") e s Hg He) as (Hoff & _).
  unfold mbind at 1 2, M_bind at 1 2. rewrite Hoff. apply keeps_slabs_on.
Qed.

Lemma wpx_frees {A} slab (body : M weights_error Load A) live s :
  keeps_slabs body → slab ∉ live → live_slabs s = slab :: live →
  wpx (load_or_free dma cuda_ok slab body) (λ _ _, True) (λ _ s', slab_ s' = None ∧ live_slabs s' = live) s.
Proof using.
  intros Hk Hn Hs. unfold wpx, load_or_free. specialize (Hk s). destruct (body s) as [[a|err] s2]; [done|].
  cbn [snd] in Hk. pose proof (keeps_slabs_on (Synchronize dma cuda_ok) s2) as Hk2. cbn. rewrite Hk2, Hk.
  unfold cuda_free, mbind, M_bind, modify. cbn. rewrite Hs. cbn.
  split; [done|]. destruct (Z.eq_dec slab slab); [|done]. apply List.notin_remove. by intros ?%list_elem_of_In.
Qed.

(** Whatever fails, the slab is freed. *)
Lemma DeviceWeights_new_frees model c u live :
  (∀ n p, cuda_malloc n = Some p → p ∉ live) →
  wpx (DeviceWeights_new dma cuda_ok cuda_malloc model c) (λ _ _, True)
    (λ _ s', slab_ s' = None ∧ live_slabs s' = live) (mkLoad u None live).
Proof using.
  intros Hm. unfold DeviceWeights_new. set (b := Contains model "lm_head.weight"). apply wpx_bind.
  destruct (negb b && negb (tie_word_embeddings c)); [by apply wpx_throw|]. apply wpx_ret, wpx_bind.
  destruct (RequireDesignGeometry c (mkLoad u None live)) as [[[]|err] s0] eqn:Hg.
  2:{ eapply wpx_eq; [unfold ComputeWeightsLayout, mbind, M_bind; by rewrite Hg|]. cbn beta iota.
      by destruct (geometry_refusal _ _ _ _ Hg) as (-> & _). }
  assert (design_geometry c) as Hgeo by (pose proof (geometry_run c (mkLoad u None live)) as H; rewrite Hg in H; apply H).
  eapply wpx_eq; [by apply ComputeWeightsLayout_design|]. cbn beta iota. apply wpx_bind.
  eapply wpx_eq; [by apply BuildWeightMap_design|]. cbn beta iota. apply wpx_bind.
  eapply wpx_mono; [apply wpx_validate_all| |by intros err s' [-> _]].
  intros _ s' [-> _]. destruct (cuda_malloc _) as [slab|] eqn:Hs; [|by apply wpx_throw]. wpx_auto.
  eapply wpx_mono; [apply (wpx_frees _ _ live)| |done].
  - apply keeps_slabs_bind; [|intros _; apply keeps_slabs_on]. intros s. apply keeps_slabs_upload_all; [done|]. by apply Forall_forall.
  - by apply (Hm _ _ Hs).
  - done.
  - intros [] s' _. by apply wpx_ret.
Qed.

End faults.

(** On any runtime the constructor does what it does on a working one, or stops
    at a refused call with the slab freed. *)
Lemma DeviceWeights_new_outcome dma cuda_ok cuda_malloc model c u live :
  uploader_ok u → (∀ name v, Tensor model name = Ok v → view_ok v) →
  (∀ n p, cuda_malloc n = Some p → (256 | p) ∧ p ∉ live) →
  let b := Contains model "lm_head.weight" in
  match DeviceWeights_new dma cuda_ok cuda_malloc model c (mkLoad u None live) with
  | (Ok w, s') => dw_layout w = design_layout b ∧ dw_num_layers w = num_layers c ∧ cuda_malloc (slab_bytes b) = Some (dw_slab w) ∧
      live_slabs s' = dw_slab w :: live ∧ quiescent (wl_uploader s') ∧ Forall (entry_valid model) (design_map b) ∧
      loaded model b (dw_slab w) (drain u) (design_map b) (wl_uploader s') ∧
      device (wl_uploader s') = drain (wl_uploader s')
  | (Err err, s') => slab_ s' = None ∧ live_slabs s' = live ∧
      (load_refused cuda_malloc model c err ∨ upload_refused model b err ∨ load_fault cuda_ok err)
  end.
Proof.
  intros Hu Hv Hm b.
  pose proof (follows_DeviceWeights_new dma cuda_ok cuda_malloc model c (mkLoad u None live)) as Hf.
  pose proof (wpx_DeviceWeights_new dma (λ _, true) cuda_malloc (λ _, eq_refl) model c u live Hu Hv Hm) as Hw.
  pose proof (DeviceWeights_new_frees dma cuda_ok cuda_malloc model c u live (λ n p Hp, proj2 (Hm n p Hp))) as Hfree.
  unfold wpx in Hw, Hfree. fold b in Hw. destruct (DeviceWeights_new dma cuda_ok _ _ _ _) as [[w|err] s'].
  - rewrite Hf in Hw. destruct Hw as (? & ? & ? & _ & ? & ? & ? & ? & ?). by split_and!.
  - destruct Hfree as [? ?]. split; [done|]. split; [done|]. destruct Hf as [?|[s2 Heq]]; [by right; right|].
    rewrite Heq in Hw. destruct Hw as (_ & _ & [[_ ?]|[_ ?]]); [by left|by right; left].
Qed.

(** C21. Loading the weights delivers every tensor or leaves nothing behind.  On
    a working device, for a checkpoint whose views are well typed, the
    constructor either returns: the slab has the layout's size, every entry's
    tensor is present, of the expected shape and dtype, and its converted
    elements are resident at the entry's address, nothing outside the slab is
    written and no copy is pending.  Or it throws: the slab is freed and the
    pointer cleared; before any upload the uploader is untouched and the error
    names a real defect of the configuration, the checkpoint or the allocation;
    after one, the queue is drained and the error names the first element above
    the FP16 range of some tensor. *)
Theorem weights_load_outcome dma cuda_ok cuda_malloc model c u live :
  (∀ k, cuda_ok k = true) → uploader_ok u → (∀ name v, Tensor model name = Ok v → view_ok v) →
  (∀ n p, cuda_malloc n = Some p → (256 | p) ∧ p ∉ live) →
  let b := Contains model "lm_head.weight" in
  match DeviceWeights_new dma cuda_ok cuda_malloc model c (mkLoad u None live) with
  | (Ok w, s') => dw_layout w = design_layout b ∧ dw_num_layers w = num_layers c ∧ cuda_malloc (slab_bytes b) = Some (dw_slab w) ∧
      slab_ s' = Some (dw_slab w) ∧ live_slabs s' = dw_slab w :: live ∧ quiescent (wl_uploader s') ∧
      Forall (entry_valid model) (design_map b) ∧
      (∀ e, e ∈ design_map b → resident model b (dw_slab w) (device (wl_uploader s')) e) ∧
      ∀ a, (∀ e, e ∈ design_map b → ¬ in_entry b (dw_slab w) e a) → device (wl_uploader s') a = drain u a
  | (Err err, s') => slab_ s' = None ∧ live_slabs s' = live ∧
      (wl_uploader s' = u ∧ load_refused cuda_malloc model c err ∨
       quiescent (wl_uploader s') ∧ upload_refused model b err)
  end.
Proof.
  intros Hc Hu Hv Hm b. pose proof (wpx_DeviceWeights_new dma cuda_ok cuda_malloc Hc model c u live Hu Hv Hm) as H.
  unfold wpx in H. destruct (DeviceWeights_new _ _ _ _ _ _) as [[w|err] s']; [|exact H].
  destruct H as (H1 & H1' & H2 & H3 & H4 & H5 & H6 & [_ Hres Hout] & Hdev). rewrite Hdev. split_and!; try done.
Qed.

Module WeightsExample.

(** A checkpoint of FP16 zeros, without a separate head. *)
Definition zero_view (e : WeightMapEntry) : TensorView :=
  mkTensorView kF16 (expected_shape e) (replicate (Z.to_nat (entry_bytes e)) 0) (entry_bytes e).
Definition zero_model : SafetensorsModel :=
  mkSafetensorsModel [] (list_to_map ((λ e, (hf_name e, zero_view e)) <$> design_map false)).
Definition cuda_malloc (n : Z) : option Z := Some 256.

Lemma zero_names : ((λ e, (hf_name e, zero_view e)) <$> design_map false).*1 = hf_name <$> design_map false.
Proof. by rewrite <- list_fmap_compose. Qed.

Lemma zero_lookup e : e ∈ design_map false → Tensor zero_model (hf_name e) = Ok (zero_view e).
Proof.
  intros He. unfold Tensor, zero_model. cbn [merged_].
  rewrite (elem_of_list_to_map_1 _ (hf_name e) (zero_view e)); [done| |].
  - rewrite zero_names. apply map_names_nodup.
  - apply list_elem_of_fmap. by exists e.
Qed.

Lemma zero_inv name v : Tensor zero_model name = Ok v → ∃ e, e ∈ design_map false ∧ name = hf_name e ∧ v = zero_view e.
Proof.
  unfold Tensor, zero_model. cbn [merged_]. destruct (list_to_map _ !! name) as [w|] eqn:Hw; [intros [= <-]|done].
  apply elem_of_list_to_map_2 in Hw. apply list_elem_of_fmap in Hw as (e & [= -> ->] & He). by exists e.
Qed.

Lemma zero_head : Contains zero_model "lm_head.weight" = false.
Proof.
  unfold Contains, zero_model. cbn [merged_]. apply bool_decide_eq_false. intros [v Hv].
  apply elem_of_list_to_map_2, (list_elem_of_fmap_2 fst) in Hv. rewrite zero_names in Hv. revert Hv.
  apply (bool_decide_unpack _). by vm_compute.
Qed.

Definition shape_in_range (e : WeightMapEntry) : bool :=
  forallb (λ d, (0 <=? d) && (d <=? int64_max)) (expected_shape e) && (0 <? num_elements e).
Lemma shapes_in_range : forallb shape_in_range (design_map false) = true.
Proof. by vm_compute. Qed.

Lemma zero_ok name v : Tensor zero_model name = Ok v → view_ok v.
Proof.
  intros (e & He & _ & ->)%zero_inv. pose proof (proj1 (forallb_forall _ _) shapes_in_range e) as Hs.
  rewrite <- list_elem_of_In in Hs. specialize (Hs He). apply andb_true_iff in Hs as [Hs Hn].
  apply Z.ltb_lt in Hn. split; cbn [zero_view tv_dtype tv_shape tv_data tv_nbytes].
  - done.
  - apply Forall_forall. intros d Hd. apply list_elem_of_In in Hd. pose proof (proj1 (forallb_forall _ _) Hs d Hd). zbool. lia.
  - unfold entry_bytes. rewrite num_elements_product. cbn [DtypeSize]. lia.
  - unfold zlen. rewrite length_replicate. unfold entry_bytes. lia.
Qed.

Lemma zero_loadable : loadable zero_model.
Proof.
  split; rewrite zero_head.
  - apply Forall_forall. intros e He. exists (zero_view e). by rewrite zero_lookup.
  - intros e v j w He Hv Hw. rewrite zero_lookup in Hv by done. by injection Hv as <-.
Qed.

End WeightsExample.

(** The zero checkpoint loads. *)
Lemma weights_load_outcome_witness :
  ∃ w s', DeviceWeights_new UploaderExample.lazy_dma (λ _, true) WeightsExample.cuda_malloc WeightsExample.zero_model qwen25
      (mkLoad UploaderExample.fresh None []) = (Ok w, s') ∧
    dw_layout w = design_layout false ∧ dw_num_layers w = 28 ∧ WeightsExample.cuda_malloc (slab_bytes false) = Some (dw_slab w) ∧
    slab_ s' = Some (dw_slab w) ∧ live_slabs s' = [dw_slab w] ∧ quiescent (wl_uploader s') ∧
    Forall (entry_valid WeightsExample.zero_model) (design_map false) ∧
    (∀ e, e ∈ design_map false → resident WeightsExample.zero_model false (dw_slab w) (device (wl_uploader s')) e) ∧
    ∀ a, (∀ e, e ∈ design_map false → ¬ in_entry false (dw_slab w) e a) →
      device (wl_uploader s') a = drain UploaderExample.fresh a.
Proof.
  pose proof (weights_load_outcome UploaderExample.lazy_dma (λ _, true) WeightsExample.cuda_malloc WeightsExample.zero_model
    qwen25 UploaderExample.fresh [] (λ _, eq_refl) UploaderExample.fresh_ok WeightsExample.zero_ok) as H.
  cbn zeta in H. rewrite WeightsExample.zero_head in H.
  destruct (DeviceWeights_new _ _ _ _ _ _) as [[w|err] s'].
  - exists w, s'. split; [done|]. apply H. intros n p [= <-]. split; [by exists 1|apply not_elem_of_nil].
  - exfalso. pose proof (loadable_accepted WeightsExample.cuda_malloc WeightsExample.zero_model qwen25 err WeightsExample.zero_loadable
      ltac:(by split) eq_refl ltac:(by eexists)) as [Hr1 Hr2]. rewrite WeightsExample.zero_head in Hr2.
    destruct H as (_ & _ & [[_ Hr]|[_ Hr]]); [|by apply Hr1|by apply Hr2].
    intros n p [= <-]. split; [by exists 1|apply not_elem_of_nil].
Defined.
