(* ===== verification/Config.v ===== *)
(** * Reading and validating the model configuration ([core/config.cpp])

    The engine serves one pinned checkpoint: every value read from config.json
    and generation_config.json is compared with the expected constant and any
    difference is an error.  The checks are modelled in the order the code makes
    them, over the JSON parser as a parameter. *)

From Stdlib Require Import SpecFloat.
From stdpp Require Import sorting.
From S2P Require Import Prelude Doubles Types ModelConfig Json Uploader Safetensors Weights.

(** [ConfigError], with the file and the field of the message, and the parser's
    exception that the code does not catch. *)
Inductive config_error : Type :=
  | ConfigError (file field : string)
  | JsonOutOfRange.

(** ** The expected constants *)

Definition e_kHiddenSize : Z := 1536.
Definition e_kNumLayers : Z := 28.
Definition e_kNumQHeads : Z := 12.
Definition e_kNumKvHeads : Z := 2.
Definition e_kHeadDim : Z := 128.
Definition e_kIntermediateSize : Z := 8960.
Definition e_kVocabSize : Z := 151936.
Definition kRopeTheta : double := S754_finite false 8589934592000000 (-33).
Definition kRmsNormEps : double := S754_finite false 4722366482869645 (-72).
Definition kMaxPositionEmbeddings : Z := 32768.
Definition kTieWordEmbeddings : bool := true.
Definition kBosTokenId : Z := 151643.
Definition kConfigEosTokenId : Z := 151645.
Definition kEosSet : list TokenId := [151645; 151643].

(** [static_cast<float>] of a double. *)
Definition float_of_double (x : double) : float32 :=
  match x with
  | S754_finite s m e => binary_normalize 24 128 (if s then Z.neg m else Z.pos m) e s
  | _ => x
  end.

Section config.
Context {reader : JsonReader} {S : Type}.
Notation CM := (M config_error S).

Definition config_Fail {A} (file field : string) : CM A := throw (ConfigError file field).

(** A value present and of the kind the code asks for. *)
Definition require {A} (file field : string) (o : option A) : CM A :=
  match o with Some a => mret a | None => config_Fail file field end.

Definition ParseJsonText (file : string) (text : list Z) : CM json :=
  match json_parse text with
  | Err ParseError => config_Fail file "malformed JSON"
  | Err NumberOverflow => throw JsonOutOfRange
  | Ok (parsed, _) => if negb (is_object parsed) then config_Fail file "top-level" else mret parsed
  end.

Definition Require (root : json) (file key : string) : CM json := require file key (find key root).
Definition RequireInt (root : json) (file key : string) : CM Z :=
  value ← Require root file key; require file key (as_int64 value).
Definition RequireNumber (root : json) (file key : string) : CM double :=
  value ← Require root file key; require file key (as_double value).
Definition RequireBool (root : json) (file key : string) : CM bool :=
  value ← Require root file key; require file key (as_bool value).
Definition RequireString (root : json) (file key : string) : CM string :=
  value ← Require root file key; require file key (as_string value).

Definition check (file field : string) (ok : bool) : CM () := if ok then mret () else config_Fail file field.
Definition CheckInt (file field : string) (expected actual : Z) : CM () := check file field (actual =? expected).
Definition CheckNumber (file field : string) (expected actual : double) : CM () := check file field (SFeqb actual expected).
Definition CheckBool (file field : string) (expected actual : bool) : CM () := check file field (Bool.eqb actual expected).
Definition CheckString (file field : string) (expected actual : string) : CM () := check file field (String.eqb actual expected).

Definition CheckOptionalInt (root : json) (file key : string) (expected : Z) : CM () :=
  match find key root with
  | None => mret ()
  | Some it => value ← require file key (as_int64 it); CheckInt file key expected value
  end.

(** The lambda [append] of [ExtractEosSet]. *)
Definition append_eos (file : string) (out : list TokenId) (element : json) : CM (list TokenId) :=
  id64 ← require file "eos_token_id" (as_int64 element);
  if (id64 <? 0) || (int32_max <? id64) then config_Fail file "eos_token_id" else
  let id := to_int32 id64 in
  mret (if bool_decide (id ∈ out) then out else out ++ [id]).

Fixpoint append_all (file : string) (out : list TokenId) (l : list json) : CM (list TokenId) :=
  match l with
  | [] => mret out
  | e :: l' => out' ← append_eos file out e; append_all file out' l'
  end.

Definition ExtractEosSet (gen : json) (file : string) : CM (list TokenId) :=
  value ← Require gen file "eos_token_id";
  match value with
  | JArray l => if is_nil l then config_Fail file "eos_token_id" else append_all file [] l
  | _ => append_eos file [] value
  end.

Definition CheckEosSet (file : string) (actual : list TokenId) : CM () :=
  check file "eos_token_id" (bool_decide (merge_sort (≤)%Z actual = merge_sort (≤)%Z kEosSet)).

(** [architectures], [head_dim] and [use_sliding_window]: checked when present. *)
Definition CheckArchitectures (cfg : json) (file : string) : CM () :=
  match find "architectures" cfg with
  | None => mret ()
  | Some (JArray l) =>
      check file "architectures"
        (existsb (λ entry, match as_string entry with Some s => String.eqb s "Qwen2ForCausalLM" | None => false end) l)
  | Some _ => config_Fail file "architectures"
  end.

Definition CheckHeadDim (cfg : json) (file : string) (head_dim : Z) : CM () :=
  match find "head_dim" cfg with
  | None => mret ()
  | Some it => value ← require file "head_dim" (as_int64 it); CheckInt file "head_dim" head_dim value
  end.

Definition CheckSlidingWindow (cfg : json) (file : string) : CM () :=
  match find "use_sliding_window" cfg with
  | None => mret ()
  | Some it => value ← require file "use_sliding_window" (as_bool it); check file "use_sliding_window" (negb value)
  end.

Definition FromJsonText (config_json generation_config_json : list Z) : CM ModelConfig :=
  let kCfg := "config.json"%string in
  let kGen := "generation_config.json"%string in
  cfg ← ParseJsonText kCfg config_json;
  gen ← ParseJsonText kGen generation_config_json;
  model_type ← RequireString cfg kCfg "model_type";
  CheckString kCfg "model_type" "qwen2" model_type;;
  CheckArchitectures cfg kCfg;;
  hidden ← RequireInt cfg kCfg "hidden_size";
  CheckInt kCfg "hidden_size" e_kHiddenSize hidden;;
  layers ← RequireInt cfg kCfg "num_hidden_layers";
  CheckInt kCfg "num_hidden_layers" e_kNumLayers layers;;
  q_heads ← RequireInt cfg kCfg "num_attention_heads";
  CheckInt kCfg "num_attention_heads" e_kNumQHeads q_heads;;
  kv_heads ← RequireInt cfg kCfg "num_key_value_heads";
  CheckInt kCfg "num_key_value_heads" e_kNumKvHeads kv_heads;;
  inter ← RequireInt cfg kCfg "intermediate_size";
  CheckInt kCfg "intermediate_size" e_kIntermediateSize inter;;
  vocab ← RequireInt cfg kCfg "vocab_size";
  CheckInt kCfg "vocab_size" e_kVocabSize vocab;;
  max_pos ← RequireInt cfg kCfg "max_position_embeddings";
  CheckInt kCfg "max_position_embeddings" kMaxPositionEmbeddings max_pos;;
  theta ← RequireNumber cfg kCfg "rope_theta";
  CheckNumber kCfg "rope_theta" kRopeTheta theta;;
  eps ← RequireNumber cfg kCfg "rms_norm_eps";
  CheckNumber kCfg "rms_norm_eps" kRmsNormEps eps;;
  tie ← RequireBool cfg kCfg "tie_word_embeddings";
  CheckBool kCfg "tie_word_embeddings" kTieWordEmbeddings tie;;
  dtype ← RequireString cfg kCfg "torch_dtype";
  CheckString kCfg "torch_dtype" "bfloat16" dtype;;
  act ← RequireString cfg kCfg "hidden_act";
  CheckString kCfg "hidden_act" "silu" act;;
  let hd := Z.quot hidden q_heads in
  CheckInt kCfg "head_dim (derived hidden_size / num_attention_heads)" e_kHeadDim hd;;
  CheckHeadDim cfg kCfg hd;;
  CheckSlidingWindow cfg kCfg;;
  CheckOptionalInt cfg kCfg "bos_token_id" kBosTokenId;;
  CheckOptionalInt cfg kCfg "eos_token_id" kConfigEosTokenId;;
  eos ← ExtractEosSet gen kGen;
  CheckEosSet kGen eos;;
  mret (mkModelConfig (to_int32 hidden) (to_int32 layers) (to_int32 q_heads) (to_int32 kv_heads) (to_int32 hd)
          (to_int32 inter) (to_int32 vocab) (float_of_double eps) (float_of_double theta) (to_int32 max_pos)
          tie true eos).

(** Files and paths are the library's. *)
Definition ReadTextFile (files : string → option (list Z)) (path : string) : CM (list Z) :=
  match files path with Some text => mret text | None => config_Fail path "" end.

Definition FromModelDir (files : string → option (list Z)) (path_append : string → string → string) (model_dir : string) :
    CM ModelConfig :=
  config_json ← ReadTextFile files (path_append model_dir "config.json");
  generation_config_json ← ReadTextFile files (path_append model_dir "generation_config.json");
  FromJsonText config_json generation_config_json.

End config.

(** ** What is accepted *)

Definition field {A} (key : string) (view : json → option A) (root : json) : option A := find key root ≫= view.

(** A key that may be absent, and otherwise satisfies [P]. *)
Definition optional (key : string) (P : json → Prop) (root : json) : Prop :=
  match find key root with None => True | Some v => P v end.

Record config_valid (cfg : json) : Prop := mkConfigValid {
  cv_model_type : field "model_type" as_string cfg = Some "qwen2"%string;
  cv_architectures : optional "architectures" (λ v, ∃ l, v = JArray l ∧ JString "Qwen2ForCausalLM" ∈ l) cfg;
  cv_hidden : field "hidden_size" as_int64 cfg = Some 1536;
  cv_layers : field "num_hidden_layers" as_int64 cfg = Some 28;
  cv_q_heads : field "num_attention_heads" as_int64 cfg = Some 12;
  cv_kv_heads : field "num_key_value_heads" as_int64 cfg = Some 2;
  cv_inter : field "intermediate_size" as_int64 cfg = Some 8960;
  cv_vocab : field "vocab_size" as_int64 cfg = Some 151936;
  cv_max_pos : field "max_position_embeddings" as_int64 cfg = Some 32768;
  cv_theta : field "rope_theta" as_double cfg = Some kRopeTheta;
  cv_eps : field "rms_norm_eps" as_double cfg = Some kRmsNormEps;
  cv_tie : field "tie_word_embeddings" as_bool cfg = Some true;
  cv_dtype : field "torch_dtype" as_string cfg = Some "bfloat16"%string;
  cv_act : field "hidden_act" as_string cfg = Some "silu"%string;
  cv_head_dim : optional "head_dim" (λ v, as_int64 v = Some 128) cfg;
  cv_sliding : optional "use_sliding_window" (λ v, as_bool v = Some false) cfg;
  cv_bos : optional "bos_token_id" (λ v, as_int64 v = Some 151643) cfg;
  cv_eos : optional "eos_token_id" (λ v, as_int64 v = Some 151645) cfg;
}.

(** The ids an [eos_token_id] value lists. *)
Definition eos_values (v : json) : list json := match v with JArray l => l | _ => [v] end.
Definition token_ids (l : list json) (ids : list TokenId) : Prop :=
  mapM as_int64 l = Some ids ∧ Forall (λ id, 0 <= id <= int32_max) ids.

(** The stop set: first occurrences, in file order. *)
Definition first_occurrences (ids : list TokenId) : list TokenId := reverse (remove_dups (reverse ids)).
Definition stop_set (gen : json) (eos : list TokenId) : Prop :=
  ∃ v ids, find "eos_token_id" gen = Some v ∧ token_ids (eos_values v) ids ∧ eos = first_occurrences ids.

(** The pinned configuration, with the stop set in file order. *)
Definition pinned (eos : list TokenId) : ModelConfig :=
  mkModelConfig 1536 28 12 2 128 8960 151936 (rms_norm_eps qwen25) (rope_theta qwen25) 32768 true true eos.

Definition accepted_texts {reader : JsonReader} (config_json gen_json : list Z) (mc : ModelConfig) : Prop :=
  ∃ cfg gen ev ev' eos, json_parse config_json = Ok (cfg, ev) ∧ json_parse gen_json = Ok (gen, ev') ∧
    is_object cfg = true ∧ is_object gen = true ∧ config_valid cfg ∧ stop_set gen eos ∧ eos ≡ₚ kEosSet ∧
    mc = pinned eos.

Lemma pinned_geometry eos : design_geometry (pinned eos).
Proof. by split. Qed.

(** Equality of doubles, for a finite one. *)
Lemma SFeqb_finite x s m e : SFeqb x (S754_finite s m e) = true ↔ x = S754_finite s m e.
Proof.
  unfold SFeqb, SFcompare. split.
  - destruct x as [| | |s' m' e']; try by destruct s.
    + by destruct s0, s.
    + destruct s', s; try done; destruct (Z.compare_spec e' e); try done; subst;
        destruct (Pos.compare_cont Eq m' m) eqn:Hm; cbn; try done; intros _; f_equal; by apply Pos.compare_eq.
  - intros ->. destruct s; rewrite Z.compare_refl, Pos.compare_cont_refl; done.
Qed.

(** ** Rules for the readers *)

Section config_rules.
Context {reader : JsonReader} {S : Type}.
Implicit Types (s : S) (root v : json) (file key name : string).

Lemma wpx_field {A B} file key name (view : json → option A) (eqb : A → A → bool) (expected : A) root
    (K : A → M config_error S B) (Q : B → S → Prop) (R : config_error → S → Prop) s :
  (∀ a, eqb a expected = true ↔ a = expected) →
  (field key view root = Some expected → wpx (K expected) Q R s) →
  (field key view root ≠ Some expected → ∀ err, R err s) →
  wpx (a ← (value ← Require root file key; require file key (view value));
       check file name (eqb a expected);; K a) Q R s.
Proof.
  intros Heqb HQ HR. unfold Require, require, check, config_Fail, field in *. do 2 apply wpx_bind.
  destruct (find key root) as [v|]; cbn [mbind option_bind] in *; [apply wpx_ret|by apply wpx_throw, HR].
  destruct (view v) as [a|] eqn:Hv; [apply wpx_ret|by apply wpx_throw, HR].
  cbn beta. apply wpx_bind. destruct (eqb a expected) eqn:He.
  - apply wpx_ret. apply Heqb in He as ->. by apply HQ.
  - apply wpx_throw, HR. intros [= ->]. by rewrite (proj2 (Heqb expected) eq_refl) in He.
Qed.

Lemma wpx_optional {A B} file key name (view : json → option A) (ok : A → bool) (P : json → Prop) root
    (K : M config_error S B) (Q : B → S → Prop) (R : config_error → S → Prop) s :
  (∀ v, P v ↔ ∃ a, view v = Some a ∧ ok a = true) →
  (optional key P root → wpx K Q R s) → (¬ optional key P root → ∀ err, R err s) →
  wpx (match find key root with
       | None => mret ()
       | Some it => value ← require file key (view it); check file name (ok value)
       end;; K) Q R s.
Proof.
  intros HP HQ HR. unfold optional, require, check, config_Fail in *. apply wpx_bind.
  destruct (find key root) as [v|]; [|by apply wpx_ret, HQ]. rewrite HP in HQ, HR. apply wpx_bind.
  destruct (view v) as [a|]; [apply wpx_ret|by apply wpx_throw, HR; intros (? & [=] & _)].
  destruct (ok a) eqn:Ha; [by apply wpx_ret, HQ; exists a|].
  apply wpx_throw, HR. intros (? & [= <-] & ?). congruence.
Qed.

Lemma wpx_CheckArchitectures {B} root file (K : M config_error S B) (Q : B → S → Prop) R s :
  let P v := ∃ l, v = JArray l ∧ JString "Qwen2ForCausalLM" ∈ l in
  (optional "architectures" P root → wpx K Q R s) → (¬ optional "architectures" P root → ∀ err, R err s) →
  wpx (CheckArchitectures root file;; K) Q R s.
Proof.
  intros P HQ HR. unfold CheckArchitectures, optional, check, config_Fail in *. apply wpx_bind.
  destruct (find "architectures" root) as [v|]; [|by apply wpx_ret, HQ].
  destruct v as [| | | | | |l|]; try by apply wpx_throw, HR; intros (? & [=] & _).
  destruct (existsb _ l) eqn:He.
  - apply wpx_ret, HQ. exists l. split; [done|]. apply existsb_exists in He as (x & Hx & Hs). destruct x; try done.
    apply String.eqb_eq in Hs as ->. by apply list_elem_of_In.
  - apply wpx_throw, HR. intros (l' & [= <-] & Hin). apply not_true_iff_false in He. apply He, existsb_exists.
    eexists. split; [by apply list_elem_of_In|]. done.
Qed.

(** ** The stop set *)

Definition add_id (out : list TokenId) (id : TokenId) : list TokenId := if bool_decide (id ∈ out) then out else out ++ [id].

Lemma add_ids_spec ids : foldl add_id [] ids = first_occurrences ids.
Proof.
  unfold first_occurrences. induction ids as [|id ids IH] using rev_ind; [done|].
  rewrite foldl_app, IH, reverse_snoc. cbn [foldl remove_dups]. unfold add_id.
  assert (id ∈ reverse (remove_dups (reverse ids)) ↔ id ∈ reverse ids) as Hin.
  { by rewrite elem_of_reverse, elem_of_remove_dups. }
  case_bool_decide as Hb; destruct (decide_rel _ id (reverse ids)) as [Hd|Hd]; try done.
  - by apply Hin in Hb.
  - by apply Hin in Hd.
  - by rewrite reverse_cons.
Qed.

Lemma wpx_append_eos file out v (Q : list TokenId → S → Prop) (R : config_error → S → Prop) s :
  (∀ id, as_int64 v = Some id → 0 <= id <= int32_max → Q (add_id out id) s) →
  ((∀ id, as_int64 v = Some id → ¬ 0 <= id <= int32_max) → ∀ err, R err s) → wpx (append_eos file out v) Q R s.
Proof.
  intros HQ HR. unfold append_eos, require, config_Fail. apply wpx_bind.
  destruct (as_int64 v) as [id|]; [apply wpx_ret|by apply wpx_throw, HR]. destruct (Z.ltb_spec id 0); cbn [orb]; [apply wpx_throw, HR; intros ? [= <-]; lia|].
  destruct (Z.ltb_spec int32_max id); [apply wpx_throw, HR; intros ? [= <-]; lia|].
  rewrite to_int32_id by (unfold int32_ok, int32_max in *; lia). apply wpx_ret. by apply HQ.
Qed.

Lemma wpx_append_all file l : ∀ out (Q : list TokenId → S → Prop) (R : config_error → S → Prop) s,
  (∀ ids, token_ids l ids → Q (foldl add_id out ids) s) →
  ((∀ ids, ¬ token_ids l ids) → ∀ err, R err s) → wpx (append_all file out l) Q R s.
Proof.
  induction l as [|v l IH]; intros out Q R s HQ HR; cbn [append_all].
  { apply wpx_ret, (HQ []). split; [done|constructor]. }
  assert (∀ ids, token_ids (v :: l) ids ↔ ∃ id ids', ids = id :: ids' ∧ as_int64 v = Some id ∧ 0 <= id <= int32_max ∧
    token_ids l ids') as Hcons.
  { intros ids. unfold token_ids. rewrite !mapM_Some. split.
    - intros [Hm Hf]. inversion Hm as [|? id ? ids' Hv Hm']; subst. apply Forall_cons in Hf as [Hid Hf].
      exists id, ids'. split_and!; try done; [lia..|]. by apply mapM_Some.
    - intros (id & ids' & -> & Hv & Hid & Hm & Hf). split; [|by constructor]. constructor; [done|]. by apply mapM_Some. }
  apply wpx_bind, wpx_append_eos.
  - intros id Hv Hid. apply IH.
    + intros ids Hids. apply (HQ (id :: ids)), Hcons. by exists id, ids.
    + intros Hno. apply HR. intros ids (id' & ids' & _ & _ & _ & Ht)%Hcons. by apply (Hno ids').
  - intros Hno. apply HR. intros ids (id & ids' & _ & Hv & Hid & _)%Hcons. by apply (Hno id).
Qed.

Lemma token_ids_singleton v ids : token_ids [v] ids ↔ ∃ id, ids = [id] ∧ as_int64 v = Some id ∧ 0 <= id <= int32_max.
Proof.
  unfold token_ids. rewrite mapM_Some. split.
  - intros [Hm Hf]. inversion Hm as [|? id ? ids' Hv Hm']; subst. apply Forall2_nil_inv_l in Hm' as ->.
    apply Forall_cons in Hf as [Hf _]. by exists id.
  - intros (id & -> & Hv & Hid). split; [|by apply Forall_singleton]. by repeat constructor.
Qed.

Lemma wpx_ExtractEosSet gen file (Q : list TokenId → S → Prop) (R : config_error → S → Prop) s :
  (∀ eos, stop_set gen eos → Q eos s) → ((∀ eos, stop_set gen eos → eos = []) → ∀ err, R err s) →
  wpx (ExtractEosSet gen file) Q R s.
Proof.
  intros HQ HR. unfold ExtractEosSet, Require, require, config_Fail. destruct (find "eos_token_id" gen) as [v|] eqn:Hv.
  2:{ wpx_auto. apply HR. intros eos (? & ? & ? & _). congruence. }
  wpx_auto. assert (∀ ids, token_ids (eos_values v) ids → Q (foldl add_id [] ids) s) as HQ'.
  { intros ids Hids. rewrite add_ids_spec. apply HQ. by exists v, ids. }
  assert ((∀ ids, token_ids (eos_values v) ids → ids = []) → ∀ err, R err s) as HR'.
  { intros Hno. apply HR. intros eos (v' & ids & Hv' & Hids & ->). assert (v' = v) as -> by congruence.
    by rewrite (Hno ids Hids). }
  assert (∀ w, eos_values w = [w] → (∀ ids, token_ids (eos_values w) ids → Q (foldl add_id [] ids) s) →
    ((∀ ids, token_ids (eos_values w) ids → ids = []) → ∀ err, R err s) → wpx (append_eos file [] w) Q R s) as Hone.
  { intros w -> HQw HRw. apply wpx_append_eos.
    - intros id Hw Hid. apply (HQw [id]), token_ids_singleton. by exists id.
    - intros Hno. apply HRw. intros ids (id & _ & Hw & Hid)%token_ids_singleton. by destruct (Hno id Hw Hid). }
  destruct v as [| | | | | |l|]; try by apply Hone.
  destruct l as [|x l]; cbn [is_nil eos_values] in *.
  - apply wpx_throw, HR'. intros ids [[= <-] _]. done.
  - apply wpx_append_all; [done|]. intros Hno. apply HR'. intros ids Hids. by destruct (Hno ids).
Qed.

Lemma CheckEosSet_spec (actual : list TokenId) :
  merge_sort (≤)%Z actual = merge_sort (≤)%Z kEosSet ↔ actual ≡ₚ kEosSet.
Proof.
  split.
  - intros H. rewrite <- (merge_sort_Permutation (≤)%Z actual), H. apply merge_sort_Permutation.
  - intros H. apply (Sorted_unique (≤)%Z); [by apply Sorted_merge_sort; apply _..|].
    by rewrite !merge_sort_Permutation.
Qed.

End config_rules.

(** ** The whole validation *)

Section from_json.
Context {reader : JsonReader} {S : Type}.
Variables (config_json gen_json : list Z) (s : S).

Definition refused_texts (err : config_error) (s' : S) : Prop :=
  s' = s ∧ ∀ mc, ¬ accepted_texts config_json gen_json mc.

Lemma stop_set_unique gen eos eos' : stop_set gen eos → stop_set gen eos' → eos = eos'.
Proof. intros (v & ids & Hv & [Hm _] & ->) (v' & ids' & Hv' & [Hm' _] & ->). congruence. Qed.

Lemma wpx_ParseJsonText file text (Q : json → S → Prop) (R : config_error → S → Prop) :
  (∀ v ev, json_parse text = Ok (v, ev) → is_object v = true → Q v s) →
  ((∀ v ev, json_parse text = Ok (v, ev) → is_object v = false) → ∀ err, R err s) →
  wpx (ParseJsonText file text) Q R s.
Proof.
  intros HQ HR. unfold ParseJsonText, config_Fail. destruct (json_parse text) as [[v ev]|[]].
  - destruct (is_object v) eqn:Ho; cbn [negb]; [apply wpx_ret; by apply (HQ v ev)|].
    apply wpx_throw, HR. by intros ? ? [= <- <-].
  - by apply wpx_throw, HR.
  - by apply wpx_throw, HR.
Qed.

Lemma int_ok (expected a : Z) : (a =? expected) = true ↔ a = expected.
Proof. apply Z.eqb_eq. Qed.

Lemma optional_int (expected : Z) v :
  as_int64 v = Some expected ↔ ∃ a, as_int64 v = Some a ∧ (a =? expected) = true.
Proof. setoid_rewrite Z.eqb_eq. naive_solver. Qed.

Lemma optional_false v : as_bool v = Some false ↔ ∃ a, as_bool v = Some a ∧ negb a = true.
Proof. setoid_rewrite negb_true_iff. naive_solver. Qed.

(** One field: go on with its expected value, or refuse. *)
Ltac next key view eqb :=
  apply (wpx_field _ key _ view eqb);
  [intros ?; first [apply int_ok | apply String.eqb_eq | apply SFeqb_finite | apply eqb_true_iff]
  |intros ?
  |let H := fresh in intros H ? ; split; [done|]; let mc := fresh "mc" in let Ha := fresh "Ha" in
   intros mc Ha; match goal with Hacc : ∀ mc, accepted_texts _ _ mc → _ |- _ => by destruct (Hacc mc Ha) as [[] _] end].
Ltac next_optional :=
  [> intros ? |let H := fresh in intros H ? ; split; [done|]; let mc := fresh "mc" in let Ha := fresh "Ha" in
   intros mc Ha; match goal with Hacc : ∀ mc, accepted_texts _ _ mc → _ |- _ => by destruct (Hacc mc Ha) as [[] _] end].

Lemma wpx_FromJsonText :
  wpx (FromJsonText config_json gen_json)
    (λ mc s', s' = s ∧ accepted_texts config_json gen_json mc) refused_texts s.
Proof.
  unfold FromJsonText, RequireInt, RequireString, RequireNumber, RequireBool, CheckInt, CheckString, CheckNumber, CheckBool.
  cbv zeta. apply wpx_bind, wpx_ParseJsonText.
  2:{ intros Hno err. split; [done|]. intros mc (cfg & gen & ev & ev' & eos & Hc & _ & Ho & _). by rewrite (Hno _ _ Hc) in Ho. }
  intros cfg ev Hcfg Hoc. apply wpx_bind, wpx_ParseJsonText.
  2:{ intros Hno err. split; [done|]. intros mc (? & gen & ? & ev' & eos & _ & Hg & _ & Ho & _). by rewrite (Hno _ _ Hg) in Ho. }
  intros gen ev' Hgen Hog.
  assert (∀ mc, accepted_texts config_json gen_json mc →
    config_valid cfg ∧ ∃ eos, stop_set gen eos ∧ eos ≡ₚ kEosSet) as Hacc.
  { intros mc (cfg' & gen' & ? & ? & eos & Hc & Hg & _ & _ & Hv & Hs & Hp & _).
    rewrite Hcfg in Hc. rewrite Hgen in Hg. injection Hc as <- <-. injection Hg as <- <-. split; [done|by exists eos]. }
  next "model_type" as_string String.eqb. apply wpx_CheckArchitectures; next_optional.
  next "hidden_size" as_int64 Z.eqb. next "num_hidden_layers" as_int64 Z.eqb.
  next "num_attention_heads" as_int64 Z.eqb. next "num_key_value_heads" as_int64 Z.eqb.
  next "intermediate_size" as_int64 Z.eqb. next "vocab_size" as_int64 Z.eqb.
  next "max_position_embeddings" as_int64 Z.eqb. next "rope_theta" as_double SFeqb.
  next "rms_norm_eps" as_double SFeqb. next "tie_word_embeddings" as_bool Bool.eqb.
  next "torch_dtype" as_string String.eqb. next "hidden_act" as_string String.eqb.
  change (Z.quot e_kHiddenSize e_kNumQHeads =? e_kHeadDim) with true. apply wpx_bind, wpx_ret.
  apply (wpx_optional _ "head_dim" _ as_int64 (λ value, value =? 128) _ _ _ _ _ _ (optional_int 128)); next_optional.
  apply (wpx_optional _ "use_sliding_window" _ as_bool negb _ _ _ _ _ _ optional_false); next_optional.
  apply (wpx_optional _ "bos_token_id" _ as_int64 (λ value, value =? 151643) _ _ _ _ _ _ (optional_int 151643)); next_optional.
  apply (wpx_optional _ "eos_token_id" _ as_int64 (λ value, value =? 151645) _ _ _ _ _ _ (optional_int 151645)); next_optional.
  apply wpx_bind, wpx_ExtractEosSet.
  - intros eos Hs. unfold CheckEosSet, check, config_Fail. apply wpx_bind. case_bool_decide as He.
    + do 2 apply wpx_ret. split; [done|]. exists cfg, gen, ev, ev', eos. split_and!; try done.
      by apply CheckEosSet_spec.
    + apply wpx_throw. split; [done|]. intros mc Ha. destruct (Hacc mc Ha) as (_ & eos' & Hs' & Hp).
      apply He, CheckEosSet_spec. by rewrite (stop_set_unique gen eos eos').
  - intros Hno err. split; [done|]. intros mc Ha. destruct (Hacc mc Ha) as (_ & eos' & Hs' & Hp).
    rewrite (Hno eos' Hs') in Hp. by apply Permutation_nil_l in Hp.
Qed.
End from_json.

Lemma accepted_unique {reader : JsonReader} config_json gen_json mc mc' :
  accepted_texts config_json gen_json mc → accepted_texts config_json gen_json mc' → mc = mc'.
Proof.
  intros (? & gen & ? & ? & eos & _ & Hg & _ & _ & _ & Hs & _ & ->) (? & gen' & ? & ? & eos' & _ & Hg' & _ & _ & _ & Hs' & _ & ->).
  assert (gen' = gen) as -> by congruence. by rewrite (stop_set_unique gen eos eos').
Qed.

Lemma accepted_tied {reader : JsonReader} config_json gen_json mc : accepted_texts config_json gen_json mc → tie_word_embeddings mc = true.
Proof. by intros (? & ? & ? & ? & eos & _ & _ & _ & _ & _ & _ & _ & ->). Qed.

Lemma accepted_geometry {reader : JsonReader} config_json gen_json mc : accepted_texts config_json gen_json mc → design_geometry mc.
Proof. intros (? & ? & ? & ? & eos & _ & _ & _ & _ & _ & _ & _ & ->). apply pinned_geometry. Qed.

(** C27. The configuration loader accepts exactly the pinned checkpoint.  It
    returns iff both texts parse to objects, every required field of config.json
    has the expected kind and value, every optional one is absent or agrees, and
    the stop set of generation_config.json is a permutation of the expected one;
    the result is then the pinned configuration with the stop ids in file order
    without repetition, and it has the geometry the weight layout is defined
    for. *)
Theorem config_pinned (reader : JsonReader) {S} (config_json gen_json : list Z) (s : S) :
  match FromJsonText config_json gen_json s with
  | (Ok mc, s') => s' = s ∧ accepted_texts config_json gen_json mc ∧ design_geometry mc
  | (Err _, s') => s' = s ∧ ∀ mc, ¬ accepted_texts config_json gen_json mc
  end.
Proof.
  pose proof (wpx_FromJsonText config_json gen_json s) as H. unfold wpx in H.
  destruct (FromJsonText config_json gen_json s) as [[mc|err] s']; [|exact H].
  destruct H as [-> Ha]. split_and!; [done|done|]. by eapply accepted_geometry.
Qed.

Module ConfigExample.

Definition cfg : json := JObject
  [("model_type", JString "qwen2"); ("architectures", JArray [JString "Qwen2ForCausalLM"]);
   ("hidden_size", JUnsigned 1536); ("num_hidden_layers", JUnsigned 28); ("num_attention_heads", JUnsigned 12);
   ("num_key_value_heads", JUnsigned 2); ("intermediate_size", JUnsigned 8960); ("vocab_size", JUnsigned 151936);
   ("max_position_embeddings", JUnsigned 32768); ("rope_theta", JFloat kRopeTheta); ("rms_norm_eps", JFloat kRmsNormEps);
   ("tie_word_embeddings", JBoolean true); ("torch_dtype", JString "bfloat16"); ("hidden_act", JString "silu");
   ("use_sliding_window", JBoolean false); ("sliding_window", JUnsigned 32768); ("bos_token_id", JUnsigned 151643);
   ("eos_token_id", JUnsigned 151645)]%string.
Definition gen : json := JObject [("eos_token_id", JArray [JUnsigned 151645; JUnsigned 151643; JUnsigned 151645])]%string.

(** Any naming of the two documents will do. *)
#[export] Instance reader : JsonReader := table_reader [([1], (cfg, [])); ([2], (gen, []))].

(** The pinned checkpoint's files load, with the repeated stop id dropped; the
    scalar stop id of config.json alone would not do. *)
Lemma pinned_loads : FromJsonText [1] [2] () = (Ok (pinned [151645; 151643]), ()).
Proof. by vm_compute. Qed.

Lemma scalar_stop_set_refused : fst (FromJsonText [1] [1] ()) = Err (ConfigError "generation_config.json" "eos_token_id").
Proof. by vm_compute. Qed.

End ConfigExample.
