(* ===== verification/KvPool.v ===== *)
(** * The KV pool kernels ([kernels/kv_scatter.cu], [kernels/kv_gather.cu])

    Both kernels move words between strided rows and the paged pool.  A grid has
    one block per row; its threads stride over the row's K and V words.  The
    kernels are data-parallel, so a run is any schedule of the (row, word) pairs
    of the grid.  The theorem is the round trip: what a chunk scattered, a gather
    over the same table returns, bit for bit, on the vector and the scalar path
    alike, and older positions are untouched. *)

From S2P Require Import Prelude Doubles Types.

(** ** Thread-strided loops *)

(** [for (i = start; i < bound; i += step)]: the values of [i]. *)
Definition strided (start step bound : Z) : list Z :=
  map (λ k, start + k * step) (seqZ 0 ((bound - start + step - 1) / step)).

Lemma elem_of_strided start step bound i :
  0 < step → 0 <= start → i ∈ strided start step bound ↔ start <= i < bound ∧ (i - start) mod step = 0.
Proof.
  intros Hs H0. unfold strided. rewrite list_elem_of_fmap. setoid_rewrite elem_of_seqZ.
  pose proof (Z.div_mod (bound - start + step - 1) step ltac:(lia)) as Hd.
  pose proof (Z.mod_pos_bound (bound - start + step - 1) step Hs) as Hm. split.
  - intros (k & -> & Hk). replace (start + k * step - start) with (k * step) by lia.
    rewrite Z_mod_mult. split; [|done]. nia.
  - intros [Hi Hmod]. pose proof (Z.div_mod (i - start) step ltac:(lia)) as Hq. rewrite Hmod in Hq.
    exists ((i - start) / step). split; [lia|]. split; [apply Z.div_pos; lia|]. nia.
Qed.

(** All the values the threads [0 .. threads - 1] of a block visit. *)
Definition block_strided (threads bound : Z) : list Z :=
  concat (map (λ tid, strided tid threads bound) (seqZ 0 threads)).

Lemma elem_of_block_strided threads bound i : 0 < threads → i ∈ block_strided threads bound ↔ 0 <= i < bound.
Proof.
  intros Ht. unfold block_strided. rewrite list_elem_of_In, in_concat. setoid_rewrite <- list_elem_of_In.
  setoid_rewrite list_elem_of_fmap. split.
  - intros (l & (tid & -> & Htid) & Hi). apply elem_of_seqZ in Htid. apply elem_of_strided in Hi; lia.
  - intros Hi. pose proof (Z.mod_pos_bound i threads Ht). exists (strided (i mod threads) threads bound). split.
    + exists (i mod threads). rewrite elem_of_seqZ. split; [done|lia].
    + apply elem_of_strided; [lia|lia|]. pose proof (Z.div_mod i threads ltac:(lia)). pose proof (Z.div_pos i threads ltac:(lia) Ht). split; [nia|].
      replace (i - i mod threads) with (i / threads * threads) by lia. apply Z_mod_mult.
Qed.

(** ** Pool addresses *)

Definition kBlockThreads : Z := 128.
Definition kVecHalves : Z := 8.
Definition kKvBlockShift : Z := 4.

(** Element offset of the row for (block, kv, head, slot) in one layer's slice. *)
Definition PoolRowBase (block kv head slot num_kv_heads head_dim : Z) : Z :=
  (((block * 2 + kv) * num_kv_heads + head) * kKvBlockSize + slot) * head_dim.

(** One word of a row: which plane, which word of the plane's row, and the head
    and word within the head it stands for. *)
Record kv_word : Type := mkWordAt { wa_kv : Z; wa_r : Z; wa_h : Z; wa_dw : Z }.

Definition locate (words_per_head words_per_side w : Z) : kv_word :=
  let kv := if w <? words_per_side then 0 else 1 in
  let r := w - kv * words_per_side in
  let h := Z.quot r words_per_head in
  mkWordAt kv r h (r - h * words_per_head).

Section kernels.
Context {half : Type}.

(** Device memory: halves by element index from a base pointer. *)
Definition mem : Type := Z → half.

(** A word of [n] halves copied from element [src] of [from] to element [dst]. *)
Definition copy_word (n dst src : Z) (from to : mem) : mem :=
  λ a, if (dst <=? a) && (a <? dst + n) then from (src + (a - dst)) else to a.

Section geometry.
(** [hpw]: halves per word, 8 on the vector path and 1 on the scalar one. *)
Context (num_kv_heads head_dim hpw : Z).

Definition words_per_head : Z := Z.quot head_dim hpw.
Definition words_per_side : Z := num_kv_heads * words_per_head.
Definition words_per_token : Z := 2 * words_per_side.

(** *** [KvScatterKernel] *)

Definition scatter_word (k v : mem) (k_row_stride v_row_stride : Z) (block_tables : Z → Z)
    (block_table_row_stride : Z) (positions : Z → Z) (tw : Z * Z) (pool : mem) : mem :=
  let (t, w) := tw in
  let p := positions t in
  let block := block_tables (t * block_table_row_stride + Z.shiftr p kKvBlockShift) in
  let slot := Z.land p (kKvBlockSize - 1) in
  let a := locate words_per_head words_per_side w in
  let dst := Z.quot (PoolRowBase block (wa_kv a) (wa_h a) slot num_kv_heads head_dim) hpw + wa_dw a in
  copy_word hpw (dst * hpw)
    ((if wa_kv a =? 0 then t * k_row_stride else t * v_row_stride) + wa_r a * hpw)
    (if wa_kv a =? 0 then k else v) pool.

(** *** [KvGatherKernel]: the staging buffers [khat] and [vhat] *)

Definition gather_word (khat_head_stride khat_row_stride vhat_head_stride vhat_row_stride : Z) (pool : mem)
    (block_table_row : Z → Z) (tw : Z * Z) (hats : mem * mem) : mem * mem :=
  let (t, w) := tw in
  let block := block_table_row (Z.shiftr t kKvBlockShift) in
  let slot := Z.land t (kKvBlockSize - 1) in
  let a := locate words_per_head words_per_side w in
  let src := Z.quot (PoolRowBase block (wa_kv a) (wa_h a) slot num_kv_heads head_dim) hpw + wa_dw a in
  if wa_kv a =? 0
  then (copy_word hpw (wa_h a * khat_head_stride + t * khat_row_stride + wa_dw a * hpw) (src * hpw) pool (fst hats), snd hats)
  else (fst hats, copy_word hpw (wa_h a * vhat_head_stride + t * vhat_row_stride + wa_dw a * hpw) (src * hpw) pool (snd hats)).

(** The (row, word) pairs of a grid of [rows] blocks. *)
Definition grid_words (rows : Z) : list (Z * Z) :=
  concat (map (λ t, map (λ w, (t, w)) (block_strided kBlockThreads words_per_token)) (seqZ 0 rows)).

End geometry.

(** The path the launchers take: 8 halves per word when everything is aligned. *)
Definition word_size (aligned : bool) (extents : list Z) : Z :=
  if aligned && forallb (λ x, Z.rem x kVecHalves =? 0) extents then kVecHalves else 1.

(** The launchers, over a schedule of the grid's words. *)
Definition LaunchKvScatter (aligned : bool) (pool k v : mem) (k_row_stride v_row_stride : Z) (block_tables : Z → Z)
    (block_table_row_stride : Z) (positions : Z → Z) (num_tokens num_kv_heads head_dim : Z)
    (schedule : Z → list (Z * Z)) : mem :=
  if (num_tokens <=? 0) || (num_kv_heads <=? 0) || (head_dim <=? 0) then pool else
  let hpw := word_size aligned [head_dim; k_row_stride; v_row_stride] in
  foldl (λ m tw, scatter_word num_kv_heads head_dim hpw k v k_row_stride v_row_stride block_tables
                   block_table_row_stride positions tw m) pool (schedule hpw).

Definition LaunchKvGather (aligned : bool) (khat vhat : mem) (khat_head_stride khat_row_stride vhat_head_stride vhat_row_stride : Z)
    (pool : mem) (block_table_row : Z → Z) (ctx_len num_kv_heads head_dim : Z) (schedule : Z → list (Z * Z)) : mem * mem :=
  if (ctx_len <=? 0) || (num_kv_heads <=? 0) || (head_dim <=? 0) then (khat, vhat) else
  let hpw := word_size aligned [head_dim; khat_head_stride; khat_row_stride; vhat_head_stride; vhat_row_stride] in
  foldl (λ m tw, gather_word num_kv_heads head_dim hpw khat_head_stride khat_row_stride vhat_head_stride vhat_row_stride
                   pool block_table_row tw m) (khat, vhat) (schedule hpw).

End kernels.

(** ** Addresses are a mixed-radix numeral *)

Lemma radix n a b a' b' : 0 <= b < n → 0 <= b' < n → a * n + b = a' * n + b' → a = a' ∧ b = b'.
Proof. intros. assert (a = a') by nia. subst. lia. Qed.

(** The element of (block, plane, head, slot, d). *)
Definition pool_addr (H D block kv h slot d : Z) : Z := PoolRowBase block kv h slot H D + d.

Lemma pool_addr_inj H D b kv h s d b' kv' h' s' d' :
  0 <= kv < 2 → 0 <= kv' < 2 → 0 <= h < H → 0 <= h' < H → 0 <= s < 16 → 0 <= s' < 16 → 0 <= d < D → 0 <= d' < D →
  pool_addr H D b kv h s d = pool_addr H D b' kv' h' s' d' → b = b' ∧ kv = kv' ∧ h = h' ∧ s = s' ∧ d = d'.
Proof.
  unfold pool_addr, PoolRowBase, kKvBlockSize. intros ? ? ? ? ? ? ? ? Heq.
  apply radix in Heq as [Heq ->]; [|lia|lia]. apply radix in Heq as [Heq ->]; [|lia|lia].
  apply radix in Heq as [Heq ->]; [|lia|lia]. by apply radix in Heq as [-> ->]; [|lia|lia].
Qed.

(** A fold of writes, seen at one address: the written value if some step writes
    there and all that do agree, else the old contents. *)
Lemma foldl_write {X half} (step : mem (half := half) → X → mem (half := half)) (hit : X → bool) a x l : ∀ m,
  (∀ y m, y ∈ l → step m y a = if hit y then x else m a) →
  foldl step m l a = if existsb hit l then x else m a.
Proof.
  induction l as [|y l IH]; intros m Hs; [done|]. cbn [foldl existsb].
  rewrite IH by (intros z m' Hz; apply Hs; by apply list_elem_of_further).
  rewrite Hs by apply list_elem_of_here. destruct (hit y), (existsb hit l); done.
Qed.

Lemma existsb_elem {X} (hit : X → bool) l : existsb hit l = true ↔ ∃ y, y ∈ l ∧ hit y = true.
Proof. rewrite existsb_exists. by setoid_rewrite <- list_elem_of_In. Qed.

Section geometry.
Context (H D hpw : Z) (HH : 0 < H) (HD : 0 < D) (Hw : 0 < hpw) (Hdiv : Z.rem D hpw = 0).
Notation wph := (words_per_head D hpw).
Notation wps := (words_per_side H D hpw).

Lemma wph_spec : wph * hpw = D ∧ 0 < wph.
Proof using HD Hw Hdiv.
  unfold words_per_head. pose proof (Z.quot_rem' D hpw) as Hq. rewrite Hdiv in Hq. split; [lia|]. nia.
Qed.

(** The words of a token and the (plane, head, word) triples correspond. *)
Lemma locate_spec w : 0 <= w < 2 * wps →
  let a := locate wph wps w in
  0 <= wa_kv a < 2 ∧ 0 <= wa_h a < H ∧ 0 <= wa_dw a < wph ∧ wa_r a = wa_h a * wph + wa_dw a ∧ w = wa_kv a * wps + wa_r a.
Proof using HD Hw Hdiv HH.
  intros Hb. pose proof wph_spec as [_ Hp]. unfold locate. cbn.
  assert (∀ r, 0 <= r < wps → 0 <= Z.quot r wph < H ∧ 0 <= r - Z.quot r wph * wph < wph) as Hr.
  { intros r Hr. unfold words_per_side in Hr. rewrite Z.quot_div_nonneg by lia.
    pose proof (Z.div_mod r wph ltac:(lia)). pose proof (Z.mod_pos_bound r wph Hp). split; [split; [apply Z.div_pos; lia|]|]; nia. }
  destruct (Z.ltb_spec w wps).
  - destruct (Hr (w - 0 * wps) ltac:(lia)). split_and!; lia.
  - destruct (Hr (w - 1 * wps) ltac:(lia)). split_and!; lia.
Qed.

(** The word that holds element [d] of head [h] of plane [kv]. *)
Definition word_of (kv h d : Z) : Z := kv * wps + h * wph + d / hpw.

Lemma word_of_range kv h d : 0 <= kv < 2 → 0 <= h < H → 0 <= d < D → 0 <= word_of kv h d < 2 * wps ∧ 0 <= d / hpw < wph.
Proof using HD Hw Hdiv HH.
  intros ? ? ?. pose proof wph_spec as [He Hp]. unfold word_of, words_per_side.
  assert (0 <= d / hpw < wph) as Hd by (split; [apply Z.div_pos; lia|apply Z.div_lt_upper_bound; lia]).
  assert (0 <= kv * (H * wph) <= H * wph) by (destruct (Z.eq_dec kv 0) as [->|]; [lia|assert (kv = 1) as -> by lia; lia]). nia.
Qed.

(** Elements of the word at (plane, head, word) of a row that starts at [base]. *)
Lemma in_word (base dw d : Z) : 0 <= d < D → 0 <= dw < wph →
  ((base + dw * hpw <=? base + d) && (base + d <? base + dw * hpw + hpw)) = (d / hpw =? dw).
Proof using Hw.
  intros Hd Hdw. pose proof (Z.div_mod d hpw ltac:(lia)). pose proof (Z.mod_pos_bound d hpw Hw).
  destruct (Z.eqb_spec (d / hpw) dw) as [<-|Hne]; [zbool; lia|].
  apply andb_false_iff. zbool. assert (d / hpw < dw ∨ dw < d / hpw) as [?|?] by lia; [left|right]; nia.
Qed.

Lemma pool_word b kv h s dw :
  (Z.quot (PoolRowBase b kv h s H D) hpw + dw) * hpw = PoolRowBase b kv h s H D + dw * hpw.
Proof using Hw Hdiv HD.
  pose proof wph_spec as [He _]. unfold PoolRowBase. rewrite <- He at 1. rewrite Z.mul_assoc, Z.quot_mul by lia. lia.
Qed.

(** ** One scattered word, at one pool element *)

Section scatter.
Context {half : Type} (k v : mem (half := half)) (ks vs : Z) (tables : Z → Z) (ts : Z) (positions : Z → Z).
Notation block t := (tables (t * ts + Z.shiftr (positions t) kKvBlockShift)).
Notation slot t := (Z.land (positions t) (kKvBlockSize - 1)).

Lemma slot_range p : 0 <= Z.land p (kKvBlockSize - 1) < 16.
Proof. change (kKvBlockSize - 1) with (Z.ones 4). rewrite Z.land_ones by lia. apply Z.mod_pos_bound. lia. Qed.

(** The value token [t] contributes to (plane, head, element). *)
Definition contributed (t kv h d : Z) : half :=
  if kv =? 0 then k (t * ks + (h * D + d)) else v (t * vs + (h * D + d)).

Lemma scatter_word_at t w pool b kv h s d :
  0 <= w < 2 * wps → 0 <= kv < 2 → 0 <= h < H → 0 <= d < D → 0 <= s < 16 →
  scatter_word H D hpw k v ks vs tables ts positions (t, w) pool (pool_addr H D b kv h s d) =
    if bool_decide (block t = b ∧ slot t = s ∧ w = word_of kv h d) then contributed t kv h d
    else pool (pool_addr H D b kv h s d).
Proof using HH HD Hw Hdiv.
  intros Hwr Hkv Hh Hd Hs. pose proof wph_spec as [He Hp]. pose proof (slot_range (positions t)) as Hsl.
  destruct (locate_spec w Hwr) as (Lkv & Lh & Ldw & Lr & Lw). destruct (word_of_range kv h d Hkv Hh Hd) as [_ Hdd].
  unfold scatter_word, copy_word. set (a := locate wph wps w) in *. rewrite pool_word.
  destruct (decide (block t = b ∧ slot t = s ∧ wa_kv a = kv ∧ wa_h a = h)) as [(Hb & Hsl' & Hkv' & Hh')|Hne].
  - rewrite Hb, Hsl', Hkv', Hh'. unfold pool_addr. rewrite in_word by done.
    destruct (Z.eqb_spec (d / hpw) (wa_dw a)) as [Hdw|Hdw].
    + rewrite bool_decide_true; [|split_and!; [done|done|]; unfold word_of; rewrite Lw, Lr, Hkv', Hh', Hdw; lia].
      unfold contributed. rewrite Lr, Hh'. destruct (kv =? 0); f_equal; nia.
    + rewrite bool_decide_false; [done|]. intros (_ & _ & Heq). apply Hdw. unfold word_of in Heq. rewrite Lw, Lr, Hkv', Hh' in Heq. lia.
  - rewrite bool_decide_false.
    2:{ intros (Hb & Hsl' & Heq). apply Hne. unfold word_of, words_per_side in *. rewrite Lw, Lr, <- Z.add_assoc in Heq.
        destruct (radix (H * wph) (wa_kv a) (wa_h a * wph + wa_dw a) kv (h * wph + d / hpw) ltac:(nia) ltac:(nia) Heq) as [Hk Hrest].
        by destruct (radix wph (wa_h a) (wa_dw a) h (d / hpw) Ldw Hdd Hrest). }
    match goal with |- (if ?c then _ else _) = _ => destruct c eqn:Hc; [exfalso|done] end.
    apply andb_true_iff in Hc as [H1%Z.leb_le H2%Z.ltb_lt]. apply Hne.
    set (e := pool_addr H D b kv h s d - PoolRowBase (block t) (wa_kv a) (wa_h a) (slot t) H D).
    assert (pool_addr H D (block t) (wa_kv a) (wa_h a) (slot t) e = pool_addr H D b kv h s d) as Heq by (unfold pool_addr at 1, e; lia).
    apply pool_addr_inj in Heq as (-> & -> & -> & -> & _); try done. unfold e. nia.
Qed.

End scatter.

(** ** One gathered word, at one staging element *)

Section gather.
Context {half : Type} (khs krs vhs vrs : Z) (pool : mem (half := half)) (row : Z → Z) (ctx : Z).

Definition hat (kv : Z) (hats : mem (half := half) * mem (half := half)) : mem (half := half) :=
  if kv =? 0 then fst hats else snd hats.

(** Element (head, row, d) of a staging buffer. *)
Definition hat_addr (kv h t d : Z) : Z := if kv =? 0 then h * khs + t * krs + d else h * vhs + t * vrs + d.

(** Rows hold a head, planes hold the context. *)
Record staging_ok : Prop := {
  st_krow : D <= krs; st_kplane : ctx * krs <= khs;
  st_vrow : D <= vrs; st_vplane : ctx * vrs <= vhs;
}.

Lemma plane_inj hs rs h t d h' t' d' :
  D <= rs → ctx * rs <= hs → 0 <= t < ctx → 0 <= t' < ctx → 0 <= d < D → 0 <= d' < D →
  h * hs + t * rs + d = h' * hs + t' * rs + d' → h = h' ∧ t = t' ∧ d = d'.
Proof using HD.
  intros Hr Hs Ht Ht' Hd Hd' Heq. rewrite <- !Z.add_assoc in Heq.
  destruct (radix hs h (t * rs + d) h' (t' * rs + d') ltac:(nia) ltac:(nia) Heq) as [-> Hrest].
  destruct (radix rs t d t' d' ltac:(lia) ltac:(lia) Hrest) as [-> ->]. done.
Qed.

Lemma gather_word_at t w hats kv h p d :
  staging_ok → 0 <= w < 2 * wps → 0 <= kv < 2 → 0 <= h < H → 0 <= d < D → 0 <= t < ctx → 0 <= p < ctx →
  hat kv (gather_word H D hpw khs krs vhs vrs pool row (t, w) hats) (hat_addr kv h p d) =
    if bool_decide (t = p ∧ w = word_of kv h d)
    then pool (pool_addr H D (row (Z.shiftr p kKvBlockShift)) kv h (Z.land p (kKvBlockSize - 1)) d)
    else hat kv hats (hat_addr kv h p d).
Proof using HH HD Hw Hdiv.
  intros [S1 S2 S3 S4] Hwr Hkv Hh Hd Ht Hp. pose proof wph_spec as [He Hpos].
  destruct (locate_spec w Hwr) as (Lkv & Lh & Ldw & Lr & Lw). destruct (word_of_range kv h d Hkv Hh Hd) as [_ Hdd].
  unfold gather_word. set (a := locate wph wps w) in *. clearbody a. rewrite pool_word.
  set (hs := if kv =? 0 then khs else vhs). set (rs := if kv =? 0 then krs else vrs).
  assert (D <= rs ∧ ctx * rs <= hs) as [Hr Hs] by (unfold hs, rs; destruct (kv =? 0); done).
  assert (hat_addr kv h p d = h * hs + p * rs + d) as -> by (unfold hat_addr, hs, rs; by destruct (kv =? 0)).
  assert (∀ x y, hat kv (if wa_kv a =? 0 then (x, snd hats) else (fst hats, y)) =
    if bool_decide (wa_kv a = kv) then (if kv =? 0 then x else y) else hat kv hats) as ->.
  { intros x y. unfold hat. destruct (Z.eqb_spec (wa_kv a) 0), (Z.eqb_spec kv 0); cbn; case_bool_decide; done || lia. }
  destruct (decide (t = p ∧ wa_kv a = kv ∧ wa_h a = h)) as [(-> & Hkv' & Hh')|Hne].
  - rewrite bool_decide_true by done. unfold copy_word. rewrite Hkv', Hh'. fold hs rs.
    assert ((if kv =? 0 then h * khs + p * krs + wa_dw a * hpw else h * vhs + p * vrs + wa_dw a * hpw) = h * hs + p * rs + wa_dw a * hpw) as Hdst
      by (unfold hs, rs; by destruct (kv =? 0)).
    destruct (Z.eqb_spec (d / hpw) (wa_dw a)) as [Hdw|Hdw].
    + rewrite (bool_decide_true (p = p ∧ w = word_of kv h d)).
      2:{ split; [done|]. unfold word_of. rewrite Lw, Lr, Hkv', Hh', Hdw. lia. }
      pose proof (in_word (h * hs + p * rs) (wa_dw a) d Hd Ldw) as Hin. rewrite Hdw, Z.eqb_refl in Hin.
      unfold pool_addr. destruct (kv =? 0); unfold hs, rs in *; rewrite Hin; f_equal; lia.
    + rewrite (bool_decide_false (p = p ∧ w = word_of kv h d)).
      2:{ intros [_ Heq]. apply Hdw. unfold word_of in Heq. rewrite Lw, Lr, Hkv', Hh' in Heq. lia. }
      pose proof (in_word (h * hs + p * rs) (wa_dw a) d Hd Ldw) as Hin. apply Z.eqb_neq in Hdw. rewrite Hdw in Hin.
      unfold hat. destruct (kv =? 0); unfold hs, rs in *; by rewrite Hin.
  - rewrite (bool_decide_false (t = p ∧ w = word_of kv h d)).
    2:{ intros [-> Heq]. apply Hne. unfold word_of, words_per_side in *. rewrite Lw, Lr, <- Z.add_assoc in Heq.
        destruct (radix (H * wph) (wa_kv a) (wa_h a * wph + wa_dw a) kv (h * wph + d / hpw) ltac:(nia) ltac:(nia) Heq) as [Hk Hrest].
        by destruct (radix wph (wa_h a) (wa_dw a) h (d / hpw) Ldw Hdd Hrest). }
    case_bool_decide as Hkv'; [|done]. unfold copy_word.
    assert (∀ e, 0 <= e < D → wa_h a * hs + t * rs + e = h * hs + p * rs + d → False) as Hno.
    { intros e Hre Heq. apply plane_inj in Heq as (? & ? & _); [by apply Hne|done..]. }
    assert (((wa_h a * hs + t * rs + wa_dw a * hpw <=? h * hs + p * rs + d) &&
             (h * hs + p * rs + d <? wa_h a * hs + t * rs + wa_dw a * hpw + hpw)) = false) as Hout.
    { apply not_true_is_false. intros [H1%Z.leb_le H2%Z.ltb_lt]%andb_true_iff.
      apply (Hno (h * hs + p * rs + d - (wa_h a * hs + t * rs))); [nia|lia]. }
    unfold hat. destruct (kv =? 0); unfold hs, rs in *; by rewrite Hout.
Qed.

End gather.

End geometry.

(** ** Whole launches *)

Lemma elem_of_grid_words H D hpw rows t w :
  (t, w) ∈ grid_words H D hpw rows ↔ 0 <= t < rows ∧ 0 <= w < words_per_token H D hpw.
Proof.
  unfold grid_words. rewrite list_elem_of_In, in_concat. setoid_rewrite <- list_elem_of_In.
  setoid_rewrite list_elem_of_fmap. rewrite <- (elem_of_block_strided kBlockThreads (words_per_token H D hpw) w) by done. split.
  - intros (l & (t' & -> & Ht) & Hin). apply list_elem_of_fmap in Hin as (w' & [= -> ->] & Hw).
    apply elem_of_seqZ in Ht. split; [lia|done].
  - intros [Ht Hw]. eexists. split; [exists t; rewrite elem_of_seqZ; split; [done|lia]|].
    apply list_elem_of_fmap. by exists w.
Qed.

(** A schedule runs every word of the grid, in any order. *)
Definition runs_grid (H D rows : Z) (schedule : Z → list (Z * Z)) : Prop :=
  ∀ hpw t w, (t, w) ∈ schedule hpw ↔ (t, w) ∈ grid_words H D hpw rows.

Lemma word_size_spec aligned l : let n := word_size aligned l in 0 < n ∧ Forall (λ x, Z.rem x n = 0) l.
Proof.
  unfold word_size. destruct (aligned && forallb _ l) eqn:Hc.
  - split; [done|]. apply andb_true_iff in Hc as [_ Hc]. rewrite forallb_forall in Hc. apply Forall_forall.
    intros x Hx. apply Z.eqb_eq, Hc. by apply list_elem_of_In.
  - split; [done|]. apply Forall_forall. intros x _. apply Z.rem_1_r.
Qed.

Section launches.
Context {half : Type} (H D : Z) (HH : 0 < H) (HD : 0 < D).

Section scatter.
Context (k v : mem (half := half)) (ks vs : Z) (tables : Z → Z) (ts : Z) (positions : Z → Z) (n : Z) (sched : Z → list (Z * Z)).
Context (Hn : 0 < n) (Hs : runs_grid H D n sched).
Notation block t := (tables (t * ts + Z.shiftr (positions t) kKvBlockShift)).
Notation slot t := (Z.land (positions t) (kKvBlockSize - 1)).
Notation launched al pool := (LaunchKvScatter al pool k v ks vs tables ts positions n H D sched).

Lemma scatter_fold al pool a x (hit : Z → Z → bool) :
  let hpw := word_size al [D; ks; vs] in
  (∀ t w m, 0 <= t < n → 0 <= w < words_per_token H D hpw →
     scatter_word H D hpw k v ks vs tables ts positions (t, w) m a = if hit t w then x else m a) →
  launched al pool a =
    if existsb (λ tw, hit tw.1 tw.2) (sched hpw) then x else pool a.
Proof using HH HD Hn Hs.
  intros hpw Hstep. unfold LaunchKvScatter. destruct (Z.leb_spec n 0), (Z.leb_spec H 0), (Z.leb_spec D 0); try lia. cbn [orb].
  fold hpw. apply (foldl_write _ (λ tw, hit tw.1 tw.2)). intros [t w] m Hin. apply Hs, elem_of_grid_words in Hin as [Ht Hw]. by apply Hstep.
Qed.

(** A slot that exactly one token row targets receives that row. *)
Lemma scatter_hit al pool t0 kv h d :
  0 <= t0 < n → 0 <= kv < 2 → 0 <= h < H → 0 <= d < D →
  (∀ t, 0 <= t < n → block t = block t0 → slot t = slot t0 → t = t0) →
  launched al pool (pool_addr H D (block t0) kv h (slot t0) d) = contributed D k v ks vs t0 kv h d.
Proof using HH HD Hn Hs.
  intros Ht0 Hkv Hh Hd Huniq. destruct (word_size_spec al [D; ks; vs]) as [Hw Hdiv]. set (hpw := word_size al [D; ks; vs]) in *.
  apply Forall_cons in Hdiv as [Hdiv _]. pose proof (slot_range (positions t0)) as Hsl.
  rewrite (scatter_fold al pool _ (contributed D k v ks vs t0 kv h d)
    (λ t w, bool_decide (t = t0 ∧ w = word_of H D hpw kv h d))).
  - fold hpw. assert (existsb (λ tw, bool_decide (tw.1 = t0 ∧ tw.2 = word_of H D hpw kv h d)) (sched hpw) = true) as ->; [|done].
    apply existsb_elem. exists (t0, word_of H D hpw kv h d). rewrite bool_decide_true by done. split; [|done].
    apply Hs, elem_of_grid_words. split; [done|]. by apply word_of_range.
  - fold hpw. intros t w m Ht Hwr. rewrite scatter_word_at by done.
    destruct (decide (t = t0)) as [->|Hne].
    + repeat case_bool_decide; done || naive_solver.
    + rewrite !bool_decide_false; [done|naive_solver|]. intros (Hb & Hsl' & _). by apply Hne, Huniq.
Qed.

(** The words of a token stay inside the pool its block is in. *)
Lemma scatter_outside al pool B a :
  (∀ t, 0 <= t < n → 0 <= block t < B) → ¬ 0 <= a < B * 2 * H * kKvBlockSize * D → launched al pool a = pool a.
Proof using HH HD Hn Hs.
  intros Hb Ha. destruct (word_size_spec al [D; ks; vs]) as [Hw Hdiv]. set (hpw := word_size al [D; ks; vs]) in *.
  apply Forall_cons in Hdiv as [Hdiv _]. rewrite (scatter_fold al pool a (pool a) (λ _ _, false)); [by destruct (existsb _ _)|].
  fold hpw. intros t w m Ht Hwr. pose proof (slot_range (positions t)) as Hsl. pose proof (Hb t Ht) as Hbt.
  pose proof (wph_spec D hpw HD Hw Hdiv) as [He Hp]. destruct (locate_spec H D hpw HH HD Hw Hdiv w Hwr) as (Lkv & Lh & Ldw & _).
  unfold scatter_word, copy_word. set (l := locate _ _ w) in *. rewrite (pool_word H D hpw HD Hw Hdiv).
  set (bl := block t) in *. set (sl := slot t) in *.
  assert (0 <= PoolRowBase bl (wa_kv l) (wa_h l) sl H D ∧ PoolRowBase bl (wa_kv l) (wa_h l) sl H D + D <= B * 2 * H * kKvBlockSize * D) as [H1 H2].
  { unfold PoolRowBase, kKvBlockSize in *. assert (0 <= bl * 2 + wa_kv l <= B * 2 - 1) by lia.
    assert (0 <= (bl * 2 + wa_kv l) * H + wa_h l <= B * 2 * H - 1) by nia.
    assert (0 <= ((bl * 2 + wa_kv l) * H + wa_h l) * 16 + sl <= B * 2 * H * 16 - 1) by lia. nia. }
  assert (0 <= wa_dw l * hpw ∧ wa_dw l * hpw + hpw <= D) as [H3 H4] by nia.
  destruct (Z.leb_spec (PoolRowBase bl (wa_kv l) (wa_h l) sl H D + wa_dw l * hpw) a),
    (Z.ltb_spec a (PoolRowBase bl (wa_kv l) (wa_h l) sl H D + wa_dw l * hpw + hpw)); cbn [andb]; try done. lia.
Qed.

(** A slot that no token row targets is left alone. *)
Lemma scatter_miss al pool b s kv h d :
  0 <= kv < 2 → 0 <= h < H → 0 <= d < D → 0 <= s < 16 →
  (∀ t, 0 <= t < n → block t = b → slot t = s → False) →
  launched al pool (pool_addr H D b kv h s d) = pool (pool_addr H D b kv h s d).
Proof using HH HD Hn Hs.
  intros Hkv Hh Hd Hs16 Hno. destruct (word_size_spec al [D; ks; vs]) as [Hw Hdiv]. set (hpw := word_size al [D; ks; vs]) in *.
  apply Forall_cons in Hdiv as [Hdiv _].
  rewrite (scatter_fold al pool _ (pool (pool_addr H D b kv h s d)) (λ _ _, false)).
  - by destruct (existsb _ _).
  - fold hpw. intros t w m Ht Hwr. rewrite scatter_word_at by done. rewrite bool_decide_false; [done|].
    intros (Hb & Hsl & _). by eapply Hno.
Qed.

End scatter.

Section gather.
Context (khs krs vhs vrs : Z) (row : Z → Z) (ctx : Z) (Hst : staging_ok D khs krs vhs vrs ctx).

Lemma gather_fold_at hpw (pool : mem (half := half)) kv h p d l : ∀ hats,
  0 < hpw → Z.rem D hpw = 0 → 0 <= kv < 2 → 0 <= h < H → 0 <= d < D → 0 <= p < ctx →
  (∀ t w, (t, w) ∈ l → 0 <= t < ctx ∧ 0 <= w < words_per_token H D hpw) →
  hat kv (foldl (λ m tw, gather_word H D hpw khs krs vhs vrs pool row tw m) hats l) (hat_addr khs krs vhs vrs kv h p d) =
    if bool_decide ((p, word_of H D hpw kv h d) ∈ l)
    then pool (pool_addr H D (row (Z.shiftr p kKvBlockShift)) kv h (Z.land p (kKvBlockSize - 1)) d)
    else hat kv hats (hat_addr khs krs vhs vrs kv h p d).
Proof using HH HD Hst.
  induction l as [|[t w] l IH]; intros hats Hw Hdiv Hkv Hh Hd Hp Hl; [done|]. cbn [foldl].
  destruct (Hl t w ltac:(apply list_elem_of_here)) as [Ht Hwr].
  rewrite IH by (done || intros; apply Hl; by apply list_elem_of_further).
  rewrite (gather_word_at H D hpw HH HD Hw Hdiv khs krs vhs vrs pool row ctx) by done.
  repeat case_bool_decide; set_solver.
Qed.

(** Every staged element is the pool element of its position. *)
Lemma gather_all al khat vhat (pool : mem (half := half)) sched kv h p d :
  0 < ctx → runs_grid H D ctx sched →
  0 <= kv < 2 → 0 <= h < H → 0 <= d < D → 0 <= p < ctx →
  hat kv (LaunchKvGather al khat vhat khs krs vhs vrs pool row ctx H D sched) (hat_addr khs krs vhs vrs kv h p d) =
    pool (pool_addr H D (row (Z.shiftr p kKvBlockShift)) kv h (Z.land p (kKvBlockSize - 1)) d).
Proof using HH HD Hst.
  intros Hc Hs Hkv Hh Hd Hp. unfold LaunchKvGather. destruct (Z.leb_spec ctx 0), (Z.leb_spec H 0), (Z.leb_spec D 0); try lia. cbn [orb].
  destruct (word_size_spec al [D; khs; krs; vhs; vrs]) as [Hw Hdiv]. apply Forall_cons in Hdiv as [Hdiv _].
  set (hpw := word_size al _) in *. rewrite gather_fold_at; try done.
  - rewrite bool_decide_true; [done|]. apply Hs, elem_of_grid_words. split; [done|]. by apply word_of_range.
  - intros t w Hin. by apply Hs, elem_of_grid_words in Hin.
Qed.

(** Nothing outside the planes is written. *)
Lemma gather_outside al khat vhat (pool : mem (half := half)) sched kv a :
  0 < ctx → runs_grid H D ctx sched → ¬ 0 <= a < H * (if kv =? 0 then khs else vhs) →
  hat kv (LaunchKvGather al khat vhat khs krs vhs vrs pool row ctx H D sched) a = hat kv (khat, vhat) a.
Proof using HH HD Hst.
  intros Hc Hs Ha. unfold LaunchKvGather. destruct (Z.leb_spec ctx 0), (Z.leb_spec H 0), (Z.leb_spec D 0); try lia. cbn [orb].
  destruct (word_size_spec al [D; khs; krs; vhs; vrs]) as [Hw Hdiv]. apply Forall_cons in Hdiv as [Hdiv _].
  set (hpw := word_size al _) in *.
  assert (∀ t w, (t, w) ∈ sched hpw → 0 <= t < ctx ∧ 0 <= w < words_per_token H D hpw) as Hl by (intros t w Hin; by apply Hs, elem_of_grid_words in Hin).
  revert Hl. generalize (sched hpw) (khat, vhat). induction l as [|[t w] l IH]; intros hats Hl; [done|]. cbn [foldl].
  rewrite IH by (intros; apply Hl; by apply list_elem_of_further). destruct (Hl t w ltac:(apply list_elem_of_here)) as [Ht Hwr].
  destruct (locate_spec H D hpw HH HD Hw Hdiv w Hwr) as (Lkv & Lh & Ldw & _). pose proof (wph_spec D hpw HD Hw Hdiv) as [He Hp].
  destruct Hst as [S1 S2 S3 S4]. unfold gather_word, hat, copy_word. set (b := locate _ _ w) in *. cbn [fst snd].
  assert (0 <= wa_dw b * hpw ∧ wa_dw b * hpw + hpw <= D) as [H3 H4] by nia.
  assert (∀ hs rs, D <= rs → ctx * rs <= hs → let dst := wa_h b * hs + t * rs + wa_dw b * hpw in 0 <= dst ∧ dst + hpw <= H * hs) as Hin.
  { intros hs rs Hr Hh dst. assert ((t + 1) * rs <= ctx * rs) by (apply Z.mul_le_mono_nonneg_r; lia). assert (0 <= ctx * rs) by (apply Z.mul_nonneg_nonneg; lia). assert ((wa_h b + 1) * hs <= H * hs) by (apply Z.mul_le_mono_nonneg_r; lia).
    assert (0 <= wa_h b * hs) by (apply Z.mul_nonneg_nonneg; lia). assert (0 <= t * rs) by (apply Z.mul_nonneg_nonneg; lia). lia. }
  pose proof (Hin khs krs S1 S2) as [K1 K2]. pose proof (Hin vhs vrs S3 S4) as [V1 V2].
  destruct (Z.eqb_spec (wa_kv b) 0), (Z.eqb_spec kv 0); cbn [fst snd]; try done;
    (destruct ((_ <=? a) && _) eqn:E; [|done]; apply andb_true_iff in E as [E1%Z.leb_le E2%Z.ltb_lt]; lia).
Qed.

End gather.

End launches.

(** ** The round trip *)

Lemma shift_div p : Z.shiftr p kKvBlockShift = p / 16.
Proof. unfold kKvBlockShift. by rewrite Z.shiftr_div_pow2 by lia. Qed.

Lemma land_mod p : Z.land p (kKvBlockSize - 1) = p mod 16.
Proof. change (kKvBlockSize - 1) with (Z.ones 4). by rewrite Z.land_ones by lia. Qed.

(** C34. Scatter, then gather, is the identity on the KV cache.  A prefill chunk
    of [n] tokens at positions [start ..] scattered through a sequence's block
    table and gathered over the same table comes back bit for bit, whichever of
    the vector and scalar paths either launch takes, in whatever order its
    threads run; positions before the chunk return what the pool already held;
    and no block outside the table is touched. *)
Theorem kv_round_trip {half} (H D start n : Z) (tbl : Z → Z) al1 al2 (pool k v khat vhat : mem (half := half))
    ks vs khs krs vhs vrs sched1 sched2 :
  0 < H → 0 < D → 0 <= start → 0 < n →
  (∀ i j, 0 <= i <= (start + n - 1) / 16 → 0 <= j <= (start + n - 1) / 16 → tbl i = tbl j → i = j) →
  staging_ok D khs krs vhs vrs (start + n) → runs_grid H D n sched1 → runs_grid H D (start + n) sched2 →
  let pool' := LaunchKvScatter al1 pool k v ks vs tbl 0 (λ t, start + t) n H D sched1 in
  let hats := LaunchKvGather al2 khat vhat khs krs vhs vrs pool' tbl (start + n) H D sched2 in
  (∀ kv h p d, 0 <= kv < 2 → 0 <= h < H → 0 <= d < D →
     (start <= p < start + n → hat kv hats (hat_addr khs krs vhs vrs kv h p d) = contributed D k v ks vs (p - start) kv h d) ∧
     (0 <= p < start → hat kv hats (hat_addr khs krs vhs vrs kv h p d) = pool (pool_addr H D (tbl (p / 16)) kv h (p mod 16) d))) ∧
  (∀ b kv h s d, 0 <= kv < 2 → 0 <= h < H → 0 <= d < D → 0 <= s < 16 →
     (∀ i, 0 <= i <= (start + n - 1) / 16 → tbl i ≠ b) → pool' (pool_addr H D b kv h s d) = pool (pool_addr H D b kv h s d)).
Proof.
  intros HH HD H0 Hn Hinj Hst Hs1 Hs2 pool' hats.
  assert (∀ p, 0 <= p < start + n → 0 <= p / 16 <= (start + n - 1) / 16) as Hrange.
  { intros p Hp. split; [apply Z.div_pos; lia|apply Z.div_le_mono; lia]. }
  split.
  - intros kv h p d Hkv Hh Hd.
    assert (0 <= p < start + n → hat kv hats (hat_addr khs krs vhs vrs kv h p d) = pool' (pool_addr H D (tbl (p / 16)) kv h (p mod 16) d)) as Hg.
    { intros Hp. unfold hats. rewrite (gather_all H D HH HD khs krs vhs vrs tbl (start + n)) by (done || lia). by rewrite shift_div, land_mod. }
    split; intros Hp; rewrite Hg by lia; unfold pool'.
    + pose proof (scatter_hit H D HH HD k v ks vs tbl 0 (λ t, start + t) n sched1 Hn Hs1 al1 pool (p - start) kv h d) as Hhit.
      cbv beta in Hhit. rewrite !Z.mul_0_r, !Z.add_0_l, !shift_div, !land_mod in Hhit.
      replace (start + (p - start)) with p in Hhit by lia. apply Hhit; [lia|done|done|done|].
      intros t Ht. rewrite !Z.mul_0_r, !Z.add_0_l, !shift_div, !land_mod. intros Hb Hm.
      apply Hinj in Hb; [|apply Hrange; lia|apply Hrange; lia].
      pose proof (Z.div_mod (start + t) 16 ltac:(lia)). pose proof (Z.div_mod p 16 ltac:(lia)). lia.
    + apply scatter_miss; try done; [apply Z.mod_pos_bound; lia|]. intros t Ht.
      rewrite !Z.mul_0_r, !Z.add_0_l, !shift_div, !land_mod. intros Hb Hm.
      apply Hinj in Hb; [|apply Hrange; lia|apply Hrange; lia].
      pose proof (Z.div_mod (start + t) 16 ltac:(lia)). pose proof (Z.div_mod p 16 ltac:(lia)). lia.
  - intros b kv h s d Hkv Hh Hd Hs Hno. apply scatter_miss; try done. intros t Ht.
    rewrite !Z.mul_0_r, !Z.add_0_l, !shift_div. intros Hb _. apply (Hno ((start + t) / 16)); [apply Hrange; lia|done].
Qed.

(** Two heads of 128, a chunk that starts inside a block and ends in the next:
    the vector path scatters, the scalar path gathers. *)
Lemma kv_round_trip_witness :
  let pool' := LaunchKvScatter true (λ _, 0) (λ a, a) (λ a, - a) 2048 2048 (λ i, 7 - i) 0 (λ t, 10 + t) 20 2 128
                 (λ hpw, grid_words 2 128 hpw 20) in
  hat 1 (LaunchKvGather false (λ _, 0) (λ _, 0) 3840 128 3840 128 pool' (λ i, 7 - i) 30 2 128 (λ hpw, grid_words 2 128 hpw 30))
    (hat_addr 3840 128 3840 128 1 1 17 5) = - (7 * 2048 + (128 + 5)).
Proof.
  cbv zeta. destruct (kv_round_trip 2 128 10 20 (λ i, 7 - i) true false (λ _, 0) (λ a, a) (λ a, - a) (λ _, 0) (λ _, 0)
    2048 2048 3840 128 3840 128 (λ hpw, grid_words 2 128 hpw 20) (λ hpw, grid_words 2 128 hpw 30)
    eq_refl eq_refl ltac:(lia) eq_refl ltac:(intros ? ? _ _; cbv beta; lia) ltac:(split; lia) ltac:(done) ltac:(done)) as [Hrow _].
  destruct (Hrow 1 1 17 5 ltac:(lia) ltac:(lia) ltac:(lia)) as [Hin _]. exact (Hin ltac:(lia)).
Defined.
