(* ===== verification/EmbedGather.v ===== *)
(** * The embedding gather kernel ([kernels/embed_gather.cu])

    A row copy at one of three word widths.  Whatever the schedule of the grid
    and whichever tier the launcher picks, the result is the same row copy. *)

From S2P Require Import Prelude Doubles Types KvPool.

Definition kVec8BlockThreads : Z := 192.
Definition kEmbedBlockThreads : Z := 256.

Section kernels.
Context {half : Type}.
Notation mem := (mem (half := half)).

(** Thread work item: word [i] of [hpw] halves of row [t]. *)
Definition embed_word (hpw out_row_stride : Z) (embed : mem) (input_ids : Z → Z) (hidden_size : Z) (tw : Z * Z) (out : mem) : mem :=
  let (t, i) := tw in
  copy_word hpw (t * out_row_stride + i * hpw) (input_ids t * hidden_size + i * hpw) embed out.

(** The (row, word) pairs of a grid of [rows] blocks of [threads] threads. *)
Definition embed_grid (threads width rows : Z) : list (Z * Z) :=
  concat (map (λ t, map (λ i, (t, i)) (block_strided threads width)) (seqZ 0 rows)).

(** A tier: halves per word, threads per block, words per row. *)
Record tier : Type := mkTier { t_halves : Z; t_threads : Z; t_width : Z }.
Definition EmbedGatherVec8Kernel (hidden_size : Z) : tier := mkTier 8 kVec8BlockThreads (Z.shiftr hidden_size 3).
Definition EmbedGatherHalf2Kernel (hidden_size : Z) : tier := mkTier 2 kEmbedBlockThreads (Z.shiftr hidden_size 1).
Definition EmbedGatherScalarKernel (hidden_size : Z) : tier := mkTier 1 kEmbedBlockThreads hidden_size.

(** The launcher's choice; the flags are the base pointers' alignments. *)
Definition embed_tier (aligned16 aligned4 : bool) (out_row_stride hidden_size : Z) : tier :=
  if (Z.rem hidden_size 8 =? 0) && (Z.rem out_row_stride 8 =? 0) && aligned16 then EmbedGatherVec8Kernel hidden_size
  else if (Z.rem hidden_size 2 =? 0) && (Z.rem out_row_stride 2 =? 0) && aligned4 then EmbedGatherHalf2Kernel hidden_size
  else EmbedGatherScalarKernel hidden_size.

Definition LaunchEmbedGather (aligned16 aligned4 : bool) (out : mem) (out_row_stride : Z) (embed : mem) (input_ids : Z → Z)
    (num_tokens hidden_size : Z) (schedule : tier → list (Z * Z)) : mem :=
  if (num_tokens <=? 0) || (hidden_size <=? 0) then out else
  let t := embed_tier aligned16 aligned4 out_row_stride hidden_size in
  foldl (λ m tw, embed_word (t_halves t) out_row_stride embed input_ids hidden_size tw m) out (schedule t).

(** A schedule runs the work items of the tier's grid, in any order. *)
Definition schedules (num_tokens : Z) (schedule : tier → list (Z * Z)) : Prop :=
  ∀ t, schedule t ≡ₚ embed_grid (t_threads t) (t_width t) num_tokens.

Lemma elem_of_embed_grid threads width rows t i :
  0 < threads → (t, i) ∈ embed_grid threads width rows ↔ 0 <= t < rows ∧ 0 <= i < width.
Proof.
  intros Ht. unfold embed_grid. rewrite list_elem_of_In, in_concat. setoid_rewrite <- list_elem_of_In.
  setoid_rewrite list_elem_of_fmap. split.
  - intros (l & (t' & -> & Ht') & Hi). apply list_elem_of_fmap in Hi as (i' & [= -> ->] & Hi).
    apply elem_of_seqZ in Ht'. apply elem_of_block_strided in Hi; [lia|done].
  - intros [Hr Hi]. exists (map (λ i, (t, i)) (block_strided threads width)). split.
    + exists t. split; [done|]. apply elem_of_seqZ. lia.
    + apply list_elem_of_fmap. exists i. split; [done|]. by apply elem_of_block_strided.
Qed.

(** Every tier covers the row exactly. *)
Lemma embed_tier_ok a16 a4 stride hidden :
  0 < hidden → let t := embed_tier a16 a4 stride hidden in
  0 < t_halves t ∧ 0 < t_threads t ∧ t_width t * t_halves t = hidden.
Proof.
  intros Hh. unfold embed_tier. destruct (_ && a16) eqn:H8; [|destruct (_ && a4) eqn:H2]; cbn.
  - apply andb_true_iff in H8 as [[H8 _]%andb_true_iff _]. apply Z.eqb_eq in H8.
    rewrite Z.rem_mod_nonneg in H8 by lia. rewrite Z.shiftr_div_pow2 by lia. change (2 ^ 3) with 8.
    pose proof (Z.div_mod hidden 8 ltac:(lia)). unfold kVec8BlockThreads. lia.
  - apply andb_true_iff in H2 as [[H2 _]%andb_true_iff _]. apply Z.eqb_eq in H2.
    rewrite Z.rem_mod_nonneg in H2 by lia. rewrite Z.shiftr_div_pow2 by lia. change (2 ^ 1) with 2.
    pose proof (Z.div_mod hidden 2 ltac:(lia)). unfold kEmbedBlockThreads. lia.
  - unfold kEmbedBlockThreads. lia.
Qed.

Section gathered.
Context (a16 a4 : bool) (out embed : mem) (stride hidden rows : Z) (ids : Z → Z) (schedule : tier → list (Z * Z)).
Hypothesis Hrows : 0 < rows.
Hypothesis Hhidden : 0 < hidden.
Hypothesis Hstride : hidden <= stride.
Hypothesis Hsched : schedules rows schedule.
Notation t := (embed_tier a16 a4 stride hidden).
Notation result := (LaunchEmbedGather a16 a4 out stride embed ids rows hidden schedule).

Lemma embed_run : result = foldl (λ m tw, embed_word (t_halves t) stride embed ids hidden tw m) out (schedule t).
Proof using Hrows Hhidden.
  unfold LaunchEmbedGather. destruct (Z.leb_spec rows 0); [lia|]. destruct (Z.leb_spec hidden 0); [lia|]. done.
Qed.

Lemma scheduled r i : (r, i) ∈ schedule t ↔ 0 <= r < rows ∧ 0 <= i < t_width t.
Proof using Hsched Hhidden.
  rewrite (Hsched t). apply elem_of_embed_grid. apply (embed_tier_ok a16 a4 stride hidden Hhidden).
Qed.

(** What one work item writes. *)
Lemma embed_word_at r i m a :
  0 <= i < t_width t →
  embed_word (t_halves t) stride embed ids hidden (r, i) m a =
    if (r * stride + i * t_halves t <=? a) && (a <? r * stride + i * t_halves t + t_halves t)
    then embed (ids r * hidden + (a - r * stride)) else m a.
Proof using.
  intros Hi. unfold embed_word, copy_word. destruct (_ && _); [|done]. f_equal. lia.
Qed.

(** Written words lie in their row. *)
Lemma word_in_row r i a :
  0 <= i < t_width t → r * stride + i * t_halves t <= a < r * stride + i * t_halves t + t_halves t →
  0 <= a - r * stride < hidden.
Proof using Hhidden. intros Hi Ha. destruct (embed_tier_ok a16 a4 stride hidden Hhidden) as (Hp & _ & Hw). nia. Qed.

Lemma gathered_row r j : 0 <= r < rows → 0 <= j < hidden → result (r * stride + j) = embed (ids r * hidden + j).
Proof using Hrows Hhidden Hstride Hsched.
  intros Hr Hj. rewrite embed_run. destruct (embed_tier_ok a16 a4 stride hidden Hhidden) as (Hp & _ & Hw).
  pose proof (Z.div_mod j (t_halves t) ltac:(lia)) as Hd. pose proof (Z.mod_pos_bound j (t_halves t) Hp) as Hm.
  assert (0 <= j / t_halves t < t_width t) as Hi by (split; [apply Z.div_pos; lia|apply Z.div_lt_upper_bound; lia]).
  rewrite (foldl_write _ (λ tw : Z * Z, (tw.1 =? r) && (tw.2 =? j / t_halves t)) _ (embed (ids r * hidden + j))).
  - rewrite (proj2 (existsb_elem _ _)); [done|]. exists (r, j / t_halves t). split; [by apply scheduled|].
    cbn. by rewrite !Z.eqb_refl.
  - intros [r' i] m [Hr' Hi']%scheduled. rewrite embed_word_at by done. cbn [fst snd].
    destruct (Z.eqb_spec r' r) as [->|Hne]; cbn [andb].
    + destruct (Z.eqb_spec i (j / t_halves t)) as [->|Hni].
      * assert (((r * stride + j / t_halves t * t_halves t <=? r * stride + j) &&
          (r * stride + j <? r * stride + j / t_halves t * t_halves t + t_halves t)) = true) as -> by (zbool; lia).
        f_equal. lia.
      * destruct (_ && _) eqn:Hc; [exfalso|done]. apply andb_true_iff in Hc as [H1%Z.leb_le H2%Z.ltb_lt].
        apply Hni. apply (Z.div_unique _ _ _ (j - i * t_halves t)); lia.
    + destruct (_ && _) eqn:Hc; [exfalso|done]. apply andb_true_iff in Hc as [H1%Z.leb_le H2%Z.ltb_lt].
      pose proof (word_in_row r' i (r * stride + j) Hi' ltac:(lia)) as Hin. apply Hne.
      apply (radix stride r' (r * stride + j - r' * stride) r j); lia.
Qed.

Lemma gathered_frame a : (∀ r j, 0 <= r < rows → 0 <= j < hidden → a ≠ r * stride + j) → result a = out a.
Proof using Hrows Hhidden Hsched.
  intros Ha. rewrite embed_run.
  rewrite (foldl_write _ (λ _ : Z * Z, false) a (out a)).
  - by destruct (existsb (λ _ : Z * Z, false) (schedule t)).
  - intros [r i] m [Hr Hi]%scheduled. rewrite embed_word_at by done.
    destruct (_ && _) eqn:Hc; [exfalso|done]. apply andb_true_iff in Hc as [H1%Z.leb_le H2%Z.ltb_lt].
    apply (Ha r (a - r * stride) Hr); [apply (word_in_row r i a Hi); lia|lia].
Qed.

End gathered.

(** The launcher copies the table's rows: element [j] of output row [r] is
    element [j] of the embedding of token [r], whatever the tier and the
    schedule, and nothing else is written; an empty extent writes nothing. *)
Theorem embed_gather_copies_rows a16 a4 (out embed : mem) stride hidden rows (ids : Z → Z) schedule :
  hidden <= stride → schedules rows schedule →
  let result := LaunchEmbedGather a16 a4 out stride embed ids rows hidden schedule in
  (∀ r j, 0 <= r < rows → 0 <= j < hidden → result (r * stride + j) = embed (ids r * hidden + j)) ∧
  ∀ a, (∀ r j, 0 <= r < rows → 0 <= j < hidden → a ≠ r * stride + j) → result a = out a.
Proof.
  intros Hs Hsched result. destruct (Z.le_gt_cases rows 0) as [Hr|Hr].
  { split; [lia|]. intros a _. unfold result, LaunchEmbedGather. by destruct (Z.leb_spec rows 0); [|lia]. }
  destruct (Z.le_gt_cases hidden 0) as [Hh|Hh].
  { split; [lia|]. intros a _. unfold result, LaunchEmbedGather.
    destruct (Z.leb_spec hidden 0); [|lia]. by rewrite orb_true_r. }
  split; [intros r j; by apply gathered_row|intros a; by apply gathered_frame].
Qed.

End kernels.
