(* ===== verification/Argmax.v ===== *)
(** * Greedy selection ([kernels/argmax.cu])

    One block per row: every thread keeps a champion over its strided columns,
    a lane-xor shuffle tree merges the champions of a warp, and thread 0 scans
    the warps.  The ordering predicate is total on what it can see, so every
    reduction shape - vector or scalar, 256 or 1024 threads - selects the
    leftmost maximal logit, and a NaN never wins. *)

From Stdlib Require Import Floats.SpecFloat.
From S2P Require Import Prelude Doubles Types ModelConfig HalfFloat KvPool.

(** [__half2float]: exact. *)
Definition half2float (h : Z) : float32 :=
  let a := Z.land h 0x7FFF in
  let s := Z.testbit h 15 in
  if IsNanFp16Bits h then S754_nan else
  if IsInfFp16Bits h then S754_infinity s else
  binary_normalize 24 128 (if s then - units 10 a else units 10 a) (-24) s.

(** A candidate or champion: its logit and its column. *)
Definition champ : Type := float32 * Z.

Definition Better (v : float32) (i : Z) (best_v : float32) (best_i : Z) : bool :=
  SFltb best_v v || (SFeqb v best_v && (i <? best_i)).

Definition kBlockThreadsSm80 : Z := 1024.
Definition kArgmaxBlockThreads : Z := 256.

(** Adopt the other champion when it is better. *)
Definition adopt (best other : champ) : champ := if Better other.1 other.2 best.1 best.2 then other else best.

Section row.
Context (row : Z → float32) (vocab_size : Z).

Definition sentinel : champ := (S754_infinity true, vocab_size).

(** A thread's champion over the columns it visits, in order. *)
Definition scan (columns : list Z) : champ := foldl (λ best c, adopt best (row c, c)) sentinel columns.

(** Columns of a thread: eight per 16-byte word, or one at a time. *)
Definition vec_columns (kBlock tid : Z) : list Z :=
  concat (map (λ w, map (λ l, Z.shiftl w 3 + l) (seqZ 0 8)) (strided tid kBlock (Z.shiftr vocab_size 3))).
Definition scalar_columns (kBlock tid : Z) : list Z := strided tid kBlock vocab_size.

End row.

(** One [__shfl_xor_sync] round: every lane merges its partner's champion. *)
Definition shuffle_round (offset : Z) (f : Z → champ) : Z → champ := λ tid, adopt (f tid) (f (Z.lxor tid offset)).

Definition BlockReduceArgmax (kBlock : Z) (f : Z → champ) : champ :=
  let warp := foldl (λ f offset, shuffle_round offset f) f [16; 8; 4; 2; 1] in
  foldl (λ best w, adopt best (warp (32 * w))) (warp 0) (seqZ 1 (kBlock / 32 - 1)).

(** What thread 0 stores. *)
Definition stored (vocab_size : Z) (best : champ) : Z := if vocab_size <=? best.2 then 0 else best.2.

Definition GreedyArgmaxVecKernel (kBlock : Z) (row : Z → float32) (vocab_size : Z) : Z :=
  stored vocab_size (BlockReduceArgmax kBlock (λ tid, scan row vocab_size (vec_columns vocab_size kBlock tid))).
Definition GreedyArgmaxKernel (row : Z → float32) (vocab_size : Z) : Z :=
  stored vocab_size (BlockReduceArgmax kArgmaxBlockThreads (λ tid, scan row vocab_size (scalar_columns vocab_size kArgmaxBlockThreads tid))).

(** The launcher: one block per row of the dense [num_seqs x vocab_size] logits. *)
Definition LaunchGreedyArgmax (aligned : bool) (compute_major : Z) (logits : Z → Z) (num_seqs vocab_size : Z) : list Z :=
  if (num_seqs <=? 0) || (vocab_size <=? 0) then [] else
  map (λ seq,
    let row c := half2float (logits (seq * vocab_size + c)) in
    if (Z.rem vocab_size 8 =? 0) && aligned
    then if 8 <=? compute_major then GreedyArgmaxVecKernel kBlockThreadsSm80 row vocab_size
         else GreedyArgmaxVecKernel kArgmaxBlockThreads row vocab_size
    else GreedyArgmaxKernel row vocab_size) (seqZ 0 num_seqs).

(** ** The ordering of binary32 values *)

Definition is_nan (x : float32) : bool := match x with S754_nan => true | _ => false end.

(** Class, exponent and mantissa, so that the order is lexicographic. *)
Definition key (x : float32) : Z * Z * Z :=
  match x with
  | S754_infinity s => (if s then -2 else 2, 0, 0)
  | S754_zero _ | S754_nan => (0, 0, 0)
  | S754_finite s m e => if s then (-1, - e, - Z.pos m) else (1, e, Z.pos m)
  end.

Definition key_lt (x y : Z * Z * Z) : Prop :=
  let '(a, b, c) := x in let '(a', b', c') := y in a < a' ∨ a = a' ∧ (b < b' ∨ b = b' ∧ c < c').

Lemma SFcompare_key x y : is_nan x = false → is_nan y = false →
  match SFcompare x y with
  | Some Lt => key_lt (key x) (key y)
  | Some Eq => key x = key y
  | Some Gt => key_lt (key y) (key x)
  | None => False
  end.
Proof.
  intros Hx Hy. destruct x as [s|s| |s m e], y as [s'|s'| |s' m' e']; try done; cbn [SFcompare key];
    try (destruct s; try destruct s'; cbn; lia || done); try (destruct s'; cbn; lia).
  destruct s, s'; cbn; try lia.
  - destruct (Z.compare_spec e e'); cbn; [|lia|lia]. change (Pos.compare_cont Eq m m') with (Pos.compare m m').
    destruct (Pos.compare_spec m m'); cbn; [congruence|lia|lia].
  - destruct (Z.compare_spec e e'); cbn; [|lia|lia]. change (Pos.compare_cont Eq m m') with (Pos.compare m m').
    destruct (Pos.compare_spec m m'); cbn; [congruence|lia|lia].
Qed.

(** The predicate on non-NaN values, and its refusal of NaN. *)
Lemma Better_spec v i bv bi : is_nan v = false → is_nan bv = false →
  Better v i bv bi = true ↔ key_lt (key bv) (key v) ∨ key v = key bv ∧ i < bi.
Proof.
  intros Hv Hb. unfold Better, SFltb, SFeqb. pose proof (SFcompare_key bv v Hb Hv) as H1. pose proof (SFcompare_key v bv Hv Hb) as H2.
  rewrite orb_true_iff, andb_true_iff, Z.ltb_lt. destruct (key v) as [[a b] c'], (key bv) as [[a' b'] c''].
  destruct (SFcompare bv v) as [[]|], (SFcompare v bv) as [[]|]; cbn in *; simplify_eq; try done; naive_solver lia.
Qed.

(** Strictly better, as a relation: lexicographic, hence negatively transitive. *)
Definition beats (a b : champ) : Prop := key_lt (key b.1) (key a.1) ∨ key a.1 = key b.1 ∧ a.2 < b.2.

Lemma triple_eq (a b c a' b' c' : Z) : (a, b, c) = (a', b', c') ↔ a = a' ∧ b = b' ∧ c = c'.
Proof. naive_solver. Qed.

Lemma beats_trans a b c : beats a b → beats b c → beats a c.
Proof.
  unfold beats. destruct (key a.1) as [[? ?] ?], (key b.1) as [[? ?] ?], (key c.1) as [[? ?] ?]. rewrite !triple_eq. cbn. lia.
Qed.

Lemma beats_total a b c : ¬ beats c b → ¬ beats b a → ¬ beats c a.
Proof.
  unfold beats. destruct (key a.1) as [[? ?] ?], (key b.1) as [[? ?] ?], (key c.1) as [[? ?] ?]. rewrite !triple_eq. cbn. lia.
Qed.

Lemma Better_beats (a b : champ) : is_nan a.1 = false → is_nan b.1 = false → Better a.1 a.2 b.1 b.2 = true ↔ beats a b.
Proof. intros. by rewrite Better_spec. Qed.

Lemma Better_not_beats (a b : champ) : is_nan a.1 = false → is_nan b.1 = false → Better a.1 a.2 b.1 b.2 = false ↔ ¬ beats a b.
Proof. intros. by rewrite <- Better_beats, not_true_iff_false. Qed.

Lemma Better_nan v i bv bi : is_nan v = true → Better v i bv bi = false.
Proof. destruct v; try done. unfold Better, SFltb, SFeqb. by destruct bv. Qed.

(** ** Champions of a set of columns *)

Section champions.
Context (row : Z → float32) (vocab_size : Z).

(** [b] is the sentinel or a column of [S], and no column of [S] beats it. *)
Record champion (S : Z → Prop) (b : champ) : Prop := {
  ch_real : is_nan b.1 = false;
  ch_in : b = sentinel vocab_size ∨ S b.2 ∧ b.1 = row b.2;
  ch_best c : S c → Better (row c) c b.1 b.2 = false;
}.

Lemma champion_ext (S T : Z → Prop) b : (∀ c, S c ↔ T c) → champion S b → champion T b.
Proof. intros HST [H1 H2 H3]. split; [done| |intros c Hc; by apply H3, HST]. rewrite <- HST. done. Qed.

Lemma champion_sentinel : champion (λ _, False) (sentinel vocab_size).
Proof. split; [done|by left|done]. Qed.

(** The lexicographic order of candidates: values first, then lower columns. *)
Lemma champion_adopt S T a b : champion S a → champion T b → champion (λ c, S c ∨ T c) (adopt a b).
Proof.
  intros [A1 A2 A3] [B1 B2 B3]. unfold adopt. destruct (Better b.1 b.2 a.1 a.2) eqn:Hbt.
  - apply Better_beats in Hbt; [|done..]. split; [done|naive_solver|]. intros c [Hc|Hc]; [|by apply B3].
    specialize (A3 c Hc). destruct (is_nan (row c)) eqn:Hn; [by apply Better_nan|].
    apply (Better_not_beats (row c, c)) in A3; [|done..]. apply (Better_not_beats (row c, c)); [done..|].
    intros Hcb. by apply A3, (beats_trans _ b).
  - apply Better_not_beats in Hbt; [|done..]. split; [done|naive_solver|]. intros c [Hc|Hc]; [by apply A3|].
    specialize (B3 c Hc). destruct (is_nan (row c)) eqn:Hn; [by apply Better_nan|].
    apply (Better_not_beats (row c, c)) in B3; [|done..]. apply (Better_not_beats (row c, c)); [done..|].
    by apply (beats_total _ b).
Qed.

(** A thread's scan is the champion of the columns it visited. *)
Lemma champion_column (S : Z → Prop) b c : champion S b → champion (λ x, S x ∨ x = c) (adopt b (row c, c)).
Proof.
  intros Hb. destruct (is_nan (row c)) eqn:Hn.
  - unfold adopt. cbn. rewrite Better_nan by done. destruct Hb as [H1 H2 H3]. split; [done|naive_solver|].
    intros x [Hx|Hx]; [by apply H3|subst x; by apply Better_nan].
  - apply (champion_adopt S (λ x, x = c)); [done|]. split; [done|by right|]. intros x ->. cbn.
    apply (Better_not_beats (row c, c) (row c, c)); [done..|]. unfold beats. cbn. destruct (key (row c)) as [[? ?] ?]. cbn. lia.
Qed.

Lemma champion_scan cols : champion (λ c, c ∈ cols) (scan row vocab_size cols).
Proof.
  unfold scan. assert (∀ S b, champion S b →
    champion (λ c, S c ∨ c ∈ cols) (foldl (λ best c, adopt best (row c, c)) b cols)) as Hgen.
  { induction cols as [|c cols IH]; intros S b Hb.
    - eapply champion_ext; [|exact Hb]. set_solver.
    - cbn. eapply champion_ext; [|apply IH, champion_column, Hb]. set_solver. }
  eapply champion_ext; [|apply Hgen, champion_sentinel]. set_solver.
Qed.

(** ** The reduction *)

(** The lanes whose candidates a lane has seen, as xor masks of its own id. *)
Definition seen_masks (offsets masks : list Z) : list Z := foldl (λ m off, m ++ map (Z.lxor off) m) masks offsets.

Lemma champion_rounds (S : Z → Z → Prop) offsets : ∀ masks f,
  (∀ t, champion (λ c, ∃ j, j ∈ masks ∧ S (Z.lxor t j) c) (f t)) →
  ∀ t, champion (λ c, ∃ j, j ∈ seen_masks offsets masks ∧ S (Z.lxor t j) c)
         (foldl (λ f offset, shuffle_round offset f) f offsets t).
Proof.
  induction offsets as [|off offsets IH]; intros masks f Hf t; [apply Hf|]. cbn [foldl]. unfold seen_masks. cbn [foldl].
  apply IH. intros t'. eapply champion_ext; [|apply champion_adopt; apply Hf]. intros c. cbv beta.
  setoid_rewrite elem_of_app. setoid_rewrite list_elem_of_fmap. setoid_rewrite Z.lxor_assoc. naive_solver.
Qed.

Lemma land_lxor a b m : Z.land (Z.lxor a b) m = Z.lxor (Z.land a m) (Z.land b m).
Proof.
  apply Z.bits_inj'. intros n _. rewrite !Z.land_spec, !Z.lxor_spec, !Z.land_spec.
  by destruct (Z.testbit a n), (Z.testbit b n), (Z.testbit m n).
Qed.

Lemma lxor_low x b : 0 <= b < 32 → Z.lxor (32 * x) b = 32 * x + b.
Proof.
  intros Hb. rewrite (Z.div_mod (Z.lxor (32 * x) b) 32) by lia.
  assert (Z.lxor (32 * x) b / 32 = x) as ->.
  { change 32 with (2 ^ 5). rewrite <- Z.shiftr_div_pow2, Z.shiftr_lxor, !Z.shiftr_div_pow2 by lia.
    rewrite (Z.div_small b) by (change (2 ^ 5) with 32; lia). rewrite Z.lxor_0_r, Z.mul_comm. apply Z.div_mul. lia. }
  assert (Z.lxor (32 * x) b mod 32 = b) as ->; [|done].
  change 32 with (2 ^ 5) at 2. rewrite <- Z.land_ones, land_lxor, !Z.land_ones by lia. change (2 ^ 5) with 32.
  rewrite Z.mul_comm, Z_mod_mult, Z.lxor_0_l. by apply Z.mod_small.
Qed.

(** After the five rounds the first lane of a warp has seen all 32. *)
Lemma champion_warp (S : Z → Z → Prop) f w : (∀ t, champion (S t) (f t)) →
  champion (λ c, ∃ t, 32 * w <= t < 32 * w + 32 ∧ S t c)
    (foldl (λ f offset, shuffle_round offset f) f [16; 8; 4; 2; 1] (32 * w)).
Proof.
  intros Hf. eapply champion_ext; [|apply (champion_rounds S _ [0])].
  - intros c. assert (∀ j, j ∈ seen_masks [16; 8; 4; 2; 1] [0] ↔ j ∈ seqZ 0 32) as Hm.
    { intros j. assert (seen_masks [16; 8; 4; 2; 1] [0] ≡ₚ seqZ 0 32) as ->; [|done].
      apply (bool_decide_eq_true_1 _). by vm_compute. }
    setoid_rewrite Hm. setoid_rewrite elem_of_seqZ. split.
    + intros (j & Hj & Hs). rewrite lxor_low in Hs by lia. exists (32 * w + j). split; [lia|done].
    + intros (t & Ht & Hs). exists (t - 32 * w). split; [lia|]. rewrite lxor_low by lia. by replace (32 * w + (t - 32 * w)) with t by lia.
  - intros t. eapply champion_ext; [|apply Hf]. intros c. split; [intros Hs; exists 0; rewrite Z.lxor_0_r; split; [apply list_elem_of_here|done]|].
    intros (j & ->%list_elem_of_singleton & Hs). by rewrite Z.lxor_0_r in Hs.
Qed.

(** Thread 0's scan over the warps: every thread of the block. *)
Lemma champion_block (S : Z → Z → Prop) f kBlock : 32 <= kBlock → (32 | kBlock) → (∀ t, champion (S t) (f t)) →
  champion (λ c, ∃ t, 0 <= t < kBlock ∧ S t c) (BlockReduceArgmax kBlock f).
Proof.
  intros Hk [n Hn] Hf. unfold BlockReduceArgmax. set (warp := foldl _ f _).
  assert (∀ w, champion (λ c, ∃ t, 32 * w <= t < 32 * w + 32 ∧ S t c) (warp (32 * w))) as Hwarp by (intros w; by apply champion_warp).
  assert (∀ m : nat, champion (λ c, ∃ t, 0 <= t < 32 * (Z.of_nat m + 1) ∧ S t c)
    (foldl (λ best w, adopt best (warp (32 * w))) (warp 0) (seqZ 1 (Z.of_nat m)))) as Hm.
  { induction m as [|m IH].
    - eapply champion_ext; [|exact (Hwarp 0)]. intros c. split; intros (t & Ht & Hs); exists t; (split; [lia|done]).
    - rewrite seqZ_S, foldl_app. cbn [foldl].
      eapply champion_ext; [|apply champion_adopt; [exact IH|apply (Hwarp (1 + Z.of_nat m))]]. intros c. split.
      + intros [(t & Ht & Hs)|(t & Ht & Hs)]; exists t; (split; [lia|done]).
      + intros (t & Ht & Hs). destruct (decide (t < 32 * (Z.of_nat m + 1))); [left|right]; exists t; (split; [lia|done]). }
  assert (kBlock / 32 = n) as Hdiv by (rewrite Hn; apply Z.div_mul; lia).
  specialize (Hm (Z.to_nat (n - 1))). rewrite Z2Nat.id in Hm by lia. rewrite Hdiv.
  eapply champion_ext; [|exact Hm]. intros c. split; intros (t & Ht & Hs); exists t; (split; [lia|done]).
Qed.

(** ** The selected token *)

(** The leftmost maximal non-NaN logit; 0 when there is none. *)
Definition selects (tok : Z) : Prop :=
  (∀ c, 0 <= c < vocab_size → is_nan (row c) = true) ∧ tok = 0 ∨
  0 <= tok < vocab_size ∧ is_nan (row tok) = false ∧
  ∀ c, 0 <= c < vocab_size → is_nan (row c) = false → c ≠ tok →
    SFltb (row c) (row tok) = true ∨ SFeqb (row c) (row tok) = true ∧ tok < c.

Lemma selects_unique t t' : selects t → selects t' → t = t'.
Proof.
  intros [[Hn ->]|(Hr & Hn & Hb)] [[Hn' ->]|(Hr' & Hn' & Hb')]; [done|by rewrite Hn in Hn'|by rewrite Hn' in Hn|].
  destruct (decide (t = t')) as [|Hne]; [done|exfalso]. specialize (Hb t' Hr' Hn' ltac:(done)). specialize (Hb' t Hr Hn ltac:(done)).
  pose proof (SFcompare_key (row t) (row t') Hn Hn') as H1. pose proof (SFcompare_key (row t') (row t) Hn' Hn) as H2.
  unfold SFltb, SFeqb in *. destruct (key (row t)) as [[? ?] ?], (key (row t')) as [[? ?] ?].
  destruct (SFcompare (row t) (row t')) as [[]|], (SFcompare (row t') (row t)) as [[]|]; cbn in *; naive_solver lia.
Qed.

Lemma stored_selects (S : Z → Prop) b : (∀ c, S c ↔ 0 <= c < vocab_size) → champion S b → selects (stored vocab_size b).
Proof.
  intros HS [H1 H2 H3]. unfold stored. destruct H2 as [->|(Hr & Hv)]; [|apply HS in Hr].
  - left. cbn. rewrite Z.leb_refl. split; [|done]. intros c Hc. destruct (is_nan (row c)) eqn:Hn; [done|].
    specialize (H3 c (proj2 (HS c) Hc)). cbn in H3. apply (Better_not_beats (row c, c) (sentinel vocab_size)) in H3; [|done..].
    exfalso. apply H3. unfold beats. cbn. destruct (row c) as [s|[]| |[] m e]; cbn; try lia. right. split; [done|lia].
  - right. destruct (Z.leb_spec vocab_size b.2); [lia|]. split; [done|]. rewrite Hv in H1. split; [done|].
    intros c Hc Hn Hne. specialize (H3 c (proj2 (HS c) Hc)). rewrite Hv in H3.
    apply (Better_not_beats (row c, c) (row b.2, b.2)) in H3; [|done..]. unfold beats in H3. cbn in H3.
    pose proof (SFcompare_key (row c) (row b.2) Hn H1) as Hk. unfold SFltb, SFeqb.
    destruct (SFcompare (row c) (row b.2)) as [[]|]; [right; split; [done|]|by left| |done].
    + destruct (decide (c < b.2)); [exfalso; apply H3; by right|lia].
    + exfalso. apply H3. by left.
Qed.

End champions.

(** Every column is visited: by words of eight, or one by one. *)
Lemma vec_covers vocab kBlock c : 0 < kBlock → Z.rem vocab 8 = 0 →
  (∃ t, 0 <= t < kBlock ∧ c ∈ vec_columns vocab kBlock t) ↔ 0 <= c < vocab.
Proof.
  intros Hk Hr. pose proof (Z.quot_rem' vocab 8) as Hq. rewrite Hr in Hq.
  assert (Z.shiftr vocab 3 * 8 = vocab) as Hw.
  { rewrite Z.shiftr_div_pow2 by lia. change (2 ^ 3) with 8. rewrite Hq, Z.add_0_r, (Z.mul_comm 8), Z.div_mul by lia. lia. }
  assert (∀ t, c ∈ vec_columns vocab kBlock t ↔ ∃ w l, w ∈ strided t kBlock (Z.shiftr vocab 3) ∧ 0 <= l < 8 ∧ c = w * 8 + l) as Hc.
  { intros t. unfold vec_columns. rewrite list_elem_of_In, in_concat. setoid_rewrite <- list_elem_of_In. split.
    - intros (ls & Hls & Hcl). apply list_elem_of_fmap in Hls as (w & -> & Hin).
      apply list_elem_of_fmap in Hcl as (l & -> & Hl). apply elem_of_seqZ in Hl.
      exists w, l. rewrite Z.shiftl_mul_pow2 by lia. split; [exact Hin|]. lia.
    - intros (w & l & Hin & Hl & ->). eexists. split; [apply list_elem_of_fmap; by exists w|]. apply list_elem_of_fmap. exists l.
      rewrite Z.shiftl_mul_pow2, elem_of_seqZ by lia. split; [done|lia]. }
  setoid_rewrite Hc. split.
  - intros (t & Ht & w & l & Hin & Hl & ->). apply elem_of_strided in Hin; lia.
  - intros Hcr. pose proof (Z.div_mod c 8 ltac:(lia)). pose proof (Z.mod_pos_bound c 8 ltac:(lia)).
    assert (0 <= c / 8 < Z.shiftr vocab 3) as Hw8 by (split; [apply Z.div_pos; lia|apply Z.div_lt_upper_bound; lia]).
    apply (elem_of_block_strided kBlock) in Hw8; [|done]. unfold block_strided in Hw8.
    rewrite list_elem_of_In, in_concat in Hw8. destruct Hw8 as (ls & Hls & Hin).
    apply list_elem_of_In, list_elem_of_fmap in Hls as (t & -> & Ht). apply elem_of_seqZ in Ht.
    exists t. split; [lia|]. exists (c / 8), (c mod 8). split_and!; [by apply list_elem_of_In|lia..].
Qed.

Lemma scalar_covers vocab kBlock c : 0 < kBlock →
  (∃ t, 0 <= t < kBlock ∧ c ∈ scalar_columns vocab kBlock t) ↔ 0 <= c < vocab.
Proof.
  intros Hk. rewrite <- (elem_of_block_strided kBlock) by done. unfold block_strided, scalar_columns.
  rewrite list_elem_of_In, in_concat. setoid_rewrite <- list_elem_of_In. split.
  - intros (t & Ht & Hc). eexists. split; [|exact Hc]. apply list_elem_of_fmap. exists t. rewrite elem_of_seqZ. split; [done|lia].
  - intros (ls & Hls & Hc). apply list_elem_of_fmap in Hls as (t & -> & Ht). apply elem_of_seqZ in Ht. exists t. split; [lia|exact Hc].
Qed.

Lemma selects_ext row row' vocab tok : 0 < vocab →
  (∀ c, 0 <= c < vocab → row c = row' c) → selects row' vocab tok → selects row vocab tok.
Proof.
  intros Hv Heq [[Hn ->]|(Hr & Hn & Hb)]; [left|right].
  - split; [|done]. intros c Hc. rewrite Heq by done. by apply Hn.
  - split; [done|]. rewrite Heq by done. split; [done|]. intros c Hc. rewrite Heq by done. by apply Hb.
Qed.

Section kernels.
Context (row : Z → float32) (vocab : Z).

Lemma block_selects kBlock cols : 32 <= kBlock → (32 | kBlock) →
  (∀ c, (∃ t, 0 <= t < kBlock ∧ c ∈ cols t) ↔ 0 <= c < vocab) →
  selects row vocab (stored vocab (BlockReduceArgmax kBlock (λ tid, scan row vocab (cols tid)))).
Proof.
  intros Hk Hdiv Hcov. apply (stored_selects _ _ (λ c, ∃ t, 0 <= t < kBlock ∧ c ∈ cols t)); [exact Hcov|].
  apply (champion_block row vocab (λ t c, c ∈ cols t)); [done|done|]. intros t. apply champion_scan.
Qed.

Lemma vec_selects kBlock : 32 <= kBlock → (32 | kBlock) → Z.rem vocab 8 = 0 →
  selects row vocab (GreedyArgmaxVecKernel kBlock row vocab).
Proof. intros. apply block_selects; [done|done|]. intros c. apply vec_covers; [lia|done]. Qed.

Lemma scalar_selects : selects row vocab (GreedyArgmaxKernel row vocab).
Proof. apply block_selects; [done|by exists 8|]. intros c. by apply scalar_covers. Qed.

Lemma selects_range tok : 0 < vocab → selects row vocab tok → 0 <= tok < vocab.
Proof. intros Hv [[_ ->]|[? _]]; lia. Qed.

End kernels.

Lemma argmax_length aligned major logits num_seqs vocab :
  0 < num_seqs → 0 < vocab → zlen (LaunchGreedyArgmax aligned major logits num_seqs vocab) = num_seqs.
Proof.
  intros Hn Hv. unfold LaunchGreedyArgmax. destruct (Z.leb_spec num_seqs 0), (Z.leb_spec vocab 0); try lia. cbn [orb].
  unfold zlen; rewrite length_map, length_seqZ; lia.
Qed.

(** What each row of a launch selects, whichever kernel ran. *)
Lemma argmax_selects aligned major logits num_seqs vocab (seq : nat) tok :
  0 < num_seqs → 0 < vocab → LaunchGreedyArgmax aligned major logits num_seqs vocab !! seq = Some tok →
  selects (λ c, half2float (logits (Z.of_nat seq * vocab + c))) vocab tok.
Proof.
  intros Hn Hv. unfold LaunchGreedyArgmax. destruct (Z.leb_spec num_seqs 0), (Z.leb_spec vocab 0); try lia. cbn [orb]. intros Htok.
  apply list_lookup_fmap_Some in Htok as (x & -> & Hx). apply lookup_seqZ in Hx as [-> _]. rewrite Z.add_0_l.
  destruct (Z.eqb_spec (Z.rem vocab 8) 0) as [Hr|_]; [destruct aligned|]; cbn [andb].
  - destruct (8 <=? major); apply vec_selects; try done; [by exists 32|by exists 8].
  - apply scalar_selects.
  - apply scalar_selects.
Qed.

(** The token depends on the row's logits alone. *)
Lemma argmax_row_same al1 al2 mj1 mj2 l1 l2 n vocab seq :
  0 <= seq < n → 0 < vocab → (∀ c, 0 <= c < vocab → l1 (seq * vocab + c) = l2 (seq * vocab + c)) →
  LaunchGreedyArgmax al1 mj1 l1 n vocab !! Z.to_nat seq = LaunchGreedyArgmax al2 mj2 l2 n vocab !! Z.to_nat seq.
Proof.
  intros Hs Hv Hl. pose proof (argmax_length al1 mj1 l1 n vocab ltac:(lia) Hv) as H1.
  pose proof (argmax_length al2 mj2 l2 n vocab ltac:(lia) Hv) as H2. unfold zlen in *.
  destruct (lookup_lt_is_Some_2 (LaunchGreedyArgmax al1 mj1 l1 n vocab) (Z.to_nat seq) ltac:(lia)) as [t1 E1].
  destruct (lookup_lt_is_Some_2 (LaunchGreedyArgmax al2 mj2 l2 n vocab) (Z.to_nat seq) ltac:(lia)) as [t2 E2].
  rewrite E1, E2. f_equal. apply argmax_selects in E1, E2; try lia. rewrite Z2Nat.id in E1, E2 by lia.
  eapply selects_unique; [exact E1|]. eapply selects_ext; [done| |exact E2]. intros c Hc. by rewrite Hl.
Qed.

(** C35. The sampled token of a row is its leftmost maximal logit.  Every row of
    the launch gets a token inside the vocabulary: the lowest column among the
    largest logits, a NaN never winning over a number, and 0 for a row of NaNs.
    The 16-byte kernel with 1024 or 256 threads and the scalar kernel return the
    same tokens. *)
Theorem greedy_argmax_selects aligned major logits num_seqs vocab :
  0 < num_seqs → 0 < vocab →
  zlen (LaunchGreedyArgmax aligned major logits num_seqs vocab) = num_seqs ∧
  (∀ (seq : nat) tok, LaunchGreedyArgmax aligned major logits num_seqs vocab !! seq = Some tok →
     0 <= tok < vocab ∧ selects (λ c, half2float (logits (Z.of_nat seq * vocab + c))) vocab tok) ∧
  ∀ aligned' major', LaunchGreedyArgmax aligned major logits num_seqs vocab = LaunchGreedyArgmax aligned' major' logits num_seqs vocab.
Proof.
  intros Hn Hv.
  assert (∀ al mj, zlen (LaunchGreedyArgmax al mj logits num_seqs vocab) = num_seqs ∧
    ∀ (seq : nat) tok, LaunchGreedyArgmax al mj logits num_seqs vocab !! seq = Some tok →
      selects (λ c, half2float (logits (Z.of_nat seq * vocab + c))) vocab tok) as Hall.
  { intros al mj. split; [by apply argmax_length|]. intros seq tok. by apply argmax_selects. }
  destruct (Hall aligned major) as [Hlen Hsel]. split_and!; [done| |].
  - intros seq tok Htok. split; [eapply selects_range; [done|]|]; by apply Hsel.
  - intros al' mj'. destruct (Hall al' mj') as [Hlen' Hsel']. apply list_eq. intros seq.
    unfold zlen in *. destruct (LaunchGreedyArgmax aligned major logits num_seqs vocab !! seq) as [t|] eqn:E1,
      (LaunchGreedyArgmax al' mj' logits num_seqs vocab !! seq) as [t'|] eqn:E2; [|..|done].
    + f_equal. eapply selects_unique; [by apply Hsel|by apply Hsel'].
    + apply lookup_lt_Some in E1. apply lookup_ge_None in E2. lia.
    + apply lookup_lt_Some in E2. apply lookup_ge_None in E1. lia.
Qed.

(** Sixteen logits with a NaN, a tie of 2.0 at columns 5 and 9, and both zeros. *)
Lemma greedy_argmax_selects_witness :
  let logits c := nth (Z.to_nat c) [0; 0x8000; 0x7E00; 0x3C00; 0xC000; 0x4000; 1; 0xFC00; 0; 0x4000; 0x3C00; 0; 0; 0; 0; 0x7E01] 0 in
  LaunchGreedyArgmax true 7 logits 1 16 = [5] ∧
  LaunchGreedyArgmax true 7 logits 1 16 = LaunchGreedyArgmax false 9 logits 1 16.
Proof.
  cbv zeta. split; [by vm_compute|].
  apply (greedy_argmax_selects true 7 _ 1 16 eq_refl eq_refl).
Defined.
