(* ===== verification/DeviceMath.v ===== *)
(** * Device arithmetic and data-parallel runs

    What the floating-point kernels compute with, and how a grid runs.

    [FloatOps] lists the operations on [float] and [half] the kernels use.  The
    kernels are defined over any instance: the rounding points, the order of the
    operations and the memory accesses are the code's, the arithmetic is the
    instance's.  [ieee] is the binary32/binary16 instance (the library functions
    [expf], [rsqrtf], [pow] and [sincosf] stay parameters); [RealMath] gives the
    exact instance on real numbers.

    A run of a grid executes its work items one after another in any order; an
    item reads the memory it finds.  [run_items_spec] is the race-freedom
    argument all elementwise kernels share: when no item reads or writes what
    another writes, every order leaves the values computed from the initial
    memory. *)

From Stdlib Require Import Floats.SpecFloat.
From S2P Require Import Prelude Doubles Types ModelConfig HalfFloat KvPool Argmax.

(** ** The operations of the kernels *)

Class FloatOps (F half : Type) : Type := {
  f_zero : F;
  f_one : F;
  f_neg_inf : F;
  f_lowest : F;                         (* -FLT_MAX *)
  f_of_int : Z → F;
  fneg : F → F;
  fadd : F → F → F;
  fsub : F → F → F;
  fmul : F → F → F;
  fdiv : F → F → F;
  fmaf : F → F → F → F;
  fmaxf : F → F → F;
  feqb : F → F → bool;
  fleb : F → F → bool;
  fltb : F → F → bool;
  expf : F → F;
  rsqrtf : F → F;
  powf : F → F → F;
  sincosf : F → F * F;                  (* sine, cosine *)
  __half2float : half → F;
  __float2half_rn : F → half;
}.

(** *** The IEEE instance *)

Section ieee.
Context (expf_lib rsqrtf_lib : float32 → float32) (pow_lib : float32 → float32 → float32)
  (sincosf_lib : float32 → float32 * float32).

(** Round to nearest even into binary16; a NaN becomes the canonical one. *)
Definition float2half_rn (x : float32) : Z :=
  let sign (s : bool) := if s then 0x8000 else 0 in
  match x with
  | S754_nan => 0x7FFF
  | S754_infinity s => sign s + 0x7C00
  | S754_zero s => sign s
  | S754_finite s m e =>
      match binary_round 11 16 s m e with
      | S754_finite s m e => sign s + (if Z.pos m <? 1024 then Z.pos m else (e + 25) * 1024 + (Z.pos m - 1024))
      | S754_infinity s => sign s + 0x7C00
      | S754_zero s => sign s
      | S754_nan => 0x7FFF
      end
  end.

(** [a * b + c] with one rounding: the product of finite operands is exact. *)
Definition sf_fma (a b c : float32) : float32 :=
  match a, b, c with
  | S754_finite sa ma ea, S754_finite sb mb eb, S754_finite sc mc ec =>
      let p := cond_Zopp (xorb sa sb) (Z.pos (ma * mb)) in
      let e := Z.min (ea + eb) ec in
      binary_normalize 24 128 (p * 2 ^ (ea + eb - e) + cond_Zopp sc (Z.pos mc) * 2 ^ (ec - e)) e false
  | S754_finite sa ma ea, S754_finite sb mb eb, S754_zero _ =>
      binary_normalize 24 128 (cond_Zopp (xorb sa sb) (Z.pos (ma * mb))) (ea + eb) false
  | _, _, _ => SFadd 24 128 (SFmul 24 128 a b) c
  end.

Definition sf_max (a b : float32) : float32 :=
  if is_nan a then b else if is_nan b then a else if SFltb a b then b else a.

Definition ieee : FloatOps float32 Z := {|
  f_zero := S754_zero false;
  f_one := binary_normalize 24 128 1 0 false;
  f_neg_inf := S754_infinity true;
  f_lowest := S754_finite true (2 ^ 24 - 1) 104;
  f_of_int z := binary_normalize 24 128 z 0 false;
  fneg := SFopp;
  fadd := SFadd 24 128;
  fsub := SFsub 24 128;
  fmul := SFmul 24 128;
  fdiv := SFdiv 24 128;
  fmaf := sf_fma;
  fmaxf := sf_max;
  feqb := SFeqb;
  fleb := SFleb;
  fltb := SFltb;
  expf := expf_lib;
  rsqrtf := rsqrtf_lib;
  powf := pow_lib;
  sincosf := sincosf_lib;
  __half2float := half2float;
  __float2half_rn := float2half_rn;
|}.

End ieee.

(** ** Parallel writes *)

Section writes.
Context {K V : Type} `{EqDecision K}.

Definition write (k : K) (v : V) (f : K → V) : K → V := λ k', if decide (k' = k) then v else f k'.
Definition writes (l : list (K * V)) (f : K → V) : K → V := foldl (λ f kv, write kv.1 kv.2 f) f l.

Lemma write_eq k v f : write k v f k = v.
Proof. unfold write. by rewrite decide_True. Qed.

Lemma write_ne k v f k' : k' ≠ k → write k v f k' = f k'.
Proof. intros. unfold write. by rewrite decide_False. Qed.

Lemma writes_app l1 l2 f : writes (l1 ++ l2) f = writes l2 (writes l1 f).
Proof. apply foldl_app. Qed.

(** A location no write names keeps its value. *)
Lemma writes_miss l : ∀ f k, k ∉ l.*1 → writes l f k = f k.
Proof.
  induction l as [|[k1 v1] l IH]; intros f k Hk; [done|]. cbn in *. apply not_elem_of_cons in Hk as [Hne Hk].
  unfold writes in *. cbn. rewrite IH by done. by apply write_ne.
Qed.

(** When every write to a location agrees, it holds that value. *)
Lemma writes_hit l : ∀ f k v, k ∈ l.*1 → (∀ v', (k, v') ∈ l → v' = v) → writes l f k = v.
Proof.
  induction l as [|[k1 v1] l IH]; intros f k v Hk Hv; [by apply not_elem_of_nil in Hk|].
  destruct (decide (k ∈ l.*1)) as [Hin|Hnin].
  - unfold writes in *. cbn. apply IH; [done|]. intros v' Hv'. apply Hv. by apply list_elem_of_further.
  - cbn in Hk. apply elem_of_cons in Hk as [->|]; [|done].
    unfold writes. cbn. fold (writes l (write k1 v1 f)). rewrite writes_miss by done. rewrite write_eq.
    apply Hv. apply list_elem_of_here.
Qed.

Lemma writes_nodup l f k v : NoDup l.*1 → (k, v) ∈ l → writes l f k = v.
Proof.
  intros Hnd Hin. apply writes_hit.
  - apply list_elem_of_fmap. by exists (k, v).
  - intros v' Hin'. apply list_elem_of_lookup in Hin as [i Hi], Hin' as [j Hj].
    assert (i = j) as ->; [|congruence].
    eapply NoDup_lookup; [done|rewrite list_lookup_fmap, Hi; done|by rewrite list_lookup_fmap, Hj].
Qed.

End writes.

(** ** Work items over one memory *)

Section items.
Context {half X : Type}.
Notation mem := (Z → half).

(** What an item stores, as a function of the memory it finds: it loads
    everything before it stores anything. *)
Context (item : X → list (Z * (mem → half))).

Definition run_item (m : mem) (y : X) : mem := writes (map (λ p, (p.1, p.2 m)) (item y)) m.
Definition run_items (l : list X) (m : mem) : mem := foldl run_item m l.

(** Footprint conditions on a set of items. *)
Record separate (l : list X) : Prop := {
  sep_own y : y ∈ l → NoDup (item y).*1;
  sep_write y z a : y ∈ l → z ∈ l → a ∈ (item y).*1 → a ∈ (item z).*1 → y = z;
  sep_read y p m1 m2 : y ∈ l → p ∈ item y →
    (∀ a, (∀ z, z ∈ l → a ∈ (item z).*1 → z = y) → m1 a = m2 a) → p.2 m1 = p.2 m2;
}.

Lemma separate_perm l k : l ≡ₚ k → separate l → separate k.
Proof.
  intros Hp [H1 H2 H3]. split.
  - intros y Hy. rewrite <- Hp in Hy. auto.
  - intros y z a Hy Hz. rewrite <- Hp in Hy, Hz. eauto.
  - intros y p m1 m2 Hy Hin Heq. rewrite <- Hp in Hy. eapply H3; [done|done|].
    intros a Ha. apply Heq. intros z Hz. rewrite <- Hp in Hz. auto.
Qed.

Lemma keys_map (m : mem) (l : list (Z * (mem → half))) : (map (λ p, (p.1, p.2 m)) l).*1 = l.*1.
Proof. rewrite <- list_fmap_compose. by apply list_fmap_ext. Qed.

Lemma run_items_cons y l m : run_items (y :: l) m = run_items l (run_item m y).
Proof. done. Qed.

Lemma run_items_frame l : ∀ m a, (∀ y, y ∈ l → a ∉ (item y).*1) → run_items l m a = m a.
Proof.
  induction l as [|y l IH]; intros m a Ha; [done|]. rewrite run_items_cons.
  rewrite IH by (intros z Hz; apply Ha; by apply list_elem_of_further).
  unfold run_item. apply writes_miss. rewrite keys_map. apply Ha, list_elem_of_here.
Qed.

(** The items that ran did so from what is, for each, the initial memory. *)
Lemma run_items_spec l m : NoDup l → separate l →
  ∀ y p, y ∈ l → p ∈ item y → run_items l m p.1 = p.2 m.
Proof.
  intros Hnd Hsep. assert (∀ k m', NoDup k → (∀ y, y ∈ k → y ∈ l) →
    (∀ a, (∀ z, z ∈ l → a ∈ (item z).*1 → z ∈ k) → m' a = m a) →
    ∀ y p, y ∈ k → p ∈ item y → run_items k m' p.1 = p.2 m) as Hgen; [|intros y p; apply Hgen; auto].
  induction k as [|z k IH]; intros m' Hk Hsub Hm y p Hy Hp; [by apply not_elem_of_nil in Hy|].
  apply NoDup_cons in Hk as [Hz Hk]. rewrite run_items_cons.
  assert (p.1 ∈ (item y).*1) as Hin by (apply list_elem_of_fmap; by exists p).
  assert (z ∈ l) as Hzl by apply Hsub, list_elem_of_here.
  apply elem_of_cons in Hy as [->|Hy].
  - rewrite run_items_frame.
    2: { intros w Hw Ha. apply Hz. replace z with w; [done|]. symmetry.
         eapply (sep_write l Hsep); [done| |done|done]. by apply Hsub, list_elem_of_further. }
    unfold run_item. rewrite (writes_nodup _ _ p.1 (p.2 m')).
    + apply (sep_read l Hsep z p m' m Hzl Hp). intros a Ha. apply Hm. intros w Hw Haw.
      rewrite (Ha w Hw Haw). apply list_elem_of_here.
    + rewrite keys_map. apply (sep_own l Hsep z Hzl).
    + apply list_elem_of_fmap. by exists p.
  - apply (IH (run_item m' z)) with (y := y); [done| | |done|done].
    + intros w Hw. by apply Hsub, list_elem_of_further.
    + intros a Ha. unfold run_item. rewrite writes_miss.
      * apply Hm. intros w Hw Haw. apply list_elem_of_further. auto.
      * rewrite keys_map. intros Haz. by apply Hz, Ha.
Qed.

(** *** Items that also keep a register *)

Context {R : Type} (local : X → mem → R) `{EqDecision X}.

(** The item computes its register from the memory it finds, then stores. *)
Definition run_step (s : mem * (X → R)) (y : X) : mem * (X → R) := (run_item s.1 y, write y (local y s.1) s.2).

Lemma run_steps_mem l : ∀ s, (foldl run_step s l).1 = run_items l s.1.
Proof. induction l as [|y l IH]; intros s; [done|]. cbn [foldl]. by rewrite IH. Qed.

Lemma run_steps_later l : ∀ s y, y ∉ l → (foldl run_step s l).2 y = s.2 y.
Proof.
  induction l as [|z l IH]; intros s y Hy; [done|]. apply not_elem_of_cons in Hy as [Hne Hy]. cbn [foldl].
  rewrite IH by done. by apply write_ne.
Qed.

(** Every register holds what its item computes from the initial memory. *)
Lemma run_steps_local l m g y :
  NoDup l → separate l → y ∈ l →
  (∀ m1 m2, (∀ a, (∀ z, z ∈ l → a ∈ (item z).*1 → z = y) → m1 a = m2 a) → local y m1 = local y m2) →
  (foldl run_step (m, g) l).2 y = local y m.
Proof.
  intros Hnd Hsep Hy Hl. apply list_elem_of_split in Hy as (l1 & l2 & ->).
  rewrite foldl_app. cbn [foldl]. apply NoDup_app in Hnd as (_ & Hdis & Hnd). apply NoDup_cons in Hnd as [Hy2 _].
  rewrite run_steps_later by done. unfold run_step at 1. cbn [snd]. rewrite write_eq, run_steps_mem. cbn [fst].
  apply Hl. intros a Ha. apply run_items_frame. intros z Hz Haz.
  rewrite (Ha z) in Hz by (done || (apply elem_of_app; by left)). apply (Hdis y Hz). apply list_elem_of_here.
Qed.

End items.

(** ** Thread blocks over one memory *)

Section blocks.
Context {half X : Type}.
Notation mem := (Z → half).

(** Blocks of a grid run in any order; [foot x a] says that block [x] may write
    [a].  When a block's result does not depend on what other blocks write,
    each leaves what it computes from the initial memory. *)
Context (block : X → mem → mem) (foot : X → Z → Prop) (l : list X).
Context (Hframe : ∀ x m a, x ∈ l → ¬ foot x a → block x m a = m a).
Context (Hown : ∀ x y a, x ∈ l → y ∈ l → foot x a → foot y a → x = y).
Context (Hdep : ∀ x a m1 m2, x ∈ l → foot x a → (∀ b, (∀ y, y ∈ l → foot y b → y = x) → m1 b = m2 b) → block x m1 a = block x m2 a).

Definition run_blocks (k : list X) (m : mem) : mem := foldl (λ m x, block x m) m k.

Lemma run_blocks_frame k : ∀ m a, (∀ x, x ∈ k → x ∈ l) → (∀ x, x ∈ k → ¬ foot x a) → run_blocks k m a = m a.
Proof using Hframe.
  induction k as [|x k IH]; intros m a Hsub Ha; [done|]. unfold run_blocks in *. cbn [foldl].
  rewrite IH; [apply Hframe; [apply Hsub|apply Ha]; apply list_elem_of_here| |];
    intros y Hy; [apply Hsub|apply Ha]; by apply list_elem_of_further.
Qed.

Lemma run_blocks_spec k m x a : NoDup k → (∀ x, x ∈ k → x ∈ l) → x ∈ k → foot x a → run_blocks k m a = block x m a.
Proof using Hframe Hown Hdep.
  intros Hnd Hsub Hx Ha. apply list_elem_of_split in Hx as (k1 & k2 & ->).
  apply NoDup_app in Hnd as (_ & Hdis & Hnd). apply NoDup_cons in Hnd as [Hx2 _].
  assert (x ∈ l) as Hxl by (apply Hsub, elem_of_app; right; apply list_elem_of_here).
  assert (∀ y, y ∈ k1 → y ∈ l) as Hs1 by (intros; apply Hsub, elem_of_app; by left).
  assert (∀ y, y ∈ k2 → y ∈ l) as Hs2 by (intros; apply Hsub, elem_of_app; right; by apply list_elem_of_further).
  unfold run_blocks. rewrite foldl_app. cbn [foldl]. fold (run_blocks k1 m). fold (run_blocks k2 (block x (run_blocks k1 m))).
  rewrite run_blocks_frame; [|done|].
  - apply Hdep; [done|done|]. intros b Hb. apply run_blocks_frame; [done|]. intros y Hy Hf.
    rewrite (Hb y) in Hy by auto. apply (Hdis x Hy). apply list_elem_of_here.
  - intros y Hy Hf. apply Hx2. by rewrite (Hown x y a) by auto.
Qed.

(** The same, from an invariant of the memory that the blocks keep. *)
Lemma run_blocks_value (P : mem → Prop) (v : X → Z → half) k : (∀ x, x ∈ k → x ∈ l) →
  (∀ x m a, x ∈ l → P m → foot x a → block x m a = v x a) → (∀ x m, x ∈ l → P m → P (block x m)) →
  NoDup k → ∀ m x a, P m → x ∈ k → foot x a → run_blocks k m a = v x a.
Proof using Hframe Hown.
  intros Hsub Hval Hpres. induction k as [|y k IH]; intros Hnd m x a HP Hx Ha; [by apply not_elem_of_nil in Hx|].
  apply NoDup_cons in Hnd as [Hy Hnd]. assert (∀ x, x ∈ k → x ∈ l) as Hs by (intros; apply Hsub; by apply list_elem_of_further).
  assert (y ∈ l) as Hyl by apply Hsub, list_elem_of_here. unfold run_blocks in *. cbn [foldl].
  apply elem_of_cons in Hx as [->|Hx].
  - fold (run_blocks k (block y m)). rewrite run_blocks_frame; [by apply Hval|done|].
    intros z Hz Hf. apply Hy. by rewrite (Hown y z a) by auto.
  - apply IH; [done|done|by apply Hpres|done|done].
Qed.

End blocks.

(** ** Grids *)

Lemma NoDup_strided start step bound : 0 < step → NoDup (strided start step bound).
Proof.
  intros Hs. unfold strided. apply NoDup_fmap_2_strong; [|apply NoDup_seqZ].
  intros x y _ _ Heq. nia.
Qed.

(** A concatenation over distinct keys of lists that carry their key. *)
Lemma NoDup_concat_keyed {A B} (f : A → list B) l :
  NoDup l → (∀ a, a ∈ l → NoDup (f a)) → (∀ a b x, a ∈ l → b ∈ l → x ∈ f a → x ∈ f b → a = b) → NoDup (concat (map f l)).
Proof.
  induction l as [|a l IH]; intros Hnd Hf Hx; [constructor|]. cbn.
  apply NoDup_cons in Hnd as [Ha Hnd]. apply NoDup_app. split_and!.
  - apply Hf, list_elem_of_here.
  - intros x Hxa Hc. apply list_elem_of_In, in_concat in Hc as (k & Hk & Hxk).
    apply in_map_iff in Hk as (b & <- & Hb). apply list_elem_of_In in Hb, Hxk. apply Ha.
    replace a with b; [done|]. eapply Hx; eauto using list_elem_of_here, list_elem_of_further.
  - apply IH; [done| |].
    + intros b Hb. by apply Hf, list_elem_of_further.
    + intros b c x Hb Hc. apply Hx; by apply list_elem_of_further.
Qed.

Lemma elem_of_concat_map {A B} (f : A → list B) l x : x ∈ concat (map f l) ↔ ∃ a, a ∈ l ∧ x ∈ f a.
Proof.
  rewrite list_elem_of_In, in_concat. setoid_rewrite in_map_iff. setoid_rewrite <- list_elem_of_In. naive_solver.
Qed.

(** All values a group of [threads] threads visits, each once. *)
Lemma NoDup_block_strided threads bound : 0 < threads → NoDup (block_strided threads bound).
Proof.
  intros Ht. apply NoDup_concat_keyed.
  - apply NoDup_seqZ.
  - intros a _. by apply NoDup_strided.
  - intros a b x Ha%elem_of_seqZ Hb%elem_of_seqZ Hxa%elem_of_strided Hxb%elem_of_strided; [|lia..].
    destruct Hxa as [Ha1 Ha2], Hxb as [Hb1 Hb2].
    pose proof (Z.div_mod (x - a) threads ltac:(lia)). pose proof (Z.div_mod (x - b) threads ltac:(lia)).
    set (p := (x - a) / threads) in *. set (q := (x - b) / threads) in *. assert (p = q) as Hpq by nia. lia.
Qed.

Lemma block_strided_perm threads bound : 0 < threads → block_strided threads bound ≡ₚ seqZ 0 bound.
Proof.
  intros Ht. apply NoDup_Permutation; [by apply NoDup_block_strided|apply NoDup_seqZ|].
  intros x. rewrite elem_of_block_strided, elem_of_seqZ by done. lia.
Qed.

(** ** Items that own a run of cells *)

(** The cells [unit * w .. unit * w + unit - 1] of item [w]. *)
Definition columns (unit w : Z) : list Z := map (λ l, unit * w + l) (seqZ 0 unit).

Section cells.
Context {half : Type}.
Notation mem := (Z → half).

(** [item w] stores at the [unit] cells from [base + unit * w], from its own
    cells and cells no item stores at. *)
Lemma cells_separate (unit base : Z) (item : Z → list (Z * (mem → half))) l : 0 < unit →
  (∀ w, (item w).*1 = map (λ c, base + c) (columns unit w)) →
  (∀ w p m1 m2, w ∈ l → p ∈ item w →
    (∀ a, a ∈ (item w).*1 ∨ (∀ z, z ∈ l → a ∉ (item z).*1) → m1 a = m2 a) → p.2 m1 = p.2 m2) →
  separate item l.
Proof.
  intros Hu Hk Hr.
  assert (∀ w a, a ∈ (item w).*1 → ∃ j, 0 <= j < unit ∧ a = base + (unit * w + j)) as Hin.
  { intros w a Ha. rewrite Hk in Ha. apply list_elem_of_fmap in Ha as (c & -> & (j & -> & Hj%elem_of_seqZ)%list_elem_of_fmap). exists j. lia. }
  assert (∀ y z a, a ∈ (item y).*1 → a ∈ (item z).*1 → y = z) as Hone.
  { intros y z a (j & Hj & ->)%Hin (j' & Hj' & He)%Hin. assert (y = z ∧ j = j') as [-> _] by (apply (radix unit); lia). done. }
  split; [|eauto|].
  - intros w _. rewrite Hk. unfold columns. rewrite map_map. apply NoDup_fmap_2_strong; [lia|apply NoDup_seqZ].
  - intros w p m1 m2 Hw Hp Heq. apply (Hr w p m1 m2 Hw Hp). intros a [Ha|Ha]; apply Heq; intros z Hz Haz; [eauto|].
    by destruct (Ha z Hz).
Qed.

Lemma store1_separate base l (v : Z → mem → half) :
  (∀ c m1 m2, c ∈ l → (∀ a, a = base + c ∨ (∀ z, z ∈ l → a ≠ base + z) → m1 a = m2 a) → v c m1 = v c m2) →
  separate (λ c, [(base + c, v c)]) l.
Proof.
  intros Hv. apply (cells_separate 1 base); [lia| |].
  - intros w. unfold columns. change (seqZ 0 1) with [0]. cbn -[Z.mul]. f_equal. lia.
  - intros c q m1 m2 Hc Hq Heq. apply list_elem_of_singleton in Hq as ->. cbn. apply Hv; [done|].
    intros a Ha. apply Heq. destruct Ha as [->|Ha]; [left; apply list_elem_of_here|right].
    intros z Hz Hin%list_elem_of_singleton. by apply (Ha z Hz).
Qed.

Lemma nothing_separate l : separate (λ _ : Z, [] : list (Z * (mem → half))) l.
Proof. split; [constructor| |]; [intros ??? _ _ Ha; by apply not_elem_of_nil in Ha|intros ???? _ Hp; by apply not_elem_of_nil in Hp]. Qed.

(** Items that read no memory: plain stores. *)
Lemma stores_result base (v : Z → half) l (m : mem) c : NoDup l → c ∈ l → run_items (λ c, [(base + c, λ _, v c)]) l m (base + c) = v c.
Proof.
  intros Hnd Hc. assert (separate (λ c, [(base + c, λ _ : mem, v c)]) l) as Hsep by (by apply store1_separate).
  exact (run_items_spec _ l m Hnd Hsep c _ Hc (list_elem_of_here _ _)).
Qed.

Lemma stores_frame base (v : Z → half) l (m : mem) a : (∀ c, c ∈ l → a ≠ base + c) → run_items (λ c, [(base + c, λ _, v c)]) l m a = m a.
Proof. intros Ha. apply run_items_frame. intros c Hc Hin%list_elem_of_singleton. by apply (Ha c). Qed.

End cells.
