(* ===== verification/SiluMul.v ===== *)
(** * The SwiGLU activation kernel ([kernels/silu_mul.cu])

    One flat memory of halves, addressed by element.  The output is either the
    gate half of the input itself or a disjoint dense buffer; the launcher reads
    which from the pointers.  Both tiers, under every order of the grid's work
    items, store for every row and column the activation of that column's gate
    and up values and touch nothing else. *)

From S2P Require Import Prelude Doubles Types KvPool Argmax DeviceMath.

Definition kSiluBlockThreads : Z := 256.
Definition kMaxGridY : Z := 65535.

(** ** 2-D grid-stride loops *)

(** The (row, column) pairs a [gx] x [gy] grid of blocks of [threads] visits. *)
Definition grid2 (threads gx gy rows width : Z) : list (Z * Z) :=
  concat (map (λ row, map (λ c, (row, c))
    (concat (map (λ bx, concat (map (λ tid, strided (bx * threads + tid) (gx * threads) width) (seqZ 0 threads))) (seqZ 0 gx))))
    (concat (map (λ by_, strided by_ gy rows) (seqZ 0 gy)))).

Lemma strided_inv start step bound x :
  0 < step → x ∈ strided start step bound → ∃ k, 0 <= k ∧ x = start + k * step ∧ x < bound.
Proof.
  intros Hs (k & -> & Hk%elem_of_seqZ)%list_elem_of_fmap. exists k. split; [lia|]. split; [done|].
  pose proof (Z.mul_div_le (bound - start + step - 1) step Hs). nia.
Qed.

Lemma columns_once threads gx width : 0 < threads → 0 < gx →
  concat (map (λ bx, concat (map (λ tid, strided (bx * threads + tid) (gx * threads) width) (seqZ 0 threads))) (seqZ 0 gx))
  ≡ₚ seqZ 0 width.
Proof.
  intros Ht Hg. assert (0 < gx * threads) as Hs by nia.
  assert (∀ bx tid bx' tid' x, 0 <= bx < gx → 0 <= tid < threads → 0 <= bx' < gx → 0 <= tid' < threads →
    x ∈ strided (bx * threads + tid) (gx * threads) width → x ∈ strided (bx' * threads + tid') (gx * threads) width →
    bx = bx' ∧ tid = tid') as Hone.
  { intros bx tid bx' tid' x ? ? ? ? (p & _ & Hp & _)%strided_inv (q & _ & Hq & _)%strided_inv; [|done..].
    assert (p * gx + bx = q * gx + bx' ∧ tid = tid') as [He ->] by (apply (radix threads); lia).
    by apply radix in He as [_ ->]; [|lia|lia]. }
  apply NoDup_Permutation; [|apply NoDup_seqZ|].
  - apply NoDup_concat_keyed; [apply NoDup_seqZ| |].
    + intros bx Hbx%elem_of_seqZ. apply NoDup_concat_keyed; [apply NoDup_seqZ| |].
      * intros tid _. by apply NoDup_strided.
      * intros t u x Ht1%elem_of_seqZ Hu%elem_of_seqZ Hxt Hxu. apply (Hone bx t bx u x); (done || lia).
    + intros a b x Ha%elem_of_seqZ Hb%elem_of_seqZ (t & Ht1%elem_of_seqZ & Hxt)%elem_of_concat_map (u & Hu%elem_of_seqZ & Hxu)%elem_of_concat_map.
      apply (Hone a t b u x); (done || lia).
  - intros x. rewrite elem_of_concat_map, elem_of_seqZ. split.
    + intros (bx & Hbx%elem_of_seqZ & (t & Ht1%elem_of_seqZ & (k & Hk & -> & Hx)%strided_inv)%elem_of_concat_map); [nia|done].
    + intros Hx. pose proof (Z.div_mod x (gx * threads) ltac:(lia)) as Hd. pose proof (Z.mod_pos_bound x (gx * threads) Hs) as Hm.
      set (y := x mod (gx * threads)) in *. set (k := x / (gx * threads)) in *.
      assert (0 <= k) by (apply Z.div_pos; lia).
      pose proof (Z.div_mod y threads ltac:(lia)) as Hd2. pose proof (Z.mod_pos_bound y threads Ht) as Hm2.
      assert (0 <= y / threads < gx) by (split; [apply Z.div_pos; lia|apply Z.div_lt_upper_bound; lia]).
      exists (y / threads). split; [apply elem_of_seqZ; lia|]. apply elem_of_concat_map. exists (y mod threads).
      split; [apply elem_of_seqZ; lia|]. apply elem_of_strided; [lia|nia|]. split; [nia|].
      replace (x - (y / threads * threads + y mod threads)) with (k * (gx * threads)) by lia.
      apply Z_mod_mult.
Qed.

Lemma rows_once gy rows : 0 < gy → concat (map (λ by_, strided by_ gy rows) (seqZ 0 gy)) ≡ₚ seqZ 0 rows.
Proof. intros. by apply block_strided_perm. Qed.

Lemma elem_of_grid2 threads gx gy rows width r c : 0 < threads → 0 < gx → 0 < gy →
  (r, c) ∈ grid2 threads gx gy rows width ↔ 0 <= r < rows ∧ 0 <= c < width.
Proof.
  intros Ht Hx Hy. unfold grid2. rewrite elem_of_concat_map. split.
  - intros (r' & Hr & (c' & [= -> ->] & Hc)%list_elem_of_fmap).
    rewrite (rows_once gy rows Hy), elem_of_seqZ in Hr. rewrite (columns_once threads gx width Ht Hx), elem_of_seqZ in Hc. lia.
  - intros [Hr Hc]. exists r. split; [rewrite (rows_once gy rows Hy), elem_of_seqZ; lia|].
    apply list_elem_of_fmap. exists c. split; [done|]. rewrite (columns_once threads gx width Ht Hx), elem_of_seqZ. lia.
Qed.

Lemma NoDup_grid2 threads gx gy rows width : 0 < threads → 0 < gx → 0 < gy → NoDup (grid2 threads gx gy rows width).
Proof.
  intros Ht Hx Hy. apply NoDup_concat_keyed.
  - rewrite (rows_once gy rows Hy). apply NoDup_seqZ.
  - intros r _. apply NoDup_fmap_2; [by intros ?? [=]|]. rewrite (columns_once threads gx width Ht Hx). apply NoDup_seqZ.
  - intros a b x _ _ (c & -> & _)%list_elem_of_fmap (d & [= -> ->] & _)%list_elem_of_fmap. done.
Qed.

(** ** The kernel *)

Section kernel.
Context {F half : Type} `{FloatOps F half}.
Notation mem := (Z → half).

Definition SiluF32 (x : F) : F := fdiv x (fadd f_one (expf (fneg x))).

Definition SiluMulOne (gate up : half) : half := __float2half_rn (fmul (SiluF32 (__half2float gate)) (__half2float up)).

Definition SiluMulTwo (gate up : half * half) : half * half :=
  let g := (__half2float gate.1, __half2float gate.2) in
  let u := (__half2float up.1, __half2float up.2) in
  (__float2half_rn (fmul (SiluF32 g.1) u.1), __float2half_rn (fmul (SiluF32 g.2) u.2)).

(** A load of a [half2] at half2 index [i] from base [p]. *)
Definition load2 (m : mem) (p i : Z) : half * half := (m (p + 2 * i), m (p + 2 * i + 1)).

(** The store of one loop iteration, on the memory it finds. *)
Definition SiluMulScalarKernel (out gate_up out_row_stride intermediate_size : Z) (rc : Z * Z) : list (Z * (mem → half)) :=
  let (row, c) := rc in
  let gate_row := gate_up + row * (2 * intermediate_size) in
  let up_row := gate_row + intermediate_size in
  let out_row := out + row * out_row_stride in
  [(out_row + c, λ m, SiluMulOne (m (gate_row + c)) (m (up_row + c)))].

(** Row strides and columns of this one are in half2 units. *)
Definition SiluMulHalf2Kernel (out gate_up out_row_stride pairs : Z) (rp : Z * Z) : list (Z * (mem → half)) :=
  let (row, p) := rp in
  let gate_row := row * (2 * pairs) in
  let up_row := gate_row + pairs in
  let out_row := row * out_row_stride in
  let word m := SiluMulTwo (load2 m gate_up (gate_row + p)) (load2 m gate_up (up_row + p)) in
  [(out + 2 * (out_row + p), λ m, (word m).1); (out + 2 * (out_row + p) + 1, λ m, (word m).2)].

(** [order] is the order in which the device runs the work items of the grid. *)
Definition LaunchSiluMul (order : list (Z * Z) → list (Z * Z)) (out gate_up num_tokens intermediate_size : Z) (m : mem) : mem :=
  if (num_tokens <=? 0) || (intermediate_size <=? 0) then m else
  let aliased := out =? gate_up in
  let grid_y := if kMaxGridY <? num_tokens then kMaxGridY else num_tokens in
  let vectorize := (Z.rem intermediate_size 2 =? 0) && (out mod 2 =? 0) && (gate_up mod 2 =? 0) in
  if vectorize then
    let pairs := Z.quot intermediate_size 2 in
    let out_row_stride := if aliased then 2 * pairs else pairs in
    let grid_x := Z.quot (pairs + kSiluBlockThreads - 1) kSiluBlockThreads in
    run_items (SiluMulHalf2Kernel out gate_up out_row_stride pairs)
      (order (grid2 kSiluBlockThreads grid_x grid_y num_tokens pairs)) m
  else
    let out_row_stride := if aliased then 2 * intermediate_size else intermediate_size in
    let grid_x := Z.quot (intermediate_size + kSiluBlockThreads - 1) kSiluBlockThreads in
    run_items (SiluMulScalarKernel out gate_up out_row_stride intermediate_size)
      (order (grid2 kSiluBlockThreads grid_x grid_y num_tokens intermediate_size)) m.

(** ** Every tier is the same elementwise map *)

Section elementwise.
Context (out gate_up rows I stride : Z).
Context (HI : 0 < I) (Hstride : I <= stride).
Context (Halias : out = gate_up ∧ stride = 2 * I ∨ out + rows * stride <= gate_up ∨ gate_up + rows * (2 * I) <= out).
Notation dst r c := (out + r * stride + c).
Notation src r c := (gate_up + r * (2 * I) + c).

(** What one work item does, at [unit] columns per item. *)
Record tier_item (unit : Z) (item : Z * Z → list (Z * (mem → half))) : Prop := {
  ti_unit : 0 < unit;
  ti_keys r p : (item (r, p)).*1 = map (λ l, dst r (unit * p + l)) (seqZ 0 unit);
  ti_value r p w : w ∈ item (r, p) → ∃ c, unit * p <= c < unit * p + unit ∧ w.1 = dst r c ∧
    ∀ m, w.2 m = SiluMulOne (m (src r c)) (m (src r (I + c)));
}.

Lemma ti_key unit item r p a : tier_item unit item → a ∈ (item (r, p)).*1 → ∃ c, unit * p <= c < unit * p + unit ∧ a = dst r c.
Proof.
  intros [_ Hk _] Ha. rewrite Hk in Ha. apply list_elem_of_fmap in Ha as (l & -> & Hl%elem_of_seqZ).
  exists (unit * p + l). split; lia.
Qed.

Context (unit width : Z) (item : Z * Z → list (Z * (mem → half))) (Hitem : tier_item unit item).
Context (Hwidth : width * unit = I) (l : list (Z * Z)) (Hl : NoDup l).
Context (Hcover : ∀ r p, (r, p) ∈ l ↔ 0 <= r < rows ∧ 0 <= p < width).

Lemma items_separate : separate item l.
Proof using Halias HI Hcover Hitem Hstride Hwidth.
  pose proof (ti_unit _ _ Hitem) as Hu. split.
  - intros [r p] _. rewrite (ti_keys _ _ Hitem). apply NoDup_fmap_2_strong; [lia|apply NoDup_seqZ].
  - intros [r p] [r' p'] a [Hr Hp]%Hcover [Hr' Hp']%Hcover (c & Hc & ->)%(ti_key unit item) (c' & Hc' & He)%(ti_key unit item); [|done..].
    assert (r = r' ∧ c = c') as [-> ->] by (apply (radix stride); nia). f_equal. nia.
  - intros [r p] w m1 m2 [Hr Hp]%Hcover (c & Hc & _ & Hv)%(ti_value _ _ Hitem) Heq. rewrite !Hv.
    assert (0 <= c < I) as Hci by nia.
    assert (∀ c', 0 <= c' < 2 * I → (c' < I → c' = c) → m1 (src r c') = m2 (src r c')) as Hsame.
    { intros c' Hc' Hself. apply Heq. intros [r' p'] [Hr' Hp']%Hcover (c1 & Hc1 & He)%(ti_key unit item); [|done].
      assert (0 <= c1 < I) by nia. destruct Halias as [[-> ->]|[Hd|Hd]]; [|nia|nia].
      assert (r = r' ∧ c' = c1) as [-> ->] by (apply (radix (2 * I)); lia). f_equal. specialize (Hself ltac:(lia)). nia. }
    f_equal; apply Hsame; lia.
Qed.

Lemma items_result m r c : 0 <= r < rows → 0 <= c < I →
  run_items item l m (dst r c) = SiluMulOne (m (src r c)) (m (src r (I + c))).
Proof using Halias HI Hcover Hitem Hstride Hwidth Hl.
  intros Hr Hc. pose proof (ti_unit _ _ Hitem) as Hu.
  pose proof (Z.div_mod c unit ltac:(lia)) as Hd. pose proof (Z.mod_pos_bound c unit Hu) as Hm.
  assert (0 <= c / unit < width) as Hp by (split; [apply Z.div_pos; lia|apply Z.div_lt_upper_bound; lia]).
  assert (dst r c ∈ (item (r, c / unit)).*1) as Hin.
  { rewrite (ti_keys _ _ Hitem). apply list_elem_of_fmap. exists (c mod unit). split; [lia|apply elem_of_seqZ; lia]. }
  apply list_elem_of_fmap in Hin as (w & Hw & Hin). rewrite Hw.
  rewrite (run_items_spec item l m Hl items_separate (r, c / unit) w); [|by apply Hcover|done].
  destruct (ti_value _ _ Hitem _ _ _ Hin) as (c' & _ & He & ->). assert (c' = c) as -> by lia. done.
Qed.

Lemma items_elsewhere m a : (∀ r c, 0 <= r < rows → 0 <= c < I → a ≠ dst r c) → run_items item l m a = m a.
Proof using HI Hcover Hitem Hwidth.
  intros Ha. apply run_items_frame. intros [r p] [Hr Hp]%Hcover (c & Hc & ->)%(ti_key unit item); [|done].
  pose proof (ti_unit _ _ Hitem). apply (Ha r c); [done|nia|done].
Qed.

End elementwise.

Lemma SiluMulOne_at (m : mem) a b a' b' : a = a' → b = b' → SiluMulOne (m a) (m b) = SiluMulOne (m a') (m b').
Proof. by intros -> ->. Qed.

Lemma scalar_tier out gate_up I stride :
  tier_item out gate_up I stride 1 (SiluMulScalarKernel out gate_up stride I).
Proof.
  split; [lia| |].
  - intros r p. change (seqZ 0 1) with [0]. cbn -[Z.mul]. f_equal. lia.
  - intros r p w [->|[]%not_elem_of_nil]%elem_of_cons. exists p. split; [lia|]. cbn. split; [lia|]. intros m.
    by rewrite Z.add_assoc.
Qed.

Lemma half2_tier out gate_up pairs s :
  tier_item out gate_up (2 * pairs) (2 * s) 2 (SiluMulHalf2Kernel out gate_up s pairs).
Proof.
  split; [lia| |].
  - intros r p. change (seqZ 0 2) with [0; 1]. cbn -[Z.mul]. f_equal; [lia|]. f_equal. lia.
  - intros r p w [->|[->|[]%not_elem_of_nil]%elem_of_cons]%elem_of_cons; cbn -[Z.mul].
    + exists (2 * p). split; [lia|]. split; [lia|]. intros m. by apply SiluMulOne_at; lia.
    + exists (2 * p + 1). split; [lia|]. split; [lia|]. intros m. by apply SiluMulOne_at; lia.
Qed.

(** The launcher stores, for every row and column, the activation of that
    column's gate and up values, where the down product will read it: over the
    gate half in place, or in the dense buffer.  Nothing else changes, and
    neither the tier nor the order of the work items shows. *)
Theorem silu_mul_elementwise order out gate_up rows I (m : mem) :
  (∀ l, order l ≡ₚ l) →
  (out = gate_up ∨ out + rows * I <= gate_up ∨ gate_up + rows * (2 * I) <= out) →
  let stride := if out =? gate_up then 2 * I else I in
  let result := LaunchSiluMul order out gate_up rows I m in
  (∀ r c, 0 <= r < rows → 0 <= c < I →
    let x := __half2float (m (gate_up + r * (2 * I) + c)) in
    let up := __half2float (m (gate_up + r * (2 * I) + (I + c))) in
    result (out + r * stride + c) = __float2half_rn (fmul (fdiv x (fadd f_one (expf (fneg x)))) up)) ∧
  ∀ a, (∀ r c, 0 <= r < rows → 0 <= c < I → a ≠ out + r * stride + c) → result a = m a.
Proof.
  intros Ho Hal stride result. unfold result, LaunchSiluMul.
  destruct (Z.leb_spec rows 0); [split; [lia|done]|]. destruct (Z.leb_spec I 0); [split; [lia|done]|]. cbn [orb].
  set (gy := if kMaxGridY <? rows then kMaxGridY else rows).
  assert (0 < gy) as Hgy by (unfold gy, kMaxGridY; destruct (Z.ltb_spec 65535 rows); lia).
  assert (I <= stride) as Hst by (unfold stride; destruct (out =? gate_up); lia).
  assert (out = gate_up ∧ stride = 2 * I ∨ out + rows * stride <= gate_up ∨ gate_up + rows * (2 * I) <= out) as Hal'.
  { unfold stride. destruct (Z.eqb_spec out gate_up) as [->|Hne]; [by left|right]. by destruct Hal as [?|?]. }
  assert (∀ w, 0 < w → 0 < Z.quot (w + kSiluBlockThreads - 1) kSiluBlockThreads) as Hgx.
  { intros w Hw. unfold kSiluBlockThreads. rewrite Z.quot_div_nonneg by lia. Z.div_mod_to_equations. lia. }
  assert (∀ unit width item, tier_item out gate_up I stride unit item → width * unit = I → 0 < width →
    let l := order (grid2 kSiluBlockThreads (Z.quot (width + kSiluBlockThreads - 1) kSiluBlockThreads) gy rows width) in
    (∀ r c, 0 <= r < rows → 0 <= c < I → run_items item l m (out + r * stride + c) =
      SiluMulOne (m (gate_up + r * (2 * I) + c)) (m (gate_up + r * (2 * I) + (I + c)))) ∧
    ∀ a, (∀ r c, 0 <= r < rows → 0 <= c < I → a ≠ out + r * stride + c) → run_items item l m a = m a) as Hall.
  { intros unit width item Hti Hw Hpos l. pose proof (Hgx width Hpos) as Hx.
    assert (NoDup l) as Hnd by (unfold l; rewrite Ho; by apply NoDup_grid2).
    assert (∀ r p, (r, p) ∈ l ↔ 0 <= r < rows ∧ 0 <= p < width) as Hcov by (intros; unfold l; rewrite Ho; by apply elem_of_grid2).
    assert (0 < I) as HI by lia. split; intros.
    - by apply (items_result out gate_up rows I stride HI Hst Hal' unit width item Hti Hw l Hnd Hcov).
    - by apply (items_elsewhere out gate_up rows I stride HI unit width item Hti Hw l Hcov). }
  destruct (_ && _) eqn:Hv; [|apply (Hall 1 I); [apply scalar_tier|lia|lia]].
  apply andb_true_iff in Hv as [[Hev%Z.eqb_eq _]%andb_true_iff _].
  pose proof (Z.quot_rem' I 2) as Hq. rewrite Hev in Hq. apply (Hall 2 (Z.quot I 2)); [|lia|lia].
  replace I with (2 * Z.quot I 2) at 1 by lia.
  replace stride with (2 * (if out =? gate_up then 2 * Z.quot I 2 else Z.quot I 2)) at 1
    by (unfold stride; destruct (out =? gate_up); lia).
  apply half2_tier.
Qed.

End kernel.

(** One row of four columns activated in place over the gate half, the work
    items in reverse: the first column is 2 / (1 + 2) times 2 with an
    exponential that answers 2, the up half keeps its values. *)
Lemma silu_mul_elementwise_witness :
  let two := SpecFloat.binary_normalize 24 128 2 0 false in
  let device := ieee (λ _, two) (λ x, x) (λ x _, x) (λ x, (x, x)) in
  let result := LaunchSiluMul (H := device) (@rev _) 0 0 1 4 (λ _, 0x4000) in
  result 0 = 0x3D55 ∧ result 4 = 0x4000.
Proof.
  intros two device result.
  destruct (silu_mul_elementwise (H := device) (@rev _) 0 0 1 4 (λ _, 0x4000)) as [Hval Hframe];
    [intros; symmetry; apply Permutation_rev|by left|].
  split; [etransitivity; [exact (Hval 0 0 ltac:(lia) ltac:(lia))|by vm_compute]|].
  apply Hframe. intros r c Hr Hc. cbn. lia.
Defined.
