(* ===== verification/Rope.v ===== *)
(** * Rotary position embeddings ([kernels/rope.cu])

    The launcher keeps a table of inverse frequencies in constant memory behind
    a (theta, head_dim) cache, and rotates the Q and K heads of every row in
    place by one of two mappings: a block per head whose threads compute their
    own angles, or a block per seven heads that share them through shared
    memory.  Both mappings, under every order of their work items, leave the same
    memory: every pair of every head rotated exactly once, from the values
    before the launch. *)

From Stdlib Require Import Floats.SpecFloat.
From S2P Require Import Prelude Doubles Types ModelConfig HalfFloat KvPool Argmax DeviceMath SiluMul.

Definition kMaxRotaryPairs : Z := 64.
Definition kHeadsPerBlockSm80 : Z := 7.

(** [DeviceComputeMajor]: what the runtime answers at its first use. *)
Definition DeviceComputeMajor (cudaGetDevice : option Z) (cudaDevAttrComputeCapabilityMajor : Z → option Z) : Z :=
  match cudaGetDevice with
  | None => 0
  | Some device => match cudaDevAttrComputeCapabilityMajor device with None => 0 | Some value => value end
  end.

Section kernel.
Context {F half : Type} `{FloatOps F half}.
Notation mem := (Z → half).

(** ** The inverse frequency table *)

(** [g_inv_freq_state] with the device table [g_inv_freq] it describes. *)
Record InvFreqCacheState : Type := mkInvFreq { ic_theta : F; ic_num_pairs : Z; g_inv_freq : Z → F }.

(** The constructor's state; constant memory holds anything. *)
Definition InvFreqCacheState_new (garbage : Z → F) : InvFreqCacheState := mkInvFreq f_zero 0 garbage.

Definition inv_freq (rope_theta : F) (head_dim d : Z) : F :=
  fdiv f_one (powf rope_theta (fdiv (f_of_int (2 * d)) (f_of_int head_dim))).

(** What the runtime answers to an upload: whether the synchronisation and the
    copy succeed, and what a copy that fails leaves in the table. *)
Record upload_answer : Type := mkUpload { sync_ok : bool; copy_ok : bool; torn : (Z → F) → Z → F }.

Definition EnsureInvFreqTable (rt : upload_answer) (rope_theta : F) (head_dim : Z) (st : InvFreqCacheState)
  : bool * InvFreqCacheState :=
  let num_pairs := Z.quot head_dim 2 in
  if feqb (ic_theta st) rope_theta && (ic_num_pairs st =? num_pairs) then (true, st) else
  let table := inv_freq rope_theta head_dim in
  if negb (sync_ok rt) then (false, st) else
  if negb (copy_ok rt) then (false, mkInvFreq (ic_theta st) (ic_num_pairs st) (torn rt (g_inv_freq st))) else
  (true, mkInvFreq rope_theta num_pairs (writes (map (λ d, (d, table d)) (seqZ 0 num_pairs)) (g_inv_freq st))).

(** ** The rotation *)

(** The two stores of a pair; both elements load before either store. *)
Definition RotatePair (head_base d half_dim : Z) (cos_h sin_h : F) : list (Z * (mem → half)) :=
  let i_lo := d in
  let i_hi := d + half_dim in
  let x1 m := __half2float (m (head_base + i_lo)) in
  let x2 m := __half2float (m (head_base + i_hi)) in
  let lo_cos_term m := __float2half_rn (fmul (x1 m) cos_h) in
  let lo_sin_term m := __float2half_rn (fmul (fneg (x2 m)) sin_h) in
  let hi_cos_term m := __float2half_rn (fmul (x2 m) cos_h) in
  let hi_sin_term m := __float2half_rn (fmul (x1 m) sin_h) in
  [(head_base + i_lo, λ m, __float2half_rn (fadd (__half2float (lo_cos_term m)) (__half2float (lo_sin_term m))));
   (head_base + i_hi, λ m, __float2half_rn (fadd (__half2float (hi_cos_term m)) (__half2float (hi_sin_term m))))].

Definition HeadBase (q k q_row_stride k_row_stride row head num_q_heads head_dim : Z) : Z :=
  if head <? num_q_heads then q + row * q_row_stride + head * head_dim
  else k + row * k_row_stride + (head - num_q_heads) * head_dim.

(** Rounding point 1: the angle's cosine and sine through binary16. *)
Definition cos_sin (pos freq : F) : F * F :=
  let angle := fmul pos freq in
  let (sin32, cos32) := sincosf angle in
  (__half2float (__float2half_rn cos32), __half2float (__float2half_rn sin32)).

Section launch.
Context (q k q_row_stride k_row_stride : Z) (positions : Z → Z) (num_q_heads total_heads head_dim : Z)
  (freq : Z → F).

(** The shared [rot] array of block [row] after its barrier, over whatever the
    block's shared memory held. *)
Definition rot_table (row blockDim : Z) (garbage : Z → F * F) : Z → F * F :=
  let pos := f_of_int (positions row) in
  writes (map (λ tid, (tid, cos_sin pos (freq tid))) (filter (λ tid, tid < Z.shiftr head_dim 1) (seqZ 0 blockDim))) garbage.

(** Thread [tid] of block [(row, group)]. *)
Definition RopeInplaceSharedKernel (garbage : Z → F * F) (t : Z * Z * Z) : list (Z * (mem → half)) :=
  let '(row, group, tid) := t in
  let half_dim := Z.shiftr head_dim 1 in
  let rot := rot_table row (kHeadsPerBlockSm80 * half_dim) garbage in
  let head := group * kHeadsPerBlockSm80 + Z.quot tid half_dim in
  if total_heads <=? head then [] else
  let d := Z.rem tid half_dim in
  let head_base := HeadBase q k q_row_stride k_row_stride row head num_q_heads head_dim in
  let cs := rot d in
  RotatePair head_base d half_dim cs.1 cs.2.

(** Thread [d] of block [(row, head)]. *)
Definition RopeInplaceKernel (t : Z * Z * Z) : list (Z * (mem → half)) :=
  let '(row, head, d) := t in
  let half_dim := Z.shiftr head_dim 1 in
  let pos := f_of_int (positions row) in
  let head_base := HeadBase q k q_row_stride k_row_stride row head num_q_heads head_dim in
  let cs := cos_sin pos (freq d) in
  RotatePair head_base d half_dim cs.1 cs.2.

End launch.

(** The threads of a grid of [gx] x [gy] blocks of [threads]. *)
Definition grid_threads (gx gy threads : Z) : list (Z * Z * Z) :=
  concat (map (λ x, concat (map (λ y, map (λ t, (x, y, t)) (seqZ 0 threads)) (seqZ 0 gy))) (seqZ 0 gx)).

(** The launcher.  [None] is a failed debug assertion; [NDEBUG] builds skip a
    launch outside the contract. *)
Definition LaunchRopeInplace (NDEBUG : bool) (rt : upload_answer) (compute_major : Z) (garbage : Z → F * F)
    (order : list (Z * Z * Z) → list (Z * Z * Z)) (q k q_row_stride k_row_stride : Z) (positions : Z → Z)
    (num_tokens num_q_heads num_kv_heads head_dim : Z) (rope_theta : F) (s : mem * InvFreqCacheState)
  : option (mem * InvFreqCacheState) :=
  let (m, st) := s in
  let total_heads := num_q_heads + num_kv_heads in
  if (num_tokens <=? 0) || (total_heads <=? 0) then Some (m, st) else
  if negb NDEBUG && negb ((0 <=? num_q_heads) && (0 <=? num_kv_heads) && (0 <? head_dim) && (Z.rem head_dim 2 =? 0) &&
       (Z.quot head_dim 2 <=? kMaxRotaryPairs) && fltb f_zero rope_theta) then None else
  if (num_q_heads <? 0) || (num_kv_heads <? 0) || (head_dim <=? 0) || negb (Z.rem head_dim 2 =? 0) ||
     (kMaxRotaryPairs <? Z.quot head_dim 2) || fleb rope_theta f_zero then Some (m, st) else
  let (ok, st) := EnsureInvFreqTable rt rope_theta head_dim st in
  if negb ok then Some (m, st) else
  let half_dim := Z.quot head_dim 2 in
  if (8 <=? compute_major) && (1 <? kHeadsPerBlockSm80) then
    let head_groups := Z.quot (total_heads + kHeadsPerBlockSm80 - 1) kHeadsPerBlockSm80 in
    Some (run_items (RopeInplaceSharedKernel q k q_row_stride k_row_stride positions num_q_heads total_heads head_dim (g_inv_freq st) garbage)
            (order (grid_threads num_tokens head_groups (kHeadsPerBlockSm80 * half_dim))) m, st)
  else
    Some (run_items (RopeInplaceKernel q k q_row_stride k_row_stride positions num_q_heads head_dim (g_inv_freq st))
            (order (grid_threads num_tokens total_heads half_dim)) m, st).

(** ** The cache describes the table *)

Definition cache_ok (st : InvFreqCacheState) : Prop :=
  fleb (ic_theta st) f_zero = false →
  ∀ d, 0 <= d < ic_num_pairs st → g_inv_freq st d = inv_freq (ic_theta st) (2 * ic_num_pairs st) d.

(** What the comparisons of [float] promise. *)
Record CompareLaws : Prop := {
  cmp_zero : fleb f_zero f_zero = true;
  cmp_eq x y : feqb x y = true → fleb y f_zero = false → x = y;
}.

Lemma cache_new_ok garbage : CompareLaws → cache_ok (InvFreqCacheState_new garbage).
Proof. intros [Hz _] Hle. cbn in Hle. congruence. Qed.

Lemma fill_spec {V} (f : Z → V) n g d : writes (map (λ d, (d, f d)) (seqZ 0 n)) g d = if (0 <=? d) && (d <? n) then f d else g d.
Proof.
  destruct (_ && _) eqn:Hd.
  - apply andb_true_iff in Hd as [H1%Z.leb_le H2%Z.ltb_lt]. apply writes_nodup.
    + rewrite <- list_fmap_compose. apply NoDup_fmap_2_strong; [by intros ?? _ _|apply NoDup_seqZ].
    + apply list_elem_of_fmap. exists d. split; [done|]. apply elem_of_seqZ. lia.
  - apply writes_miss. rewrite <- list_fmap_compose. intros (d' & -> & Hd'%elem_of_seqZ)%list_elem_of_fmap. cbn in Hd.
    destruct (Z.leb_spec 0 d'), (Z.ltb_spec d' n); try done; lia.
Qed.

(** An upload that fails its copy is assumed to leave the table alone. *)
Lemma ensure_ok rt theta head_dim st :
  (∀ g, torn rt g = g) → Z.rem head_dim 2 = 0 → cache_ok st → cache_ok (EnsureInvFreqTable rt theta head_dim st).2.
Proof.
  intros Ht He Hc. unfold EnsureInvFreqTable. destruct (_ && _); [done|]. destruct (sync_ok rt); [|done].
  destruct (copy_ok rt); cbn.
  - intros _ d Hd. cbn in *. rewrite fill_spec. destruct (Z.leb_spec 0 d), (Z.ltb_spec d (Z.quot head_dim 2)); try lia. cbn.
    f_equal. pose proof (Z.quot_rem' head_dim 2). lia.
  - intros Hz d Hd. cbn in *. rewrite Ht. by apply Hc.
Qed.

(** After a successful call the table is the one asked for, uploaded or not. *)
Lemma ensure_table rt theta head_dim st st' d :
  CompareLaws → Z.rem head_dim 2 = 0 → fleb theta f_zero = false → cache_ok st →
  EnsureInvFreqTable rt theta head_dim st = (true, st') → 0 <= d < Z.quot head_dim 2 → g_inv_freq st' d = inv_freq theta head_dim d.
Proof.
  intros HL He Hz Hc Heq Hd. pose proof (Z.quot_rem' head_dim 2) as Hq. unfold EnsureInvFreqTable in Heq.
  destruct (_ && _) eqn:Hm.
  - injection Heq as <-. apply andb_true_iff in Hm as [Hf%(cmp_eq HL) Hn%Z.eqb_eq]; [|done].
    rewrite Hc by (rewrite ?Hf; done || lia). rewrite Hf, Hn. f_equal. lia.
  - destruct (sync_ok rt); [|done]. destruct (copy_ok rt); [|done]. injection Heq as <-. cbn. rewrite fill_spec.
    by destruct (Z.leb_spec 0 d), (Z.ltb_spec d (Z.quot head_dim 2)); try lia.
Qed.

(** ** Every pair rotates once *)

(** HF's [x * cos + rotate_half(x) * sin] on one pair, an FP16 rounding after
    each operation. *)
Definition rotated (cs : F * F) (x1 x2 : half) : half * half :=
  let product x c := __half2float (__float2half_rn (fmul x c)) in
  (__float2half_rn (fadd (product (__half2float x1) cs.1) (product (fneg (__half2float x2)) cs.2)),
   __float2half_rn (fadd (product (__half2float x2) cs.1) (product (__half2float x1) cs.2))).

Section rotation.
Context (q k q_row_stride k_row_stride : Z) (positions : Z → Z) (rows num_q_heads total_heads head_dim : Z) (freq : Z → F).
Notation base r h := (HeadBase q k q_row_stride k_row_stride r h num_q_heads head_dim).
Notation half_dim := (Z.shiftr head_dim 1).
Notation angles r d := (cos_sin (f_of_int (positions r)) (freq d)).

(** No two elements of the rows' heads share an address. *)
Definition heads_disjoint : Prop := ∀ r h i r' h' i',
  0 <= r < rows → 0 <= h < total_heads → 0 <= i < head_dim → 0 <= r' < rows → 0 <= h' < total_heads → 0 <= i' < head_dim →
  base r h + i = base r' h' + i' → r = r' ∧ h = h' ∧ i = i'.

Context (Heven : head_dim = 2 * half_dim) (Hinj : heads_disjoint).
Context {X : Type} (item : X → list (Z * (mem → half))) (l : list X) (pair_of : X → option (Z * Z * Z)).
Context (Hl : NoDup l).
Context (Hitem : ∀ y, y ∈ l → item y = match pair_of y with
  | Some (r, h, d) => RotatePair (base r h) d half_dim (angles r d).1 (angles r d).2
  | None => [] end).
Context (Hone : ∀ y z t, y ∈ l → z ∈ l → pair_of y = Some t → pair_of z = Some t → y = z).
Context (Hrange : ∀ y r h d, y ∈ l → pair_of y = Some (r, h, d) → 0 <= r < rows ∧ 0 <= h < total_heads ∧ 0 <= d < half_dim).
Context (Hall : ∀ r h d, 0 <= r < rows → 0 <= h < total_heads → 0 <= d < half_dim → ∃ y, y ∈ l ∧ pair_of y = Some (r, h, d)).

Lemma rot_key y a : y ∈ l → a ∈ (item y).*1 → ∃ r h d i, pair_of y = Some (r, h, d) ∧ a = base r h + i ∧
  (i = d ∨ i = d + half_dim) ∧ 0 <= r < rows ∧ 0 <= h < total_heads ∧ 0 <= d < half_dim ∧ 0 <= i < head_dim.
Proof using Hitem Hrange Heven.
  intros Hy Ha. rewrite Hitem in Ha by done. destruct (pair_of y) as [[[r h] d]|] eqn:Hp; [|by apply not_elem_of_nil in Ha].
  destruct (Hrange y r h d Hy Hp) as (Hr & Hh & Hd). cbn in Ha.
  apply elem_of_cons in Ha as [->|[->|[]%not_elem_of_nil]%elem_of_cons];
    [exists r, h, d, d|exists r, h, d, (d + half_dim)]; split_and!; auto; lia.
Qed.

Lemma rot_separate : separate item l.
Proof using Hitem Hrange Heven Hinj Hone.
  assert (∀ y z a, y ∈ l → z ∈ l → a ∈ (item y).*1 → a ∈ (item z).*1 → y = z) as Hw.
  { intros y z a Hy Hz (r & h & d & i & Hp & -> & Hi & ? & ? & ? & ?)%rot_key (r' & h' & d' & i' & Hp' & He & Hi' & ? & ? & ? & ?)%rot_key; [|done..].
    apply Hinj in He as (-> & -> & ->); [|lia..]. assert (d = d') as -> by lia. eauto. }
  split; [|done|].
  - intros y Hy. rewrite Hitem by done. destruct (pair_of y) as [[[r h] d]|] eqn:Hp; [|constructor].
    destruct (Hrange y r h d Hy Hp) as (_ & _ & Hd). cbn. apply NoDup_cons. split; [|apply NoDup_singleton].
    intros Hin%list_elem_of_singleton. lia.
  - intros y p m1 m2 Hy Hp Heq.
    assert (∀ a, a ∈ (item y).*1 → m1 a = m2 a) as Hsame by (intros a Ha; apply Heq; intros z Hz Haz; eauto).
    rewrite Hitem in Hp, Hsame by done. destruct (pair_of y) as [[[r h] d]|]; [|by apply not_elem_of_nil in Hp].
    cbn in Hsame. pose proof (Hsame (base r h + d) ltac:(apply list_elem_of_here)) as H1.
    pose proof (Hsame (base r h + (d + half_dim)) ltac:(apply list_elem_of_further, list_elem_of_here)) as H2.
    apply elem_of_cons in Hp as [->|[->|[]%not_elem_of_nil]%elem_of_cons]; cbn; by rewrite H1, H2.
Qed.

Lemma rot_result m r h d : 0 <= r < rows → 0 <= h < total_heads → 0 <= d < half_dim →
  let m' := run_items item l m in
  (m' (base r h + d), m' (base r h + (d + half_dim))) =
  rotated (angles r d) (m (base r h + d)) (m (base r h + (d + half_dim))).
Proof using Hl Hitem Hrange Heven Hinj Hone Hall.
  intros Hr Hh Hd. destruct (Hall r h d Hr Hh Hd) as (y & Hy & Hp). cbn. pose proof (Hitem y Hy) as Hit. rewrite Hp in Hit.
  pose proof (λ p, run_items_spec item l m Hl rot_separate y p Hy) as Hs. rewrite Hit in Hs. unfold rotated. f_equal.
  - exact (Hs _ (list_elem_of_here _ _)).
  - exact (Hs _ (list_elem_of_further _ _ _ (list_elem_of_here _ _))).
Qed.

Lemma rot_frame m a :
  (∀ r h i, 0 <= r < rows → 0 <= h < total_heads → 0 <= i < head_dim → a ≠ base r h + i) → run_items item l m a = m a.
Proof using Hitem Hrange Heven.
  intros Ha. apply run_items_frame. intros y Hy (r & h & d & i & _ & -> & _ & ? & ? & _ & ?)%rot_key; [|done]. by apply (Ha r h i).
Qed.

End rotation.

(** ** The grids *)

Lemma elem_of_grid_threads gx gy n x y t :
  (x, y, t) ∈ grid_threads gx gy n ↔ 0 <= x < gx ∧ 0 <= y < gy ∧ 0 <= t < n.
Proof.
  unfold grid_threads. rewrite elem_of_concat_map. split.
  - intros (x' & Hx%elem_of_seqZ & (y' & Hy%elem_of_seqZ & (t' & [= -> -> ->] & Ht%elem_of_seqZ)%list_elem_of_fmap)%elem_of_concat_map). lia.
  - intros (Hx & Hy & Ht). exists x. split; [apply elem_of_seqZ; lia|]. apply elem_of_concat_map. exists y.
    split; [apply elem_of_seqZ; lia|]. apply list_elem_of_fmap. exists t. split; [done|apply elem_of_seqZ; lia].
Qed.

Lemma NoDup_grid_threads gx gy n : NoDup (grid_threads gx gy n).
Proof.
  apply NoDup_concat_keyed; [apply NoDup_seqZ| |].
  - intros x _. apply NoDup_concat_keyed; [apply NoDup_seqZ| |].
    + intros y _. apply NoDup_fmap_2; [by intros ?? [=]|apply NoDup_seqZ].
    + by intros y y' ? _ _ (t & -> & _)%list_elem_of_fmap (t' & [= -> ->] & _)%list_elem_of_fmap.
  - by intros x x' ? _ _ (y & _ & (t & -> & _)%list_elem_of_fmap)%elem_of_concat_map (y' & _ & (t' & [= -> -> ->] & _)%list_elem_of_fmap)%elem_of_concat_map.
Qed.

(** The pair a thread of the shared mapping serves. *)
Definition shared_pair (total_heads half_dim : Z) (t : Z * Z * Z) : option (Z * Z * Z) :=
  let '(row, group, tid) := t in
  let head := group * kHeadsPerBlockSm80 + Z.quot tid half_dim in
  if total_heads <=? head then None else Some (row, head, Z.rem tid half_dim).

Lemma shared_pair_inv total half_dim row group tid t : 0 < half_dim → 0 <= tid < kHeadsPerBlockSm80 * half_dim →
  shared_pair total half_dim (row, group, tid) = Some t →
  ∃ j d, 0 <= j < kHeadsPerBlockSm80 ∧ 0 <= d < half_dim ∧ tid = j * half_dim + d ∧ group * kHeadsPerBlockSm80 + j < total ∧
    t = (row, group * kHeadsPerBlockSm80 + j, d).
Proof.
  intros Hp Ht. unfold shared_pair. destruct (Z.leb_spec total (group * kHeadsPerBlockSm80 + Z.quot tid half_dim)); [done|].
  intros [= <-]. rewrite Z.quot_div_nonneg, Z.rem_mod_nonneg in * by lia.
  exists (tid / half_dim), (tid mod half_dim). pose proof (Z.div_mod tid half_dim ltac:(lia)). pose proof (Z.mod_pos_bound tid half_dim Hp).
  split_and!; try lia; [apply Z.div_pos; lia|apply Z.div_lt_upper_bound; lia|done].
Qed.

Section mappings.
Context (q k q_row_stride k_row_stride : Z) (positions : Z → Z) (rows num_q_heads total_heads head_dim : Z) (freq : Z → F).
Context (order : list (Z * Z * Z) → list (Z * Z * Z)) (Horder : ∀ l, order l ≡ₚ l).
Notation half_dim := (Z.shiftr head_dim 1).
Notation base r h := (HeadBase q k q_row_stride k_row_stride r h num_q_heads head_dim).
Context (Hhd : 0 < half_dim) (Heven : head_dim = 2 * half_dim) (Htotal : 0 < total_heads).
Context (Hinj : heads_disjoint q k q_row_stride k_row_stride rows num_q_heads total_heads head_dim).

(** What a mapping must leave. *)
Definition rotates (m m' : mem) : Prop :=
  (∀ r h d, 0 <= r < rows → 0 <= h < total_heads → 0 <= d < half_dim →
    (m' (base r h + d), m' (base r h + (d + half_dim))) =
    rotated (cos_sin (f_of_int (positions r)) (freq d)) (m (base r h + d)) (m (base r h + (d + half_dim)))) ∧
  ∀ a, (∀ r h i, 0 <= r < rows → 0 <= h < total_heads → 0 <= i < head_dim → a ≠ base r h + i) → m' a = m a.

Lemma per_head_rotates m :
  rotates m (run_items (RopeInplaceKernel q k q_row_stride k_row_stride positions num_q_heads head_dim freq)
    (order (grid_threads rows total_heads half_dim)) m).
Proof using Horder Heven Hinj.
  set (item := RopeInplaceKernel _ _ _ _ _ _ _ _). set (l := order _).
  assert (NoDup l) as Hnd by (unfold l; rewrite Horder; apply NoDup_grid_threads).
  assert (∀ r h d, (r, h, d) ∈ l ↔ 0 <= r < rows ∧ 0 <= h < total_heads ∧ 0 <= d < half_dim) as Hel
    by (intros; unfold l; rewrite Horder; apply elem_of_grid_threads).
  assert (∀ y, y ∈ l → item y = match Some y with
    | Some (r, h, d) => RotatePair (base r h) d half_dim (cos_sin (f_of_int (positions r)) (freq d)).1 (cos_sin (f_of_int (positions r)) (freq d)).2
    | None => [] end) as Hit by (by intros [[r h] d] _).
  split.
  - intros r h d. apply (rot_result q k q_row_stride k_row_stride positions rows num_q_heads total_heads head_dim freq Heven Hinj item l Some Hnd Hit).
    + by intros y z t _ _ [= ->] [= ->].
    + intros y r' h' d' Hy [= ->]. by apply Hel.
    + intros r' h' d' ? ? ?. exists (r', h', d'). by rewrite Hel.
  - intros a. apply (rot_frame q k q_row_stride k_row_stride positions rows num_q_heads total_heads head_dim freq Heven item l Some Hit).
    intros y r' h' d' Hy [= ->]. by apply Hel.
Qed.

Lemma rot_table_at garbage row d : 0 <= d < half_dim →
  rot_table positions head_dim freq row (kHeadsPerBlockSm80 * half_dim) garbage d = cos_sin (f_of_int (positions row)) (freq d).
Proof using Hhd.
  intros Hd. unfold rot_table. apply writes_nodup.
  - rewrite <- list_fmap_compose. apply NoDup_fmap_2_strong; [by intros ?? _ _|]. apply NoDup_filter, NoDup_seqZ.
  - apply list_elem_of_fmap. exists d. split; [done|]. apply list_elem_of_filter. split; [lia|]. apply elem_of_seqZ.
    unfold kHeadsPerBlockSm80. lia.
Qed.

Lemma shared_rotates garbage m :
  rotates m (run_items (RopeInplaceSharedKernel q k q_row_stride k_row_stride positions num_q_heads total_heads head_dim freq garbage)
    (order (grid_threads rows (Z.quot (total_heads + kHeadsPerBlockSm80 - 1) kHeadsPerBlockSm80) (kHeadsPerBlockSm80 * half_dim))) m).
Proof using Horder Heven Hinj Hhd Htotal.
  set (item := RopeInplaceSharedKernel _ _ _ _ _ _ _ _ _ _). set (groups := Z.quot _ _). set (l := order _).
  assert (groups * kHeadsPerBlockSm80 >= total_heads) as Hg.
  { unfold groups, kHeadsPerBlockSm80. rewrite Z.quot_div_nonneg by lia. Z.div_mod_to_equations. lia. }
  assert (NoDup l) as Hnd by (unfold l; rewrite Horder; apply NoDup_grid_threads).
  assert (∀ r g t, (r, g, t) ∈ l ↔ 0 <= r < rows ∧ 0 <= g < groups ∧ 0 <= t < kHeadsPerBlockSm80 * half_dim) as Hel
    by (intros; unfold l; rewrite Horder; apply elem_of_grid_threads).
  set (pr := shared_pair total_heads half_dim).
  assert (∀ y, y ∈ l → item y = match pr y with
    | Some (r, h, d) => RotatePair (base r h) d half_dim (cos_sin (f_of_int (positions r)) (freq d)).1 (cos_sin (f_of_int (positions r)) (freq d)).2
    | None => [] end) as Hit.
  { intros [[r g] t] (Hr & Hg' & Ht)%Hel. unfold item, pr, RopeInplaceSharedKernel, shared_pair.
    destruct (total_heads <=? _); [done|]. rewrite rot_table_at; [done|]. apply Z.rem_bound_pos; lia. }
  assert (∀ y r h d, y ∈ l → pr y = Some (r, h, d) → 0 <= r < rows ∧ 0 <= h < total_heads ∧ 0 <= d < half_dim) as Hrange.
  { intros [[r g] t] r' h d (Hr & Hg' & Ht)%Hel (j & d' & Hj & Hd & -> & Hlt & [= -> -> ->])%shared_pair_inv; [|done..].
    unfold kHeadsPerBlockSm80 in *. lia. }
  split.
  - intros r h d. apply (rot_result q k q_row_stride k_row_stride positions rows num_q_heads total_heads head_dim freq Heven Hinj item l pr Hnd Hit); [|done|].
    + intros [[r1 g1] t1] [[r2 g2] t2] u (_ & _ & Ht1)%Hel (_ & _ & Ht2)%Hel
        (j1 & d1 & Hj1 & _ & -> & _ & ->)%shared_pair_inv (j2 & d2 & Hj2 & _ & -> & _ & [= -> He ->])%shared_pair_inv; [|done..].
      unfold kHeadsPerBlockSm80 in *. assert (g1 = g2 ∧ j1 = j2) as [-> ->] by lia. done.
    + intros r' h' d' Hr Hh Hd. pose proof (Z.div_mod h' kHeadsPerBlockSm80 ltac:(done)) as Hdm.
      pose proof (Z.mod_pos_bound h' kHeadsPerBlockSm80 ltac:(done)) as Hm. set (j := h' mod kHeadsPerBlockSm80) in *.
      exists (r', h' / kHeadsPerBlockSm80, j * half_dim + d'). split.
      * apply Hel. split; [done|]. split; [split; [apply Z.div_pos; [lia|done]|unfold kHeadsPerBlockSm80 in *; lia]|nia].
      * unfold pr, shared_pair. rewrite Z.quot_div_nonneg, Z.rem_mod_nonneg by nia.
        rewrite <- (Z.div_unique (j * half_dim + d') half_dim j d'), <- (Z.mod_unique (j * half_dim + d') half_dim j d') by lia.
        destruct (Z.leb_spec total_heads (h' / kHeadsPerBlockSm80 * kHeadsPerBlockSm80 + j)); [lia|]. repeat f_equal. lia.
  - intros a. by apply (rot_frame q k q_row_stride k_row_stride positions rows num_q_heads total_heads head_dim freq Heven item l pr Hit).
Qed.

End mappings.

(** The executor's call: Q and K are views into the fused QKV rows. *)
Lemma qkv_heads_disjoint q stride rows num_q_heads num_kv_heads head_dim :
  0 <= num_q_heads → 0 <= num_kv_heads → 0 < head_dim → (num_q_heads + num_kv_heads) * head_dim <= stride →
  heads_disjoint q (q + num_q_heads * head_dim) stride stride rows num_q_heads (num_q_heads + num_kv_heads) head_dim.
Proof.
  intros Hq Hk Hd Hs r h i r' h' i' Hr Hh Hi Hr' Hh' Hi' Heq.
  assert (∀ r h, HeadBase q (q + num_q_heads * head_dim) stride stride r h num_q_heads head_dim = q + r * stride + h * head_dim) as Hb.
  { intros r0 h0. unfold HeadBase. destruct (Z.ltb_spec h0 num_q_heads); lia. }
  rewrite !Hb in Heq.
  assert (r = r' ∧ h * head_dim + i = h' * head_dim + i') as [-> He] by (apply (radix stride); nia).
  by apply (radix head_dim) in He as [-> ->]; [|lia..].
Qed.

(** Outside the contract, or when the table cannot be uploaded, a release build
    launches nothing. *)
Lemma rope_launches_nothing rt major garbage order q k qs ks positions rows nq nkv head_dim theta m st :
  rows <= 0 ∨ nq + nkv <= 0 ∨ nq < 0 ∨ nkv < 0 ∨ head_dim <= 0 ∨ Z.rem head_dim 2 ≠ 0 ∨ kMaxRotaryPairs < Z.quot head_dim 2 ∨
    fleb theta f_zero = true ∨ (EnsureInvFreqTable rt theta head_dim st).1 = false →
  ∃ st', LaunchRopeInplace true rt major garbage order q k qs ks positions rows nq nkv head_dim theta (m, st) = Some (m, st') ∧
    (st' = st ∨ st' = (EnsureInvFreqTable rt theta head_dim st).2).
Proof.
  intros Hout. unfold LaunchRopeInplace. cbn [negb andb].
  destruct (Z.leb_spec rows 0), (Z.leb_spec (nq + nkv) 0); cbn [orb]; try (by exists st; split; [|left]).
  destruct (_ || fleb theta f_zero) eqn:Hc; [by exists st; split; [|left]|].
  rewrite !orb_false_iff, negb_false_iff, Z.eqb_eq, !Z.ltb_ge, Z.leb_gt in Hc.
  destruct (EnsureInvFreqTable rt theta head_dim st) as [ok st'] eqn:He. cbn in *.
  assert (ok = false) as -> by (destruct Hc as [[[[[? ?] ?] ?] ?] ?]; destruct ok; [|done]; exfalso; intuition (congruence || lia)).
  exists st'. split; [done|by right].
Qed.

(** A launch inside the contract, with the cache it leaves. *)
Lemma rope_launch NDEBUG rt major garbage order q k qs ks positions rows nq nkv head_dim theta (m : mem) st :
  CompareLaws → (∀ l, order l ≡ₚ l) → cache_ok st → sync_ok rt = true → copy_ok rt = true →
  0 < rows → 0 <= nq → 0 <= nkv → 0 < nq + nkv → 0 < head_dim <= 128 → Z.rem head_dim 2 = 0 →
  fltb f_zero theta = true → fleb theta f_zero = false →
  heads_disjoint q k qs ks rows nq (nq + nkv) head_dim →
  ∃ m' st', LaunchRopeInplace NDEBUG rt major garbage order q k qs ks positions rows nq nkv head_dim theta (m, st) = Some (m', st') ∧
    cache_ok st' ∧ rotates q k qs ks positions rows nq (nq + nkv) head_dim (inv_freq theta head_dim) m m'.
Proof.
  intros HL Ho Hc Hsync Hcopy Hrows Hnq Hnkv Htot [Hd Hd'] Heven Hpos Hz Hinj.
  pose proof (Z.quot_rem' head_dim 2) as Hq. rewrite Heven in Hq.
  assert (Z.shiftr head_dim 1 = Z.quot head_dim 2) as Hsh by (rewrite Z.shiftr_div_pow2, Z.quot_div_nonneg by lia; done).
  unfold LaunchRopeInplace. destruct (Z.leb_spec rows 0), (Z.leb_spec (nq + nkv) 0); try lia. cbn [orb].
  rewrite Heven, Hpos, Hz. unfold kMaxRotaryPairs.
  destruct (Z.leb_spec 0 nq), (Z.ltb_spec nq 0), (Z.leb_spec 0 nkv), (Z.ltb_spec nkv 0), (Z.ltb_spec 0 head_dim), (Z.leb_spec head_dim 0),
    (Z.leb_spec (Z.quot head_dim 2) 64), (Z.ltb_spec 64 (Z.quot head_dim 2)); try lia. cbn [andb orb negb Z.eqb]. rewrite andb_false_r.
  destruct (EnsureInvFreqTable rt theta head_dim st) as [ok st'] eqn:He.
  assert (ok = true) as ->.
  { unfold EnsureInvFreqTable in He. rewrite Hsync, Hcopy in He. by destruct (_ && _); injection He as <- _. }
  assert (cache_ok st') as Hc'.
  { replace st' with (EnsureInvFreqTable rt theta head_dim st).2 by by rewrite He. unfold EnsureInvFreqTable.
    rewrite Hsync, Hcopy. destruct (_ && _); [done|]. cbn. intros _ d Hdr. cbn in *. rewrite fill_spec.
    destruct (Z.leb_spec 0 d), (Z.ltb_spec d (Z.quot head_dim 2)); try lia. cbn. f_equal. lia. }
  assert (∀ m', rotates q k qs ks positions rows nq (nq + nkv) head_dim (g_inv_freq st') m m' →
    rotates q k qs ks positions rows nq (nq + nkv) head_dim (inv_freq theta head_dim) m m') as Hfreq.
  { intros m' [Hp Hf]. split; [|done]. intros r h d Hr Hh Hdd. rewrite Hp by done.
    by rewrite (ensure_table rt theta head_dim st st' d HL Heven Hz Hc He) by lia. }
  cbn [negb]. rewrite <- Hsh. destruct (8 <=? major); cbn [andb]; eexists _, st'; (split; [done|]; split; [done|]); apply Hfreq.
  - apply shared_rotates; (done || lia).
  - apply per_head_rotates; (done || lia).
Qed.

(** C39. A launch inside the contract rotates every pair of every Q and K head
    exactly once, from the values before the launch, with the angle
    position x theta^(-2d/head_dim), and touches nothing else; the mapping, the
    order of the threads, the contents of shared memory and the launches that
    filled the table before do not show. *)
Theorem rope_rotates_each_pair_once NDEBUG rt major garbage order q k qs ks positions rows nq nkv head_dim theta (m : mem) st :
  CompareLaws → (∀ l, order l ≡ₚ l) → cache_ok st → sync_ok rt = true → copy_ok rt = true →
  0 < rows → 0 <= nq → 0 <= nkv → 0 < nq + nkv → 0 < head_dim <= 128 → Z.rem head_dim 2 = 0 →
  fltb f_zero theta = true → fleb theta f_zero = false →
  heads_disjoint q k qs ks rows nq (nq + nkv) head_dim →
  ∃ m' st', LaunchRopeInplace NDEBUG rt major garbage order q k qs ks positions rows nq nkv head_dim theta (m, st) = Some (m', st') ∧
    cache_ok st' ∧ rotates q k qs ks positions rows nq (nq + nkv) head_dim (inv_freq theta head_dim) m m'.
Proof. apply rope_launch. Qed.

End kernel.
Arguments InvFreqCacheState : clear implicits.
Arguments upload_answer : clear implicits.

(** ** IEEE arithmetic *)

Section ieee.
Context (expf_lib rsqrtf_lib : float32 → float32) (pow_lib : float32 → float32 → float32)
  (sincosf_lib : float32 → float32 * float32).
Local Instance device : FloatOps float32 Z := ieee expf_lib rsqrtf_lib pow_lib sincosf_lib.

Lemma ieee_compare_laws : CompareLaws (F := float32) (half := Z).
Proof.
  split; [done|]. intros x y Heq Hz. cbn in *. unfold SFeqb, SFleb in *.
  destruct x as [s|s| |s m e], y as [s'|s'| |s' m' e']; try done; cbn in *; try (destruct s, s'; done); try (destruct s'; done).
  destruct s, s'; try done; destruct (Z.compare_spec e e') as [->| |]; try done.
  change (Pos.compare_cont Eq m m') with (Pos.compare m m') in Heq. destruct (Pos.compare_spec m m'); congruence.
Qed.

(** A row at position 0 has angle 0, but is not passed through bit for bit: a
    first-half element that holds minus zero comes back as plus zero when its
    partner is negative, and an infinity makes its partner a NaN. *)
Lemma position_0_changes_bits :
  sincosf_lib (S754_zero false) = (S754_zero false, f_one) →
  rotated (cos_sin (f_of_int 0) f_one) 0x8000 0xBC00 = (0x0000, 0xBC00) ∧
  (rotated (cos_sin (f_of_int 0) f_one) 0x3C00 0x7C00).1 = 0x7FFF.
Proof.
  intros Hs. assert (sincosf (F := float32) (fmul (f_of_int 0) f_one) = (S754_zero false, f_one)) as Ha by exact Hs.
  unfold cos_sin. cbv zeta. rewrite Ha. by vm_compute.
Qed.

End ieee.

(** Arithmetic for the witness: a Q head and a K head of two elements on one row,
    constant memory and shared memory holding garbage. *)
Definition example_device : FloatOps float32 Z :=
  ieee (λ x, x) (λ x, x) (λ x _, x) (λ _, (S754_zero false, binary_normalize 24 128 1 0 false)).

Lemma rope_rotates_each_pair_once_witness :
  let theta := binary_normalize 24 128 10000 0 false in
  ∃ m' st', LaunchRopeInplace (H := example_device) false (mkUpload true true (λ g, g)) 8 (λ _, (theta, theta)) (λ l, l) 0 2 4 4 (λ r, r + 5)
      1 1 1 2 theta (λ a, a, InvFreqCacheState_new (H := example_device) (λ _, theta)) = Some (m', st') ∧
    cache_ok (H := example_device) st' ∧
    rotates (H := example_device) 0 2 4 4 (λ r, r + 5) 1 1 2 2 (inv_freq (H := example_device) theta 2) (λ a, a) m'.
Proof.
  apply (rope_rotates_each_pair_once (H := example_device)); try done.
  - apply (ieee_compare_laws (λ x, x) (λ x, x) (λ x _, x) (λ _, (S754_zero false, binary_normalize 24 128 1 0 false))).
  - apply (qkv_heads_disjoint 0 4 1 1 1 2); lia.
Defined.
