(* ===== verification/Reduce.v ===== *)
(** * Reduction trees

    The fixed trees the kernels reduce with - a lane-xor butterfly, a lane
    shift tree, a shared-memory halving tree and the strided partials of a
    thread block - as functions of the lanes' values, and the theorem behind
    all of them: when the operation is that of a commutative monoid, each
    computes the sum over the lanes.  On [float] the trees are what the code
    computes; on exact arithmetic they are sums. *)

From S2P Require Import Prelude KvPool DeviceMath.

(** ** The trees *)

Section trees.
Context {A : Type} (op : A → A → A).

(** [v = op(v, __shfl_xor_sync(mask, v, offset))] for each offset. *)
Definition xor_tree (offsets : list Z) (f : Z → A) : Z → A :=
  foldl (λ v offset lane, op (v lane) (v (Z.lxor lane offset))) f offsets.

(** [v = op(v, __shfl_down_sync(mask, v, offset))]: a lane past the end of its
    warp receives its own value. *)
Definition down_tree (offsets : list Z) (f : Z → A) : Z → A :=
  foldl (λ v offset lane, op (v lane) (v (if lane mod 32 + offset <? 32 then lane + offset else lane))) f offsets.

(** One round of the shared-memory tree: threads below [offset] collapse. *)
Definition halving_tree (offsets : list Z) (f : Z → A) : Z → A :=
  foldl (λ v offset tid, if tid <? offset then op (v tid) (v (tid + offset)) else v tid) f offsets.

End trees.

(** The shift tree at the first lane of an aligned group of eight. *)
Lemma down_tree_8 {A} (op : A → A → A) f lane : 0 <= lane → lane mod 8 = 0 →
  let g x := f (lane + x) in
  down_tree op [4; 2; 1] f lane = op (op (op (g 0) (g 4)) (op (g 2) (g 6))) (op (op (g 1) (g 5)) (op (g 3) (g 7))).
Proof.
  intros Hl H8 g. assert (0 <= lane mod 32 <= 24) as Hm by (Z.div_mod_to_equations; lia).
  set (round (v : Z → A) o := λ l, op (v l) (v (if l mod 32 + o <? 32 then l + o else l))).
  assert (∀ v x o, 0 <= x → x + o < 8 → 0 < o → round v o (lane + x) = op (v (lane + x)) (v (lane + (x + o)))) as Hn.
  { intros v x o ? ? ?. unfold round. assert ((lane + x) mod 32 = lane mod 32 + x) as -> by (Z.div_mod_to_equations; lia).
    destruct (Z.ltb_spec (lane mod 32 + x + o) 32); [by rewrite Z.add_assoc|lia]. }
  change (down_tree op [4; 2; 1] f lane) with (round (round (round f 4) 2) 1 lane).
  replace (round (round (round f 4) 2) 1 lane) with (round (round (round f 4) 2) 1 (lane + 0)) by (f_equal; lia).
  by rewrite !Hn by lia.
Qed.

(** The butterfly stays inside an aligned group. *)
Lemma lxor_group k b x o : 0 <= k → 0 <= b → 0 <= x < 2 ^ k → 0 <= o < 2 ^ k →
  Z.lxor (b * 2 ^ k + x) o = b * 2 ^ k + Z.lxor x o ∧ 0 <= Z.lxor x o < 2 ^ k.
Proof.
  intros Hk Hb Hx Ho.
  assert (∀ y, 0 <= y < 2 ^ k → b * 2 ^ k + y = Z.lxor (b * 2 ^ k) y) as Hadd.
  { intros y Hy. rewrite <- Z.shiftl_mul_pow2 by done. apply Z.add_nocarry_lxor. apply Z.bits_inj'. intros i Hi.
    rewrite Z.land_spec, Z.bits_0, Z.shiftl_spec by done. destruct (Z.lt_ge_cases i k).
    - by rewrite Z.testbit_neg_r by lia.
    - rewrite <- (Z.mod_small y (2 ^ k)), Z.mod_pow2_bits_high, andb_false_r by lia. done. }
  assert (0 <= Z.lxor x o < 2 ^ k) as Hxo.
  { assert (0 <= Z.lxor x o) as Hn by (apply Z.lxor_nonneg; lia). split; [done|].
    assert (Z.lxor x o / 2 ^ k = 0) as Hz.
    { rewrite <- Z.shiftr_div_pow2, Z.shiftr_lxor, !Z.shiftr_div_pow2, !Z.div_small by lia. done. }
    pose proof (Z.div_mod (Z.lxor x o) (2 ^ k) ltac:(lia)). pose proof (Z.mod_pos_bound (Z.lxor x o) (2 ^ k) ltac:(lia)). lia. }
  split; [|done]. rewrite (Hadd x Hx), (Hadd _ Hxo). apply Z.lxor_assoc.
Qed.

Lemma xor_tree_group {A} (op : A → A → A) k offsets b : 0 <= k → 0 <= b → Forall (λ o, 0 <= o < 2 ^ k) offsets → ∀ f g lane,
  0 <= lane < 2 ^ k → (∀ x, 0 <= x < 2 ^ k → f (b * 2 ^ k + x) = g x) →
  xor_tree op offsets f (b * 2 ^ k + lane) = xor_tree op offsets g lane.
Proof.
  intros Hk Hb. induction 1 as [|o os Ho _ IH]; intros f g lane Hl Hfg; [by apply Hfg|].
  apply (IH (λ l, op (f l) (f (Z.lxor l o))) (λ l, op (g l) (g (Z.lxor l o)))); [done|].
  intros x Hx. destruct (lxor_group k b x o Hk Hb Hx Ho) as [-> Hr]. by rewrite !Hfg.
Qed.

(** ** Sums in a commutative monoid *)

Record CommMonoid {A : Type} (op : A → A → A) (e : A) : Prop := {
  cm_assoc x y z : op x (op y z) = op (op x y) z;
  cm_comm x y : op x y = op y x;
  cm_id x : op e x = x;
}.

Section monoid.
Context {A : Type} (op : A → A → A) (e : A) (Hop : CommMonoid op e).

Definition big (l : list A) : A := foldr op e l.

Lemma big_nil : big [] = e.
Proof using Type. done. Qed.

Lemma big_cons x l : big (x :: l) = op x (big l).
Proof using Type. done. Qed.

#[local] Opaque big.

Lemma op_id_r x : op x e = x.
Proof using Hop. rewrite (cm_comm _ _ Hop). apply (cm_id _ _ Hop). Qed.

Lemma big_app l k : big (l ++ k) = op (big l) (big k).
Proof using Hop.
  induction l as [|x l IH]; cbn; [by rewrite big_nil, (cm_id _ _ Hop)|]. by rewrite !big_cons, IH, (cm_assoc _ _ Hop).
Qed.

Lemma big_perm l k : l ≡ₚ k → big l = big k.
Proof using Hop.
  induction 1 as [|x l k _ IH|x y l|l k j _ IH1 _ IH2]; rewrite ?big_cons; [done|by rewrite IH| |congruence].
  by rewrite !(cm_assoc _ _ Hop), (cm_comm _ _ Hop y x).
Qed.

Lemma big_op {X} (f g : X → A) l : big (map (λ x, op (f x) (g x)) l) = op (big (map f l)) (big (map g l)).
Proof using Hop.
  induction l as [|x l IH]; cbn; [by rewrite !big_nil, (cm_id _ _ Hop)|]. rewrite !big_cons, IH, !(cm_assoc _ _ Hop). f_equal.
  by rewrite <- !(cm_assoc _ _ Hop), (cm_comm _ _ Hop (g x)).
Qed.

Lemma big_concat {X Y} (f : Y → A) (g : X → list Y) l :
  big (map (λ x, big (map f (g x))) l) = big (map f (concat (map g l))).
Proof using Hop.
  induction l as [|x l IH]; cbn; [done|]. by rewrite big_cons, IH, map_app, big_app.
Qed.

Lemma foldl_big {X} (f : X → A) l : ∀ x, foldl (λ s y, op s (f y)) x l = op x (big (map f l)).
Proof using Hop.
  induction l as [|y l IH]; intros x; cbn; [by rewrite big_nil, op_id_r|]. by rewrite IH, big_cons, <- (cm_assoc _ _ Hop).
Qed.

Lemma big_ext {X} (f g : X → A) l : (∀ x, x ∈ l → f x = g x) → big (map f l) = big (map g l).
Proof using Type.
  intros Hfg. induction l as [|x l IH]; cbn; [done|]. rewrite !big_cons, Hfg by apply list_elem_of_here. f_equal. apply IH.
  intros y Hy. by apply Hfg, list_elem_of_further.
Qed.

(** *** The butterfly *)

Fixpoint spread (offsets : list Z) : list Z :=
  match offsets with [] => [0] | o :: os => spread os ++ map (λ x, Z.lxor x o) (spread os) end.

Lemma xor_tree_spread offsets : ∀ f lane, xor_tree op offsets f lane = big (map (λ x, f (Z.lxor lane x)) (spread offsets)).
Proof using Hop.
  induction offsets as [|o os IH]; intros f lane.
  { cbn. by rewrite big_cons, big_nil, Z.lxor_0_r, op_id_r. }
  change (xor_tree op (o :: os) f lane) with (xor_tree op os (λ l, op (f l) (f (Z.lxor l o))) lane).
  rewrite IH, big_op. cbn [spread]. rewrite map_app, big_app, map_map. f_equal. apply big_ext.
  intros x _. by rewrite Z.lxor_assoc.
Qed.

(** The [2^k] lanes that share a lane's high bits. *)
Lemma xor_group k lane : 0 <= k → 0 <= lane →
  map (Z.lxor lane) (seqZ 0 (2 ^ k)) ≡ₚ map (λ x, lane / 2 ^ k * 2 ^ k + x) (seqZ 0 (2 ^ k)).
Proof using Type.
  intros Hk Hl. assert (0 < 2 ^ k) as Hp by lia.
  assert (∀ a b, Z.lxor a b / 2 ^ k = Z.lxor (a / 2 ^ k) (b / 2 ^ k)) as Hhi
    by (intros; rewrite <- !Z.shiftr_div_pow2 by lia; apply Z.shiftr_lxor).
  assert (∀ x, 0 <= x < 2 ^ k → Z.lxor lane x / 2 ^ k = lane / 2 ^ k) as Hsame
    by (intros x Hx; rewrite Hhi, (Z.div_small x), Z.lxor_0_r by lia; done).
  apply NoDup_Permutation.
  - apply NoDup_fmap_2_strong; [|apply NoDup_seqZ]. intros x y _ _ Heq.
    rewrite <- (Z.lxor_0_l x), <- (Z.lxor_0_l y), <- (Z.lxor_nilpotent lane), !Z.lxor_assoc. by f_equal.
  - apply NoDup_fmap_2_strong; [lia|apply NoDup_seqZ].
  - intros x. rewrite !list_elem_of_fmap. setoid_rewrite elem_of_seqZ. split.
    + intros (y & -> & Hy). exists (Z.lxor lane y mod 2 ^ k). pose proof (Z.mod_pos_bound (Z.lxor lane y) (2 ^ k) Hp).
      pose proof (Z.div_mod (Z.lxor lane y) (2 ^ k) ltac:(lia)) as Hd. rewrite Hsame in Hd by lia. split; [lia|lia].
    + intros (y & -> & Hy). set (b := lane / 2 ^ k * 2 ^ k). exists (Z.lxor lane (b + y)).
      rewrite <- Z.lxor_assoc, Z.lxor_nilpotent, Z.lxor_0_l. split; [done|].
      assert (Z.lxor lane (b + y) / 2 ^ k = 0) as H0.
      { rewrite Hhi. unfold b. rewrite Z.div_add_l, (Z.div_small y), Z.add_0_r, Z.lxor_nilpotent by lia. done. }
      pose proof (Z.div_mod (Z.lxor lane (b + y)) (2 ^ k) ltac:(lia)). pose proof (Z.mod_pos_bound (Z.lxor lane (b + y)) (2 ^ k) Hp). lia.
Qed.

(** The butterfly gives every lane the sum over its group. *)
Lemma xor_tree_sum k offsets f lane : 0 <= k → 0 <= lane → spread offsets ≡ₚ seqZ 0 (2 ^ k) →
  xor_tree op offsets f lane = big (map (λ x, f (lane / 2 ^ k * 2 ^ k + x)) (seqZ 0 (2 ^ k))).
Proof using Hop.
  intros Hk Hl Hs. rewrite xor_tree_spread. rewrite <- (map_map (Z.lxor lane) f), <- (map_map (λ x, lane / 2 ^ k * 2 ^ k + x) f).
  apply big_perm, Permutation_map. rewrite Hs. by apply xor_group.
Qed.

(** *** The halving tree *)

Fixpoint halves (k : nat) : list Z := match k with O => [] | S k => 2 ^ Z.of_nat k :: halves k end.

Lemma halving_sum k : ∀ f, halving_tree op (halves k) f 0 = big (map f (seqZ 0 (2 ^ Z.of_nat k))).
Proof using Hop.
  induction k as [|k IH]; intros f; [change (seqZ 0 (2 ^ Z.of_nat 0)) with [0]; cbn; by rewrite big_cons, big_nil, op_id_r|].
  change (halving_tree op (halves (S k)) f 0) with
    (halving_tree op (halves k) (λ tid, if tid <? 2 ^ Z.of_nat k then op (f tid) (f (tid + 2 ^ Z.of_nat k)) else f tid) 0).
  rewrite IH. rewrite (big_ext _ (λ x, op (f x) (f (x + 2 ^ Z.of_nat k)))).
  - rewrite big_op. replace (2 ^ Z.of_nat (S k)) with (2 ^ Z.of_nat k + 2 ^ Z.of_nat k) by (rewrite Nat2Z.inj_succ, Z.pow_succ_r; lia).
    rewrite seqZ_app, map_app, big_app by lia. f_equal. rewrite <- (map_map (λ x, x + 2 ^ Z.of_nat k) f). f_equal. f_equal.
    rewrite Z.add_0_l. change (map (λ x, x + 2 ^ Z.of_nat k)) with (fmap (M := list) (λ x, x + 2 ^ Z.of_nat k)).
    apply list_eq. intros i. rewrite list_lookup_fmap. destruct (decide (Z.of_nat i < 2 ^ Z.of_nat k)).
    + rewrite !lookup_seqZ_lt by lia. cbn. f_equal. lia.
    + rewrite !lookup_seqZ_ge by lia. done.
  - intros x Hx%elem_of_seqZ. by destruct (Z.ltb_spec x (2 ^ Z.of_nat k)); [|lia].
Qed.

(** *** The shift tree, at the first lane of an aligned group of eight *)

Lemma down_sum8 f lane : 0 <= lane → lane mod 8 = 0 →
  down_tree op [4; 2; 1] f lane = big (map (λ x, f (lane + x)) (seqZ 0 8)).
Proof using Hop.
  intros Hl H8. rewrite down_tree_8 by done. set (g x := f (lane + x)).
  change (seqZ 0 8) with [0; 1; 2; 3; 4; 5; 6; 7]. rewrite (big_perm _ (map g [0; 4; 2; 6; 1; 5; 3; 7])).
  - cbn [map]. rewrite !big_cons, big_nil, op_id_r, <- !(cm_assoc _ _ Hop). done.
  - apply Permutation_map. apply (bool_decide_unpack _). by vm_compute.
Qed.

End monoid.

(** Chunks of [u] tile a range. *)
Lemma chunks_perm u n : 0 < u → 0 <= n → concat (map (λ w, map (λ l, u * w + l) (seqZ 0 u)) (seqZ 0 n)) ≡ₚ seqZ 0 (n * u).
Proof.
  intros Hu Hn. apply NoDup_Permutation; [|apply NoDup_seqZ|].
  - apply NoDup_concat_keyed; [apply NoDup_seqZ| |].
    + intros w _. apply NoDup_fmap_2_strong; [lia|apply NoDup_seqZ].
    + intros w w' x _ _ (l & -> & Hl%elem_of_seqZ)%list_elem_of_fmap (l' & He & Hl'%elem_of_seqZ)%list_elem_of_fmap.
      assert (w = w' ∧ l = l') as [-> _] by (apply (radix u); lia). done.
  - intros x. rewrite elem_of_concat_map, elem_of_seqZ. split.
    + intros (w & Hw%elem_of_seqZ & (l & -> & Hl%elem_of_seqZ)%list_elem_of_fmap).
      assert (u * (w + 1) <= u * n) by (apply Z.mul_le_mono_nonneg_l; lia).
      assert (0 <= u * w) by (apply Z.mul_nonneg_nonneg; lia). lia.
    + intros Hx. exists (x / u). pose proof (Z.div_mod x u ltac:(lia)). pose proof (Z.mod_pos_bound x u Hu).
      split; [apply elem_of_seqZ; split; [apply Z.div_pos; lia|rewrite Z.add_0_l; apply Z.div_lt_upper_bound; lia]|].
      apply list_elem_of_fmap. exists (x mod u). split; [lia|apply elem_of_seqZ; lia].
Qed.

Lemma concat_map_perm {A B} (f : A → list B) l k : l ≡ₚ k → concat (map f l) ≡ₚ concat (map f k).
Proof.
  induction 1 as [|x l k _ IH|x y l|l k j _ IH1 _ IH2]; cbn; [done|by rewrite IH| |by etrans].
  rewrite !app_assoc. apply Permutation_app_tail, Permutation_app_comm.
Qed.

Lemma concat_concat_map {A B C} (f : A → list B) (g : B → list C) l :
  concat (map g (concat (map f l))) = concat (map (λ x, concat (map g (f x))) l).
Proof. induction l as [|x l IH]; cbn; [done|]. by rewrite map_app, concat_app, IH. Qed.

(** A tree is a function of the lanes from 0 on. *)
Lemma xor_tree_ext {A} (op : A → A → A) offsets : ∀ f g, Forall (λ o, 0 <= o) offsets → (∀ i, 0 <= i → f i = g i) →
  ∀ i, 0 <= i → xor_tree op offsets f i = xor_tree op offsets g i.
Proof.
  induction offsets as [|o os IH]; intros f g Ho Hfg i Hi; [by apply Hfg|]. apply Forall_cons in Ho as [Ho Hos].
  apply (IH (λ l, op (f l) (f (Z.lxor l o))) (λ l, op (g l) (g (Z.lxor l o)))); [done| |done].
  intros j Hj. rewrite !Hfg; [done| |done]. apply Z.lxor_nonneg. lia.
Qed.

Lemma halving_ext {A} (op : A → A → A) k : ∀ f g, (∀ i, 0 <= i → f i = g i) → ∀ i, 0 <= i → halving_tree op (halves k) f i = halving_tree op (halves k) g i.
Proof.
  induction k as [|k IH]; intros f' g' Hfg i Hi; [by apply Hfg|].
  apply (IH (λ tid, if tid <? 2 ^ Z.of_nat k then op (f' tid) (f' (tid + 2 ^ Z.of_nat k)) else f' tid)
            (λ tid, if tid <? 2 ^ Z.of_nat k then op (g' tid) (g' (tid + 2 ^ Z.of_nat k)) else g' tid)); [|done].
  intros j Hj. rewrite !Hfg by lia. done.
Qed.

Lemma spread_16 : spread [8; 4; 2; 1] ≡ₚ seqZ 0 (2 ^ 4).
Proof. apply (bool_decide_unpack _). by vm_compute. Qed.

Lemma spread_32 : spread [16; 8; 4; 2; 1] ≡ₚ seqZ 0 (2 ^ 5).
Proof. apply (bool_decide_unpack _). by vm_compute. Qed.
