(* ===== verification/RealMath.v ===== *)
(** * Exact arithmetic

    The instance of [FloatOps] on real numbers with a minus infinity: no
    rounding, the library functions those of analysis.  It is the yardstick for
    the reductions and for the online softmax, whose floating-point results
    depend on an order of summation.  [None] is minus infinity where the code
    uses one (an initial maximum, a masked score) and otherwise a value nothing
    is known about, such as the contents of an unused slot of the pool. *)

From Stdlib Require Import Reals Lra.
From S2P Require Import Prelude Doubles KvPool DeviceMath Reduce.

#[local] Open Scope R_scope.
#[local] Open Scope Z_scope.

Definition xreal : Type := option R.

Definition xlift (f : R → R → R) (a b : xreal) : xreal :=
  match a, b with Some x, Some y => Some (f x y) | _, _ => None end.
Definition xmax (a b : xreal) : xreal :=
  match a, b with Some x, Some y => Some (Rmax x y) | Some x, None => Some x | None, b => b end.
Definition xle (a b : xreal) : bool :=
  match a, b with None, _ => true | Some _, None => false | Some x, Some y => if Rle_dec x y then true else false end.

(** Exact arithmetic: halves are numbers, conversions the identity. *)
Definition real_ops : FloatOps xreal xreal := {|
  f_zero := Some 0%R;
  f_one := Some 1%R;
  f_neg_inf := None;
  f_lowest := Some (IZR (2 ^ 104 - 2 ^ 128));
  f_of_int z := Some (IZR z);
  fneg := option_map Ropp;
  fadd := xlift Rplus;
  fsub := xlift Rminus;
  fmul := xlift Rmult;
  fdiv := xlift Rdiv;
  fmaf a b c := xlift Rplus (xlift Rmult a b) c;
  fmaxf := xmax;
  feqb a b := xle a b && xle b a;
  fleb := xle;
  fltb a b := negb (xle b a);
  expf a := match a with Some x => Some (exp x) | None => Some 0%R end;
  rsqrtf := option_map (λ x, / sqrt x)%R;
  powf := xlift Rpower;
  sincosf a := (option_map sin a, option_map cos a);
  __half2float h := h;
  __float2half_rn x := x;
|}.

Lemma xadd_monoid : CommMonoid (fadd (FloatOps := real_ops)) (f_zero (FloatOps := real_ops)).
Proof.
  split; cbn.
  - intros [x|] [y|] [z|]; cbn; try done. f_equal. lra.
  - intros [x|] [y|]; cbn; try done. f_equal. lra.
  - intros [x|]; cbn; [f_equal; lra|done].
Qed.

Lemma xmax_monoid : CommMonoid (fmaxf (FloatOps := real_ops)) None.
Proof.
  split; cbn.
  - intros [x|] [y|] [z|]; cbn; try done. f_equal. unfold Rmax. repeat destruct (Rle_dec _ _); lra.
  - intros [x|] [y|]; cbn; try done. f_equal. unfold Rmax. repeat destruct (Rle_dec _ _); lra.
  - by intros [x|].
Qed.

(** ** Sums and maxima of real lists *)

Definition rsum (f : Z → R) (l : list Z) : R := big Rplus 0%R (map f l).

Lemma radd_monoid : CommMonoid Rplus 0%R.
Proof. split; intros; lra. Qed.

Lemma rsum_cons f x l : rsum f (x :: l) = (f x + rsum f l)%R.
Proof. done. Qed.

Lemma rsum_perm f l k : l ≡ₚ k → rsum f l = rsum f k.
Proof. intros Hp. by apply (big_perm _ _ radd_monoid), Permutation_map. Qed.

Lemma rsum_app f l k : rsum f (l ++ k) = (rsum f l + rsum f k)%R.
Proof. unfold rsum. by rewrite map_app, (big_app _ _ radd_monoid). Qed.

Lemma rsum_ext f g l : (∀ x, x ∈ l → f x = g x) → rsum f l = rsum g l.
Proof. apply big_ext. Qed.

Lemma rsum_scale f c l : rsum (λ x, f x * c)%R l = (rsum f l * c)%R.
Proof.
  induction l as [|x l IH]; [cbn; lra|]. rewrite !rsum_cons, IH. lra.
Qed.

Lemma rsum_zero l : rsum (λ _, 0%R) l = 0%R.
Proof. induction l as [|x l IH]; [done|]. rewrite rsum_cons, IH. lra. Qed.

Lemma rsum_plus f g l : rsum (λ x, f x + g x)%R l = (rsum f l + rsum g l)%R.
Proof. apply (big_op _ _ radd_monoid). Qed.

Lemma rsum_nonneg f l : (∀ x, (0 <= f x)%R) → (0 <= rsum f l)%R.
Proof. intros Hf. induction l as [|x l IH]; [cbn; lra|]. rewrite rsum_cons. specialize (Hf x). lra. Qed.

Lemma rsum_ge f x l : (∀ x, (0 <= f x)%R) → x ∈ l → (f x <= rsum f l)%R.
Proof.
  intros Hf. induction l as [|y l IH]; [by intros ?%not_elem_of_nil|]. rewrite rsum_cons. pose proof (rsum_nonneg f l Hf).
  intros [->|Hx]%elem_of_cons; [lra|]. specialize (IH Hx). specialize (Hf y). lra.
Qed.

Lemma rsum_exp_pos f l : l ≠ [] → (0 < rsum (λ x, exp (f x)) l)%R.
Proof.
  destruct l as [|x l]; [done|]. intros _. rewrite rsum_cons. pose proof (exp_pos (f x)).
  pose proof (rsum_nonneg (λ x, exp (f x)) l (λ x, Rlt_le _ _ (exp_pos _))). lra.
Qed.

(** Softmax does not depend on the shift of the exponents. *)
Lemma softmax_shift f c x l : (exp (f x - c) / rsum (λ y, exp (f y - c)) l = exp (f x) / rsum (λ y, exp (f y)) l)%R.
Proof.
  assert (∀ y, exp (f y - c) = exp (f y) * exp (- c))%R as He by (intros; unfold Rminus; apply exp_plus).
  rewrite He, (rsum_ext _ (λ y, exp (f y) * exp (- c))%R) by (intros; apply He). rewrite rsum_scale.
  pose proof (exp_pos (- c)). destruct l as [|y l].
  - cbn. rewrite Rmult_0_l. unfold Rdiv. rewrite Rinv_0. lra.
  - pose proof (rsum_exp_pos f (y :: l) ltac:(done)). field. lra.
Qed.

(** *** In [xreal] *)

Lemma xsum_Some (f : Z → R) l : big (xlift Rplus) (Some 0%R) (map (λ x, Some (f x)) l) = Some (rsum f l).
Proof. induction l as [|x l IH]; [done|]. cbn [map]. rewrite big_cons, IH. done. Qed.

Lemma xmax_Some (f : Z → R) l : l ≠ [] →
  ∃ M, big xmax None (map (λ x, Some (f x)) l) = Some M ∧ (∀ x, x ∈ l → (f x <= M)%R) ∧ ∃ x, x ∈ l ∧ f x = M.
Proof.
  induction l as [|x l IH]; [done|]. intros _. cbn [map]. rewrite big_cons. destruct l as [|y l].
  - exists (f x). split; [done|]. split; [intros z ->%list_elem_of_singleton; lra|]. exists x. split; [apply list_elem_of_here|done].
  - destruct IH as (M & HM & Hle & z & Hz & Hfz); [done|]. exists (Rmax (f x) M). rewrite HM. split; [done|]. split.
    + intros w [->|Hw]%elem_of_cons; [apply Rmax_l|]. etrans; [by apply Hle|apply Rmax_r].
    + destruct (Rle_dec (f x) M).
      * exists z. split; [by apply list_elem_of_further|]. by rewrite Rmax_right.
      * exists x. split; [apply list_elem_of_here|]. rewrite Rmax_left; lra.
Qed.

(** A maximum with a finite floor is finite. *)
Lemma xmax_floor lo (f : Z → R) l :
  ∃ M, xmax (Some lo) (big xmax None (map (λ x, Some (f x)) l)) = Some M ∧ ∀ x, x ∈ l → (f x <= M)%R.
Proof.
  destruct l as [|x l]; [exists lo; split; [done|]; by intros x ?%not_elem_of_nil|].
  destruct (xmax_Some f (x :: l) ltac:(done)) as (M & -> & Hle & _). exists (Rmax lo M). split; [done|].
  intros y Hy. etrans; [by apply Hle|apply Rmax_r].
Qed.

Lemma xmax_const {X} (c : R) (l : list X) : l ≠ [] → big xmax None (map (λ _, Some c) l) = Some c.
Proof.
  induction l as [|x l IH]; [done|]. intros _. cbn [map]. rewrite big_cons. destruct l as [|y l]; [done|].
  rewrite IH by done. cbn. by rewrite Rmax_left by lra.
Qed.
