(* ===== verification/RmsNorm.v ===== *)
(** * The RMSNorm kernels ([kernels/rmsnorm.cu])

    One thread block per row: a first pass over the row accumulates the sum of
    squares (the fused variant also materialises the rounded residual), a block
    reduction gives every thread the same inverse RMS, a second pass normalises,
    rounds and applies the weight.  The half2 kernels keep the first pass's
    values in registers, the scalar ones read memory again.  Blocks, and the
    loop iterations of a block within each pass, run in any order. *)

From Stdlib Require Import Reals.
From S2P Require Import Prelude Doubles Types ModelConfig HalfFloat KvPool Argmax DeviceMath SiluMul Rope Reduce RealMath.

#[local] Open Scope Z_scope.

Definition kBlockSm80 : Z := 512.
Definition kBlockPre80 : Z := 256.
Definition kMaxWordsPerThread : Z := 4.

(** [IsHalf2Aligned]: an even element address. *)
Definition IsHalf2Aligned (p : Z) : bool := p mod 2 =? 0.

Section kernel.
Context {F half : Type} `{FloatOps F half}.
Notation mem := (Z → half).

(** ** Device functions *)

Definition BlockReduceSum (kBlock : Z) (v : Z → F) : F :=
  let kWarps := Z.quot kBlock 32 in
  let warp := xor_tree fadd [16; 8; 4; 2; 1] v in
  let warp_sums w := warp (32 * w) in
  foldl (λ total w, fadd total (warp_sums w)) (warp_sums 0) (seqZ 1 (kWarps - 1)).

Definition InvRms (sum_sq : F) (hidden_size : Z) (eps : F) : F :=
  rsqrtf (fadd (fdiv sum_sq (f_of_int hidden_size)) eps).

Definition NormalizeAndWeight (h32 inv_rms : F) (w : half) : half :=
  let normed := __float2half_rn (fmul h32 inv_rms) in
  __float2half_rn (fmul (__half2float normed) (__half2float w)).

Definition NormalizeAndWeightTwo (h32 : F * F) (inv_rms : F) (w : half * half) : half * half :=
  (NormalizeAndWeight h32.1 inv_rms w.1, NormalizeAndWeight h32.2 inv_rms w.2).

Definition half22float2 (v : half * half) : F * F := (__half2float v.1, __half2float v.2).

(** Rounding point 1: the residual sum, in binary16. *)
Definition residual_sum (r x : half) : half := __float2half_rn (fadd (__half2float r) (__half2float x)).
Definition residual_sum_two (r x : half * half) : half * half :=
  let r := half22float2 r in
  let x := half22float2 x in
  (__float2half_rn (fadd r.1 x.1), __float2half_rn (fadd r.2 x.2)).

(** The store of a half2 at half2 index [i] of base [p]. *)
Definition store2 (p i : Z) (v : mem → half * half) : list (Z * (mem → half)) :=
  [(p + 2 * i, λ m, (v m).1); (p + 2 * i + 1, λ m, (v m).2)].

(** ** The shape of a block *)

(** [order row pass] permutes the iterations of a pass of the block of [row];
    [words_of tid] are the iterations of a thread, in its order. *)
Section block.
Context (order : Z → Z → list Z → list Z) {V : Type} (kBlock : Z) (words_of : Z → list Z)
  (pass1 : Z → list (Z * (mem → half))) (local : Z → mem → V) (accumulate : F → V → F)
  (pass2 : (Z → V) → F → Z → list (Z * (mem → half))).

Definition run_two_passes (row hidden_size : Z) (eps : F) (garbage : Z → V) (m : mem) : mem :=
  let iterations := concat (map words_of (seqZ 0 kBlock)) in
  let after := foldl (run_step pass1 local) (m, garbage) (order row 1 iterations) in
  let cache := after.2 in
  let sum_sq tid := foldl (λ s w, accumulate s (cache w)) f_zero (words_of tid) in
  let inv_rms := InvRms (BlockReduceSum kBlock sum_sq) hidden_size eps in
  run_items (pass2 cache inv_rms) (order row 2 iterations) after.1.

End block.

(** Half2 words [tid + i * kBlock] below [words]; columns [tid], [tid + kBlock], ... *)
Definition vec_words (kBlock WPT words tid : Z) : list Z :=
  filter (λ w, w < words) (map (λ i, tid + i * kBlock) (seqZ 0 WPT)).
Definition scalar_words (kBlock hidden_size tid : Z) : list Z := strided tid kBlock hidden_size.

Definition add_square (s v : F) : F := fadd s (fmul v v).
Definition add_square2 (s : F) (v : F * F) : F := add_square (add_square s v.1) v.2.

(** ** The kernels, on the block of one row *)

Section kernels.
Context (order : Z → Z → list Z → list Z) (kBlock WPT out residual input weight num_tokens words hidden_size : Z) (eps : F).

Definition RmsNormVecKernel (garbage : Z → F * F) (row : Z) (m : mem) : mem :=
  if num_tokens <=? row then m else
  let in_row := row * words in
  let out_row := row * words in
  run_two_passes order kBlock (vec_words kBlock WPT words) (λ _, [])
    (λ w m, half22float2 (load2 m input (in_row + w))) add_square2
    (λ cache inv_rms w, store2 out (out_row + w) (λ m, NormalizeAndWeightTwo (cache w) inv_rms (load2 m weight w)))
    row hidden_size eps garbage m.

Definition RmsNormResidualVecKernel (garbage : Z → F * F) (row : Z) (m : mem) : mem :=
  if num_tokens <=? row then m else
  let res_row := row * words in
  let in_row := row * words in
  let out_row := row * words in
  let h w m := residual_sum_two (load2 m residual (res_row + w)) (load2 m input (in_row + w)) in
  run_two_passes order kBlock (vec_words kBlock WPT words)
    (λ w, store2 residual (res_row + w) (h w)) (λ w m, half22float2 (h w m)) add_square2
    (λ cache inv_rms w, store2 out (out_row + w) (λ m, NormalizeAndWeightTwo (cache w) inv_rms (load2 m weight w)))
    row hidden_size eps garbage m.

Definition RmsNormKernel (garbage : Z → F) (row : Z) (m : mem) : mem :=
  if num_tokens <=? row then m else
  let in_row := input + row * hidden_size in
  let out_row := out + row * hidden_size in
  run_two_passes order kBlock (scalar_words kBlock hidden_size) (λ _, [])
    (λ c m, __half2float (m (in_row + c))) add_square
    (λ _ inv_rms c, [(out_row + c, λ m, NormalizeAndWeight (__half2float (m (in_row + c))) inv_rms (m (weight + c)))])
    row hidden_size eps garbage m.

Definition RmsNormResidualKernel (garbage : Z → F) (row : Z) (m : mem) : mem :=
  if num_tokens <=? row then m else
  let res_row := residual + row * hidden_size in
  let in_row := input + row * hidden_size in
  let out_row := out + row * hidden_size in
  let h c m := residual_sum (m (res_row + c)) (m (in_row + c)) in
  run_two_passes order kBlock (scalar_words kBlock hidden_size)
    (λ c, [(res_row + c, h c)]) (λ c m, __half2float (h c m)) add_square
    (λ _ inv_rms c, [(out_row + c, λ m, NormalizeAndWeight (__half2float (m (res_row + c))) inv_rms (m (weight + c)))])
    row hidden_size eps garbage m.

End kernels.

(** ** The launchers *)

(** How the device runs a grid: the order of its blocks, the order of the
    iterations of each pass of each block, what registers held before. *)
Record rms_schedule : Type := mkRms {
  rs_rows : list Z → list Z; rs_order : Z → Z → list Z → list Z; rs_garbage2 : Z → F * F; rs_garbage : Z → F;
}.

Section launchers.
Context (sch : rms_schedule).

Definition rms_wpt (kBlock hidden_size : Z) : Z := Z.quot (Z.quot hidden_size 2 + kBlock - 1) kBlock.

(** The register slice the switch instantiates. *)
Definition rms_slice (wpt : Z) : Z := if wpt =? 1 then 1 else if wpt =? 2 then 2 else if wpt =? 3 then 3 else kMaxWordsPerThread.

Definition LaunchRmsNormImpl (kBlock out input weight num_tokens hidden_size : Z) (eps : F) (m : mem) : mem :=
  let words := Z.quot hidden_size 2 in
  let wpt := rms_wpt kBlock hidden_size in
  let grid := rs_rows sch (seqZ 0 num_tokens) in
  if (Z.rem hidden_size 2 =? 0) && (wpt <=? kMaxWordsPerThread) && IsHalf2Aligned out && IsHalf2Aligned input && IsHalf2Aligned weight
  then run_blocks (RmsNormVecKernel (rs_order sch) kBlock (rms_slice wpt) out input weight num_tokens words hidden_size eps (rs_garbage2 sch)) grid m
  else run_blocks (RmsNormKernel (rs_order sch) kBlock out input weight num_tokens hidden_size eps (rs_garbage sch)) grid m.

Definition LaunchRmsNormResidualImpl (kBlock out residual input weight num_tokens hidden_size : Z) (eps : F) (m : mem) : mem :=
  let words := Z.quot hidden_size 2 in
  let wpt := rms_wpt kBlock hidden_size in
  let grid := rs_rows sch (seqZ 0 num_tokens) in
  if (Z.rem hidden_size 2 =? 0) && (wpt <=? kMaxWordsPerThread) && IsHalf2Aligned out && IsHalf2Aligned residual &&
     IsHalf2Aligned input && IsHalf2Aligned weight
  then run_blocks (RmsNormResidualVecKernel (rs_order sch) kBlock (rms_slice wpt) out residual input weight num_tokens words hidden_size eps (rs_garbage2 sch)) grid m
  else run_blocks (RmsNormResidualKernel (rs_order sch) kBlock out residual input weight num_tokens hidden_size eps (rs_garbage sch)) grid m.

(** [None]: a failed debug assertion on the aliasing contract. *)
Definition LaunchRmsNorm (NDEBUG : bool) (compute_major out input weight num_tokens hidden_size : Z) (eps : F) (m : mem) : option mem :=
  if (num_tokens <=? 0) || (hidden_size <=? 0) then Some m else
  if negb NDEBUG && (out =? input) then None else
  Some (LaunchRmsNormImpl (if 8 <=? compute_major then kBlockSm80 else kBlockPre80) out input weight num_tokens hidden_size eps m).

Definition LaunchRmsNormResidual (NDEBUG : bool) (compute_major out residual input weight num_tokens hidden_size : Z) (eps : F) (m : mem) : option mem :=
  if (num_tokens <=? 0) || (hidden_size <=? 0) then Some m else
  if negb NDEBUG && ((out =? residual) || (out =? input) || (residual =? input)) then None else
  Some (LaunchRmsNormResidualImpl (if 8 <=? compute_major then kBlockSm80 else kBlockPre80) out residual input weight num_tokens hidden_size eps m).

End launchers.

(** ** The sum of squares *)

(** The columns a thread visits, [unit] per iteration, and the total the block
    reduces from the row [h]. *)
Definition thread_columns (unit : Z) (words_of : Z → list Z) (tid : Z) : list Z := concat (map (columns unit) (words_of tid)).
Definition row_total (unit kBlock : Z) (words_of : Z → list Z) (h : Z → F) : F :=
  BlockReduceSum kBlock (λ tid, foldl add_square f_zero (map h (thread_columns unit words_of tid))).

Lemma BlockReduceSum_ext kBlock f g : (∀ tid, 0 <= tid → f tid = g tid) → BlockReduceSum kBlock f = BlockReduceSum kBlock g.
Proof.
  intros Hfg. unfold BlockReduceSum.
  assert (∀ w, 0 <= w → xor_tree fadd [16; 8; 4; 2; 1] f (32 * w) = xor_tree fadd [16; 8; 4; 2; 1] g (32 * w)) as Hw.
  { intros w Hw. apply xor_tree_ext; [by repeat constructor|done|lia]. }
  rewrite Hw by done.
  assert (∀ l x, Forall (λ w, 0 <= w) l →
    foldl (λ t w, fadd t (xor_tree fadd [16; 8; 4; 2; 1] f (32 * w))) x l =
    foldl (λ t w, fadd t (xor_tree fadd [16; 8; 4; 2; 1] g (32 * w))) x l) as Hl.
  { induction l as [|w l IH]; intros x Hall; [done|]. apply Forall_cons in Hall as [? ?]. cbn [foldl]. rewrite Hw by done. by apply IH. }
  apply Hl. apply Forall_forall. intros w Hin%elem_of_seqZ. lia.
Qed.

Lemma row_total_ext unit kBlock words_of hidden h h' :
  (∀ tid, 0 <= tid → Forall (λ c, 0 <= c < hidden) (thread_columns unit words_of tid)) →
  (∀ c, 0 <= c < hidden → h c = h' c) → row_total unit kBlock words_of h = row_total unit kBlock words_of h'.
Proof.
  intros Hc Hh. apply BlockReduceSum_ext. intros tid Ht. f_equal. apply map_ext_in. intros c Hin%list_elem_of_In.
  apply Hh. by apply (proj1 (Forall_forall _ _) (Hc tid Ht)).
Qed.

Section exact_sum.
Context (Hadd : CommMonoid fadd f_zero).

Lemma BlockReduceSum_sum kWarps v : 0 < kWarps → BlockReduceSum (32 * kWarps) v = big fadd f_zero (map v (seqZ 0 (32 * kWarps))).
Proof using Hadd.
  intros Hk. unfold BlockReduceSum. assert (Z.quot (32 * kWarps) 32 = kWarps) as -> by (rewrite Z.mul_comm, Z.quot_mul; lia).
  rewrite (foldl_big fadd f_zero Hadd (λ w, xor_tree fadd [16; 8; 4; 2; 1] v (32 * w))).
  rewrite <- big_cons, <- (map_cons (λ w, xor_tree fadd [16; 8; 4; 2; 1] v (32 * w))).
  replace (0 :: seqZ 1 (kWarps - 1)) with (seqZ 0 kWarps) by (rewrite seqZ_cons by lia; f_equal; f_equal; lia).
  rewrite (big_ext fadd f_zero _ (λ w, big fadd f_zero (map v (map (λ l, 32 * w + l) (seqZ 0 32))))).
  - rewrite (big_concat fadd f_zero Hadd). pose proof (chunks_perm 32 kWarps ltac:(lia) ltac:(lia)) as Hc.
    rewrite (Z.mul_comm kWarps) in Hc. apply (big_perm fadd f_zero Hadd), Permutation_map, Hc.
  - intros w Hw%elem_of_seqZ. rewrite (xor_tree_sum fadd f_zero Hadd 5); [|lia|lia|apply spread_32].
    rewrite map_map. apply big_ext. intros x _. change (2 ^ 5) with 32.
    assert (32 * w / 32 = w) as -> by (rewrite Z.mul_comm; apply Z.div_mul; lia). f_equal. lia.
Qed.

Lemma foldl_squares l : foldl add_square f_zero l = big fadd f_zero (map (λ v, fmul v v) l).
Proof using Hadd.
  unfold add_square. rewrite (foldl_big fadd f_zero Hadd (λ v, fmul v v)). apply (cm_id _ _ Hadd).
Qed.

(** Whatever the partition of the columns, the total is the sum of the squares. *)
Lemma row_total_sum unit width kWarps words_of h : 0 < unit → 0 <= width → 0 < kWarps →
  concat (map words_of (seqZ 0 (32 * kWarps))) ≡ₚ seqZ 0 width →
  row_total unit (32 * kWarps) words_of h = big fadd f_zero (map (λ c, fmul (h c) (h c)) (seqZ 0 (width * unit))).
Proof using Hadd.
  intros Hu Hw Hk Hp. unfold row_total. rewrite BlockReduceSum_sum by done.
  rewrite (big_ext fadd f_zero _ (λ tid, big fadd f_zero (map (λ c, fmul (h c) (h c)) (thread_columns unit words_of tid)))).
  - rewrite (big_concat fadd f_zero Hadd). apply (big_perm fadd f_zero Hadd), Permutation_map.
    unfold thread_columns. rewrite <- concat_concat_map, (concat_map_perm _ _ _ Hp). by apply chunks_perm.
  - intros tid _. by rewrite foldl_squares, map_map.
Qed.

End exact_sum.

(** ** One block *)

(** How the iterations of a kernel's threads cover a row. *)
Record covers (unit width kBlock : Z) (words_of : Z → list Z) : Prop := {
  cv_unit : 0 < unit;
  cv_width : 0 <= width;
  cv_once : concat (map words_of (seqZ 0 kBlock)) ≡ₚ seqZ 0 width;
  cv_range tid : 0 <= tid → Forall (λ w, 0 <= w < width) (words_of tid);
}.

Lemma cv_columns unit width kBlock words_of tid :
  covers unit width kBlock words_of → 0 <= tid → Forall (λ c, 0 <= c < width * unit) (thread_columns unit words_of tid).
Proof.
  intros [Hu Hw _ Hr] Ht. apply Forall_forall. intros c (w & Hin & (l & -> & Hl%elem_of_seqZ)%list_elem_of_fmap)%elem_of_concat_map.
  pose proof (proj1 (Forall_forall _ _) (Hr tid Ht) w Hin) as Hb. cbn in Hb.
  assert (unit * (w + 1) <= unit * width) by (apply Z.mul_le_mono_nonneg_l; lia).
  assert (0 <= unit * w) by (apply Z.mul_nonneg_nonneg; lia). lia.
Qed.

Section two_passes.
Context (order : Z → Z → list Z → list Z) (Horder : ∀ row pass l, order row pass l ≡ₚ l).
Context {V : Type} (kBlock : Z) (words_of : Z → list Z) (pass1 : Z → list (Z * (mem → half))) (local : Z → mem → V)
  (accumulate : F → V → F) (pass2 : (Z → V) → F → Z → list (Z * (mem → half))) (row hidden_size : Z) (eps : F) (garbage : Z → V) (m : mem).
Context (unit width : Z) (Hcov : covers unit width kBlock words_of) (Hwidth : width * unit = hidden_size).
Context (h : Z → F) (out weight : Z).
Notation iters := (seqZ 0 width).
Notation after1 := (run_items pass1 (order row 1 (concat (map words_of (seqZ 0 kBlock)))) m).
Notation total := (row_total unit kBlock words_of h).

Context (Hsep1 : separate pass1 iters).
Context (Hlocal : ∀ w m1 m2, w ∈ iters → (∀ a, (∀ z, z ∈ iters → a ∈ (pass1 z).*1 → z = w) → m1 a = m2 a) → local w m1 = local w m2).
Context (Hacc : ∀ s w, w ∈ iters → accumulate s (local w m) = foldl add_square s (map h (columns unit w))).
Context (Hsep2 : ∀ cache inv, separate (pass2 cache inv) iters).
Context (Hout : ∀ cache inv w c, w ∈ iters → (∀ w, w ∈ iters → cache w = local w m) → unit * w <= c < unit * w + unit →
  ∃ p, p ∈ pass2 cache inv w ∧ p.1 = out + c ∧ p.2 after1 = NormalizeAndWeight (h c) inv (m (weight + c))).
Context (Hkeys : ∀ cache inv w a, w ∈ iters → a ∈ (pass2 cache inv w).*1 → ∃ c, 0 <= c < hidden_size ∧ a = out + c).

Lemma order_iters pass : order row pass (concat (map words_of (seqZ 0 kBlock))) ≡ₚ iters.
Proof using Horder Hcov. rewrite Horder. apply (cv_once _ _ _ _ Hcov). Qed.

Lemma cache_is_local w : w ∈ iters →
  (foldl (run_step pass1 local) (m, garbage) (order row 1 (concat (map words_of (seqZ 0 kBlock))))).2 w = local w m.
Proof using Horder Hcov Hsep1 Hlocal.
  intros Hw. pose proof (order_iters 1) as Ho. apply run_steps_local.
  - rewrite Ho. apply NoDup_seqZ.
  - by eapply separate_perm.
  - by rewrite Ho.
  - intros m1 m2 Heq. apply Hlocal; [done|]. intros a Ha. apply Heq. intros z Hz. rewrite Ho in Hz. auto.
Qed.

Lemma sums_are_total (cache : Z → V) : (∀ w, w ∈ iters → cache w = local w m) →
  BlockReduceSum kBlock (λ tid, foldl (λ s w, accumulate s (cache w)) f_zero (words_of tid)) = total.
Proof using Hcov Hacc.
  intros Hc. apply BlockReduceSum_ext. intros tid Ht. pose proof (cv_range _ _ _ _ Hcov tid Ht) as Hr.
  unfold thread_columns. generalize (f_zero : F) as s. induction Hr as [|w ws Hw _ IH]; intros s; [done|].
  assert (w ∈ iters) as Hin by (apply elem_of_seqZ; lia). cbn [foldl map concat].
  rewrite map_app, foldl_app, Hc, Hacc by done. apply IH.
Qed.

Lemma run_two_passes_eq : ∃ cache, (∀ w, w ∈ iters → cache w = local w m) ∧
  run_two_passes order kBlock words_of pass1 local accumulate pass2 row hidden_size eps garbage m =
  run_items (pass2 cache (InvRms total hidden_size eps)) (order row 2 (concat (map words_of (seqZ 0 kBlock)))) after1.
Proof using Horder Hcov Hsep1 Hlocal Hacc.
  exists (foldl (run_step pass1 local) (m, garbage) (order row 1 (concat (map words_of (seqZ 0 kBlock))))).2.
  split; [apply cache_is_local|]. unfold run_two_passes. rewrite run_steps_mem. cbn [fst].
  by rewrite (sums_are_total _ cache_is_local).
Qed.

Lemma two_passes_out c : 0 <= c < hidden_size →
  run_two_passes order kBlock words_of pass1 local accumulate pass2 row hidden_size eps garbage m (out + c) =
  NormalizeAndWeight (h c) (InvRms total hidden_size eps) (m (weight + c)).
Proof using Horder Hcov Hsep1 Hlocal Hacc Hsep2 Hout Hwidth.
  intros Hc. destruct run_two_passes_eq as (cache & Hcache & ->). pose proof (cv_unit _ _ _ _ Hcov) as Hu.
  pose proof (Z.div_mod c unit ltac:(lia)) as Hd. pose proof (Z.mod_pos_bound c unit Hu) as Hm.
  assert (c / unit ∈ iters) as Hin.
  { apply elem_of_seqZ. split; [apply Z.div_pos; lia|]. rewrite Z.add_0_l. apply Z.div_lt_upper_bound; lia. }
  destruct (Hout cache (InvRms total hidden_size eps) (c / unit) c Hin Hcache ltac:(lia)) as (p & Hp & <- & <-).
  pose proof (order_iters 2) as Ho. apply run_items_spec with (y := c / unit).
  - rewrite Ho. apply NoDup_seqZ.
  - eapply separate_perm; [by symmetry|apply Hsep2].
  - by rewrite Ho.
  - done.
Qed.

Lemma two_passes_elsewhere a : (∀ c, 0 <= c < hidden_size → a ≠ out + c) →
  run_two_passes order kBlock words_of pass1 local accumulate pass2 row hidden_size eps garbage m a = after1 a.
Proof using Horder Hcov Hsep1 Hlocal Hacc Hkeys.
  intros Ha. destruct run_two_passes_eq as (cache & _ & ->). apply run_items_frame.
  intros w Hw Hin. rewrite (order_iters 2) in Hw. destruct (Hkeys _ _ _ _ Hw Hin) as (c & Hc & ->). by apply (Ha c).
Qed.

End two_passes.

(** *** The stores of the passes *)

Lemma store2_keys p i v : (store2 p i v).*1 = map (λ c, p + c) (columns 2 i).
Proof. unfold columns. change (seqZ 0 2) with [0; 1]. cbn -[Z.mul]. f_equal; [lia|]. f_equal. lia. Qed.

Lemma store2_separate p l (v : Z → mem → half * half) base :
  (∀ w m1 m2, w ∈ l → (∀ a, (a = p + 2 * (base + w) ∨ a = p + 2 * (base + w) + 1) ∨
      (∀ z, z ∈ l → a ≠ p + 2 * (base + z) ∧ a ≠ p + 2 * (base + z) + 1) → m1 a = m2 a) → v w m1 = v w m2) →
  separate (λ w, store2 p (base + w) (v w)) l.
Proof.
  intros Hv. apply (cells_separate 2 (p + 2 * base)); [lia| |].
  - intros w. rewrite store2_keys. unfold columns. change (seqZ 0 2) with [0; 1]. cbn -[Z.mul]. f_equal; [lia|]. f_equal. lia.
  - intros w q m1 m2 Hw Hq Heq. assert (v w m1 = v w m2) as Hvw.
    { apply Hv; [done|]. intros a Ha. apply Heq. destruct Ha as [Ha|Ha]; [left|right].
      - cbn. destruct Ha as [->| ->]; [apply list_elem_of_here|apply list_elem_of_further, list_elem_of_here].
      - intros z Hz Hin. destruct (Ha z Hz) as [H1 H2]. cbn in Hin.
        by apply elem_of_cons in Hin as [->|[->|[]%not_elem_of_nil]%elem_of_cons]. }
    apply elem_of_cons in Hq as [->|[->|[]%not_elem_of_nil]%elem_of_cons]; cbn; by rewrite Hvw.
Qed.

Lemma add_square2_columns s (h : Z → F) w : add_square2 s (h (2 * w), h (2 * w + 1)) = foldl add_square s (map h (columns 2 w)).
Proof. unfold columns. change (seqZ 0 2) with [0; 1]. cbn -[Z.mul]. by rewrite Z.add_0_r. Qed.

Lemma add_square_columns s (h : Z → F) c : add_square s (h c) = foldl add_square s (map h (columns 1 c)).
Proof. unfold columns. change (seqZ 0 1) with [0]. cbn -[Z.mul]. by rewrite Z.add_0_r, Z.mul_1_l. Qed.

(** *** The two partitions *)

Lemma vec_words_cover kBlock WPT words : 0 < kBlock → 0 <= words <= WPT * kBlock → covers 2 words kBlock (vec_words kBlock WPT words).
Proof.
  intros Hk Hw. assert (∀ tid w, w ∈ vec_words kBlock WPT words tid ↔ w < words ∧ ∃ i, w = tid + i * kBlock ∧ 0 <= i < WPT) as Hel.
  { intros tid w. unfold vec_words. rewrite list_elem_of_filter. setoid_rewrite list_elem_of_fmap. setoid_rewrite elem_of_seqZ. done. }
  split; [lia|lia| |].
  - apply NoDup_Permutation; [|apply NoDup_seqZ|].
    + apply NoDup_concat_keyed; [apply NoDup_seqZ| |].
      * intros tid _. unfold vec_words. apply NoDup_filter. apply NoDup_fmap_2_strong; [|apply NoDup_seqZ]. intros x y _ _ Heq. nia.
      * intros a b w Ha%elem_of_seqZ Hb%elem_of_seqZ (_ & i & -> & Hi)%Hel (_ & j & He & Hj)%Hel.
        assert (i = j ∧ a = b) as [_ ->] by (apply (radix kBlock); lia). done.
    + intros w. rewrite elem_of_concat_map, elem_of_seqZ. split.
      * intros (tid & Ht%elem_of_seqZ & (Hlt & i & -> & Hi)%Hel). split; [nia|lia].
      * intros Hr. exists (w mod kBlock). pose proof (Z.mod_pos_bound w kBlock Hk). split; [apply elem_of_seqZ; lia|].
        apply Hel. split; [lia|]. exists (w / kBlock). pose proof (Z.div_mod w kBlock ltac:(lia)).
        split; [lia|]. split; [apply Z.div_pos; lia|apply Z.div_lt_upper_bound; lia].
  - intros tid Ht. apply Forall_forall. intros w (Hlt & i & -> & Hi)%Hel. split; [nia|lia].
Qed.

Lemma scalar_words_cover kBlock hidden : 0 < kBlock → 0 <= hidden → covers 1 hidden kBlock (scalar_words kBlock hidden).
Proof.
  intros Hk Hh. split; [lia|lia|by apply block_strided_perm|].
  intros tid Ht. apply Forall_forall. intros c (k & Hk' & -> & Hlt)%strided_inv; [nia|done].
Qed.

(** *** The four kernels on one row *)

Definition apart (p n q k : Z) : Prop := p + n <= q ∨ q + k <= p.

Section row.
Context (order : Z → Z → list Z → list Z) (Horder : ∀ row pass l, order row pass l ≡ₚ l).
Context (kBlock out residual input weight rows hidden row : Z) (eps : F) (m : mem).
Context (Hk : 0 < kBlock) (Hrow : 0 <= row < rows) (Hhidden : 0 < hidden).
Context (Hin : apart out (rows * hidden) input (rows * hidden)) (Hwt : apart out (rows * hidden) weight hidden).

Lemma row_cell c : 0 <= c < hidden → 0 <= row * hidden + c < rows * hidden.
Proof using All. intros. split; [nia|]. assert ((row + 1) * hidden <= rows * hidden) by (apply Z.mul_le_mono_nonneg_r; lia). lia. Qed.

(** Row [row] of [out] holds the normalised row [h]; what else may differ from
    [m1] is nothing. *)
Definition normalizes (total : F) (h : Z → F) (m1 m' : mem) : Prop :=
  (∀ c, 0 <= c < hidden → m' (out + row * hidden + c) = NormalizeAndWeight (h c) (InvRms total hidden eps) (m (weight + c))) ∧
  ∀ a, (∀ c, 0 <= c < hidden → a ≠ out + row * hidden + c) → m' a = m1 a.

(** The second pass of the half2 kernels, from the cached row. *)
Lemma vec_pass2_separate words (cache : Z → F * F) inv : words * 2 = hidden →
  separate (λ w, store2 out (row * words + w) (λ m, NormalizeAndWeightTwo (cache w) inv (load2 m weight w))) (seqZ 0 words).
Proof using All.
  intros Hw. apply store2_separate. intros w m1 m2 Hin'%elem_of_seqZ Heq. f_equal. unfold load2.
  f_equal; apply Heq; right; intros z Hz%elem_of_seqZ; pose proof (row_cell (2 * z)); pose proof (row_cell (2 * z + 1));
    unfold apart in Hwt; lia.
Qed.

Lemma vec_pass2_out words (cache : Z → F * F) inv w c (m1 : mem) h : words * 2 = hidden → w ∈ seqZ 0 words → 2 * w <= c < 2 * w + 2 →
  cache w = (h (2 * w), h (2 * w + 1)) → (∀ c, 0 <= c < hidden → m1 (weight + c) = m (weight + c)) →
  ∃ p, p ∈ store2 out (row * words + w) (λ m, NormalizeAndWeightTwo (cache w) inv (load2 m weight w)) ∧
    p.1 = out + row * hidden + c ∧ p.2 m1 = NormalizeAndWeight (h c) inv (m (weight + c)).
Proof using All.
  intros Hw Hin'%elem_of_seqZ Hc Hca Hm. unfold store2. assert (c = 2 * w ∨ c = 2 * w + 1) as [->| ->] by lia.
  - eexists. split; [apply list_elem_of_here|]. cbn -[Z.mul]. split; [lia|]. rewrite Hca, Hm by lia. done.
  - eexists. split; [apply list_elem_of_further, list_elem_of_here|]. cbn -[Z.mul]. split; [lia|].
    by rewrite Hca, <- Z.add_assoc, Hm by lia.
Qed.

Lemma vec_pass2_keys words (cache : Z → F * F) inv w a : words * 2 = hidden → w ∈ seqZ 0 words →
  a ∈ (store2 out (row * words + w) (λ m, NormalizeAndWeightTwo (cache w) inv (load2 m weight w))).*1 →
  ∃ c, 0 <= c < hidden ∧ a = out + row * hidden + c.
Proof using All.
  intros Hw Hin'%elem_of_seqZ Ha. cbn -[Z.mul] in Ha.
  apply elem_of_cons in Ha as [->|[->|[]%not_elem_of_nil]%elem_of_cons]; [exists (2 * w)|exists (2 * w + 1)]; lia.
Qed.

Lemma RmsNormVecKernel_row WPT words garbage : words * 2 = hidden → words <= WPT * kBlock →
  let h c := __half2float (m (input + row * hidden + c)) in
  normalizes (row_total 2 kBlock (vec_words kBlock WPT words) h) h m
    (RmsNormVecKernel order kBlock WPT out input weight rows words hidden eps garbage row m).
Proof using All.
  intros Hw Hcap h. unfold RmsNormVecKernel. destruct (Z.leb_spec rows row); [lia|].
  pose proof (vec_words_cover kBlock WPT words Hk ltac:(lia)) as Hcov.
  assert (∀ w, half22float2 (load2 m input (row * words + w)) = (h (2 * w), h (2 * w + 1))) as Hloc.
  { intros w. unfold half22float2, load2, h. cbn [fst snd]. f_equal; do 2 f_equal; lia. }
  assert (∀ l, run_items (λ _ : Z, []) l m = m) as Hnop.
  { intros l. induction l as [|x l IH]; [done|]. by rewrite run_items_cons. }
  split.
  - intros c Hc. apply (two_passes_out order Horder) with (unit := 2) (width := words) (h := h); try done.
    + apply nothing_separate.
    + intros w m1 m2 _ Heq. unfold load2. by rewrite !Heq by (intros z _ Hz; by apply not_elem_of_nil in Hz).
    + intros s w _. rewrite Hloc. apply add_square2_columns.
    + intros. by apply vec_pass2_separate.
    + intros cache inv w c' Hw' Hcache Hc'. rewrite Hnop. apply vec_pass2_out; try done. by rewrite Hcache, Hloc.
  - intros a Ha. rewrite (two_passes_elsewhere order Horder) with (unit := 2) (width := words) (h := h) (out := out + row * hidden) (hidden_size := hidden); try done.
    + by rewrite Hnop.
    + apply nothing_separate.
    + intros w m1 m2 _ Heq. unfold load2. by rewrite !Heq by (intros z _ Hz; by apply not_elem_of_nil in Hz).
    + intros s w _. rewrite Hloc. apply add_square2_columns.
    + intros cache inv w a' Hw' Ha'. by apply (vec_pass2_keys words cache inv w a').
Qed.

Lemma scalar_covered : covers 1 hidden kBlock (scalar_words kBlock hidden).
Proof using All. apply scalar_words_cover; lia. Qed.

(** The second pass of the scalar kernels, re-reading the row at [src]. *)
Lemma scalar_pass2_separate src inv : apart out (rows * hidden) src (rows * hidden) →
  separate (λ c, [(out + row * hidden + c, λ m, NormalizeAndWeight (__half2float (m (src + row * hidden + c))) inv (m (weight + c)))]) (seqZ 0 hidden).
Proof using All.
  intros Hs. apply store1_separate. intros c m1 m2 Hc%elem_of_seqZ Heq.
  pose proof (row_cell c ltac:(lia)). rewrite !Heq; [done| |];
    right; intros z Hz%elem_of_seqZ; pose proof (row_cell z ltac:(lia)); unfold apart in *; lia.
Qed.

Lemma scalar_pass2_keys src inv c a : c ∈ seqZ 0 hidden →
  a ∈ [(out + row * hidden + c, λ m : mem, NormalizeAndWeight (__half2float (m (src + row * hidden + c))) inv (m (weight + c)))].*1 →
  ∃ c, 0 <= c < hidden ∧ a = out + row * hidden + c.
Proof using Type. intros Hc%elem_of_seqZ ->%list_elem_of_singleton. exists c. cbn. lia. Qed.

Lemma RmsNormKernel_row garbage :
  let h c := __half2float (m (input + row * hidden + c)) in
  normalizes (row_total 1 kBlock (scalar_words kBlock hidden) h) h m
    (RmsNormKernel order kBlock out input weight rows hidden eps garbage row m).
Proof using All.
  intros h. unfold RmsNormKernel. destruct (Z.leb_spec rows row); [lia|].
  pose proof scalar_covered as Hcov.
  assert (∀ l, run_items (λ _ : Z, []) l m = m) as Hnop.
  { intros l. induction l as [|x l IH]; [done|]. by rewrite run_items_cons. }
  split.
  - intros c Hc. apply (two_passes_out order Horder) with (unit := 1) (width := hidden) (h := h); try done; try lia.
    + apply nothing_separate.
    + intros w m1 m2 _ Heq. by rewrite !Heq by (intros z _ Hz; by apply not_elem_of_nil in Hz).
    + intros s w _. apply (add_square_columns s h).
    + intros. by apply scalar_pass2_separate.
    + intros cache inv w c' Hw' _ Hc'. assert (c' = w) as -> by lia. rewrite Hnop. eexists. split; [apply list_elem_of_here|done].
  - intros a Ha. rewrite (two_passes_elsewhere order Horder) with (unit := 1) (width := hidden) (h := h) (out := out + row * hidden) (hidden_size := hidden); try done; try lia.
    + by rewrite Hnop.
    + apply nothing_separate.
    + intros w m1 m2 _ Heq. by rewrite !Heq by (intros z _ Hz; by apply not_elem_of_nil in Hz).
    + intros s w _. apply (add_square_columns s h).
    + intros cache inv w a' Hw' Ha'. by apply (scalar_pass2_keys input inv w a').
Qed.

(** **** The fused kernels *)

Context (Hro : apart out (rows * hidden) residual (rows * hidden)) (Hri : apart residual (rows * hidden) input (rows * hidden))
  (Hrw : apart residual (rows * hidden) weight hidden).

(** The residual that replaces the old one. *)
Definition new_residual (c : Z) : half := residual_sum (m (residual + row * hidden + c)) (m (input + row * hidden + c)).

(** Rows of the residual and of the output after a fused block. *)
Definition normalizes_residual (total : F) (m' : mem) : Prop :=
  (∀ c, 0 <= c < hidden → m' (residual + row * hidden + c) = new_residual c) ∧
  (∀ c, 0 <= c < hidden → m' (out + row * hidden + c) =
     NormalizeAndWeight (__half2float (new_residual c)) (InvRms total hidden eps) (m (weight + c))) ∧
  ∀ a, (∀ c, 0 <= c < hidden → a ≠ out + row * hidden + c ∧ a ≠ residual + row * hidden + c) → m' a = m a.

Lemma after_pass1 (m1 m' : mem) total :
  (∀ c, 0 <= c < hidden → m1 (residual + row * hidden + c) = new_residual c) →
  (∀ a, (∀ c, 0 <= c < hidden → a ≠ residual + row * hidden + c) → m1 a = m a) →
  normalizes total (λ c, __half2float (new_residual c)) m1 m' → normalizes_residual total m'.
Proof using All.
  intros Hr Hf [Ho Ho']. split; [|split; [done|]].
  - intros c Hc. rewrite Ho'; [by apply Hr|]. intros c' Hc'. pose proof (row_cell c Hc). pose proof (row_cell c' Hc').
    unfold apart in Hro. lia.
  - intros a Ha. rewrite Ho' by (intros; by apply Ha). apply Hf. intros. by apply Ha.
Qed.

(** A first pass that stores the residual by words of [unit] columns. *)
Lemma pass1_after unit width words_of (item : Z → list (Z * (mem → half))) : covers unit width kBlock words_of → width * unit = hidden →
  separate item (seqZ 0 width) → (∀ w, (item w).*1 = map (λ c, residual + row * hidden + c) (columns unit w)) →
  (∀ w p, w ∈ seqZ 0 width → p ∈ item w → ∃ c, p.1 = residual + row * hidden + c ∧ p.2 m = new_residual c) →
  let m1 := run_items item (order row 1 (concat (map words_of (seqZ 0 kBlock)))) m in
  (∀ c, 0 <= c < hidden → m1 (residual + row * hidden + c) = new_residual c) ∧
  (∀ a, (∀ c, 0 <= c < hidden → a ≠ residual + row * hidden + c) → m1 a = m a).
Proof using All.
  intros Hcov Hw Hsep Hkeys Hval m1. set (it := order row 1 _) in m1.
  assert (it ≡ₚ seqZ 0 width) as Ho by (unfold it; rewrite Horder; apply (cv_once _ _ _ _ Hcov)).
  pose proof (cv_unit _ _ _ _ Hcov) as Hu. split.
  - intros c Hc. pose proof (Z.div_mod c unit ltac:(lia)) as Hd. pose proof (Z.mod_pos_bound c unit Hu).
    assert (c / unit ∈ seqZ 0 width) as Hin'.
    { apply elem_of_seqZ. split; [apply Z.div_pos; lia|rewrite Z.add_0_l; apply Z.div_lt_upper_bound; lia]. }
    assert (residual + row * hidden + c ∈ (item (c / unit)).*1) as Hk'.
    { rewrite Hkeys. apply list_elem_of_fmap. exists c. split; [done|]. apply list_elem_of_fmap. exists (c mod unit).
      split; [lia|apply elem_of_seqZ; lia]. }
    apply list_elem_of_fmap in Hk' as (p & Hp & Hpin). rewrite Hp. unfold m1.
    rewrite (run_items_spec item it m) with (y := c / unit); [|rewrite Ho; apply NoDup_seqZ|by eapply separate_perm|by rewrite Ho|done].
    destruct (Hval _ _ Hin' Hpin) as (c' & Hc' & ->). f_equal. lia.
  - intros a Ha. apply run_items_frame. intros w Hw' Hin'. rewrite Ho, elem_of_seqZ in Hw'. rewrite Hkeys in Hin'.
    apply list_elem_of_fmap in Hin' as (c & -> & (l & -> & Hl%elem_of_seqZ)%list_elem_of_fmap).
    assert (unit * (w + 1) <= unit * width) by (apply Z.mul_le_mono_nonneg_l; lia).
    assert (0 <= unit * w) by (apply Z.mul_nonneg_nonneg; lia). apply (Ha (unit * w + l)); [lia|done].
Qed.

Lemma RmsNormResidualVecKernel_row WPT words garbage : words * 2 = hidden → words <= WPT * kBlock →
  normalizes_residual (row_total 2 kBlock (vec_words kBlock WPT words) (λ c, __half2float (new_residual c)))
    (RmsNormResidualVecKernel order kBlock WPT out residual input weight rows words hidden eps garbage row m).
Proof using All.
  intros Hw Hcap. unfold RmsNormResidualVecKernel. destruct (Z.leb_spec rows row); [lia|].
  pose proof (vec_words_cover kBlock WPT words Hk ltac:(lia)) as Hcov.
  set (h c := __half2float (new_residual c)). cbv zeta.
  set (hw w m := residual_sum_two (load2 m residual (row * words + w)) (load2 m input (row * words + w))).
  match goal with |- normalizes_residual ?t (run_two_passes ?o ?k ?wo _ _ ?acc ?p2 ?r ?hs ?e ?g ?mm) =>
    change (normalizes_residual t (run_two_passes o k wo (λ w, store2 residual (row * words + w) (hw w))
      (λ w m, half22float2 (hw w m)) acc p2 r hs e g mm)) end.
  assert (∀ w, hw w m = (new_residual (2 * w), new_residual (2 * w + 1))) as Hhw.
  { intros w. unfold hw, residual_sum_two, half22float2, load2, new_residual, residual_sum. cbn [fst snd].
    f_equal; f_equal; f_equal; do 2 f_equal; lia. }
  assert (∀ w m1 m2, w ∈ seqZ 0 words →
    (∀ a, (a = residual + 2 * (row * words + w) ∨ a = residual + 2 * (row * words + w) + 1) ∨
      (∀ z, z ∈ seqZ 0 words → a ≠ residual + 2 * (row * words + z) ∧ a ≠ residual + 2 * (row * words + z) + 1) → m1 a = m2 a) →
    hw w m1 = hw w m2) as Hreads.
  { intros w m1 m2 Hin'%elem_of_seqZ Heq. unfold hw, load2.
    assert (∀ j, 0 <= j < 2 → m1 (input + 2 * (row * words + w) + j) = m2 (input + 2 * (row * words + w) + j)) as Hinp.
    { intros j Hj. apply Heq. right. intros z Hz%elem_of_seqZ. pose proof (row_cell (2 * w + j) ltac:(lia)).
      pose proof (row_cell (2 * z) ltac:(lia)). pose proof (row_cell (2 * z + 1) ltac:(lia)). unfold apart in Hri. lia. }
    pose proof (Hinp 0 ltac:(lia)) as H1. rewrite !Z.add_0_r in H1.
    by rewrite H1, (Hinp 1), !Heq by (lia || by left; lia). }
  clearbody hw.
  assert (separate (λ w, store2 residual (row * words + w) (hw w)) (seqZ 0 words)) as Hsep1 by (by apply store2_separate).
  destruct (pass1_after 2 words (vec_words kBlock WPT words) (λ w, store2 residual (row * words + w) (hw w)) Hcov Hw Hsep1) as [Hm1 Hf1].
  { intros w. rewrite store2_keys. unfold columns. change (seqZ 0 2) with [0; 1]. cbn -[Z.mul]. f_equal; [lia|]. f_equal. lia. }
  { intros w p _ Hp. apply elem_of_cons in Hp as [->|[->|[]%not_elem_of_nil]%elem_of_cons]; cbn -[Z.mul]; rewrite Hhw;
      [exists (2 * w)|exists (2 * w + 1)]; (split; [lia|done]). }
  apply (after_pass1 _ _ _ Hm1 Hf1).
  assert (∀ w m1 m2, w ∈ seqZ 0 words → (∀ a, (∀ z, z ∈ seqZ 0 words → a ∈ (store2 residual (row * words + z) (hw z)).*1 → z = w) → m1 a = m2 a) →
    half22float2 (hw w m1) = half22float2 (hw w m2)) as Hloc.
  { intros w m1 m2 Hw' Heq. f_equal. apply Hreads; [done|]. intros a Ha. apply Heq. intros z Hz Hin'. cbn -[Z.mul] in Hin'.
    destruct Ha as [Ha|Ha].
    - apply elem_of_cons in Hin' as [->|[->|[]%not_elem_of_nil]%elem_of_cons]; lia.
    - destruct (Ha z Hz). by apply elem_of_cons in Hin' as [->|[->|[]%not_elem_of_nil]%elem_of_cons]. }
  assert (∀ w, half22float2 (hw w m) = (h (2 * w), h (2 * w + 1))) as Hval by (intros w; by rewrite Hhw).
  split.
  - intros c Hc. apply (two_passes_out order Horder) with (unit := 2) (width := words) (h := h); try done.
    + intros s w _. rewrite Hval. apply add_square2_columns.
    + intros. by apply vec_pass2_separate.
    + intros cache inv w c' Hw' Hcache Hc'. apply vec_pass2_out; try done; [by rewrite Hcache, Hval|].
      intros c0 Hc0. apply Hf1. intros c1 Hc1. pose proof (row_cell c1 Hc1). unfold apart in Hrw. lia.
  - intros a Ha. rewrite (two_passes_elsewhere order Horder) with (unit := 2) (width := words) (h := h) (out := out + row * hidden) (hidden_size := hidden); try done.
    + intros s w _. rewrite Hval. apply add_square2_columns.
    + intros cache inv w a' Hw' Ha'. by apply (vec_pass2_keys words cache inv w a').
Qed.

Lemma RmsNormResidualKernel_row garbage :
  normalizes_residual (row_total 1 kBlock (scalar_words kBlock hidden) (λ c, __half2float (new_residual c)))
    (RmsNormResidualKernel order kBlock out residual input weight rows hidden eps garbage row m).
Proof using All.
  unfold RmsNormResidualKernel. destruct (Z.leb_spec rows row); [lia|]. pose proof scalar_covered as Hcov.
  set (h c := __half2float (new_residual c)). cbv zeta.
  set (hc c (m : mem) := residual_sum (m (residual + row * hidden + c)) (m (input + row * hidden + c))).
  match goal with |- normalizes_residual ?t (run_two_passes ?o ?k ?wo _ _ ?acc ?p2 ?r ?hs ?e ?g ?mm) =>
    change (normalizes_residual t (run_two_passes o k wo (λ c, [(residual + row * hidden + c, hc c)])
      (λ c m, __half2float (hc c m)) acc p2 r hs e g mm)) end.
  assert (∀ c m1 m2, c ∈ seqZ 0 hidden →
    (∀ a, a = residual + row * hidden + c ∨ (∀ z, z ∈ seqZ 0 hidden → a ≠ residual + row * hidden + z) → m1 a = m2 a) → hc c m1 = hc c m2) as Hreads.
  { intros c m1 m2 Hc%elem_of_seqZ Heq. unfold hc. f_equal; apply Heq; [by left|right].
    intros z Hz%elem_of_seqZ. pose proof (row_cell c ltac:(lia)). pose proof (row_cell z ltac:(lia)). unfold apart in Hri. lia. }
  assert (∀ c, hc c m = new_residual c) as Hhc by done. clearbody hc.
  assert (separate (λ c, [(residual + row * hidden + c, hc c)]) (seqZ 0 hidden)) as Hsep1 by (by apply store1_separate).
  destruct (pass1_after 1 hidden (scalar_words kBlock hidden) (λ c, [(residual + row * hidden + c, hc c)]) Hcov ltac:(lia) Hsep1) as [Hm1 Hf1].
  { intros c. unfold columns. change (seqZ 0 1) with [0]. cbn -[Z.mul]. f_equal. lia. }
  { intros c p _ ->%list_elem_of_singleton. exists c. split; [done|apply Hhc]. }
  apply (after_pass1 _ _ _ Hm1 Hf1).
  assert (∀ c m1 m2, c ∈ seqZ 0 hidden → (∀ a, (∀ z, z ∈ seqZ 0 hidden → a ∈ [(residual + row * hidden + z, hc z)].*1 → z = c) → m1 a = m2 a) →
    __half2float (hc c m1) = __half2float (hc c m2)) as Hloc.
  { intros c m1 m2 Hc' Heq. f_equal. apply Hreads; [done|]. intros a Ha. apply Heq. intros z Hz ->%list_elem_of_singleton. cbn in Ha.
    destruct Ha as [Ha|Ha]; [lia|by destruct (Ha z Hz)]. }
  assert (∀ c, 0 <= c < hidden → ∀ m1, m1 = run_items (λ c, [(residual + row * hidden + c, hc c)])
    (order row 1 (concat (map (scalar_words kBlock hidden) (seqZ 0 kBlock)))) m → m1 (weight + c) = m (weight + c)) as Hwm.
  { intros c Hc m1 ->. apply Hf1. intros c1 Hc1. pose proof (row_cell c1 Hc1). unfold apart in Hrw. lia. }
  split.
  - intros c Hc. apply (two_passes_out order Horder) with (unit := 1) (width := hidden) (h := h); try done; try lia.
    + intros s w _. rewrite Hhc. apply (add_square_columns s h).
    + intros. by apply scalar_pass2_separate.
    + intros cache inv w c' Hw'%elem_of_seqZ _ Hc'. assert (c' = w) as -> by lia. eexists. split; [apply list_elem_of_here|].
      split; [done|]. cbn. by rewrite Hm1, (Hwm w ltac:(lia) _ eq_refl) by lia.
  - intros a Ha. rewrite (two_passes_elsewhere order Horder) with (unit := 1) (width := hidden) (h := h) (out := out + row * hidden) (hidden_size := hidden); try done; try lia.
    + intros s w _. rewrite Hhc. apply (add_square_columns s h).
    + intros cache inv w a' Hw' Ha'. by apply (scalar_pass2_keys residual inv w a').
Qed.

End row.

(** ** The grid *)

Section grid.
Context (out residual input weight rows hidden : Z) (eps : F) (total : (Z → F) → F) (k : list Z).
Context (Hhidden : 0 < hidden) (Hk : k ≡ₚ seqZ 0 rows).
Context (Hin : apart out (rows * hidden) input (rows * hidden)) (Hwt : apart out (rows * hidden) weight hidden).
Context (Htotal : ∀ h h', (∀ c, 0 <= c < hidden → h c = h' c) → total h = total h').

Lemma grid_cell r c : 0 <= r < rows → 0 <= c < hidden → 0 <= r * hidden + c < rows * hidden.
Proof using Hhidden. intros. split; [nia|]. assert ((r + 1) * hidden <= rows * hidden) by (apply Z.mul_le_mono_nonneg_r; lia). lia. Qed.

Lemma cell_row p r c r' c' : 0 <= c < hidden → 0 <= c' < hidden → p + r * hidden + c = p + r' * hidden + c' → r = r' ∧ c = c'.
Proof using Hhidden. intros. apply (radix hidden); lia. Qed.

Lemma grid_normalizes (block : Z → mem → mem) m :
  (∀ r m, 0 <= r < rows → let h c := __half2float (m (input + r * hidden + c)) in
    normalizes out weight hidden r eps m (total h) h m (block r m)) →
  (∀ r c, 0 <= r < rows → 0 <= c < hidden → let h c := __half2float (m (input + r * hidden + c)) in
    run_blocks block k m (out + r * hidden + c) = NormalizeAndWeight (h c) (InvRms (total h) hidden eps) (m (weight + c))) ∧
  ∀ a, (∀ r c, 0 <= r < rows → 0 <= c < hidden → a ≠ out + r * hidden + c) → run_blocks block k m a = m a.
Proof using All.
  intros Hb. set (foot := λ r a, ∃ c, 0 <= c < hidden ∧ a = out + r * hidden + c).
  assert (∀ x, x ∈ k → 0 <= x < rows) as Hr by (intros x Hx; rewrite Hk, elem_of_seqZ in Hx; lia).
  assert (∀ x m a, x ∈ k → ¬ foot x a → block x m a = m a) as Hframe.
  { intros x m' a Hx Ha. apply (Hb x m' (Hr x Hx)). intros c Hc ->. apply Ha. by exists c. }
  assert (∀ x y a, x ∈ k → y ∈ k → foot x a → foot y a → x = y) as Hown.
  { intros x y a _ _ (c & Hc & ->) (c' & Hc' & He). by destruct (cell_row out x c y c' Hc Hc' He). }
  assert (∀ x a m1 m2, x ∈ k → foot x a → (∀ b, (∀ y, y ∈ k → foot y b → y = x) → m1 b = m2 b) → block x m1 a = block x m2 a) as Hdep.
  { intros x a m1 m2 Hx (c1 & Hc1 & ->) Heq. specialize (Hr x Hx).
    assert (∀ b, (∀ y c, 0 <= y < rows → 0 <= c < hidden → b ≠ out + y * hidden + c) → m1 b = m2 b) as Hsame.
    { intros b Hbb. apply Heq. intros y Hy (c2 & Hc2 & ->). rewrite Hk, elem_of_seqZ in Hy. by destruct (Hbb y c2 ltac:(lia) Hc2). }
    destruct (Hb x m1 Hr) as [Ho1 _], (Hb x m2 Hr) as [Ho2 _]. rewrite Ho1, Ho2 by done.
    assert (∀ c, 0 <= c < hidden → m1 (input + x * hidden + c) = m2 (input + x * hidden + c)) as Hi.
    { intros c2 Hc2. apply Hsame. intros y c3 Hy Hc3. pose proof (grid_cell x c2 Hr Hc2). pose proof (grid_cell y c3 Hy Hc3). unfold apart in Hin. lia. }
    rewrite (Hi c1 Hc1), (Htotal _ (λ c, __half2float (m2 (input + x * hidden + c)))) by (intros; by rewrite Hi).
    f_equal. apply Hsame. intros y c3 Hy Hc3. pose proof (grid_cell y c3 Hy Hc3). unfold apart in Hwt. lia. }
  split.
  - intros r c Hr' Hc h. assert (r ∈ k) as Hrk by (rewrite Hk; apply elem_of_seqZ; lia).
    assert (NoDup k) as Hnd by (rewrite Hk; apply NoDup_seqZ). destruct (Hb r m Hr') as [Ho1 _].
    rewrite (run_blocks_spec block foot k Hframe Hown Hdep) with (x := r); auto. by exists c.
  - intros a Ha. apply (run_blocks_frame block foot k Hframe); [done|]. intros x Hx (c & Hc & ->). by apply (Ha x c (Hr x Hx) Hc).
Qed.

Context (Hro : apart out (rows * hidden) residual (rows * hidden)) (Hri : apart residual (rows * hidden) input (rows * hidden))
  (Hrw : apart residual (rows * hidden) weight hidden).

Lemma grid_normalizes_residual (block : Z → mem → mem) m :
  (∀ r m, 0 <= r < rows → normalizes_residual out residual input weight hidden r eps m
     (total (λ c, __half2float (new_residual residual input hidden r m c))) (block r m)) →
  (∀ r c, 0 <= r < rows → 0 <= c < hidden → let h := new_residual residual input hidden r m in
    run_blocks block k m (residual + r * hidden + c) = h c ∧
    run_blocks block k m (out + r * hidden + c) =
      NormalizeAndWeight (__half2float (h c)) (InvRms (total (λ c, __half2float (h c))) hidden eps) (m (weight + c))) ∧
  ∀ a, (∀ r c, 0 <= r < rows → 0 <= c < hidden → a ≠ out + r * hidden + c ∧ a ≠ residual + r * hidden + c) → run_blocks block k m a = m a.
Proof using All.
  intros Hb. set (foot := λ r a, ∃ c, 0 <= c < hidden ∧ (a = out + r * hidden + c ∨ a = residual + r * hidden + c)).
  assert (∀ x, x ∈ k → 0 <= x < rows) as Hr by (intros x Hx; rewrite Hk, elem_of_seqZ in Hx; lia).
  assert (∀ x m a, x ∈ k → ¬ foot x a → block x m a = m a) as Hframe.
  { intros x m' a Hx Ha. apply (Hb x m' (Hr x Hx)). intros c Hc. split; intros ->; apply Ha; exists c; auto. }
  assert (∀ x y a, x ∈ k → y ∈ k → foot x a → foot y a → x = y) as Hown.
  { intros x y a Hx Hy (c & Hc & Ha) (c' & Hc' & Ha'). pose proof (grid_cell x c (Hr x Hx) Hc). pose proof (grid_cell y c' (Hr y Hy) Hc').
    unfold apart in Hro. destruct Ha as [->| ->], Ha' as [He|He]; try lia; by destruct (cell_row _ x c y c' Hc Hc' He). }
  assert (∀ x a m1 m2, x ∈ k → foot x a → (∀ b, (∀ y, y ∈ k → foot y b → y = x) → m1 b = m2 b) → block x m1 a = block x m2 a) as Hdep.
  { intros x a m1 m2 Hx (c1 & Hc1 & Ha) Heq. specialize (Hr x Hx).
    assert (∀ c, 0 <= c < hidden → m1 (input + x * hidden + c) = m2 (input + x * hidden + c)) as Hi.
    { intros c2 Hc2. apply Heq. intros y Hy (c3 & Hc3 & He). rewrite Hk, elem_of_seqZ in Hy. pose proof (grid_cell x c2 Hr Hc2).
      pose proof (grid_cell y c3 ltac:(lia) Hc3). unfold apart in Hin, Hri. lia. }
    assert (∀ c, 0 <= c < hidden → m1 (residual + x * hidden + c) = m2 (residual + x * hidden + c)) as Hre.
    { intros c2 Hc2. apply Heq. intros y Hy Hf. eapply Hown; [done|by rewrite Hk, elem_of_seqZ; lia|done|]. exists c2. auto. }
    assert (∀ c, 0 <= c < hidden → m1 (weight + c) = m2 (weight + c)) as Hw.
    { intros c2 Hc2. apply Heq. intros y Hy (c3 & Hc3 & He). rewrite Hk, elem_of_seqZ in Hy.
      pose proof (grid_cell y c3 ltac:(lia) Hc3). unfold apart in Hwt, Hrw. lia. }
    assert (∀ c, 0 <= c < hidden → new_residual residual input hidden x m1 c = new_residual residual input hidden x m2 c) as Hn
      by (intros c Hc; unfold new_residual; by rewrite Hi, Hre).
    destruct (Hb x m1 Hr) as (Hr1 & Ho1 & _), (Hb x m2 Hr) as (Hr2 & Ho2 & _).
    destruct Ha as [->| ->]; [|by rewrite Hr1, Hr2, Hn].
    rewrite Ho1, Ho2, Hn, Hw, (Htotal _ (λ c, __half2float (new_residual residual input hidden x m2 c))) by (done || (intros; by rewrite Hn)). done. }
  split.
  - intros r c Hr' Hc h. assert (r ∈ k) as Hrk by (rewrite Hk; apply elem_of_seqZ; lia). destruct (Hb r m Hr') as (Hr1 & Ho1 & _).
    assert (NoDup k) as Hnd by (rewrite Hk; apply NoDup_seqZ).
    split; rewrite (run_blocks_spec block foot k Hframe Hown Hdep) with (x := r); auto; exists c; auto.
  - intros a Ha. apply (run_blocks_frame block foot k Hframe); [done|]. intros x Hx (c & Hc & Hcc). destruct (Ha x c (Hr x Hx) Hc).
    by destruct Hcc.
Qed.

End grid.

(** ** The launchers *)

Definition schedule_ok (sch : rms_schedule) : Prop :=
  (∀ l, rs_rows sch l ≡ₚ l) ∧ ∀ row pass l, rs_order sch row pass l ≡ₚ l.

(** The partition of the columns a launch uses, and the total it gives a row. *)
Definition launch_total (vec : bool) (kBlock hidden : Z) : (Z → F) → F :=
  if vec then row_total 2 kBlock (vec_words kBlock (rms_slice (rms_wpt kBlock hidden)) (Z.quot hidden 2))
  else row_total 1 kBlock (scalar_words kBlock hidden).

(** The half2 path's register slice covers the row. *)
Lemma slice_covers kBlock hidden : 0 < kBlock → 0 < hidden → Z.rem hidden 2 = 0 → rms_wpt kBlock hidden <= kMaxWordsPerThread →
  Z.quot hidden 2 * 2 = hidden ∧ 0 <= Z.quot hidden 2 <= rms_slice (rms_wpt kBlock hidden) * kBlock.
Proof.
  intros Hk Hh He. unfold rms_wpt, kMaxWordsPerThread. pose proof (Z.quot_rem' hidden 2) as Hq. set (words := Z.quot hidden 2) in *.
  assert (0 < words) as Hw by lia. rewrite Z.quot_div_nonneg by lia. set (wpt := (words + kBlock - 1) / kBlock). intros Hcap.
  pose proof (Z.div_mod (words + kBlock - 1) kBlock ltac:(lia)) as Hd. pose proof (Z.mod_pos_bound (words + kBlock - 1) kBlock Hk) as Hm.
  fold wpt in Hd. assert (1 <= wpt) as H1 by nia. split; [lia|]. split; [lia|].
  assert (wpt <= rms_slice wpt) as Hs.
  { unfold rms_slice, kMaxWordsPerThread. destruct (Z.eqb_spec wpt 1), (Z.eqb_spec wpt 2), (Z.eqb_spec wpt 3); lia. }
  assert (wpt * kBlock <= rms_slice wpt * kBlock) by (apply Z.mul_le_mono_nonneg_r; lia). nia.
Qed.

Lemma launch_covers (vec : bool) kBlock hidden : 0 < kBlock → 0 < hidden →
  (if vec then Z.rem hidden 2 = 0 ∧ rms_wpt kBlock hidden <= kMaxWordsPerThread else True) →
  ∃ unit width words_of, covers unit width kBlock words_of ∧ width * unit = hidden ∧
    launch_total vec kBlock hidden = row_total unit kBlock words_of.
Proof.
  intros Hk Hh Hv. unfold launch_total. destruct vec.
  - destruct Hv as [He Hc]. destruct (slice_covers kBlock hidden Hk Hh He Hc) as [Hw Hcap].
    exists 2, (Z.quot hidden 2), (vec_words kBlock (rms_slice (rms_wpt kBlock hidden)) (Z.quot hidden 2)).
    split; [by apply vec_words_cover|done].
  - exists 1, hidden, (scalar_words kBlock hidden). split; [apply scalar_words_cover; lia|]. split; [lia|done].
Qed.

Lemma launch_total_ext (vec : bool) kBlock hidden h h' : 0 < kBlock → 0 < hidden →
  (if vec then Z.rem hidden 2 = 0 ∧ rms_wpt kBlock hidden <= kMaxWordsPerThread else True) →
  (∀ c, 0 <= c < hidden → h c = h' c) → launch_total vec kBlock hidden h = launch_total vec kBlock hidden h'.
Proof.
  intros Hk Hh Hv Heq. destruct (launch_covers vec kBlock hidden Hk Hh Hv) as (u & w & wo & Hcov & Hw & ->).
  apply (row_total_ext u kBlock wo hidden); [|done]. intros tid Ht. rewrite <- Hw. by apply (cv_columns u w kBlock wo).
Qed.

Lemma launch_total_sum (vec : bool) kWarps hidden h : CommMonoid fadd f_zero → 0 < kWarps → 0 < hidden →
  (if vec then Z.rem hidden 2 = 0 ∧ rms_wpt (32 * kWarps) hidden <= kMaxWordsPerThread else True) →
  launch_total vec (32 * kWarps) hidden h = big fadd f_zero (map (λ c, fmul (h c) (h c)) (seqZ 0 hidden)).
Proof.
  intros Hadd Hk Hh Hv. destruct (launch_covers vec (32 * kWarps) hidden ltac:(lia) Hh Hv) as (u & w & wo & [Hu Hw0 Ho _] & Hw & ->).
  rewrite (row_total_sum Hadd u w kWarps wo h Hu Hw0 Hk Ho). by rewrite Hw.
Qed.

(** The block size, as warps. *)
Lemma block_warps compute_major : ∃ kWarps, 0 < kWarps ∧ (if 8 <=? compute_major then kBlockSm80 else kBlockPre80) = 32 * kWarps.
Proof. destruct (8 <=? compute_major); [exists 16|exists 8]; done. Qed.

Lemma half2_guard (b : bool) hidden wpt : (Z.rem hidden 2 =? 0) && (wpt <=? kMaxWordsPerThread) && b = true →
  Z.rem hidden 2 = 0 ∧ wpt <= kMaxWordsPerThread.
Proof. intros [[?%Z.eqb_eq ?%Z.leb_le]%andb_true_iff _]%andb_true_iff. done. Qed.

(** The plain launch: out = rmsnorm(input) * weight on every row. *)
Theorem rms_norm_result NDEBUG compute_major out input weight hidden eps :
  0 < hidden → ∃ total : (Z → F) → F,
    (∀ h h', (∀ c, 0 <= c < hidden → h c = h' c) → total h = total h') ∧
    (CommMonoid fadd f_zero → ∀ h, total h = big fadd f_zero (map (λ c, fmul (h c) (h c)) (seqZ 0 hidden))) ∧
    ∀ sch rows m, schedule_ok sch → 0 < rows →
      apart out (rows * hidden) input (rows * hidden) → apart out (rows * hidden) weight hidden →
      ∃ m', LaunchRmsNorm sch NDEBUG compute_major out input weight rows hidden eps m = Some m' ∧
        (∀ r c, 0 <= r < rows → 0 <= c < hidden → let h c := __half2float (m (input + r * hidden + c)) in
          let inv_rms := rsqrtf (fadd (fdiv (total h) (f_of_int hidden)) eps) in
          m' (out + r * hidden + c) =
            __float2half_rn (fmul (__half2float (__float2half_rn (fmul (h c) inv_rms))) (__half2float (m (weight + c))))) ∧
        ∀ a, (∀ r c, 0 <= r < rows → 0 <= c < hidden → a ≠ out + r * hidden + c) → m' a = m a.
Proof.
  intros Hh. destruct (block_warps compute_major) as (kWarps & Hkw & Hkb).
  set (guard := (Z.rem hidden 2 =? 0) && (rms_wpt (32 * kWarps) hidden <=? kMaxWordsPerThread) && (IsHalf2Aligned out && IsHalf2Aligned input && IsHalf2Aligned weight)).
  assert (if guard then Z.rem hidden 2 = 0 ∧ rms_wpt (32 * kWarps) hidden <= kMaxWordsPerThread else True) as Hv.
  { destruct guard eqn:Hg; [|done]. by eapply half2_guard. }
  exists (launch_total guard (32 * kWarps) hidden). split; [intros h h' Hq; apply launch_total_ext; [lia|done|exact Hv|exact Hq]|]. split; [intros; by apply launch_total_sum|].
  intros sch rows m [Hrows Horder] Hr Hin Hwt. unfold LaunchRmsNorm.
  destruct (Z.leb_spec rows 0), (Z.leb_spec hidden 0); try lia. cbn [orb].
  assert (negb NDEBUG && (out =? input) = false) as ->.
  { rewrite andb_false_iff, Z.eqb_neq. right. unfold apart in Hin. assert (0 < rows * hidden) by nia. lia. }
  eexists. split; [done|]. rewrite Hkb. unfold LaunchRmsNormImpl.
  assert ((Z.rem hidden 2 =? 0) && (rms_wpt (32 * kWarps) hidden <=? kMaxWordsPerThread) && IsHalf2Aligned out && IsHalf2Aligned input && IsHalf2Aligned weight = guard) as ->
    by (unfold guard; by rewrite !andb_assoc).
  assert (0 < 32 * kWarps) as Hk0 by lia.
  pose proof (launch_total_ext guard (32 * kWarps) hidden) as Hext. unfold launch_total in *.
  destruct guard;
    (eapply grid_normalizes; [exact 0|done|apply Hrows|done|done|intros h h' Hq; apply Hext; [done|done|done|exact Hq]|]); intros r m0 Hrr h.
  - destruct Hv as [He Hc]. destruct (slice_covers (32 * kWarps) hidden Hk0 Hh He Hc) as [Hw Hcap].
    apply RmsNormVecKernel_row; (done || lia).
  - apply (RmsNormKernel_row (rs_order sch) Horder); (done || lia).
Qed.

(** The fused launch, with a total that depends on the row alone. *)
Lemma rms_residual_launch NDEBUG compute_major out residual input weight hidden eps :
  0 < hidden → ∃ total : (Z → F) → F,
    (∀ h h', (∀ c, 0 <= c < hidden → h c = h' c) → total h = total h') ∧
    (CommMonoid fadd f_zero → ∀ h, total h = big fadd f_zero (map (λ c, fmul (h c) (h c)) (seqZ 0 hidden))) ∧
    ∀ sch rows m, schedule_ok sch → 0 < rows →
      apart out (rows * hidden) input (rows * hidden) → apart out (rows * hidden) weight hidden →
      apart out (rows * hidden) residual (rows * hidden) → apart residual (rows * hidden) input (rows * hidden) →
      apart residual (rows * hidden) weight hidden →
      ∃ m', LaunchRmsNormResidual sch NDEBUG compute_major out residual input weight rows hidden eps m = Some m' ∧
        (∀ r c, 0 <= r < rows → 0 <= c < hidden →
          let h c := __float2half_rn (fadd (__half2float (m (residual + r * hidden + c))) (__half2float (m (input + r * hidden + c)))) in
          let inv_rms := rsqrtf (fadd (fdiv (total (λ c, __half2float (h c))) (f_of_int hidden)) eps) in
          m' (residual + r * hidden + c) = h c ∧
          m' (out + r * hidden + c) =
            __float2half_rn (fmul (__half2float (__float2half_rn (fmul (__half2float (h c)) inv_rms))) (__half2float (m (weight + c))))) ∧
        ∀ a, (∀ r c, 0 <= r < rows → 0 <= c < hidden → a ≠ out + r * hidden + c ∧ a ≠ residual + r * hidden + c) → m' a = m a.
Proof.
  intros Hh. destruct (block_warps compute_major) as (kWarps & Hkw & Hkb).
  set (guard := (Z.rem hidden 2 =? 0) && (rms_wpt (32 * kWarps) hidden <=? kMaxWordsPerThread) &&
    (IsHalf2Aligned out && IsHalf2Aligned residual && IsHalf2Aligned input && IsHalf2Aligned weight)).
  assert (if guard then Z.rem hidden 2 = 0 ∧ rms_wpt (32 * kWarps) hidden <= kMaxWordsPerThread else True) as Hv.
  { destruct guard eqn:Hg; [|done]. by eapply half2_guard. }
  exists (launch_total guard (32 * kWarps) hidden). split; [intros h h' Hq; apply launch_total_ext; [lia|done|exact Hv|exact Hq]|]. split; [intros; by apply launch_total_sum|].
  intros sch rows m [Hrows Horder] Hr Hin Hwt Hro Hri Hrw. unfold LaunchRmsNormResidual.
  destruct (Z.leb_spec rows 0), (Z.leb_spec hidden 0); try lia. cbn [orb].
  assert (negb NDEBUG && ((out =? residual) || (out =? input) || (residual =? input)) = false) as ->.
  { rewrite andb_false_iff, !orb_false_iff, !Z.eqb_neq. right. unfold apart in *. assert (0 < rows * hidden) by nia. lia. }
  eexists. split; [done|]. rewrite Hkb. unfold LaunchRmsNormResidualImpl.
  assert ((Z.rem hidden 2 =? 0) && (rms_wpt (32 * kWarps) hidden <=? kMaxWordsPerThread) && IsHalf2Aligned out && IsHalf2Aligned residual &&
    IsHalf2Aligned input && IsHalf2Aligned weight = guard) as -> by (unfold guard; by rewrite !andb_assoc).
  assert (0 < 32 * kWarps) as Hk0 by lia.
  pose proof (launch_total_ext guard (32 * kWarps) hidden) as Hext. unfold launch_total in *.
  destruct guard;
    (eapply grid_normalizes_residual; [done|apply Hrows|done|done|intros h h' Hq; apply Hext; [done|done|done|exact Hq]|done|done|done|]); intros r m0 Hrr.
  - destruct Hv as [He Hc]. destruct (slice_covers (32 * kWarps) hidden Hk0 Hh He Hc) as [Hw Hcap].
    apply RmsNormResidualVecKernel_row; (done || lia).
  - apply (RmsNormResidualKernel_row (rs_order sch) Horder); (done || lia).
Qed.

(** C38. The fused launch: every row's residual becomes the rounded sum, every row of
    the output the weighted normalisation of that rounded residual.  The total a
    row is normalised by is a function of the [hidden] columns of that row alone
    - the same for any number of rows, any schedule, any contents of the other
    rows or of the memory beyond - and, when additions are exact, the sum of the row's squares. *)
Theorem rms_norm_residual_result NDEBUG compute_major out residual input weight hidden eps :
  0 < hidden → ∃ total : (Z → F) → F,
    (∀ h h', (∀ c, 0 <= c < hidden → h c = h' c) → total h = total h') ∧
    (CommMonoid fadd f_zero → ∀ h, total h = big fadd f_zero (map (λ c, fmul (h c) (h c)) (seqZ 0 hidden))) ∧
    ∀ sch rows m, schedule_ok sch → 0 < rows →
      apart out (rows * hidden) input (rows * hidden) → apart out (rows * hidden) weight hidden →
      apart out (rows * hidden) residual (rows * hidden) → apart residual (rows * hidden) input (rows * hidden) →
      apart residual (rows * hidden) weight hidden →
      ∃ m', LaunchRmsNormResidual sch NDEBUG compute_major out residual input weight rows hidden eps m = Some m' ∧
        (∀ r c, 0 <= r < rows → 0 <= c < hidden →
          let h c := __float2half_rn (fadd (__half2float (m (residual + r * hidden + c))) (__half2float (m (input + r * hidden + c)))) in
          let inv_rms := rsqrtf (fadd (fdiv (total (λ c, __half2float (h c))) (f_of_int hidden)) eps) in
          m' (residual + r * hidden + c) = h c ∧
          m' (out + r * hidden + c) =
            __float2half_rn (fmul (__half2float (__float2half_rn (fmul (__half2float (h c)) inv_rms))) (__half2float (m (weight + c))))) ∧
        ∀ a, (∀ r c, 0 <= r < rows → 0 <= c < hidden → a ≠ out + r * hidden + c ∧ a ≠ residual + r * hidden + c) → m' a = m a.
Proof.
  intros Hh. destruct (rms_residual_launch NDEBUG compute_major out residual input weight hidden eps Hh) as (total & Hext & Hsum & Hrun).
  by exists total.
Qed.

End kernel.

(** Two rows of four columns in exact arithmetic. *)
Lemma rms_norm_residual_result_witness :
  let m a := Some (IZR a) in
  ∃ m', LaunchRmsNormResidual (H := real_ops) (mkRms (@rev Z) (λ _ _, @rev Z) (λ _, (None, None)) (λ _, None)) false 8 0 8 16 24 2 4 (Some 1%R) m = Some m' ∧
    m' (8 + 1 * 4 + 2) = Some (14 + 22)%R ∧ m' 30 = m 30.
Proof.
  intros m. destruct (rms_norm_residual_result (H := real_ops) false 8 0 8 16 24 4 (Some 1%R) ltac:(lia)) as (total & _ & _ & Hrun).
  destruct (Hrun (mkRms (@rev Z) (λ _ _, @rev Z) (λ _, (None, None)) (λ _, None)) 2 m) as (m' & Hm' & Hval & Hframe);
    [split; intros; cbn; symmetry; apply Permutation_rev|lia|unfold apart; lia..|].
  exists m'. split; [exact Hm'|]. split; [|apply Hframe; intros; lia].
  destruct (Hval 1 2 ltac:(lia) ltac:(lia)) as [-> _]. reflexivity.
Defined.
