(* ===== verification/PrefillSoftmax.v ===== *)
(** * The causal softmax of the prefill attention ([kernels/prefill_attention.cu])

    One block of 256 threads per (query row, head) of the dense
    [num_q_heads x chunk_len x kv_len] scores: a maximum and a sum over the live
    keys, then one store per key.  Masked keys are never read; their
    probabilities are stored as zeros. *)

From Stdlib Require Import Reals Lra.
From S2P Require Import Prelude Doubles Types KvPool DeviceMath SiluMul Rope Reduce RealMath.

#[local] Open Scope Z_scope.

Definition kSoftmaxThreads : Z := 256.

Section kernel.
Context {F half : Type} `{FloatOps F half}.
Notation mem := (Z → half).

(** The offsets of the halving trees: 128, 64, ..., 1. *)
Definition half_offsets : list Z := halves 8.

Definition BlockReduceMax (v : Z → F) : F := halving_tree fmaxf half_offsets v 0.
Definition SoftmaxReduceSum (v : Z → F) : F := halving_tree fadd half_offsets v 0.

(** The count of live keys of query row [row]. *)
Definition live_keys (kv_len chunk_start row : Z) : Z :=
  let q_pos := chunk_start + row in if q_pos + 1 <? kv_len then q_pos + 1 else kv_len.

(** Passes 1 and 2 over the score row [s]. *)
Definition row_max (s : Z → F) (live : Z) : F :=
  BlockReduceMax (λ tid, foldl (λ local_max j, fmaxf local_max (s j)) f_lowest (strided tid kSoftmaxThreads live)).
Definition row_denom (s : Z → F) (live : Z) : F :=
  let mx := row_max s live in
  SoftmaxReduceSum (λ tid, foldl (λ local_sum j, fadd local_sum (expf (fsub (s j) mx))) f_zero (strided tid kSoftmaxThreads live)).

Definition PrefillCausalSoftmaxKernel (order : list Z → list Z) (probs : Z) (scores : Z → F) (chunk_len kv_len chunk_start : Z)
    (rh : Z * Z) (m : mem) : mem :=
  let (row, head) := rh in
  if chunk_len <=? row then m else
  let row_offset := (head * chunk_len + row) * kv_len in
  let s_row j := scores (row_offset + j) in
  let p_row := probs + row_offset in
  let live := live_keys kv_len chunk_start row in
  let mx := row_max s_row live in
  let denom := row_denom s_row live in
  let p j := if j <? live then fdiv (expf (fsub (s_row j) mx)) denom else f_zero in
  run_items (λ j, [(p_row + j, λ _, __float2half_rn (p j))]) (order (block_strided kSoftmaxThreads kv_len)) m.

(** [orders] gives the order of the blocks and of the stores of each block. *)
Definition LaunchPrefillSoftmax (NDEBUG : bool) (blocks : list (Z * Z) → list (Z * Z)) (orders : Z * Z → list Z → list Z)
    (probs : Z) (scores : Z → F) (num_q_heads chunk_len kv_len chunk_start : Z) (m : mem) : option mem :=
  if (num_q_heads <=? 0) || (chunk_len <=? 0) || (kv_len <=? 0) then Some m else
  if negb NDEBUG && negb ((0 <=? chunk_start) && (chunk_start + chunk_len <=? kv_len)) then None else
  let grid := concat (map (λ row, map (λ head, (row, head)) (seqZ 0 num_q_heads)) (seqZ 0 chunk_len)) in
  Some (run_blocks (λ rh, PrefillCausalSoftmaxKernel (orders rh) probs scores chunk_len kv_len chunk_start rh) (blocks grid) m).

(** ** What a launch stores, on any arithmetic *)

(** The probability of key [j] of a row with [live] live keys. *)
Definition probability (s : Z → F) (live j : Z) : F :=
  if j <? live then fdiv (expf (fsub (s j) (row_max s live))) (row_denom s live) else f_zero.

(** Only the live prefix of the scores matters. *)
Lemma strided_live tid live j : 0 <= tid → j ∈ strided tid kSoftmaxThreads live → 0 <= j < live.
Proof. intros Ht (k & Hk & -> & Hl)%strided_inv; [unfold kSoftmaxThreads in *; lia|done]. Qed.

Lemma row_max_ext s s' live : (∀ j, 0 <= j < live → s j = s' j) → row_max s live = row_max s' live.
Proof.
  intros Hs. apply halving_ext; [|lia]. intros tid Ht.
  assert (∀ l x, (∀ j, j ∈ l → 0 <= j < live) → foldl (λ m j, fmaxf m (s j)) x l = foldl (λ m j, fmaxf m (s' j)) x l) as Hl.
  { induction l as [|j l IH]; intros x Hin; [done|]. cbn. rewrite Hs by apply Hin, list_elem_of_here.
    apply IH. intros i Hi. by apply Hin, list_elem_of_further. }
  apply Hl. intros j. by apply strided_live.
Qed.

Lemma row_denom_ext s s' live : (∀ j, 0 <= j < live → s j = s' j) → row_denom s live = row_denom s' live.
Proof.
  intros Hs. unfold row_denom. rewrite (row_max_ext s s' live Hs). apply halving_ext; [|lia]. intros tid Ht.
  assert (∀ mx l x, (∀ j, j ∈ l → 0 <= j < live) →
    foldl (λ a j, fadd a (expf (fsub (s j) mx))) x l = foldl (λ a j, fadd a (expf (fsub (s' j) mx))) x l) as Hl.
  { intros mx. induction l as [|j l IH]; intros x Hin; [done|]. cbn. rewrite Hs by apply Hin, list_elem_of_here.
    apply IH. intros i Hi. by apply Hin, list_elem_of_further. }
  apply Hl. intros j. by apply strided_live.
Qed.

Lemma probability_ext s s' live j : 0 <= j → (∀ j, 0 <= j < live → s j = s' j) → probability s live j = probability s' live j.
Proof.
  intros Hj Hs. unfold probability. destruct (Z.ltb_spec j live); [|done].
  by rewrite (row_max_ext s s' live Hs), (row_denom_ext s s' live Hs), Hs.
Qed.

(** Every key of every row gets its probability, rounded once; nothing else is
    written. *)
Lemma prefill_softmax_stores NDEBUG blocks orders probs scores nq chunk_len kv_len chunk_start m :
  (∀ l, blocks l ≡ₚ l) → (∀ rh l, orders rh l ≡ₚ l) → 0 < nq → 0 < chunk_len → 0 < kv_len → 0 <= chunk_start → chunk_start + chunk_len <= kv_len →
  ∃ m', LaunchPrefillSoftmax NDEBUG blocks orders probs scores nq chunk_len kv_len chunk_start m = Some m' ∧
    (∀ h i j, 0 <= h < nq → 0 <= i < chunk_len → 0 <= j < kv_len →
      let row := (h * chunk_len + i) * kv_len in
      m' (probs + row + j) = __float2half_rn (probability (λ j, scores (row + j)) (chunk_start + i + 1) j)) ∧
    ∀ a, (∀ x, 0 <= x < nq * chunk_len * kv_len → a ≠ probs + x) → m' a = m a.
Proof.
  intros Hb Ho Hnq Hcl Hkv Hcs Hle. unfold LaunchPrefillSoftmax.
  destruct (Z.leb_spec nq 0), (Z.leb_spec chunk_len 0), (Z.leb_spec kv_len 0); try lia. cbn [orb].
  destruct (Z.leb_spec 0 chunk_start), (Z.leb_spec (chunk_start + chunk_len) kv_len); try lia. cbn [andb negb]. rewrite andb_false_r.
  eexists. split; [done|]. set (grid := concat _). set (k := blocks grid).
  set (block rh m := PrefillCausalSoftmaxKernel (orders rh) probs scores chunk_len kv_len chunk_start rh m).
  change (run_blocks _ k m) with (run_blocks block k m).
  assert (∀ i h, (i, h) ∈ k ↔ 0 <= i < chunk_len ∧ 0 <= h < nq) as Hel.
  { intros i h. unfold k. rewrite Hb. unfold grid. rewrite elem_of_concat_map. split.
    - intros (i' & Hi%elem_of_seqZ & (h' & [= -> ->] & Hh%elem_of_seqZ)%list_elem_of_fmap). lia.
    - intros [Hi Hh]. exists i. split; [apply elem_of_seqZ; lia|]. apply list_elem_of_fmap. exists h. split; [done|apply elem_of_seqZ; lia]. }
  assert (NoDup k) as Hnd.
  { unfold k. rewrite Hb. apply NoDup_concat_keyed; [apply NoDup_seqZ| |].
    - intros i _. apply NoDup_fmap_2; [by intros ?? [=]|apply NoDup_seqZ].
    - by intros i i' ? _ _ (h & -> & _)%list_elem_of_fmap (h' & [= -> ->] & _)%list_elem_of_fmap. }
  set (base rh := probs + (rh.2 * chunk_len + rh.1) * kv_len).
  set (foot (rh : Z * Z) a := ∃ j, 0 <= j < kv_len ∧ a = base rh + j).
  assert (∀ i h m j, 0 <= i < chunk_len → 0 <= j < kv_len → block (i, h) m (base (i, h) + j) =
    __float2half_rn (probability (λ j, scores ((h * chunk_len + i) * kv_len + j)) (chunk_start + i + 1) j)) as Hval.
  { intros i h m0 j Hi Hj. unfold block, PrefillCausalSoftmaxKernel, base. cbn [fst snd]. destruct (Z.leb_spec chunk_len i); [lia|].
    assert (live_keys kv_len chunk_start i = chunk_start + i + 1) as ->
      by (unfold live_keys; destruct (Z.ltb_spec (chunk_start + i + 1) kv_len); lia).
    assert (orders (i, h) (block_strided kSoftmaxThreads kv_len) ≡ₚ seqZ 0 kv_len) as Hp by (rewrite Ho; by apply block_strided_perm).
    rewrite stores_result; [done|rewrite Hp; apply NoDup_seqZ|rewrite Hp; apply elem_of_seqZ; lia]. }
  assert (∀ rh m a, rh ∈ k → ¬ foot rh a → block rh m a = m a) as Hframe.
  { intros [i h] m0 a [Hi Hh]%Hel Ha. unfold block, PrefillCausalSoftmaxKernel. destruct (Z.leb_spec chunk_len i); [lia|].
    apply stores_frame. intros j Hj ->. rewrite (Ho (i, h)) in Hj. apply Ha. exists j. split; [by apply (elem_of_block_strided kSoftmaxThreads)|].
    unfold base. cbn. lia. }
  assert (∀ i h j, 0 <= i < chunk_len → 0 <= h < nq → 0 <= j < kv_len → 0 <= (h * chunk_len + i) * kv_len + j < nq * chunk_len * kv_len) as Hcell.
  { intros i h j Hi Hh Hj. assert (0 <= h * chunk_len + i) by nia. assert (h * chunk_len + i + 1 <= nq * chunk_len) by nia.
    assert ((h * chunk_len + i + 1) * kv_len <= nq * chunk_len * kv_len) by (apply Z.mul_le_mono_nonneg_r; lia). nia. }
  assert (∀ x y a, x ∈ k → y ∈ k → foot x a → foot y a → x = y) as Hown.
  { intros [i h] [i' h'] a [Hi Hh]%Hel [Hi' Hh']%Hel (j & Hj & ->) (j' & Hj' & He). unfold base in He. cbn in He.
    assert (h * chunk_len + i = h' * chunk_len + i' ∧ j = j') as [He' _] by (apply (radix kv_len); lia).
    by apply (radix chunk_len) in He' as [-> ->]; [|lia..]. }
  assert (∀ x a m1 m2, x ∈ k → foot x a → (∀ b, (∀ y, y ∈ k → foot y b → y = x) → m1 b = m2 b) → block x m1 a = block x m2 a) as Hdep.
  { intros [i h] a m1 m2 [Hi Hh]%Hel (j & Hj & ->) _. by rewrite !Hval. }
  split.
  - intros h i j Hh Hi Hj. assert ((i, h) ∈ k) as Hin by (by apply Hel).
    rewrite <- (Hval i h m j Hi Hj). unfold base. cbn [fst snd].
    apply (run_blocks_spec block foot k Hframe Hown Hdep); auto. exists j. split; [done|]. unfold base. cbn. lia.
  - intros a Ha. apply (run_blocks_frame block foot k Hframe); [done|]. intros [i h] [Hi Hh]%Hel (j & Hj & ->).
    apply (Ha ((h * chunk_len + i) * kv_len + j)); [by apply Hcell|]. unfold base. cbn. lia.
Qed.

End kernel.

(** ** In exact arithmetic: the softmax of the live keys *)

Section softmax.
Context (s : Z → xreal) (score : Z → R) (live : Z) (Hs : ∀ j, 0 <= j < live → s j = Some (score j)) (Hlive : 0 < live).
Notation keys := (seqZ 0 live).

(** A thread block's reduction of strided partials, in a monoid. *)
Lemma block_reduce {A} (op : A → A → A) e x0 (f : Z → A) (Hop : CommMonoid op e) :
  halving_tree op half_offsets (λ tid, foldl (λ x j, op x (f j)) x0 (strided tid kSoftmaxThreads live)) 0 =
  op (big op e (map (λ _, x0) (seqZ 0 256))) (big op e (map f keys)).
Proof using Hlive.
  unfold half_offsets. rewrite (halving_sum op e Hop). change (2 ^ Z.of_nat 8) with 256.
  rewrite (big_ext op e _ (λ tid, op x0 (big op e (map f (strided tid kSoftmaxThreads live))))) by (intros; apply (foldl_big op e Hop)).
  rewrite (big_op op e Hop). f_equal. rewrite (big_concat op e Hop).
  apply (big_perm op e Hop), Permutation_map. by apply block_strided_perm.
Qed.

Lemma row_max_real : ∃ M, row_max (H := real_ops) s live = Some M ∧ ∀ j, 0 <= j < live → (score j <= M)%R.
Proof using Hs Hlive.
  unfold row_max, BlockReduceMax. rewrite (block_reduce _ _ _ s xmax_monoid).
  assert (big fmaxf None (map (λ _ : Z, f_lowest (FloatOps := real_ops)) (seqZ 0 256)) = f_lowest (FloatOps := real_ops)) as ->
    by (apply xmax_const; by rewrite seqZ_cons by lia).
  rewrite (big_ext _ None s (λ j, Some (score j))) by (intros j Hj%elem_of_seqZ; apply Hs; lia).
  destruct (xmax_floor (IZR (2 ^ 104 - 2 ^ 128)) score keys) as (M & HM & Hle). exists M. split; [exact HM|].
  intros j Hj. apply Hle, elem_of_seqZ. lia.
Qed.

Lemma probability_real j : 0 <= j →
  probability (H := real_ops) s live j = Some (if j <? live then exp (score j) / rsum (λ l, exp (score l)) keys else 0)%R.
Proof using Hs Hlive.
  intros Hj. unfold probability. destruct (Z.ltb_spec j live); [|done].
  destruct row_max_real as (M & HM & _). unfold row_denom, SoftmaxReduceSum. rewrite HM.
  rewrite (block_reduce _ _ _ (λ j, expf (fsub (s j) (Some M))) xadd_monoid).
  rewrite (big_ext _ f_zero (λ j, expf (fsub (s j) (Some M))) (λ j, Some (exp (score j - M)%R)))
    by (intros i Hi%elem_of_seqZ; rewrite (Hs i) by lia; done).
  rewrite (xsum_Some (λ j, exp (score j - M)%R)). rewrite (xsum_Some (λ _, 0%R)). rewrite (Hs j) by lia.
  rewrite rsum_zero.
  cbn. rewrite Rplus_0_l. f_equal. apply softmax_shift.
Qed.

End softmax.

(** C40. In exact arithmetic a launch stores the causal softmax: key [j] of query row
    [i] gets exp(score) over the sum of exp over the keys up to
    [chunk_start + i], exactly zero beyond, whatever the masked scores hold;
    nothing else is written. *)
Theorem prefill_softmax_exact NDEBUG blocks orders probs scores (score : Z → Z → Z → R) nq chunk_len kv_len chunk_start m :
  (∀ l, blocks l ≡ₚ l) → (∀ rh l, orders rh l ≡ₚ l) → 0 < nq → 0 < chunk_len → 0 < kv_len → 0 <= chunk_start → chunk_start + chunk_len <= kv_len →
  (∀ h i j, 0 <= h < nq → 0 <= i < chunk_len → 0 <= j <= chunk_start + i → scores ((h * chunk_len + i) * kv_len + j) = Some (score h i j)) →
  ∃ m', LaunchPrefillSoftmax (H := real_ops) NDEBUG blocks orders probs scores nq chunk_len kv_len chunk_start m = Some m' ∧
    (∀ h i j, 0 <= h < nq → 0 <= i < chunk_len → 0 <= j < kv_len →
      m' (probs + (h * chunk_len + i) * kv_len + j) =
      Some (if j <=? chunk_start + i then exp (score h i j) / rsum (λ l, exp (score h i l)) (seqZ 0 (chunk_start + i + 1)) else 0)%R) ∧
    ∀ a, (∀ x, 0 <= x < nq * chunk_len * kv_len → a ≠ probs + x) → m' a = m a.
Proof.
  intros Hb Ho Hnq Hcl Hkv Hcs Hle Hscore.
  destruct (prefill_softmax_stores (H := real_ops) NDEBUG blocks orders probs scores nq chunk_len kv_len chunk_start m
    Hb Ho Hnq Hcl Hkv Hcs Hle) as (m' & -> & Hval & Hframe).
  exists m'. split; [done|]. split; [|done]. intros h i j Hh Hi Hj. rewrite Hval by done.
  rewrite (probability_real _ (score h i) (chunk_start + i + 1)); [|intros k Hk; apply Hscore; lia|lia|lia].
  destruct (Z.ltb_spec j (chunk_start + i + 1)), (Z.leb_spec j (chunk_start + i)); (done || lia).
Qed.

(** One head, a chunk of two rows after one cached key: the second key of the
    first row's future is masked and holds nothing. *)
Lemma prefill_softmax_exact_witness :
  ∃ m', LaunchPrefillSoftmax (H := real_ops) false (λ l, l) (λ _ l, l) 0 (λ a, if a =? 2 then None else Some 0%R) 1 2 3 1 (λ _, None) = Some m' ∧
    m' 0 = Some (exp 0 / (exp 0 + (exp 0 + 0)))%R ∧ m' 2 = Some 0%R ∧ m' 6 = None.
Proof.
  destruct (prefill_softmax_exact false (λ l, l) (λ _ l, l) 0 (λ a, if a =? 2 then None else Some 0%R) (λ _ _ _, 0%R) 1 2 3 1 (λ _, None))
    as (m' & Hm' & Hval & Hframe); [done|done|lia..| |].
  { intros h i j Hh Hi Hj. destruct (Z.eqb_spec ((h * 2 + i) * 3 + j) 2); [lia|done]. }
  exists m'. split; [exact Hm'|]. split; [exact (Hval 0 0 0 ltac:(lia) ltac:(lia) ltac:(lia))|].
  split; [exact (Hval 0 0 2 ltac:(lia) ltac:(lia) ltac:(lia))|]. apply (Hframe 6). intros x Hx. lia.
Defined.
