(* ===== verification/PagedAttention.v ===== *)
(** * Paged decode attention ([kernels/paged_attention.cu]): the code

    One thread block per (sequence, KV head) serves the six query heads of its
    group.  It walks the sequence's block table tile by tile: stage the 16 keys
    and values of the tile in shared memory (directly, or through a two-stage
    asynchronous pipeline), reduce the 6 x 16 scores, fold them into a running
    maximum and denominator per head, and accumulate the weighted values in
    registers.  Shared memory starts with arbitrary contents, the threads of
    every phase between two barriers run in any order, and a copy the pipeline
    still has in flight has reached shared memory in an arbitrary part.

    The oracle kernel of the unit tests is here too: one warp per (sequence,
    query head), a two-pass softmax over the same walk. *)

From S2P Require Import Prelude Doubles Types KvPool DeviceMath SiluMul Rope Reduce.

(** Divisions below are of thread, slot and element indices, all nonnegative. *)

Definition kHeadDim : Z := 128.
Definition kGroupSize : Z := 6.
Definition kWarpSize : Z := 32.
Definition kDimsPerLane : Z := 4.
Definition kThreadsPreAmpere : Z := 128.
Definition kThreadsAmpere : Z := 256.
Definition kTileVecs : Z := 256.
Definition kScoreLanes : Z := 8.

Definition PoolRowOffset (block kv kv_head num_kv_heads slot : Z) : Z :=
  (((block * 2 + kv) * num_kv_heads + kv_head) * kKvBlockSize + slot) * kHeadDim.

Section kernel.
Context {F half : Type} `{FloatOps F half}.
Notation mem := (Z → half).

(** ** One thread block of the primary kernel *)

Record SharedStorage : Type := mkShared {
  q_tile : Z * Z → F;
  k_tile : Z * Z * Z → half;      (* buffer, slot, dimension *)
  v_tile : Z * Z * Z → half;
  scores : Z * Z → F;             (* head, slot: scores, then probabilities *)
  sh_m : Z → F;
  sh_l : Z → F;
  sh_alpha : Z → F;
}.

(** The block's shared memory, the threads' accumulators by (thread, j), and the
    committed copy groups (tile, buffer) not yet waited for. *)
Record cta : Type := mkCta { shared : SharedStorage; acc : Z * Z → F; pending : list (Z * Z) }.

Section block.
Context (kThreads : Z) (cpasync : bool).
(** The order of the threads in a phase, and the vectors of each plane of a
    tile that have landed while its group is in flight. *)
Context (order : Z → list Z → list Z) (landed : Z → Z → Z → bool).
Context (m : mem) (q_row pool : Z) (table_row : Z → Z) (kv_head num_kv_heads seq_len : Z) (scale : F).

Definition kWarps : Z := kThreads / kWarpSize.
Definition kHeadsPerThread : Z := kGroupSize * kHeadDim / kThreads.
Definition kHeadStride : Z := kThreads / kHeadDim.
Definition num_tiles : Z := (seq_len + kKvBlockSize - 1) / kKvBlockSize.
Definition tile_valid (tile : Z) : Z := Z.min kKvBlockSize (seq_len - tile * kKvBlockSize).

Definition threads (phase : Z) : list Z := order phase (seqZ 0 kThreads).

(** The 16-byte vectors of plane [kv] of a tile that satisfy [keep], as element
    writes into buffer [buf]. *)
Definition tile_copies (keep : Z → bool) (phase kv tile buf : Z) : list (Z * Z * Z * half) :=
  let base := PoolRowOffset (table_row tile) kv kv_head num_kv_heads 0 in
  concat (map (λ tid, concat (map (λ i, map (λ l,
      let c := i * kVecHalves + l in ((buf, c / kHeadDim, c mod kHeadDim), m (pool + (base + c)))) (seqZ 0 kVecHalves))
    (filter (λ i, keep i = true) (strided tid kThreads kTileVecs)))) (threads phase)).

Definition stage_tile (keep : Z → Z → bool) (tile buf : Z) (s : SharedStorage) : SharedStorage :=
  mkShared (q_tile s) (writes (tile_copies (keep 0) (5 * tile) 0 tile buf) (k_tile s))
    (writes (tile_copies (keep 1) (5 * tile) 1 tile buf) (v_tile s)) (scores s) (sh_m s) (sh_l s) (sh_alpha s).

(** [__pipeline_commit] of a tile's copies; [__pipeline_wait_prior]: all groups
    but the last [n] are complete, of those some part. *)
Definition pipeline_commit (tile buf : Z) (c : cta) : cta := mkCta (shared c) (acc c) (pending c ++ [(tile, buf)]).
Definition pipeline_wait_prior (n : nat) (c : cta) : cta :=
  let k := (length (pending c) - n)%nat in
  let s := foldl (λ s g, stage_tile (λ _ _, true) g.1 g.2 s) (shared c) (take k (pending c)) in
  let s := foldl (λ s g, stage_tile (landed g.1) g.1 g.2 s) s (drop k (pending c)) in
  mkCta s (acc c) (drop k (pending c)).

(** Before the loop: the scaled queries, the softmax state, the first group. *)
Definition init (s : SharedStorage) : cta :=
  let q_writes := concat (map (λ tid, map (λ i,
      ((i / kHeadDim, i mod kHeadDim), fmul (__half2float (m (q_row + i))) scale)) (strided tid kThreads (kGroupSize * kHeadDim)))
    (threads (-1))) in
  let own := filter (λ tid, tid < kGroupSize) (threads (-1)) in
  let s := mkShared (writes q_writes (q_tile s)) (k_tile s) (v_tile s) (scores s)
    (writes (map (λ tid, (tid, f_neg_inf)) own) (sh_m s)) (writes (map (λ tid, (tid, f_zero)) own) (sh_l s)) (sh_alpha s) in
  let c := mkCta s (λ _, f_zero) [] in
  if cpasync then pipeline_commit 0 0 c else c.

(** (a) The tile's buffer is filled. *)
Definition stage_phase (tile : Z) (c : cta) : cta :=
  if cpasync then
    if tile + 1 <? num_tiles then pipeline_wait_prior 1 (pipeline_commit (tile + 1) (Z.land (tile + 1) 1) c)
    else pipeline_wait_prior 0 c
  else mkCta (stage_tile (λ _ _, true) tile 0 (shared c)) (acc c) (pending c).
Definition tile_buf (tile : Z) : Z := if cpasync then Z.land tile 1 else 0.

(** (b) The scores.  Eight lanes share a (head, slot) pair: lane [sub] sums its
    16 dimensions, a shift tree adds the eight partial sums, the first lane
    selects and stores. *)
Definition score_pairs (tid : Z) : list Z :=
  strided (tid / kScoreLanes) (kWarps * (kWarpSize / kScoreLanes)) (kGroupSize * kKvBlockSize).

Definition partial_dot (s : SharedStorage) (buf h t sub : Z) : F :=
  foldl (λ dot c, foldl (λ dot e,
      let d := 64 * c + 8 * sub + e in
      fmaf (q_tile s (h, d)) (__half2float (k_tile s (buf, t, d))) dot) dot (seqZ 0 8)) f_zero [0; 1].

(** The pair a lane works on in a given round of the loop. *)
Definition lane_pair (round tid : Z) : Z := tid / kScoreLanes + round * (kWarps * (kWarpSize / kScoreLanes)).

Definition lane_dot (s : SharedStorage) (buf round : Z) : Z → F :=
  down_tree fadd [4; 2; 1] (λ tid,
    let pair := lane_pair round tid in
    partial_dot s buf (pair / kKvBlockSize) (pair mod kKvBlockSize) (tid mod kWarpSize mod kScoreLanes)).

Definition score_phase (tile : Z) (s : SharedStorage) : SharedStorage :=
  let buf := tile_buf tile in
  let stores := concat (map (λ tid, map (λ pair,
      let h := pair / kKvBlockSize in
      let t := pair mod kKvBlockSize in
      let round := (pair - tid / kScoreLanes) / (kWarps * (kWarpSize / kScoreLanes)) in
      ((h, t), if tile * kKvBlockSize + t <? seq_len then lane_dot s buf round tid else f_neg_inf)) (score_pairs tid))
    (filter (λ tid, tid mod kWarpSize mod kScoreLanes = 0) (threads (5 * tile + 1)))) in
  mkShared (q_tile s) (k_tile s) (v_tile s) (writes stores (scores s)) (sh_m s) (sh_l s) (sh_alpha s).

(** (c) Online softmax: 16 lanes per head. *)
Definition softmax_phase (tile : Z) (s : SharedStorage) : SharedStorage :=
  let lanes := filter (λ tid, tid < kGroupSize * kKvBlockSize) (threads (5 * tile + 2)) in
  let h tid := tid / kKvBlockSize in
  let t tid := tid mod kKvBlockSize in
  let sc tid := scores s (h tid, t tid) in
  let tile_max := xor_tree fmaxf [8; 4; 2; 1] sc in
  let m_new tid := fmaxf (sh_m s (h tid)) (tile_max tid) in
  let prob tid := if t tid <? tile_valid tile then expf (fsub (sc tid) (m_new tid)) else f_zero in
  let tile_sum := xor_tree fadd [8; 4; 2; 1] prob in
  let alpha tid := expf (fsub (sh_m s (h tid)) (m_new tid)) in
  let first := filter (λ tid, t tid = 0) lanes in
  mkShared (q_tile s) (k_tile s) (v_tile s) (writes (map (λ tid, ((h tid, t tid), prob tid)) lanes) (scores s))
    (writes (map (λ tid, (h tid, m_new tid)) first) (sh_m s))
    (writes (map (λ tid, (h tid, fadd (fmul (sh_l s (h tid)) (alpha tid)) (tile_sum tid))) first) (sh_l s))
    (writes (map (λ tid, (h tid, alpha tid)) first) (sh_alpha s)).

(** (e) The threads' accumulators. *)
Definition fold_phase (tile : Z) (s : SharedStorage) (a : Z * Z → F) : Z * Z → F :=
  λ '(tid, j),
    let d_own := tid mod kHeadDim in
    let h := tid / kHeadDim + j * kHeadStride in
    foldl (λ x t, fmaf (scores s (h, t)) (__half2float (v_tile s (tile_buf tile, t, d_own))) x)
      (fmul (a (tid, j)) (sh_alpha s h)) (seqZ 0 (tile_valid tile)).

Definition iteration (c : cta) (tile : Z) : cta :=
  let c := stage_phase tile c in
  let s := softmax_phase tile (score_phase tile (shared c)) in
  mkCta s (fold_phase tile s (acc c)) (pending c).

Definition tile_loop (s : SharedStorage) : cta := foldl iteration (init s) (seqZ 0 num_tiles).

(** The epilogue's stores at [out_row]. *)
Definition epilogue (out_row : Z) (c : cta) : list (Z * half) :=
  concat (map (λ tid, map (λ j,
      let h := tid / kHeadDim + j * kHeadStride in
      (out_row + (h * kHeadDim + tid mod kHeadDim), __float2half_rn (fdiv (acc c (tid, j)) (sh_l (shared c) h)))) (seqZ 0 kHeadsPerThread))
    (threads (-2))).

End block.

(** ** The kernel over the grid *)

(** What a launch leaves open: the order of the blocks and, per block, of its
    threads, the copies in flight and the contents of shared memory. *)
Record pa_schedule : Type := mkPaSchedule {
  pa_blocks : list (Z * Z) → list (Z * Z);
  pa_order : Z * Z → Z → list Z → list Z;
  pa_landed : Z * Z → Z → Z → Z → bool;
  pa_garbage : Z * Z → SharedStorage;
}.

Section grid.
Context (sch : pa_schedule) (out out_row_stride q q_row_stride kv_pool_layer : Z) (block_tables seq_lens : Z → Z)
  (max_blocks_per_seq num_kv_heads : Z) (scale : F).

Definition clamped_len (seq : Z) : Z := Z.min (seq_lens seq) (max_blocks_per_seq * kKvBlockSize).

Definition PagedAttentionDecodeKernel (kThreads : Z) (cpasync : bool) (sk : Z * Z) (m : mem) : mem :=
  let (seq, kv_head) := sk in
  let seq_len := clamped_len seq in
  if seq_len <=? 0 then m else
  let q_row := q + (seq * q_row_stride + kv_head * kGroupSize * kHeadDim) in
  let table_row i := block_tables (seq * max_blocks_per_seq + i) in
  let c := tile_loop kThreads cpasync (pa_order sch sk) (pa_landed sch sk) m q_row kv_pool_layer table_row kv_head num_kv_heads
             seq_len scale (pa_garbage sch sk) in
  writes (epilogue kThreads (pa_order sch sk) (out + (seq * out_row_stride + kv_head * kGroupSize * kHeadDim)) c) m.

(** *** The oracle: one warp per (sequence, query head) *)

Section warp.
Context (m : mem) (q_head seq_len : Z) (seq q_heads_per_kv : Z).

Definition oracle_table (i : Z) : Z := block_tables (seq * max_blocks_per_seq + i).
Definition oracle_qv (lane j : Z) : F :=
  fmul (__half2float (m (q + (seq * q_row_stride + q_head * kHeadDim) + (lane + j * kWarpSize)))) scale.
Definition oracle_row (kv pos : Z) : Z :=
  kv_pool_layer + PoolRowOffset (oracle_table (pos / kKvBlockSize)) kv (q_head / q_heads_per_kv) num_kv_heads (pos mod kKvBlockSize).

Definition score_at (pos : Z) : Z → F :=
  xor_tree fadd [16; 8; 4; 2; 1] (λ lane,
    foldl (λ dot j, fmaf (oracle_qv lane j) (__half2float (m (oracle_row 0 pos + (lane + j * kWarpSize)))) dot) f_zero (seqZ 0 kDimsPerLane)).

Definition oracle_max (lane : Z) : F := foldl (λ x pos, fmaxf x (score_at pos lane)) f_neg_inf (seqZ 0 seq_len).

Definition oracle_step (lane : Z) (s : F * (Z → F)) (pos : Z) : F * (Z → F) :=
  let p := expf (fsub (score_at pos lane) (oracle_max lane)) in
  (fadd s.1 p, λ j, fmaf p (__half2float (m (oracle_row 1 pos + (lane + j * kWarpSize)))) (s.2 j)).

Definition oracle_sums (lane : Z) : F * (Z → F) := foldl (oracle_step lane) (f_zero, λ _, f_zero) (seqZ 0 seq_len).

End warp.

Definition PagedAttentionDecodeOracleKernel (q_heads_per_kv : Z) (order : list Z → list Z) (sq : Z * Z) (m : mem) : mem :=
  let (seq, q_head) := sq in
  let seq_len := clamped_len seq in
  if seq_len <=? 0 then m else
  let out_row := out + (seq * out_row_stride + q_head * kHeadDim) in
  writes (concat (map (λ lane, map (λ j,
      let s := oracle_sums m q_head seq_len seq q_heads_per_kv lane in
      (out_row + (lane + j * kWarpSize), __float2half_rn (fdiv (s.2 j) s.1))) (seqZ 0 kDimsPerLane)) (order (seqZ 0 kWarpSize)))) m.

End grid.

(** ** The launchers *)

(** [RequireContract]: [false] aborts the process.  Address 0 is the null
    pointer; the tables' pointers are checked by the flag. *)
Definition CheckCommonContract (tables_ok : bool) (out out_row_stride q q_row_stride kv_pool_layer max_blocks_per_seq num_q_heads
    num_kv_heads head_dim : Z) : bool :=
  (negb (out =? 0) && negb (q =? 0) && negb (kv_pool_layer =? 0) && tables_ok) &&
  (head_dim =? kHeadDim) &&
  ((1 <=? num_kv_heads) && (num_kv_heads <=? num_q_heads) && (Z.rem num_q_heads num_kv_heads =? 0)) &&
  (1 <=? max_blocks_per_seq) &&
  (let row_width := num_q_heads * head_dim in (row_width <=? q_row_stride) && (row_width <=? out_row_stride)).

Definition grid_of (xs ys : Z) : list (Z * Z) := concat (map (λ x, map (λ y, (x, y)) (seqZ 0 ys)) (seqZ 0 xs)).

(** [cpasync] says for which block size the loaded code uses the pipeline. *)
Definition LaunchPagedAttentionDecode (sch : pa_schedule) (compute_major : Z) (cpasync tables_ok : bool) (out out_row_stride q q_row_stride
    kv_pool_layer : Z) (block_tables seq_lens : Z → Z) (num_seqs max_blocks_per_seq num_q_heads num_kv_heads head_dim : Z) (scale : F)
    (m : mem) : option mem :=
  if num_seqs <=? 0 then Some m else
  if negb (CheckCommonContract tables_ok out out_row_stride q q_row_stride kv_pool_layer max_blocks_per_seq num_q_heads num_kv_heads head_dim)
  then None else
  if negb (num_q_heads =? num_kv_heads * kGroupSize) then None else
  let kThreads := if 8 <=? compute_major then kThreadsAmpere else kThreadsPreAmpere in
  Some (run_blocks (PagedAttentionDecodeKernel sch out out_row_stride q q_row_stride kv_pool_layer block_tables seq_lens max_blocks_per_seq
                      num_kv_heads scale kThreads cpasync) (pa_blocks sch (grid_of num_seqs num_kv_heads)) m).

Definition LaunchPagedAttentionDecodeOracle (blocks : list (Z * Z) → list (Z * Z)) (order : list Z → list Z) (tables_ok : bool)
    (out out_row_stride q q_row_stride kv_pool_layer : Z) (block_tables seq_lens : Z → Z)
    (num_seqs max_blocks_per_seq num_q_heads num_kv_heads head_dim : Z) (scale : F) (m : mem) : option mem :=
  if num_seqs <=? 0 then Some m else
  if negb (CheckCommonContract tables_ok out out_row_stride q q_row_stride kv_pool_layer max_blocks_per_seq num_q_heads num_kv_heads head_dim)
  then None else
  Some (run_blocks (PagedAttentionDecodeOracleKernel out out_row_stride q q_row_stride kv_pool_layer block_tables seq_lens max_blocks_per_seq
                      num_kv_heads scale (Z.quot num_q_heads num_kv_heads) order) (blocks (grid_of num_seqs num_q_heads)) m).

End kernel.
Arguments SharedStorage : clear implicits.
Arguments pa_schedule : clear implicits.
