(* ===== verification/PagedAttentionRef.v ===== *)
(** * Paged decode attention: a block computes the reference online softmax

    The reference folds the tiles of one query head over its keys and values by
    position; it never looks at a position past the sequence.  A thread block,
    with either thread count, staged directly or through the pipeline, under
    every thread order and over any shared memory, leaves in its registers and
    shared state exactly the reference states of its six heads. *)

From S2P Require Import Prelude Doubles Types KvPool DeviceMath SiluMul Rope Reduce PagedAttention.

Section kernel.
Context {F half : Type} `{FloatOps F half}.
Notation mem := (Z → half).

(** ** The reference *)

Section reference.
Context (qs : Z → F) (K V : Z → Z → half) (seq_len : Z).

Definition ref_partial (pos sub : Z) : F :=
  foldl (λ dot c, foldl (λ dot e,
    let d := 64 * c + 8 * sub + e in fmaf (qs d) (__half2float (K pos d)) dot) dot (seqZ 0 8)) f_zero [0; 1].
Definition ref_dot (pos : Z) : F := down_tree fadd [4; 2; 1] (ref_partial pos) 0.

(** A masked position is selected away, whatever its dot product. *)
Definition ref_score (tile t : Z) : F := if tile * kKvBlockSize + t <? seq_len then ref_dot (tile * kKvBlockSize + t) else f_neg_inf.

Record head_state : Type := mkHead { hs_m : F; hs_l : F; hs_acc : Z → F }.

Definition ref_max (s : head_state) (tile t : Z) : F := fmaxf (hs_m s) (xor_tree fmaxf [8; 4; 2; 1] (ref_score tile) t).
Definition ref_prob (s : head_state) (tile t : Z) : F :=
  if t <? tile_valid seq_len tile then expf (fsub (ref_score tile t) (ref_max s tile t)) else f_zero.
Definition ref_alpha (s : head_state) (tile : Z) : F := expf (fsub (hs_m s) (ref_max s tile 0)).

Definition ref_tile (s : head_state) (tile : Z) : head_state :=
  mkHead (ref_max s tile 0)
    (fadd (fmul (hs_l s) (ref_alpha s tile)) (xor_tree fadd [8; 4; 2; 1] (ref_prob s tile) 0))
    (λ d, foldl (λ x t, fmaf (ref_prob s tile t) (__half2float (V (tile * kKvBlockSize + t) d)) x)
            (fmul (hs_acc s d) (ref_alpha s tile)) (seqZ 0 (tile_valid seq_len tile))).

Definition ref_start : head_state := mkHead f_neg_inf f_zero (λ _, f_zero).
Definition ref_states (n : Z) : head_state := foldl ref_tile ref_start (seqZ 0 n).
Definition ref_attention : head_state := ref_states (num_tiles seq_len).

Lemma ref_states_succ n : 0 <= n → ref_states (n + 1) = ref_tile (ref_states n) n.
Proof using Type.
  intros Hn. unfold ref_states. rewrite seqZ_app by lia. rewrite foldl_app. by rewrite Z.add_0_l.
Qed.

End reference.

(** ** One block *)

Section block.
Context (kThreads : Z) (cpasync : bool) (order : Z → list Z → list Z) (landed : Z → Z → Z → bool).
Context (m : mem) (q_row pool : Z) (table_row : Z → Z) (kv_head num_kv_heads seq_len : Z) (scale : F).
Context (Hk : kThreads = 128 ∨ kThreads = 256) (Horder : ∀ p l, order p l ≡ₚ l) (Hlen : 0 < seq_len).

(** The queries, keys and values the block works from. *)
Definition blk_q (h d : Z) : F := fmul (__half2float (m (q_row + (h * kHeadDim + d)))) scale.
Definition blk_kv (kv pos d : Z) : half :=
  m (pool + (PoolRowOffset (table_row (pos / kKvBlockSize)) kv kv_head num_kv_heads (pos mod kKvBlockSize) + d)).

Notation threads := (threads kThreads order).

Lemma elem_of_threads p tid : tid ∈ threads p ↔ 0 <= tid < kThreads.
Proof using All. unfold PagedAttention.threads. rewrite Horder, elem_of_seqZ. lia. Qed.

(** *** Staging *)

Lemma elem_of_copies keep p kv tile buf x :
  x ∈ tile_copies kThreads order m pool table_row kv_head num_kv_heads keep p kv tile buf ↔
  ∃ c, 0 <= c < 2048 ∧ keep (c / 8) = true ∧
    x = ((buf, c / kHeadDim, c mod kHeadDim), m (pool + (PoolRowOffset (table_row tile) kv kv_head num_kv_heads 0 + c))).
Proof using All.
  unfold tile_copies. rewrite elem_of_concat_map. split.
  - intros (tid & Ht%elem_of_threads & (i & [Hkeep Hi]%list_elem_of_filter & (l & -> & Hl%elem_of_seqZ)%list_elem_of_fmap)%elem_of_concat_map).
    apply strided_inv in Hi as (n & Hn & -> & Hlt); [|lia]. unfold kVecHalves, kTileVecs in *.
    exists ((tid + n * kThreads) * 8 + l). split; [lia|]. split; [|done].
    assert (((tid + n * kThreads) * 8 + l) / 8 = tid + n * kThreads) as -> by (symmetry; apply (Z.div_unique _ _ _ l); lia). done.
  - intros (c & Hc & Hkeep & ->).
    assert (c / 8 ∈ block_strided kThreads kTileVecs) as Hi.
    { apply elem_of_block_strided; [lia|]. unfold kTileVecs. split; [apply Z.div_pos; lia|apply Z.div_lt_upper_bound; lia]. }
    apply elem_of_concat_map in Hi as (tid & Htid%elem_of_seqZ & Hi). exists tid. split; [apply elem_of_threads; lia|].
    apply elem_of_concat_map. exists (c / 8). split; [by apply list_elem_of_filter|]. apply list_elem_of_fmap. exists (c mod 8).
    pose proof (Z.div_mod c 8 ltac:(lia)) as Hd. pose proof (Z.mod_pos_bound c 8 ltac:(lia)). unfold kVecHalves.
    replace (c / 8 * 8 + c mod 8) with c by lia. split; [done|apply elem_of_seqZ; lia].
Qed.

(** Copies into one buffer leave the other alone; complete ones fill it. *)
Lemma copies_other keep p kv tile buf f b t d : b ≠ buf →
  writes (tile_copies kThreads order m pool table_row kv_head num_kv_heads keep p kv tile buf) f (b, t, d) = f (b, t, d).
Proof using All.
  intros Hb. apply writes_miss. intros (x & He & (c & _ & _ & ->)%elem_of_copies)%list_elem_of_fmap. cbn in He. congruence.
Qed.

Lemma copies_fill p kv tile buf f t d : 0 <= t < 16 → 0 <= d < 128 →
  writes (tile_copies kThreads order m pool table_row kv_head num_kv_heads (λ _, true) p kv tile buf) f (buf, t, d) =
  blk_kv kv (tile * kKvBlockSize + t) d.
Proof using All.
  intros Ht Hd. unfold blk_kv.
  assert ((tile * kKvBlockSize + t) / kKvBlockSize = tile) as -> by (symmetry; apply (Z.div_unique _ _ _ t); unfold kKvBlockSize; lia).
  assert ((tile * kKvBlockSize + t) mod kKvBlockSize = t) as -> by (symmetry; apply (Z.mod_unique _ _ tile); unfold kKvBlockSize; lia).
  set (c := t * 128 + d).
  assert (c / kHeadDim = t) as Hc1 by (symmetry; apply (Z.div_unique _ _ _ d); unfold kHeadDim; lia).
  assert (c mod kHeadDim = d) as Hc2 by (symmetry; apply (Z.mod_unique _ _ t); unfold kHeadDim; lia).
  assert (∀ c', 0 <= c' → c' / kHeadDim = t → c' mod kHeadDim = d → c' = c) as Huniq.
  { intros c' Hc' He1 He2. pose proof (Z.div_mod c' kHeadDim ltac:(done)) as Hdm. unfold kHeadDim in *. lia. }
  apply writes_hit.
  - apply list_elem_of_fmap. eexists. split; [|apply elem_of_copies; exists c; split; [lia|split; [done|reflexivity]]].
    cbn. by rewrite Hc1, Hc2.
  - intros v' (c' & Hc' & _ & He)%elem_of_copies. injection He as H1 H2 ->. rewrite (Huniq c') by (lia || done).
    f_equal. unfold PoolRowOffset, c, kHeadDim. lia.
Qed.

(** The facts about shared memory that staging keeps. *)
Definition same_state (s s' : SharedStorage F half) : Prop :=
  q_tile s' = q_tile s ∧ scores s' = scores s ∧ sh_m s' = sh_m s ∧ sh_l s' = sh_l s ∧ sh_alpha s' = sh_alpha s.

Definition holds_tile (buf tile : Z) (s : SharedStorage F half) : Prop :=
  ∀ t d, 0 <= t < 16 → 0 <= d < 128 →
    k_tile s (buf, t, d) = blk_kv 0 (tile * kKvBlockSize + t) d ∧ v_tile s (buf, t, d) = blk_kv 1 (tile * kKvBlockSize + t) d.

Notation stage := (stage_tile kThreads order m pool table_row kv_head num_kv_heads).

Lemma stage_fills tile buf s : holds_tile buf tile (stage (λ _ _, true) tile buf s).
Proof using All. intros t d Ht Hd. split; by apply copies_fill. Qed.

Lemma stage_keeps_other keep tile buf s b t : b ≠ buf → holds_tile b t s → holds_tile b t (stage keep tile buf s).
Proof using All. intros Hb Hs u d Hu Hd. cbn. rewrite !copies_other by done. by apply Hs. Qed.

Definition groups_at (tile : Z) : list (Z * Z) :=
  if cpasync then if tile <? num_tiles seq_len then [(tile, Z.land tile 1)] else [] else [].

Lemma stage_phase_ok tile c : 0 <= tile < num_tiles seq_len → pending c = groups_at tile →
  let c' := stage_phase kThreads cpasync order landed m pool table_row kv_head num_kv_heads seq_len tile c in
  same_state (shared c) (shared c') ∧ acc c' = acc c ∧ pending c' = groups_at (tile + 1) ∧ holds_tile (tile_buf cpasync tile) tile (shared c').
Proof using All.
  intros Ht Hp. unfold stage_phase, tile_buf, groups_at in *. destruct cpasync; cbn zeta.
  - destruct (Z.ltb_spec tile (num_tiles seq_len)); [|lia].
    assert (Z.land tile 1 ≠ Z.land (tile + 1) 1) as Hne.
    { change 1 with (Z.ones 1) at 1 3. rewrite !Z.land_ones by lia. change (2 ^ 1) with 2. Z.div_mod_to_equations. lia. }
    destruct (Z.ltb_spec (tile + 1) (num_tiles seq_len)); unfold pipeline_wait_prior, pipeline_commit; cbn [shared pending acc]; rewrite Hp; cbn.
    + split; [done|]. split; [done|]. split; [done|]. apply stage_keeps_other; [done|]. apply stage_fills.
    + split; [done|]. split; [done|]. split; [done|]. apply stage_fills.
  - cbn. split; [done|]. split; [done|]. split; [by rewrite Hp|]. apply stage_fills.
Qed.

(** *** Scores *)

Notation K := (blk_kv 0).
Notation V := (blk_kv 1).

Definition holds_queries (s : SharedStorage F half) : Prop :=
  ∀ h d, 0 <= h < kGroupSize → 0 <= d < kHeadDim → q_tile s (h, d) = blk_q h d.

Lemma partial_dot_ref s buf tile h t sub : holds_queries s → holds_tile buf tile s →
  0 <= h < 6 → 0 <= t < 16 → 0 <= sub < 8 →
  partial_dot s buf h t sub = ref_partial (blk_q h) K (tile * kKvBlockSize + t) sub.
Proof using All.
  intros Hq Hb Hh Ht Hs. unfold partial_dot, ref_partial.
  assert (∀ c x l, 0 <= c < 2 → (∀ e, e ∈ l → 0 <= e < 8) →
    foldl (λ dot e, let d := 64 * c + 8 * sub + e in fmaf (q_tile s (h, d)) (__half2float (k_tile s (buf, t, d))) dot) x l =
    foldl (λ dot e, let d := 64 * c + 8 * sub + e in fmaf (blk_q h d) (__half2float (K (tile * kKvBlockSize + t) d)) dot) x l) as Hin.
  { intros c x l Hc. revert x. induction l as [|e l IH]; intros x Hl; [done|]. cbn [foldl]. cbv zeta.
    assert (0 <= e < 8) by apply Hl, list_elem_of_here.
    rewrite Hq by (unfold kGroupSize, kHeadDim; lia). destruct (Hb t (64 * c + 8 * sub + e) ltac:(lia) ltac:(lia)) as [-> _].
    apply IH. intros e' He'. by apply Hl, list_elem_of_further. }
  assert (∀ e, e ∈ seqZ 0 8 → 0 <= e < 8) as H8 by (intros e He%elem_of_seqZ; lia).
  cbn [foldl]. rewrite (Hin 0 _ _ ltac:(lia) H8), (Hin 1 _ _ ltac:(lia) H8). done.
Qed.

(** The step of the pair loop, and its threads. *)
Notation step := (kWarps kThreads * (kWarpSize / kScoreLanes)).
Lemma step_value : step = kThreads / 8 ∧ (step = 16 ∨ step = 32).
Proof using All. destruct Hk as [-> | ->]; vm_compute; auto. Qed.

Lemma lane_dot_ref s buf tile round tid : holds_queries s → holds_tile buf tile s → 0 <= tid < kThreads → tid mod 8 = 0 → 0 <= round →
  let pair := lane_pair kThreads round tid in 0 <= pair < 96 →
  lane_dot kThreads s buf round tid = ref_dot (blk_q (pair / kKvBlockSize)) K (tile * kKvBlockSize + pair mod kKvBlockSize).
Proof using All.
  intros Hq Hb Htid H8 Hr pair Hp. unfold lane_dot, ref_dot.
  rewrite (down_tree_8 fadd _ tid) by lia. rewrite (down_tree_8 fadd _ 0) by done.
  assert (∀ x, 0 <= x < 8 → partial_dot s buf (lane_pair kThreads round (tid + x) / kKvBlockSize) (lane_pair kThreads round (tid + x) mod kKvBlockSize)
      ((tid + x) mod kWarpSize mod kScoreLanes) =
    ref_partial (blk_q (pair / kKvBlockSize)) K (tile * kKvBlockSize + pair mod kKvBlockSize) (0 + x)) as Hx.
  { intros x Hx. assert (lane_pair kThreads round (tid + x) = pair) as ->.
    { unfold pair, lane_pair. assert ((tid + x) / kScoreLanes = tid / kScoreLanes) as -> by (unfold kScoreLanes; Z.div_mod_to_equations; lia). done. }
    assert ((tid + x) mod kWarpSize mod kScoreLanes = x) as -> by (unfold kWarpSize, kScoreLanes; Z.div_mod_to_equations; lia).
    rewrite Z.add_0_l. unfold kKvBlockSize in *. apply partial_dot_ref; (done || (Z.div_mod_to_equations; lia)). }
  cbv zeta. by rewrite !Hx by lia.
Qed.

(** Who stores the score of a pair. *)
Lemma pair_owner p : 0 <= p < 96 → ∃ tid, 0 <= tid < kThreads ∧ tid mod 8 = 0 ∧ p ∈ score_pairs kThreads tid.
Proof using All.
  intros Hp. destruct step_value as [Hs Hs']. exists (8 * (p mod step)). pose proof (Z.mod_pos_bound p step ltac:(lia)) as Hm.
  assert (8 * step = kThreads) as H8 by (destruct Hk as [-> | ->]; done).
  split; [lia|]. split; [rewrite Z.mul_comm; apply Z_mod_mult|].
  unfold score_pairs. assert (8 * (p mod step) / kScoreLanes = p mod step) as -> by (unfold kScoreLanes; rewrite Z.mul_comm; apply Z.div_mul; lia).
  apply elem_of_strided; [lia|lia|]. pose proof (Z.div_mod p step ltac:(lia)) as Hd. assert (0 <= p / step) by (apply Z.div_pos; lia).
  split; [change (kGroupSize * kKvBlockSize) with 96; nia|]. replace (p - p mod step) with (p / step * step) by lia. apply Z_mod_mult.
Qed.

Lemma score_pairs_inv tid p : 0 <= tid < kThreads → p ∈ score_pairs kThreads tid →
  ∃ round, 0 <= round ∧ p = lane_pair kThreads round tid ∧ 0 <= p < 96 ∧ (p - tid / kScoreLanes) / step = round.
Proof using All.
  intros Ht Hp. destruct step_value as [_ Hs]. apply strided_inv in Hp as (n & Hn & -> & Hlt); [|lia]. exists n. split; [done|]. split; [done|].
  assert (0 <= tid / kScoreLanes) by (apply Z.div_pos; [lia|done]). change (kGroupSize * kKvBlockSize) with 96 in Hlt. split; [nia|].
  replace (tid / kScoreLanes + n * step - tid / kScoreLanes) with (n * step) by lia. apply Z.div_mul. lia.
Qed.

Notation score_phase := (score_phase kThreads cpasync order seq_len).

Lemma score_phase_ok tile s : holds_queries s → holds_tile (tile_buf cpasync tile) tile s →
  let s' := score_phase tile s in
  (∀ h t, 0 <= h < 6 → 0 <= t < 16 → scores s' (h, t) = ref_score (blk_q h) K seq_len tile t) ∧
  q_tile s' = q_tile s ∧ v_tile s' = v_tile s ∧ sh_m s' = sh_m s ∧ sh_l s' = sh_l s.
Proof using All.
  intros Hq Hb s'. split; [|done]. intros h t Hh Ht. unfold s', PagedAttention.score_phase. cbn [scores].
  set (stores := concat _).
  assert (∀ x, x ∈ stores ↔ ∃ tid pair, 0 <= tid < kThreads ∧ tid mod 8 = 0 ∧ pair ∈ score_pairs kThreads tid ∧
    x = ((pair / kKvBlockSize, pair mod kKvBlockSize), if tile * kKvBlockSize + pair mod kKvBlockSize <? seq_len
      then lane_dot kThreads s (tile_buf cpasync tile) ((pair - tid / kScoreLanes) / step) tid else f_neg_inf)) as Hel.
  { intros x. unfold stores. rewrite elem_of_concat_map. split.
    - intros (tid & [H8 Ht'%elem_of_threads]%list_elem_of_filter & (pair & -> & Hp)%list_elem_of_fmap).
      assert (tid mod 8 = 0) by (unfold kWarpSize, kScoreLanes in H8; Z.div_mod_to_equations; lia). eauto 10.
    - intros (tid & pair & Htid & H8 & Hp & ->). exists tid. split.
      + apply list_elem_of_filter. split; [unfold kWarpSize, kScoreLanes; Z.div_mod_to_equations; lia|by apply elem_of_threads].
      + apply list_elem_of_fmap. by exists pair. }
  set (pair := h * 16 + t).
  assert (pair / kKvBlockSize = h) as Hp1 by (symmetry; apply (Z.div_unique _ _ _ t); unfold kKvBlockSize; lia).
  assert (pair mod kKvBlockSize = t) as Hp2 by (symmetry; apply (Z.mod_unique _ _ h); unfold kKvBlockSize; lia).
  apply writes_hit.
  - destruct (pair_owner pair ltac:(lia)) as (tid & Htid & H8 & Hp). apply list_elem_of_fmap. eexists. split; [|apply Hel; eauto 10].
    cbn. by rewrite Hp1, Hp2.
  - intros v' (tid & pair' & Htid & H8 & Hp & He)%Hel. injection He as He1 He2 ->.
    assert (pair' = pair) as ->.
    { pose proof (Z.div_mod pair' kKvBlockSize ltac:(done)) as Hd. unfold kKvBlockSize in *. lia. }
    rewrite Hp2. unfold ref_score. destruct (tile * kKvBlockSize + t <? seq_len); [|done].
    destruct (score_pairs_inv tid pair Htid Hp) as (round & Hr & Hpair & Hrange & ->).
    rewrite (lane_dot_ref s _ tile) by (rewrite <- ?Hpair; done). by rewrite <- Hpair, Hp1, Hp2.
Qed.

(** *** The online softmax *)

(** Head [h]'s reference state before a tile. *)
Definition ref_head (h tile : Z) : head_state := ref_states (blk_q h) K V seq_len tile.

Definition holds_heads (tile : Z) (s : SharedStorage F half) : Prop :=
  ∀ h, 0 <= h < 6 → sh_m s h = hs_m (ref_head h tile) ∧ sh_l s h = hs_l (ref_head h tile).

Notation softmax_phase := (softmax_phase kThreads order seq_len).
Notation prob h tile t := (ref_prob (blk_q h) K seq_len (ref_head h tile) tile t).
Notation mx h tile t := (ref_max (blk_q h) K seq_len (ref_head h tile) tile t).
Notation alpha h tile := (ref_alpha (blk_q h) K seq_len (ref_head h tile) tile).

(** A lane [16 h + t] of the butterfly over a table by (head, slot). *)
Lemma tree_lane (op : F → F → F) (f : Z → F) (g : Z → F) h t : 0 <= h → 0 <= t < 16 →
  (∀ x, 0 <= x < 16 → f (h * 16 + x) = g x) → xor_tree op [8; 4; 2; 1] f (h * 16 + t) = xor_tree op [8; 4; 2; 1] g t.
Proof using All.
  intros Hh Ht Hfg. change 16 with (2 ^ 4). apply xor_tree_group; [lia|done| |lia|done]. repeat constructor; lia.
Qed.

Lemma lane_index h t : 0 <= t < 16 → (h * 16 + t) / kKvBlockSize = h ∧ (h * 16 + t) mod kKvBlockSize = t.
Proof using All.
  intros Ht. unfold kKvBlockSize. split; [symmetry; apply (Z.div_unique _ _ _ t); lia|symmetry; apply (Z.mod_unique _ _ h); lia].
Qed.

Lemma softmax_phase_ok tile s : holds_heads tile s →
  (∀ h t, 0 <= h < 6 → 0 <= t < 16 → scores s (h, t) = ref_score (blk_q h) K seq_len tile t) →
  let s' := softmax_phase tile s in
  (∀ h t, 0 <= h < 6 → 0 <= t < 16 → scores s' (h, t) = prob h tile t) ∧
  (∀ h, 0 <= h < 6 → sh_m s' h = mx h tile 0 ∧ sh_alpha s' h = alpha h tile ∧
     sh_l s' h = fadd (fmul (hs_l (ref_head h tile)) (alpha h tile)) (xor_tree fadd [8; 4; 2; 1] (λ t, prob h tile t) 0)) ∧
  q_tile s' = q_tile s ∧ v_tile s' = v_tile s.
Proof using All.
  intros Hheads Hsc s'. unfold PagedAttention.softmax_phase in s'.
  set (lanes := filter (λ tid, tid < kGroupSize * kKvBlockSize) (threads (5 * tile + 2))) in s'.
  set (m_new := λ tid, fmaxf (sh_m s (tid / kKvBlockSize)) (xor_tree fmaxf [8; 4; 2; 1] (λ tid, scores s (tid / kKvBlockSize, tid mod kKvBlockSize)) tid)) in s'.
  set (pr := λ tid, if tid mod kKvBlockSize <? tile_valid seq_len tile then expf (fsub (scores s (tid / kKvBlockSize, tid mod kKvBlockSize)) (m_new tid)) else f_zero) in s'.
  assert (∀ tid, tid ∈ lanes ↔ 0 <= tid < 96) as Hlanes.
  { intros tid. unfold lanes. rewrite list_elem_of_filter, elem_of_threads. change (kGroupSize * kKvBlockSize) with 96. lia. }
  assert (∀ h t, 0 <= h < 6 → 0 <= t < 16 → m_new (h * 16 + t) = mx h tile t) as Hm.
  { intros h t Hh Ht. unfold m_new, ref_max. destruct (lane_index h t Ht) as [Hd Hr]. rewrite Hd. f_equal; [apply (Hheads h Hh)|].
    apply tree_lane; [lia|done|]. intros x Hx. destruct (lane_index h x Hx) as [-> ->]. by apply Hsc. }
  assert (∀ h t, 0 <= h < 6 → 0 <= t < 16 → pr (h * 16 + t) = prob h tile t) as Hpr.
  { intros h t Hh Ht. unfold pr, ref_prob. rewrite (Hm h t Hh Ht). destruct (lane_index h t Ht) as [-> ->]. by rewrite Hsc. }
  assert (∀ tid, 0 <= tid < 96 → ∃ h t, 0 <= h < 6 ∧ 0 <= t < 16 ∧ tid = h * 16 + t) as Hsplit.
  { intros tid Ht. exists (tid / 16), (tid mod 16). Z.div_mod_to_equations. lia. }
  assert (∀ (g v : Z → F) h, 0 <= h < 6 →
    writes (map (λ tid, (tid / kKvBlockSize, v tid)) (filter (λ tid, tid mod kKvBlockSize = 0) lanes)) g h = v (h * 16 + 0)) as Hfirst.
  { intros g v h Hh. destruct (lane_index h 0 ltac:(lia)) as [Hd Hr]. apply writes_hit.
    - apply list_elem_of_fmap. exists (h, v (h * 16 + 0)). split; [done|]. apply list_elem_of_fmap. exists (h * 16 + 0). split; [by rewrite Hd|].
      apply list_elem_of_filter. split; [done|]. apply Hlanes. lia.
    - intros v' (tid & [= -> ->] & [H0 Htid%Hlanes]%list_elem_of_filter)%list_elem_of_fmap.
      destruct (Hsplit tid Htid) as (h' & t' & Hh' & Ht' & ->). destruct (lane_index h' t' Ht') as [-> Hr']. f_equal. lia. }
  split; [|split; [|done]].
  - intros h t Hh Ht. unfold s'. cbn [scores]. destruct (lane_index h t Ht) as [Hd Hr]. rewrite <- (Hpr h t Hh Ht). apply writes_hit.
    + apply list_elem_of_fmap. exists (h, t, pr (h * 16 + t)). split; [done|]. apply list_elem_of_fmap. exists (h * 16 + t).
      split; [apply pair_equal_spec; split; [by rewrite Hd, Hr|reflexivity]|]. apply Hlanes. lia.
    + intros v' (tid & He & Htid%Hlanes)%list_elem_of_fmap. destruct (Hsplit tid Htid) as (h' & t' & Hh' & Ht' & ->).
      destruct (lane_index h' t' Ht') as [Hd' Hr']. apply pair_equal_spec in He as [He ->]. rewrite Hd', Hr' in He. by injection He as -> ->.
  - intros h Hh. destruct (lane_index h 0 ltac:(lia)) as [Hd Hr]. destruct (Hheads h Hh) as [Hhm Hhl].
    set (al := λ tid, expf (fsub (sh_m s (tid / kKvBlockSize)) (m_new tid))).
    assert (sh_m s' h = m_new (h * 16 + 0)) as -> by exact (Hfirst (sh_m s) m_new h Hh).
    assert (sh_alpha s' h = al (h * 16 + 0)) as -> by exact (Hfirst (sh_alpha s) al h Hh).
    assert (sh_l s' h = fadd (fmul (sh_l s ((h * 16 + 0) / kKvBlockSize)) (al (h * 16 + 0))) (xor_tree fadd [8; 4; 2; 1] pr (h * 16 + 0))) as ->
      by exact (Hfirst (sh_l s) (λ tid, fadd (fmul (sh_l s (tid / kKvBlockSize)) (al tid)) (xor_tree fadd [8; 4; 2; 1] pr tid)) h Hh).
    unfold al. rewrite (Hm h 0), Hd, Hhm, Hhl by lia. split; [done|]. split; [done|]. f_equal. apply tree_lane; [lia|lia|].
    intros x Hx. by apply Hpr.
Qed.

(** *** Accumulators *)

Notation fold_phase := (fold_phase kThreads cpasync seq_len).
Notation head_of tid j := (tid / kHeadDim + j * kHeadStride kThreads).

(** Heads per thread, and the stride between them. *)
Lemma thread_map :
  (kHeadStride kThreads = 1 ∧ kHeadsPerThread kThreads = 6 ∧ kThreads = 128) ∨
  (kHeadStride kThreads = 2 ∧ kHeadsPerThread kThreads = 3 ∧ kThreads = 256).
Proof using All. destruct Hk as [-> | ->]; auto. Qed.

Lemma head_range tid j : 0 <= tid < kThreads → 0 <= j < kHeadsPerThread kThreads → 0 <= head_of tid j < 6.
Proof using All.
  intros Ht Hj. destruct thread_map as [(-> & Hp & Hk')|(-> & Hp & Hk')]; rewrite Hp in Hj; rewrite Hk' in Ht; unfold kHeadDim;
    Z.div_mod_to_equations; lia.
Qed.

Definition holds_acc (tile : Z) (a : Z * Z → F) : Prop :=
  ∀ tid j, 0 <= tid < kThreads → 0 <= j < kHeadsPerThread kThreads → a (tid, j) = hs_acc (ref_head (head_of tid j) tile) (tid mod kHeadDim).

Lemma fold_phase_ok tile s a : 0 <= tile → holds_acc tile a →
  (∀ h t, 0 <= h < 6 → 0 <= t < 16 → scores s (h, t) = prob h tile t) → (∀ h, 0 <= h < 6 → sh_alpha s h = alpha h tile) →
  (∀ t d, 0 <= t < 16 → 0 <= d < 128 → v_tile s (tile_buf cpasync tile, t, d) = V (tile * kKvBlockSize + t) d) →
  holds_acc (tile + 1) (fold_phase tile s a).
Proof using All.
  intros Htile Ha Hp Hal Hv tid j Htid Hj. pose proof (head_range tid j Htid Hj) as Hh.
  unfold ref_head. rewrite ref_states_succ by done. unfold PagedAttention.fold_phase, ref_tile. cbn [hs_acc].
  rewrite Hal, Ha by done. fold (ref_head (head_of tid j) tile).
  assert (tile_valid seq_len tile <= 16) as Hvalid by (unfold tile_valid, kKvBlockSize; lia).
  assert (0 <= tid mod kHeadDim < 128) as Hd by (by apply Z.mod_pos_bound).
  assert (∀ l x, (∀ t, t ∈ l → 0 <= t < 16) →
    foldl (λ x t, fmaf (scores s (head_of tid j, t)) (__half2float (v_tile s (tile_buf cpasync tile, t, tid mod kHeadDim))) x) x l =
    foldl (λ x t, fmaf (prob (head_of tid j) tile t) (__half2float (V (tile * kKvBlockSize + t) (tid mod kHeadDim))) x) x l) as Hl.
  { induction l as [|t l IH]; intros x Hin; [done|]. assert (0 <= t < 16) by apply Hin, list_elem_of_here. cbn [foldl].
    rewrite Hp, Hv by done. apply IH. intros u Hu. by apply Hin, list_elem_of_further. }
  apply Hl. intros t Ht%elem_of_seqZ. lia.
Qed.

(** *** The loop *)

Notation iteration := (iteration kThreads cpasync order landed m pool table_row kv_head num_kv_heads seq_len).

Record loop_inv (tile : Z) (c : cta) : Prop := {
  li_queries : holds_queries (shared c);
  li_heads : holds_heads tile (shared c);
  li_acc : holds_acc tile (acc c);
  li_pending : pending c = groups_at tile;
}.

Lemma iteration_ok tile c : 0 <= tile < num_tiles seq_len → loop_inv tile c → loop_inv (tile + 1) (iteration c tile).
Proof using All.
  intros Ht [Hq Hh Ha Hp]. unfold PagedAttention.iteration.
  destruct (stage_phase_ok tile c Ht Hp) as ((Sq & Ssc & Sm & Sl & Sal) & Sacc & Sp & Sb).
  set (c1 := stage_phase _ _ _ _ _ _ _ _ _ _ tile c) in *.
  assert (holds_queries (shared c1)) as Hq1 by (intros h d ? ?; rewrite Sq; by apply Hq).
  destruct (score_phase_ok tile (shared c1) Hq1 Sb) as (Csc & Cq & Cv & Cm & Cl).
  set (s2 := score_phase tile (shared c1)) in *.
  assert (holds_heads tile s2) as Hh2 by (intros h Hhr; rewrite Cm, Cl, Sm, Sl; by apply Hh).
  destruct (softmax_phase_ok tile s2 Hh2 Csc) as (Dsc & Dml & Dq & Dv).
  set (s3 := softmax_phase tile s2) in *. split; cbn [shared acc pending].
  - intros h d ? ?. rewrite Dq, Cq. by apply Hq1.
  - intros h Hhr. destruct (Dml h Hhr) as (-> & _ & ->). unfold ref_head. by rewrite !ref_states_succ by lia.
  - apply fold_phase_ok; [lia|by rewrite Sacc|done|intros h Hhr; by apply Dml|].
    intros t d Ht' Hd. rewrite Dv, Cv. by apply (Sb t d).
  - done.
Qed.

Lemma init_ok s : loop_inv 0 (init kThreads cpasync order m q_row scale s).
Proof using All.
  assert (0 < num_tiles seq_len) as Hn by (unfold num_tiles, kKvBlockSize; Z.div_mod_to_equations; lia).
  set (own := filter (λ tid, tid < kGroupSize) (threads (-1))).
  assert (∀ g (x : F) h, 0 <= h < 6 → writes (map (λ tid, (tid, x)) own) g h = x) as Hown.
  { intros g x h Hh. apply writes_hit.
    - apply list_elem_of_fmap. exists (h, x). split; [done|]. apply list_elem_of_fmap. exists h. split; [done|].
      apply list_elem_of_filter. split; [unfold kGroupSize; lia|]. apply elem_of_threads. lia.
    - by intros v' (tid & [= _ ->] & _)%list_elem_of_fmap. }
  assert (loop_inv 0 (mkCta (shared (init kThreads cpasync order m q_row scale s)) (λ _, f_zero) (groups_at 0))) as [Hq Hh Ha Hp].
  - split; cbn [shared acc pending]; [| |by intros|done].
    + intros h d Hh Hd. unfold blk_q. transitivity (writes (concat (map (λ tid, map (λ i,
          ((i / kHeadDim, i mod kHeadDim), fmul (__half2float (m (q_row + i))) scale)) (strided tid kThreads (kGroupSize * kHeadDim)))
          (threads (-1)))) (q_tile s) (h, d)); [unfold init; by destruct cpasync|].
      set (i := h * kHeadDim + d). unfold kGroupSize, kHeadDim in *.
      assert (i / 128 = h) as Hi1 by (symmetry; apply (Z.div_unique _ _ _ d); lia).
      assert (i mod 128 = d) as Hi2 by (symmetry; apply (Z.mod_unique _ _ h); lia).
      apply writes_hit.
      * apply list_elem_of_fmap. eexists. split; [|apply elem_of_concat_map].
        2: { assert (i ∈ block_strided kThreads (6 * 128)) as Hin by (apply elem_of_block_strided; lia).
             apply elem_of_concat_map in Hin as (tid & Ht%elem_of_seqZ & Hi). exists tid. split; [apply elem_of_threads; lia|].
             apply list_elem_of_fmap. exists i. split; [reflexivity|done]. }
        cbn. by rewrite Hi1, Hi2.
      * intros v' (tid & _ & (i' & He & Hi')%list_elem_of_fmap)%elem_of_concat_map. injection He as H1 H2 ->.
        pose proof (Z.div_mod i' 128 ltac:(lia)). assert (i' = i) as -> by lia. done.
    + intros h Hhr. unfold ref_head, ref_states. cbn. unfold init. destruct cpasync; cbn; fold own; by rewrite !Hown.
  - split; [done|done|..].
    + unfold init. by destruct cpasync.
    + unfold init, groups_at. destruct cpasync; [|done]. destruct (Z.ltb_spec 0 (num_tiles seq_len)); [done|lia].
Qed.

Lemma tile_loop_ok s : loop_inv (num_tiles seq_len)
  (tile_loop kThreads cpasync order landed m q_row pool table_row kv_head num_kv_heads seq_len scale s).
Proof using All.
  unfold tile_loop. assert (0 <= num_tiles seq_len) as Hn by (unfold num_tiles, kKvBlockSize; Z.div_mod_to_equations; lia).
  assert (∀ n c, (n <= Z.to_nat (num_tiles seq_len))%nat → loop_inv 0 c → loop_inv (Z.of_nat n) (foldl iteration c (seqZ 0 (Z.of_nat n)))) as Hgen.
  { induction n as [|n IH]; intros c Hle Hc; [done|]. rewrite Nat2Z.inj_succ, <- Z.add_1_r, seqZ_app, foldl_app by lia.
    rewrite Z.add_0_l. apply iteration_ok; [lia|]. apply IH; [lia|done]. }
  specialize (Hgen (Z.to_nat (num_tiles seq_len))). rewrite Z2Nat.id in Hgen by done. apply Hgen; [lia|]. apply init_ok.
Qed.

(** What the epilogue stores. *)
Lemma epilogue_ok out_row c f : loop_inv (num_tiles seq_len) c →
  (∀ h d, 0 <= h < 6 → 0 <= d < 128 →
    writes (epilogue kThreads order out_row c) f (out_row + (h * kHeadDim + d)) =
    let s := ref_attention (blk_q h) K V seq_len in __float2half_rn (fdiv (hs_acc s d) (hs_l s))) ∧
  ∀ a, (∀ x, 0 <= x < 768 → a ≠ out_row + x) → writes (epilogue kThreads order out_row c) f a = f a.
Proof using All.
  intros [_ Hh Ha _]. assert (∀ x, x ∈ epilogue kThreads order out_row c ↔ ∃ tid j, 0 <= tid < kThreads ∧ 0 <= j < kHeadsPerThread kThreads ∧
    x = (out_row + (head_of tid j * kHeadDim + tid mod kHeadDim), __float2half_rn (fdiv (acc c (tid, j)) (sh_l (shared c) (head_of tid j))))) as Hel.
  { intros x. unfold epilogue. rewrite elem_of_concat_map. split.
    - intros (tid & Ht%elem_of_threads & (j & -> & Hj%elem_of_seqZ)%list_elem_of_fmap). exists tid, j. split; [done|]. split; [lia|done].
    - intros (tid & j & Ht & Hj & ->). exists tid. split; [by apply elem_of_threads|]. apply list_elem_of_fmap. exists j.
      split; [done|apply elem_of_seqZ; lia]. }
  split.
  - intros h d Hhr Hd. cbv zeta. apply writes_hit.
    + pose proof thread_map as Hs. set (stride := kHeadStride kThreads) in *.
      apply list_elem_of_fmap. eexists. split; [|apply Hel; exists ((h mod stride) * 128 + d), (h / stride)].
      2: { split; [destruct Hs as [(Hs & _ & ->)|(Hs & _ & ->)]; rewrite Hs; Z.div_mod_to_equations; lia|]. split; [|reflexivity].
           destruct Hs as [(Hs & -> & _)|(Hs & -> & _)]; rewrite Hs; Z.div_mod_to_equations; lia. }
      cbn [fst]. unfold kHeadDim.
      assert ((h mod stride * 128 + d) / 128 = h mod stride) as -> by (symmetry; apply (Z.div_unique _ _ _ d); lia).
      assert ((h mod stride * 128 + d) mod 128 = d) as -> by (symmetry; apply (Z.mod_unique _ _ (h mod stride)); lia).
      fold stride. pose proof (Z.div_mod h stride ltac:(destruct Hs as [(Hs & _)|(Hs & _)]; by rewrite Hs)). f_equal. lia.
    + intros v' (tid & j & Ht & Hj & He)%Hel. injection He as He ->. pose proof (head_range tid j Ht Hj) as Hr.
      assert (0 <= tid mod kHeadDim < 128) as Hd' by (by apply Z.mod_pos_bound).
      assert (head_of tid j = h ∧ tid mod kHeadDim = d) as [Hh' Hd''] by (unfold kHeadDim in *; lia).
      rewrite Ha by done. rewrite Hh', Hd''. destruct (Hh h Hhr) as [_ ->]. done.
  - intros a Hout. apply writes_miss. intros (x & -> & (tid & j & Ht & Hj & ->)%Hel)%list_elem_of_fmap.
    pose proof (head_range tid j Ht Hj) as Hr. assert (0 <= tid mod kHeadDim < 128) as Hd' by (by apply Z.mod_pos_bound).
    apply (Hout (head_of tid j * kHeadDim + tid mod kHeadDim)); [unfold kHeadDim in *; lia|done].
Qed.

End block.
End kernel.
