(* ===== verification/PagedAttentionTheorems.v ===== *)
(** * Paged decode attention: the launches

    From one block to the grid: what a launch stores, on any arithmetic.  The
    result is a function of the queries, the keys and the values of the live
    positions; it does not see the thread count, the pipeline, the order of
    anything, shared memory, or what unused pool slots hold. *)

From S2P Require Import Prelude Doubles Types KvPool DeviceMath SiluMul Rope Reduce RmsNorm PagedAttention PagedAttentionRef.

Section kernel.
Context {F half : Type} `{FloatOps F half}.
Notation mem := (Z → half).

(** ** The reference reads only live positions *)

Section ext.
Context (qs qs' : Z → F) (K K' V V' : Z → Z → half) (seq_len : Z).
Context (Hq : ∀ d, 0 <= d < 128 → qs d = qs' d).
Context (HK : ∀ pos d, 0 <= pos < seq_len → 0 <= d < 128 → K pos d = K' pos d).
Context (HV : ∀ pos d, 0 <= pos < seq_len → 0 <= d < 128 → V pos d = V' pos d).

Lemma ref_dot_ext pos : 0 <= pos < seq_len → ref_dot qs K pos = ref_dot qs' K' pos.
Proof using Hq HK.
  intros Hp. unfold ref_dot. rewrite !(down_tree_8 fadd _ 0) by done.
  assert (∀ sub, 0 <= sub < 8 → ref_partial qs K pos (0 + sub) = ref_partial qs' K' pos (0 + sub)) as Hs.
  { intros sub Hsub. unfold ref_partial.
    assert (∀ c x l, 0 <= c < 2 → (∀ e, e ∈ l → 0 <= e < 8) →
      foldl (λ dot e, let d := 64 * c + 8 * (0 + sub) + e in fmaf (qs d) (__half2float (K pos d)) dot) x l =
      foldl (λ dot e, let d := 64 * c + 8 * (0 + sub) + e in fmaf (qs' d) (__half2float (K' pos d)) dot) x l) as Hin.
    { intros c x l Hc. revert x. induction l as [|e l IH]; intros x Hl; [done|]. cbn [foldl]. cbv zeta.
      assert (0 <= e < 8) by apply Hl, list_elem_of_here. rewrite Hq, HK by lia. apply IH. intros e' He'. by apply Hl, list_elem_of_further. }
    assert (∀ e, e ∈ seqZ 0 8 → 0 <= e < 8) as H8 by (intros e He%elem_of_seqZ; lia).
    cbn [foldl]. rewrite (Hin 0 _ _ ltac:(lia) H8), (Hin 1 _ _ ltac:(lia) H8). done. }
  cbv zeta. by rewrite !Hs by lia.
Qed.

Definition same_head (s s' : head_state (F := F)) : Prop :=
  hs_m s = hs_m s' ∧ hs_l s = hs_l s' ∧ ∀ d, 0 <= d < 128 → hs_acc s d = hs_acc s' d.

Lemma ref_tile_ext s s' tile : 0 <= tile → same_head s s' → same_head (ref_tile qs K V seq_len s tile) (ref_tile qs' K' V' seq_len s' tile).
Proof using All.
  intros Ht (Hm & Hl & Ha).
  assert (∀ t, 0 <= t → ref_score qs K seq_len tile t = ref_score qs' K' seq_len tile t) as Hsc.
  { intros t Ht'. unfold ref_score. destruct (Z.ltb_spec (tile * kKvBlockSize + t) seq_len); [|done].
    apply ref_dot_ext. unfold kKvBlockSize in *. lia. }
  assert (Forall (λ o, 0 <= o) [8; 4; 2; 1]) as Ho by (repeat constructor; lia).
  assert (∀ t, 0 <= t → ref_max qs K seq_len s tile t = ref_max qs' K' seq_len s' tile t) as Hmx
    by (intros t Ht'; unfold ref_max; rewrite Hm; f_equal; by apply xor_tree_ext).
  assert (∀ t, 0 <= t → ref_prob qs K seq_len s tile t = ref_prob qs' K' seq_len s' tile t) as Hp
    by (intros t Ht'; unfold ref_prob; by rewrite Hsc, Hmx).
  assert (ref_alpha qs K seq_len s tile = ref_alpha qs' K' seq_len s' tile) as Hal by (unfold ref_alpha; by rewrite Hm, Hmx).
  unfold ref_tile. split_and!; cbn [hs_m hs_l hs_acc].
  - by apply Hmx.
  - rewrite Hl, Hal. f_equal. by apply xor_tree_ext.
  - intros d Hd. rewrite Ha, Hal by done.
    assert (∀ l x, (∀ t, t ∈ l → 0 <= t < tile_valid seq_len tile) →
      foldl (λ x t, fmaf (ref_prob qs K seq_len s tile t) (__half2float (V (tile * kKvBlockSize + t) d)) x) x l =
      foldl (λ x t, fmaf (ref_prob qs' K' seq_len s' tile t) (__half2float (V' (tile * kKvBlockSize + t) d)) x) x l) as Hfold.
    { induction l as [|t l IH]; intros x Hl'; [done|]. assert (0 <= t < tile_valid seq_len tile) as Hv by apply Hl', list_elem_of_here.
      cbn [foldl]. rewrite Hp, HV by (unfold tile_valid, kKvBlockSize in *; lia). apply IH. intros u Hu. by apply Hl', list_elem_of_further. }
    apply Hfold. intros t Hin%elem_of_seqZ. lia.
Qed.

Lemma ref_attention_ext : same_head (ref_attention qs K V seq_len) (ref_attention qs' K' V' seq_len).
Proof using All.
  unfold ref_attention, ref_states.
  assert (∀ l s s', (∀ t, t ∈ l → 0 <= t) → same_head s s' → same_head (foldl (ref_tile qs K V seq_len) s l) (foldl (ref_tile qs' K' V' seq_len) s' l)) as Hgen.
  { induction l as [|t l IH]; intros s s' Hl Hs; [done|]. cbn. apply IH; [intros u Hu; by apply Hl, list_elem_of_further|].
    apply ref_tile_ext; [apply Hl, list_elem_of_here|done]. }
  apply Hgen; [intros t Ht%elem_of_seqZ; lia|]. done.
Qed.

End ext.

(** ** The grid *)

Definition pa_schedule_ok (sch : pa_schedule F half) : Prop :=
  (∀ l, pa_blocks sch l ≡ₚ l) ∧ ∀ sk p l, pa_order sch sk p l ≡ₚ l.

Lemma elem_of_grid_of xs ys x y : (x, y) ∈ grid_of xs ys ↔ 0 <= x < xs ∧ 0 <= y < ys.
Proof.
  unfold grid_of. rewrite elem_of_concat_map. split.
  - intros (x' & Hx%elem_of_seqZ & (y' & [= -> ->] & Hy%elem_of_seqZ)%list_elem_of_fmap). lia.
  - intros [Hx Hy]. exists x. split; [apply elem_of_seqZ; lia|]. apply list_elem_of_fmap. exists y. split; [done|apply elem_of_seqZ; lia].
Qed.

Lemma NoDup_grid_of xs ys : NoDup (grid_of xs ys).
Proof.
  apply NoDup_concat_keyed; [apply NoDup_seqZ| |].
  - intros i _. apply NoDup_fmap_2; [by intros ?? [=]|apply NoDup_seqZ].
  - by intros i i' ? _ _ (h & -> & _)%list_elem_of_fmap (h' & [= -> ->] & _)%list_elem_of_fmap.
Qed.

(** The tensors of a launch and the memory they own. *)
Section launch.
Context (out out_row_stride q q_row_stride pool : Z) (block_tables seq_lens : Z → Z)
  (num_seqs max_blocks num_q_heads num_kv_heads num_blocks : Z) (scale : F).
Notation width := (num_q_heads * kHeadDim).
Notation len seq := (clamped_len seq_lens max_blocks seq).
Notation table seq i := (block_tables (seq * max_blocks + i)).

Record pa_layout : Prop := {
  pl_heads : num_q_heads = num_kv_heads * kGroupSize;
  pl_kv : 0 < num_kv_heads;
  pl_seqs : 0 < num_seqs;
  pl_max : 0 < max_blocks;
  pl_strides : width <= q_row_stride ∧ width <= out_row_stride;
  pl_not_null : out ≠ 0 ∧ q ≠ 0 ∧ pool ≠ 0;
  pl_q : apart out (num_seqs * out_row_stride) q (num_seqs * q_row_stride);
  pl_pool : apart out (num_seqs * out_row_stride) pool (num_blocks * 2 * num_kv_heads * kKvBlockSize * kHeadDim);
  pl_tables seq i : 0 <= seq < num_seqs → 0 <= i → i * kKvBlockSize < len seq → 0 <= table seq i < num_blocks;
}.

Definition pa_q (m : mem) (seq head d : Z) : F := fmul (__half2float (m (q + (seq * q_row_stride + head * kHeadDim) + d))) scale.
Definition pa_kv (m : mem) (kv seq kv_head pos d : Z) : half :=
  m (pool + (PoolRowOffset (table seq (pos / kKvBlockSize)) kv kv_head num_kv_heads (pos mod kKvBlockSize) + d)).

(** The reference attention of a query head. *)
Definition pa_head (m : mem) (seq head : Z) : head_state (F := F) :=
  ref_attention (pa_q m seq head) (pa_kv m 0 seq (head / kGroupSize)) (pa_kv m 1 seq (head / kGroupSize)) (len seq).

Definition out_cell (seq head d : Z) : Z := out + (seq * out_row_stride + head * kHeadDim + d).

(** What a launch must leave. *)
Definition attends (m m' : mem) : Prop :=
  (∀ seq head d, 0 <= seq < num_seqs → 0 < len seq → 0 <= head < num_q_heads → 0 <= d < kHeadDim →
    let s := pa_head m seq head in m' (out_cell seq head d) = __float2half_rn (fdiv (hs_acc s d) (hs_l s))) ∧
  ∀ a, (∀ seq head d, 0 <= seq < num_seqs → 0 < len seq → 0 <= head < num_q_heads → 0 <= d < kHeadDim → a ≠ out_cell seq head d) → m' a = m a.

Context (HL : pa_layout).

Lemma out_cell_range seq head d : 0 <= seq < num_seqs → 0 <= head < num_q_heads → 0 <= d < 128 →
  out <= out_cell seq head d < out + num_seqs * out_row_stride ∧ 0 <= head * kHeadDim + d < out_row_stride.
Proof using HL.
  intros Hs Hh Hd. destruct (pl_strides HL) as [_ Ho]. unfold out_cell, kHeadDim in *.
  assert (0 <= head * 128 + d < num_q_heads * 128) by lia.
  assert ((seq + 1) * out_row_stride <= num_seqs * out_row_stride) by (apply Z.mul_le_mono_nonneg_r; lia).
  assert (0 <= seq * out_row_stride) by (apply Z.mul_nonneg_nonneg; lia). lia.
Qed.

Lemma out_cell_inj seq head d seq' head' d' : 0 <= head < num_q_heads → 0 <= d < 128 → 0 <= head' < num_q_heads → 0 <= d' < 128 →
  out_cell seq head d = out_cell seq' head' d' → seq = seq' ∧ head = head' ∧ d = d'.
Proof using HL.
  intros Hh Hd Hh' Hd' He. destruct (pl_strides HL) as [_ Ho]. unfold out_cell, kHeadDim in *.
  assert (seq = seq' ∧ head * 128 + d = head' * 128 + d') as [-> He'] by (apply (radix out_row_stride); lia).
  by apply (radix 128) in He' as [-> ->]; [|lia..].
Qed.

(** Memory no launch writes: the queries and the live pool rows. *)
Lemma reads_apart m1 m2 :
  (∀ a, (∀ seq head d, 0 <= seq < num_seqs → 0 <= head < num_q_heads → 0 <= d < 128 → a ≠ out_cell seq head d) → m1 a = m2 a) →
  (∀ seq head d, 0 <= seq < num_seqs → 0 <= head < num_q_heads → 0 <= d < 128 → pa_q m1 seq head d = pa_q m2 seq head d) ∧
  (∀ kv seq kvh pos d, 0 <= kv < 2 → 0 <= seq < num_seqs → 0 <= kvh < num_kv_heads → 0 <= pos < len seq → 0 <= d < 128 →
    pa_kv m1 kv seq kvh pos d = pa_kv m2 kv seq kvh pos d).
Proof using HL.
  intros Heq. split.
  - intros seq head d Hs Hh Hd. unfold pa_q. f_equal. f_equal. apply Heq. intros seq' head' d' Hs' Hh' Hd'.
    pose proof (out_cell_range seq' head' d' Hs' Hh' Hd'). pose proof (pl_q HL) as Ha. destruct (pl_strides HL) as [Hq _]. unfold apart, kHeadDim in *.
    assert (0 <= head * 128 + d < num_q_heads * 128) by lia.
    assert ((seq + 1) * q_row_stride <= num_seqs * q_row_stride) by (apply Z.mul_le_mono_nonneg_r; lia).
    assert (0 <= seq * q_row_stride) by (apply Z.mul_nonneg_nonneg; lia). lia.
  - intros kv seq kvh pos d Hkv Hs Hh Hp Hd. unfold pa_kv. apply Heq. intros seq' head' d' Hs' Hh' Hd'.
    pose proof (out_cell_range seq' head' d' Hs' Hh' Hd'). pose proof (pl_pool HL) as Ha. pose proof (pl_kv HL).
    set (i := pos / kKvBlockSize). set (slot := pos mod kKvBlockSize). unfold kKvBlockSize in *.
    assert (0 <= i ∧ i * 16 < len seq ∧ 0 <= slot < 16) as (Hi & Hilt & Hslot) by (unfold i, slot; Z.div_mod_to_equations; lia).
    pose proof (pl_tables HL seq i Hs Hi Hilt) as Hb. set (b := table seq i) in *. unfold apart, PoolRowOffset, kKvBlockSize, kHeadDim in *.
    assert (0 <= b * 2 + kv < num_blocks * 2) as Hb1 by lia.
    assert (0 <= (b * 2 + kv) * num_kv_heads + kvh < num_blocks * 2 * num_kv_heads) as Hb2.
    { assert ((b * 2 + kv + 1) * num_kv_heads <= num_blocks * 2 * num_kv_heads) by (apply Z.mul_le_mono_nonneg_r; lia).
      assert (0 <= (b * 2 + kv) * num_kv_heads) by (apply Z.mul_nonneg_nonneg; lia). lia. }
    lia.
Qed.

(** One block of either configuration. *)
Section block.
Context (sch : pa_schedule F half) (Hsch : pa_schedule_ok sch) (kThreads : Z) (Hk : kThreads = 128 ∨ kThreads = 256) (cpasync : bool).
Notation kernel := (PagedAttentionDecodeKernel sch out out_row_stride q q_row_stride pool block_tables seq_lens max_blocks num_kv_heads scale kThreads cpasync).

Lemma head_split head : 0 <= head < num_q_heads → ∃ kvh h, 0 <= kvh < num_kv_heads ∧ 0 <= h < 6 ∧ head = kvh * 6 + h ∧ head / kGroupSize = kvh.
Proof using HL.
  intros Hh. pose proof (pl_heads HL) as Hq. unfold kGroupSize in *. exists (head / 6), (head mod 6). Z.div_mod_to_equations. lia.
Qed.

Lemma block_attends seq kvh m : 0 <= seq < num_seqs → 0 <= kvh < num_kv_heads →
  (0 < len seq → ∀ h d, 0 <= h < 6 → 0 <= d < 128 → let s := pa_head m seq (kvh * 6 + h) in
    kernel (seq, kvh) m (out_cell seq (kvh * 6 + h) d) = __float2half_rn (fdiv (hs_acc s d) (hs_l s))) ∧
  ∀ a, (0 < len seq → ∀ h d, 0 <= h < 6 → 0 <= d < 128 → a ≠ out_cell seq (kvh * 6 + h) d) → kernel (seq, kvh) m a = m a.
Proof using HL Hsch Hk.
  intros Hs Hkv. unfold PagedAttentionDecodeKernel. destruct (Z.leb_spec (len seq) 0) as [Hl|Hl]; [split; [lia|done]|].
  set (q_row := q + (seq * q_row_stride + kvh * kGroupSize * kHeadDim)). set (tr := λ i, table seq i).
  pose proof (tile_loop_ok kThreads cpasync (pa_order sch (seq, kvh)) (pa_landed sch (seq, kvh)) m q_row pool tr kvh num_kv_heads (len seq) scale
    Hk (proj2 Hsch (seq, kvh)) Hl (pa_garbage sch (seq, kvh))) as Hinv.
  set (c := tile_loop _ _ _ _ _ _ _ _ _ _ _ _ _) in *.
  destruct (epilogue_ok kThreads cpasync (pa_order sch (seq, kvh)) (pa_landed sch (seq, kvh)) m q_row pool tr kvh num_kv_heads (len seq) scale
    Hk (proj2 Hsch (seq, kvh)) Hl (out + (seq * out_row_stride + kvh * kGroupSize * kHeadDim)) c m Hinv) as [Hval Hframe].
  split.
  - intros _ h d Hh Hd. cbv zeta.
    replace (out_cell seq (kvh * 6 + h) d) with (out + (seq * out_row_stride + kvh * kGroupSize * kHeadDim) + (h * kHeadDim + d))
      by (unfold out_cell, kGroupSize, kHeadDim; lia).
    rewrite Hval by done. cbv zeta. unfold pa_head.
    assert ((kvh * 6 + h) / kGroupSize = kvh) as -> by (symmetry; apply (Z.div_unique _ _ _ h); unfold kGroupSize; lia).
    destruct (ref_attention_ext (blk_q m q_row scale h) (pa_q m seq (kvh * 6 + h)) (blk_kv m pool tr kvh num_kv_heads 0) (pa_kv m 0 seq kvh)
      (blk_kv m pool tr kvh num_kv_heads 1) (pa_kv m 1 seq kvh) (len seq)) as (_ & Hl1 & Ha1); [|done|done|].
    + intros d' Hd'. unfold blk_q, pa_q, q_row. do 3 f_equal. unfold kGroupSize, kHeadDim. lia.
    + by rewrite Hl1, Ha1.
  - intros a Ha. apply Hframe. intros x Hx ->. apply (Ha Hl (x / 128) (x mod 128)); [Z.div_mod_to_equations; lia|Z.div_mod_to_equations; lia|].
    unfold out_cell, kGroupSize, kHeadDim. Z.div_mod_to_equations. lia.
Qed.

Lemma grid_attends m : attends m (run_blocks kernel (pa_blocks sch (grid_of num_seqs num_kv_heads)) m).
Proof using HL Hsch Hk.
  set (k := pa_blocks sch _). assert (∀ seq kvh, (seq, kvh) ∈ k ↔ 0 <= seq < num_seqs ∧ 0 <= kvh < num_kv_heads) as Hel
    by (intros; unfold k; rewrite (proj1 Hsch); apply elem_of_grid_of).
  assert (NoDup k) as Hnd by (unfold k; rewrite (proj1 Hsch); apply NoDup_grid_of).
  set (foot (sk : Z * Z) a := 0 < len sk.1 ∧ ∃ h d, 0 <= h < 6 ∧ 0 <= d < 128 ∧ a = out_cell sk.1 (sk.2 * 6 + h) d).
  pose proof (pl_heads HL) as Hq. unfold kGroupSize in Hq.
  assert (∀ x m a, x ∈ k → ¬ foot x a → kernel x m a = m a) as Hframe.
  { intros [seq kvh] m' a [Hs Hkv]%Hel Ha. apply block_attends; [done|done|]. intros Hl h d Hh Hd ->. apply Ha. split; [done|].
    exists h, d. done. }
  assert (∀ x y a, x ∈ k → y ∈ k → foot x a → foot y a → x = y) as Hown.
  { intros [seq kvh] [seq' kvh'] a [Hs Hkv]%Hel [Hs' Hkv']%Hel (_ & h & d & Hh & Hd & ->) (_ & h' & d' & Hh' & Hd' & He). cbn in *.
    apply out_cell_inj in He as (-> & He & _); [|lia..]. f_equal. lia. }
  assert (∀ x a m1 m2, x ∈ k → foot x a → (∀ b, (∀ y, y ∈ k → foot y b → y = x) → m1 b = m2 b) → kernel x m1 a = kernel x m2 a) as Hdep.
  { intros [seq kvh] a m1 m2 [Hs Hkv]%Hel (Hl & h & d & Hh & Hd & ->) Heq. cbn [fst snd] in *.
    destruct (reads_apart m1 m2) as [Hq12 Hkv12].
    { intros b Hb. apply Heq. intros [seq' kvh'] [Hs' Hkv']%Hel (_ & h' & d' & Hh' & Hd' & ->). cbn in *. exfalso.
      apply (Hb seq' (kvh' * 6 + h') d'); (done || lia). }
    destruct (block_attends seq kvh m1 Hs Hkv) as [V1 _], (block_attends seq kvh m2 Hs Hkv) as [V2 _].
    rewrite (V1 Hl h d Hh Hd), (V2 Hl h d Hh Hd). cbv zeta.
    assert ((kvh * 6 + h) / kGroupSize = kvh) as Hg by (symmetry; apply (Z.div_unique _ _ _ h); unfold kGroupSize; lia).
    destruct (ref_attention_ext (pa_q m1 seq (kvh * 6 + h)) (pa_q m2 seq (kvh * 6 + h)) (pa_kv m1 0 seq kvh) (pa_kv m2 0 seq kvh)
      (pa_kv m1 1 seq kvh) (pa_kv m2 1 seq kvh) (len seq)) as (_ & Hl1 & Ha1).
    - intros d' Hd'. apply Hq12; lia.
    - intros pos d' Hp Hd'. by apply Hkv12.
    - intros pos d' Hp Hd'. by apply Hkv12.
    - unfold pa_head. rewrite Hg. by rewrite Hl1, Ha1. }
  split.
  - intros seq head d Hs Hl Hh Hd. destruct (head_split head Hh) as (kvh & h & Hkv & Hh6 & -> & _). cbv zeta.
    rewrite (run_blocks_spec kernel foot k Hframe Hown Hdep) with (x := (seq, kvh)); [|done|done|by apply Hel|split; [done|by exists h, d]].
    by apply block_attends.
  - intros a Ha. apply (run_blocks_frame kernel foot k Hframe); [done|]. intros [seq kvh] [Hs Hkv]%Hel (Hl & h & d & Hh & Hd & ->).
    apply (Ha seq (kvh * 6 + h) d); (done || (cbn in *; lia)).
Qed.

End block.

Lemma contract_holds : CheckCommonContract true out out_row_stride q q_row_stride pool max_blocks num_q_heads num_kv_heads kHeadDim = true.
Proof using HL.
  destruct HL as [Hh Hkv Hs Hm [Hq Ho] (Ho0 & Hq0 & Hp0) _ _ _]. unfold CheckCommonContract, kGroupSize in *.
  assert (Z.rem num_q_heads num_kv_heads = 0) as -> by (rewrite Hh, Z.mul_comm; apply Z.rem_mul; lia).
  rewrite !andb_true_iff, !negb_true_iff, !Z.eqb_neq, !Z.leb_le, !Z.eqb_eq. repeat split; try done; lia.
Qed.

(** A launch inside the contract leaves the reference attention of every live
    sequence and touches neither padded rows nor anything else. *)
Lemma paged_attention_stores sch compute_major cpasync m : pa_schedule_ok sch →
  ∃ m', LaunchPagedAttentionDecode sch compute_major cpasync true out out_row_stride q q_row_stride pool block_tables seq_lens num_seqs max_blocks
    num_q_heads num_kv_heads kHeadDim scale m = Some m' ∧ attends m m'.
Proof using HL.
  intros Hsch. unfold LaunchPagedAttentionDecode. destruct (Z.leb_spec num_seqs 0) as [?|_]; [pose proof (pl_seqs HL); lia|].
  rewrite contract_holds, (proj2 (Z.eqb_eq _ _) (pl_heads HL)). cbn [negb]. eexists. split; [done|].
  apply grid_attends; [done|]. unfold kThreadsAmpere, kThreadsPreAmpere. destruct (8 <=? compute_major); auto.
Qed.

End launch.

(** C37. Two launches over memories that agree on the queries and on the live
    positions of every sequence's keys and values store the same bits: the
    thread count, the copy pipeline, the order of blocks and threads, what
    shared memory held and what unused or stale pool slots hold - any value, a
    NaN included - do not show.  Rows of padded slots are left as they were. *)
Theorem paged_attention_determined out out_row_stride q q_row_stride pool block_tables seq_lens num_seqs max_blocks num_q_heads num_kv_heads
    num_blocks scale sch1 sch2 major1 major2 cpasync1 cpasync2 (m1 m2 : mem) :
  pa_layout out out_row_stride q q_row_stride pool block_tables seq_lens num_seqs max_blocks num_q_heads num_kv_heads num_blocks →
  pa_schedule_ok sch1 → pa_schedule_ok sch2 →
  (∀ seq head d, 0 <= seq < num_seqs → 0 <= head < num_q_heads → 0 <= d < 128 →
    m1 (q + (seq * q_row_stride + head * kHeadDim) + d) = m2 (q + (seq * q_row_stride + head * kHeadDim) + d)) →
  (∀ kv seq kvh pos d, 0 <= kv < 2 → 0 <= seq < num_seqs → 0 <= kvh < num_kv_heads → 0 <= pos < clamped_len seq_lens max_blocks seq → 0 <= d < 128 →
    pa_kv pool block_tables max_blocks num_kv_heads m1 kv seq kvh pos d = pa_kv pool block_tables max_blocks num_kv_heads m2 kv seq kvh pos d) →
  let launch sch major cpasync := LaunchPagedAttentionDecode sch major cpasync true out out_row_stride q q_row_stride pool block_tables seq_lens num_seqs
    max_blocks num_q_heads num_kv_heads kHeadDim scale in
  ∃ r1 r2, launch sch1 major1 cpasync1 m1 = Some r1 ∧ launch sch2 major2 cpasync2 m2 = Some r2 ∧
    ∀ seq head d, 0 <= seq < num_seqs → 0 <= head < num_q_heads → 0 <= d < 128 →
      let a := out_cell out out_row_stride seq head d in
      if 0 <? clamped_len seq_lens max_blocks seq then r1 a = r2 a else r1 a = m1 a ∧ r2 a = m2 a.
Proof.
  intros HL Hs1 Hs2 Hq Hkv launch.
  destruct (paged_attention_stores _ _ _ _ _ _ _ _ _ _ _ _ scale HL sch1 major1 cpasync1 m1 Hs1) as (r1 & Hr1 & V1 & F1).
  destruct (paged_attention_stores _ _ _ _ _ _ _ _ _ _ _ _ scale HL sch2 major2 cpasync2 m2 Hs2) as (r2 & Hr2 & V2 & F2).
  exists r1, r2. split; [done|]. split; [done|]. intros seq head d Hs Hh Hd a.
  destruct (Z.ltb_spec 0 (clamped_len seq_lens max_blocks seq)) as [Hl|Hl].
  - unfold a. rewrite V1, V2 by done. cbv zeta. destruct (head_split _ _ _ _ _ _ _ _ _ _ _ _ HL head Hh) as (kvh & h & Hkvh & _ & _ & Hg).
    unfold pa_head. rewrite Hg. edestruct ref_attention_ext as (_ & -> & Ha); [..|by rewrite Ha].
    + intros d' Hd'. unfold pa_q. by rewrite Hq.
    + intros pos d' Hp Hd'. by apply Hkv.
    + intros pos d' Hp Hd'. by apply Hkv.
  - assert (∀ seq' head' d', 0 <= seq' < num_seqs → 0 < clamped_len seq_lens max_blocks seq' → 0 <= head' < num_q_heads → 0 <= d' < kHeadDim →
      a ≠ out_cell out out_row_stride seq' head' d') as Hne.
    { intros seq' head' d' _ Hl' Hh' Hd' He. unfold a in He. eapply out_cell_inj in He as (-> & _); [|exact HL|done|done|done|done]. lia. }
    split; [by apply F1|by apply F2].
Qed.

End kernel.
