(* ===== verification/PagedAttentionExact.v ===== *)
(** * Paged decode attention in exact arithmetic

    The online softmax of the primary kernel and the two-pass softmax of the
    oracle are the same function: the softmax-weighted average of the values.
    The values no kernel may use - unused pool slots - are [None], about which
    nothing is known. *)

From Stdlib Require Import Reals Lra.
From S2P Require Import Prelude Doubles Types KvPool DeviceMath SiluMul Rope Reduce RealMath RmsNorm PagedAttention PagedAttentionRef PagedAttentionTheorems.

#[local] Open Scope Z_scope.
#[local] Existing Instance real_ops.

(** ** One head *)

Section head.
Context (qs : Z → xreal) (K V : Z → Z → xreal) (seq_len : Z) (qr : Z → R) (kr vr : Z → Z → R).
Context (Hlen : 0 < seq_len).
Context (Hq : ∀ d, 0 <= d < 128 → qs d = Some (qr d)).
Context (HK : ∀ pos d, 0 <= pos < seq_len → 0 <= d < 128 → K pos d = Some (kr pos d)).
Context (HV : ∀ pos d, 0 <= pos < seq_len → 0 <= d < 128 → V pos d = Some (vr pos d)).

Definition dot (pos : Z) : R := rsum (λ d, qr d * kr pos d)%R (seqZ 0 128).

(** A chain of fused multiply-adds from zero is a sum. *)
Lemma fma_chain (a b : Z → xreal) (x y : Z → R) l : (∀ i, i ∈ l → a i = Some (x i) ∧ b i = Some (y i)) → ∀ s,
  foldl (λ acc i, fmaf (a i) (b i) acc) (Some s) l = Some (s + rsum (λ i, x i * y i) l)%R.
Proof using Type.
  induction l as [|i l IH]; intros Hl s; [cbn; f_equal; lra|]. cbn [foldl].
  destruct (Hl i ltac:(apply list_elem_of_here)) as [-> ->]. cbn -[foldl rsum].
  change (Some (x i * y i + s)%R) with (Some (x i * y i + s)%R). rewrite IH by (intros j Hj; apply Hl; by apply list_elem_of_further).
  rewrite rsum_cons. f_equal. lra.
Qed.

(** The dimensions of a score lane. *)
Definition lane_dims (sub : Z) : list Z := map (λ e, 64 * 0 + 8 * sub + e) (seqZ 0 8) ++ map (λ e, 64 * 1 + 8 * sub + e) (seqZ 0 8).

Lemma lane_dims_perm : concat (map lane_dims (seqZ 0 8)) ≡ₚ seqZ 0 128.
Proof using Type. apply (bool_decide_unpack _). by vm_compute. Qed.

Lemma rsum_map f (g : Z → Z) l : rsum f (map g l) = rsum (λ x, f (g x)) l.
Proof using Type. unfold rsum. by rewrite map_map. Qed.

Lemma ref_dot_exact pos : 0 <= pos < seq_len → ref_dot qs K pos = Some (dot pos).
Proof using Hq HK.
  intros Hp. unfold ref_dot. rewrite (down_sum8 fadd f_zero xadd_monoid) by done.
  rewrite (big_ext fadd f_zero _ (λ sub, Some (rsum (λ d, qr d * kr pos d)%R (lane_dims sub)))).
  - etrans; [apply (xsum_Some (λ sub, rsum (λ d, qr d * kr pos d)%R (lane_dims sub)))|]. f_equal. unfold dot.
    rewrite <- (rsum_perm _ _ _ lane_dims_perm). unfold rsum at 1 3. apply (big_concat Rplus 0%R radd_monoid).
  - intros sub Hsub%elem_of_seqZ. rewrite Z.add_0_l.
    assert (∀ c s, 0 <= c < 2 → foldl (λ dot e, let d := 64 * c + 8 * sub + e in fmaf (qs d) (__half2float (K pos d)) dot) (Some s) (seqZ 0 8) =
      Some (s + rsum (λ d, qr d * kr pos d) (map (λ e, (64 * c + 8 * sub + e)%Z) (seqZ 0 8)))%R) as Hc.
    { intros c s Hc. rewrite rsum_map.
      apply (fma_chain (λ e, qs (64 * c + 8 * sub + e)) (λ e, K pos (64 * c + 8 * sub + e)) (λ e, qr (64 * c + 8 * sub + e)) (λ e, kr pos (64 * c + 8 * sub + e))).
      intros e He%elem_of_seqZ. split; [apply Hq|apply HK]; lia. }
    unfold ref_partial. cbn [foldl]. change f_zero with (Some 0%R). rewrite (Hc 0), (Hc 1) by lia.
    f_equal. unfold lane_dims. rewrite rsum_app. lra.
Qed.

(** *** Tiles *)

Notation valid tile := (tile_valid seq_len tile).
Notation tile_len tile := (Z.min (tile * kKvBlockSize) seq_len).
Notation weight pos := (exp (dot pos)).

Lemma valid_range tile : 0 <= tile → tile * kKvBlockSize < seq_len → 1 <= valid tile <= 16 ∧ tile_len (tile + 1) = tile * kKvBlockSize + valid tile ∧ tile_len tile = tile * kKvBlockSize.
Proof using Type. unfold tile_valid, kKvBlockSize. lia. Qed.

(** The live positions of a tile. *)
Lemma tile_positions tile : 0 <= tile → tile * kKvBlockSize < seq_len →
  seqZ 0 (tile_len (tile + 1)) ≡ₚ seqZ 0 (tile_len tile) ++ map (λ t, tile * kKvBlockSize + t) (seqZ 0 (valid tile)).
Proof using Type.
  intros Ht Hl. destruct (valid_range tile Ht Hl) as (Hv & He & He'). rewrite He, He'.
  rewrite seqZ_app by (unfold kKvBlockSize; lia). apply Permutation_app_head. rewrite Z.add_0_l.
  apply NoDup_Permutation; [apply NoDup_seqZ|apply NoDup_fmap_2_strong; [lia|apply NoDup_seqZ]|].
  intros x. rewrite elem_of_seqZ, list_elem_of_fmap. setoid_rewrite elem_of_seqZ. split.
  - intros Hx. exists (x - tile * kKvBlockSize). lia.
  - intros (t & -> & Ht'). lia.
Qed.

Lemma seqZ_split a b : 0 <= a <= b → seqZ 0 b = seqZ 0 a ++ map (λ t, a + t) (seqZ 0 (b - a)).
Proof using Type.
  intros Hab. replace b with (a + (b - a)) at 1 by lia. rewrite seqZ_app by lia. f_equal. rewrite Z.add_0_l.
  apply list_eq. intros i. change (map (λ t, a + t)) with (fmap (M := list) (λ t, a + t)). rewrite list_lookup_fmap.
  destruct (decide (Z.of_nat i < b - a)).
  - rewrite !lookup_seqZ_lt by lia. cbn. f_equal.
  - by rewrite !lookup_seqZ_ge by lia.
Qed.

(** A tree over the 16 slots of a tile whose masked slots hold the identity. *)
Lemma slots_tree {op : xreal → xreal → xreal} {e : xreal} (Hop : CommMonoid op e) (f : Z → xreal) v t : 0 <= v <= 16 → 0 <= t < 16 →
  (∀ x, v <= x < 16 → f x = e) → xor_tree op [8; 4; 2; 1] f t = big op e (map f (seqZ 0 v)).
Proof using Type.
  intros Hv Ht He. rewrite (xor_tree_sum op e Hop 4); [|lia|lia|apply spread_16].
  change (2 ^ 4) with 16. rewrite (Z.div_small t 16) by lia. rewrite (big_ext op e _ f) by (intros x _; f_equal; lia).
  rewrite (seqZ_split v 16) by lia. rewrite map_app, (big_app op e Hop).
  rewrite (big_ext op e f (λ _, e) (map _ _)).
  - assert (∀ l : list Z, big op e (map (λ _, e) l) = e) as Hid.
    { induction l as [|x l IH]; [done|]. cbn [map]. by rewrite big_cons, IH, (cm_id _ _ Hop). }
    by rewrite Hid, (op_id_r op e Hop).
  - intros x (y & -> & Hy%elem_of_seqZ)%list_elem_of_fmap. apply He. lia.
Qed.

(** What a state means after the positions below [n]: a common factor [c] on
    the sums, which is exp of minus the maximum once there is one. *)
Definition means (n : Z) (s : head_state (F := xreal)) : Prop :=
  ∃ c, hs_l s = Some (rsum (λ p, weight p) (seqZ 0 n) * c)%R ∧
    (∀ d, 0 <= d < 128 → hs_acc s d = Some (rsum (λ p, weight p * vr p d)%R (seqZ 0 n) * c)%R) ∧
    match hs_m s with
    | Some M => c = exp (- M) ∧ (∀ p, 0 <= p < n → (dot p <= M)%R) ∧ ∃ p, 0 <= p < n ∧ dot p = M
    | None => n = 0
    end.

Lemma ref_tile_means s tile : 0 <= tile → tile * kKvBlockSize < seq_len →
  means (tile_len tile) s → means (tile_len (tile + 1)) (ref_tile qs K V seq_len s tile).
Proof using All.
  intros Ht Hl (c & Hsl & Hsa & Hsm). destruct (valid_range tile Ht Hl) as (Hv & Hn & Hn0).
  assert (∀ t, 0 <= t < valid tile → ref_score qs K seq_len tile t = Some (dot (tile * kKvBlockSize + t))) as Hsc.
  { intros t Ht'. unfold ref_score. destruct (Z.ltb_spec (tile * kKvBlockSize + t) seq_len); [|lia]. apply ref_dot_exact. unfold kKvBlockSize in *. lia. }
  assert (∀ t, valid tile <= t < 16 → ref_score qs K seq_len tile t = None) as Hmask.
  { intros t Ht'. unfold ref_score. destruct (Z.ltb_spec (tile * kKvBlockSize + t) seq_len); [|done]. unfold tile_valid, kKvBlockSize in *. lia. }
  destruct (xmax_Some (λ t, dot (tile * kKvBlockSize + t)) (seqZ 0 (valid tile))) as (Mt & HMt & HMle & t0 & Ht0 & HMeq).
  { by rewrite seqZ_cons by lia. }
  assert (∃ M, (∀ t, 0 <= t < 16 → ref_max qs K seq_len s tile t = Some M) ∧ (Mt <= M)%R ∧
    match hs_m s with Some M0 => M = Rmax M0 Mt | None => M = Mt end) as (M & HM & HMtM & HMdef).
  { assert (∀ t, 0 <= t < 16 → xor_tree fmaxf [8; 4; 2; 1] (ref_score qs K seq_len tile) t = Some Mt) as Htree.
    { intros t Ht'. rewrite (slots_tree xmax_monoid _ (valid tile) t) by (done || lia). rewrite <- HMt. apply big_ext.
      intros x Hx%elem_of_seqZ. apply Hsc. lia. }
    unfold ref_max. destruct (hs_m s) as [M0|].
    - exists (Rmax M0 Mt). split; [intros t Ht'; by rewrite Htree|]. split; [apply Rmax_r|done].
    - exists Mt. split; [intros t Ht'; by rewrite Htree|]. split; [lra|done]. }
  assert (∀ t, 0 <= t < valid tile → ref_prob qs K seq_len s tile t = Some (exp (dot (tile * kKvBlockSize + t) - M))) as Hp.
  { intros t Ht'. unfold ref_prob. destruct (Z.ltb_spec t (valid tile)); [|lia]. rewrite Hsc, HM by lia. done. }
  assert (∀ t, valid tile <= t < 16 → ref_prob qs K seq_len s tile t = Some 0%R) as Hp0.
  { intros t Ht'. unfold ref_prob. by destruct (Z.ltb_spec t (valid tile)); [lia|]. }
  assert (∀ p, exp (dot p - M) = weight p * exp (- M))%R as Hw by (intros; unfold Rminus; apply exp_plus).
  assert (∃ al, ref_alpha qs K seq_len s tile = Some al ∧ ∀ f, (rsum f (seqZ 0 (tile_len tile)) * c * al = rsum f (seqZ 0 (tile_len tile)) * exp (- M))%R) as (al & Hal & Hcal).
  { unfold ref_alpha. rewrite HM by lia. destruct (hs_m s) as [M0|].
    - exists (exp (M0 - M)). split; [done|]. intros f. destruct Hsm as (-> & _). rewrite Rmult_assoc, <- exp_plus. do 2 f_equal. lra.
    - exists 0%R. split; [done|]. intros f. rewrite Hsm. change (seqZ 0 0) with (@nil Z). unfold rsum. cbn. lra. }
  exists (exp (- M)). pose proof (tile_positions tile Ht Hl) as Hperm. unfold ref_tile. cbn [hs_l hs_acc hs_m].
  split; [|split].
  - rewrite (slots_tree xadd_monoid _ (valid tile) 0) by (done || lia).
    rewrite (big_ext fadd f_zero _ (λ t, Some (exp (dot (tile * kKvBlockSize + t) - M)))) by (intros t Hin%elem_of_seqZ; apply Hp; lia).
    rewrite Hsl, Hal. etrans; [apply (f_equal (xlift Rplus _)), xsum_Some|]. cbn -[rsum]. f_equal.
    rewrite Hcal, (rsum_perm _ _ _ Hperm), rsum_app, rsum_map.
    rewrite (rsum_ext (λ x, exp (dot (tile * kKvBlockSize + x) - M))%R (λ x, weight (tile * kKvBlockSize + x) * exp (- M))%R) by (intros; apply Hw).
    rewrite rsum_scale. lra.
  - intros d Hd. rewrite Hsa, Hal by done. cbn -[rsum foldl].
    change (Some (rsum (λ p, weight p * vr p d)%R (seqZ 0 (tile_len tile)) * c * al)%R) with (Some (rsum (λ p, weight p * vr p d)%R (seqZ 0 (tile_len tile)) * c * al)%R).
    etrans; [apply (fma_chain (ref_prob qs K seq_len s tile) (λ t, V (tile * kKvBlockSize + t) d)
      (λ t, exp (dot (tile * kKvBlockSize + t) - M)%R) (λ t, vr (tile * kKvBlockSize + t) d))|].
    { intros t Hin%elem_of_seqZ. split; [apply Hp; lia|]. apply HV; [|done]. unfold tile_valid, kKvBlockSize in *. lia. }
    f_equal. rewrite Hcal, (rsum_perm _ _ _ Hperm), rsum_app, rsum_map.
    rewrite (rsum_ext (λ i, exp (dot (tile * kKvBlockSize + i) - M) * vr (tile * kKvBlockSize + i) d)%R
      (λ i, (weight (tile * kKvBlockSize + i) * vr (tile * kKvBlockSize + i) d) * exp (- M))%R) by (intros; rewrite Hw; lra).
    rewrite (rsum_scale (λ i, weight (tile * kKvBlockSize + i) * vr (tile * kKvBlockSize + i) d)%R). lra.
  - rewrite HM by lia. split; [done|]. rewrite Hn.
    assert (∀ t, 0 <= t < valid tile → (dot (tile * kKvBlockSize + t) <= Mt)%R) as Htile by (intros t Ht'; apply (HMle t), elem_of_seqZ; lia).
    apply elem_of_seqZ in Ht0. destruct (hs_m s) as [M0|].
    + destruct Hsm as (_ & Hle & p0 & Hp0' & Hpe). rewrite Hn0 in Hle, Hp0'. split.
      * intros p Hpr. rewrite HMdef. destruct (Z.lt_ge_cases p (tile * kKvBlockSize)).
        -- etrans; [apply Hle; lia|apply Rmax_l].
        -- etrans; [|apply Rmax_r]. replace p with (tile * kKvBlockSize + (p - tile * kKvBlockSize)) by lia. apply Htile. lia.
      * rewrite HMdef. destruct (Rle_dec M0 Mt).
        -- exists (tile * kKvBlockSize + t0). split; [unfold kKvBlockSize in *; lia|]. by rewrite Rmax_right.
        -- exists p0. split; [lia|]. rewrite Rmax_left; lra.
    + rewrite Hn0 in Hsm. subst M. split.
      * intros p Hpr. replace p with (tile * kKvBlockSize + (p - tile * kKvBlockSize)) by lia. apply Htile. lia.
      * exists (tile * kKvBlockSize + t0). split; [lia|done].
Qed.

(** The whole loop: the softmax-weighted average of the values; the running
    maximum is the maximum of the scores and the denominator is at least one. *)
Lemma ref_attention_exact :
  let s := ref_attention qs K V seq_len in
  (∀ d, 0 <= d < 128 → fdiv (hs_acc s d) (hs_l s) =
    Some (rsum (λ p, weight p * vr p d) (seqZ 0 seq_len) / rsum (λ p, weight p) (seqZ 0 seq_len))%R) ∧
  (∃ M, hs_m s = Some M ∧ (∀ p, 0 <= p < seq_len → (dot p <= M)%R) ∧ ∃ p, 0 <= p < seq_len ∧ dot p = M) ∧
  ∃ l, hs_l s = Some l ∧ (1 <= l)%R.
Proof using All.
  intros s.
  assert (∀ n, 0 <= n <= num_tiles seq_len → means (tile_len n) (ref_states qs K V seq_len n)) as Hall.
  { intros n [Hn Hle]. revert Hle. pattern n. apply natlike_ind; [|clear n Hn|done].
    - intros _. assert (tile_len 0 = 0) as -> by lia. change (seqZ 0 0) with (@nil Z). exists 1%R.
      split; [cbn; by rewrite Rmult_0_l|]. split; [intros d _; cbn; by rewrite Rmult_0_l|done].
    - intros n Hn IH Hle. rewrite <- Z.add_1_r in *. rewrite ref_states_succ by done.
      apply ref_tile_means; [done| |apply IH; lia]. unfold num_tiles, kKvBlockSize in *. Z.div_mod_to_equations. lia. }
  assert (0 <= num_tiles seq_len) as Hnt by (unfold num_tiles, kKvBlockSize; Z.div_mod_to_equations; lia).
  assert (tile_len (num_tiles seq_len) = seq_len) as He by (unfold num_tiles, kKvBlockSize; Z.div_mod_to_equations; lia).
  destruct (Hall (num_tiles seq_len) ltac:(lia)) as (c & Hsl & Hsa & Hsm). rewrite He in Hsl, Hsa, Hsm.
  fold (ref_attention qs K V seq_len) in Hsl, Hsa, Hsm. fold s in Hsl, Hsa, Hsm.
  destruct (hs_m s) as [M|] eqn:HM; [|lia]. destruct Hsm as (-> & Hle & p0 & Hp0 & Hpe).
  assert (seqZ 0 seq_len ≠ []) as Hne by (by rewrite seqZ_cons by lia).
  pose proof (exp_pos (- M)) as Hc. pose proof (rsum_exp_pos dot _ Hne) as Hs.
  split; [|split].
  - intros d Hd. rewrite Hsl, Hsa by done. cbn -[rsum]. f_equal. field. lra.
  - exists M. split; [done|]. split; [done|]. by exists p0.
  - eexists. split; [done|]. rewrite <- rsum_scale.
    pose proof (rsum_ge (λ p, weight p * exp (- M))%R p0 (seqZ 0 seq_len)) as Hge. cbv beta in Hge.
    rewrite Hpe, <- exp_plus, Rplus_opp_r, exp_0 in Hge. apply Hge; [|apply elem_of_seqZ; lia].
    intros x. pose proof (exp_pos (dot x)). nra.
Qed.

End head.

(** ** The oracle *)

Section oracle.
Context (out out_row_stride q q_row_stride pool : Z) (block_tables seq_lens : Z → Z)
  (num_seqs max_blocks num_q_heads num_kv_heads num_blocks : Z) (sc : R).
Context (HL : pa_layout out out_row_stride q q_row_stride pool block_tables seq_lens num_seqs max_blocks num_q_heads num_kv_heads num_blocks).
Context (qr : Z → Z → Z → R) (kr vr : Z → Z → Z → Z → R).
Notation len seq := (clamped_len seq_lens max_blocks seq).
Notation cell := (out_cell out out_row_stride).

(** The queries, keys and values of the live positions are these numbers. *)
Record holds_data (m : Z → xreal) : Prop := {
  hd_q seq head d : 0 <= seq < num_seqs → 0 <= head < num_q_heads → 0 <= d < 128 →
    m (q + (seq * q_row_stride + head * kHeadDim) + d) = Some (qr seq head d);
  hd_kv seq kvh pos d : 0 <= seq < num_seqs → 0 <= kvh < num_kv_heads → 0 <= pos < len seq → 0 <= d < 128 →
    pa_kv pool block_tables max_blocks num_kv_heads m 0 seq kvh pos d = Some (kr seq kvh pos d) ∧
    pa_kv pool block_tables max_blocks num_kv_heads m 1 seq kvh pos d = Some (vr seq kvh pos d);
}.

(** Scaled dot products, and the softmax-weighted average of the values. *)
Definition scores_of (seq head : Z) : Z → R := dot (λ d, qr seq head d * sc)%R (kr seq (head / kGroupSize)).
Definition attention (seq head d : Z) : R :=
  (rsum (λ p, exp (scores_of seq head p) * vr seq (head / kGroupSize) p d) (seqZ 0 (len seq)) /
   rsum (λ p, exp (scores_of seq head p)) (seqZ 0 (len seq)))%R.

Section warp.
Context (m : Z → xreal) (Hm : holds_data m) (seq head : Z) (Hs : 0 <= seq < num_seqs) (Hh : 0 <= head < num_q_heads) (Hl : 0 < len seq).
Notation row := (oracle_row pool block_tables max_blocks num_kv_heads head seq 6).

Lemma kv_head_range : 0 <= head / kGroupSize < num_kv_heads.
Proof using All. pose proof (pl_heads _ _ _ _ _ _ _ _ _ _ _ _ HL). unfold kGroupSize in *. Z.div_mod_to_equations. lia. Qed.

Lemma oracle_qv_real lane j : 0 <= lane + j * 32 < 128 →
  oracle_qv q q_row_stride (Some sc) m head seq lane j = Some (qr seq head (lane + j * 32) * sc)%R.
Proof using All. intros Hd. unfold oracle_qv, kWarpSize. rewrite (hd_q _ Hm) by done. done. Qed.

Lemma oracle_kv_real pos d : 0 <= pos < len seq → 0 <= d < 128 →
  m (row 0 pos + d) = Some (kr seq (head / kGroupSize) pos d) ∧ m (row 1 pos + d) = Some (vr seq (head / kGroupSize) pos d).
Proof using All.
  intros Hp Hd. destruct (hd_kv _ Hm seq (head / kGroupSize) pos d Hs kv_head_range Hp Hd) as [Hk Hv].
  unfold pa_kv, oracle_row, oracle_table, kGroupSize in *. by rewrite <- !Z.add_assoc.
Qed.

Lemma warp_dims_perm : concat (map (λ x, map (λ j, x + j * 32) (seqZ 0 4)) (seqZ 0 32)) ≡ₚ seqZ 0 128.
Proof using All. apply (bool_decide_unpack _). by vm_compute. Qed.

Lemma score_at_real pos lane : 0 <= pos < len seq → 0 <= lane < 32 →
  score_at q q_row_stride pool block_tables max_blocks num_kv_heads (Some sc) m head seq 6 pos lane = Some (scores_of seq head pos).
Proof using All.
  intros Hp Hlane. unfold score_at. rewrite (xor_tree_sum fadd f_zero xadd_monoid 5); [|lia|lia|apply spread_32].
  change (2 ^ 5) with 32. rewrite (Z.div_small lane 32) by lia. unfold kDimsPerLane, kWarpSize.
  rewrite (big_ext fadd f_zero _ (λ x, Some (rsum (λ d, (qr seq head d * sc) * kr seq (head / kGroupSize) pos d)%R (map (λ j, x + j * 32) (seqZ 0 4))))).
  - etrans; [apply xsum_Some|]. f_equal. unfold scores_of, dot. rewrite <- (rsum_perm _ _ _ warp_dims_perm).
    unfold rsum at 1 3. apply (big_concat Rplus 0%R radd_monoid).
  - intros x Hx%elem_of_seqZ. rewrite rsum_map. cbn [Z.mul Z.add].
    etrans; [apply (fma_chain (λ j, oracle_qv q q_row_stride (Some sc) m head seq (0 * 32 + x) j) (λ j, m (row 0 pos + ((0 * 32 + x) + j * 32)))
      (λ j, qr seq head (x + j * 32) * sc)%R (λ j, kr seq (head / kGroupSize) pos (x + j * 32)))|f_equal; lra].
    intros j Hj%elem_of_seqZ. rewrite Z.mul_0_l, Z.add_0_l. split; [apply oracle_qv_real; lia|]. apply oracle_kv_real; [done|lia].
Qed.

Lemma oracle_out lane j : 0 <= lane < 32 → 0 <= j < 4 →
  let s := oracle_sums q q_row_stride pool block_tables max_blocks num_kv_heads (Some sc) m head (len seq) seq 6 lane in
  fdiv (s.2 j) s.1 = Some (attention seq head (lane + j * 32)).
Proof using All.
  intros Hlane Hj. set (pos := seqZ 0 (len seq)).
  assert (∀ p, p ∈ pos → 0 <= p < len seq) as Hpos by (intros p Hp%elem_of_seqZ; lia).
  assert (pos ≠ []) as Hne by (unfold pos; by rewrite seqZ_cons by lia).
  assert (∃ M, oracle_max q q_row_stride pool block_tables max_blocks num_kv_heads (Some sc) m head (len seq) seq 6 lane = Some M) as [M HM].
  { destruct (xmax_Some (scores_of seq head) pos Hne) as (M & HM & _). exists M. rewrite <- HM. unfold oracle_max. fold pos.
    rewrite (foldl_big fmaxf None xmax_monoid (λ p, score_at q q_row_stride pool block_tables max_blocks num_kv_heads (Some sc) m head seq 6 p lane)).
    etrans; [apply (cm_id _ _ xmax_monoid)|]. apply big_ext. intros p Hp. apply score_at_real; auto. }
  unfold oracle_sums. fold pos.
  set (step := oracle_step q q_row_stride pool block_tables max_blocks num_kv_heads (Some sc) m head (len seq) seq 6 lane).
  assert (∀ l st l0 a0, (∀ p, p ∈ l → 0 <= p < len seq) → st.1 = Some l0 → st.2 j = Some a0 →
    (foldl step st l).1 = Some (l0 + rsum (λ p, exp (scores_of seq head p - M)) l)%R ∧
    (foldl step st l).2 j = Some (a0 + rsum (λ p, exp (scores_of seq head p - M) * vr seq (head / kGroupSize) p (lane + j * 32)) l)%R) as Hfold.
  { induction l as [|p l IH]; intros st l0 a0 Hin H1 H2; [cbn; rewrite H1, H2; split; f_equal; lra|]. cbn [foldl]. rewrite !rsum_cons.
    assert (0 <= p < len seq) as Hp by apply Hin, list_elem_of_here.
    assert (expf (fsub (score_at q q_row_stride pool block_tables max_blocks num_kv_heads (Some sc) m head seq 6 p lane)
      (oracle_max q q_row_stride pool block_tables max_blocks num_kv_heads (Some sc) m head (len seq) seq 6 lane)) =
      Some (exp (scores_of seq head p - M))) as He by (by rewrite HM, score_at_real).
    destruct (IH (step st p) (l0 + exp (scores_of seq head p - M))%R
      (a0 + exp (scores_of seq head p - M) * vr seq (head / kGroupSize) p (lane + j * 32))%R) as [-> ->].
    - intros r Hr. by apply Hin, list_elem_of_further.
    - unfold step, oracle_step. cbn [fst]. rewrite He, H1. done.
    - unfold step, oracle_step. cbn [snd]. rewrite He, H2. unfold kWarpSize. destruct (oracle_kv_real p (lane + j * 32) Hp ltac:(lia)) as [_ ->].
      cbn. f_equal. lra.
    - split; f_equal; lra. }
  destruct (Hfold pos (Some 0%R, λ _, Some 0%R) 0%R 0%R Hpos eq_refl eq_refl) as [Hf1 Hf2]. cbv zeta.
  change (f_zero, λ _ : Z, f_zero) with (Some 0%R, λ _ : Z, Some 0%R). rewrite Hf1, Hf2. cbn -[rsum]. rewrite !Rplus_0_l. f_equal.
  unfold attention. fold pos.
  assert (∀ p, exp (scores_of seq head p - M) = exp (scores_of seq head p) * exp (- M))%R as Hw by (intros; unfold Rminus; apply exp_plus).
  rewrite (rsum_ext (λ p, exp (scores_of seq head p - M)) (λ p, exp (scores_of seq head p) * exp (- M))%R) by (intros; apply Hw).
  rewrite (rsum_ext (λ p, exp (scores_of seq head p - M) * vr seq (head / kGroupSize) p (lane + j * 32))%R
    (λ p, exp (scores_of seq head p) * vr seq (head / kGroupSize) p (lane + j * 32) * exp (- M))%R) by (intros; rewrite Hw; lra).
  rewrite !rsum_scale. pose proof (exp_pos (- M)). pose proof (rsum_exp_pos (scores_of seq head) pos Hne). field. lra.
Qed.

End warp.
(** *** Its grid *)

Section grid.
Context (blocks : list (Z * Z) → list (Z * Z)) (order : list Z → list Z) (Hblocks : ∀ l, blocks l ≡ₚ l) (Horder : ∀ l, order l ≡ₚ l).
Notation kernel := (PagedAttentionDecodeOracleKernel out out_row_stride q q_row_stride pool block_tables seq_lens max_blocks num_kv_heads (Some sc) 6 order).

(** One warp stores its head. *)
Lemma oracle_block seq head m : holds_data m → 0 <= seq < num_seqs → 0 <= head < num_q_heads →
  (0 < len seq → ∀ d, 0 <= d < 128 → kernel (seq, head) m (cell seq head d) = Some (attention seq head d)).
Proof using All.
  intros Hm Hs Hh Hl d Hd. unfold PagedAttentionDecodeOracleKernel. destruct (Z.leb_spec (len seq) 0); [lia|].
  set (stores := concat _).
  assert (∀ x, x ∈ stores → ∃ lane j, 0 <= lane < 32 ∧ 0 <= j < 4 ∧ x = (cell seq head (lane + j * 32), Some (attention seq head (lane + j * 32)))) as Hel.
  { intros x (lane & Hlane & (j & -> & Hj%elem_of_seqZ)%list_elem_of_fmap)%elem_of_concat_map. rewrite Horder, elem_of_seqZ in Hlane.
    unfold kWarpSize, kDimsPerLane in *. exists lane, j. split; [lia|]. split; [lia|]. cbv zeta.
    pose proof (oracle_out m Hm seq head Hs Hh Hl lane j ltac:(lia) ltac:(lia)) as Ho. cbv zeta in Ho.
    apply pair_equal_spec. split; [unfold out_cell; lia|exact Ho]. }
  apply writes_hit.
  - apply list_elem_of_fmap. eexists. split; [|apply elem_of_concat_map; exists (d mod 32); split].
    + instantiate (1 := (_, _)). cbn [fst]. reflexivity.
    + rewrite Horder. apply elem_of_seqZ. unfold kWarpSize. Z.div_mod_to_equations. lia.
    + apply list_elem_of_fmap. exists (d / 32). split; [apply pair_equal_spec; split; [|reflexivity]|apply elem_of_seqZ; unfold kDimsPerLane; Z.div_mod_to_equations; lia].
      unfold out_cell, kWarpSize. Z.div_mod_to_equations. lia.
  - intros v' (lane & j & Hlane & Hj & He)%Hel. apply pair_equal_spec in He as [He ->].
    assert (d = lane + j * 32) as -> by (unfold out_cell in He; lia). done.
Qed.

Lemma oracle_block_frame seq head m a : (0 < len seq → ∀ d, 0 <= d < 128 → a ≠ cell seq head d) → kernel (seq, head) m a = m a.
Proof using Horder.
  intros Ha. unfold PagedAttentionDecodeOracleKernel. destruct (Z.leb_spec (len seq) 0) as [Hl|Hl]; [done|].
  apply writes_miss. intros (x & -> & (lane & Hlane & (j & -> & Hj%elem_of_seqZ)%list_elem_of_fmap)%elem_of_concat_map)%list_elem_of_fmap.
  rewrite Horder, elem_of_seqZ in Hlane. unfold kWarpSize, kDimsPerLane in *. apply (Ha Hl (lane + j * 32)); [lia|]. cbn. unfold out_cell. lia.
Qed.

Lemma oracle_keeps_data seq head m : 0 <= seq < num_seqs → 0 <= head < num_q_heads → holds_data m → holds_data (kernel (seq, head) m).
Proof using HL Horder.
  intros Hs Hh [Hq Hkv].
  destruct (reads_apart out out_row_stride q q_row_stride pool block_tables seq_lens num_seqs max_blocks num_q_heads num_kv_heads num_blocks (Some 1%R) HL
    m (kernel (seq, head) m)) as [_ Hk'].
  { intros a Ha. symmetry. apply oracle_block_frame. intros _ d Hd. by apply Ha. }
  split.
  - intros seq' head' d Hs' Hh' Hd. rewrite oracle_block_frame; [by apply Hq|].
    intros _ d' Hd'. pose proof (out_cell_range _ _ _ _ _ _ _ _ _ _ _ _ HL seq head d' Hs Hh Hd') as Hr.
    pose proof (pl_q _ _ _ _ _ _ _ _ _ _ _ _ HL) as Ha. destruct (pl_strides _ _ _ _ _ _ _ _ _ _ _ _ HL) as [Hst _]. unfold apart, kHeadDim in *.
    assert ((seq' + 1) * q_row_stride <= num_seqs * q_row_stride) by (apply Z.mul_le_mono_nonneg_r; lia).
    assert (0 <= seq' * q_row_stride) by (apply Z.mul_nonneg_nonneg; lia). lia.
  - intros seq' kvh pos d Hs' Hkvh Hp Hd. rewrite <- !Hk' by (done || lia). by apply Hkv.
Qed.

Lemma oracle_grid m : holds_data m →
  let m' := run_blocks kernel (blocks (grid_of num_seqs num_q_heads)) m in
  (∀ seq head d, 0 <= seq < num_seqs → 0 < len seq → 0 <= head < num_q_heads → 0 <= d < 128 → m' (cell seq head d) = Some (attention seq head d)) ∧
  ∀ a, (∀ seq head d, 0 <= seq < num_seqs → 0 < len seq → 0 <= head < num_q_heads → 0 <= d < 128 → a ≠ cell seq head d) → m' a = m a.
Proof using All.
  intros Hm m'. set (k := blocks _) in m'. assert (∀ seq head, (seq, head) ∈ k ↔ 0 <= seq < num_seqs ∧ 0 <= head < num_q_heads) as Hel
    by (intros; unfold k; rewrite Hblocks; apply elem_of_grid_of).
  assert (NoDup k) as Hnd by (unfold k; rewrite Hblocks; apply NoDup_grid_of).
  set (foot (sk : Z * Z) a := 0 < len sk.1 ∧ ∃ d, 0 <= d < 128 ∧ a = cell sk.1 sk.2 d).
  assert (∀ x m a, x ∈ k → ¬ foot x a → kernel x m a = m a) as Hframe.
  { intros [seq head] m0 a _ Ha. apply oracle_block_frame. intros Hl d Hd ->. apply Ha. split; [done|]. by exists d. }
  assert (∀ x y a, x ∈ k → y ∈ k → foot x a → foot y a → x = y) as Hown.
  { intros [seq head] [seq' head'] a [Hs Hh]%Hel [Hs' Hh']%Hel (_ & d & Hd & ->) (_ & d' & Hd' & He). cbn [fst snd] in *.
    by apply (out_cell_inj _ _ _ _ _ _ _ _ _ _ _ _ HL) in He as (-> & -> & _); [|lia..]. }
  split.
  - intros seq head d Hs Hl Hh Hd.
    pose (v := λ (x : Z * Z) a, Some (attention x.1 x.2 (a - cell x.1 x.2 0))).
    assert (Some (attention seq head d) = v (seq, head) (cell seq head d)) as -> by (unfold v, out_cell; cbn; do 2 f_equal; lia).
    apply (run_blocks_value kernel foot k Hframe Hown holds_data v k); [done| | |done|done|by apply Hel|split; [done|by exists d]].
    + intros [s1 h1] m1 a [Hs1 Hh1]%Hel Hm1 (Hl1 & d1 & Hd1 & ->). cbn [fst snd] in *. rewrite oracle_block by done.
      unfold v, out_cell. cbn. do 2 f_equal. lia.
    + intros [s1 h1] m1 [Hs1 Hh1]%Hel. by apply oracle_keeps_data.
  - intros a Ha. apply (run_blocks_frame kernel foot k Hframe); [done|]. intros [s1 h1] [Hs1 Hh1]%Hel (Hl1 & d1 & Hd1 & ->). by apply (Ha s1 h1 d1).
Qed.

End grid.

(** *** The primary kernel *)

Lemma primary_exact m m' : holds_data m →
  attends out out_row_stride q q_row_stride pool block_tables seq_lens num_seqs max_blocks num_q_heads num_kv_heads (Some sc) m m' →
  ∀ seq head d, 0 <= seq < num_seqs → 0 < len seq → 0 <= head < num_q_heads → 0 <= d < 128 → m' (cell seq head d) = Some (attention seq head d).
Proof using HL.
  intros Hm [Hv _] seq head d Hs Hl Hh Hd. rewrite Hv by done. cbv zeta. destruct (head_split _ _ _ _ _ _ _ _ _ _ _ _ HL head Hh) as (kvh & h & Hkvh & _ & _ & Hg).
  assert (0 <= head / kGroupSize < num_kv_heads) as Hkv by by rewrite Hg.
  destruct (ref_attention_exact (pa_q q q_row_stride (Some sc) m seq head) (pa_kv pool block_tables max_blocks num_kv_heads m 0 seq (head / kGroupSize))
    (pa_kv pool block_tables max_blocks num_kv_heads m 1 seq (head / kGroupSize)) (len seq) (λ d, qr seq head d * sc)%R
    (kr seq (head / kGroupSize)) (vr seq (head / kGroupSize)) Hl) as (Hout & _).
  - intros d' Hd'. unfold pa_q. by rewrite (hd_q _ Hm).
  - intros pos d' Hp Hd'. by apply (hd_kv _ Hm).
  - intros pos d' Hp Hd'. by apply (hd_kv _ Hm).
  - exact (Hout d Hd).
Qed.

End oracle.

(** C36. In exact arithmetic the primary kernel and the test oracle both store, for
    every query head of every live sequence, the softmax-weighted average of
    the cached values of its KV head - the two launches agree - and leave padded
    rows and everything else alone.  Unused pool slots may hold anything. *)
Theorem paged_attention_exact out out_row_stride q q_row_stride pool block_tables seq_lens num_seqs max_blocks num_q_heads num_kv_heads num_blocks
    (sc : R) qr kr vr sch compute_major cpasync blocks order m :
  pa_layout out out_row_stride q q_row_stride pool block_tables seq_lens num_seqs max_blocks num_q_heads num_kv_heads num_blocks →
  pa_schedule_ok sch → (∀ l, blocks l ≡ₚ l) → (∀ l, order l ≡ₚ l) →
  holds_data q q_row_stride pool block_tables seq_lens num_seqs max_blocks num_q_heads num_kv_heads qr kr vr m →
  ∃ m1 m2,
    LaunchPagedAttentionDecode sch compute_major cpasync true out out_row_stride q q_row_stride pool block_tables seq_lens num_seqs max_blocks
      num_q_heads num_kv_heads kHeadDim (Some sc) m = Some m1 ∧
    LaunchPagedAttentionDecodeOracle blocks order true out out_row_stride q q_row_stride pool block_tables seq_lens num_seqs max_blocks
      num_q_heads num_kv_heads kHeadDim (Some sc) m = Some m2 ∧
    (∀ seq head d, 0 <= seq < num_seqs → 0 < clamped_len seq_lens max_blocks seq → 0 <= head < num_q_heads → 0 <= d < 128 →
      let a := Some (attention seq_lens max_blocks sc qr kr vr seq head d) in
      m1 (out_cell out out_row_stride seq head d) = a ∧ m2 (out_cell out out_row_stride seq head d) = a) ∧
    ∀ a, (∀ seq head d, 0 <= seq < num_seqs → 0 < clamped_len seq_lens max_blocks seq → 0 <= head < num_q_heads → 0 <= d < 128 →
      a ≠ out_cell out out_row_stride seq head d) → m1 a = m a ∧ m2 a = m a.
Proof.
  intros HL Hsch Hblocks Horder Hm.
  destruct (paged_attention_stores _ _ _ _ _ _ _ _ _ _ _ _ (Some sc) HL sch compute_major cpasync m Hsch) as (m1 & Hm1 & Hatt).
  pose proof (oracle_grid _ _ _ _ _ _ _ _ _ _ _ _ sc HL qr kr vr blocks order Hblocks Horder m Hm) as [Ho1 Ho2].
  eexists m1, _. split; [exact Hm1|]. split.
  { unfold LaunchPagedAttentionDecodeOracle. destruct (Z.leb_spec num_seqs 0) as [?|_]; [pose proof (pl_seqs _ _ _ _ _ _ _ _ _ _ _ _ HL); lia|].
    rewrite (contract_holds _ _ _ _ _ _ _ _ _ _ _ _ HL). cbn [negb]. reflexivity. }
  assert (Z.quot num_q_heads num_kv_heads = 6) as ->.
  { rewrite (pl_heads _ _ _ _ _ _ _ _ _ _ _ _ HL), Z.mul_comm. apply Z.quot_mul. pose proof (pl_kv _ _ _ _ _ _ _ _ _ _ _ _ HL). lia. }
  split.
  - intros seq head d Hs Hl Hh Hd. split; [|by apply Ho1].
    by apply (primary_exact _ _ _ _ _ _ _ _ _ _ _ _ sc HL qr kr vr m m1 Hm Hatt).
  - intros a Ha. split; [by apply Hatt|by apply Ho2].
Qed.

(** ** A launch of one sequence with one cached position *)

Module OneToken.

(** Output, queries and one pool block after each other; every element holds its
    own address, slots of the block past the first hold [junk]. *)
Definition memory (junk : xreal) (a : Z) : xreal :=
  if (a <? 1665) || ((3585 <=? a) && (a <? 3713)) then Some (IZR a) else junk.

Definition schedule (rev_ : bool) : pa_schedule xreal xreal :=
  let o (l : list Z) := if rev_ then rev l else l in
  mkPaSchedule (λ l, l) (λ _ _, o) (λ _ _ _ i, i <? 7) (λ _, mkShared (λ _, None) (λ _, None) (λ _, None) (λ _, None) (λ _, None) (λ _, None) (λ _, None)).

Lemma schedule_fine r : pa_schedule_ok (schedule r).
Proof. split; [done|]. intros sk p l. cbn. destruct r; [symmetry; apply Permutation_rev|done]. Qed.

Lemma layout : pa_layout 1 768 769 768 1537 (λ _, 0) (λ _, 1) 1 1 6 1 1.
Proof. split; unfold apart, kHeadDim, kGroupSize, kKvBlockSize; intros; lia. Qed.

Lemma data junk : holds_data 769 768 1537 (λ _, 0) (λ _, 1) 1 1 6 1
  (λ seq head d, IZR (769 + (seq * 768 + head * kHeadDim) + d)) (λ _ _ _ d, IZR (1537 + d)) (λ _ _ _ d, IZR (3585 + d)) (memory junk).
Proof.
  split.
  - intros seq head d Hs Hh Hd. unfold memory, kHeadDim. destruct (Z.ltb_spec (769 + (seq * 768 + head * 128) + d) 1665); [done|lia].
  - intros seq kvh pos d Hs Hh Hp Hd. unfold clamped_len in Hp. cbn in Hp. assert (pos = 0) as -> by lia. assert (kvh = 0) as -> by lia.
    unfold pa_kv, memory.
    assert (∀ kv, 1537 + (PoolRowOffset 0 kv 0 1 (0 mod kKvBlockSize) + d) = 1537 + (kv * 2048 + d)) as Ha
      by (intros; unfold PoolRowOffset, kKvBlockSize, kHeadDim; rewrite Z.mod_0_l by done; lia).
    rewrite !Ha. split.
    + replace (1537 + (0 * 2048 + d)) with (1537 + d) by lia. destruct (Z.ltb_spec (1537 + d) 1665); [done|lia].
    + replace (1537 + (1 * 2048 + d)) with (3585 + d) by lia.
      destruct (Z.ltb_spec (3585 + d) 1665), (Z.leb_spec 3585 (3585 + d)), (Z.ltb_spec (3585 + d) 3713); (done || lia).
Qed.

End OneToken.

Lemma paged_attention_exact_witness :
  ∃ m1 m2,
    LaunchPagedAttentionDecode (OneToken.schedule true) 8 true true 1 768 769 768 1537 (λ _, 0) (λ _, 1) 1 1 6 1 kHeadDim (Some 1%R) (OneToken.memory None) = Some m1 ∧
    LaunchPagedAttentionDecodeOracle (λ l, l) (λ l, l) true 1 768 769 768 1537 (λ _, 0) (λ _, 1) 1 1 6 1 kHeadDim (Some 1%R) (OneToken.memory None) = Some m2 ∧
    m1 (out_cell 1 768 0 5 127) = m2 (out_cell 1 768 0 5 127) ∧ m1 1700 = None.
Proof.
  destruct (paged_attention_exact 1 768 769 768 1537 (λ _, 0) (λ _, 1) 1 1 6 1 1 1%R _ _ _ (OneToken.schedule true) 8 true (λ l, l) (λ l, l)
    (OneToken.memory None) OneToken.layout (OneToken.schedule_fine true) (λ _, Permutation_refl _) (λ _, Permutation_refl _) (OneToken.data None))
    as (m1 & m2 & Hm1 & Hm2 & Hv & Hf).
  exists m1, m2. split; [exact Hm1|]. split; [exact Hm2|].
  split; [destruct (Hv 0 5 127) as [-> ->]; (reflexivity || (split; done) || done)|].
  destruct (Hf 1700) as [-> _]; [|reflexivity]. intros seq head d Hs _ Hh Hd. unfold out_cell, kHeadDim. lia.
Defined.

(** The pool's unused slots hold nothing in one run and a number in the other. *)
Lemma paged_attention_determined_witness :
  ∃ r1 r2,
    LaunchPagedAttentionDecode (OneToken.schedule true) 8 true true 1 768 769 768 1537 (λ _, 0) (λ _, 1) 1 1 6 1 kHeadDim (Some 1%R) (OneToken.memory None) = Some r1 ∧
    LaunchPagedAttentionDecode (OneToken.schedule false) 7 false true 1 768 769 768 1537 (λ _, 0) (λ _, 1) 1 1 6 1 kHeadDim (Some 1%R) (OneToken.memory (Some 3%R)) = Some r2 ∧
    r1 (out_cell 1 768 0 5 127) = r2 (out_cell 1 768 0 5 127).
Proof.
  destruct (paged_attention_determined 1 768 769 768 1537 (λ _, 0) (λ _, 1) 1 1 6 1 1 (Some 1%R) (OneToken.schedule true) (OneToken.schedule false) 8 7 true false
    (OneToken.memory None) (OneToken.memory (Some 3%R)) OneToken.layout (OneToken.schedule_fine true) (OneToken.schedule_fine false))
    as (r1 & r2 & Hr1 & Hr2 & Hv).
  - intros seq head d Hs Hh Hd. rewrite (hd_q _ _ _ _ _ _ _ _ _ _ _ _ _ (OneToken.data None)) by done.
    by rewrite (hd_q _ _ _ _ _ _ _ _ _ _ _ _ _ (OneToken.data (Some 3%R))).
  - intros kv seq kvh pos d Hkv Hs Hh Hp Hd.
    destruct (hd_kv _ _ _ _ _ _ _ _ _ _ _ _ _ (OneToken.data None) seq kvh pos d Hs Hh Hp Hd) as [Hk1 Hv1].
    destruct (hd_kv _ _ _ _ _ _ _ _ _ _ _ _ _ (OneToken.data (Some 3%R)) seq kvh pos d Hs Hh Hp Hd) as [Hk2 Hv2].
    assert (kv = 0 ∨ kv = 1) as [-> | ->] by lia; congruence.
  - exists r1, r2. split; [exact Hr1|]. split; [exact Hr2|]. exact (Hv 0 5 127 ltac:(lia) ltac:(lia) ltac:(lia)).
Defined.
