(* ===== verification/ExecutorLayout.v ===== *)
(** * Executor geometry: slab layouts and the memory budget
    ([core/model_executor.{hpp,cpp}])

    [SlabPlanner::Take] is a state-passing operation on the running offset; the
    two layouts are the code's sequences of [Take]s.  The theorems show that
    the regions are aligned, in order, disjoint and inside the slab, and that
    the budget is what the constructor later allocates. *)

From S2P Require Import Prelude Doubles Types ModelConfig.

Record ExecutorOptions : Type := mkExecutorOptions {
  kv_pool_bytes : Z;
  x_max_batch : Z;
  x_max_seq_len : Z;
  x_prefill_chunk_tokens : Z;
  enable_cuda_graphs : bool;
  pad_eager_to_bucket : Z;
  debug_dump_dir : string;
}.

Definition max_blocks_per_seq (o : ExecutorOptions) : Z := BlocksForTokens (x_max_seq_len o).

(** [ExecutorOptions::max_blocks_per_seq] on [std::int32_t]. *)
Definition checked_blocks_per_seq (o : ExecutorOptions) : outcome error Z :=
  a ← signed32 (x_max_seq_len o + kKvBlockSize);
  b ← signed32 (a - 1);
  mret (Z.quot b kKvBlockSize).

(** ** Slab planning *)

Definition kSlabAlign : Z := 256.

Definition AlignUp (bytes align : Z) : outcome error Z :=
  a ← signed64 (bytes + align);
  b ← signed64 (a - 1);
  signed64 (Z.quot b align * align).

(** The planner's only member is the running offset; the size is computed first. *)
Definition Take (bytes : outcome error Z) : M error Z Z :=
  size ← lift bytes;
  at_ ← get;
  padded ← lift (AlignUp size kSlabAlign);
  offset ← lift (signed64 (at_ + padded));
  put offset;;
  mret at_.

Record ScratchLayout : Type := mkScratchLayout {
  sl_x : Z; sl_normed : Z; sl_qkv : Z; sl_attn_out : Z; sl_gateup : Z; sl_mlp_out : Z;
  sl_logits : Z; sl_scores : Z; sl_probs : Z; sl_khat : Z; sl_vhat : Z; sl_input_ids : Z;
  sl_positions : Z; sl_seq_lens : Z; sl_block_tables : Z; sl_argmax : Z; sl_total_bytes : Z;
}.

Record PinnedLayout : Type := mkPinnedLayout {
  pl_input_ids : Z; pl_positions : Z; pl_seq_lens : Z; pl_block_tables : Z; pl_argmax : Z;
  pl_total_bytes : Z;
}.

Definition step_rows (o : ExecutorOptions) : Z := Z.max (x_prefill_chunk_tokens o) (x_max_batch o).
Definition qkv_width (c : ModelConfig) : Z := (num_q_heads c + 2 * num_kv_heads c) * head_dim c.
Definition gateup_width (c : ModelConfig) : Z := 2 * intermediate_size c.
Definition score_elems (c : ModelConfig) (o : ExecutorOptions) : Z :=
  num_q_heads c * x_prefill_chunk_tokens o * x_max_seq_len o.
Definition gather_elems (c : ModelConfig) (o : ExecutorOptions) : Z :=
  num_kv_heads c * x_max_seq_len o * head_dim c.
Definition table_elems (o : ExecutorOptions) : Z := x_max_batch o * max_blocks_per_seq o.

(** The code's sequence of [Take]s, every product on [std::int64_t] but
    [2 * num_kv_heads], which is on [std::int32_t]. *)
Definition plan_scratch (c : ModelConfig) (o : ExecutorOptions) : M error Z ScratchLayout :=
  let rows := step_rows o in
  let hidden := hidden_size c in
  kv_heads2 ← lift (signed32 (2 * num_kv_heads c));
  all_heads ← lift (signed64 (num_q_heads c + kv_heads2));
  qkv_w ← lift (signed64 (all_heads * head_dim c));
  gateup_w ← lift (signed64 (2 * intermediate_size c));
  scores_n ← lift (product64 (num_q_heads c) [x_prefill_chunk_tokens o; x_max_seq_len o]);
  gather_n ← lift (product64 (num_kv_heads c) [x_max_seq_len o; head_dim c]);
  table_w ← lift (checked_blocks_per_seq o);
  table_n ← lift (signed64 (x_max_batch o * table_w));
  x ← Take (product64 rows [hidden; 2]);
  normed ← Take (product64 rows [hidden; 2]);
  qkv ← Take (product64 rows [qkv_w; 2]);
  attn_out ← Take (product64 rows [hidden; 2]);
  gateup ← Take (product64 rows [gateup_w; 2]);
  mlp_out ← Take (product64 rows [hidden; 2]);
  logits ← Take (product64 (x_max_batch o) [vocab_size c; 2]);
  scores ← Take (product64 scores_n [4]);
  probs ← Take (product64 scores_n [2]);
  khat ← Take (product64 gather_n [2]);
  vhat ← Take (product64 gather_n [2]);
  input_ids ← Take (product64 rows [4]);
  positions ← Take (product64 rows [4]);
  seq_lens ← Take (product64 (x_max_batch o) [4]);
  block_tables ← Take (product64 table_n [4]);
  argmax ← Take (product64 (x_max_batch o) [4]);
  total ← get;
  mret (mkScratchLayout x normed qkv attn_out gateup mlp_out logits scores probs khat vhat
          input_ids positions seq_lens block_tables argmax total).

Definition plan_pinned (o : ExecutorOptions) : M error Z PinnedLayout :=
  let rows := step_rows o in
  table_w ← lift (checked_blocks_per_seq o);
  table_n ← lift (signed64 (x_max_batch o * table_w));
  input_ids ← Take (product64 rows [4]);
  positions ← Take (product64 rows [4]);
  seq_lens ← Take (product64 (x_max_batch o) [4]);
  block_tables ← Take (product64 table_n [4]);
  argmax ← Take (product64 (x_max_batch o) [4]);
  total ← get;
  mret (mkPinnedLayout input_ids positions seq_lens block_tables argmax total).

(** A fresh planner starts at offset 0. *)
Definition ComputeScratchLayout (c : ModelConfig) (o : ExecutorOptions) : outcome error ScratchLayout :=
  (plan_scratch c o 0).1.

Definition ComputePinnedLayout (o : ExecutorOptions) : outcome error PinnedLayout :=
  (plan_pinned o 0).1.

(** ** Validation and budget *)

(** [require]: throws when the condition is false. *)
Definition require (ok : bool) (what : string) : outcome error () :=
  if ok then mret () else Err (ExecutorError what).

Definition ValidateGeometry (c : ModelConfig) (o : ExecutorOptions) : outcome error () :=
  require ((0 <? hidden_size c) && (0 <? num_layers c) && (0 <? num_q_heads c) && (0 <? num_kv_heads c) &&
           (0 <? head_dim c) && (0 <? intermediate_size c) && (0 <? vocab_size c))
    "every ModelConfig dimension must be positive";;
  width ← signed32 (num_q_heads c * head_dim c);
  require (width =? hidden_size c) "num_q_heads * head_dim must equal hidden_size";;
  require (Z.rem (num_q_heads c) (num_kv_heads c) =? 0) "num_q_heads must be a multiple of num_kv_heads";;
  require (1 <=? x_max_batch o) "max_batch must be >= 1";;
  require (1 <=? x_max_seq_len o) "max_seq_len must be >= 1";;
  require (1 <=? x_prefill_chunk_tokens o) "prefill_chunk_tokens must be >= 1";;
  require (0 <=? pad_eager_to_bucket o) "pad_eager_to_bucket must be >= 0";;
  require (0 <? kv_pool_bytes o) "kv_pool_bytes must be positive".

Record ExecutorMemoryBudget : Type := mkBudget {
  num_kv_blocks : Z;
  b_kv_pool_bytes : Z;
  scratch_bytes : Z;
  workspace_bytes : Z;
  total_device_bytes : Z;
  pinned_host_bytes : Z;
}.

Definition kDefaultWorkspaceBytes : Z := 32 * 2 ^ 20.

Definition ComputeBudget (c : ModelConfig) (o : ExecutorOptions) : outcome error ExecutorMemoryBudget :=
  ValidateGeometry c o;;
  token_bytes ← KvBytesPerToken c;
  block_bytes ← signed64 (kKvBlockSize * token_bytes);
  let num_blocks := Z.quot (kv_pool_bytes o) block_bytes in
  if num_blocks <? 2 then Err (ExecutorError "kv_pool_bytes holds fewer than 2 KV blocks") else
  pool ← signed64 (num_blocks * block_bytes);
  scratch ← ComputeScratchLayout c o;
  slabs ← signed64 (pool + sl_total_bytes scratch);
  total ← signed64 (slabs + kDefaultWorkspaceBytes);
  pinned ← ComputePinnedLayout o;
  mret (mkBudget (to_int32 num_blocks) pool (sl_total_bytes scratch) kDefaultWorkspaceBytes total (pl_total_bytes pinned)).

(** The widths and strides the constructor derives, on the types of its members. *)
Definition derive_widths (c : ModelConfig) (o : ExecutorOptions) (b : ExecutorMemoryBudget) : outcome error () :=
  _ ← checked_blocks_per_seq o;
  _ ← product64 (num_kv_blocks b) [2; num_kv_heads c; kKvBlockSize; head_dim c];
  kv_heads2 ← signed32 (2 * num_kv_heads c);
  all_heads ← signed32 (num_q_heads c + kv_heads2);
  _ ← signed32 (all_heads * head_dim c);
  k_view ← signed32 (num_q_heads c * head_dim c);
  kv_width ← signed32 (num_kv_heads c * head_dim c);
  _ ← signed32 (k_view + kv_width);
  _ ← signed32 (2 * intermediate_size c);
  _ ← signed64 (x_max_seq_len o * head_dim c);
  mret ().

(** ** Alignment *)

(** The next multiple of the slab's alignment. *)
Definition aligned (bytes : Z) : Z := (bytes + 255) / 256 * 256.

Lemma aligned_spec bytes : bytes <= aligned bytes < bytes + 256 ∧ (256 | aligned bytes).
Proof.
  unfold aligned. pose proof (Z.div_mod (bytes + 255) 256 ltac:(lia)).
  pose proof (Z.mod_pos_bound (bytes + 255) 256 ltac:(lia)). split; [lia|by eexists].
Qed.

(** ** The regions of a layout, in slab order, with their sizes in bytes *)

Definition scratch_regions (c : ModelConfig) (o : ExecutorOptions) (l : ScratchLayout) : list (Z * Z) :=
  let rows := step_rows o in
  [ (sl_x l, rows * hidden_size c * 2); (sl_normed l, rows * hidden_size c * 2);
    (sl_qkv l, rows * qkv_width c * 2); (sl_attn_out l, rows * hidden_size c * 2);
    (sl_gateup l, rows * gateup_width c * 2); (sl_mlp_out l, rows * hidden_size c * 2);
    (sl_logits l, x_max_batch o * vocab_size c * 2); (sl_scores l, score_elems c o * 4);
    (sl_probs l, score_elems c o * 2); (sl_khat l, gather_elems c o * 2);
    (sl_vhat l, gather_elems c o * 2); (sl_input_ids l, rows * 4); (sl_positions l, rows * 4);
    (sl_seq_lens l, x_max_batch o * 4); (sl_block_tables l, table_elems o * 4);
    (sl_argmax l, x_max_batch o * 4) ].

Definition pinned_regions (o : ExecutorOptions) (l : PinnedLayout) : list (Z * Z) :=
  let rows := step_rows o in
  [ (pl_input_ids l, rows * 4); (pl_positions l, rows * 4); (pl_seq_lens l, x_max_batch o * 4);
    (pl_block_tables l, table_elems o * 4); (pl_argmax l, x_max_batch o * 4) ].

(** Regions packed from offset [at_] up to [total], each 256-byte aligned. *)
Fixpoint packed (at_ : Z) (l : list (Z * Z)) (total : Z) : Prop :=
  match l with
  | [] => at_ = total
  | (off, size) :: l' => off = at_ ∧ (256 | off) ∧ 0 <= size ∧ packed (at_ + aligned size) l' total
  end.

(** Packed regions do not overlap and end inside the slab. *)
Lemma packed_bounds l : ∀ at_ total, packed at_ l total →
  at_ <= total ∧ ∀ i off size, l !! i = Some (off, size) → at_ <= off ∧ off + size <= total ∧ (256 | off).
Proof.
  induction l as [|[off size] l IH]; intros at_ total; cbn [packed]; [intros ->; split; [lia|done]|].
  intros (-> & Hal & Hs & Hp). destruct (IH _ _ Hp) as [Hle Hall]. pose proof (aligned_spec size).
  split; [lia|]. intros [|i] off' size'; cbn; [intros [= <- <-]; split_and!; [lia|lia|done]|].
  intros Hi. destruct (Hall i off' size' Hi) as (? & ? & ?). split_and!; [lia|lia|done].
Qed.

Lemma packed_disjoint l : ∀ at_ total i j off1 s1 off2 s2, packed at_ l total →
  l !! i = Some (off1, s1) → l !! j = Some (off2, s2) → (i < j)%nat → off1 + s1 <= off2.
Proof.
  induction l as [|[off size] l IH]; intros at_ total i j off1 s1 off2 s2; cbn [packed]; [done|].
  intros (-> & Hal & Hs & Hp) Hi Hj Hij. pose proof (aligned_spec size).
  destruct j as [|j]; [lia|]. cbn in Hj. destruct i as [|i]; cbn in Hi.
  - injection Hi as <- <-. destruct (packed_bounds _ _ _ Hp) as [_ Hb].
    destruct (Hb j off2 s2 Hj) as (? & _). lia.
  - eapply IH; [done|done|done|lia].
Qed.

(** Every executor configuration [ValidateGeometry] accepts has non-negative sizes. *)
Record geometry_ok (c : ModelConfig) (o : ExecutorOptions) : Prop := {
  go_hidden : 0 < hidden_size c;
  go_layers : 0 < num_layers c;
  go_q : 0 < num_q_heads c;
  go_kv : 0 < num_kv_heads c;
  go_dim : 0 < head_dim c;
  go_inter : 0 < intermediate_size c;
  go_vocab : 0 < vocab_size c;
  go_heads : num_q_heads c * head_dim c = hidden_size c;
  go_group : Z.rem (num_q_heads c) (num_kv_heads c) = 0;
  go_batch : 1 <= x_max_batch o;
  go_seq : 1 <= x_max_seq_len o;
  go_chunk : 1 <= x_prefill_chunk_tokens o;
  go_pad : 0 <= pad_eager_to_bucket o;
  go_pool : 0 < kv_pool_bytes o;
}.

Lemma require_ok ok what (k : outcome error ()) : (require ok what;; k) = Ok () ↔ ok = true ∧ k = Ok ().
Proof. destruct ok; cbn; naive_solver. Qed.

Lemma ValidateGeometry_ok c o : ValidateGeometry c o = Ok () → geometry_ok c o.
Proof.
  unfold ValidateGeometry. rewrite require_ok. intros [H1 H]. revert H.
  unfold signed32. case_bool_decide; [|done]. cbn [mbind outcome_bind]. rewrite !require_ok. unfold require at 1.
  destruct (0 <? kv_pool_bytes o) eqn:Hp; [|naive_solver]. zbool. intros H2. split; tauto || lia.
Qed.

(** What fails is a check, or the 32-bit product of a model it would have refused. *)
Lemma ValidateGeometry_err c o e : ValidateGeometry c o = Err e →
  (∃ what, e = ExecutorError what) ∧ ¬ geometry_ok c o ∨ e = overflow ∧ int32_max < qkv_width c.
Proof.
  assert (∀ ok what (k : outcome error ()), (require ok what;; k) = Err e →
    (∃ what, e = ExecutorError what) ∧ ok = false ∨ ok = true ∧ k = Err e) as Hreq.
  { intros [] what k; cbn; [by right|]. intros [= <-]. left. by split; [eexists|]. }
  intros H. apply Hreq in H as [[? Hf]|[H1 H]].
  { left. split; [done|]. intros []. zbool. lia. }
  unfold signed32 in H. zbool. case_bool_decide as Hw; cbn [mbind outcome_bind] in H.
  - left. repeat (apply Hreq in H as [[? Hf]|[? H]]; [split; [done|]; intros []; zbool; lia|]).
    unfold require in H. destruct (0 <? kv_pool_bytes o) eqn:Hp; [done|]. injection H as <-.
    split; [by eexists|]. intros []. zbool. lia.
  - injection H as <-. right. split; [done|]. unfold int32_ok, int32_max, qkv_width in *. nia.
Qed.

Lemma sizes_nonneg c o : geometry_ok c o →
  0 < step_rows o ∧ 0 < qkv_width c ∧ 0 < gateup_width c ∧ 0 < score_elems c o ∧
  0 < gather_elems c o ∧ 0 < table_elems o.
Proof.
  intros []. unfold step_rows, qkv_width, gateup_width, score_elems, gather_elems, table_elems, max_blocks_per_seq.
  pose proof (BlocksForTokens_pos (x_max_seq_len o) ltac:(lia)). split_and!; nia.
Qed.

(** The planner's placement of a list of sizes. *)
Fixpoint place (at_ : Z) (sizes : list Z) : list (Z * Z) :=
  match sizes with
  | [] => []
  | s :: sizes' => (at_, s) :: place (at_ + aligned s) sizes'
  end.

Fixpoint place_end (at_ : Z) (sizes : list Z) : Z :=
  match sizes with
  | [] => at_
  | s :: sizes' => place_end (at_ + aligned s) sizes'
  end.

Lemma place_packed sizes : ∀ at_,
  (256 | at_) → Forall (λ s, 0 <= s) sizes → packed at_ (place at_ sizes) (place_end at_ sizes).
Proof.
  induction sizes as [|s sizes IH]; intros at_ Ha Hs; [done|].
  apply Forall_cons in Hs as [Hs0 Hs]. cbn [place place_end packed]. split_and!; [done|done|done|].
  apply IH; [|done]. apply Z.divide_add_r; [done|]. by apply aligned_spec.
Qed.

Definition scratch_sizes (c : ModelConfig) (o : ExecutorOptions) : list Z :=
  let rows := step_rows o in
  [ rows * hidden_size c * 2; rows * hidden_size c * 2; rows * qkv_width c * 2;
    rows * hidden_size c * 2; rows * gateup_width c * 2; rows * hidden_size c * 2;
    x_max_batch o * vocab_size c * 2; score_elems c o * 4; score_elems c o * 2;
    gather_elems c o * 2; gather_elems c o * 2; rows * 4; rows * 4; x_max_batch o * 4;
    table_elems o * 4; x_max_batch o * 4 ].

Definition pinned_sizes (o : ExecutorOptions) : list Z :=
  let rows := step_rows o in
  [ rows * 4; rows * 4; x_max_batch o * 4; table_elems o * 4; x_max_batch o * 4 ].

(** The largest of every width the plan computes fits its type. *)
Record sizes_fit (c : ModelConfig) (o : ExecutorOptions) : Prop := {
  sf_blocks : x_max_seq_len o + kKvBlockSize <= int32_max;
  sf_kv : 2 * num_kv_heads c <= int32_max;
  sf_qkv : qkv_width c <= int32_max;
  sf_gateup : gateup_width c <= int32_max;
  sf_block : kKvBlockSize * kv_token_bytes c <= int64_max;
  sf_total : kv_pool_bytes o + place_end 0 (scratch_sizes c o) + kDefaultWorkspaceBytes <= int64_max;
}.

#[export] Instance sizes_fit_dec c o : Decision (sizes_fit c o).
Proof.
  refine (cast_if (decide ((x_max_seq_len o + kKvBlockSize <= int32_max ∧ 2 * num_kv_heads c <= int32_max ∧
    qkv_width c <= int32_max) ∧ gateup_width c <= int32_max ∧ kKvBlockSize * kv_token_bytes c <= int64_max ∧
    kv_pool_bytes o + place_end 0 (scratch_sizes c o) + kDefaultWorkspaceBytes <= int64_max)));
    [abstract (destruct_and!; by split)|abstract (intros []; apply n; by split_and!)].
Defined.

Section plans.
Context {F : Prop}.

(** A plan that fails has overflowed. *)
Notation unfit := (λ e (_ : Z), e = overflow ∧ ¬ F).

(** Sizes that are placed from [off] on, with room to round up when [F] holds. *)
Definition takes (off : Z) (sizes : list Z) : Prop :=
  0 <= off ∧ Forall (λ s, 0 <= s) sizes ∧ (F → place_end off sizes + 512 <= int64_max).

Lemma place_end_app l1 l2 : ∀ off, place_end off (l1 ++ l2) = place_end (place_end off l1) l2.
Proof. induction l1 as [|s l1 IH]; intros off; cbn; [done|apply IH]. Qed.

Lemma place_end_mono sizes : ∀ off off', off <= off' → place_end off sizes <= place_end off' sizes.
Proof. induction sizes as [|s sizes IH]; intros off off' H; cbn; [done|]. apply IH. lia. Qed.

Lemma place_end_ge sizes : ∀ off, Forall (λ s, 0 <= s) sizes → off <= place_end off sizes.
Proof.
  induction sizes as [|s sizes IH]; intros off Hs; cbn; [done|]. apply Forall_cons in Hs as [Hs0 Hs].
  pose proof (aligned_spec s). specialize (IH (off + aligned s) Hs). lia.
Qed.

Lemma place_end_elem sizes s : ∀ off, Forall (λ s, 0 <= s) sizes → s ∈ sizes → off + s <= place_end off sizes.
Proof.
  induction sizes as [|s' sizes IH]; intros off Hs Hin; [by apply not_elem_of_nil in Hin|].
  apply Forall_cons in Hs as [Hs0 Hs]. cbn. pose proof (aligned_spec s').
  apply elem_of_cons in Hin as [->|Hin]; [|specialize (IH (off + aligned s') Hs Hin); lia].
  pose proof (place_end_ge sizes (off + aligned s') Hs). lia.
Qed.

Lemma wpx_lifted {A} (a : A) x (Q : A → Z → Prop) off : computes F a x → Q a off → wpx (lift x) Q unfit off.
Proof. destruct x; cbn; [by intros ->|done]. Qed.

Lemma wpx_lift {A L} (a : A) x (f : A → M error Z L) Q off :
  computes F a x → wpx (f a) Q unfit off → wpx (lift x ≫= f) Q unfit off.
Proof. intros. wpx_step. by eapply wpx_lifted. Qed.

Lemma computes_AlignUp bytes : 0 <= bytes → (F → bytes + 512 <= int64_max) → computes F (aligned bytes) (AlignUp bytes kSlabAlign).
Proof.
  intros Hb HF. unfold AlignUp, kSlabAlign. pose proof (aligned_spec bytes) as [Ha _].
  eapply computes_bind; [apply computes_signed64; intros ?%HF; unfold int64_ok, int64_max in *; lia|].
  eapply computes_bind; [apply computes_signed64; intros ?%HF; unfold int64_ok, int64_max in *; lia|].
  rewrite Z.quot_div_nonneg by lia. replace (bytes + 256 - 1) with (bytes + 255) by lia. fold (aligned bytes).
  apply computes_signed64. intros ?%HF. unfold int64_ok, int64_max in *. lia.
Qed.

(** One [Take]: the size fits because the end of the plan does. *)
Lemma wpx_Take {L} bytes (f : Z → M error Z L) Q off s rest :
  takes off (s :: rest) → ((F → s <= int64_max) → computes F s bytes) →
  (takes (off + aligned s) rest → wpx (f off) Q unfit (off + aligned s)) →
  wpx (Take bytes ≫= f) Q unfit off.
Proof.
  intros (Hoff & [Hs Hrest]%Forall_cons & HF) Hb Hf. cbn [place_end] in HF. pose proof (aligned_spec s) as [Ha _].
  pose proof (place_end_ge rest (off + aligned s) Hrest).
  unfold Take. wpx_auto. apply (wpx_lifted s); [apply Hb; intros ?%HF; lia|]. wpx_auto.
  apply (wpx_lifted (aligned s)); [apply computes_AlignUp; [done|]; intros ?%HF; lia|]. wpx_auto.
  apply (wpx_lifted (off + aligned s)); [apply computes_signed64; intros ?%HF; unfold int64_ok; lia|].
  wpx_auto. apply Hf. split_and!; [lia|done|exact HF].
Qed.

End plans.

Lemma sizes_positive c o : geometry_ok c o → Forall (λ s, 0 <= s) (scratch_sizes c o).
Proof.
  intros Hg. destruct (sizes_nonneg c o Hg) as (? & ? & ? & ? & ? & ?), Hg.
  unfold scratch_sizes. cbv zeta. repeat (apply Forall_cons; split; [nia|]). constructor.
Qed.

(** The mirrors are the last five regions of the device slab. *)
Lemma pinned_suffix c o : ∃ l, scratch_sizes c o = l ++ pinned_sizes o.
Proof. by exists (take 11 (scratch_sizes c o)). Qed.

Section layout.
Context (c : ModelConfig) (o : ExecutorOptions) (Hg : geometry_ok c o).
Notation F := (sizes_fit c o).

Lemma fit_room : F → place_end 0 (scratch_sizes c o) + 512 <= int64_max.
Proof using Hg. intros []. pose proof (go_pool _ _ Hg). unfold kDefaultWorkspaceBytes in *. lia. Qed.

Lemma fit_size s : s ∈ scratch_sizes c o → F → s <= int64_max.
Proof using Hg.
  intros Hs HF. pose proof (place_end_elem _ _ 0 (sizes_positive c o Hg) Hs). pose proof (fit_room HF). lia.
Qed.

Lemma scratch_takes : takes (F:=F) 0 (scratch_sizes c o).
Proof using Hg. split_and!; [done|by apply sizes_positive|apply fit_room]. Qed.

Lemma pinned_takes : takes (F:=F) 0 (pinned_sizes o).
Proof using Hg.
  destruct (pinned_suffix c o) as [l Hl]. pose proof (sizes_positive c o Hg) as Hp. rewrite Hl in Hp.
  apply Forall_app in Hp as [Hp1 Hp2]. split_and!; [done|done|]. intros HF%fit_room. rewrite Hl, place_end_app in HF.
  pose proof (place_end_mono (pinned_sizes o) _ _ (place_end_ge l 0 Hp1)). lia.
Qed.

Lemma computes_blocks : computes F (max_blocks_per_seq o) (checked_blocks_per_seq o).
Proof using Hg.
  unfold checked_blocks_per_seq. pose proof (go_seq _ _ Hg).
  eapply computes_bind; [apply computes_signed32; intros [Hf _ _ _ _ _]; unfold int32_ok, kKvBlockSize in *; lia|].
  eapply computes_bind; [apply computes_signed32; intros [Hf _ _ _ _ _]; unfold int32_ok, kKvBlockSize in *; lia|done].
Qed.

Lemma computes_table : computes F (table_elems o) (signed64 (x_max_batch o * max_blocks_per_seq o)).
Proof using Hg.
  apply computes_signed64. intros HF. assert (table_elems o * 4 ∈ scratch_sizes c o) as Hin by (unfold scratch_sizes; set_solver).
  pose proof (fit_size _ Hin HF). pose proof (sizes_nonneg c o Hg). unfold int64_ok. fold (table_elems o). lia.
Qed.

Lemma computes_elems n k l : n = foldl Z.mul k l → 0 < k → Forall (λ x, 0 < x) l → (∃ m, 0 < m ∧ n * m ∈ scratch_sizes c o) →
  computes F n (product64 k l).
Proof using Hg.
  intros Hn Hk Hl (m & Hm & Hin). apply computes_product64; [done..|]. intros HF. pose proof (fit_size _ Hin HF).
  assert (0 < n); [|nia]. rewrite Hn. clear Hn Hin. revert k Hk. induction l as [|x l IH]; intros k Hk; [done|].
  apply Forall_cons in Hl as [Hx Hl]. apply IH; [done|nia].
Qed.

Ltac positives := repeat (apply Forall_cons; split; [lia|]); constructor.
Ltac take_next Ht :=
  eapply wpx_Take; [exact Ht|intros; apply computes_product64; [reflexivity|lia|positives|assumption]|]; clear Ht; intros Ht.

(** The device plan is the exact one, or it overflows. *)
Lemma wpx_plan_scratch :
  wpx (plan_scratch c o)
    (λ l _, scratch_regions c o l = place 0 (scratch_sizes c o) ∧ sl_total_bytes l = place_end 0 (scratch_sizes c o))
    (λ e _, e = overflow ∧ ¬ F) 0.
Proof using Hg.
  pose proof scratch_takes as Ht. pose proof (sizes_nonneg c o Hg) as (? & ? & ? & ? & ? & ?). pose proof Hg as [].
  assert (∀ s, s ∈ scratch_sizes c o → F → s <= int64_max) as Hfit by apply fit_size.
  unfold plan_scratch. cbv zeta.
  apply (wpx_lift (2 * num_kv_heads c)).
  { apply computes_signed32. intros []. unfold int32_ok. lia. }
  apply (wpx_lift (num_q_heads c + 2 * num_kv_heads c)).
  { apply computes_signed64. intros []. unfold qkv_width, int64_ok, int64_max, int32_max in *. nia. }
  apply (wpx_lift (qkv_width c)).
  { apply computes_signed64. intros []. fold (qkv_width c). unfold int64_ok, int64_max, int32_max in *. lia. }
  apply (wpx_lift (gateup_width c)).
  { apply computes_signed64. intros []. fold (gateup_width c). unfold int64_ok, int64_max, int32_max in *. lia. }
  apply (wpx_lift (score_elems c o)).
  { apply computes_elems; [done|done|positives|]. exists 4. split; [done|]. unfold scratch_sizes. set_solver. }
  apply (wpx_lift (gather_elems c o)).
  { apply computes_elems; [done|done|positives|]. exists 2. split; [done|]. unfold scratch_sizes. set_solver. }
  apply (wpx_lift (max_blocks_per_seq o)); [apply computes_blocks|].
  apply (wpx_lift (table_elems o)); [apply computes_table|]. clear Hfit.
  unfold scratch_sizes in Ht |- *. cbv zeta in Ht |- *. do 16 take_next Ht.
  wpx_auto. unfold scratch_regions. cbv zeta.
  cbn [place place_end sl_x sl_normed sl_qkv sl_attn_out sl_gateup sl_mlp_out sl_logits sl_scores
    sl_probs sl_khat sl_vhat sl_input_ids sl_positions sl_seq_lens sl_block_tables sl_argmax
    sl_total_bytes]. split; reflexivity.
Qed.

Lemma wpx_plan_pinned :
  wpx (plan_pinned o)
    (λ l _, pinned_regions o l = place 0 (pinned_sizes o) ∧ pl_total_bytes l = place_end 0 (pinned_sizes o))
    (λ e _, e = overflow ∧ ¬ F) 0.
Proof using Hg.
  pose proof pinned_takes as Ht. pose proof (sizes_nonneg c o Hg) as (? & ? & ? & ? & ? & ?). pose proof Hg as [].
  unfold plan_pinned. cbv zeta.
  apply (wpx_lift (max_blocks_per_seq o)); [apply computes_blocks|].
  apply (wpx_lift (table_elems o)); [apply computes_table|].
  unfold pinned_sizes in Ht |- *. cbv zeta in Ht |- *. do 5 take_next Ht.
  wpx_auto. unfold pinned_regions. cbv zeta.
  cbn [place place_end pl_input_ids pl_positions pl_seq_lens pl_block_tables pl_argmax
    pl_total_bytes]. split; reflexivity.
Qed.

Lemma scratch_placed :
  match ComputeScratchLayout c o with
  | Ok l => scratch_regions c o l = place 0 (scratch_sizes c o) ∧ sl_total_bytes l = place_end 0 (scratch_sizes c o)
  | Err e => e = overflow ∧ ¬ F
  end.
Proof using Hg. pose proof wpx_plan_scratch as H. unfold wpx, ComputeScratchLayout in *. by destruct (plan_scratch c o 0) as [[] ?]. Qed.

Lemma pinned_placed :
  match ComputePinnedLayout o with
  | Ok l => pinned_regions o l = place 0 (pinned_sizes o) ∧ pl_total_bytes l = place_end 0 (pinned_sizes o)
  | Err e => e = overflow ∧ ¬ F
  end.
Proof using Hg. pose proof wpx_plan_pinned as H. unfold wpx, ComputePinnedLayout in *. by destruct (plan_pinned o 0) as [[] ?]. Qed.

End layout.

(** ** Guarantees *)

(** Two regions of a slab as a reader of the pointers sees them. *)
Definition slab_safe (regions : list (Z * Z)) (total : Z) : Prop :=
  (∀ i off size, regions !! i = Some (off, size) → 0 <= off ∧ off + size <= total ∧ (256 | off)) ∧
  (∀ i j off1 s1 off2 s2, regions !! i = Some (off1, s1) → regions !! j = Some (off2, s2) →
     i ≠ j → off1 + s1 <= off2 ∨ off2 + s2 <= off1).

Lemma packed_safe regions total : packed 0 regions total → slab_safe regions total.
Proof.
  intros Hp. destruct (packed_bounds _ _ _ Hp) as [_ Hb]. split; [exact Hb|].
  intros i j off1 s1 off2 s2 Hi Hj Hij. destruct (Nat.lt_total i j) as [Hlt|[->|Hlt]]; [|done|].
  - left. by eapply packed_disjoint.
  - right. by eapply packed_disjoint.
Qed.

(** Every activation and input region of the device slab, and every pinned
    mirror, is 256-byte aligned, lies inside its slab and overlaps no other
    region, for every configuration the executor accepts and whose sizes fit
    their types. *)
Theorem slab_regions_disjoint c o :
  ValidateGeometry c o = Ok () →
  match ComputeScratchLayout c o with
  | Ok l => slab_safe (scratch_regions c o l) (sl_total_bytes l)
  | Err e => e = overflow ∧ ¬ sizes_fit c o
  end ∧
  match ComputePinnedLayout o with
  | Ok l => slab_safe (pinned_regions o l) (pl_total_bytes l)
  | Err e => e = overflow ∧ ¬ sizes_fit c o
  end.
Proof.
  intros Hg%ValidateGeometry_ok. pose proof (sizes_positive c o Hg) as Hs.
  pose proof (scratch_placed c o Hg) as H1. pose proof (pinned_placed c o Hg) as H2. split.
  - destruct (ComputeScratchLayout c o) as [l|]; [|done]. destruct H1 as [-> ->].
    by apply packed_safe, place_packed; [apply Z.divide_0_r|].
  - destruct (ComputePinnedLayout o) as [l|]; [|done]. destruct H2 as [-> ->].
    destruct (pinned_suffix c o) as [pre Hpre]. rewrite Hpre in Hs. apply Forall_app in Hs as [_ Hs].
    by apply packed_safe, place_packed; [apply Z.divide_0_r|].
Qed.

(** The memory budget: an accepted configuration yields a pool of the
    largest whole number of blocks in the requested bytes, at least the dummy
    block and one usable one, and a device total that is the sum of its parts;
    a rejected one throws; only sizes too large for their types do neither. *)
Theorem budget_correct c o :
  match ComputeBudget c o with
  | Ok b =>
      geometry_ok c o ∧
      let block := kKvBlockSize * kv_token_bytes c in
      b_kv_pool_bytes b <= kv_pool_bytes o < b_kv_pool_bytes b + block ∧
      2 * block <= b_kv_pool_bytes b ∧ (block | b_kv_pool_bytes b) ∧
      num_kv_blocks b = to_int32 (kv_pool_bytes o / block) ∧ b_kv_pool_bytes b = kv_pool_bytes o / block * block ∧
      scratch_bytes b = place_end 0 (scratch_sizes c o) ∧ pinned_host_bytes b = place_end 0 (pinned_sizes o) ∧
      total_device_bytes b = b_kv_pool_bytes b + scratch_bytes b + workspace_bytes b ∧ workspace_bytes b = kDefaultWorkspaceBytes
  | Err e =>
      (∃ what, e = ExecutorError what) ∧ (¬ geometry_ok c o ∨ kv_pool_bytes o < 2 * (kKvBlockSize * kv_token_bytes c)) ∨
      e = overflow ∧ ¬ sizes_fit c o
  end.
Proof.
  unfold ComputeBudget. destruct (ValidateGeometry c o) as [[]|e] eqn:Hv; cbn [mbind outcome_bind].
  2:{ apply ValidateGeometry_err in Hv as [[??]|[??]]; [left; split; [done|by left]|right]. split; [done|]. intros []. lia. }
  apply ValidateGeometry_ok in Hv as Hg. pose proof Hg as [].
  assert (0 < kv_token_bytes c) as Ht by (unfold kv_token_bytes; nia).
  assert (computes (sizes_fit c o) (kv_token_bytes c) (KvBytesPerToken c)) as H1.
  { apply computes_product64; [done|done|repeat (apply Forall_cons; split; [lia|]); constructor|].
    intros []. unfold kKvBlockSize in *. lia. }
  destruct (KvBytesPerToken c) as [tb|e]; cbn [mbind outcome_bind computes] in H1 |- *; [subst tb|by right].
  assert (computes (sizes_fit c o) (kKvBlockSize * kv_token_bytes c) (signed64 (kKvBlockSize * kv_token_bytes c))) as H2.
  { apply computes_signed64. intros []. unfold int64_ok, kKvBlockSize in *. lia. }
  destruct (signed64 (kKvBlockSize * _)) as [block|e]; cbn [mbind outcome_bind computes] in H2 |- *; [|by right].
  subst block. cbv zeta. set (block := kKvBlockSize * kv_token_bytes c) in *.
  assert (0 < block) as Hblock by (unfold block, kKvBlockSize; lia). rewrite Z.quot_div_nonneg by lia.
  pose proof (Z.div_mod (kv_pool_bytes o) block ltac:(lia)) as Hdiv. pose proof (Z.mod_pos_bound (kv_pool_bytes o) block Hblock) as Hmod.
  set (n := kv_pool_bytes o / block) in *. destruct (Z.ltb_spec n 2) as [|Hn]; [left; split; [by eexists|right; nia]|].
  pose proof (place_end_ge _ 0 (sizes_positive c o Hg)) as Hend. assert (0 <= kDefaultWorkspaceBytes) by done.
  assert (computes (sizes_fit c o) (n * block) (signed64 (n * block))) as H3.
  { apply computes_signed64. intros []. unfold int64_ok. nia. }
  destruct (signed64 (n * block)) as [pool|e]; cbn [mbind outcome_bind computes] in H3 |- *; [|by right].
  pose proof (scratch_placed c o Hg) as H4.
  destruct (ComputeScratchLayout c o) as [l|e]; cbn [mbind outcome_bind]; [|by right]. destruct H4 as [_ H4].
  assert (computes (sizes_fit c o) (pool + sl_total_bytes l) (signed64 (pool + sl_total_bytes l))) as H5.
  { apply computes_signed64. intros []. unfold int64_ok. rewrite H4. nia. }
  destruct (signed64 (pool + _)) as [slabs|e]; cbn [mbind outcome_bind computes] in H5 |- *; [|by right].
  assert (computes (sizes_fit c o) (slabs + kDefaultWorkspaceBytes) (signed64 (slabs + kDefaultWorkspaceBytes))) as H6.
  { apply computes_signed64. intros []. unfold int64_ok. rewrite H5, H4. nia. }
  destruct (signed64 (slabs + _)) as [total|e]; cbn [mbind outcome_bind computes] in H6 |- *; [|by right].
  pose proof (pinned_placed c o Hg) as H7.
  destruct (ComputePinnedLayout o) as [pl|e]; cbn [mbind outcome_bind]; [|by right]. destruct H7 as [_ H7].
  unfold mret, outcome_ret. cbn [b_kv_pool_bytes num_kv_blocks scratch_bytes pinned_host_bytes total_device_bytes workspace_bytes].
  subst pool slabs total. split; [done|]. clear - Hdiv Hmod H4 H7 Hblock Hn. split_and!; [nia|nia|nia|by exists n|done|done|done|done|lia|done].
Qed.

Lemma budget_blocks c o b : ComputeBudget c o = Ok b → num_kv_blocks b <= int32_max.
Proof.
  intros Hb. pose proof (budget_correct c o) as H. rewrite Hb in H. destruct H as (_ & _ & _ & _ & -> & _). apply to_int32_ok.
Qed.

(** The derived members fit whenever the plan does. *)
Lemma computes_widths c o b : ComputeBudget c o = Ok b → computes (sizes_fit c o) () (derive_widths c o b).
Proof.
  intros Hb. pose proof (budget_correct c o) as H. rewrite Hb in H. cbv zeta in H.
  destruct H as (Hg & Hp & _ & _ & Hn & Hpool & _). pose proof Hg as []. unfold derive_widths.
  assert (0 < kv_token_bytes c) as Ht by (unfold kv_token_bytes; nia).
  eapply computes_bind; [by apply computes_blocks|]. eapply computes_bind.
  { apply computes_product64_abs; [reflexivity|repeat (apply Forall_cons; split; [done || lia|]); constructor|].
    intros Hf. pose proof (sf_total _ _ Hf). pose proof (place_end_ge _ 0 (sizes_positive c o Hg)).
    assert (0 <= kDefaultWorkspaceBytes) by done. assert (b_kv_pool_bytes b <= int64_max) as Hmax by lia.
    cbn [foldl]. set (blocks := kv_pool_bytes o / _) in *. assert (0 <= blocks) as Hbl by (apply Z.div_pos; unfold kKvBlockSize; lia).
    assert (Z.abs (num_kv_blocks b) <= blocks) as Habs.
    { rewrite Hn. pose proof (to_int32_ok blocks) as Hok. destruct (Z.le_gt_cases blocks int32_max).
      - rewrite to_int32_id by (unfold int32_ok; lia). lia.
      - unfold int32_ok, int32_max in *. lia. }
    rewrite Hpool in Hmax. unfold kv_token_bytes in Hmax. clear - Hmax Habs Hbl go_layers0 go_kv0 go_dim0.
    replace (num_kv_blocks b * 2 * num_kv_heads c * kKvBlockSize * head_dim c)
      with (num_kv_blocks b * (2 * kKvBlockSize * (num_kv_heads c * head_dim c))) by ring.
    replace (blocks * (kKvBlockSize * (2 * num_layers c * num_kv_heads c * head_dim c * 2)))
      with (blocks * (2 * kKvBlockSize * (num_kv_heads c * head_dim c) * (2 * num_layers c))) in Hmax by ring.
    assert (0 < 2 * kKvBlockSize * (num_kv_heads c * head_dim c)) as HK by (unfold kKvBlockSize; nia).
    revert Hmax HK. generalize (2 * kKvBlockSize * (num_kv_heads c * head_dim c)). intros k Hmax HK.
    rewrite Z.abs_mul, (Z.abs_eq k) by lia. assert (Z.abs (num_kv_blocks b) * k <= blocks * k) by nia. nia. }
  assert (0 < num_kv_heads c * head_dim c ∧ 0 < num_q_heads c * head_dim c) as [Hkv Hq] by nia.
  assert (sizes_fit c o → num_q_heads c * head_dim c + 2 * (num_kv_heads c * head_dim c) <= int32_max) as Hw
    by (intros []; unfold qkv_width in *; lia).
  eapply computes_bind; [apply computes_signed32; intros []; unfold int32_ok; lia|].
  eapply computes_bind; [apply computes_signed32; intros ?%Hw; unfold int32_ok; nia|].
  eapply computes_bind; [apply computes_signed32; intros ?%Hw; unfold int32_ok; nia|].
  eapply computes_bind; [apply computes_signed32; intros ?%Hw; unfold int32_ok; nia|].
  eapply computes_bind; [apply computes_signed32; intros ?%Hw; unfold int32_ok; nia|].
  eapply computes_bind; [apply computes_signed32; intros ?%Hw; unfold int32_ok; nia|].
  eapply computes_bind; [apply computes_signed32; intros []; unfold gateup_width in *; unfold int32_ok; lia|].
  eapply computes_bind; [|done]. apply computes_signed64. intros Hf.
  assert (gather_elems c o * 2 ∈ scratch_sizes c o) as Hin by (unfold scratch_sizes; set_solver).
  pose proof (fit_size c o Hg _ Hin Hf) as Hl. unfold gather_elems in Hl. unfold int64_ok. nia.
Qed.

(** A context of 2^31 - 1 tokens passes every check of the options and overflows
    [BlocksForTokens]; a long one with a long chunk overflows the score plane. *)
Lemma option_overflow :
  ComputeBudget qwen25 (mkExecutorOptions (2 ^ 30) 1 (2 ^ 31 - 1) 1 true 0 "") = Err overflow ∧
  ComputeBudget qwen25 (mkExecutorOptions (2 ^ 30) 1 (2 ^ 30) (2 ^ 31 - 1) true 0 "") = Err overflow ∧
  ValidateGeometry qwen25 (mkExecutorOptions (2 ^ 30) 1 (2 ^ 31 - 1) 1 true 0 "") = Ok () ∧
  ValidateGeometry qwen25 (mkExecutorOptions (2 ^ 30) 1 (2 ^ 30) (2 ^ 31 - 1) true 0 "") = Ok ().
Proof. by vm_compute. Qed.

Lemma slab_regions_disjoint_witness :
  let o := mkExecutorOptions (2 ^ 30) 8 2048 1024 true 0 "" in
  ∃ l, ComputeScratchLayout qwen25 o = Ok l ∧ sl_total_bytes l = 209013248 ∧ slab_safe (scratch_regions qwen25 o l) (sl_total_bytes l).
Proof.
  intros o. pose proof (slab_regions_disjoint qwen25 o ltac:(by vm_compute)) as [H _].
  destruct (ComputeScratchLayout qwen25 o) as [l|e] eqn:Hl; [|exfalso; revert Hl; by vm_compute].
  exists l. split_and!; [done| |done]. revert Hl. vm_compute. by intros [= <-].
Defined.
