(* ===== verification/ExecutorMirrors.v ===== *)
(** * Filling the pinned mirrors ([core/model_executor.cpp])

    The per-step device inputs are written row by row into fixed-size pinned
    arrays.  A store outside its array is an error of the model, so that the
    specifications below also say that none happens.  They give the complete
    contents of the arrays after a fill: the live rows, then the padding (token
    0, position 0, length 0, dummy block), then whatever was there before. *)

From stdpp Require Import sorting.
From S2P Require Import Prelude Doubles Types ModelConfig Scheduler ExecutorLayout.

Record Mirrors : Type := mkMirrors {
  h_input_ids : list Z;
  h_positions : list Z;
  h_seq_lens : list Z;
  h_block_tables : list Z;
  h_argmax : list Z;
}.

Notation MM := (M error Mirrors).

(** [a[i] = v] on a mirror of [n] entries. *)
Definition store (a : list Z) (i v : Z) : outcome error (list Z) :=
  if (0 <=? i) && (i <? zlen a) then Ok (<[Z.to_nat i := v]> a)
  else Err (UndefinedBehaviour "mirror index out of range").

Definition store_with (view : Mirrors → list Z) (update : list Z → Mirrors → Mirrors) (i v : Z) : MM () :=
  m ← get;
  match store (view m) i v with Ok a => put (update a m) | Err e => throw e end.

Definition set_ids a m := mkMirrors a (h_positions m) (h_seq_lens m) (h_block_tables m) (h_argmax m).
Definition set_pos a m := mkMirrors (h_input_ids m) a (h_seq_lens m) (h_block_tables m) (h_argmax m).
Definition set_len a m := mkMirrors (h_input_ids m) (h_positions m) a (h_block_tables m) (h_argmax m).
Definition set_tab a m := mkMirrors (h_input_ids m) (h_positions m) (h_seq_lens m) a (h_argmax m).

Definition put_id := store_with h_input_ids set_ids.
Definition put_position := store_with h_positions set_pos.
Definition put_seq_len := store_with h_seq_lens set_len.
Definition put_table := store_with h_block_tables set_tab.

Definition fail {A} (what : string) : MM A := throw (ExecutorError what).

(** [if (bad) fail(what)] *)
Definition check_not (what : string) (bad : bool) : MM () := if bad then fail what else mret ().

(** [std::fill(row + i, row + i + n, kDummyBlockId)] *)
Fixpoint fill_dummy (at_ : Z) (n : nat) : MM () :=
  match n with
  | O => mret ()
  | S n' => put_table at_ kDummyBlockId;; fill_dummy (at_ + 1) n'
  end.

Section mirrors.
Context (c : ModelConfig) (o : ExecutorOptions) (num_kv_blocks_ : Z).

Definition buckets : list Z := MakeDecodeBuckets (x_max_batch o).
Definition mbps : Z := max_blocks_per_seq o.

Definition BucketForRows (rows : Z) : Z := default (-1) (List.find (λ bucket, bucket =? rows) buckets).

(** The block-table entries of one row, from [at_] on. *)
Fixpoint write_blocks (at_ : Z) (blocks : list BlockId) : MM () :=
  match blocks with
  | [] => mret ()
  | block :: blocks' =>
      assert "block != kInvalidBlockId" (negb (block =? kInvalidBlockId));;
      check_not "block table entry holds invalid block id"
        ((block <=? kDummyBlockId) || (num_kv_blocks_ <=? block));;
      put_table at_ block;;
      write_blocks (at_ + 1) blocks'
  end.

(** One table row: the blocks, then dummy padding up to the row width. *)
Definition write_table_row (at_ : Z) (blocks : list BlockId) : MM () :=
  write_blocks at_ blocks;;
  fill_dummy (at_ + zlen blocks) (Z.to_nat (mbps - zlen blocks)).

(** ** Decode *)

(** The row count a decode step executes at. *)
Definition decode_rows (live pad_to_rows : Z) : Z :=
  if 0 <? pad_to_rows then pad_to_rows else
  if (0 <? pad_eager_to_bucket o) && negb (is_nil buckets) then
    let want := Z.max live (Z.min (pad_eager_to_bucket o) (default 0 (back buckets))) in
    let bucket := SelectBucket want buckets in
    if 0 <? bucket then bucket else live
  else live.

Definition fill_live_row (r : Z) (request : Request) : MM () :=
  check_not "decode scheduled before the first generated token exists" (is_nil (output_tokens request));;
  let len := seq_len request in
  check_not "seq_len outside [1, max_seq_len]" ((len <? 1) || (x_max_seq_len o <? len));;
  tok ← from_option_or (UndefinedBehaviour "back() of an empty vector") (back (output_tokens request));
  check_not "input token outside the vocab" ((tok <? 0) || (vocab_size c <=? tok));;
  let blocks := blocks_ (block_table request) in
  let needed := BlocksForTokens len in
  check_not "block table does not cover the position" (to_int32 (zlen blocks) <? needed);;
  check_not "block table exceeds max_blocks_per_seq" (mbps <? to_int32 (zlen blocks));;
  put_id r tok;;
  put_position r (len - 1);;
  put_seq_len r len;;
  write_table_row (r * mbps) blocks.

Fixpoint fill_live_rows (r : Z) (batch : list Request) : MM () :=
  match batch with
  | [] => mret ()
  | request :: batch' => fill_live_row r request;; fill_live_rows (r + 1) batch'
  end.

Fixpoint fill_padded_rows (r : Z) (n : nat) : MM () :=
  match n with
  | O => mret ()
  | S n' =>
      put_id r 0;; put_position r 0;; put_seq_len r 0;;
      fill_dummy (r * mbps) (Z.to_nat mbps);;
      fill_padded_rows (r + 1) n'
  end.

Definition FillDecodeMirrors (batch : list Request) (pad_to_rows : Z) : MM Z :=
  let live := to_int32 (zlen batch) in
  (if 0 <? pad_to_rows
   then assert "pad_to_rows >= live && pad_to_rows <= max_batch"
          ((live <=? pad_to_rows) && (pad_to_rows <=? x_max_batch o))
   else mret ());;
  let rows := decode_rows live pad_to_rows in
  fill_live_rows 0 batch;;
  fill_padded_rows live (Z.to_nat (rows - live));;
  mret rows.

(** Warmup and capture inputs: length 1 and an all-dummy table in every row. *)
Fixpoint fill_dummy_rows (r : Z) (n : nat) : MM () :=
  match n with
  | O => mret ()
  | S n' =>
      put_id r 0;; put_position r 0;; put_seq_len r 1;;
      fill_dummy (r * mbps) (Z.to_nat mbps);;
      fill_dummy_rows (r + 1) n'
  end.

Definition FillDummyDecodeMirrors (rows : Z) : MM () := fill_dummy_rows 0 (Z.to_nat rows).

(** ** Prefill *)

Fixpoint fill_chunk (i : Z) (chunk_begin : Z) (request : Request) (n : nat) : MM () :=
  match n with
  | O => mret ()
  | S n' =>
      tok ← from_option_or (UndefinedBehaviour "prompt_tokens index")
              (prompt_tokens request !! Z.to_nat (chunk_begin + i));
      check_not "prompt token outside the vocab" ((tok <? 0) || (vocab_size c <=? tok));;
      put_id i tok;;
      put_position i (chunk_begin + i);;
      fill_chunk (i + 1) chunk_begin request n'
  end.

Definition FillPrefillMirrors (request : Request) (chunk_begin chunk_end : Z) : MM Z :=
  let prompt_len := num_prompt_tokens request in
  check_not "chunk is not a non-empty slice of the prompt"
    ((chunk_begin <? 0) || (chunk_end <=? chunk_begin) || (prompt_len <? chunk_end));;
  let rows := chunk_end - chunk_begin in
  check_not "chunk exceeds prefill_chunk_tokens" (x_prefill_chunk_tokens o <? rows);;
  check_not "chunk end exceeds max_seq_len" (x_max_seq_len o <? chunk_end);;
  let blocks := blocks_ (block_table request) in
  let needed := BlocksForTokens chunk_end in
  check_not "block table does not cover the chunk" (to_int32 (zlen blocks) <? needed);;
  check_not "block table exceeds max_blocks_per_seq" (mbps <? to_int32 (zlen blocks));;
  fill_chunk 0 chunk_begin request (Z.to_nat rows);;
  write_table_row 0 blocks;;
  mret rows.

End mirrors.

(** ** Arrays written front to back *)

(** [old] with its first entries overwritten by [done]. *)
Definition over (done old : list Z) : list Z := done ++ drop (length done) old.

Lemma over_nil old : over [] old = old.
Proof. done. Qed.

Lemma zlen_over done old : zlen done <= zlen old → zlen (over done old) = zlen old.
Proof. unfold zlen, over. rewrite length_app, length_drop. lia. Qed.

Lemma store_over done old v :
  zlen done < zlen old → store (over done old) (zlen done) v = Ok (over (done ++ [v]) old).
Proof.
  intros Hlt. unfold store. rewrite zlen_over by lia. pose proof (zlen_nonneg done).
  destruct (Z.leb_spec 0 (zlen done)); [|lia]. destruct (Z.ltb_spec (zlen done) (zlen old)); [|lia].
  cbn [andb]. f_equal. unfold zlen, over in *. rewrite Nat2Z.id.
  destruct (lookup_lt_is_Some_2 old (length done) ltac:(lia)) as [x Hx].
  rewrite (drop_S _ _ _ Hx). rewrite insert_app_r_alt by lia. rewrite Nat.sub_diag. cbn.
  rewrite <- app_assoc. cbn. do 2 f_equal. rewrite length_app. cbn. f_equal. lia.
Qed.

Section specs.
Context (c : ModelConfig) (o : ExecutorOptions) (num_kv_blocks_ : Z).
Implicit Types (ids pos len tab arg : list Z) (Q : () → Mirrors → Prop).

(** The four arrays: what has been written so far over what was there. *)
Definition state4 (i p l t : list Z) (m0 : Mirrors) : Mirrors :=
  mkMirrors (over i (h_input_ids m0)) (over p (h_positions m0)) (over l (h_seq_lens m0))
    (over t (h_block_tables m0)) (h_argmax m0).

Lemma state4_nil m0 : state4 [] [] [] [] m0 = m0.
Proof. by destruct m0. Qed.

Lemma wp_put_id i p l t m0 at_ v Q :
  at_ = zlen i → zlen i < zlen (h_input_ids m0) →
  Q () (state4 (i ++ [v]) p l t m0) → wp (put_id at_ v) Q (state4 i p l t m0).
Proof.
  intros -> Hlt HQ. unfold put_id, store_with. wp_auto. cbn [state4 h_input_ids].
  rewrite store_over by done. by apply wp_put.
Qed.

Lemma wp_put_position i p l t m0 at_ v Q :
  at_ = zlen p → zlen p < zlen (h_positions m0) →
  Q () (state4 i (p ++ [v]) l t m0) → wp (put_position at_ v) Q (state4 i p l t m0).
Proof.
  intros -> Hlt HQ. unfold put_position, store_with. wp_auto. cbn [state4 h_positions].
  rewrite store_over by done. by apply wp_put.
Qed.

Lemma wp_put_seq_len i p l t m0 at_ v Q :
  at_ = zlen l → zlen l < zlen (h_seq_lens m0) →
  Q () (state4 i p (l ++ [v]) t m0) → wp (put_seq_len at_ v) Q (state4 i p l t m0).
Proof.
  intros -> Hlt HQ. unfold put_seq_len, store_with. wp_auto. cbn [state4 h_seq_lens].
  rewrite store_over by done. by apply wp_put.
Qed.

Lemma wp_put_table i p l t m0 at_ v Q :
  at_ = zlen t → zlen t < zlen (h_block_tables m0) →
  Q () (state4 i p l (t ++ [v]) m0) → wp (put_table at_ v) Q (state4 i p l t m0).
Proof.
  intros -> Hlt HQ. unfold put_table, store_with. wp_auto. cbn [state4 h_block_tables].
  rewrite store_over by done. by apply wp_put.
Qed.

Lemma wp_check_not what bad m Q : bad = false → Q () m → wp (check_not what bad) Q m.
Proof. by intros ->. Qed.

Lemma wp_fill_dummy n : ∀ i p l t m0 at_ Q,
  at_ = zlen t → zlen t + Z.of_nat n <= zlen (h_block_tables m0) →
  Q () (state4 i p l (t ++ replicate n 0) m0) → wp (fill_dummy at_ n) Q (state4 i p l t m0).
Proof.
  induction n as [|n IH]; intros i p l t m0 at_ Q -> Hlt HQ; cbn [fill_dummy].
  - apply wp_ret. by rewrite app_nil_r in HQ.
  - wp_auto. apply wp_put_table; [done|lia|]. apply IH; [zlen; lia|zlen; lia|].
    rewrite <- app_assoc. exact HQ.
Qed.

(** Ids the executor accepts: physical blocks of the pool. *)
Definition blocks_valid (blocks : list BlockId) : Prop :=
  Forall (λ b, 1 <= b < num_kv_blocks_) blocks.

Lemma wp_write_blocks blocks : ∀ i p l t m0 at_ Q,
  at_ = zlen t → zlen t + zlen blocks <= zlen (h_block_tables m0) → blocks_valid blocks →
  Q () (state4 i p l (t ++ blocks) m0) → wp (write_blocks num_kv_blocks_ at_ blocks) Q (state4 i p l t m0).
Proof.
  induction blocks as [|b blocks IH]; intros i p l t m0 at_ Q -> Hlt Hv HQ; cbn [write_blocks].
  - apply wp_ret. by rewrite app_nil_r in HQ.
  - apply Forall_cons in Hv as [Hb Hv]. zlen. pose proof (zlen_nonneg blocks).
    wp_auto. apply wp_assert_; [unfold kInvalidBlockId; zbool; lia|]. wp_auto.
    apply wp_check_not; [unfold kDummyBlockId; zbool; lia|]. wp_auto.
    apply wp_put_table; [done|lia|]. apply IH; [zlen; lia|zlen; lia|done|].
    rewrite <- app_assoc. exact HQ.
Qed.

(** A table row as it is uploaded: the blocks and the dummy padding. *)
Definition table_row (blocks : list BlockId) : list Z :=
  blocks ++ replicate (Z.to_nat (mbps o - zlen blocks)) 0.

Lemma zlen_table_row blocks : zlen blocks <= mbps o → zlen (table_row blocks) = mbps o.
Proof. intros. unfold table_row, zlen in *. rewrite length_app, length_replicate. lia. Qed.

Lemma wp_write_table_row blocks i p l t m0 at_ Q :
  at_ = zlen t → zlen blocks <= mbps o → zlen t + mbps o <= zlen (h_block_tables m0) →
  blocks_valid blocks → Q () (state4 i p l (t ++ table_row blocks) m0) →
  wp (write_table_row o num_kv_blocks_ at_ blocks) Q (state4 i p l t m0).
Proof.
  intros -> Hb Hlt Hv HQ. unfold write_table_row. wp_auto.
  apply wp_write_blocks; [done|lia|done|]. apply wp_fill_dummy; [zlen; lia|zlen; lia|].
  rewrite <- app_assoc. exact HQ.
Qed.

(** ** Decode *)

(** A row the executor accepts. *)
Record row_ok (r : Request) (tok : TokenId) : Prop := {
  rk_token : back (output_tokens r) = Some tok;
  rk_vocab : 0 <= tok < vocab_size c;
  rk_len : 1 <= seq_len r <= x_max_seq_len o;
  rk_cover : BlocksForTokens (seq_len r) <= zlen (blocks_ (block_table r));
  rk_width : zlen (blocks_ (block_table r)) <= mbps o;
  rk_blocks : blocks_valid (blocks_ (block_table r));
}.

(** The mirrors are as large as the layout makes them. *)
Record mirrors_sized (m : Mirrors) : Prop := {
  ms_ids : zlen (h_input_ids m) = step_rows o;
  ms_pos : zlen (h_positions m) = step_rows o;
  ms_len : zlen (h_seq_lens m) = x_max_batch o;
  ms_tab : zlen (h_block_tables m) = table_elems o;
}.

Definition tables_of (batch : list Request) : list Z :=
  concat (map (λ r, table_row (blocks_ (block_table r))) batch).

Definition last_token (r : Request) : Z := default 0 (back (output_tokens r)).

Context (Hwidth : 0 <= mbps o <= int32_max) (Hbatch : 1 <= x_max_batch o <= int32_max).

Lemma wp_fill_live_rows batch : ∀ i p l t m0 r Q,
  mirrors_sized m0 → r = zlen i → zlen p = zlen i → zlen l = zlen i → zlen t = zlen i * mbps o →
  zlen i + zlen batch <= x_max_batch o → Forall (λ r, ∃ tok, row_ok r tok) batch →
  Q () (state4 (i ++ map last_token batch) (p ++ map (λ r, seq_len r - 1) batch)
          (l ++ map seq_len batch) (t ++ tables_of batch) m0) →
  wp (fill_live_rows c o num_kv_blocks_ r batch) Q (state4 i p l t m0).
Proof using Hwidth Hbatch.
  induction batch as [|req batch IH]; intros i p l t m0 r Q Hm -> Hp Hl Ht Hn Hok HQ; cbn [fill_live_rows].
  { apply wp_ret. unfold tables_of in HQ. cbn in HQ. by rewrite !app_nil_r in HQ. }
  apply Forall_cons in Hok as [[tok Hrow] Hok]. zlen. pose proof (zlen_nonneg batch).
  pose proof (zlen_nonneg i). pose proof (zlen_nonneg (blocks_ (block_table req))).
  destruct Hrow as [Htok Hv Hlen Hc Hw Hb]. pose proof Hm as [Hm1 Hm2 Hm3 Hm4].
  unfold step_rows, table_elems, mbps in *.
  assert (to_int32 (zlen (blocks_ (block_table req))) = zlen (blocks_ (block_table req))) as H32.
  { apply to_int32_id. unfold int32_ok, int32_max in *. lia. }
  unfold fill_live_row. wp_auto.
  apply wp_check_not; [destruct (output_tokens req); done|]. wp_auto.
  apply wp_check_not; [zbool; lia|]. wp_auto. eapply wp_from_option; [done|]. wp_auto.
  apply wp_check_not; [zbool; lia|]. wp_auto. rewrite H32.
  apply wp_check_not; [zbool; lia|]. wp_auto. apply wp_check_not; [unfold mbps; zbool; lia|]. wp_auto.
  apply wp_put_id; [done|lia|]. wp_auto. apply wp_put_position; [lia|lia|]. wp_auto.
  apply wp_put_seq_len; [lia|lia|]. wp_auto.
  apply wp_write_table_row; [unfold mbps; lia|unfold mbps; lia|unfold mbps; nia|done|].
  apply IH; try done; zlen; try lia.
  { rewrite zlen_table_row by (unfold mbps; lia). unfold mbps. lia. }
  assert (last_token req = tok) as Hlast by (unfold last_token; by rewrite Htok).
  unfold tables_of in *. cbn [map concat] in HQ. rewrite Hlast in HQ. by rewrite <- !app_assoc.
Qed.

Lemma wp_fill_padded_rows n : ∀ i p l t m0 r Q,
  mirrors_sized m0 → r = zlen i → zlen p = zlen i → zlen l = zlen i → zlen t = zlen i * mbps o →
  zlen i + Z.of_nat n <= x_max_batch o →
  Q () (state4 (i ++ replicate n 0) (p ++ replicate n 0) (l ++ replicate n 0)
          (t ++ replicate (n * Z.to_nat (mbps o)) 0) m0) →
  wp (fill_padded_rows o r n) Q (state4 i p l t m0).
Proof using Hwidth Hbatch.
  induction n as [|n IH]; intros i p l t m0 r Q Hm -> Hp Hl Ht Hn HQ; cbn [fill_padded_rows].
  { apply wp_ret. cbn in HQ. by rewrite !app_nil_r in HQ. }
  pose proof Hm as [Hm1 Hm2 Hm3 Hm4]. unfold step_rows, table_elems in *.
  change (max_blocks_per_seq o) with (mbps o) in *. pose proof (zlen_nonneg i).
  wp_auto. apply wp_put_id; [done|lia|]. wp_auto. apply wp_put_position; [lia|lia|]. wp_auto.
  apply wp_put_seq_len; [lia|lia|]. wp_auto. apply wp_fill_dummy; [lia|nia|].
  assert (∀ (a : list Z) k, a ++ replicate (S k) 0 = (a ++ [0]) ++ replicate k 0) as Hrep.
  { intros a k. by rewrite <- app_assoc. }
  apply IH; try done; zlen; try lia.
  { unfold zlen at 2. rewrite length_replicate. lia. }
  change (S n * Z.to_nat (mbps o))%nat with (Z.to_nat (mbps o) + n * Z.to_nat (mbps o))%nat in HQ.
  rewrite !Hrep, replicate_add, (app_assoc t) in HQ. exact HQ.
Qed.

(** The row count covers the batch and stays within [max_batch]. *)
Lemma SelectBucket_range n :
  let b := SelectBucket n (buckets o) in b = -1 ∨ (n <= b <= x_max_batch o ∧ 1 <= b).
Proof using Hbatch.
  cbn zeta. unfold SelectBucket. destruct (Z.leb_spec n 0); [by left|].
  destruct (List.find _ _) as [b|] eqn:Hf; [right|by left]. cbn.
  apply find_some in Hf as [Hin Hle%Z.leb_le]. apply list_elem_of_In in Hin.
  unfold buckets, MakeDecodeBuckets in Hin. apply list_elem_of_filter in Hin as [? Hin]. lia.
Qed.

Lemma decode_rows_range live pad :
  0 <= live <= x_max_batch o → (0 < pad → live <= pad <= x_max_batch o) →
  live <= decode_rows o live pad <= x_max_batch o.
Proof using Hbatch.
  intros Hl Hp. unfold decode_rows. destruct (Z.ltb_spec 0 pad); [auto|].
  destruct (_ && _); [|lia]. set (want := Z.max live _).
  destruct (SelectBucket_range want) as [Heq|Hr]; cbn zeta in *.
  - rewrite Heq. cbn. lia.
  - destruct (Z.ltb_spec 0 (SelectBucket want (buckets o))); [|lia]. unfold want in *. lia.
Qed.

Lemma BucketForRows_bucket b : b ∈ buckets o → BucketForRows o b = b.
Proof using.
  clear Hwidth Hbatch.
  intros Hb. unfold BucketForRows. destruct (List.find _ _) as [x|] eqn:Hf.
  - apply find_some in Hf as [_ ->%Z.eqb_eq]. done.
  - pose proof (List.find_none _ _ Hf b ltac:(by apply list_elem_of_In)) as Hn. cbn in Hn. by rewrite Z.eqb_refl in Hn.
Qed.

(** The rows an eager step runs at, said without the search: its own, unless
    padding is on and a bucket holds them; then the smallest bucket that holds
    them and the padding target, or the largest bucket when the target exceeds
    every one. *)
Record eager_rows (live rows : Z) : Prop := {
  er_off : pad_eager_to_bucket o <= 0 → rows = live;
  er_above : (∀ b, b ∈ buckets o → b < live) → rows = live;
  er_padded b : 0 < pad_eager_to_bucket o → b ∈ buckets o → live <= b →
    rows ∈ buckets o ∧ live <= rows ∧
    (pad_eager_to_bucket o <= rows ∨ ∀ b', b' ∈ buckets o → b' <= rows) ∧
    ∀ b', b' ∈ buckets o → live <= b' → pad_eager_to_bucket o <= b' → rows <= b';
}.

Lemma sorted_filter (P : Z → Prop) `{!∀ x, Decision (P x)} l : StronglySorted Z.le l → StronglySorted Z.le (filter P l).
Proof using.
  clear. induction 1 as [|x l Hs IH Hx]; [constructor|]. rewrite filter_cons. case_decide; [|done].
  constructor; [done|]. apply Forall_forall. intros y [_ Hy]%list_elem_of_filter. by apply (proj1 (Forall_forall _ _) Hx).
Qed.

Lemma buckets_sorted : StronglySorted Z.le (buckets o).
Proof using. clear Hwidth Hbatch. apply sorted_filter. unfold kLadder. repeat constructor; lia. Qed.

Lemma buckets_back b : b ∈ buckets o → ∃ l, back (buckets o) = Some l ∧ l ∈ buckets o ∧ ∀ b', b' ∈ buckets o → b' <= l.
Proof using.
  clear Hwidth Hbatch.
  intros Hb. pose proof buckets_sorted as Hs. destruct (back_is_Some (buckets o)) as [l Hl]; [by intros Hn; rewrite Hn in Hb; apply not_elem_of_nil in Hb|].
  exists l. split; [done|]. apply back_Some in Hl. rewrite Hl in Hs |- *. split; [set_solver|].
  intros b' [Hin| ->%list_elem_of_singleton]%elem_of_app; [|done].
  eapply StronglySorted_app_1_elem_of; [exact Hs|done|set_solver].
Qed.

Lemma SelectBucket_smallest n b : 1 <= n → b ∈ buckets o → n <= b →
  let s := SelectBucket n (buckets o) in s ∈ buckets o ∧ n <= s ∧ s <= b.
Proof using.
  clear Hwidth Hbatch.
  cbn zeta. intros Hn Hb Hnb. unfold SelectBucket. destruct (Z.leb_spec n 0); [lia|].
  pose proof buckets_sorted as Hs. induction Hs as [|x l Hs IH Hx]; [by apply not_elem_of_nil in Hb|]. cbn [List.find].
  destruct (Z.leb_spec n x).
  - cbn. split_and!; [apply list_elem_of_here|done|]. apply elem_of_cons in Hb as [->|Hb]; [done|].
    by apply (proj1 (Forall_forall _ _) Hx).
  - apply elem_of_cons in Hb as [->|Hb]; [lia|]. destruct (IH Hb) as (? & ? & ?). split_and!; try done. by apply list_elem_of_further.
Qed.

Lemma decode_rows_eager live : 1 <= live → eager_rows live (decode_rows o live 0).
Proof using.
  clear Hwidth Hbatch.
  intros Hl. unfold decode_rows. destruct (Z.ltb_spec 0 0); [lia|].
  destruct (Z.ltb_spec 0 (pad_eager_to_bucket o)) as [Hp|Hp]; cbn [andb]; [|split; [done|done|lia]].
  destruct (is_nil (buckets o)) eqn:Hnil; cbn [negb].
  { apply is_nil_true in Hnil. split; [lia|done|]. rewrite Hnil. by intros b _ Hb%not_elem_of_nil. }
  destruct (buckets o) as [|b0 bs] eqn:Heq; [done|]. rewrite <- Heq in *.
  destruct (buckets_back b0) as (l & Hbk & Hlin & Hmax); [rewrite Heq; apply list_elem_of_here|]. rewrite Hbk. unfold default, Datatypes.id.
  set (want := Z.max live (Z.min (pad_eager_to_bucket o) l)).
  destruct (Z.le_gt_cases live l) as [Hle|Hgt].
  - destruct (SelectBucket_smallest want l ltac:(lia) Hlin ltac:(lia)) as (Hin & Hge & _).
    assert (0 <? SelectBucket want (buckets o) = true) as -> by (apply Z.ltb_lt; lia).
    split; [lia|intros Hall; specialize (Hall l Hlin); lia|]. intros b _ _ _. split_and!; [done|lia| |].
    + destruct (Z.le_gt_cases (pad_eager_to_bucket o) l); [left; lia|right]. intros b' Hb'. specialize (Hmax b' Hb'). lia.
    + intros b' Hb' H1 H2. by destruct (SelectBucket_smallest want b' ltac:(lia) Hb' ltac:(lia)) as (_ & _ & ?).
  - assert (SelectBucket want (buckets o) = -1) as ->.
    { unfold SelectBucket. destruct (want <=? 0); [reflexivity|]. destruct (List.find _ _) as [x|] eqn:Hf; [exfalso|reflexivity].
      apply find_some in Hf as [Hin%list_elem_of_In Hx%Z.leb_le]. specialize (Hmax x Hin). lia. }
    cbn. split; [done|done|]. intros b _ Hb Hlb. specialize (Hmax b Hb). lia.
Qed.

(** The mirrors after a decode fill at [rows] rows. *)
Definition decode_mirrors (batch : list Request) (rows : Z) (m0 : Mirrors) : Mirrors :=
  let pad := Z.to_nat (rows - zlen batch) in
  mkMirrors (over (map last_token batch ++ replicate pad 0) (h_input_ids m0))
    (over (map (λ r, seq_len r - 1) batch ++ replicate pad 0) (h_positions m0))
    (over (map seq_len batch ++ replicate pad 0) (h_seq_lens m0))
    (over (tables_of batch ++ replicate (pad * Z.to_nat (mbps o)) 0) (h_block_tables m0))
    (h_argmax m0).

Lemma zlen_tables_of batch :
  Forall (λ r, ∃ tok, row_ok r tok) batch → zlen (tables_of batch) = zlen batch * mbps o.
Proof.
  unfold tables_of. induction 1 as [|r batch [tok Hr] _ IH]; [done|]. cbn [map concat]. zlen.
  rewrite IH, zlen_table_row by apply Hr. lia.
Qed.

Lemma zlen_map {B} (f : Request → B) l : zlen (map f l) = zlen l.
Proof. unfold zlen. by rewrite length_map. Qed.

Lemma wp_FillDecodeMirrors batch pad m0 (Q : Z → Mirrors → Prop) :
  mirrors_sized m0 → zlen batch <= x_max_batch o → (0 < pad → zlen batch <= pad <= x_max_batch o) →
  Forall (λ r, ∃ tok, row_ok r tok) batch →
  Q (decode_rows o (zlen batch) pad) (decode_mirrors batch (decode_rows o (zlen batch) pad) m0) →
  wp (FillDecodeMirrors c o num_kv_blocks_ batch pad) Q m0.
Proof using Hwidth Hbatch.
  intros Hm Hb Hp Hok HQ. pose proof (zlen_nonneg batch).
  assert (to_int32 (zlen batch) = zlen batch) as H32.
  { apply to_int32_id. unfold int32_ok, int32_max in *. lia. }
  unfold FillDecodeMirrors. rewrite H32. wp_auto.
  assert (∀ (Q' : () → Mirrors → Prop), Q' () m0 → wp (if 0 <? pad then assert "pad_to_rows >= live && pad_to_rows <= max_batch"
          ((zlen batch <=? pad) && (pad <=? x_max_batch o)) else mret ()) Q' m0) as Hassert.
  { intros Q' HQ'. destruct (Z.ltb_spec 0 pad); [apply wp_assert_; [zbool; lia|done]|by apply wp_ret]. }
  apply Hassert. wp_auto.
  pose proof (decode_rows_range (zlen batch) pad ltac:(lia) Hp) as Hrows.
  set (rows := decode_rows o (zlen batch) pad) in *.
  rewrite <- (state4_nil m0) at 1. apply wp_fill_live_rows; try done.
  cbn [app]. wp_auto. apply wp_fill_padded_rows; try done; rewrite ?zlen_map; try done.
  - by apply zlen_tables_of.
  - lia.
Qed.

(** ** Prefill *)

Record chunk_ok (r : Request) (cb ce : Z) : Prop := {
  ck_slice : 0 <= cb < ce ∧ ce <= num_prompt_tokens r ∧ num_prompt_tokens r = zlen (prompt_tokens r);
  ck_rows : ce - cb <= x_prefill_chunk_tokens o;
  ck_seq : ce <= x_max_seq_len o;
  ck_cover : BlocksForTokens ce <= zlen (blocks_ (block_table r));
  ck_width : zlen (blocks_ (block_table r)) <= mbps o;
  ck_vocab : Forall (λ t, 0 <= t < vocab_size c) (prompt_tokens r);
  ck_blocks : blocks_valid (blocks_ (block_table r));
}.

(** The chunk's tokens. *)
Definition chunk (r : Request) (cb ce : Z) : list Z :=
  take (Z.to_nat (ce - cb)) (drop (Z.to_nat cb) (prompt_tokens r)).

Lemma wp_fill_chunk n : ∀ i cb ce r ids p l t m0 Q,
  mirrors_sized m0 → chunk_ok r cb ce → i = zlen ids → zlen p = zlen ids → cb + i + Z.of_nat n = ce →
  Q () (state4 (ids ++ take n (drop (Z.to_nat (cb + i)) (prompt_tokens r)))
          (p ++ seqZ (cb + i) (Z.of_nat n)) l t m0) →
  wp (fill_chunk c i cb r n) Q (state4 ids p l t m0).
Proof.
  induction n as [|n IH]; intros i cb ce r ids p l t m0 Q Hm Hck Hi Hp Hn HQ; cbn [fill_chunk].
  { apply wp_ret. cbn in HQ. by rewrite !app_nil_r in HQ. }
  pose proof Hm as [Hm1 Hm2 _ _]. pose proof Hck as [(? & ? & Hlen) ? ? ? ? Hv ?].
  pose proof (zlen_nonneg ids). unfold step_rows in *.
  destruct (lookup_lt_is_Some_2 (prompt_tokens r) (Z.to_nat (cb + i))) as [tok Htok]; [unfold zlen in *; lia|].
  pose proof (proj1 (Forall_lookup _ _) Hv _ _ Htok) as Htv. cbn in Htv.
  wp_auto. eapply wp_from_option; [done|]. wp_auto. apply wp_check_not; [zbool; lia|]. wp_auto.
  apply wp_put_id; [done|lia|]. wp_auto. apply wp_put_position; [lia|lia|].
  apply (IH (i + 1) cb ce); [done|done|zlen; lia|zlen; lia|lia|].
  rewrite (drop_S _ _ _ Htok) in HQ. cbn [take] in HQ. rewrite seqZ_cons in HQ by lia.
  rewrite <- !app_assoc. cbn [app]. replace (Z.to_nat (cb + (i + 1))) with (S (Z.to_nat (cb + i))) by lia.
  replace (cb + (i + 1)) with (Z.succ (cb + i)) by lia.
  replace (Z.pred (Z.of_nat (S n))) with (Z.of_nat n) in HQ by lia. exact HQ.
Qed.

(** The mirrors after a prefill fill: [seq_lens] is untouched. *)
Definition prefill_mirrors (r : Request) (cb ce : Z) (m0 : Mirrors) : Mirrors :=
  mkMirrors (over (chunk r cb ce) (h_input_ids m0)) (over (seqZ cb (ce - cb)) (h_positions m0))
    (h_seq_lens m0) (over (table_row (blocks_ (block_table r))) (h_block_tables m0)) (h_argmax m0).

Lemma wp_FillPrefillMirrors r cb ce m0 (Q : Z → Mirrors → Prop) :
  mirrors_sized m0 → chunk_ok r cb ce → Q (ce - cb) (prefill_mirrors r cb ce m0) →
  wp (FillPrefillMirrors c o num_kv_blocks_ r cb ce) Q m0.
Proof using Hwidth Hbatch.
  intros Hm Hck HQ. pose proof Hck as [(? & ? & Hlen) ? ? ? Hw Hv Hb]. pose proof Hm as [_ _ _ Hm4].
  pose proof (zlen_nonneg (blocks_ (block_table r))).
  assert (to_int32 (zlen (blocks_ (block_table r))) = zlen (blocks_ (block_table r))) as H32.
  { apply to_int32_id. unfold int32_ok, int32_max in *. lia. }
  unfold FillPrefillMirrors. rewrite H32. wp_auto. apply wp_check_not; [zbool; lia|]. wp_auto.
  apply wp_check_not; [zbool; lia|]. wp_auto. apply wp_check_not; [zbool; lia|]. wp_auto.
  apply wp_check_not; [zbool; lia|]. wp_auto. apply wp_check_not; [zbool; lia|]. wp_auto.
  rewrite <- (state4_nil m0) at 1. apply (wp_fill_chunk _ 0 cb ce); [done|done|done|done|lia|].
  wp_auto. apply wp_write_table_row; [done|done| |done|].
  { unfold table_elems in Hm4. change (max_blocks_per_seq o) with (mbps o) in Hm4.
    change (zlen (@nil Z)) with 0. nia. }
  wp_auto. unfold state4. cbn [app]. rewrite Z.add_0_r. unfold prefill_mirrors, chunk in HQ.
  rewrite Z2Nat.id by lia. exact HQ.
Qed.

End specs.

(** ** The arrays entry by entry *)

Lemma over_lookup d old i x : d !! i = Some x → over d old !! i = Some x.
Proof. intros Hi. unfold over. by rewrite lookup_app_l by (by eapply lookup_lt_Some). Qed.

Lemma over_lookup_ge d old i : (length d <= i)%nat → over d old !! i = old !! i.
Proof.
  intros Hi. unfold over. rewrite lookup_app_r, lookup_drop by done. f_equal. lia.
Qed.

(** Entry [j] of row [i] of a table stored row after row. *)
Lemma concat_lookup {X} n (rows : list (list X)) i j row :
  Forall (λ l, length l = n) rows → rows !! i = Some row → (j < n)%nat →
  concat rows !! (i * n + j)%nat = row !! j.
Proof.
  intros Hall. revert i. induction Hall as [|l rows Hl Hall IH]; intros i Hi Hj; [done|].
  destruct i as [|i]; cbn in Hi |- *.
  - injection Hi as ->. rewrite lookup_app_l by lia. done.
  - rewrite lookup_app_r by lia. rewrite <- (IH i) by done. f_equal. lia.
Qed.

Lemma length_concat_rows {X} n (rows : list (list X)) :
  Forall (λ l, length l = n) rows → length (concat rows) = (length rows * n)%nat.
Proof. induction 1 as [|l rows Hl _ IH]; [done|]. cbn. rewrite length_app. lia. Qed.

Section contents.
Context (c : ModelConfig) (o : ExecutorOptions) (num_kv_blocks_ : Z).

(** A table row entry: the block of that position, or the dummy. *)
Definition table_entry (r : Request) (j : nat) : Z :=
  default kDummyBlockId (blocks_ (block_table r) !! j).

Lemma table_row_lookup r (j : nat) :
  zlen (blocks_ (block_table r)) <= mbps o → Z.of_nat j < mbps o →
  table_row o (blocks_ (block_table r)) !! j = Some (table_entry r j).
Proof.
  intros Hw Hj. unfold table_row, table_entry, zlen in *.
  destruct (blocks_ (block_table r) !! j) as [b|] eqn:Hb.
  - by apply lookup_app_l_Some.
  - apply lookup_ge_None in Hb. rewrite lookup_app_r by lia.
    rewrite lookup_replicate_2 by lia. done.
Qed.

Definition tables_wide (batch : list Request) : Prop :=
  Forall (λ r, zlen (blocks_ (block_table r)) <= mbps o) batch.

Lemma rows_wide batch : Forall (λ r, ∃ tok, row_ok c o num_kv_blocks_ r tok) batch → tables_wide batch.
Proof. intros H. eapply Forall_impl; [done|]. intros r [tok Hr]. apply Hr. Qed.

Lemma tables_of_rows batch :
  tables_wide batch →
  Forall (λ l, length l = Z.to_nat (mbps o)) (map (λ r, table_row o (blocks_ (block_table r))) batch).
Proof.
  intros Hw. apply Forall_forall. intros l Hl. apply list_elem_of_fmap in Hl as (r & -> & Hr).
  pose proof (proj1 (Forall_forall _ _) Hw r Hr) as Hwr. cbn in Hwr. pose proof (zlen_table_row o _ Hwr).
  unfold zlen in *. lia.
Qed.

Lemma tables_of_lookup batch (i j : nat) r :
  tables_wide batch → batch !! i = Some r → Z.of_nat j < mbps o →
  tables_of o batch !! (i * Z.to_nat (mbps o) + j)%nat = Some (table_entry r j).
Proof.
  intros Hw Hi Hj. unfold tables_of. erewrite (concat_lookup (Z.to_nat (mbps o))).
  - apply table_row_lookup; [|done]. exact (proj1 (Forall_lookup _ _) Hw i r Hi).
  - by apply tables_of_rows.
  - rewrite list_lookup_fmap, Hi. done.
  - lia.
Qed.

(** One live row of the four arrays. *)
Definition live_row (m : Mirrors) (i : nat) (r : Request) : Prop :=
  h_input_ids m !! i = back (output_tokens r) ∧
  h_positions m !! i = Some (seq_len r - 1) ∧
  h_seq_lens m !! i = Some (seq_len r) ∧
  ∀ j : nat, Z.of_nat j < mbps o →
    h_block_tables m !! (i * Z.to_nat (mbps o) + j)%nat = Some (table_entry r j).

(** One padding row: nothing of it reaches a real block. *)
Definition padded_row (m : Mirrors) (i : nat) : Prop :=
  h_input_ids m !! i = Some 0 ∧ h_positions m !! i = Some 0 ∧ h_seq_lens m !! i = Some 0 ∧
  ∀ j : nat, Z.of_nat j < mbps o →
    h_block_tables m !! (i * Z.to_nat (mbps o) + j)%nat = Some kDummyBlockId.

Lemma decode_mirrors_live batch rows m0 i r :
  Forall (λ r, ∃ tok, row_ok c o num_kv_blocks_ r tok) batch → batch !! i = Some r →
  live_row (decode_mirrors o batch rows m0) i r.
Proof.
  intros Hok Hi. destruct (proj1 (Forall_lookup _ _) Hok i r Hi) as [tok Hr].
  unfold live_row, decode_mirrors. cbn.
  assert (∀ (f : Request → Z) tl old, over (map f batch ++ tl) old !! i = Some (f r)) as Hmap.
  { intros f tl old. apply over_lookup, lookup_app_l_Some. rewrite list_lookup_fmap, Hi. done. }
  rewrite !Hmap. split_and!; [|done|done|].
  - unfold last_token. by rewrite (rk_token _ _ _ _ _ Hr).
  - intros j Hj. apply over_lookup, lookup_app_l_Some. apply tables_of_lookup; [by apply rows_wide|done..].
Qed.

Lemma decode_mirrors_padded batch rows m0 (i : nat) :
  0 <= mbps o → Forall (λ r, ∃ tok, row_ok c o num_kv_blocks_ r tok) batch →
  zlen batch <= Z.of_nat i < rows → padded_row (decode_mirrors o batch rows m0) i.
Proof.
  intros Hmb Hok Hi. unfold padded_row, decode_mirrors. cbn.
  assert (∀ (f : Request → Z) old, over (map f batch ++ replicate (Z.to_nat (rows - zlen batch)) 0) old !! i = Some 0) as Hmap.
  { intros f old. apply over_lookup. unfold zlen in *. rewrite lookup_app_r by (rewrite length_map; lia).
    apply lookup_replicate_2. rewrite length_map. lia. }
  rewrite !Hmap. split_and!; [done..|]. intros j Hj. apply over_lookup.
  assert (length (tables_of o batch) = (length batch * Z.to_nat (mbps o))%nat) as Hlen.
  { unfold tables_of. rewrite (length_concat_rows (Z.to_nat (mbps o))), length_map; [done|].
    apply tables_of_rows. by apply rows_wide. }
  unfold zlen in *. rewrite lookup_app_r by (rewrite Hlen; nia).
  apply lookup_replicate_2. rewrite Hlen. nia.
Qed.

End contents.

(** ** The fills *)

Definition mirror_geometry (o : ExecutorOptions) : Prop :=
  0 <= mbps o <= int32_max ∧ 1 <= x_max_batch o <= int32_max.

(** Filling the decode inputs of a batch of acceptable rows succeeds with a
    row count between the batch and [max_batch].  Row by row the arrays then
    hold the last sampled token, its position, the sequence length and the
    request's block table; every padding row up to the row count is token 0 at
    length 0 over the dummy block, so it touches no live block; nothing beyond
    the filled rows is written and no store leaves its array. *)
Theorem decode_mirror_contents c o nkv batch pad m0 :
  mirror_geometry o → mirrors_sized o m0 → zlen batch <= x_max_batch o →
  (0 < pad → zlen batch <= pad <= x_max_batch o) →
  Forall (λ r, ∃ tok, row_ok c o nkv r tok) batch →
  ∃ rows m1, FillDecodeMirrors c o nkv batch pad m0 = (Ok rows, m1) ∧
    zlen batch <= rows <= x_max_batch o ∧ (0 < pad → rows = pad) ∧
    (∀ i r, batch !! i = Some r → live_row o m1 i r) ∧
    (∀ i : nat, zlen batch <= Z.of_nat i < rows → padded_row o m1 i) ∧
    (∀ i : nat, rows <= Z.of_nat i → h_input_ids m1 !! i = h_input_ids m0 !! i).
Proof.
  intros [Hmb Hb] Hm Hn Hp Hok.
  pose proof (decode_rows_range o Hb (zlen batch) pad ltac:(pose proof (zlen_nonneg batch); lia) Hp) as Hr.
  set (rows := decode_rows o (zlen batch) pad) in *.
  assert (wp (FillDecodeMirrors c o nkv batch pad)
            (λ rs m1, rs = rows ∧ m1 = decode_mirrors o batch rows m0) m0) as Hwp
    by (by apply wp_FillDecodeMirrors).
  apply wp_run in Hwp as (rs & m1 & Heq & -> & ->). exists rows. eexists.
  split_and!; [exact Heq|lia|lia| | | |].
  - intros Hpos. unfold rows, decode_rows. by destruct (Z.ltb_spec 0 pad); [|lia].
  - intros i r. by apply (decode_mirrors_live c o nkv).
  - intros i Hi. apply (decode_mirrors_padded c o nkv); [lia|done|done].
  - intros i Hi. cbn. apply over_lookup_ge. unfold zlen in *.
    rewrite length_app, length_map, length_replicate. lia.
Qed.

(** Filling the inputs of a prefill chunk succeeds and writes exactly the
    prompt's tokens and positions [chunk_begin .. chunk_end - 1] and the
    request's block table, padded with the dummy block. *)
Theorem prefill_mirror_contents c o nkv r cb ce m0 :
  mirror_geometry o → mirrors_sized o m0 → chunk_ok c o nkv r cb ce →
  ∃ m1, FillPrefillMirrors c o nkv r cb ce m0 = (Ok (ce - cb), m1) ∧
    (∀ i : nat, Z.of_nat i < ce - cb →
       h_input_ids m1 !! i = prompt_tokens r !! (Z.to_nat cb + i)%nat ∧
       h_positions m1 !! i = Some (cb + Z.of_nat i)) ∧
    (∀ j : nat, Z.of_nat j < mbps o → h_block_tables m1 !! j = Some (table_entry r j)) ∧
    h_seq_lens m1 = h_seq_lens m0.
Proof.
  intros [Hmb Hb] Hm Hck.
  assert (wp (FillPrefillMirrors c o nkv r cb ce)
            (λ rs m1, rs = ce - cb ∧ m1 = prefill_mirrors o r cb ce m0) m0) as Hwp
    by (by apply wp_FillPrefillMirrors).
  apply wp_run in Hwp as (rs & m1 & Heq & -> & ->). eexists. split; [exact Heq|].
  pose proof Hck as [(Hcb & Hce & Hlen) _ _ _ Hw _ _]. split_and!; [| |done].
  - intros i Hi. cbn. split.
    + assert (i < length (chunk r cb ce))%nat as Hlt.
      { unfold chunk. rewrite length_take, length_drop. unfold zlen in *. lia. }
      destruct (lookup_lt_is_Some_2 _ _ Hlt) as [x Hx]. rewrite (over_lookup _ _ _ _ Hx).
      unfold chunk in Hx. rewrite lookup_take_lt in Hx by lia. by rewrite lookup_drop in Hx.
    + apply over_lookup. rewrite lookup_seqZ_lt by lia. done.
  - intros j Hj. cbn. apply over_lookup. by apply table_row_lookup.
Qed.

(** Concrete inputs: two sequences of 20 and 3 tokens, four-row mirrors. *)
Module MirrorExample.

Definition opts : ExecutorOptions := mkExecutorOptions 0 4 64 8 true 0 "".

Definition seq_a : Request :=
  set_block_table (mkBlockTable [3; 1])
    (set_output_tokens [7; 9] (new_request 1 (seqZ 100 18) 10 false [])).
Definition seq_b : Request :=
  set_block_table (mkBlockTable [5])
    (set_output_tokens [11] (new_request 2 [40; 41] 10 false [])).

Definition blank : Mirrors :=
  mkMirrors (replicate 8 (-1)) (replicate 8 (-1)) (replicate 4 (-1)) (replicate 16 (-1)) (replicate 4 (-1)).

End MirrorExample.

Lemma seq_rows_ok :
  Forall (λ r, ∃ tok, row_ok qwen25 MirrorExample.opts 8 r tok) [MirrorExample.seq_a; MirrorExample.seq_b].
Proof.
  repeat constructor; [exists 9|exists 11]; (split; try done; apply (bool_decide_eq_true_1 _); by vm_compute).
Qed.

Lemma decode_mirror_contents_witness :
  let o := MirrorExample.opts in
  let batch := [MirrorExample.seq_a; MirrorExample.seq_b] in
  (mirror_geometry o ∧ mirrors_sized o MirrorExample.blank ∧ zlen batch <= x_max_batch o) ∧
  ∃ rows m1, FillDecodeMirrors qwen25 o 8 batch 4 MirrorExample.blank = (Ok rows, m1) ∧
    zlen batch <= rows <= x_max_batch o ∧ (0 < 4 → rows = 4) ∧
    (∀ i r, batch !! i = Some r → live_row o m1 i r) ∧
    (∀ i : nat, zlen batch <= Z.of_nat i < rows → padded_row o m1 i) ∧
    (∀ i : nat, rows <= Z.of_nat i → h_input_ids m1 !! i = h_input_ids MirrorExample.blank !! i).
Proof.
  split; [by vm_compute|].
  apply (decode_mirror_contents qwen25 MirrorExample.opts 8
    [MirrorExample.seq_a; MirrorExample.seq_b] 4 MirrorExample.blank);
    [by vm_compute|by vm_compute|by vm_compute|by vm_compute|apply seq_rows_ok].
Defined.

Lemma prefill_mirror_contents_witness :
  let o := MirrorExample.opts in
  let r := MirrorExample.seq_a in
  chunk_ok qwen25 o 8 r 8 16 ∧
  ∃ m1, FillPrefillMirrors qwen25 o 8 r 8 16 MirrorExample.blank = (Ok (16 - 8), m1) ∧
    (∀ i : nat, Z.of_nat i < 16 - 8 →
       h_input_ids m1 !! i = prompt_tokens r !! (Z.to_nat 8 + i)%nat ∧
       h_positions m1 !! i = Some (8 + Z.of_nat i)) ∧
    (∀ j : nat, Z.of_nat j < mbps o → h_block_tables m1 !! j = Some (table_entry r j)) ∧
    h_seq_lens m1 = h_seq_lens MirrorExample.blank.
Proof.
  assert (chunk_ok qwen25 MirrorExample.opts 8 MirrorExample.seq_a 8 16) as Hck.
  { split; try done; apply (bool_decide_eq_true_1 _); by vm_compute. }
  split; [done|].
  apply (prefill_mirror_contents qwen25 MirrorExample.opts 8 MirrorExample.seq_a 8 16 MirrorExample.blank);
    [by vm_compute|by vm_compute|done].
Defined.
