(* ===== verification/Launches.v ===== *)
(** * The device work of a step ([core/model_executor.cpp])

    A step's device work is the list of launches its [Enqueue*] function issues,
    each with the pointers, strides and extents the code passes.  A pointer is
    a buffer and an element offset.  The elements a launch touches follow from
    its contract ([kernels/kernels.cuh], and the storage formulas of
    GemmConfig); the theorems show that every access stays inside its buffer and
    that nothing is read before the step has written or uploaded it. *)

From S2P Require Import Prelude Doubles Types ModelConfig GemmConfig ExecutorLayout.

Inductive buffer : Type :=
  | BX | BNormed | BQkv | BAttnOut | BGateup | BMlpOut | BLogits | BScores | BProbs | BKhat | BVhat
  | BInputIds | BPositions | BSeqLens | BBlockTables | BArgmax
  | BPool (layer : Z)
  | WEmbed | WInputNorm (layer : Z) | WPostNorm (layer : Z) | WFinalNorm | WLmHead
  | WQkv (layer : Z) | WQkvBias (layer : Z) | WO (layer : Z) | WGateup (layer : Z) | WDown (layer : Z).

#[export] Instance buffer_eq_dec : EqDecision buffer.
Proof. solve_decision. Defined.

Record ptr : Type := mkPtr { p_buf : buffer; p_off : Z }.

#[export] Instance ptr_eq_dec : EqDecision ptr.
Proof. solve_decision. Defined.
Definition at_base (b : buffer) : ptr := mkPtr b 0.
Definition shift (p : ptr) (n : Z) : ptr := mkPtr (p_buf p) (p_off p + n).

(** The wrapper's run methods. *)
Inductive GemmMethod : Type := mGemmFp16 | mGemmBiasFp16 | mGemmStridedBatched_float | mGemmStridedBatched_half.

#[export] Instance GemmMethod_eq_dec : EqDecision GemmMethod.
Proof. solve_decision. Defined.

(** Scalar constants (epsilon, the RoPE base, the attention scale) are the same
    in every step and are left out. *)
Inductive launch : Type :=
  | EmbedGather (out : ptr) (out_row_stride : Z) (embed input_ids : ptr) (num_tokens hidden : Z)
  | RmsNorm (out input weight : ptr) (num_tokens hidden : Z)
  | RmsNormResidual (out residual input weight : ptr) (num_tokens hidden : Z)
  | RopeInplace (q k : ptr) (q_row_stride k_row_stride : Z) (positions : ptr)
      (num_tokens num_q_heads num_kv_heads head_dim : Z)
  | KvScatter (pool k v : ptr) (k_row_stride v_row_stride : Z) (block_tables : ptr)
      (block_table_row_stride : Z) (positions : ptr) (num_tokens num_kv_heads head_dim : Z)
  | KvGather (khat vhat : ptr) (head_stride row_stride : Z) (pool block_table_row : ptr)
      (ctx_len num_kv_heads head_dim : Z)
  | PagedAttentionDecode (out : ptr) (out_row_stride : Z) (q : ptr) (q_row_stride : Z) (pool block_tables
      seq_lens : ptr) (num_seqs max_blocks num_q_heads num_kv_heads head_dim : Z)
  | PrefillSoftmax (probs scores : ptr) (num_q_heads chunk_len kv_len chunk_start : Z)
  | SiluMul (out gate_up : ptr) (num_tokens intermediate : Z)
  | GreedyArgmax (out logits : ptr) (num_seqs vocab : Z)
  | Gemm (call : GemmMethod) (c : GemmConfig) (d a b : ptr) (bias : option ptr).

Inductive PrefillGemmMode : Type := kStridedBatched | kPerHead.

#[export] Instance PrefillGemmMode_eq_dec : EqDecision PrefillGemmMode.
Proof. solve_decision. Defined.

Section executor.
Context (cfg : ModelConfig) (o : ExecutorOptions).

Definition k_view_offset : Z := num_q_heads cfg * head_dim cfg.
Definition v_view_offset : Z := k_view_offset + num_kv_heads cfg * head_dim cfg.
Definition heads_per_group : Z := Z.quot (num_q_heads cfg) (num_kv_heads cfg).
Definition gather_plane_stride : Z := x_max_seq_len o * head_dim cfg.

(** [gemm_.GemmFp16] and [gemm_.GemmBiasFp16]: weights are operand A. *)
Definition LaunchGemm (out : ptr) (out_stride : Z) (act : ptr) (act_stride : Z) (weight : ptr)
    (rows out_features in_features : Z) : launch :=
  Gemm mGemmFp16 (Linear rows out_features in_features act_stride out_stride EpilogueNone) out weight act None.
Definition LaunchGemmBias (out : ptr) (out_stride : Z) (act : ptr) (act_stride : Z) (weight bias : ptr)
    (rows out_features in_features : Z) : launch :=
  Gemm mGemmBiasFp16 (Linear rows out_features in_features act_stride out_stride EpilogueBias) out weight act (Some bias).

Definition attention_input (layer rows : Z) (table_stride : Z) : list launch :=
  let hidden := hidden_size cfg in
  let qkv := at_base BQkv in
  [ (if layer =? 0
     then RmsNorm (at_base BNormed) (at_base BX) (at_base (WInputNorm 0)) rows hidden
     else RmsNormResidual (at_base BNormed) (at_base BX) (at_base BMlpOut) (at_base (WInputNorm layer)) rows hidden);
    LaunchGemmBias qkv (qkv_width cfg) (at_base BNormed) hidden (at_base (WQkv layer)) (at_base (WQkvBias layer))
      rows (qkv_width cfg) hidden;
    RopeInplace qkv (shift qkv k_view_offset) (qkv_width cfg) (qkv_width cfg) (at_base BPositions) rows
      (num_q_heads cfg) (num_kv_heads cfg) (head_dim cfg);
    KvScatter (at_base (BPool layer)) (shift qkv k_view_offset) (shift qkv v_view_offset) (qkv_width cfg)
      (qkv_width cfg) (at_base BBlockTables) table_stride (at_base BPositions) rows (num_kv_heads cfg) (head_dim cfg) ].

Definition block_tail (layer rows : Z) : list launch :=
  let hidden := hidden_size cfg in
  [ LaunchGemm (at_base BMlpOut) hidden (at_base BAttnOut) hidden (at_base (WO layer)) rows hidden hidden;
    RmsNormResidual (at_base BNormed) (at_base BX) (at_base BMlpOut) (at_base (WPostNorm layer)) rows hidden;
    LaunchGemm (at_base BGateup) (gateup_width cfg) (at_base BNormed) hidden (at_base (WGateup layer)) rows
      (gateup_width cfg) hidden;
    SiluMul (at_base BGateup) (at_base BGateup) rows (intermediate_size cfg);
    LaunchGemm (at_base BMlpOut) hidden (at_base BGateup) (gateup_width cfg) (at_base (WDown layer)) rows hidden
      (intermediate_size cfg) ].

(** ** Decode *)

Definition decode_layer (rows layer : Z) : list launch :=
  attention_input layer rows (max_blocks_per_seq o) ++
  [ PagedAttentionDecode (at_base BAttnOut) (hidden_size cfg) (at_base BQkv) (qkv_width cfg) (at_base (BPool layer))
      (at_base BBlockTables) (at_base BSeqLens) rows (max_blocks_per_seq o) (num_q_heads cfg) (num_kv_heads cfg)
      (head_dim cfg) ] ++
  block_tail layer rows.

Definition embed_launch (rows : Z) : launch :=
  EmbedGather (at_base BX) (hidden_size cfg) (at_base WEmbed) (at_base BInputIds) rows (hidden_size cfg).

Definition layers (f : Z → list launch) : list launch := concat (map f (seqZ 0 (num_layers cfg))).

Definition EnqueueDecodeForward (rows : Z) : list launch :=
  let hidden := hidden_size cfg in
  [embed_launch rows] ++ layers (decode_layer rows) ++
  [ RmsNormResidual (at_base BNormed) (at_base BX) (at_base BMlpOut) (at_base WFinalNorm) rows hidden;
    LaunchGemm (at_base BLogits) (vocab_size cfg) (at_base BNormed) hidden (at_base WLmHead) rows (vocab_size cfg) hidden ].

Definition EnqueueArgmax (rows : Z) : list launch :=
  [GreedyArgmax (at_base BArgmax) (at_base BLogits) rows (vocab_size cfg)].

(** ** Prefill *)

Definition scores_launch (c : GemmConfig) (rows ctx g h : Z) : launch :=
  Gemm mGemmStridedBatched_float c (shift (at_base BScores) (h * (rows * ctx))) (shift (at_base BKhat) (g * gather_plane_stride))
    (shift (at_base BQkv) (h * head_dim cfg)) None.

Definition pv_launch (c : GemmConfig) (rows ctx g h : Z) : launch :=
  Gemm mGemmStridedBatched_half c (shift (at_base BAttnOut) (h * head_dim cfg)) (shift (at_base BVhat) (g * gather_plane_stride))
    (shift (at_base BProbs) (h * (rows * ctx))) None.

(** One call per KV group in the batched form, one per query head otherwise. *)
Definition per_mode (mode : PrefillGemmMode) (call : Z → Z → Z → launch) : list launch :=
  match mode with
  | kStridedBatched => map (λ g, call heads_per_group g (g * heads_per_group)) (seqZ 0 (num_kv_heads cfg))
  | kPerHead => map (λ h, call 1 (Z.quot h heads_per_group) h) (seqZ 0 (num_q_heads cfg))
  end.

Definition EnqueuePrefillAttention (layer rows chunk_start ctx : Z) (mode : PrefillGemmMode) : list launch :=
  let hd := head_dim cfg in
  [ KvGather (at_base BKhat) (at_base BVhat) gather_plane_stride hd (at_base (BPool layer)) (at_base BBlockTables)
      ctx (num_kv_heads cfg) hd ] ++
  per_mode mode (λ heads g h, scores_launch (PrefillScores rows ctx hd heads (qkv_width cfg)) rows ctx g h) ++
  [ PrefillSoftmax (at_base BProbs) (at_base BScores) (num_q_heads cfg) rows ctx chunk_start ] ++
  per_mode mode (λ heads g h, pv_launch (PrefillPv rows ctx hd heads (hidden_size cfg)) rows ctx g h).

Definition prefill_layer (rows chunk_start ctx : Z) (mode : PrefillGemmMode) (layer : Z) : list launch :=
  attention_input layer rows 0 ++ EnqueuePrefillAttention layer rows chunk_start ctx mode ++ block_tail layer rows.

Definition EnqueuePrefillForward (rows chunk_start ctx : Z) (final_chunk : bool) (mode : PrefillGemmMode) : list launch :=
  let hidden := hidden_size cfg in
  let last_row := (rows - 1) * hidden in
  [embed_launch rows] ++ layers (prefill_layer rows chunk_start ctx mode) ++
  if final_chunk then
    [ RmsNormResidual (shift (at_base BNormed) last_row) (shift (at_base BX) last_row) (shift (at_base BMlpOut) last_row)
        (at_base WFinalNorm) 1 hidden;
      LaunchGemm (at_base BLogits) (vocab_size cfg) (shift (at_base BNormed) last_row) hidden (at_base WLmHead) 1
        (vocab_size cfg) hidden ]
  else [].

(** ** Input uploads: buffer and element count of each copy *)

Definition UploadDecodeInputs (rows : Z) : list (buffer * Z) :=
  [(BInputIds, rows); (BPositions, rows); (BSeqLens, rows); (BBlockTables, rows * max_blocks_per_seq o)].

Definition UploadPrefillInputs (rows : Z) : list (buffer * Z) :=
  [(BInputIds, rows); (BPositions, rows); (BBlockTables, max_blocks_per_seq o)].

End executor.

(** ** What a launch touches

    A strided box: the elements [base + i1 * s1 + ... + ik * sk] with
    [0 <= ij < cj].  Accesses whose index depends on device data (the embedding
    row, the pool slot) are boxes over everything that index may select. *)

Record access : Type := mkAccess { a_buf : buffer; a_base : Z; a_dims : list (Z * Z) }.

Definition box (p : ptr) (dims : list (Z * Z)) : access := mkAccess (p_buf p) (p_off p) dims.

(** The largest offset of a box with non-negative strides. *)
Definition box_max (dims : list (Z * Z)) : Z := sumZ (map (λ d, (fst d - 1) * snd d) dims).

Definition in_bounds (capacity : buffer → Z) (a : access) : Prop :=
  Forall (λ d, 1 <= fst d ∧ 0 <= snd d) (a_dims a) ∧
  0 <= a_base a ∧ a_base a + box_max (a_dims a) < capacity (a_buf a).

Definition gemm_a_box (c : GemmConfig) : list (Z * Z) := [(batch c, stride_a c); (stored_cols_a c, lda c); (stored_rows_a c, 1)].
Definition gemm_b_box (c : GemmConfig) : list (Z * Z) := [(batch c, stride_b c); (stored_cols_b c, ldb c); (stored_rows_b c, 1)].
Definition gemm_d_box (c : GemmConfig) : list (Z * Z) := [(batch c, stride_d c); (g_n c, ldd c); (g_m c, 1)].

Section accesses.
Context (vocab pool_elems max_blocks : Z).

Definition reads (l : launch) : list access :=
  match l with
  | EmbedGather out os embed ids n hidden => [box ids [(n, 1)]; box embed [(vocab, hidden); (hidden, 1)]]
  | RmsNorm out inp w n hidden => [box inp [(n, hidden); (hidden, 1)]; box w [(hidden, 1)]]
  | RmsNormResidual out res inp w n hidden =>
      [box res [(n, hidden); (hidden, 1)]; box inp [(n, hidden); (hidden, 1)]; box w [(hidden, 1)]]
  | RopeInplace q k qs ks pos n nq nkv hd =>
      [box q [(n, qs); (nq * hd, 1)]; box k [(n, ks); (nkv * hd, 1)]; box pos [(n, 1)]]
  | KvScatter pool k v ks vs tab ts pos n nkv hd =>
      [box k [(n, ks); (nkv * hd, 1)]; box v [(n, vs); (nkv * hd, 1)]; box tab [(n, ts); (max_blocks, 1)]; box pos [(n, 1)]]
  | KvGather kh vh hs rs pool tab ctx nkv hd =>
      [box pool [(pool_elems, 1)]; box tab [(BlocksForTokens ctx, 1)]]
  | PagedAttentionDecode out os q qs pool tab lens n mb nq nkv hd =>
      [box q [(n, qs); (nq * hd, 1)]; box pool [(pool_elems, 1)]; box tab [(n, mb); (mb, 1)]; box lens [(n, 1)]]
  | PrefillSoftmax probs scores nq n ctx start => [box scores [(nq, n * ctx); (n, ctx); (ctx, 1)]]
  | SiluMul out gu n inter => [box gu [(n, 2 * inter); (2 * inter, 1)]]
  | GreedyArgmax out logits n v => [box logits [(n, v); (v, 1)]]
  | Gemm _ c d a b bias =>
      [box a (gemm_a_box c); box b (gemm_b_box c)] ++
      match bias with Some p => [box p [(g_m c, 1)]] | None => [] end
  end.

Definition writes (l : launch) : list access :=
  match l with
  | EmbedGather out os embed ids n hidden => [box out [(n, os); (hidden, 1)]]
  | RmsNorm out inp w n hidden => [box out [(n, hidden); (hidden, 1)]]
  | RmsNormResidual out res inp w n hidden => [box out [(n, hidden); (hidden, 1)]; box res [(n, hidden); (hidden, 1)]]
  | RopeInplace q k qs ks pos n nq nkv hd => [box q [(n, qs); (nq * hd, 1)]; box k [(n, ks); (nkv * hd, 1)]]
  | KvScatter pool k v ks vs tab ts pos n nkv hd => [box pool [(pool_elems, 1)]]
  | KvGather kh vh hs rs pool tab ctx nkv hd =>
      [box kh [(nkv, hs); (ctx, rs); (hd, 1)]; box vh [(nkv, hs); (ctx, rs); (hd, 1)]]
  | PagedAttentionDecode out os q qs pool tab lens n mb nq nkv hd => [box out [(n, os); (nq * hd, 1)]]
  | PrefillSoftmax probs scores nq n ctx start => [box probs [(nq, n * ctx); (n, ctx); (ctx, 1)]]
  | SiluMul out gu n inter =>
      [box out [(n, if decide (out = gu) then 2 * inter else inter); (inter, 1)]]
  | GreedyArgmax out logits n v => [box out [(n, 1)]]
  | Gemm _ c d a b bias => [box d (gemm_d_box c)]
  end.

End accesses.

(** ** Bounds *)

(** The elements of each buffer: the scratch regions (in elements of their
    type), one layer's pool slice, and the weight tensors. *)
Definition capacity (c : ModelConfig) (o : ExecutorOptions) (kv_blocks : Z) (b : buffer) : Z :=
  match b with
  | BX | BNormed | BAttnOut | BMlpOut => step_rows o * hidden_size c
  | BQkv => step_rows o * qkv_width c
  | BGateup => step_rows o * gateup_width c
  | BLogits => x_max_batch o * vocab_size c
  | BScores | BProbs => score_elems c o
  | BKhat | BVhat => gather_elems c o
  | BInputIds | BPositions => step_rows o
  | BSeqLens | BArgmax => x_max_batch o
  | BBlockTables => table_elems o
  | BPool _ => kv_blocks * 2 * num_kv_heads c * kKvBlockSize * head_dim c
  | WEmbed | WLmHead => vocab_size c * hidden_size c
  | WInputNorm _ | WPostNorm _ | WFinalNorm => hidden_size c
  | WQkv _ => qkv_width c * hidden_size c
  | WQkvBias _ => qkv_width c
  | WO _ => hidden_size c * hidden_size c
  | WGateup _ => gateup_width c * hidden_size c
  | WDown _ => hidden_size c * intermediate_size c
  end.

Definition pool_slice (c : ModelConfig) (kv_blocks : Z) : Z := kv_blocks * 2 * num_kv_heads c * kKvBlockSize * head_dim c.

(** Every element a launch touches exists. *)
Definition launch_safe (c : ModelConfig) (o : ExecutorOptions) (kv_blocks : Z) (l : launch) : Prop :=
  Forall (in_bounds (capacity c o kv_blocks))
    (reads (vocab_size c) (pool_slice c kv_blocks) (max_blocks_per_seq o) l ++
     writes (pool_slice c kv_blocks) l).

Lemma in_bounds_1 cap p n s :
  in_bounds cap (box p [(n, s)]) ↔ 1 <= n ∧ 0 <= s ∧ 0 <= p_off p ∧ p_off p + (n - 1) * s < cap (p_buf p).
Proof.
  unfold in_bounds, box, box_max. cbn. rewrite !Forall_cons. cbn. split.
  - intros (((? & ?) & _) & ? & ?). split_and!; lia.
  - intros (? & ? & ? & ?). split_and!; try lia; try done; try constructor.
Qed.

Lemma in_bounds_2 cap p n s m t :
  in_bounds cap (box p [(n, s); (m, t)]) ↔
  1 <= n ∧ 0 <= s ∧ 1 <= m ∧ 0 <= t ∧ 0 <= p_off p ∧ p_off p + ((n - 1) * s + (m - 1) * t) < cap (p_buf p).
Proof.
  unfold in_bounds, box, box_max. cbn. rewrite !Forall_cons. cbn. split.
  - intros (((? & ?) & (? & ?) & _) & ? & ?). split_and!; lia.
  - intros (? & ? & ? & ? & ? & ?). split_and!; try lia; try done; try constructor.
Qed.

Lemma in_bounds_3 cap p n s m t k u :
  in_bounds cap (box p [(n, s); (m, t); (k, u)]) ↔
  1 <= n ∧ 0 <= s ∧ 1 <= m ∧ 0 <= t ∧ 1 <= k ∧ 0 <= u ∧ 0 <= p_off p ∧
  p_off p + ((n - 1) * s + ((m - 1) * t + (k - 1) * u)) < cap (p_buf p).
Proof.
  unfold in_bounds, box, box_max. cbn. rewrite !Forall_cons. cbn. split.
  - intros (((? & ?) & (? & ?) & (? & ?) & _) & ? & ?). split_and!; lia.
  - intros (? & ? & ? & ? & ? & ? & ? & ?). split_and!; try lia; try done; try constructor.
Qed.

(** [n] rows of [w] elements [s] apart fit where [r] rows of [s] are. *)
Lemma rows_fit n r off w s : 1 <= n <= r → 0 <= off → 1 <= w → off + w <= s → off + ((n - 1) * s + (w - 1) * 1) < r * s.
Proof. nia. Qed.

Section bounds.
Context (c : ModelConfig) (o : ExecutorOptions) (kv_blocks : Z).
Context (Hg : geometry_ok c o) (Hpool : 2 <= kv_blocks).
Notation safe := (launch_safe c o kv_blocks).
Notation cap := (capacity c o kv_blocks).

Lemma dims_pos :
  1 <= num_q_heads c ∧ 1 <= num_kv_heads c ∧ 1 <= head_dim c ∧ 1 <= hidden_size c ∧ 1 <= intermediate_size c ∧
  1 <= vocab_size c ∧ num_q_heads c * head_dim c = hidden_size c ∧
  qkv_width c = num_q_heads c * head_dim c + 2 * (num_kv_heads c * head_dim c) ∧
  1 <= num_kv_heads c * head_dim c ∧ 1 <= pool_slice c kv_blocks ∧ 1 <= max_blocks_per_seq o.
Proof using Hg Hpool.
  pose proof Hg as []. unfold qkv_width, pool_slice, kKvBlockSize, max_blocks_per_seq.
  pose proof (BlocksForTokens_pos (x_max_seq_len o) ltac:(lia)). split_and!; nia.
Qed.

(** A linear layer whose operands fit their buffers is safe. *)
Lemma linear_safe k out os act acts w rows nf inf e bias :
  1 <= rows → 1 <= nf → 1 <= inf → nf <= os → inf <= acts →
  0 <= p_off out → p_off out + ((rows - 1) * os + nf) <= cap (p_buf out) →
  0 <= p_off act → p_off act + ((rows - 1) * acts + inf) <= cap (p_buf act) →
  0 <= p_off w → p_off w + nf * inf <= cap (p_buf w) →
  match bias with Some b => 0 <= p_off b ∧ p_off b + nf <= cap (p_buf b) | None => True end →
  safe (Gemm k (Linear rows nf inf acts os e) out w act bias).
Proof.
  intros. unfold launch_safe, reads, writes, gemm_a_box, gemm_b_box, gemm_d_box.
  rewrite !Forall_app, !Forall_cons. cbn [batch stride_a stride_b stride_d Linear g_m g_n g_k lda ldb ldd].
  rewrite !in_bounds_3. stored. split_and!; try lia; try nia; try apply Forall_nil_2.
  destruct bias; [|apply Forall_nil_2]. apply Forall_singleton, in_bounds_1. lia.
Qed.

Definition fits_rows (p : ptr) (rows stride width : Z) : Prop :=
  0 <= p_off p ∧ p_off p + ((rows - 1) * stride + width) <= cap (p_buf p).

Lemma norm_residual_safe out res inp w rows hidden :
  1 <= rows → 1 <= hidden → fits_rows out rows hidden hidden → fits_rows res rows hidden hidden →
  fits_rows inp rows hidden hidden → fits_rows w 1 0 hidden → safe (RmsNormResidual out res inp w rows hidden).
Proof.
  unfold fits_rows. intros. unfold launch_safe, reads, writes. rewrite !Forall_app, !Forall_cons, !in_bounds_2, !in_bounds_1.
  split_and!; try lia; try apply Forall_nil_2.
Qed.

Lemma attention_input_safe layer rows ts :
  1 <= rows <= step_rows o → 0 <= ts → (rows - 1) * ts + max_blocks_per_seq o <= table_elems o →
  Forall safe (attention_input c layer rows ts).
Proof using Hg Hpool.
  intros Hr Hts Htab. pose proof dims_pos as (? & ? & ? & ? & ? & ? & Hh & Hw & ? & ? & ?).
  unfold attention_input. rewrite !Forall_cons. split_and!; [| | | |constructor].
  - destruct (layer =? 0).
    + unfold launch_safe, reads, writes. rewrite !Forall_app, !Forall_cons, !in_bounds_2, !in_bounds_1. cbn.
      split_and!; try lia; try nia; try apply Forall_nil_2.
    + apply norm_residual_safe; unfold fits_rows; cbn; try lia; nia.
  - apply linear_safe; cbn; try lia; try nia.
  - unfold launch_safe, reads, writes. rewrite !Forall_app, !Forall_cons, !in_bounds_2, !in_bounds_1. cbn.
    unfold k_view_offset. split_and!; try lia; try nia; try apply Forall_nil_2.
  - unfold launch_safe, reads, writes. rewrite !Forall_app, !Forall_cons, !in_bounds_2, !in_bounds_1. cbn.
    fold (pool_slice c kv_blocks). unfold v_view_offset, k_view_offset.
    split_and!; try lia; try nia; try apply Forall_nil_2.
Qed.

Lemma block_tail_safe layer rows : 1 <= rows <= step_rows o → Forall safe (block_tail c layer rows).
Proof using Hg Hpool.
  intros Hr. pose proof dims_pos as (? & ? & ? & ? & ? & ? & Hh & Hw & ? & ? & ?).
  unfold block_tail. rewrite !Forall_cons. split_and!; [| | | | |constructor].
  - apply linear_safe; cbn; try lia; try nia.
  - apply norm_residual_safe; unfold fits_rows; cbn; try lia; nia.
  - apply linear_safe; cbn; unfold gateup_width; try lia; try nia.
  - unfold launch_safe, reads, writes. rewrite decide_True by done. cbn [app].
    rewrite !Forall_cons, !in_bounds_2. cbn. unfold gateup_width.
    split_and!; try lia; try nia; try apply Forall_nil_2.
  - apply linear_safe; cbn; unfold gateup_width; try lia; try nia.
Qed.

Lemma embed_safe rows : 1 <= rows <= step_rows o → safe (embed_launch c rows).
Proof using Hg Hpool.
  intros Hr. pose proof dims_pos as (? & ? & ? & ? & ? & ? & Hh & Hw & ? & ? & ?).
  unfold launch_safe, embed_launch, reads, writes. rewrite !Forall_app, !Forall_cons, !in_bounds_2, !in_bounds_1. cbn.
  split_and!; try lia; try nia; try apply Forall_nil_2.
Qed.

Lemma layers_safe f : (∀ layer, Forall safe (f layer)) → Forall safe (layers c f).
Proof.
  intros Hf. unfold layers. apply Forall_concat, Forall_forall. intros l Hl.
  apply list_elem_of_fmap in Hl as (layer & -> & _). apply Hf.
Qed.

Lemma table_rows rows : 1 <= rows <= x_max_batch o → (rows - 1) * max_blocks_per_seq o + max_blocks_per_seq o <= table_elems o.
Proof using Hg Hpool.
  intros Hr. pose proof dims_pos as (_ & _ & _ & _ & _ & _ & _ & _ & _ & _ & ?). unfold table_elems. nia.
Qed.

Lemma decode_safe rows : 1 <= rows <= x_max_batch o →
  Forall safe (EnqueueDecodeForward c o rows ++ EnqueueArgmax c rows).
Proof using Hg Hpool.
  intros Hr. pose proof dims_pos as (? & ? & ? & ? & ? & ? & Hh & Hw & ? & ? & ?).
  assert (1 <= rows <= step_rows o) as Hs by (unfold step_rows; lia). pose proof (table_rows rows Hr) as Ht.
  unfold EnqueueDecodeForward. rewrite !Forall_app. split_and!.
  - apply Forall_singleton. by apply embed_safe.
  - apply layers_safe. intros layer. unfold decode_layer. rewrite !Forall_app. split_and!.
    + apply attention_input_safe; [done|lia|done].
    + apply Forall_singleton. unfold launch_safe, reads, writes.
      rewrite !Forall_app, !Forall_cons, !in_bounds_2, !in_bounds_1. cbn. fold (pool_slice c kv_blocks).
      split_and!; try lia; try nia; try apply Forall_nil_2.
    + by apply block_tail_safe.
  - rewrite !Forall_cons. split_and!; [| |constructor].
    + apply norm_residual_safe; unfold fits_rows; cbn; try lia; nia.
    + apply linear_safe; cbn; try lia; try nia.
  - apply Forall_singleton. unfold launch_safe, reads, writes. rewrite !Forall_app, !Forall_cons, !in_bounds_2, !in_bounds_1. cbn.
    split_and!; try lia; try nia; try apply Forall_nil_2.
Qed.

(** ** Prefill bounds *)

Lemma group_split : num_q_heads c = heads_per_group c * num_kv_heads c ∧ 1 <= heads_per_group c.
Proof using Hg Hpool.
  pose proof (go_group _ _ Hg) as Hrem. pose proof (go_q _ _ Hg). pose proof (go_kv _ _ Hg). unfold heads_per_group.
  pose proof (Z.quot_rem' (num_q_heads c) (num_kv_heads c)) as Hqr. rewrite Hrem in Hqr.
  rewrite Z.quot_div_nonneg in * by lia. split; [lia|]. nia.
Qed.

Context (rows ctx : Z) (Hrows : 1 <= rows <= x_prefill_chunk_tokens o) (Hctx : 1 <= ctx <= x_max_seq_len o).

(** The extents the products share: packed planes and interleaved heads. *)
Lemma plane_extents heads g h :
  1 <= heads → 0 <= h → h + heads <= num_q_heads c → 0 <= g < num_kv_heads c →
  1 <= rows * ctx ∧ (h + heads) * (rows * ctx) <= score_elems c o ∧ 0 <= h * (rows * ctx) ∧
  0 <= g * gather_plane_stride c o ∧ g * gather_plane_stride c o + ctx * head_dim c <= gather_elems c o ∧
  0 <= h * head_dim c ∧ (h + heads) * head_dim c <= hidden_size c ∧ hidden_size c <= qkv_width c ∧
  rows <= step_rows o.
Proof using Hg Hpool Hrows Hctx.
  intros ????. pose proof dims_pos as (? & ? & ? & ? & ? & ? & Hh & Hw & ? & ? & ?).
  unfold score_elems, gather_elems, gather_plane_stride, step_rows.
  assert (rows * ctx <= x_prefill_chunk_tokens o * x_max_seq_len o) by nia.
  assert (1 <= rows * ctx) by nia.
  assert ((h + heads) * (rows * ctx) <= num_q_heads c * (x_prefill_chunk_tokens o * x_max_seq_len o)) by nia.
  assert (ctx * head_dim c <= x_max_seq_len o * head_dim c) by nia.
  assert ((g + 1) * (x_max_seq_len o * head_dim c) <= num_kv_heads c * (x_max_seq_len o * head_dim c)) by nia.
  assert ((h + heads) * head_dim c <= num_q_heads c * head_dim c) by nia.
  split_and!; try lia; nia.
Qed.

Lemma scores_safe heads g h :
  1 <= heads → 0 <= h → h + heads <= num_q_heads c → 0 <= g < num_kv_heads c →
  safe (scores_launch c o (PrefillScores rows ctx (head_dim c) heads (qkv_width c)) rows ctx g h).
Proof using Hg Hpool Hrows Hctx.
  intros H1 H2 H3 H4. destruct (plane_extents heads g h H1 H2 H3 H4) as (? & ? & ? & ? & ? & ? & ? & ? & ?).
  pose proof dims_pos as (? & ? & ? & ? & ? & ? & Hh & Hw & ? & ? & ?).
  unfold launch_safe, reads, writes, scores_launch, gemm_a_box, gemm_b_box, gemm_d_box.
  rewrite app_nil_r, !Forall_app, !Forall_cons. cbn [batch stride_a stride_b stride_d PrefillScores g_m g_n g_k lda ldb ldd].
  rewrite !in_bounds_3. stored. set (rc := rows * ctx) in *.
  assert ((rows - 1) * ctx + (ctx - 1) = rc - 1) by (unfold rc; lia).
  assert ((rows - 1) * qkv_width c + qkv_width c <= step_rows o * qkv_width c) by nia.
  assert ((ctx - 1) * head_dim c + head_dim c = ctx * head_dim c) by lia.
  destruct (Z.ltb_spec 1 heads); [|replace heads with 1 in * by lia];
    split_and!; try lia; try apply Forall_nil_2.
Qed.

Lemma pv_safe heads g h :
  1 <= heads → 0 <= h → h + heads <= num_q_heads c → 0 <= g < num_kv_heads c →
  safe (pv_launch c o (PrefillPv rows ctx (head_dim c) heads (hidden_size c)) rows ctx g h).
Proof using Hg Hpool Hrows Hctx.
  intros H1 H2 H3 H4. destruct (plane_extents heads g h H1 H2 H3 H4) as (? & ? & ? & ? & ? & ? & ? & ? & ?).
  pose proof dims_pos as (? & ? & ? & ? & ? & ? & Hh & Hw & ? & ? & ?).
  unfold launch_safe, reads, writes, pv_launch, gemm_a_box, gemm_b_box, gemm_d_box.
  rewrite app_nil_r, !Forall_app, !Forall_cons. cbn [batch stride_a stride_b stride_d PrefillPv g_m g_n g_k lda ldb ldd].
  rewrite !in_bounds_3. stored. set (rc := rows * ctx) in *.
  assert ((rows - 1) * ctx + (ctx - 1) = rc - 1) by (unfold rc; lia).
  assert ((rows - 1) * hidden_size c + hidden_size c <= step_rows o * hidden_size c) by nia.
  assert ((ctx - 1) * head_dim c + head_dim c = ctx * head_dim c) by lia.
  destruct (Z.ltb_spec 1 heads); [|replace heads with 1 in * by lia];
    split_and!; try lia; try apply Forall_nil_2.
Qed.

Lemma per_mode_safe mode call :
  (∀ heads g h, 1 <= heads → 0 <= h → h + heads <= num_q_heads c → 0 <= g < num_kv_heads c → safe (call heads g h)) →
  Forall safe (per_mode c mode call).
Proof using Hg Hpool Hrows Hctx.
  intros Hcall. pose proof group_split as [Hq Hk]. pose proof Hg as [].
  apply Forall_forall. intros l Hl. destruct mode; cbn in Hl; apply list_elem_of_fmap in Hl as (x & -> & Hx);
    apply elem_of_seqZ in Hx; apply Hcall; try lia; try nia.
  rewrite Z.quot_div_nonneg by lia. split; [apply Z.div_pos; lia|]. apply Z.div_lt_upper_bound; lia.
Qed.

Lemma prefill_safe chunk_start final mode :
  Forall safe (EnqueuePrefillForward c o rows chunk_start ctx final mode ++ EnqueueArgmax c 1).
Proof using Hg Hpool Hrows Hctx.
  pose proof dims_pos as (? & ? & ? & ? & ? & ? & Hh & Hw & ? & ? & ?).
  assert (1 <= rows <= step_rows o) as Hs by (unfold step_rows; lia).
  assert (max_blocks_per_seq o <= table_elems o) as Ht by (pose proof Hg as []; unfold table_elems; nia).
  assert (1 <= x_max_batch o) as Hb by (by pose proof Hg as []).
  unfold EnqueuePrefillForward. rewrite !Forall_app. split_and!.
  - apply Forall_singleton. by apply embed_safe.
  - apply layers_safe. intros layer. unfold prefill_layer, EnqueuePrefillAttention. rewrite !Forall_app. split_and!.
    + apply attention_input_safe; [done|lia|lia].
    + apply Forall_singleton. destruct (plane_extents 1 0 0 ltac:(lia) ltac:(lia) ltac:(lia) ltac:(lia)) as (_ & _ & _ & _ & ? & _).
      pose proof (BlocksForTokens_mono ctx (x_max_seq_len o) ltac:(lia)). pose proof (BlocksForTokens_pos ctx ltac:(lia)).
      unfold launch_safe, reads, writes. rewrite !Forall_app, !Forall_cons, !in_bounds_3, !in_bounds_1. cbn.
      fold (pool_slice c kv_blocks). unfold max_blocks_per_seq, gather_plane_stride, gather_elems in *.
      split_and!; try lia; try apply Forall_nil_2; nia.
    + apply per_mode_safe. apply scores_safe.
    + apply Forall_singleton. destruct (plane_extents (num_q_heads c) 0 0 ltac:(lia) ltac:(lia) ltac:(lia) ltac:(lia)) as (? & ? & _).
      unfold launch_safe, reads, writes. rewrite !Forall_app, !Forall_cons, !in_bounds_3. cbn.
      split_and!; try lia; try apply Forall_nil_2; nia.
    + apply per_mode_safe. apply pv_safe.
    + by apply block_tail_safe.
  - destruct final; [|apply Forall_nil_2]. rewrite !Forall_cons. split_and!; [| |apply Forall_nil_2].
    + apply norm_residual_safe; unfold fits_rows; cbn; try lia; nia.
    + apply linear_safe; cbn; try lia; nia.
  - apply Forall_singleton. unfold launch_safe, reads, writes. rewrite !Forall_app, !Forall_cons, !in_bounds_2, !in_bounds_1. cbn.
    split_and!; try lia; try nia; try apply Forall_nil_2.
Qed.

End bounds.

(** ** Nothing is read before it is written *)

(** Weights and the KV pool outlive the step. *)
Definition persistent (b : buffer) : Prop :=
  match b with
  | BPool _ | WEmbed | WLmHead | WInputNorm _ | WPostNorm _ | WFinalNorm | WQkv _ | WQkvBias _ | WO _ | WGateup _ | WDown _ => True
  | _ => False
  end.

Section dataflow.
Context (vocab pool_elems max_blocks : Z).

Definition written (l : launch) : list buffer := map a_buf (writes pool_elems l).

(** [w]: the buffers this step has uploaded or written so far. *)
Fixpoint uses_defined (w : list buffer) (l : list launch) : Prop :=
  match l with
  | [] => True
  | k :: l' =>
      Forall (λ a, persistent (a_buf a) ∨ a_buf a ∈ w) (reads vocab pool_elems max_blocks k) ∧
      uses_defined (written k ++ w) l'
  end.

Definition after (w : list buffer) (l : list launch) : list buffer := foldl (λ w k, written k ++ w) w l.

Lemma uses_defined_app l1 l2 : ∀ w, uses_defined w (l1 ++ l2) ↔ uses_defined w l1 ∧ uses_defined (after w l1) l2.
Proof. induction l1 as [|k l1 IH]; intros w; cbn; [tauto|]. rewrite IH. tauto. Qed.

Lemma uses_defined_mono l : ∀ w w', w ⊆ w' → uses_defined w l → uses_defined w' l.
Proof.
  induction l as [|k l IH]; intros w w' Hw; cbn; [done|]. intros [Hr Hl]. split.
  - eapply Forall_impl; [done|]. cbv beta. intros a [?|?]; [by left|right]. by apply Hw.
  - eapply IH; [|done]. intros b. rewrite !elem_of_app. intros [?|?]; [by left|right; by apply Hw].
Qed.

Lemma after_app w l1 l2 : after w (l1 ++ l2) = after (after w l1) l2.
Proof. apply foldl_app. Qed.

Lemma after_incl l : ∀ w, w ⊆ after w l.
Proof.
  induction l as [|k l IH]; intros w; cbn; [done|]. etrans; [|apply IH].
  intros b Hb. apply elem_of_app. by right.
Qed.

(** A list of layers, each of which needs the residual and, after the first,
    the block output, and provides both. *)
Lemma layers_defined (c : ModelConfig) f w :
  BX ∈ w →
  (∀ layer w', 0 <= layer → w ⊆ w' → (0 < layer → BMlpOut ∈ w') →
     uses_defined w' (f layer) ∧ BMlpOut ∈ after w' (f layer)) →
  uses_defined w (layers c f) ∧ (0 < num_layers c → BMlpOut ∈ after w (layers c f)).
Proof.
  intros HX Hf. unfold layers.
  assert (∀ (n : nat) start w', 0 <= start → w ⊆ w' → (0 < start → BMlpOut ∈ w') →
    uses_defined w' (concat (map f (seqZ start (Z.of_nat n)))) ∧
    ((0 < n)%nat → BMlpOut ∈ after w' (concat (map f (seqZ start (Z.of_nat n)))))) as Hn.
  { induction n as [|n IH]; intros start w' Hs Hw Hm; [by split; [|lia]|].
    rewrite seqZ_cons by lia. cbn [map concat]. replace (Z.pred (Z.of_nat (S n))) with (Z.of_nat n) by lia.
    destruct (Hf start w' Hs Hw Hm) as [Hu Ha].
    destruct (IH (Z.succ start) (after w' (f start))) as [Hu' Ha']; [lia| |done|].
    { etrans; [done|]. apply after_incl. }
    rewrite uses_defined_app, after_app. split; [done|]. intros _.
    destruct n as [|n]; [done|]. apply Ha'. lia. }
  destruct (Z.le_gt_cases (num_layers c) 0).
  - unfold seqZ. rewrite Z2Nat.nonpos by done. cbn. split; [done|lia].
  - destruct (Hn (Z.to_nat (num_layers c)) 0 w) as [Hu Ha]; [lia|done|lia|].
    rewrite Z2Nat.id in * by lia. split; [done|]. intros _. apply Ha. lia.
Qed.

(** Independent launches: each reads only what is already defined. *)
Lemma independent_defined l : ∀ w,
  Forall (λ k, Forall (λ a, persistent (a_buf a) ∨ a_buf a ∈ w) (reads vocab pool_elems max_blocks k)) l →
  uses_defined w l.
Proof.
  induction l as [|k l IH]; intros w Hl; [done|]. apply Forall_cons in Hl as [Hk Hl]. split; [done|].
  apply IH. eapply Forall_impl; [exact Hl|]. cbv beta. intros k' Hk'. eapply Forall_impl; [exact Hk'|]. cbv beta.
  intros a [?|?]; [by left|right]. apply elem_of_app. by right.
Qed.

Lemma after_written l k b : ∀ w, k ∈ l → b ∈ written k → b ∈ after w l.
Proof.
  induction l as [|k' l IH]; intros w Hk Hb; [by apply not_elem_of_nil in Hk|].
  apply elem_of_cons in Hk as [->|Hk]; cbn; [|by apply IH]. apply after_incl, elem_of_app. by left.
Qed.

End dataflow.

(** Membership in a list of buffers whose head is known. *)
Ltac in_list := cbn; repeat first [assumption | apply list_elem_of_here | apply list_elem_of_further].
Ltac defined_now := cbn; rewrite ?Forall_cons; split_and!; try apply Forall_nil_2; first [by left | right; by in_list].
Ltac defined_step := cbn [uses_defined]; split; [by defined_now|].

Section step_dataflow.
Context (c : ModelConfig) (o : ExecutorOptions) (vocab pool_elems max_blocks : Z).
Context (Hg : geometry_ok c o).
Notation uses := (uses_defined vocab pool_elems max_blocks).
Notation aft := (after pool_elems).

(** What every layer needs from the uploads and the embedding. *)
Definition step_ready (w : list buffer) : Prop := BX ∈ w ∧ BPositions ∈ w ∧ BBlockTables ∈ w.

Lemma attention_input_defined layer rows ts w :
  0 <= layer → step_ready w → (0 < layer → BMlpOut ∈ w) →
  uses w (attention_input c layer rows ts) ∧ BQkv ∈ aft w (attention_input c layer rows ts).
Proof.
  intros Hl (HX & HP & HT) Hm. unfold attention_input.
  destruct (Z.eqb_spec layer 0); [|specialize (Hm ltac:(lia))]; (split; [repeat defined_step; done|in_list]).
Qed.

Lemma block_tail_defined layer rows w :
  BX ∈ w → BAttnOut ∈ w → uses w (block_tail c layer rows) ∧ BMlpOut ∈ aft w (block_tail c layer rows).
Proof. intros HX HA. unfold block_tail. split; [repeat defined_step; done|in_list]. Qed.

Lemma decode_layer_defined rows layer w :
  0 <= layer → step_ready w → BSeqLens ∈ w → (0 < layer → BMlpOut ∈ w) →
  uses w (decode_layer c o rows layer) ∧ BMlpOut ∈ aft w (decode_layer c o rows layer).
Proof.
  intros Hl Hw HS Hm. destruct (attention_input_defined layer rows (max_blocks_per_seq o) w Hl Hw Hm) as [Hu Hq].
  pose proof (after_incl pool_elems (attention_input c layer rows (max_blocks_per_seq o)) w) as Hinc.
  destruct Hw as (HX & HP & HT). unfold decode_layer. rewrite !uses_defined_app, !after_app.
  set (w1 := after pool_elems w _) in *. match goal with |- context [aft w1 ?l] => set (l1 := l) in * end.
  pose proof (Hinc _ HT) as HT1. pose proof (Hinc _ HS) as HS1.
  destruct (block_tail_defined layer rows (aft w1 l1)) as [Ht Hb].
  - apply after_incl. by apply Hinc.
  - in_list.
  - split_and!; [done| |done|done]. subst l1. cbn [uses_defined]. split; [|done]. defined_now.
Qed.

Lemma per_mode_defined mode call b w :
  (∀ heads g h, Forall (λ a, persistent (a_buf a) ∨ a_buf a ∈ w) (reads vocab pool_elems max_blocks (call heads g h))) →
  (∀ heads g h, b ∈ written pool_elems (call heads g h)) →
  uses w (per_mode c mode call) ∧ b ∈ aft w (per_mode c mode call).
Proof using Hg.
  intros Hr Hw. split.
  - apply independent_defined, Forall_forall. intros k Hk.
    destruct mode; cbn in Hk; apply list_elem_of_fmap in Hk as (x & -> & _); apply Hr.
  - pose proof (go_q _ _ Hg). pose proof (go_kv _ _ Hg).
    destruct mode; eapply after_written; [|apply Hw| |apply Hw]; cbn; apply list_elem_of_fmap; exists 0;
      (split; [reflexivity|]); apply elem_of_seqZ; lia.
Qed.

Lemma prefill_layer_defined rows start ctx mode layer w :
  0 <= layer → step_ready w → (0 < layer → BMlpOut ∈ w) →
  uses w (prefill_layer c o rows start ctx mode layer) ∧ BMlpOut ∈ aft w (prefill_layer c o rows start ctx mode layer).
Proof using Hg.
  intros Hl Hw Hm. destruct (attention_input_defined layer rows 0 w Hl Hw Hm) as [Hu Hq].
  pose proof (after_incl pool_elems (attention_input c layer rows 0) w) as Hinc.
  destruct Hw as (HX & HP & HT). unfold prefill_layer, EnqueuePrefillAttention. rewrite !uses_defined_app, !after_app.
  set (w1 := after pool_elems w _) in *. pose proof (Hinc _ HT) as HT1.
  match goal with |- context [uses w1 ?l] => set (l1 := l) in * end.
  assert (Hinc1 : w1 ⊆ aft w1 l1) by apply after_incl.
  assert (BKhat ∈ aft w1 l1 ∧ BVhat ∈ aft w1 l1) as [Hk Hv] by (split; in_list).
  assert (BQkv ∈ aft w1 l1) as Hq2 by auto. set (w2 := aft w1 l1) in *. set (call1 := λ heads g h, scores_launch _ _ _ _ _ _ _).
  destruct (per_mode_defined mode call1 BScores w2) as [Hu2 Hs]; [intros; defined_now|intros; in_list|].
  set (l2 := per_mode c mode call1) in *. assert (Hinc2 : w2 ⊆ aft w2 l2) by apply after_incl.
  set (w3 := aft w2 l2) in *. match goal with |- context [uses w3 ?l] => set (l3 := l) in * end.
  assert (Hinc3 : w3 ⊆ aft w3 l3) by apply after_incl. assert (BProbs ∈ aft w3 l3) as Hp by in_list.
  set (w4 := aft w3 l3) in *. set (call2 := λ heads g h, pv_launch _ _ _ _ _ _ _).
  destruct (per_mode_defined mode call2 BAttnOut w4) as [Hu4 Ha];
    [intros; cbn; rewrite !Forall_cons; split_and!; try apply Forall_nil_2; right; auto|intros; in_list|].
  set (l4 := per_mode c mode call2) in *. assert (Hinc4 : w4 ⊆ aft w4 l4) by apply after_incl.
  destruct (block_tail_defined layer rows (aft w4 l4)) as [Ht Hb]; [by auto 10|done|].
  split_and!; try done; subst l1 l3; cbn [uses_defined]; (split; [|done]); defined_now.
Qed.

(** The layer loop of either step, after the embedding. *)
Lemma embedded_layers_defined f rows w :
  BInputIds ∈ w → BPositions ∈ w → BBlockTables ∈ w →
  (∀ layer w', 0 <= layer → w ⊆ w' → step_ready w' → (0 < layer → BMlpOut ∈ w') →
     uses w' (f layer) ∧ BMlpOut ∈ aft w' (f layer)) →
  let w1 := aft w (embed_launch c rows :: layers c f) in
  uses w (embed_launch c rows :: layers c f) ∧ BX ∈ w1 ∧ BMlpOut ∈ w1.
Proof using Hg.
  intros HI HP HT Hf. cbn zeta. set (w0 := aft w [embed_launch c rows]).
  assert (BX ∈ w0) as HX by in_list. assert (w ⊆ w0) as Hw0 by apply after_incl.
  destruct (layers_defined vocab pool_elems max_blocks c f w0 HX) as [Hu Hm].
  { intros layer w' Hl Hw Hmlp. apply Hf; [done|by etrans| |done]. repeat split; auto. }
  change (aft w (embed_launch c rows :: layers c f)) with (aft w0 (layers c f)). split_and!.
  - split; [by defined_now|]. exact Hu.
  - by apply after_incl.
  - apply Hm. apply Hg.
Qed.

End step_dataflow.

(** No stale operand.  Starting from nothing but the input copies of the
    step, each launch of a decode step or a prefill chunk reads only weights,
    the KV pool and buffers an earlier copy or launch of the same step has
    written; the sampled tokens are written last.  So buffers that survive from
    another step (scratch is never cleared between steps) are not read. *)
Theorem step_dataflow c o vocab pool_elems max_blocks :
  ValidateGeometry c o = Ok () →
  (∀ rows, let l := EnqueueDecodeForward c o rows ++ EnqueueArgmax c rows in
     let w := map fst (UploadDecodeInputs o rows) in
     uses_defined vocab pool_elems max_blocks w l ∧ BArgmax ∈ after pool_elems w l) ∧
  (∀ rows start ctx mode (final : bool),
     let l := EnqueuePrefillForward c o rows start ctx final mode ++ (if final then EnqueueArgmax c 1 else []) in
     let w := map fst (UploadPrefillInputs o rows) in
     uses_defined vocab pool_elems max_blocks w l ∧ (final = true → BArgmax ∈ after pool_elems w l)).
Proof.
  intros Hg%ValidateGeometry_ok. split; [intros rows|intros rows start ctx mode final]; cbn zeta.
  - unfold EnqueueDecodeForward. rewrite <- !app_assoc. set (w := map fst _). cbn [app].
    rewrite app_comm_cons, uses_defined_app, after_app.
    destruct (embedded_layers_defined c o vocab pool_elems max_blocks Hg (decode_layer c o rows) rows w)
      as (Hu & HX & Hm); [in_list..| |].
    { intros. apply decode_layer_defined; [done|done| |done]. set_solver. }
    set (w1 := after _ w _) in *. split_and!; [done|repeat defined_step; done|in_list].
  - unfold EnqueuePrefillForward. rewrite <- !app_assoc. set (w := map fst _). cbn [app].
    rewrite app_comm_cons, uses_defined_app, after_app.
    destruct (embedded_layers_defined c o vocab pool_elems max_blocks Hg (prefill_layer c o rows start ctx mode) rows w)
      as (Hu & HX & Hm); [in_list..| |].
    { intros. by apply prefill_layer_defined. }
    set (w1 := after _ w _) in *. destruct final; [|done].
    split_and!; [done|repeat defined_step; done|]. intros _. in_list.
Qed.

(** C30. The device work of a step is memory safe.  For every configuration the
    executor accepts and every row count or chunk it admits, in both forms of
    the prefill products, each launch touches only existing elements of the
    buffers it is given, and the input copies fit both ends. *)
Theorem launches_in_bounds c o kv_blocks :
  ValidateGeometry c o = Ok () → 2 <= kv_blocks →
  (∀ rows, 1 <= rows <= x_max_batch o →
     Forall (launch_safe c o kv_blocks) (EnqueueDecodeForward c o rows ++ EnqueueArgmax c rows) ∧
     Forall (λ '(b, n), 0 <= n <= capacity c o kv_blocks b) (UploadDecodeInputs o rows)) ∧
  (∀ rows chunk_start ctx final mode,
     1 <= rows <= x_prefill_chunk_tokens o → 1 <= ctx <= x_max_seq_len o →
     Forall (launch_safe c o kv_blocks) (EnqueuePrefillForward c o rows chunk_start ctx final mode ++ EnqueueArgmax c 1) ∧
     Forall (λ '(b, n), 0 <= n <= capacity c o kv_blocks b) (UploadPrefillInputs o rows)).
Proof.
  intros Hg%ValidateGeometry_ok Hp. pose proof (dims_pos c o kv_blocks Hg Hp) as (_ & _ & _ & _ & _ & _ & _ & _ & _ & _ & Hm).
  split.
  - intros rows Hr. split; [by apply decode_safe|]. pose proof (table_rows c o kv_blocks Hg Hp rows Hr) as Ht.
    unfold UploadDecodeInputs. rewrite !Forall_cons. cbn. unfold step_rows.
    split_and!; try lia; try nia; apply Forall_nil_2.
  - intros rows start ctx final mode Hr Hc. split; [by apply prefill_safe|].
    pose proof (go_batch _ _ Hg). unfold UploadPrefillInputs. rewrite !Forall_cons. cbn.
    unfold step_rows, table_elems. split_and!; try lia; try nia; apply Forall_nil_2.
Qed.

(** The pinned model at a small batch. *)
Module LaunchExample.

Definition opts : ExecutorOptions := mkExecutorOptions (8 * 458752) 4 64 8 true 0 "".

End LaunchExample.

Lemma launches_in_bounds_witness :
  ValidateGeometry qwen25 LaunchExample.opts = Ok () ∧
  Forall (launch_safe qwen25 LaunchExample.opts 8)
    (EnqueueDecodeForward qwen25 LaunchExample.opts 3 ++ EnqueueArgmax qwen25 3) ∧
  Forall (launch_safe qwen25 LaunchExample.opts 8)
    (EnqueuePrefillForward qwen25 LaunchExample.opts 8 16 24 true kPerHead ++ EnqueueArgmax qwen25 1).
Proof.
  assert (ValidateGeometry qwen25 LaunchExample.opts = Ok ()) as Hg by done.
  destruct (launches_in_bounds qwen25 LaunchExample.opts 8 Hg ltac:(lia)) as [Hd Hp].
  split_and!; [exact Hg|apply Hd; cbn; lia|apply Hp; cbn; lia].
Defined.

Lemma step_dataflow_witness :
  let o := LaunchExample.opts in
  let l := EnqueueDecodeForward qwen25 o 3 ++ EnqueueArgmax qwen25 3 in
  ValidateGeometry qwen25 o = Ok () ∧ length l = 284%nat ∧
  uses_defined 151936 1 4 [BInputIds; BPositions; BSeqLens; BBlockTables] l.
Proof.
  cbv zeta. assert (ValidateGeometry qwen25 LaunchExample.opts = Ok ()) as Hg by done.
  split_and!; [exact Hg|by vm_compute|].
  destruct (step_dataflow qwen25 LaunchExample.opts 151936 1 4 Hg) as [Hd _]. apply (Hd 3).
Defined.
