(* ===== verification/Executor.v ===== *)
(** * The model executor: construction and steps ([core/model_executor.{hpp,cpp}])

    The device is a stream: copies and launches are queued in order and run at
    times the host does not control (the schedule [dma] is arbitrary); a copy
    reads or writes the pinned mirrors when it runs.  What a launch computes is
    a parameter, and so is which CUDA call fails.  The state keeps the driver's
    view of the resources beside the object's own pointers, so that leaks are
    visible. *)

From S2P Require Import Prelude Doubles Types ModelConfig Scheduler GemmConfig Gemm ExecutorLayout ExecutorMirrors Launches.

(** ** The device *)

Inductive work : Type :=
  | CopyIn (b : buffer) (n : Z)
  | Kernel (l : launch)
  | CopyOut (n : Z).

(** What kernels and copies do to device memory, and the argmax buffer. *)
Record Device (D : Type) : Type := mkDevice {
  dev_zero : D;
  dev_exec : launch → D → D;
  dev_copy : buffer → list Z → D → D;
  dev_argmax : D → list Z;
}.
Arguments mkDevice {D}.
Arguments dev_zero {D}.
Arguments dev_exec {D}.
Arguments dev_copy {D}.
Arguments dev_argmax {D}.

(** The pinned source of an input copy. *)
Definition mirror_of (m : Mirrors) (b : buffer) : list Z :=
  match b with
  | BInputIds => h_input_ids m
  | BPositions => h_positions m
  | BSeqLens => h_seq_lens m
  | BBlockTables => h_block_tables m
  | _ => []
  end.

Definition set_argmax (a : list Z) (m : Mirrors) : Mirrors :=
  mkMirrors (h_input_ids m) (h_positions m) (h_seq_lens m) (h_block_tables m) a.

Definition run_work {D} (dev : Device D) (x : Mirrors * D) (w : work) : Mirrors * D :=
  let '(m, d) := x in
  match w with
  | CopyIn b n => (m, dev_copy dev b (take (Z.to_nat n) (mirror_of m b)) d)
  | Kernel l => (m, dev_exec dev l d)
  | CopyOut n => (set_argmax (over (take (Z.to_nat n) (dev_argmax dev d)) (h_argmax m)) m, d)
  end.

(** ** The object *)

Inductive resource : Type := RStream | RPool | RScratch | RPinned | RGraph (i : nat).

#[export] Instance resource_eq_dec : EqDecision resource.
Proof. solve_decision. Defined.
#[export] Instance resource_countable : Countable resource.
Proof.
  refine (inj_countable'
    (λ r, match r with RStream => 0 | RPool => 1 | RScratch => 2 | RPinned => 3 | RGraph i => 4 + i end)%nat
    (λ n, match n with 0 => RStream | 1 => RPool | 2 => RScratch | 3 => RPinned | S (S (S (S i))) => RGraph i end)%nat _).
  by intros [].
Defined.

Record Executor (Algo D : Type) : Type := mkExecutor {
  x_gemm : CublasLtGemm Algo;
  x_mirrors : Mirrors;
  x_dev : D;
  x_queue : list work;
  (** the open capture region of the stream, if any *)
  x_capture : option (list launch);
  (** [graph_execs_], and the local vector of [CaptureDecodeGraphs] *)
  x_graphs : list (list launch);
  x_execs : list (list launch);
  x_mode : PrefillGemmMode;
  x_demotion_warned : bool;
  x_dump_pending : bool;
  (** the non-null pointers of the object; what the driver has handed out *)
  x_ptrs : gset resource;
  x_live : gset resource;
  x_calls : nat;
}.
Arguments mkExecutor {Algo D}.
Arguments x_gemm {Algo D}.
Arguments x_mirrors {Algo D}.
Arguments x_dev {Algo D}.
Arguments x_queue {Algo D}.
Arguments x_capture {Algo D}.
Arguments x_graphs {Algo D}.
Arguments x_execs {Algo D}.
Arguments x_mode {Algo D}.
Arguments x_demotion_warned {Algo D}.
Arguments x_dump_pending {Algo D}.
Arguments x_ptrs {Algo D}.
Arguments x_live {Algo D}.
Arguments x_calls {Algo D}.

Definition no_mirrors : Mirrors := mkMirrors [] [] [] [] [].

Definition Executor_members {Algo D} (dev : Device D) : Executor Algo D :=
  mkExecutor CublasLtGemm_new no_mirrors (dev_zero dev) [] None [] [] kStridedBatched false false ∅ ∅ 0.

Record DecodeOutput : Type := mkDecodeOutput { tokens : list TokenId; out_rows : Z; bucket : Z }.
Record PrefillOutput : Type := mkPrefillOutput { first_token : TokenId; final_chunk : bool; chunk_rows : Z }.

Definition no_decode_output : DecodeOutput := mkDecodeOutput [] 0 (-1).

(** Exceptions can be caught; a failed assertion or undefined behaviour cannot. *)
Definition is_exception (e : error) : bool :=
  match e with AssertionFailed _ | UndefinedBehaviour _ | OutOfFuel => false | _ => true end.

(** The component errors derive from [std::runtime_error]; a rejected argument
    is a [std::invalid_argument]. *)
Definition runtime_error (e : error) : bool :=
  match e with ExecutorError _ | GemmError _ | EngineError _ => true | _ => false end.

Lemma runtime_exception e : runtime_error e = true → is_exception e = true.
Proof. by destruct e. Qed.

Section updates.
Context {Algo D : Type}.

Definition set_gemm g (s : Executor Algo D) : Executor Algo D := mkExecutor g (x_mirrors s) (x_dev s) (x_queue s) (x_capture s) (x_graphs s) (x_execs s)
  (x_mode s) (x_demotion_warned s) (x_dump_pending s) (x_ptrs s) (x_live s) (x_calls s).
Definition set_mirrors m (s : Executor Algo D) : Executor Algo D := mkExecutor (x_gemm s) m (x_dev s) (x_queue s) (x_capture s) (x_graphs s) (x_execs s)
  (x_mode s) (x_demotion_warned s) (x_dump_pending s) (x_ptrs s) (x_live s) (x_calls s).
Definition set_stream m d q (s : Executor Algo D) : Executor Algo D := mkExecutor (x_gemm s) m d q (x_capture s) (x_graphs s) (x_execs s)
  (x_mode s) (x_demotion_warned s) (x_dump_pending s) (x_ptrs s) (x_live s) (x_calls s).
Definition set_capture k (s : Executor Algo D) : Executor Algo D := mkExecutor (x_gemm s) (x_mirrors s) (x_dev s) (x_queue s) k (x_graphs s) (x_execs s)
  (x_mode s) (x_demotion_warned s) (x_dump_pending s) (x_ptrs s) (x_live s) (x_calls s).
Definition set_graphs gs es (s : Executor Algo D) : Executor Algo D := mkExecutor (x_gemm s) (x_mirrors s) (x_dev s) (x_queue s) (x_capture s) gs es
  (x_mode s) (x_demotion_warned s) (x_dump_pending s) (x_ptrs s) (x_live s) (x_calls s).
Definition set_mode v (s : Executor Algo D) : Executor Algo D := mkExecutor (x_gemm s) (x_mirrors s) (x_dev s) (x_queue s) (x_capture s) (x_graphs s) (x_execs s)
  v (x_demotion_warned s) (x_dump_pending s) (x_ptrs s) (x_live s) (x_calls s).
Definition set_warned v (s : Executor Algo D) : Executor Algo D := mkExecutor (x_gemm s) (x_mirrors s) (x_dev s) (x_queue s) (x_capture s) (x_graphs s) (x_execs s)
  (x_mode s) v (x_dump_pending s) (x_ptrs s) (x_live s) (x_calls s).
Definition set_dump v (s : Executor Algo D) : Executor Algo D := mkExecutor (x_gemm s) (x_mirrors s) (x_dev s) (x_queue s) (x_capture s) (x_graphs s) (x_execs s)
  (x_mode s) (x_demotion_warned s) v (x_ptrs s) (x_live s) (x_calls s).
Definition set_resources p l (s : Executor Algo D) : Executor Algo D := mkExecutor (x_gemm s) (x_mirrors s) (x_dev s) (x_queue s) (x_capture s) (x_graphs s)
  (x_execs s) (x_mode s) (x_demotion_warned s) (x_dump_pending s) p l (x_calls s).
Definition count_call (s : Executor Algo D) : Executor Algo D := mkExecutor (x_gemm s) (x_mirrors s) (x_dev s) (x_queue s) (x_capture s) (x_graphs s)
  (x_execs s) (x_mode s) (x_demotion_warned s) (x_dump_pending s) (x_ptrs s) (x_live s) (S (x_calls s)).

End updates.

Section executor.
Context {Algo D : Type} (c : ModelConfig) (o : ExecutorOptions).
Context (lt : LtLibrary Algo) (dev : Device D).
Context (dma : nat → nat) (cuda_ok : nat → bool).
Context (weights_num_layers : Z).
Context (DumpLayer0Activations : Z → Z → Z → PrefillGemmMode → M error (Executor Algo D) ()).
Notation XM := (M error (Executor Algo D)).

(** ** CUDA calls *)

(** The device runs some of the queued work. *)
Definition run_queue (n : nat) : XM () :=
  modify (λ s, let '(m, d) := foldl (run_work dev) (x_mirrors s, x_dev s) (take n (x_queue s)) in
               set_stream m d (drop n (x_queue s)) s).

(** A call whose status is returned; meanwhile the device makes progress. *)
Definition cuda_status : XM bool :=
  s ← get;
  modify count_call;;
  run_queue (dma (x_calls s));;
  mret (cuda_ok (x_calls s)).

(** [CudaCheck(call, what)]: [f] is what a successful call does. *)
Definition CudaCheck (what : string) (f : Executor Algo D → Executor Algo D) : XM () :=
  ok ← cuda_status;
  if (ok : bool) then modify f else throw (ExecutorError what).

(** A call whose status the code ignores. *)
Definition cuda_ignore (f : Executor Algo D → Executor Algo D) : XM () :=
  ok ← cuda_status;
  if (ok : bool) then modify f else mret ().

Definition queue_work (w : work) (s : Executor Algo D) := set_stream (x_mirrors s) (x_dev s) (x_queue s ++ [w]) s.

(** [cudaStreamSynchronize]: everything queued has run. *)
Definition drained (s : Executor Algo D) : Executor Algo D :=
  let '(m, d) := foldl (run_work dev) (x_mirrors s, x_dev s) (x_queue s) in set_stream m d [] s.

Definition id_state (s : Executor Algo D) := s.

(** Kernel launches report no status of their own: [cudaGetLastError] does. *)
Definition enqueue (l : launch) : XM () :=
  modify (λ s, match x_capture s with
               | Some ls => set_capture (Some (ls ++ [l])) s
               | None => queue_work (Kernel l) s
               end).

Definition acquire (r : resource) (s : Executor Algo D) := set_resources ({[r]} ∪ x_ptrs s) ({[r]} ∪ x_live s) s.

(** ** Issuing launches *)

Definition stream_status (s : Executor Algo D) : option StreamCapture :=
  if cuda_ok (x_calls s) then Some (match x_capture s with Some _ => CaptureActive | None => CaptureNone end) else None.

Definition gemm_run (call : GemmMethod) (cfg : GemmConfig) (bias : option ptr) (stream : option StreamCapture) :
    M error (CublasLtGemm Algo) () :=
  match call with
  | mGemmFp16 => RunImpl lt cfg stream "linear"
  | mGemmBiasFp16 =>
      match bias with
      | None => throw (GemmError "GemmBiasFp16 requires a non-null bias vector")
      | Some _ => RunImpl lt cfg stream "linear_bias"
      end
  | mGemmStridedBatched_float => GemmStridedBatched_float lt cfg stream
  | mGemmStridedBatched_half => GemmStridedBatched_half lt cfg stream
  end.

Definition on_gemm {A} (m : M error (CublasLtGemm Algo) A) : XM A := zoom x_gemm set_gemm m.

Definition issue (l : launch) : XM () :=
  match l with
  | Gemm call cfg _ _ _ bias =>
      s ← get;
      on_gemm (gemm_run call cfg bias (stream_status s));;
      enqueue l
  | _ => enqueue l
  end.

Fixpoint issue_all (ls : list launch) : XM () :=
  match ls with
  | [] => mret ()
  | l :: ls' => issue l;; issue_all ls'
  end.

(** ** Copies *)

Fixpoint upload (l : list (buffer * Z)) : XM () :=
  match l with
  | [] => mret ()
  | (b, n) :: l' => CudaCheck "H2D" (queue_work (CopyIn b n));; upload l'
  end.

Definition on_mirrors {A} (m : MM A) : XM A := zoom x_mirrors set_mirrors m.

Definition num_kv_blocks_ : Z := match ComputeBudget c o with Ok b => num_kv_blocks b | Err _ => 0 end.

(** The end of a step: the copy back, the drain and the launch status. *)
Definition finish_step (n : Z) : XM () :=
  CudaCheck "D2H argmax_out" (queue_work (CopyOut n));;
  CudaCheck "step sync" drained;;
  CudaCheck "step launches" id_state.

(** ** Probing *)

Definition row_shapes : list Z :=
  let b := buckets o in
  if bool_decide (back b = Some (x_max_batch o)) then b else b ++ [x_max_batch o].

Definition linear_probes (rows : Z) : list GemmConfig :=
  let hidden := hidden_size c in
  [ Linear rows (qkv_width c) hidden hidden (qkv_width c) EpilogueBias;
    Linear rows hidden hidden hidden hidden EpilogueNone;
    Linear rows (gateup_width c) hidden hidden (gateup_width c) EpilogueNone;
    Linear rows hidden (intermediate_size c) (gateup_width c) hidden EpilogueNone ].

Definition decode_probes (rows : Z) : list GemmConfig :=
  linear_probes rows ++
  [Linear rows (vocab_size c) (hidden_size c) (hidden_size c) (vocab_size c) EpilogueNone].

(** Probe a list; the result says whether every one is available. *)
Fixpoint probe_list (tag : string) (l : list GemmConfig) : XM bool :=
  match l with
  | [] => mret true
  | cfg :: l' => ok ← on_gemm (Probe lt cfg tag); rest ← probe_list tag l'; mret ((ok : bool) && rest)
  end.

Definition ProbeDecodeGemmConfigs : XM () :=
  ok ← probe_list "decode" (concat (map decode_probes row_shapes));
  if (ok : bool) then mret () else throw (ExecutorError "no algorithm for decode GEMM configuration(s)").

Definition scores_cfg (rows ctx heads : Z) : GemmConfig := PrefillScores rows ctx (head_dim c) heads (qkv_width c).
Definition pv_cfg (rows ctx heads : Z) : GemmConfig := PrefillPv rows ctx (head_dim c) heads (hidden_size c).

Definition ProbePrefillGemmConfigs : XM () :=
  let rep_rows := Z.min (x_prefill_chunk_tokens o) (x_max_seq_len o) in
  let rep_ctx := x_max_seq_len o in
  ok ← probe_list "prefill" (linear_probes rep_rows);
  (if (ok : bool) then mret () else throw (ExecutorError "no algorithm for prefill GEMM configuration(s)"));;
  batched_scores ← on_gemm (Probe lt (scores_cfg rep_rows rep_ctx (heads_per_group c)) "prefill:scores_strided_batched");
  batched_pv ← on_gemm (Probe lt (pv_cfg rep_rows rep_ctx (heads_per_group c)) "prefill:pv_strided_batched");
  per_head_scores ← on_gemm (Probe lt (scores_cfg rep_rows rep_ctx 1) "prefill:scores_per_head");
  per_head_pv ← on_gemm (Probe lt (pv_cfg rep_rows rep_ctx 1) "prefill:pv_per_head");
  if (batched_scores : bool) && batched_pv then modify (set_mode kStridedBatched) else
  if (per_head_scores : bool) && per_head_pv then modify (set_mode kPerHead) else
  throw (ExecutorError "no algorithm for the prefill attention GEMMs").

Definition ResolvePrefillGemmMode (rows ctx : Z) : XM PrefillGemmMode :=
  s ← get;
  batched ← (if decide (x_mode s = kStridedBatched) then
    scores_ok ← on_gemm (Probe lt (scores_cfg rows ctx (heads_per_group c)) "scores_strided_batched");
    pv_ok ← on_gemm (Probe lt (pv_cfg rows ctx (heads_per_group c)) "pv_strided_batched");
    if (scores_ok : bool) && pv_ok then mret true else modify (set_warned true);; mret false
  else mret false);
  if (batched : bool) then mret kStridedBatched else
  per_head_scores_ok ← on_gemm (Probe lt (scores_cfg rows ctx 1) "scores_per_head");
  per_head_pv_ok ← on_gemm (Probe lt (pv_cfg rows ctx 1) "pv_per_head");
  if (per_head_scores_ok : bool) && per_head_pv_ok then mret kPerHead
  else throw (ExecutorError "no algorithm for the prefill attention GEMMs at chunk shape").

(** ** Warmup and capture *)

Definition decode_step_launches (rows : Z) : list launch := EnqueueDecodeForward c o rows ++ EnqueueArgmax c rows.

Definition WarmupDecodeBucket (rows : Z) : XM () :=
  on_mirrors (FillDummyDecodeMirrors o rows);;
  upload (UploadDecodeInputs o rows);;
  issue_all (decode_step_launches rows);;
  finish_step rows.

Definition capture_bucket (rows : Z) : XM () :=
  on_mirrors (FillDummyDecodeMirrors o rows);;
  upload (UploadDecodeInputs o rows);;
  CudaCheck "drain dummy inputs before capture" drained;;
  CudaCheck "cudaStreamBeginCapture" (set_capture (Some []));;
  issue_all (decode_step_launches rows);;
  s ← get;
  let graph := default [] (x_capture s) in
  ok ← cuda_status;
  modify (set_capture None);;
  (if (ok : bool) then mret () else throw (ExecutorError "cudaStreamEndCapture"));;
  CudaCheck "cudaGraphInstantiate" (λ s,
    set_resources (x_ptrs s) ({[RGraph (length (x_execs s))]} ∪ x_live s) (set_graphs (x_graphs s) (x_execs s ++ [graph]) s));;
  CudaCheck "cudaGraphUpload" id_state;;
  CudaCheck "drain graph upload" drained.

Fixpoint for_each (l : list Z) (f : Z → XM ()) : XM () :=
  match l with
  | [] => mret ()
  | b :: l' => f b;; for_each l' f
  end.

(** The graph handles [RGraph 0 .. RGraph (n-1)]. *)
Definition graph_handles (n : nat) : gset resource := list_to_set (map RGraph (seq 0 n)).

Definition degrade : XM () :=
  s ← get;
  (match x_capture s with Some _ => cuda_ignore id_state;; modify (set_capture None) | None => mret () end);;
  modify (λ s, set_graphs (x_graphs s) []
                 (set_resources (x_ptrs s) (x_live s ∖ graph_handles (length (x_execs s))) s));;
  cuda_ignore id_state;;
  cuda_ignore drained.

(** [try { m } catch (...) { handler }] *)
Definition try_catch {A} (m : XM A) (handler : error → XM A) : XM A := λ s,
  match m s with
  | (Err e, s') => if is_exception e then handler e s' else (Err e, s')
  | r => r
  end.

Definition CaptureDecodeGraphs : XM () :=
  s ← get;
  assert "graph_execs_.empty()" (is_nil (x_graphs s));;
  captured ← try_catch (
    for_each (buckets o) WarmupDecodeBucket;;
    CudaCheck "cudaMemGetInfo before capture" id_state;;
    for_each (buckets o) capture_bucket;;
    CudaCheck "cudaMemGetInfo after capture" id_state;;
    mret true) (λ _, degrade;; mret false);
  if (captured : bool) then modify (λ s, set_graphs (x_execs s) [] s) else mret ().

(** ** Construction and release *)

Definition zero_mirrors : Mirrors :=
  let zeros n := replicate (Z.to_nat n) 0 in
  mkMirrors (zeros (step_rows o)) (zeros (step_rows o)) (zeros (x_max_batch o)) (zeros (table_elems o)) (zeros (x_max_batch o)).

Definition AllocateDeviceMemory : XM () :=
  CudaCheck "cudaMalloc KV pool" (acquire RPool);;
  CudaCheck "cudaMalloc scratch slab" (acquire RScratch);;
  CudaCheck "zero KV pool" id_state;;
  CudaCheck "zero scratch slab" id_state;;
  CudaCheck "drain init memsets" (λ s, set_stream (x_mirrors s) (dev_zero dev) (x_queue s) s).

Definition AllocatePinnedMirrors : XM () :=
  CudaCheck "cudaHostAlloc mirror slab" (acquire RPinned);;
  modify (set_mirrors zero_mirrors).

(** Frees what the pointers name and nulls them. *)
Definition ReleaseAll : XM () :=
  modify (λ s, set_graphs [] (x_execs s)
                 (set_resources (x_ptrs s) (x_live s ∖ graph_handles (length (x_graphs s))) s));;
  modify (λ s, set_mirrors no_mirrors (set_resources ∅ (x_live s ∖ x_ptrs s) s)).

Definition construct : XM () :=
  CudaCheck "create stream s0" (acquire RStream);;
  on_gemm (Init lt kDefaultWorkspaceBytes);;
  AllocateDeviceMemory;;
  AllocatePinnedMirrors;;
  ProbeDecodeGemmConfigs;;
  ProbePrefillGemmConfigs;;
  if enable_cuda_graphs o then CaptureDecodeGraphs else mret ().

Definition ModelExecutor_new : XM () :=
  match ComputeBudget c o with
  | Err e => throw e
  | Ok budget =>
      (if negb (weights_num_layers =? num_layers c)
       then throw (ExecutorError "DeviceWeights has a different number of layers") else mret ());;
      lift (derive_widths c o budget);;
      modify (set_dump (negb (String.eqb (debug_dump_dir o) "")));;
      try_catch construct (λ e, ReleaseAll;; throw e)
  end.

(** ** Steps *)

Definition has_decode_graphs (s : Executor Algo D) : bool := negb (is_nil (x_graphs s)).

Definition DecodeEager (batch : list Request) : XM DecodeOutput :=
  if is_nil batch then mret no_decode_output else
  (if x_max_batch o <? to_int32 (zlen batch) then throw (ExecutorError "decode batch exceeds max_batch") else mret ());;
  rows ← on_mirrors (FillDecodeMirrors c o num_kv_blocks_ batch 0);
  upload (UploadDecodeInputs o rows);;
  issue_all (EnqueueDecodeForward c o rows);;
  issue_all (EnqueueArgmax c rows);;
  finish_step rows;;
  s ← get;
  mret (mkDecodeOutput (take (length batch) (h_argmax (x_mirrors s))) rows (BucketForRows o rows)).

(** [std::find(buckets_) - buckets_.begin()] *)
Definition bucket_index (b : Z) : nat :=
  match list_find (λ x, x = b) (buckets o) with Some (i, _) => i | None => length (buckets o) end.

Definition DecodeGraph (batch : list Request) : XM DecodeOutput :=
  if is_nil batch then mret no_decode_output else
  s ← get;
  (if has_decode_graphs s then mret () else throw (ExecutorError "DecodeGraph called with no captured decode graphs"));;
  let live := to_int32 (zlen batch) in
  (if x_max_batch o <? live then throw (ExecutorError "decode batch exceeds max_batch") else mret ());;
  let b := SelectBucket live (buckets o) in
  (if b <? 0 then throw (ExecutorError "no decode bucket covers the batch") else mret ());;
  rows ← on_mirrors (FillDecodeMirrors c o num_kv_blocks_ batch b);
  assert "rows == bucket" (rows =? b);;
  upload (UploadDecodeInputs o rows);;
  graph ← from_option_or (UndefinedBehaviour "graph_execs_ index") (x_graphs s !! bucket_index b);
  CudaCheck "cudaGraphLaunch decode" (λ s, foldl (λ s l, queue_work (Kernel l) s) s graph);;
  finish_step rows;;
  s' ← get;
  mret (mkDecodeOutput (take (length batch) (h_argmax (x_mirrors s'))) rows b).

(** A null request is refused before anything else. *)
Definition PrefillChunk (req : option Request) (chunk_begin chunk_end : Z) : XM PrefillOutput :=
  match req with
  | None => throw (ExecutorError "PrefillChunk called with a null request")
  | Some request =>
      rows ← on_mirrors (FillPrefillMirrors c o num_kv_blocks_ request chunk_begin chunk_end);
      let ctx := chunk_end in
      let final := chunk_end =? num_prompt_tokens request in
      mode ← ResolvePrefillGemmMode rows ctx;
      upload (UploadPrefillInputs o rows);;
      issue_all (EnqueuePrefillForward c o rows chunk_begin ctx final mode);;
      out ← (if final then
          issue_all (EnqueueArgmax c 1);;
          finish_step 1;;
          s ← get;
          tok ← from_option_or (UndefinedBehaviour "h_argmax_[0]") (h_argmax (x_mirrors s) !! 0%nat);
          mret (mkPrefillOutput tok true rows)
        else
          CudaCheck "prefill chunk sync" drained;;
          CudaCheck "prefill chunk launches" id_state;;
          mret (mkPrefillOutput (-1) false rows));
      s ← get;
      (if x_dump_pending s then modify (set_dump false);; DumpLayer0Activations rows chunk_begin ctx mode else mret ());;
      mret out
  end.

End executor.

#[global] Arguments graph_handles : simpl never.
