(* ===== verification/ExecutorInit.v ===== *)
(** * Construction of the executor ([ModelExecutor::ModelExecutor])

    Every way construction can end: a built object, or an exception after which
    the driver holds nothing the constructor asked for.  Graph capture, part of
    construction, never turns a failure into an exception. *)

From S2P Require Import Prelude Doubles Types ModelConfig Scheduler GemmConfig Gemm GemmServe ExecutorLayout ExecutorMirrors Launches Executor.

(** ** Mirror sizes *)

Section sizes.
Context (o : ExecutorOptions).

Lemma sized_state4 i p l t m0 :
  mirrors_sized o m0 → zlen i <= step_rows o → zlen p <= step_rows o → zlen l <= x_max_batch o →
  zlen t <= table_elems o → mirrors_sized o (state4 i p l t m0).
Proof. intros [H1 H2 H3 H4] ????. split; cbn; rewrite zlen_over; lia. Qed.

Lemma wp_fill_dummy_rows n : ∀ i p l t m0 r (Q : () → Mirrors → Prop),
  0 <= mbps o → mirrors_sized o m0 → r = zlen i → zlen p = zlen i → zlen l = zlen i → zlen t = zlen i * mbps o →
  zlen i + Z.of_nat n <= x_max_batch o →
  Q () (state4 (i ++ replicate n 0) (p ++ replicate n 0) (l ++ replicate n 1)
          (t ++ replicate (n * Z.to_nat (mbps o)) 0) m0) →
  wp (fill_dummy_rows o r n) Q (state4 i p l t m0).
Proof.
  induction n as [|n IH]; intros i p l t m0 r Q Hw Hm -> Hp Hl Ht Hn HQ; cbn [fill_dummy_rows].
  { apply wp_ret. cbn in HQ. by rewrite !app_nil_r in HQ. }
  pose proof Hm as [Hm1 Hm2 Hm3 Hm4]. unfold step_rows, table_elems in *.
  change (max_blocks_per_seq o) with (mbps o) in *. pose proof (zlen_nonneg i).
  wp_auto. apply wp_put_id; [done|lia|]. wp_auto. apply wp_put_position; [lia|lia|]. wp_auto.
  apply wp_put_seq_len; [lia|lia|]. wp_auto. apply wp_fill_dummy; [lia|nia|].
  assert (∀ (a : list Z) x k, a ++ replicate (S k) x = (a ++ [x]) ++ replicate k x) as Hrep.
  { intros a x k. by rewrite <- app_assoc. }
  apply IH; try done; zlen; try lia.
  { unfold zlen at 2. rewrite length_replicate. lia. }
  change (S n * Z.to_nat (mbps o))%nat with (Z.to_nat (mbps o) + n * Z.to_nat (mbps o))%nat in HQ.
  rewrite !Hrep, replicate_add, (app_assoc t) in HQ. exact HQ.
Qed.

Lemma zlen_replicate n (x : Z) : zlen (replicate n x) = Z.of_nat n.
Proof. unfold zlen. by rewrite length_replicate. Qed.

(** The dummy inputs fit the mirrors at every row count up to [max_batch]. *)
Lemma wp_FillDummyDecodeMirrors rows m0 :
  0 <= mbps o → mirrors_sized o m0 → rows <= x_max_batch o →
  wp (FillDummyDecodeMirrors o rows) (λ _ m, mirrors_sized o m) m0.
Proof.
  intros Hw Hm Hr. unfold FillDummyDecodeMirrors. rewrite <- (state4_nil m0) at 1.
  pose proof (zlen_nonneg (h_seq_lens m0)) as H3. rewrite (ms_len _ _ Hm) in H3.
  destruct (Z.le_gt_cases rows 0) as [Hneg|Hpos].
  { rewrite Z2Nat.nonpos by done. apply wp_ret. by rewrite state4_nil. }
  apply wp_fill_dummy_rows; [done|done|done|done|done|done|unfold zlen; cbn [length]; lia|]. cbn [app].
  apply sized_state4; [done|..]; rewrite zlen_replicate; unfold step_rows, table_elems; try lia.
  change (max_blocks_per_seq o) with (mbps o). rewrite Nat2Z.inj_mul, !Z2Nat.id by lia. nia.
Qed.

Lemma zero_mirrors_sized c : geometry_ok c o → mirrors_sized o (zero_mirrors o).
Proof.
  intros Hg. pose proof (go_batch _ _ Hg). pose proof (go_chunk _ _ Hg).
  pose proof (sizes_nonneg _ _ Hg) as (? & _ & _ & _ & _ & ?).
  split; cbn; rewrite zlen_replicate, Z2Nat.id; lia.
Qed.

(** Queued work changes no input mirror. *)
Lemma run_work_sized {D} (dev : Device D) ws : ∀ m d,
  mirrors_sized o m → mirrors_sized o (foldl (run_work dev) (m, d) ws).1.
Proof.
  induction ws as [|w ws IH]; intros m d Hm; [done|]. cbn [foldl].
  destruct w; cbn [run_work]; apply IH; [done..|]. destruct Hm. by split.
Qed.

End sizes.

(** ** What every call keeps *)

Section keeps.
Context {Algo D : Type} (c : ModelConfig) (o : ExecutorOptions).
Context (lt : LtLibrary Algo) (dev : Device D).
Context (dma : nat → nat) (cuda_ok : nat → bool).
Notation Executor := (Executor Algo D).
Notation XM := (M error Executor).
Context (Hg : geometry_ok c o).

(** The object during construction: the pointers [ptrs], the graph handles of
    the local vector, nothing else; no graph is published. *)
Record building (ptrs : gset resource) (sized : bool) (s : Executor) : Prop := {
  bd_cache : cache_ok (x_gemm s);
  bd_ptrs : x_ptrs s = ptrs;
  bd_live : x_live s = ptrs ∪ graph_handles (length (x_execs s));
  bd_graphs : x_graphs s = [];
  bd_sized : sized = true → mirrors_sized o (x_mirrors s);
}.

(** A computation that keeps [P], and whose errors are runtime errors. *)
Definition keeps {A} (P : Executor → Prop) (m : XM A) : Prop :=
  ∀ s, P s → wpx m (λ _ s', P s') (λ e s', P s' ∧ runtime_error e = true) s.

(** Predicates the progress of the stream cannot change. *)
Definition stream_closed (P : Executor → Prop) : Prop :=
  (∀ s, P s → P (count_call s)) ∧
  (∀ s ws q, P s → let x := foldl (run_work dev) (x_mirrors s, x_dev s) ws in P (set_stream x.1 x.2 q s)).

Lemma keeps_ret {A} P (a : A) : keeps P (mret a).
Proof. by intros s Hs. Qed.

Lemma keeps_throw {A} P e : runtime_error e = true → keeps (A:=A) P (throw e).
Proof. by intros He s Hs. Qed.

Lemma keeps_bind {A B} P (m : XM A) (f : A → XM B) : keeps P m → (∀ a, keeps P (f a)) → keeps P (m ≫= f).
Proof.
  intros Hm Hf s Hs. wpx_step. eapply wpx_mono; [by apply Hm| |done]. intros a s1 H1. by apply Hf.
Qed.

Lemma keeps_get_bind {B} P (f : Executor → XM B) : (∀ s, keeps P (f s)) → keeps P (get ≫= f).
Proof. intros Hf s Hs. wpx_step. by apply wpx_get, Hf. Qed.

Lemma keeps_modify P f : (∀ s, P s → P (f s)) → keeps P (modify f).
Proof. intros Hf s Hs. by apply wpx_modify, Hf. Qed.

Lemma keeps_if {A} P (b : bool) (m1 m2 : XM A) : keeps P m1 → keeps P m2 → keeps P (if b then m1 else m2).
Proof. by destruct b. Qed.

Lemma run_queue_run n (s : Executor) :
  let x := foldl (run_work dev) (x_mirrors s, x_dev s) (take n (x_queue s)) in
  run_queue dev n s = (Ok (), set_stream x.1 x.2 (drop n (x_queue s)) s).
Proof. unfold run_queue, modify. by destruct (foldl _ _ _). Qed.

Lemma drained_eq (s : Executor) :
  let x := foldl (run_work dev) (x_mirrors s, x_dev s) (x_queue s) in drained dev s = set_stream x.1 x.2 [] s.
Proof. unfold drained. by destruct (foldl _ _ _). Qed.

Lemma keeps_cuda_status P : stream_closed P → keeps P (cuda_status dev dma cuda_ok).
Proof.
  intros [Hc Hq] s Hs. unfold cuda_status. wpx_auto. eapply wpx_eq; [apply run_queue_run|].
  apply wpx_ret. by apply (Hq (count_call s)), Hc.
Qed.

Lemma keeps_CudaCheck P what f :
  stream_closed P → (∀ s, P s → P (f s)) → keeps P (CudaCheck dev dma cuda_ok what f).
Proof.
  intros HP Hf. apply keeps_bind; [by apply keeps_cuda_status|]. intros ok.
  apply keeps_if; [by apply keeps_modify|by apply keeps_throw].
Qed.

Lemma keeps_cuda_ignore P f :
  stream_closed P → (∀ s, P s → P (f s)) → keeps P (cuda_ignore dev dma cuda_ok f).
Proof.
  intros HP Hf. apply keeps_bind; [by apply keeps_cuda_status|]. intros ok.
  apply keeps_if; [by apply keeps_modify|apply keeps_ret].
Qed.

Lemma keeps_drained P s : stream_closed P → P s → P (drained dev s).
Proof. intros [_ Hq] Hs. rewrite drained_eq. by apply Hq. Qed.

Lemma building_closed ptrs sized : stream_closed (building ptrs sized).
Proof.
  split; [by intros s []|]. intros s ws q [H1 H2 H3 H4 H5]. split; cbn; [done..|].
  intros Hs. by apply run_work_sized, H5.
Qed.

Lemma building_queue ptrs sized w s : building ptrs sized s → building ptrs sized (queue_work w s).
Proof. by intros []. Qed.

Lemma building_capture ptrs sized k s : building ptrs sized s → building ptrs sized (set_capture k s).
Proof. by intros []. Qed.

Lemma keeps_on_gemm {A} ptrs sized (m : M error (CublasLtGemm Algo) A) :
  gemm_total m → keeps (building ptrs sized) (on_gemm m).
Proof.
  intros Hm s Hs. unfold on_gemm. apply wpx_zoom. eapply wpx_mono; [apply Hm, Hs| |]; cbv beta.
  - intros a g ?. destruct Hs. by split.
  - intros e g [? [what ->]]. destruct Hs. split; [by split|done].
Qed.

Lemma gemm_run_total call cfg bias stream : gemm_total (gemm_run lt call cfg bias stream).
Proof. destruct call; cbn; [auto with gemm|destruct bias; auto with gemm|auto with gemm..]. Qed.

Lemma keeps_enqueue ptrs sized l : keeps (building ptrs sized) (enqueue l).
Proof.
  apply keeps_modify. intros s Hs. destruct (x_capture s); [by apply building_capture|by apply building_queue].
Qed.

Lemma keeps_issue ptrs sized l : keeps (building ptrs sized) (issue lt cuda_ok l).
Proof.
  destruct l; cbn [issue]; try apply keeps_enqueue. apply keeps_get_bind. intros s.
  apply keeps_bind; [apply keeps_on_gemm, gemm_run_total|]. intros _. apply keeps_enqueue.
Qed.

Lemma keeps_issue_all ptrs sized ls : keeps (building ptrs sized) (issue_all lt cuda_ok ls).
Proof.
  induction ls as [|l ls IH]; cbn [issue_all]; [apply keeps_ret|].
  apply keeps_bind; [apply keeps_issue|done].
Qed.

Lemma keeps_upload ptrs sized l : keeps (building ptrs sized) (upload dev dma cuda_ok l).
Proof.
  induction l as [|[b n] l IH]; cbn [upload]; [apply keeps_ret|].
  apply keeps_bind; [|done]. apply keeps_CudaCheck; [apply building_closed|]. intros s. apply building_queue.
Qed.

Lemma keeps_finish_step ptrs sized n : keeps (building ptrs sized) (finish_step dev dma cuda_ok n).
Proof.
  pose proof (building_closed ptrs sized). unfold finish_step.
  repeat (apply keeps_bind; [|intros _]); apply keeps_CudaCheck; try done.
  - intros s. apply building_queue.
  - intros s. by apply keeps_drained.
Qed.

Lemma keeps_dummy ptrs rows :
  rows <= x_max_batch o → keeps (building ptrs true) (on_mirrors (FillDummyDecodeMirrors o rows)).
Proof using Hg.
  intros Hr s Hs. unfold on_mirrors. apply wpx_zoom, wpx_of_wp.
  assert (0 <= mbps o) as Hw.
  { unfold mbps, max_blocks_per_seq. apply BlocksForTokens_nonneg. pose proof (go_seq _ _ Hg). lia. }
  eapply wp_mono; [apply wp_FillDummyDecodeMirrors; [done|by apply Hs|done]|].
  cbv beta; intros _ m Hm. destruct Hs. by split.
Qed.

Lemma keeps_probe_list ptrs sized tag l : keeps (building ptrs sized) (probe_list lt tag l).
Proof.
  induction l as [|cfg l IH]; cbn [probe_list]; [apply keeps_ret|].
  apply keeps_bind; [apply keeps_on_gemm, Probe_total|]. intros ok.
  apply keeps_bind; [done|]. intros rest. apply keeps_ret.
Qed.

End keeps.

(** ** Capture *)

Section capture.
Context {Algo D : Type} (c : ModelConfig) (o : ExecutorOptions).
Context (lt : LtLibrary Algo) (dev : Device D).
Context (dma : nat → nat) (cuda_ok : nat → bool).
Notation Executor := (Executor Algo D).
Notation XM := (M error Executor).
Context (Hg : geometry_ok c o).
Notation building := (building o).
Notation CudaCheck := (CudaCheck dev dma cuda_ok).

Lemma graph_handles_S n : graph_handles (S n) = {[RGraph n]} ∪ graph_handles n.
Proof. unfold graph_handles. rewrite seq_S, map_app, list_to_set_app_L. cbn. set_solver. Qed.

Lemma keeps_instantiate ptrs graph (s : Executor) :
  building ptrs true s →
  building ptrs true (set_resources (x_ptrs s) ({[RGraph (length (x_execs s))]} ∪ x_live s)
                        (set_graphs (x_graphs s) (x_execs s ++ [graph]) s)).
Proof.
  intros [H1 H2 H3 H4 H5]. split; cbn; try done. rewrite length_app. cbn [length].
  rewrite Nat.add_1_r, graph_handles_S, H3. set_solver.
Qed.

Ltac keep := repeat lazymatch goal with
  | |- keeps _ (Executor.CudaCheck _ _ _ _ _) => apply keeps_CudaCheck; [apply building_closed|intros ?]
  | |- keeps _ (get ≫= _) => apply keeps_get_bind; intros ?
  | |- keeps _ (_ ≫= _) => apply keeps_bind; [|intros ?]
  | |- keeps _ (if _ then _ else _) => apply keeps_if
  | |- keeps _ (mret _) => apply keeps_ret
  | |- keeps _ (throw _) => by apply keeps_throw
  | |- keeps _ (upload _ _ _ _) => apply keeps_upload
  | |- keeps _ (issue_all _ _ _) => apply keeps_issue_all
  | |- keeps _ (finish_step _ _ _ _) => apply keeps_finish_step
  | |- keeps _ (probe_list _ _ _) => apply keeps_probe_list
  | |- keeps _ (cuda_status _ _ _) => apply keeps_cuda_status, building_closed
  | |- keeps _ (modify _) => apply keeps_modify; intros ?
  | |- keeps _ (on_mirrors (FillDummyDecodeMirrors _ _)) => apply (keeps_dummy c)
  | |- keeps _ (on_gemm (Probe _ _ _)) => apply keeps_on_gemm, Probe_total
  | |- keeps _ (on_gemm (Init _ _)) => apply keeps_on_gemm, Init_total
  end.

Lemma keeps_Warmup ptrs rows : rows <= x_max_batch o →
  keeps (building ptrs true) (WarmupDecodeBucket c o lt dev dma cuda_ok rows).
Proof using Hg. intros Hr. unfold WarmupDecodeBucket. by keep. Qed.

Lemma keeps_capture_bucket ptrs rows : rows <= x_max_batch o →
  keeps (building ptrs true) (capture_bucket c o lt dev dma cuda_ok rows).
Proof using Hg.
  intros Hr. unfold capture_bucket. keep; try done; intros Hs.
  - apply keeps_drained; [apply building_closed|done].
  - by apply building_capture.
  - by apply building_capture.
  - by apply keeps_instantiate.
  - apply keeps_drained; [apply building_closed|done].
Qed.

Lemma keeps_for_each {P : Executor → Prop} l (f : Z → XM ()) :
  Forall (λ b, keeps P (f b)) l → keeps P (for_each l f).
Proof.
  induction 1 as [|b l Hb _ IH]; cbn [for_each]; [apply keeps_ret|]. by apply keeps_bind.
Qed.

(** *** What is captured *)

Definition region (k : option (list launch)) (es : list (list launch)) (s : Executor) : Prop :=
  x_capture s = k ∧ x_execs s = es.

(** A computation that keeps [P] on every outcome. *)
Definition stays {A} (P : Executor → Prop) (m : XM A) : Prop := ∀ s, P s → wpx m (λ _ s', P s') (λ _ s', P s') s.

Lemma stays_bind {A B} P (m : XM A) (f : A → XM B) : stays P m → (∀ a, stays P (f a)) → stays P (m ≫= f).
Proof. intros Hm Hf s Hs. wpx_step. eapply wpx_mono; [by apply Hm| |done]. intros a s1 H1. by apply Hf. Qed.

Lemma stays_cuda_status k es : stays (region k es) (cuda_status dev dma cuda_ok).
Proof. intros s Hs. unfold cuda_status. wpx_auto. eapply wpx_eq; [apply run_queue_run|]. by apply wpx_ret. Qed.

Lemma stays_CudaCheck k es what f :
  (∀ s, region k es s → region k es (f s)) → stays (region k es) (CudaCheck what f).
Proof.
  intros Hf. apply stays_bind; [apply stays_cuda_status|]. intros [] s Hs; [by apply wpx_modify, Hf|by apply wpx_throw].
Qed.

Lemma region_drained k es s : region k es s → region k es (drained dev s).
Proof. rewrite drained_eq. done. Qed.

Lemma stays_zoom {A T} k es (view : Executor → T) update (m : M error T A) :
  (∀ t s, region k es s → region k es (update t s)) → stays (region k es) (zoom view update m).
Proof. intros Hu s Hs. apply wpx_zoom. unfold wpx. destruct (m (view s)) as [[] t]; by apply Hu. Qed.

Lemma stays_upload k es l : stays (region k es) (upload dev dma cuda_ok l).
Proof.
  induction l as [|[b n] l IH]; cbn [upload]; [by intros s Hs|].
  apply stays_bind; [by apply stays_CudaCheck|done].
Qed.

Lemma stays_finish_step k es n : stays (region k es) (finish_step dev dma cuda_ok n).
Proof.
  unfold finish_step. repeat (apply stays_bind; [|intros _]); apply stays_CudaCheck; try done.
  intros s. apply region_drained.
Qed.

(** Issuing launches extends an open region, and leaves a closed one closed. *)
Lemma issue_region l k es s : region k es s →
  wpx (issue lt cuda_ok l) (λ _ s', region (match k with Some ls => Some (ls ++ [l]) | None => None end) es s')
    (λ _ _, True) s.
Proof.
  assert (∀ s, region k es s → wpx (enqueue l)
    (λ _ s', region (match k with Some ls => Some (ls ++ [l]) | None => None end) es s') (λ _ _, True) s) as He.
  { intros s1 [<- <-]. unfold enqueue. wpx_auto. destruct (x_capture s1) eqn:Hk; [done|]. by split. }
  intros Hs. destruct l; cbn [issue]; try by apply He. wpx_auto. eapply wpx_mono; [by apply (stays_zoom k es)| |done].
  intros []. apply He.
Qed.

Lemma issue_all_region ls : ∀ k es s, region k es s →
  wpx (issue_all lt cuda_ok ls) (λ _ s', region (match k with Some l0 => Some (l0 ++ ls) | None => None end) es s')
    (λ _ _, True) s.
Proof.
  induction ls as [|l ls IH]; intros k es s Hs; cbn [issue_all].
  { apply wpx_ret. destruct k; [by rewrite app_nil_r|done]. }
  wpx_step. eapply wpx_mono; [by apply (issue_region l k es)| |done]. cbv beta. intros [] s1 H1.
  eapply wpx_mono; [by apply (IH _ _ _ H1)| |done]. cbv beta. intros [] s2.
  destruct k; [by rewrite <- app_assoc|done].
Qed.

Tactic Notation "from" uconstr(H) := eapply wpx_mono; [eapply H; try done| |done]; cbv beta.

Lemma Warmup_region rows es s : region None es s →
  wpx (WarmupDecodeBucket c o lt dev dma cuda_ok rows) (λ _ s', region None es s') (λ _ _, True) s.
Proof.
  intros Hs. unfold WarmupDecodeBucket. wpx_step. from (stays_zoom None es). intros [] s1 H1. wpx_step.
  from (stays_upload None es). intros [] s2 H2. wpx_step. from (issue_all_region _ None es). intros [] s3 H3.
  by from (stays_finish_step None es).
Qed.

Lemma CudaCheck_region k es k' es' what f s :
  region k es s → (∀ s, region k es s → region k' es' (f s)) →
  wpx (CudaCheck what f) (λ _ s', region k' es' s') (λ _ _, True) s.
Proof.
  intros Hs Hf. unfold Executor.CudaCheck. wpx_step. from (stays_cuda_status k es).
  intros [] s1 H1; [by apply wpx_modify, Hf|done].
Qed.

Lemma capture_region rows es s : region None es s →
  wpx (capture_bucket c o lt dev dma cuda_ok rows)
    (λ _ s', region None (es ++ [decode_step_launches c o rows]) s') (λ _ _, True) s.
Proof.
  intros Hs. unfold capture_bucket. wpx_step. from (stays_zoom None es). intros [] s1 H1. wpx_step.
  from (stays_upload None es). intros [] s2 H2. wpx_step. from (stays_CudaCheck None es); [apply region_drained|].
  intros [] s3 H3. wpx_step. from (CudaCheck_region None es (Some []) es); [by intros s' [_ ?]|].
  intros [] s4 H4. wpx_step. from (issue_all_region (decode_step_launches c o rows) (Some []) es).
  intros [] s5 H5. wpx_auto. pose proof H5 as [-> _]. cbn [default app].
  from (stays_cuda_status (Some (decode_step_launches c o rows)) es). intros ok s6 [_ H6]. wpx_auto.
  destruct ok; wpx_auto; [|done].
  from (CudaCheck_region None es None (es ++ [decode_step_launches c o rows])); [by intros s' [? <-]|].
  intros [] s7 H7. wpx_step. from (stays_CudaCheck None (es ++ [decode_step_launches c o rows])). intros [] s8 H8.
  from (stays_CudaCheck None (es ++ [decode_step_launches c o rows])); [apply region_drained|done].
Qed.

Lemma for_each_region l (f : Z → XM ()) g : ∀ es s,
  (∀ b es s, region None es s → wpx (f b) (λ _ s', region None (es ++ g b) s') (λ _ _, True) s) →
  region None es s →
  wpx (for_each l f) (λ _ s', region None (es ++ concat (map g l)) s') (λ _ _, True) s.
Proof.
  induction l as [|b l IH]; intros es s Hf Hs; cbn [for_each map concat].
  { apply wpx_ret. by rewrite app_nil_r. }
  wpx_step. from Hf. intros [] s1 H1. rewrite app_assoc. by apply IH.
Qed.

(** *** The whole of capture *)

(** What the object looks like once capture has ended, either way. *)
Record finished (ptrs : gset resource) (s : Executor) : Prop := {
  fi_cache : cache_ok (x_gemm s);
  fi_ptrs : x_ptrs s = ptrs;
  fi_live : x_live s = ptrs ∪ graph_handles (length (x_graphs s));
  fi_graphs : x_graphs s = [] ∨ x_graphs s = map (decode_step_launches c o) (buckets o);
  fi_sized : mirrors_sized o (x_mirrors s);
  fi_closed : x_capture s = None;
}.

Lemma buckets_range : Forall (λ b, 1 <= b <= x_max_batch o) (buckets o).
Proof using Hg.
  assert (Forall (λ b, 1 <= b) kLadder) as Hl by (apply (bool_decide_eq_true_1 _); by vm_compute).
  unfold buckets, MakeDecodeBuckets. apply Forall_forall. intros b Hb. apply list_elem_of_filter in Hb as [Hle Hin].
  split; [|done]. by apply (proj1 (Forall_forall _ _) Hl).
Qed.

Lemma degrade_finishes ptrs s :
  (∀ i, RGraph i ∉ ptrs) → building ptrs true s →
  wpx (degrade dev dma cuda_ok) (λ _ s', building ptrs true s' ∧ region None [] s') (λ _ _, False) s.
Proof.
  intros Hnot Hs. unfold degrade.
  assert (∀ (P : Executor → Prop) (f : Executor → Executor) s, stream_closed dev P → P s → (∀ s, P s → P (f s)) →
    wpx (cuda_ignore dev dma cuda_ok f) (λ _ s', P s') (λ _ _, False) s) as Hign.
  { intros P f s1 [Hc Hq] H1 Hf. unfold cuda_ignore, cuda_status. wpx_auto. eapply wpx_eq; [apply run_queue_run|].
    apply wpx_ret. destruct (cuda_ok _); wpx_auto; [apply Hf|]; by apply (Hq (count_call s1)), Hc. }
  assert (∀ k es, stream_closed dev (λ s, building ptrs true s ∧ region k es s)) as Hcl.
  { intros k es. split; [by intros s1 [[] ?]|]. intros s1 ws q [H1 H2]. split; [by apply building_closed|done]. }
  wpx_step. apply wpx_get. wpx_step.
  assert (wpx (match x_capture s with Some _ => cuda_ignore dev dma cuda_ok id_state;; modify (set_capture None) | None => mret () end)
    (λ _ s', building ptrs true s' ∧ region None (x_execs s) s') (λ _ _, False) s) as H0.
  { destruct (x_capture s) as [ls|] eqn:Hk; [|by apply wpx_ret]. wpx_step.
    eapply wpx_mono; [apply (Hign (λ s', building ptrs true s' ∧ region (Some ls) (x_execs s) s')); [done| |done]| |done].
    - split; [done|by split].
    - cbv beta. intros [] s1 [H1 [_ H2]]. apply wpx_modify. by split; [apply building_capture|]. }
  eapply wpx_mono; [exact H0| |done]. cbv beta. intros [] s1 [[H1 H2 H3 H4 H5] [H6 H7]]. wpx_auto.
  set (s2 := set_graphs _ _ _).
  assert (building ptrs true s2 ∧ region None [] s2) as Hs2.
  { split; [|done]. subst s2. split; cbn; try done. rewrite H3.
    assert (graph_handles (length (x_execs s1)) ## ptrs) as Hdis.
    { intros r Hr Hp. apply elem_of_list_to_set, list_elem_of_fmap in Hr as (i & -> & _). by apply (Hnot i). }
    unfold graph_handles at 2. cbn. set_solver. }
  eapply wpx_mono; [by apply (Hign (λ s', building ptrs true s' ∧ region None [] s'))| |done]. cbv beta.
  intros [] s3 H8. eapply wpx_mono; [apply (Hign (λ s', building ptrs true s' ∧ region None [] s')); [done|done|]| |done].
  - intros s4 [H9 H10]. split; [by apply keeps_drained; [apply building_closed|]|by apply region_drained].
  - done.
Qed.

Lemma wpx_try_catch {A} (m : XM A) h (Q : A → Executor → Prop) R s :
  wpx m Q (λ e s', runtime_error e = true ∧ wpx (h e) Q R s') s → wpx (try_catch m h) Q R s.
Proof. unfold wpx, try_catch. destruct (m s) as [[a|e] s']; [done|]. by intros [->%runtime_exception ?]. Qed.

Lemma concat_singletons {A B} (f : A → B) l : concat (map (λ x, [f x]) l) = map f l.
Proof. induction l as [|x l IH]; [done|]. cbn. by rewrite IH. Qed.

Lemma concat_nils {A B} (l : list A) : concat (map (λ _, @nil B) l) = [].
Proof. by induction l. Qed.

Lemma CaptureDecodeGraphs_finishes ptrs s :
  (∀ i, RGraph i ∉ ptrs) → building ptrs true s → region None [] s →
  wpx (CaptureDecodeGraphs c o lt dev dma cuda_ok) (λ _ s', finished ptrs s') (λ _ _, False) s.
Proof using Hg.
  intros Hnot Hs Hr. unfold CaptureDecodeGraphs. wpx_auto.
  apply wpx_assert; rewrite (bd_graphs _ _ _ _ Hs); [intros _|intros H; discriminate H]. wpx_auto.
  pose proof buckets_range as Hb.
  eapply wpx_mono with (R := λ _ _, False) (Q := λ ok s', building ptrs true s' ∧
    region None (if (ok : bool) then map (decode_step_launches c o) (buckets o) else []) s'); [| |done].
  2:{ intros [] s1 [[H1 H2 H3 H4 H5] [H6 H7]]; wpx_auto.
      - split; cbn; [done|done|done|by right|by apply H5|done].
      - split; [done|done|by rewrite H3, H7, H4|by left|by apply H5|done]. }
  apply wpx_try_catch.
  match goal with |- wpx ?m _ _ _ => assert (keeps (building ptrs true) m) as Hk end.
  { keep; try done; apply keeps_for_each; (eapply Forall_impl; [done|]); cbv beta; intros b ?;
      [apply keeps_Warmup|apply keeps_capture_bucket]; lia. }
  eapply wpx_mono; [apply wpx_and; [by apply Hk|]| |].
  - instantiate (1 := λ _ _, True).
    instantiate (1 := λ ok s', ok = true ∧ region None (map (decode_step_launches c o) (buckets o)) s').
    wpx_step. from (for_each_region _ _ (λ _, []) []).
    { intros b es s1 H1. rewrite app_nil_r. by apply Warmup_region. }
    rewrite concat_nils. intros [] s1 H1. wpx_step. from (stays_CudaCheck None []). intros [] s2 H2. wpx_step.
    from (for_each_region _ _ (λ b, [decode_step_launches c o b]) []).
    { intros b es s3 H3. by apply capture_region. }
    rewrite concat_singletons. intros [] s3 H3. wpx_step.
    from (stays_CudaCheck None (map (decode_step_launches c o) (buckets o))). intros [] s4 H4. by apply wpx_ret.
  - cbv beta. by intros ok s1 (H1 & -> & H2).
  - cbv beta. intros e s1 [[H1 He] _]. split; [done|]. wpx_step.
    eapply wpx_mono; [by apply (degrade_finishes ptrs)| |done]. intros [] s2 H2. by apply wpx_ret.
Qed.

(** ** Construction *)

Definition phase (ptrs : gset resource) (sized : bool) (s : Executor) : Prop :=
  building ptrs sized s ∧ region None [] s.

Lemma phase_closed ptrs sized : stream_closed dev (phase ptrs sized).
Proof.
  split; [by intros s [[] ?]|]. intros s ws q [H1 H2]. split; [by apply building_closed|done].
Qed.

(** What a failed construction leaves before its release. *)
Definition aborted (e : error) (s : Executor) : Prop :=
  runtime_error e = true ∧ ∃ ptrs sized, (∀ i, RGraph i ∉ ptrs) ∧ phase ptrs sized s.

Lemma wpx_phase_call ptrs sized what f (Q : () → Executor → Prop) s :
  (∀ i, RGraph i ∉ ptrs) → phase ptrs sized s → (∀ s, phase ptrs sized s → Q () (f s)) →
  wpx (CudaCheck what f) Q aborted s.
Proof.
  intros Hnot Hs Hf. unfold Executor.CudaCheck. wpx_step.
  eapply wpx_mono; [apply (keeps_cuda_status _ _ _ (phase ptrs sized)); [apply phase_closed|done]| |].
  - intros [] s1 H1; [by apply wpx_modify, Hf|]. apply wpx_throw. split; [done|]. by exists ptrs, sized.
  - cbv beta. intros e s1 [H1 He]. split; [done|]. by exists ptrs, sized.
Qed.

Lemma wpx_phase_keeps {A} ptrs sized (m : XM A) (Q : A → Executor → Prop) s :
  (∀ i, RGraph i ∉ ptrs) → phase ptrs sized s → keeps (building ptrs sized) m → stays (region None []) m →
  (∀ a s', phase ptrs sized s' → Q a s') → wpx m Q aborted s.
Proof.
  intros Hnot [H1 H2] Hk Hst HQ. eapply wpx_mono; [apply wpx_and; [by apply Hk|by apply Hst]| |]; cbv beta.
  - intros a s' [? ?]. by apply HQ.
  - intros e s' [[? ?] ?]. split; [done|]. exists ptrs, sized. by split.
Qed.

Lemma acquire_building r ptrs sized s : phase ptrs sized s → phase ({[r]} ∪ ptrs) sized (acquire r s).
Proof.
  intros [[H1 H2 H3 H4 H5] [H6 H7]]. split; [|done]. split; cbn; try done; [by rewrite H2|]. rewrite H3. set_solver.
Qed.

Ltac probes := repeat lazymatch goal with
  | |- stays _ (_ ≫= _) => apply stays_bind; [|intros ?]
  | |- stays _ (on_gemm _) => by apply stays_zoom
  | |- stays _ (if ?b then _ else _) => destruct b
  | |- stays _ (mret _) => by intros ? ?
  | |- stays _ (throw _) => by intros ? ?
  | |- stays _ (modify _) => by intros ? ?
  end.

Lemma stays_probe_list tag l : stays (region None []) (probe_list lt tag l).
Proof. induction l as [|cfg l IH]; cbn [probe_list]; probes. done. Qed.

Lemma building_mode ptrs sized v (s : Executor) : building ptrs sized s → building ptrs sized (set_mode v s).
Proof. by intros []. Qed.

Lemma probing_keeps ptrs :
  let pd : XM () := ProbeDecodeGemmConfigs c o lt in
  let pp : XM () := ProbePrefillGemmConfigs c o lt in
  keeps (building ptrs true) pd ∧ stays (region None []) pd ∧
  keeps (building ptrs true) pp ∧ stays (region None []) pp.
Proof.
  cbv zeta. unfold ProbeDecodeGemmConfigs, ProbePrefillGemmConfigs. split_and!.
  - by keep.
  - probes; apply stays_probe_list.
  - keep; by apply building_mode.
  - probes; apply stays_probe_list.
Qed.

Definition all_pointers : gset resource := {[RPinned]} ∪ ({[RScratch]} ∪ ({[RPool]} ∪ ({[RStream]} ∪ ∅))).

Ltac pointers := intros i; match goal with H : ∀ p i, p ⊆ all_pointers → _ |- _ => apply H end; unfold all_pointers; set_solver.
Ltac call H := eapply wpx_phase_call; [|exact H|]; [pointers|].
Ltac keep_phase H := eapply wpx_phase_keeps; [|exact H| | |]; [pointers| | |].

Lemma wpx_construct s : phase ∅ false s →
  wpx (construct c o lt dev dma cuda_ok) (λ _ s', finished all_pointers s') aborted s.
Proof using Hg.
  intros Hs. assert (∀ i, RGraph i ∉ all_pointers) as Hall by (unfold all_pointers; set_solver).
  assert (∀ p i, p ⊆ all_pointers → RGraph i ∉ p) as Hnot by (intros p i Hp Hin; by apply (Hall i), Hp).
  unfold construct, AllocateDeviceMemory, AllocatePinnedMirrors. wpx_auto.
  call Hs. intros s1 H1%(acquire_building RStream). wpx_auto.
  keep_phase H1; [apply keeps_on_gemm, Init_total|by apply stays_zoom|].
  intros [] s2 H2. wpx_auto. call H2. intros s3 H3%(acquire_building RPool). wpx_auto.
  call H3. intros s4 H4%(acquire_building RScratch). wpx_auto. call H4. intros s5 H5. wpx_auto.
  call H5. intros s6 H6. wpx_auto. call H6. intros s7 H7. wpx_auto.
  assert (phase ({[RScratch]} ∪ ({[RPool]} ∪ ({[RStream]} ∪ ∅))) false
    (set_stream (x_mirrors s7) (dev_zero dev) (x_queue s7) s7)) as H7'.
  { destruct H7 as [[H71 H72 H73 H74 _] H75]. split; [|exact H75]. split; cbn; try done. }
  call H7'. intros s8 H8%(acquire_building RPinned). wpx_auto.
  assert (phase all_pointers true (set_mirrors (zero_mirrors o) (acquire RPinned s8))) as H9.
  { destruct H8 as [[H81 H82 H83 H84 _] H85]. split; [|exact H85].
    split; [exact H81|exact H82|exact H83|exact H84|]. intros _. by apply (zero_mirrors_sized o c). }
  destruct (probing_keeps all_pointers) as (Hk1 & Hs1 & Hk2 & Hs2).
  keep_phase H9; [exact Hk1|exact Hs1|]. intros [] s10 H10. wpx_auto.
  keep_phase H10; [exact Hk2|exact Hs2|]. intros [] s11 [Hb Hr].
  destruct (enable_cuda_graphs o).
  - eapply wpx_mono; [by apply (CaptureDecodeGraphs_finishes all_pointers)|done|done].
  - apply wpx_ret. destruct Hb as [Hc Hp Hl Hgr Hz], Hr as [Hk He].
    split; [done|done|by rewrite Hl, Hgr, He|by left|by apply Hz|done].
Qed.

End capture.

(** What the constructor may throw: a runtime error, or, past the end of the
    integer types, whatever follows an overflow. *)
Definition construction_error c o (e : error) : Prop := runtime_error e = true ∨ e = overflow ∧ ¬ sizes_fit c o.

(** A budget is computed for valid geometries only. *)
Lemma budget_geometry c o b : ComputeBudget c o = Ok b → geometry_ok c o.
Proof. intros Hb. pose proof (budget_correct c o) as H. rewrite Hb in H. apply H. Qed.

Lemma budget_exceptions c o e : ComputeBudget c o = Err e → construction_error c o e.
Proof.
  intros Hb. pose proof (budget_correct c o) as H. rewrite Hb in H. destruct H as [[[what ->] _]|?]; [by left|by right].
Qed.

#[export] Hint Resolve keeps_ret keeps_get_bind keeps_if keeps_enqueue keeps_issue_all keeps_upload keeps_finish_step
  keeps_probe_list building_closed building_queue building_capture : keeps.

(** What construction leaves, and what it throws. *)
Lemma construction_run {Algo D} c o (lt : LtLibrary Algo) (dev : Device D) dma cuda_ok wl x s :
  ModelExecutor_new c o lt dev dma cuda_ok wl (Executor_members dev) = (x, s) →
  match x with
  | Ok _ => geometry_ok c o ∧ wl = num_layers c ∧ finished c o all_pointers s
  | Err e => construction_error c o e ∧ x_live s = ∅
  end.
Proof.
  unfold ModelExecutor_new. intros Heq. pose proof (budget_exceptions c o) as He.
  destruct (ComputeBudget c o) as [b|e] eqn:Hb.
  2:{ injection Heq as <- <-. split; [by apply He|done]. }
  assert (geometry_ok c o) as Hg by (by apply (budget_geometry c o b)).
  refine (wpx_run _ (λ _ s', geometry_ok c o ∧ wl = num_layers c ∧ finished c o all_pointers s')
            (λ e s', construction_error c o e ∧ x_live s' = ∅) _ _ _ _ Heq).
  wpx_step. destruct (Z.eqb_spec wl (num_layers c)) as [Hw|]; [|by apply wpx_throw; split; [left|]]. wpx_auto.
  pose proof (computes_widths c o b Hb) as Hwidths.
  destruct (derive_widths c o b) as [[]|e]; [|by apply wpx_throw; split; [right|]]. cbn [lift]. wpx_auto.
  apply wpx_try_catch. eapply wpx_mono; [apply (wpx_construct c o lt dev dma cuda_ok Hg)| |].
  - split; [|done]. split; cbn; [|done|by rewrite union_empty_l_L|done|done].
    split; cbn; [constructor| |done]. intros k i. split; [done|]. by intros (p & Hp & _).
  - cbv beta. intros _ s1 H1. by split_and!.
  - cbv beta. intros e s1 (Hex & ptrs & sized & _ & [H1 H2 H3 H4 _] & [_ H6]). split; [done|].
    unfold ReleaseAll. wpx_auto. split; [by left|]. cbn. rewrite H3, H4, H2, H6. unfold graph_handles. cbn. set_solver.
Qed.

(** C31. Construction either builds the whole object or releases everything.
    When it returns, the geometry is valid, the four allocations are live, the
    mirrors have the planned sizes, and the published graphs are either none
    (capture disabled or degraded) or exactly the captured decode step of every
    bucket; the driver holds the allocations and those graphs, no more.  When it
    throws, whatever failed and wherever, the driver holds nothing, and the
    error is an exception, never a failed assertion; only options whose sizes
    leave the integer types can end otherwise, in an overflow, with nothing
    acquired. *)
Theorem construction_outcome {Algo D} c o (lt : LtLibrary Algo) (dev : Device D) dma cuda_ok wl x s :
  ModelExecutor_new c o lt dev dma cuda_ok wl (Executor_members dev) = (x, s) →
  match x with
  | Ok _ => geometry_ok c o ∧ wl = num_layers c ∧ finished c o all_pointers s
  | Err e => x_live s = ∅ ∧ (is_exception e = true ∨ e = overflow ∧ ¬ sizes_fit c o)
  end.
Proof.
  intros Heq. pose proof (construction_run c o lt dev dma cuda_ok wl x s Heq) as H. destruct x as [?|e]; [done|].
  destruct H as [[?%runtime_exception|?] ?]; [by split; [|left]|by split; [|right]].
Qed.

(** ** A concrete device: argmax answers each input token plus one *)

Module ExecutorExample.

Definition dev : Device (list Z) :=
  mkDevice [] (λ _ d, d) (λ b l d, match b with BInputIds => l | _ => d end)
    (λ d, take 4 (map (Z.add 1) d ++ replicate 4 0)).

(** The second memset fails. *)
Definition memset_fails : nat → bool := λ n, negb (n =? 4)%nat.

Notation build cuda_ok :=
  (ModelExecutor_new qwen25 LaunchExample.opts GemmExample.lib dev (λ _, 0%nat) cuda_ok 28 (Executor_members dev))
  (only parsing).

End ExecutorExample.

(** A failure after three allocations: all are given back. *)
Lemma construction_outcome_witness :
  fst (ExecutorExample.build ExecutorExample.memset_fails) = Err (ExecutorError "zero scratch slab") ∧
  x_live (snd (ExecutorExample.build ExecutorExample.memset_fails)) = ∅.
Proof.
  assert (fst (ExecutorExample.build ExecutorExample.memset_fails) = Err (ExecutorError "zero scratch slab")) as Hr
    by (vm_compute; reflexivity).
  split; [exact Hr|].
  generalize (construction_outcome qwen25 LaunchExample.opts GemmExample.lib ExecutorExample.dev (λ _, 0%nat)
    ExecutorExample.memset_fails 28 _ _ (surjective_pairing (ExecutorExample.build ExecutorExample.memset_fails))).
  rewrite Hr. intros [H _]. exact H.
Defined.
