(* ===== verification/ExecutorSteps.v ===== *)
(** * Steps of the executor on a working device

    Every CUDA call succeeds and the matrix library serves every product.  A
    step then queues its copies and launches in order, and the state it leaves
    is the result of running them, whatever the device's timing ([dma]) was. *)

From S2P Require Import Prelude Doubles Types ModelConfig Scheduler GemmConfig Gemm GemmServe ExecutorLayout ExecutorMirrors Launches Executor ExecutorInit.

(** ** Launches whose products are valid calls *)

Definition call_ok (call : GemmMethod) (cfg : GemmConfig) (bias : option ptr) : Prop :=
  ValidateConfig cfg = Ok () ∧
  match call with
  | mGemmFp16 => True
  | mGemmBiasFp16 => is_Some bias
  | mGemmStridedBatched_float => type_d cfg = CUDA_R_32F ∧ epilogue cfg = EpilogueNone
  | mGemmStridedBatched_half => type_d cfg = CUDA_R_16F ∧ epilogue cfg = EpilogueNone
  end.

Definition launch_ok (l : launch) : Prop :=
  match l with Gemm call cfg _ _ _ bias => call_ok call cfg bias | _ => True end.

(** The product of a launch, if it is one. *)
Definition launch_cfg (l : launch) : option GemmConfig := match l with Gemm _ cfg _ _ _ _ => Some cfg | _ => None end.

Section launches_ok.
Context (c : ModelConfig) (o : ExecutorOptions) (Hg : geometry_ok c o).

Lemma widths_pos : 1 <= hidden_size c ∧ 1 <= qkv_width c ∧ 1 <= gateup_width c ∧ 1 <= vocab_size c ∧
  1 <= intermediate_size c ∧ intermediate_size c <= gateup_width c ∧ 1 <= head_dim c ∧ head_dim c <= hidden_size c ∧
  head_dim c <= qkv_width c ∧ 1 <= heads_per_group c.
Proof using Hg.
  destruct (group_split c o 2 Hg ltac:(lia)) as [_ Hh]. pose proof Hg as []. unfold qkv_width, gateup_width.
  split_and!; try lia; nia.
Qed.

Lemma linear_ok call rows out inp astride ostride e d a b bias :
  ValidateConfig (Linear rows out inp astride ostride e) = Ok () → call = mGemmFp16 ∨ call = mGemmBiasFp16 ∧ is_Some bias →
  launch_ok (Gemm call (Linear rows out inp astride ostride e) d a b bias).
Proof. intros Hv Hc. split; [done|]. destruct Hc as [->|[-> ?]]; done. Qed.

Ltac valid := first [exact I|apply linear_ok; [apply linear_valid; lia|by auto]].

Lemma attention_input_ok layer rows ts : 1 <= rows → Forall launch_ok (attention_input c layer rows ts).
Proof using Hg.
  intros Hr. pose proof widths_pos. unfold attention_input. repeat constructor.
  - by destruct (layer =? 0).
  - apply linear_valid. lia.
  - done.
Qed.

Lemma block_tail_ok layer rows : 1 <= rows → Forall launch_ok (block_tail c layer rows).
Proof using Hg.
  intros Hr. pose proof widths_pos. unfold block_tail, LaunchGemm.
  repeat (apply Forall_cons; split; [valid|]). constructor.
Qed.

Lemma layers_ok f : (∀ layer, Forall launch_ok (f layer)) → Forall launch_ok (layers c f).
Proof.
  intros Hf. unfold layers. apply Forall_concat, Forall_forall. intros l Hl.
  apply list_elem_of_fmap in Hl as (layer & -> & _). apply Hf.
Qed.

Lemma decode_launches_ok rows : 1 <= rows → Forall launch_ok (decode_step_launches c o rows).
Proof using Hg.
  intros Hr. pose proof widths_pos. unfold decode_step_launches, EnqueueDecodeForward. rewrite !Forall_app. split_and!.
  - by repeat constructor.
  - apply layers_ok. intros layer. unfold decode_layer. rewrite !Forall_app.
    split_and!; [by apply attention_input_ok|by repeat constructor|by apply block_tail_ok].
  - unfold LaunchGemm. repeat (apply Forall_cons; split; [valid|]). constructor.
  - by repeat constructor.
Qed.

Lemma per_mode_ok mode call :
  (∀ heads g h, 1 <= heads → launch_ok (call heads g h)) → Forall launch_ok (per_mode c mode call).
Proof using Hg.
  intros Hc. pose proof widths_pos. apply Forall_forall. intros l Hl.
  destruct mode; cbn in Hl; apply list_elem_of_fmap in Hl as (x & -> & _); apply Hc; lia.
Qed.

Lemma prefill_launches_ok rows start ctx final mode :
  1 <= rows → 1 <= ctx → Forall launch_ok (EnqueuePrefillForward c o rows start ctx final mode).
Proof using Hg.
  intros Hr Hctx. pose proof widths_pos. unfold EnqueuePrefillForward. rewrite !Forall_app. split_and!.
  - by repeat constructor.
  - apply layers_ok. intros layer. unfold prefill_layer, EnqueuePrefillAttention. rewrite !Forall_app. split_and!.
    + by apply attention_input_ok.
    + by repeat constructor.
    + apply per_mode_ok. intros heads g h Hh. split; [apply scores_valid; lia|done].
    + by repeat constructor.
    + apply per_mode_ok. intros heads g h Hh. split; [apply pv_valid; lia|done].
    + by apply block_tail_ok.
  - destruct final; [|constructor]. unfold LaunchGemm. repeat (apply Forall_cons; split; [valid|]). constructor.
Qed.

(** Every product of a decode step is one the constructor probes. *)
Lemma decode_cfg_probed rows l cfg :
  l ∈ decode_step_launches c o rows → launch_cfg l = Some cfg → cfg ∈ decode_probes c rows.
Proof.
  assert (Forall (λ l, ∀ cfg, launch_cfg l = Some cfg → cfg ∈ decode_probes c rows) (decode_step_launches c o rows)) as H.
  2:{ intros Hl. by apply (proj1 (Forall_forall _ _) H). }
  assert (∀ cfg call d a b bias, cfg ∈ decode_probes c rows →
    ∀ cfg', launch_cfg (Gemm call cfg d a b bias) = Some cfg' → cfg' ∈ decode_probes c rows) as Hin by (by intros ??????? ? [= <-]).
  unfold decode_step_launches, EnqueueDecodeForward, EnqueueArgmax. rewrite !Forall_app. split_and!.
  - by repeat constructor.
  - unfold layers. apply Forall_concat, Forall_forall. intros ls Hls. apply list_elem_of_fmap in Hls as (layer & -> & _).
    unfold decode_layer, attention_input, block_tail, LaunchGemm, LaunchGemmBias. rewrite !Forall_app, !Forall_cons.
    split_and!; try apply Forall_nil_2; try done; try (apply Hin; unfold decode_probes, linear_probes; in_list).
    by destruct (layer =? 0).
  - unfold LaunchGemm. rewrite !Forall_cons. split_and!; [done| |by apply Forall_nil_2].
    apply Hin. unfold decode_probes, linear_probes. in_list.
  - by repeat constructor.
Qed.

End launches_ok.

(** ** Running the queue *)

Section steps.
Context {Algo D : Type} (c : ModelConfig) (o : ExecutorOptions).
Context (lt : LtLibrary Algo) (dev : Device D).
Context (dma : nat → nat) (cuda_ok : nat → bool).
Context (Hg : geometry_ok c o) (Hcuda : ∀ n, cuda_ok n = true).
Context (Hlt : lt_serves lt kDefaultWorkspaceBytes).
Notation Executor := (Executor Algo D).
Notation XM := (M error Executor).
Notation serving := (serving kDefaultWorkspaceBytes).
Notation run := (foldl (run_work dev)).

(** What the mirrors and the device will hold once the queue has run. *)
Definition pending (s : Executor) : Mirrors * D := run (x_mirrors s, x_dev s) (x_queue s).

(** The fields a step leaves alone. *)
Definition same_object (s s' : Executor) : Prop :=
  x_graphs s' = x_graphs s ∧ x_execs s' = x_execs s ∧ x_mode s' = x_mode s ∧ x_dump_pending s' = x_dump_pending s ∧
  x_ptrs s' = x_ptrs s ∧ x_live s' = x_live s.

(** In the course of a step that started at [s0]: no open capture, and the
    queue will lead to [md]. *)
Record midstep (s0 : Executor) (md : Mirrors * D) (s : Executor) : Prop := {
  mi_pending : pending s = md;
  mi_gemm : serving (x_gemm s);
  mi_closed : x_capture s = None;
  mi_same : same_object s0 s;
  mi_known : ∀ cfg, known (x_gemm s0) cfg → known (x_gemm s) cfg;
}.

Lemma pending_progress n (s : Executor) :
  pending (set_stream (run (x_mirrors s, x_dev s) (take n (x_queue s))).1
             (run (x_mirrors s, x_dev s) (take n (x_queue s))).2 (drop n (x_queue s)) s) = pending s.
Proof.
  unfold pending. cbn. rewrite <- surjective_pairing, <- foldl_app. by rewrite take_drop.
Qed.

(** Nothing is queued: the pending state is the present one. *)
Definition quiet (s : Executor) : Prop := x_queue s = [].

Lemma wp_cuda_status s (Q : bool → Executor → Prop) :
  (∀ s', (∀ s0 md, midstep s0 md s → midstep s0 md s') → x_capture s' = x_capture s → same_object s s' →
     x_gemm s' = x_gemm s → pending s' = pending s → (quiet s → quiet s') → Q true s') →
  wp (cuda_status dev dma cuda_ok) Q s.
Proof using Hcuda.
  intros HQ. unfold cuda_status. wp_auto. eapply wp_eq; [apply run_queue_run|]. wp_auto. rewrite Hcuda.
  pose proof (pending_progress (dma (x_calls s)) (count_call s)) as Hp. apply HQ; try done.
  - intros s0 md [H1 H2 H3 H4 H5]. split; [|done..]. rewrite <- H1. exact Hp.
  - unfold quiet. cbn. intros ->. by rewrite drop_nil.
Qed.

Lemma midstep_CudaCheck s0 md s what f (Q : () → Executor → Prop) :
  midstep s0 md s → (∀ s', midstep s0 md s' → Q () (f s')) → wp (CudaCheck dev dma cuda_ok what f) Q s.
Proof using Hcuda.
  intros Hs HQ. unfold CudaCheck. wp_step. apply wp_cuda_status. intros s' H1 _ _ _ _ _. wp_auto. by apply HQ, H1.
Qed.

Lemma midstep_queue s0 md s w : midstep s0 md s → midstep s0 (run_work dev md w) (queue_work w s).
Proof.
  intros [H1 H2 H3 H4 H5]. split; [|done..]. unfold pending, queue_work. cbn. rewrite foldl_app. cbn.
  by rewrite <- H1.
Qed.

Lemma midstep_drained s0 md s :
  midstep s0 md s → midstep s0 md (drained dev s) ∧ quiet (drained dev s).
Proof.
  intros [H1 H2 H3 H4 H5]. rewrite drained_eq. cbn zeta. split; [|done]. split; [|done..].
  unfold pending. cbn. by rewrite <- surjective_pairing.
Qed.

Lemma quiet_state s0 md s : midstep s0 md s → quiet s → (x_mirrors s, x_dev s) = md.
Proof. intros [H1 _ _ _ _] Hq. by rewrite <- H1; unfold pending; rewrite Hq. Qed.

Lemma midstep_upload l : ∀ s0 md s (Q : () → Executor → Prop),
  midstep s0 md s → (∀ s', midstep s0 (run md (map (λ '(b, n), CopyIn b n) l)) s' → Q () s') →
  wp (upload dev dma cuda_ok l) Q s.
Proof using Hcuda.
  induction l as [|[b n] l IH]; intros s0 md s Q Hs HQ; cbn [upload map]; [by apply wp_ret, HQ|].
  wp_step. eapply midstep_CudaCheck; [done|]. intros s1 H1. eapply IH; [by apply midstep_queue|]. intros s2. apply HQ.
Qed.

(** ** Issuing launches *)

Lemma wp_gemm_run call cfg bias stream g :
  call_ok call cfg bias → serving g → known g cfg ∨ stream = Some CaptureNone →
  wp (gemm_run lt call cfg bias stream) (λ _ g', known g' cfg ∧ grows kDefaultWorkspaceBytes g g') g.
Proof using Hlt.
  intros [Hv Hc] Hs Hk. destruct call; cbn [gemm_run].
  - by apply wp_RunImpl_serving.
  - destruct Hc as [p ->]. by apply wp_RunImpl_serving.
  - unfold GemmStridedBatched_float. destruct Hc as [-> ->]. by apply wp_RunImpl_serving.
  - unfold GemmStridedBatched_half. destruct Hc as [-> ->]. by apply wp_RunImpl_serving.
Qed.

Lemma stream_status_working (s : Executor) :
  stream_status cuda_ok s = Some (match x_capture s with Some _ => CaptureActive | None => CaptureNone end).
Proof using Hcuda. unfold stream_status. by rewrite Hcuda. Qed.

Lemma wp_on_gemm {A} (m : M error (CublasLtGemm Algo) A) s (Q : A → Executor → Prop) :
  wp m (λ a g, Q a (set_gemm g s)) (x_gemm s) → wp (on_gemm m) Q s.
Proof. intros Hm. unfold on_gemm. by apply wp_zoom. Qed.

Lemma midstep_gemm s0 md s g : midstep s0 md s → grows kDefaultWorkspaceBytes (x_gemm s) g → midstep s0 md (set_gemm g s).
Proof. intros [H1 H2 H3 H4 H5] [Hs Hk]. split; try done. intros cfg Hc. by apply Hk, H5. Qed.

Lemma midstep_issue l s0 md s (Q : () → Executor → Prop) :
  midstep s0 md s → launch_ok l → (∀ s', midstep s0 (run_work dev md (Kernel l)) s' → Q () s') →
  wp (issue lt cuda_ok l) Q s.
Proof using Hcuda Hlt.
  intros Hs Hl HQ.
  assert (∀ s, midstep s0 md s → wp (enqueue l) Q s) as He.
  { intros s1 H1. unfold enqueue. wp_auto. rewrite (mi_closed _ _ _ H1). by apply HQ, midstep_queue. }
  destruct l; cbn [issue]; try by apply He. wp_auto. rewrite stream_status_working, (mi_closed _ _ _ Hs).
  apply wp_on_gemm. eapply wp_mono; [apply wp_gemm_run; [exact Hl|apply Hs|by right]|].
  cbv beta. intros _ g [_ Hgr]. apply He. by apply midstep_gemm.
Qed.

Lemma midstep_issue_all ls : ∀ s0 md s (Q : () → Executor → Prop),
  midstep s0 md s → Forall launch_ok ls → (∀ s', midstep s0 (run md (map Kernel ls)) s' → Q () s') →
  wp (issue_all lt cuda_ok ls) Q s.
Proof using Hcuda Hlt.
  induction ls as [|l ls IH]; intros s0 md s Q Hs Hl HQ; cbn [issue_all map]; [by apply wp_ret, HQ|].
  apply Forall_cons in Hl as [Hl Hls]. wp_step. eapply midstep_issue; [done|done|]. intros s1 H1.
  eapply IH; [exact H1|done|]. intros s2. apply HQ.
Qed.

Lemma midstep_finish n s0 md s (Q : () → Executor → Prop) :
  midstep s0 md s → (∀ s', midstep s0 (run_work dev md (CopyOut n)) s' → quiet s' → Q () s') →
  wp (finish_step dev dma cuda_ok n) Q s.
Proof using Hcuda.
  intros Hs HQ. unfold finish_step. wp_step. eapply midstep_CudaCheck; [done|]. intros s1 H1%(midstep_queue _ _ _ (CopyOut n)).
  wp_step. eapply midstep_CudaCheck; [exact H1|]. intros s2 H2. destruct (midstep_drained _ _ _ H2) as [H3 Hq].
  unfold CudaCheck. wp_step. apply wp_cuda_status. intros s4 H4 _ _ _ _ Hq4. wp_auto. apply HQ; auto.
Qed.

Lemma midstep_queue_all ls : ∀ s0 md s,
  midstep s0 md s → midstep s0 (run md (map Kernel ls)) (foldl (λ s l, queue_work (Kernel l) s) s ls).
Proof.
  induction ls as [|l ls IH]; intros s0 md s Hs; [done|]. cbn. by apply (IH s0 (run_work dev md (Kernel l))), midstep_queue.
Qed.

(** ** A whole step *)

(** Between steps: nothing queued, no open capture, a serving wrapper. *)
Record idle (s : Executor) : Prop := {
  id_quiet : quiet s;
  id_gemm : serving (x_gemm s);
  id_closed : x_capture s = None;
  id_sized : mirrors_sized o (x_mirrors s);
}.

Lemma idle_midstep s : idle s → midstep s (x_mirrors s, x_dev s) s.
Proof. intros [H1 H2 H3 H4]. split; try done. unfold pending. by rewrite H1. Qed.

Lemma midstep_idle s0 md s : midstep s0 md s → quiet s → mirrors_sized o md.1 → idle s ∧ (x_mirrors s, x_dev s) = md.
Proof.
  intros Hs Hq Hm. pose proof (quiet_state _ _ _ Hs Hq) as Heq. split; [|done].
  split; [done|apply Hs|apply Hs|]. by rewrite <- Heq in Hm.
Qed.

(** The fill of a step writes the mirrors of an idle executor. *)
Lemma wp_fill {A} (m : MM A) s (Q : A → Executor → Prop) :
  idle s → wp m (λ a m', ∀ s', midstep s (m', x_dev s) s' → Q a s') (x_mirrors s) → wp (on_mirrors m) Q s.
Proof.
  intros [H1 H2 H3 H4] Hm. unfold on_mirrors. apply wp_zoom. eapply wp_mono; [exact Hm|].
  cbv beta. intros a m' HQ. apply HQ. split; try done. unfold pending. cbn. by rewrite H1.
Qed.

(** The work of a step, in queue order. *)
Definition copies (l : list (buffer * Z)) : list work := map (λ '(b, n), CopyIn b n) l.
Definition decode_work (rows : Z) : list work :=
  copies (UploadDecodeInputs o rows) ++ map Kernel (decode_step_launches c o rows) ++ [CopyOut rows].

Definition decode_result (batch : list Request) (rows bucket : Z) (s : Executor) (out : DecodeOutput) (s' : Executor) : Prop :=
  let md := run (decode_mirrors o batch rows (x_mirrors s), x_dev s) (decode_work rows) in
  out = mkDecodeOutput (take (length batch) (h_argmax (fst md))) rows bucket ∧
  idle s' ∧ same_object s s' ∧ (x_mirrors s', x_dev s') = md.

Context (Hmg : mirror_geometry o).

Lemma decode_mirrors_sized batch rows m :
  mirrors_sized o m → zlen batch <= rows <= x_max_batch o →
  Forall (λ r, ∃ tok, row_ok c o (num_kv_blocks_ c o) r tok) batch → mirrors_sized o (decode_mirrors o batch rows m).
Proof using Hmg.
  intros Hm Hr Hok. destruct Hmg as [Hw Hb]. pose proof (zlen_nonneg batch).
  apply (sized_state4 o (map last_token batch ++ replicate (Z.to_nat (rows - zlen batch)) 0)
    (map (λ r, seq_len r - 1) batch ++ replicate (Z.to_nat (rows - zlen batch)) 0)
    (map seq_len batch ++ replicate (Z.to_nat (rows - zlen batch)) 0)
    (tables_of o batch ++ replicate (Z.to_nat (rows - zlen batch) * Z.to_nat (mbps o)) 0)); [done|..];
    rewrite zlen_app, zlen_replicate, ?zlen_map; unfold step_rows, table_elems; try lia.
  rewrite (zlen_tables_of c o (num_kv_blocks_ c o)) by done. change (max_blocks_per_seq o) with (mbps o). nia.
Qed.

Lemma wp_step_tail rows batch bkt s s1 (Q : DecodeOutput → Executor → Prop) :
  idle s → zlen batch <= rows <= x_max_batch o → Forall (λ r, ∃ tok, row_ok c o (num_kv_blocks_ c o) r tok) batch →
  midstep s (run (decode_mirrors o batch rows (x_mirrors s), x_dev s)
    (copies (UploadDecodeInputs o rows) ++ map Kernel (decode_step_launches c o rows))) s1 →
  (∀ out s', decode_result batch rows bkt s out s' → Q out s') →
  wp (finish_step dev dma cuda_ok rows;; s' ← get;
      mret (mkDecodeOutput (take (length batch) (h_argmax (x_mirrors s'))) rows bkt)) Q s1.
Proof using Hcuda Hmg.
  intros Hs Hr Hok H1 HQ. wp_step. eapply midstep_finish; [exact H1|]. intros s2 H2 Hq. wp_auto. apply HQ.
  assert (midstep s (run (decode_mirrors o batch rows (x_mirrors s), x_dev s) (decode_work rows)) s2) as H3.
  { unfold decode_work. rewrite app_assoc, foldl_app. exact H2. }
  destruct (midstep_idle _ _ _ H3 Hq) as [Hi Heq].
  { apply run_work_sized. by apply decode_mirrors_sized; [apply Hs|..]. }
  unfold decode_result. cbv zeta. split_and!; [|done|apply H3|done]. by rewrite <- Heq.
Qed.

Lemma wp_DecodeEager batch s (Q : DecodeOutput → Executor → Prop) :
  idle s → batch ≠ [] → zlen batch <= x_max_batch o →
  Forall (λ r, ∃ tok, row_ok c o (num_kv_blocks_ c o) r tok) batch →
  (∀ out s', let rows := decode_rows o (zlen batch) 0 in
     decode_result batch rows (BucketForRows o rows) s out s' → Q out s') →
  wp (DecodeEager c o lt dev dma cuda_ok batch) Q s.
Proof using Hcuda Hlt Hg Hmg.
  intros Hs Hne Hb Hok HQ. pose proof Hmg as [Hw Hmb]. pose proof (zlen_nonneg batch).
  assert (to_int32 (zlen batch) = zlen batch) as H32 by (apply to_int32_id; unfold int32_ok, int32_max in *; lia).
  unfold DecodeEager. destruct batch as [|r0 batch0]; [done|]. cbn [is_nil]. set (batch := r0 :: batch0) in *.
  rewrite H32. wp_auto. destruct (Z.ltb_spec (x_max_batch o) (zlen batch)); [lia|]. wp_auto.
  pose proof (decode_rows_range o Hmb (zlen batch) 0 ltac:(lia) ltac:(lia)) as Hr.
  assert (1 <= zlen batch) by (unfold batch; zlen; pose proof (zlen_nonneg batch0); lia).
  apply wp_fill; [done|]. apply wp_FillDecodeMirrors; [done|done|apply Hs|done|lia|done|]. intros s1 Hs1. wp_auto.
  set (rows := decode_rows o (zlen batch) 0) in *.
  eapply midstep_upload; [exact Hs1|]. intros s2 Hs2. wp_auto.
  eapply midstep_issue_all; [exact Hs2|apply (Forall_app launch_ok _ (EnqueueArgmax c rows)), decode_launches_ok; [done|lia]|].
  intros s3 Hs3. wp_auto.
  eapply midstep_issue_all; [exact Hs3|by repeat constructor|]. intros s4 Hs4.
  eapply wp_step_tail; [done|lia|done| |exact HQ].
  unfold decode_step_launches. rewrite map_app, !foldl_app. exact Hs4.
Qed.

(** ** Replay *)

Definition captured (s : Executor) : Prop := x_graphs s = map (decode_step_launches c o) (buckets o).

Lemma bucket_index_lookup b : b ∈ buckets o →
  map (decode_step_launches c o) (buckets o) !! bucket_index o b = Some (decode_step_launches c o b).
Proof.
  intros Hb. unfold bucket_index. destruct (list_find (λ x, x = b) (buckets o)) as [[i x]|] eqn:Hf.
  - apply list_find_Some in Hf as (Hi & -> & _). by rewrite list_lookup_fmap, Hi.
  - apply list_find_None in Hf. rewrite Forall_forall in Hf. by destruct (Hf b Hb).
Qed.

Lemma SelectBucket_in n : 1 <= SelectBucket n (buckets o) → SelectBucket n (buckets o) ∈ buckets o.
Proof.
  unfold SelectBucket. destruct (n <=? 0); [lia|]. destruct (List.find _ _) as [b|] eqn:Hf; [|cbn; lia].
  intros _. apply find_some in Hf as [Hin _]. by apply list_elem_of_In.
Qed.

Lemma wp_DecodeGraph batch s (Q : DecodeOutput → Executor → Prop) :
  let b := SelectBucket (zlen batch) (buckets o) in
  idle s → captured s → batch ≠ [] → zlen batch <= x_max_batch o → 1 <= b →
  Forall (λ r, ∃ tok, row_ok c o (num_kv_blocks_ c o) r tok) batch →
  (∀ out s', decode_result batch b b s out s' → Q out s') →
  wp (DecodeGraph c o dev dma cuda_ok batch) Q s.
Proof using Hcuda Hlt Hg Hmg.
  cbn zeta. intros Hs Hcap Hne Hb Hbk Hok HQ. pose proof Hmg as [Hw Hmb]. pose proof (zlen_nonneg batch).
  assert (to_int32 (zlen batch) = zlen batch) as H32 by (apply to_int32_id; unfold int32_ok, int32_max in *; lia).
  pose proof (SelectBucket_in _ Hbk) as Hin. pose proof (SelectBucket_range o Hmb (zlen batch)) as Hr. cbn zeta in Hr.
  unfold DecodeGraph. destruct batch as [|r0 batch0]; [done|]. cbn [is_nil]. set (batch := r0 :: batch0) in *.
  rewrite H32. set (b := SelectBucket (zlen batch) (buckets o)) in *. wp_auto. unfold has_decode_graphs. rewrite Hcap.
  assert (is_nil (map (decode_step_launches c o) (buckets o)) = false) as ->.
  { apply is_nil_false. intros Hnil. apply map_eq_nil in Hnil. rewrite Hnil in Hin. by apply not_elem_of_nil in Hin. }
  cbn [negb]. wp_auto. destruct (Z.ltb_spec (x_max_batch o) (zlen batch)); [lia|]. wp_auto.
  destruct (Z.ltb_spec b 0); [lia|]. wp_auto.
  assert (decode_rows o (zlen batch) b = b) as Hrows by (unfold decode_rows; destruct (Z.ltb_spec 0 b); [done|lia]).
  apply wp_fill; [done|]. apply wp_FillDecodeMirrors; [done|done|apply Hs|done|lia|done|]. rewrite Hrows.
  intros s1 Hs1. wp_auto. apply wp_assert_; [by apply Z.eqb_refl|]. wp_auto.
  eapply midstep_upload; [exact Hs1|]. intros s2 Hs2. wp_auto.
  apply (wp_from_option _ _ (decode_step_launches c o b)).
  { by apply bucket_index_lookup. }
  wp_auto. eapply midstep_CudaCheck; [exact Hs2|]. intros s3 Hs3%(midstep_queue_all (decode_step_launches c o b)).
  eapply wp_step_tail; [done|lia|done| |exact HQ]. rewrite foldl_app. exact Hs3.
Qed.

(** ** Prefill *)

Lemma wp_Resolve rows ctx s0 md s (Q : PrefillGemmMode → Executor → Prop) :
  midstep s0 md s → 1 <= rows → 1 <= ctx →
  (∀ s', midstep s0 md s' → Q (x_mode s) s') → wp (ResolvePrefillGemmMode c lt rows ctx) Q s.
Proof using Hcuda Hlt Hg.
  intros Hs Hr Hctx HQ. pose proof (widths_pos c o Hg) as (? & ? & ? & ? & ? & ? & ? & ? & ? & ?).
  assert (∀ cfg tag s (Q : bool → Executor → Prop), midstep s0 md s → ValidateConfig cfg = Ok () →
    (∀ s', midstep s0 md s' → Q true s') → wp (on_gemm (Probe lt cfg tag)) Q s) as Hprobe.
  { intros cfg tag s1 Q1 Hm1 Hv HQ1. apply wp_on_gemm. eapply wp_mono; [apply wp_Probe_serving; [done|apply Hm1|done]|].
    cbv beta. intros b g (-> & _ & Hgr). apply HQ1. by apply midstep_gemm. }
  assert (∀ heads, 1 <= heads → ValidateConfig (scores_cfg c rows ctx heads) = Ok () ∧ ValidateConfig (pv_cfg c rows ctx heads) = Ok ()) as Hv.
  { intros heads Hh. split; [apply scores_valid; lia|apply pv_valid; lia]. }
  unfold ResolvePrefillGemmMode. wp_auto. destruct (x_mode s) eqn:Hm; case_decide; try done; wp_auto.
  - apply Hprobe; [done|by apply Hv|]. intros s1 H1'. wp_auto. apply Hprobe; [done|by apply Hv|]. intros s2 H2'.
    cbn [andb]. wp_auto. by apply HQ.
  - apply Hprobe; [done|apply Hv; lia|]. intros s1 H1'. wp_auto. apply Hprobe; [done|apply Hv; lia|]. intros s2 H2'.
    cbn [andb]. wp_auto. by apply HQ.
Qed.

(** The work of a chunk, in queue order. *)
Definition prefill_work (rows start ctx : Z) (final : bool) (mode : PrefillGemmMode) : list work :=
  copies (UploadPrefillInputs o rows) ++ map Kernel (EnqueuePrefillForward c o rows start ctx final mode) ++
  (if final then map Kernel (EnqueueArgmax c 1) ++ [CopyOut 1] else []).

Definition prefill_state (r : Request) (cb ce : Z) (s : Executor) : Mirrors * D :=
  run (prefill_mirrors o r cb ce (x_mirrors s), x_dev s)
    (prefill_work (ce - cb) cb ce (ce =? num_prompt_tokens r) (x_mode s)).

Lemma prefill_mirrors_sized r cb ce m :
  mirrors_sized o m → chunk_ok c o (num_kv_blocks_ c o) r cb ce → mirrors_sized o (prefill_mirrors o r cb ce m).
Proof using Hg.
  intros Hm [(? & ? & Hlen) Hrows _ _ Hw _ _]. pose proof (go_batch _ _ Hg).
  assert (0 <= mbps o) by (pose proof (zlen_nonneg (blocks_ (block_table r))); lia).
  apply (sized_state4 o (chunk r cb ce) (seqZ cb (ce - cb)) [] (table_row o (blocks_ (block_table r)))); [done|..];
    unfold step_rows, table_elems; change (max_blocks_per_seq o) with (mbps o).
  - unfold chunk, zlen. rewrite length_take, length_drop. unfold zlen in *. lia.
  - unfold zlen. rewrite length_seqZ. lia.
  - change (zlen (@nil Z)) with 0. lia.
  - rewrite zlen_table_row by done. nia.
Qed.

Lemma CopyOut_first x tok rest :
  dev_argmax dev (foldl (run_work dev) x [CopyOut 1]).2 = tok :: rest →
  h_argmax (foldl (run_work dev) x [CopyOut 1]).1 !! 0%nat = Some tok.
Proof. destruct x as [m d]. cbn. by intros ->. Qed.

(** A chunk up to its end: the state is reached and the stream is quiet; what
    is left is the pending dump, if any. *)
Lemma wp_PrefillChunk_end dump r cb ce s (Q : PrefillOutput → Executor → Prop) :
  idle s → chunk_ok c o (num_kv_blocks_ c o) r cb ce →
  (∀ d, dev_argmax dev d ≠ []) →
  (∀ out s', let md := prefill_state r cb ce s in
     midstep s md s' → quiet s' → mirrors_sized o md.1 →
     chunk_rows out = ce - cb → final_chunk out = (ce =? num_prompt_tokens r) →
     (if final_chunk out then dev_argmax dev (snd md) !! 0%nat = Some (first_token out) else first_token out = -1) →
     wp (s1 ← get; (if x_dump_pending s1 then modify (set_dump false);; dump (ce - cb) cb ce (x_mode s) else mret ());; mret out) Q s') →
  wp (PrefillChunk c o lt dev dma cuda_ok dump (Some r) cb ce) Q s.
Proof using Hcuda Hlt Hg Hmg.
  intros Hs Hck Harg HQ. pose proof Hmg as [Hw Hmb]. pose proof Hck as [(Hcb & Hce & Hlen) Hrows Hseq _ _ _ _].
  unfold PrefillChunk. wp_step. apply wp_fill; [done|].
  apply wp_FillPrefillMirrors; [done|done|apply Hs|done|]. intros s1 Hs1. wp_step.
  eapply wp_Resolve; [exact Hs1|lia|lia|]. intros s2 Hs2.
  assert (x_mode s1 = x_mode s) as -> by (by destruct (mi_same _ _ _ Hs1) as (_ & _ & ? & _)).
  wp_step. eapply midstep_upload; [exact Hs2|]. intros s3 Hs3. wp_step.
  eapply midstep_issue_all; [exact Hs3|apply prefill_launches_ok; [done|lia|lia]|]. intros s4 Hs4. wp_step.
  rewrite <- !foldl_app in Hs4. set (final := ce =? num_prompt_tokens r) in *.
  set (md := prefill_state r cb ce s) in *.
  assert (mirrors_sized o md.1) as Hmd.
  { apply run_work_sized. by apply prefill_mirrors_sized; [apply Hs|]. }
  assert (∀ out s5, midstep s md s5 → quiet s5 → chunk_rows out = ce - cb → final_chunk out = final →
    (if final then dev_argmax dev (snd md) !! 0%nat = Some (first_token out) else first_token out = -1) →
    wp (s' ← get; (if x_dump_pending s' then modify (set_dump false);; dump (ce - cb) cb ce (x_mode s) else mret ());; mret out)
      Q s5) as Hend.
  { intros out s5 H5 Hq Hr Hf Ht. apply HQ; try done. by rewrite Hf. }
  assert (md = run (prefill_mirrors o r cb ce (x_mirrors s), x_dev s) (prefill_work (ce - cb) cb ce final (x_mode s))) as Hmdeq by done.
  unfold prefill_work in Hmdeq. destruct final.
  - wp_step. eapply midstep_issue_all; [exact Hs4|by repeat constructor|]. intros s5 Hs5. wp_step.
    eapply midstep_finish; [exact Hs5|]. intros s6 Hs6 Hq. wp_auto.
    assert (midstep s md s6) as Hs7.
    { rewrite Hmdeq, app_assoc, foldl_app. unfold copies. rewrite foldl_app. exact Hs6. }
    destruct (midstep_idle _ _ _ Hs7 Hq Hmd) as [Hi Heq].
    destruct (dev_argmax dev md.2) as [|tok rest] eqn:Ha; [by apply Harg in Ha|].
    assert (h_argmax (x_mirrors s6) !! 0%nat = Some tok) as Htok.
    { change (h_argmax (x_mirrors s6)) with (h_argmax (fst (x_mirrors s6, x_dev s6))). rewrite Heq.
      rewrite Hmdeq, !app_assoc, foldl_app in Ha |- *. by apply CopyOut_first with rest. }
    eapply wp_from_option; [exact Htok|]. apply wp_ret. cbv beta. by apply Hend.
  - rewrite app_nil_r in Hmdeq. unfold copies in Hmdeq. rewrite <- Hmdeq in Hs4.
    wp_step. eapply midstep_CudaCheck; [exact Hs4|]. intros s5 Hs5.
    destruct (midstep_drained _ _ _ Hs5) as [Hs6 Hq6]. wp_step.
    unfold CudaCheck. wp_step. apply wp_cuda_status. intros s7 Hs7 _ _ _ _ Hq7.
    cbv beta iota. apply wp_modify. cbv beta. apply wp_ret. cbv beta. by apply Hend; auto.
Qed.

Lemma wp_PrefillChunk dump r cb ce s (Q : PrefillOutput → Executor → Prop) :
  idle s → x_dump_pending s = false → chunk_ok c o (num_kv_blocks_ c o) r cb ce →
  (∀ d, dev_argmax dev d ≠ []) →
  (∀ out s', let md := prefill_state r cb ce s in
     idle s' → same_object s s' → (x_mirrors s', x_dev s') = md →
     chunk_rows out = ce - cb → final_chunk out = (ce =? num_prompt_tokens r) →
     (if final_chunk out then dev_argmax dev (snd md) !! 0%nat = Some (first_token out) else first_token out = -1) →
     Q out s') →
  wp (PrefillChunk c o lt dev dma cuda_ok dump (Some r) cb ce) Q s.
Proof using Hcuda Hlt Hg Hmg.
  intros Hs Hd Hck Harg HQ. apply wp_PrefillChunk_end; [done..|]. intros out s' md H5 Hq Hmd Hr Hf Ht.
  wp_auto. pose proof (mi_same _ _ _ H5) as (_ & _ & _ & Hdp & _). rewrite Hdp, Hd. wp_auto.
  destruct (midstep_idle _ _ _ H5 Hq Hmd) as [Hi Heq]. apply HQ; try done; apply H5.
Qed.

End steps.
