(* ===== verification/ExecutorWarm.v ===== *)
(** * Construction on a working device

    When every CUDA call succeeds and the matrix library serves every product,
    construction returns with every bucket captured.  The point that needs an
    argument: a capture region may not query the library, and does not, because
    the probes and the warmup have cached every product of every bucket. *)

From S2P Require Import Prelude Doubles Types ModelConfig Scheduler GemmConfig Gemm GemmServe ExecutorLayout ExecutorMirrors Launches Executor ExecutorInit ExecutorSteps.

Section warm.
Context {Algo D : Type} (c : ModelConfig) (o : ExecutorOptions).
Context (lt : LtLibrary Algo) (dev : Device D).
Context (dma : nat → nat) (cuda_ok : nat → bool).
Context (Hg : geometry_ok c o) (Hcuda : ∀ n, cuda_ok n = true).
Context (Hlt : lt_serves lt kDefaultWorkspaceBytes).
Notation Executor := (Executor Algo D).
Notation XM := (M error Executor).
Notation serving := (serving kDefaultWorkspaceBytes).
Notation idle := (idle o).
Notation midstep := (midstep dev).
Notation CudaCheck := (CudaCheck dev dma cuda_ok).

(** Between two CUDA calls with an empty queue: what changed since [s0] is the
    wrapper, which only learns, and the capture region, now [k]. *)
Record resting (s0 : Executor) (k : option (list launch)) (s : Executor) : Prop := {
  rs_quiet : quiet s;
  rs_mirrors : x_mirrors s = x_mirrors s0;
  rs_gemm : serving (x_gemm s);
  rs_capture : x_capture s = k;
  rs_same : same_object s0 s;
  rs_known : ∀ cfg, known (x_gemm s0) cfg → known (x_gemm s) cfg;
}.

Lemma resting_refl s : quiet s → serving (x_gemm s) → resting s (x_capture s) s.
Proof. by intros H1 H2; split. Qed.

Lemma resting_CudaCheck s0 k s what f (Q : () → Executor → Prop) :
  resting s0 k s → (∀ s', resting s0 k s' → Q () (f s')) → wp (CudaCheck what f) Q s.
Proof using Hcuda.
  intros Hr HQ. unfold Executor.CudaCheck. wp_step. eapply wp_cuda_status; [done|].
  intros s' _ Hc (Hs1 & Hs2 & Hs3 & Hs4 & Hs5 & Hs6) Hge Hp Hq. wp_auto. apply HQ. destruct Hr as [H1 H2 H3 H4 H5 H6].
  assert (x_mirrors s' = x_mirrors s) as Hm.
  { unfold pending in Hp. rewrite (Hq H1), H1 in Hp. cbn in Hp. congruence. }
  destruct H5 as (? & ? & ? & ? & ? & ?). split; [by apply Hq|congruence|by rewrite Hge|congruence| |].
  - unfold same_object. split_and!; congruence.
  - intros cfg Hk. rewrite Hge. by apply H6.
Qed.

Lemma resting_issue l ls s0 s (Q : () → Executor → Prop) :
  resting s0 (Some ls) s → launch_ok l → (∀ cfg, launch_cfg l = Some cfg → known (x_gemm s0) cfg) →
  (∀ s', resting s0 (Some (ls ++ [l])) s' → Q () s') → wp (issue lt cuda_ok l) Q s.
Proof using Hcuda Hlt.
  intros Hr Hl Hk HQ.
  assert (∀ s, resting s0 (Some ls) s → wp (enqueue l) Q s) as He.
  { intros s1 [H1 H2 H3 H4 H5 H6]. unfold enqueue. wp_auto. rewrite H4. apply HQ. by split. }
  destruct l; cbn [issue]; try by apply He. wp_auto. rewrite (stream_status_working cuda_ok Hcuda), (rs_capture _ _ _ Hr).
  apply wp_on_gemm. eapply wp_mono; [apply (wp_gemm_run lt Hlt); [exact Hl|apply Hr|left; by apply (rs_known _ _ _ Hr), Hk]|].
  cbv beta. intros _ g [_ [Hs Hgr]]. apply He. destruct Hr as [H1 H2 H3 H4 H5 H6]. split; try done. cbn. auto.
Qed.

Lemma resting_issue_all ls : ∀ l0 s0 s (Q : () → Executor → Prop),
  resting s0 (Some l0) s → Forall launch_ok ls →
  Forall (λ l, ∀ cfg, launch_cfg l = Some cfg → known (x_gemm s0) cfg) ls →
  (∀ s', resting s0 (Some (l0 ++ ls)) s' → Q () s') → wp (issue_all lt cuda_ok ls) Q s.
Proof using Hcuda Hlt.
  induction ls as [|l ls IH]; intros l0 s0 s Q Hr Hl Hk HQ; cbn [issue_all].
  { apply wp_ret, HQ. by rewrite app_nil_r. }
  apply Forall_cons in Hl as [Hl Hls]. apply Forall_cons in Hk as [Hk Hks]. wp_step.
  eapply resting_issue; [done|done|done|]. intros s1 H1. eapply IH; [exact H1|done|done|].
  intros s2. rewrite <- app_assoc. apply HQ.
Qed.

(** The products of every bucket's step are cached. *)
Definition step_known (s : Executor) (rows : Z) : Prop := ∀ cfg, cfg ∈ decode_probes c rows → known (x_gemm s) cfg.

Lemma step_known_mono s s' rows :
  (∀ cfg, known (x_gemm s) cfg → known (x_gemm s') cfg) → step_known s rows → step_known s' rows.
Proof. intros Hk Hs cfg Hc. by apply Hk, Hs. Qed.

(** A bucket's warmup or capture starts and ends idle. *)
Definition bucket_done (s s' : Executor) (es : list (list launch)) : Prop :=
  idle s' ∧ x_graphs s' = x_graphs s ∧ x_execs s' = x_execs s ++ es ∧ x_mode s' = x_mode s ∧
  x_dump_pending s' = x_dump_pending s ∧ ∀ cfg, known (x_gemm s) cfg → known (x_gemm s') cfg.

Lemma bucket_done_trans s1 s2 s3 es1 es2 :
  bucket_done s1 s2 es1 → bucket_done s2 s3 es2 → bucket_done s1 s3 (es1 ++ es2).
Proof.
  intros (_ & G1 & E1 & M1 & D1 & K1) (H & G2 & E2 & M2 & D2 & K2). unfold bucket_done.
  rewrite G2, G1, E2, E1, M2, M1, D2, D1, app_assoc. auto 10.
Qed.

Lemma mbps_nonneg : 0 <= mbps o.
Proof using Hg.
  unfold mbps, max_blocks_per_seq. apply BlocksForTokens_nonneg. pose proof (go_seq _ _ Hg). lia.
Qed.

(** Filling and uploading dummy inputs. *)
Lemma wp_dummy_inputs rows s (Q : () → Executor → Prop) :
  idle s → rows <= x_max_batch o →
  (∀ md s', midstep s md s' → mirrors_sized o md.1 → Q () s') →
  wp (on_mirrors (FillDummyDecodeMirrors o rows);; upload dev dma cuda_ok (UploadDecodeInputs o rows)) Q s.
Proof using Hcuda Hg.
  intros Hs Hr HQ. wp_step. eapply wp_fill; [done|].
  eapply wp_mono; [apply wp_FillDummyDecodeMirrors; [apply mbps_nonneg|apply Hs|done]|].
  cbv beta. intros _ m Hm s1 Hs1. eapply midstep_upload; [done|exact Hs1|]. intros s2 Hs2.
  eapply HQ; [exact Hs2|]. by apply run_work_sized.
Qed.

Lemma midstep_done s md s' : midstep s md s' → quiet s' → mirrors_sized o md.1 → bucket_done s s' [].
Proof.
  intros Hs Hq Hm. destruct (midstep_idle o dev s md s' Hs Hq Hm) as [Hi _].
  destruct (mi_same _ _ _ _ Hs) as (? & ? & ? & ? & _). unfold bucket_done. rewrite app_nil_r.
  split_and!; try done. apply Hs.
Qed.

Lemma wp_Warmup rows s (Q : () → Executor → Prop) :
  idle s → 1 <= rows <= x_max_batch o → (∀ s', bucket_done s s' [] → Q () s') →
  wp (WarmupDecodeBucket c o lt dev dma cuda_ok rows) Q s.
Proof using Hcuda Hg Hlt.
  intros Hs Hr HQ. unfold WarmupDecodeBucket.
  match goal with |- wp (?a ≫= (λ _, ?b ≫= ?k)) _ _ => assert (wp ((a;; b) ≫= k) Q s → wp (a ≫= (λ _, b ≫= k)) Q s) as Hassoc end.
  { unfold wp, mbind, M_bind. destruct (on_mirrors _ s) as [[] ?]; [|done]. by destruct (upload _ _ _ _ _) as [[] ?]. }
  apply Hassoc. clear Hassoc. wp_step. apply wp_dummy_inputs; [done|lia|]. intros md s1 Hs1 Hm. wp_step.
  eapply midstep_issue_all; [done|done|exact Hs1|apply decode_launches_ok; [done|lia]|]. intros s2 Hs2.
  eapply midstep_finish; [done|exact Hs2|]. intros s3 Hs3 Hq. apply HQ. eapply midstep_done; [exact Hs3|done|].
  set (x := foldl _ md _). pose proof (run_work_sized o dev [CopyOut rows] x.1 x.2) as H. rewrite <- surjective_pairing in H.
  apply H. unfold x. rewrite (surjective_pairing md). by apply run_work_sized.
Qed.

Lemma wp_capture_bucket rows s (Q : () → Executor → Prop) :
  idle s → 1 <= rows <= x_max_batch o → step_known s rows →
  (∀ s', bucket_done s s' [decode_step_launches c o rows] → Q () s') →
  wp (capture_bucket c o lt dev dma cuda_ok rows) Q s.
Proof using Hcuda Hg Hlt.
  intros Hs Hr Hk HQ. unfold capture_bucket.
  match goal with |- wp (?a ≫= (λ _, ?b ≫= ?k)) _ _ => assert (wp ((a;; b) ≫= k) Q s → wp (a ≫= (λ _, b ≫= k)) Q s) as Hassoc end.
  { unfold wp, mbind, M_bind. destruct (on_mirrors _ s) as [[] ?]; [|done]. by destruct (upload _ _ _ _ _) as [[] ?]. }
  apply Hassoc. clear Hassoc. wp_step. apply wp_dummy_inputs; [done|lia|]. intros md s1 Hs1 Hm. wp_step.
  eapply midstep_CudaCheck; [done|exact Hs1|]. intros s2 Hs2. destruct (midstep_drained dev s md s2 Hs2) as [Hs3 Hq3].
  destruct (midstep_done _ _ _ Hs3 Hq3 Hm) as (Hi3 & Gr & Ex & Mo & Du & Kn). rewrite app_nil_r in Ex.
  set (s3 := drained dev s2) in *. wp_step.
  assert (resting s3 None s3) as Hr3 by (rewrite <- (id_closed _ _ Hi3); apply resting_refl; apply Hi3).
  eapply resting_CudaCheck; [exact Hr3|]. intros s4 [A1 A2 A3 A4 A5 A6]. wp_step.
  assert (resting s3 (Some []) (set_capture (Some []) s4)) as Hr4 by by split.
  eapply resting_issue_all; [exact Hr4|apply decode_launches_ok; [done|lia]| |].
  { apply Forall_forall. intros l Hl cfg Hc. apply Kn, Hk. by eapply decode_cfg_probed. }
  cbn [app]. intros s5 Hr5. wp_auto. rewrite (rs_capture _ _ _ Hr5). cbn [default].
  set (graph := decode_step_launches c o rows) in *.
  assert (∀ s k (Q : bool → Executor → Prop), resting s3 k s → (∀ s', resting s3 k s' → Q true s') →
    wp (cuda_status dev dma cuda_ok) Q s) as Hstatus.
  { intros s6 k Q6 H6 HQ6. pose proof (resting_CudaCheck s3 k s6 "" id_state (λ _ s', Q6 true s') H6) as Hc.
    unfold Executor.CudaCheck in Hc. specialize (Hc HQ6). apply wp_bind_inv in Hc. eapply wp_mono; [exact Hc|].
    cbv beta. intros [] s7; [done|]. intros Hf. destruct Hf. }
  eapply Hstatus; [exact Hr5|]. intros s6 Hr6. wp_auto.
  assert (resting s3 None (set_capture None s6)) as Hr7 by (destruct Hr6; by split).
  eapply resting_CudaCheck; [exact Hr7|]. intros s8 Hr8.
  set (s9 := set_resources _ _ _). assert (resting s9 None s9) as Hr9.
  { destruct Hr8 as [B1 B2 B3 B4 B5 B6]. replace None with (x_capture s9) by done. by apply resting_refl. }
  assert (bucket_done s s9 [graph]) as Hdone.
  { destruct Hr8 as [B1 B2 B3 B4 (C1 & C2 & C3 & C4 & _) B6]. unfold bucket_done.
    split_and!; [|exact (eq_trans C1 Gr)|change (x_execs s8 ++ [graph] = x_execs s ++ [graph]); by rewrite C2, Ex
      |exact (eq_trans C3 Mo)|exact (eq_trans C4 Du)|intros cfg Hc; apply B6, Kn, Hc].
    split; [done|done|done|]. change (mirrors_sized o (x_mirrors s8)). rewrite B2. apply Hi3. }
  wp_step. eapply resting_CudaCheck; [exact Hr9|]. intros s10 Hr10. eapply resting_CudaCheck; [exact Hr10|].
  intros s11 Hr11. apply HQ. destruct Hr11 as [D1 D2 D3 D4 (E1 & E2 & E3 & E4 & _) D6].
  assert (drained dev s11 = set_stream (x_mirrors s11) (x_dev s11) [] s11) as -> by (rewrite drained_eq; by rewrite D1).
  destruct Hdone as (F1 & F2 & F3 & F4 & F5 & F6). unfold bucket_done.
  split_and!; [|exact (eq_trans E1 F2)|exact (eq_trans E2 F3)|exact (eq_trans E3 F4)|exact (eq_trans E4 F5)
    |intros cfg Hc; apply D6, F6, Hc].
  split; [done|done|done|]. change (mirrors_sized o (x_mirrors s11)). rewrite D2. apply F1.
Qed.

Lemma wp_for_each l (f : Z → XM ()) (g : Z → list (list launch)) : ∀ s (Q : () → Executor → Prop),
  (∀ b s (Q : () → Executor → Prop), b ∈ l → idle s → step_known s b →
     (∀ s', bucket_done s s' (g b) → Q () s') → wp (f b) Q s) →
  idle s → (∀ b, b ∈ l → step_known s b) →
  (∀ s', bucket_done s s' (concat (map g l)) → Q () s') → wp (for_each l f) Q s.
Proof.
  induction l as [|b l IH]; intros s Q Hf Hs Hk HQ; cbn [for_each map concat].
  { apply wp_ret, HQ. unfold bucket_done. cbn. by rewrite app_nil_r. }
  wp_step. apply Hf; [apply list_elem_of_here|done|apply Hk, list_elem_of_here|]. intros s1 H1. apply IH.
  - intros b' s2 Q2 Hin. by apply Hf, list_elem_of_further.
  - apply H1.
  - intros b' Hin. eapply step_known_mono; [apply H1|]. by apply Hk, list_elem_of_further.
  - intros s2 H2. apply HQ. by eapply bucket_done_trans.
Qed.

Lemma wp_Capture s (Q : () → Executor → Prop) :
  idle s → x_graphs s = [] → x_execs s = [] → (∀ b, b ∈ buckets o → step_known s b) →
  (∀ s', idle s' → x_graphs s' = map (decode_step_launches c o) (buckets o) → x_mode s' = x_mode s →
     x_dump_pending s' = x_dump_pending s → Q () s') →
  wp (CaptureDecodeGraphs c o lt dev dma cuda_ok) Q s.
Proof using Hcuda Hg Hlt.
  intros Hs Hgr Hex Hk HQ. unfold CaptureDecodeGraphs. wp_auto. apply wp_assert_; [by rewrite Hgr|]. wp_step.
  pose proof (buckets_range c o Hg) as Hb. rewrite Forall_forall in Hb.
  assert (∀ s0 es s what (Q : () → Executor → Prop), bucket_done s0 s es →
    (∀ s', bucket_done s0 s' es → Q () s') → wp (CudaCheck what id_state) Q s) as Hcall.
  { intros s0 es s1 what Q1 (Hi & B) HQ1. assert (resting s1 None s1) as Hr by (rewrite <- (id_closed _ _ Hi); apply resting_refl; apply Hi).
    eapply resting_CudaCheck; [exact Hr|]. intros s2 [C1 C2 C3 C4 (E1 & E2 & E3 & E4 & _) C6]. apply HQ1.
    destruct B as (B1 & B2 & B3 & B4 & B5). unfold bucket_done, id_state.
    split_and!; [|congruence|congruence|congruence|congruence|auto]. split; [done|done|done|]. rewrite C2. apply Hi. }
  assert (∀ {A} (m : XM A) h (Q : A → Executor → Prop), wp m Q s → wp (try_catch m h) Q s) as Htry.
  { intros A m h Q1. unfold wp, try_catch. by destruct (m s) as [[] ?]. }
  apply Htry. wp_step. apply (wp_for_each _ _ (λ _, [])); [|done|done|].
  { intros b s1 Q1 Hin Hi _ HQ1. apply wp_Warmup; [done|by apply Hb|done]. }
  rewrite concat_nils. intros s1 H1. wp_step. eapply Hcall; [exact H1|]. intros s2 H2. wp_step.
  apply (wp_for_each _ _ (λ b, [decode_step_launches c o b])).
  - intros b s3 Q1 Hin Hi Hkn HQ1. apply wp_capture_bucket; [done|by apply Hb|done|done].
  - apply H2.
  - intros b Hin. eapply step_known_mono; [apply H2|]. by apply Hk.
  - rewrite concat_singletons. intros s3 H3. wp_step. pose proof (bucket_done_trans _ _ _ _ _ H2 H3) as H4. cbn [app] in H4.
    eapply Hcall; [exact H4|]. intros s4 (Hi & G4 & E4 & M4 & D4 & _). wp_auto. apply HQ.
    + by destruct Hi.
    + cbn. by rewrite E4, Hex.
    + exact M4.
    + exact D4.
Qed.

(** ** Probing *)

Lemma wp_probe tag cfg s (Q : bool → Executor → Prop) :
  serving (x_gemm s) → ValidateConfig cfg = Ok () →
  (∀ g, grows kDefaultWorkspaceBytes (x_gemm s) g → known g cfg → Q true (set_gemm g s)) →
  wp (on_gemm (Probe lt cfg tag)) Q s.
Proof using Hlt.
  intros Hs Hv HQ. apply wp_on_gemm. eapply wp_mono; [by apply wp_Probe_serving|].
  cbv beta. intros b g (-> & Hk & Hgr). by apply HQ.
Qed.

Lemma wp_probe_list tag l : ∀ s (Q : bool → Executor → Prop),
  serving (x_gemm s) → Forall (λ cfg, ValidateConfig cfg = Ok ()) l →
  (∀ g, grows kDefaultWorkspaceBytes (x_gemm s) g → (∀ cfg, cfg ∈ l → known g cfg) → Q true (set_gemm g s)) →
  wp (probe_list lt tag l) Q s.
Proof using Hlt.
  induction l as [|cfg l IH]; intros s Q Hs Hl HQ; cbn [probe_list].
  { apply wp_ret. replace s with (set_gemm (x_gemm s) s) by (by destruct s). apply HQ; [by apply grows_refl|].
    intros cfg Hc. by apply not_elem_of_nil in Hc. }
  apply Forall_cons in Hl as [Hv Hl]. wp_step. apply wp_probe; [done|done|]. intros g Hgr Hk. wp_step.
  apply IH; [apply Hgr|done|]. cbn [x_gemm set_gemm]. intros g' Hgr' Hk'. apply wp_ret. cbn [andb].
  apply (HQ g').
  - by eapply grows_trans.
  - intros cfg' [->|Hin]%elem_of_cons; [by apply Hgr'|by apply Hk'].
Qed.

Lemma decode_probes_valid rows : 1 <= rows → Forall (λ cfg, ValidateConfig cfg = Ok ()) (decode_probes c rows).
Proof using Hg.
  intros Hr. pose proof (widths_pos c o Hg). unfold decode_probes, linear_probes. cbn [app].
  repeat (apply Forall_cons; split; [apply linear_valid; lia|]). constructor.
Qed.

Lemma linear_probes_valid rows : 1 <= rows → Forall (λ cfg, ValidateConfig cfg = Ok ()) (linear_probes c rows).
Proof using Hg.
  intros Hr. pose proof (decode_probes_valid rows Hr) as H. unfold decode_probes in H. by apply Forall_app in H as [? _].
Qed.

Lemma row_shapes_spec : Forall (λ rows, 1 <= rows) (row_shapes o) ∧ ∀ b, b ∈ buckets o → b ∈ row_shapes o.
Proof using Hg.
  pose proof (buckets_range c o Hg) as Hb. pose proof (go_batch _ _ Hg). unfold row_shapes. case_bool_decide; split.
  - eapply Forall_impl; [done|]. cbv beta. lia.
  - done.
  - apply Forall_app. split; [eapply Forall_impl; [done|]; cbv beta; lia|by constructor].
  - intros b Hin. apply elem_of_app. by left.
Qed.

(** ** The whole constructor *)

(** Before the graphs: quiet, serving, nothing captured. *)
Record fresh (dump : bool) (s : Executor) : Prop := {
  fr_quiet : quiet s;
  fr_gemm : serving (x_gemm s);
  fr_closed : x_capture s = None;
  fr_graphs : x_graphs s = [];
  fr_execs : x_execs s = [];
  fr_dump : x_dump_pending s = dump;
}.

Lemma fresh_call dump what f s (Q : () → Executor → Prop) :
  fresh dump s → (∀ s', fresh dump s' → Q () (f s')) → wp (CudaCheck what f) Q s.
Proof using Hcuda.
  intros [H1 H2 H3 H4 H5 H6] HQ. assert (resting s None s) as Hr by (rewrite <- H3; by apply resting_refl).
  eapply resting_CudaCheck; [exact Hr|]. intros s' [C1 C2 C3 C4 (E1 & E2 & E3 & E4 & _) C6]. apply HQ.
  split; congruence.
Qed.

Lemma fresh_probing dump s (Q : () → Executor → Prop) :
  fresh dump s → mirrors_sized o (x_mirrors s) →
  (∀ s', fresh dump s' → mirrors_sized o (x_mirrors s') → x_mode s' = kStridedBatched →
     (∀ b, b ∈ buckets o → step_known s' b) → Q () s') →
  wp (ProbeDecodeGemmConfigs c o lt) (λ _, wp (ProbePrefillGemmConfigs c o lt) Q) s.
Proof using Hg Hlt.
  intros [H1 H2 H3 H4 H5 H6] Hm HQ. pose proof row_shapes_spec as [Hrs Hin].
  unfold ProbeDecodeGemmConfigs. wp_step. apply wp_probe_list; [done| |].
  { apply Forall_concat, Forall_forall. intros l Hl. apply list_elem_of_fmap in Hl as (rows & -> & Hrow).
    apply decode_probes_valid. by apply (proj1 (Forall_forall _ _) Hrs). }
  intros g Hg1 Hk. apply wp_ret. unfold ProbePrefillGemmConfigs.
  set (rows := Z.min (x_prefill_chunk_tokens o) (x_max_seq_len o)).
  assert (1 <= rows ∧ 1 <= x_max_seq_len o) as [Hrows Hseq] by (pose proof (go_chunk _ _ Hg); pose proof (go_seq _ _ Hg); lia).
  pose proof (widths_pos c o Hg) as (? & ? & ? & ? & ? & ? & ? & ? & ? & ?).
  assert (∀ heads, 1 <= heads → ValidateConfig (scores_cfg c rows (x_max_seq_len o) heads) = Ok () ∧
    ValidateConfig (pv_cfg c rows (x_max_seq_len o) heads) = Ok ()) as Hv.
  { intros heads Hh. split; [apply scores_valid; lia|apply pv_valid; lia]. }
  cbv zeta. wp_step. apply wp_probe_list; [apply Hg1|by apply linear_probes_valid|].
  intros g2 Hg2 _. cbv iota. wp_step. apply wp_ret. wp_step.
  apply wp_probe; [apply Hg2|apply Hv; lia|]. intros g3 Hg3 _. wp_step.
  apply wp_probe; [apply Hg3|apply Hv; lia|]. intros g4 Hg4 _. wp_step.
  apply wp_probe; [apply Hg4|apply Hv; lia|]. intros g5 Hg5 _. wp_step.
  apply wp_probe; [apply Hg5|apply Hv; lia|]. intros g6 Hg6 _. cbn [andb]. apply wp_modify. cbn [x_gemm set_gemm] in *.
  assert (grows kDefaultWorkspaceBytes g g6) as Hall by (repeat (eapply grows_trans; [eassumption|]); apply grows_refl, Hg6).
  apply HQ; [|done|done|].
  - split; cbn; [done|apply Hg6|done..].
  - intros b Hb cfg Hc. cbn. apply Hall, Hk. apply list_elem_of_In, in_concat. exists (decode_probes c b).
    split; [apply in_map, list_elem_of_In; by apply Hin|by apply list_elem_of_In].
Qed.

Lemma wp_construct s (Q : () → Executor → Prop) dump :
  quiet s → x_gemm s = CublasLtGemm_new → x_capture s = None → x_graphs s = [] → x_execs s = [] →
  x_dump_pending s = dump →
  (∀ s', idle s' → x_mode s' = kStridedBatched → x_dump_pending s' = dump →
     x_graphs s' = (if enable_cuda_graphs o then map (decode_step_launches c o) (buckets o) else []) → Q () s') →
  wp (construct c o lt dev dma cuda_ok) Q s.
Proof using Hcuda Hg Hlt.
  intros H1 H2 H3 H4 H5 H6 HQ. unfold construct, AllocateDeviceMemory, AllocatePinnedMirrors. wp_step.
  unfold Executor.CudaCheck at 1. wp_step. eapply wp_cuda_status; [done|].
  intros s1 _ Hc (E1 & E2 & E3 & E4 & _) Hge _ Hq. cbv iota. apply wp_modify. wp_step. apply wp_on_gemm.
  cbn [x_gemm acquire set_resources]. rewrite Hge, H2. eapply wp_mono; [apply wp_Init_serving; [done|done]|].
  cbv beta. intros _ g Hsv.
  assert (fresh dump (set_gemm g (acquire RStream s1))) as F1 by (split; cbn; try congruence; by apply Hq).
  assert (∀ r s, fresh dump s → fresh dump (acquire r s)) as Facq by (by intros r s2 []).
  assert (∀ m d s, fresh dump s → fresh dump (set_stream m d (x_queue s) s)) as Fstr by (by intros m d s2 []).
  repeat wp_step. eapply fresh_call; [exact F1|]. intros s2 F2%(Facq RPool). repeat wp_step.
  eapply fresh_call; [exact F2|]. intros s3 F3%(Facq RScratch). repeat wp_step.
  eapply fresh_call; [exact F3|]. intros s4 F4. repeat wp_step.
  eapply fresh_call; [exact F4|]. intros s5 F5. repeat wp_step.
  eapply fresh_call; [exact F5|]. intros s6 F6%(Fstr (x_mirrors s6) (dev_zero dev)). repeat wp_step.
  eapply fresh_call; [exact F6|]. intros s7 F7%(Facq RPinned). repeat wp_step.
  assert (fresh dump (set_mirrors (zero_mirrors o) (acquire RPinned s7))) as F8 by (by destruct F7).
  eapply wp_mono; [eapply (fresh_probing dump); [exact F8|by apply (zero_mirrors_sized o c)|]|].
  2:{ cbv beta. intros [] s8 H8. wp_step. exact H8. }
  cbv beta. intros s8 F9 Hm Hmode Hk. pose proof F9 as [Q1 Q2 Q3 Q4 Q5 Q6].
  assert (idle s8) as Hi by by split.
  destruct (enable_cuda_graphs o).
  - apply wp_Capture; [done|done|done|done|]. intros s9 Hi9 G9 M9 D9. apply HQ; [done|congruence|congruence|done].
  - apply wp_ret. by apply HQ.
Qed.

End warm.

Lemma wp_ModelExecutor_new {Algo D} c o (lt : LtLibrary Algo) (dev : Device D) dma b :
  ComputeBudget c o = Ok b → derive_widths c o b = Ok () → lt_serves lt kDefaultWorkspaceBytes →
  wp (ModelExecutor_new c o lt dev dma (λ _, true) (num_layers c))
    (λ _ s, idle o s ∧ x_mode s = kStridedBatched ∧
       x_graphs s = (if enable_cuda_graphs o then map (decode_step_launches c o) (buckets o) else []) ∧
       x_dump_pending s = negb (String.eqb (debug_dump_dir o) "")) (Executor_members dev).
Proof.
  intros Hb Hd Hlt. pose proof (budget_geometry c o b Hb) as Hg.
  unfold ModelExecutor_new. rewrite Hb, Hd. wp_step. rewrite Z.eqb_refl. cbn [negb lift]. wp_auto.
  set (s0 := set_dump _ _).
  assert (wp (construct c o lt dev dma (λ _, true)) (λ _ s, idle o s ∧ x_mode s = kStridedBatched ∧
     x_graphs s = (if enable_cuda_graphs o then map (decode_step_launches c o) (buckets o) else []) ∧
     x_dump_pending s = negb (String.eqb (debug_dump_dir o) "")) s0) as Hc by (by eapply wp_construct).
  revert Hc. unfold wp, try_catch. by destruct (construct c o lt dev dma (λ _, true) s0) as [[] ?].
Qed.

(** On a working device construction succeeds, and capture is complete.
    For every accepted configuration the executor comes up idle, in the
    strided-batched prefill form, with exactly the decode step of every bucket
    captured when graphs are enabled, whatever the device's timing.  In
    particular no capture region ever needed a heuristic query: every product
    was already cached. *)
Theorem construction_on_working_device {Algo D} c o (lt : LtLibrary Algo) (dev : Device D) dma b :
  ComputeBudget c o = Ok b → derive_widths c o b = Ok () → lt_serves lt kDefaultWorkspaceBytes →
  ∃ s, ModelExecutor_new c o lt dev dma (λ _, true) (num_layers c) (Executor_members dev) = (Ok (), s) ∧
    idle o s ∧ x_mode s = kStridedBatched ∧
    x_graphs s = (if enable_cuda_graphs o then map (decode_step_launches c o) (buckets o) else []) ∧
    x_dump_pending s = negb (String.eqb (debug_dump_dir o) "").
Proof.
  intros Hb Hd Hlt. destruct (proj1 (wp_run _ _ _) (wp_ModelExecutor_new c o lt dev dma b Hb Hd Hlt)) as ([] & s & Heq & H).
  by exists s.
Qed.

(** C32. Graph replay is the eager step.  Whenever eager execution would pad the
    batch to the bucket that covers it, [DecodeGraph] and [DecodeEager] return
    the same tokens, row count and bucket, and leave the same mirrors and device
    memory, even if the device's timing differs between the two; both leave the
    executor ready for the next step. *)
Theorem graph_replay_is_eager {Algo D} c o (lt : LtLibrary Algo) (dev : Device D) dma1 dma2 batch s :
  geometry_ok c o → mirror_geometry o → lt_serves lt kDefaultWorkspaceBytes →
  idle o s → captured c o s → batch ≠ [] → zlen batch <= x_max_batch o →
  Forall (λ r, ∃ tok, row_ok c o (num_kv_blocks_ c o) r tok) batch →
  SelectBucket (zlen batch) (buckets o) = decode_rows o (zlen batch) 0 →
  ∃ out s1 s2, DecodeEager c o lt dev dma1 (λ _, true) batch s = (Ok out, s1) ∧
    DecodeGraph c o dev dma2 (λ _, true) batch s = (Ok out, s2) ∧
    x_mirrors s1 = x_mirrors s2 ∧ x_dev s1 = x_dev s2 ∧ idle o s1 ∧ idle o s2.
Proof.
  intros Hg Hmg Hlt Hs Hcap Hne Hb Hok Hrows. pose proof (zlen_nonneg batch).
  pose proof (decode_rows_range o (proj2 Hmg) (zlen batch) 0 ltac:(lia) ltac:(lia)) as Hr.
  assert (1 <= zlen batch) by (destruct batch; [done|zlen; pose proof (zlen_nonneg batch); lia]).
  set (b := SelectBucket (zlen batch) (buckets o)) in *.
  assert (wp (DecodeEager c o lt dev dma1 (λ _, true) batch) (decode_result c o dev batch b b s) s) as H1.
  { eapply wp_DecodeEager; try done. cbv zeta. rewrite <- Hrows. intros out s'.
    by rewrite BucketForRows_bucket by (apply SelectBucket_in; fold b; lia). }
  assert (wp (DecodeGraph c o dev dma2 (λ _, true) batch) (decode_result c o dev batch b b s) s) as H2.
  { eapply wp_DecodeGraph; try done. fold b. lia. }
  apply wp_run in H1 as (out & s1 & Hq1 & Ho1 & Hi1 & _ & Hm1). apply wp_run in H2 as (out2 & s2 & Hq2 & Ho2 & Hi2 & _ & Hm2).
  exists out, s1, s2. rewrite Ho1, <- Ho2. rewrite <- Hm2 in Hm1. injection Hm1 as ? ?. split_and!; try done. by rewrite Ho1, <- Ho2 in Hq1.
Qed.

(** What a prefill chunk does.  For a valid chunk on a working device,
    [PrefillChunk] runs exactly the uploads and launches of that chunk, in order
    and independently of the device's timing, and reports its row count.  The
    final chunk of a prompt, and only that one, also runs the logits and argmax
    launches and returns the first argmax entry of the device as the sequence's
    first token; any other chunk returns -1. *)
Theorem prefill_chunk_result {Algo D} c o (lt : LtLibrary Algo) (dev : Device D) dma dump r cb ce s :
  geometry_ok c o → mirror_geometry o → lt_serves lt kDefaultWorkspaceBytes →
  idle o s → x_dump_pending s = false → chunk_ok c o (num_kv_blocks_ c o) r cb ce → (∀ d, dev_argmax dev d ≠ []) →
  ∃ out s', PrefillChunk c o lt dev dma (λ _, true) dump (Some r) cb ce s = (Ok out, s') ∧ idle o s' ∧
    (x_mirrors s', x_dev s') = prefill_state c o dev r cb ce s ∧
    chunk_rows out = ce - cb ∧ final_chunk out = (ce =? num_prompt_tokens r) ∧
    (if final_chunk out then dev_argmax dev (x_dev s') !! 0%nat = Some (first_token out) else first_token out = -1).
Proof.
  intros Hg Hmg Hlt Hs Hd Hck Harg.
  assert (wp (PrefillChunk c o lt dev dma (λ _, true) dump (Some r) cb ce) (λ out s', idle o s' ∧
    (x_mirrors s', x_dev s') = prefill_state c o dev r cb ce s ∧
    chunk_rows out = ce - cb ∧ final_chunk out = (ce =? num_prompt_tokens r) ∧
    (if final_chunk out then dev_argmax dev (x_dev s') !! 0%nat = Some (first_token out) else first_token out = -1)) s) as Hwp.
  { eapply wp_PrefillChunk; try done. cbv zeta. intros out s' H1 _ H2 H3 H4 H5. split_and!; try done. by rewrite <- H2 in H5. }
  apply wp_run in Hwp as (out & s' & Heq & H). by exists out, s'.
Qed.

(** ** A working device and two requests of a served model *)

Module WorkingExample.

Definition lib : LtLibrary Z :=
  mkLt Z CUBLAS_SUCCESS (λ _, true) (Some ("device"%string, 7, 5)) 120000 (λ _, None)
    (λ _, (CUBLAS_SUCCESS, [mkResult CUBLAS_SUCCESS 1024 zero_float 7]))
    (λ _ _, Some 1) (λ _, CUBLAS_SUCCESS) (λ _ _, CUBLAS_SUCCESS).

Lemma lib_serves : lt_serves lib kDefaultWorkspaceBytes.
Proof. split; [|intros d; split; [done|by eexists]|done|done]. split; [done|done|by eexists|done|by left]. Qed.

(** Eager steps pad to the covering bucket. *)
Definition opts : ExecutorOptions := mkExecutorOptions (8 * 458752) 4 64 8 true 1 "".
Definition batch : list Request := [MirrorExample.seq_a; MirrorExample.seq_b; MirrorExample.seq_b].

Lemma rows_ok : Forall (λ r, ∃ tok, row_ok qwen25 opts 8 r tok) batch.
Proof.
  repeat constructor; [exists 9|exists 11|exists 11]; (split; try done; apply (bool_decide_eq_true_1 _); by vm_compute).
Qed.

Notation constructed :=
  (ModelExecutor_new qwen25 opts lib ExecutorExample.dev (λ _, 0%nat) (λ _, true) (num_layers qwen25) (Executor_members ExecutorExample.dev))
  (only parsing).

Lemma ready : ∃ s, constructed = (Ok (), s) ∧ idle opts s ∧ captured qwen25 opts s ∧ x_dump_pending s = false.
Proof.
  assert (∃ b, ComputeBudget qwen25 opts = Ok b ∧ derive_widths qwen25 opts b = Ok ()) as (b & Hb & Hw) by (eexists; split; [by vm_compute|by vm_compute]).
  destruct (proj1 (wp_run _ _ _) (wp_ModelExecutor_new qwen25 opts lib ExecutorExample.dev (λ _, 0%nat) b Hb Hw lib_serves))
    as ([] & s & Heq & Hi & _ & Hgr & Hd).
  exists s. split; [exact Heq|]. split; [exact Hi|]. split; [exact Hgr|exact Hd].
Qed.

End WorkingExample.

Lemma construction_on_working_device_witness :
  ∃ s, ModelExecutor_new qwen25 WorkingExample.opts WorkingExample.lib ExecutorExample.dev (λ _, 0%nat) (λ _, true) (num_layers qwen25)
         (Executor_members ExecutorExample.dev) = (Ok (), s) ∧ length (x_graphs s) = 3%nat.
Proof.
  assert (∃ b, ComputeBudget qwen25 WorkingExample.opts = Ok b ∧ derive_widths qwen25 WorkingExample.opts b = Ok ()) as (b & Hb & Hw)
    by (eexists; split; [by vm_compute|by vm_compute]).
  destruct (construction_on_working_device qwen25 WorkingExample.opts WorkingExample.lib ExecutorExample.dev (λ _, 0%nat) b Hb Hw
    WorkingExample.lib_serves) as (s & Heq & _ & _ & Hgr & _).
  exists s. split; [exact Heq|]. rewrite Hgr. reflexivity.
Defined.

Lemma graph_replay_is_eager_witness :
  ∃ s out s1 s2,
    DecodeEager qwen25 WorkingExample.opts WorkingExample.lib ExecutorExample.dev (λ _, 0%nat) (λ _, true)
      WorkingExample.batch s = (Ok out, s1) ∧
    DecodeGraph qwen25 WorkingExample.opts ExecutorExample.dev (λ n, n) (λ _, true) WorkingExample.batch s = (Ok out, s2) ∧
    x_mirrors s1 = x_mirrors s2 ∧ x_dev s1 = x_dev s2 ∧ idle WorkingExample.opts s1 ∧ idle WorkingExample.opts s2.
Proof.
  destruct WorkingExample.ready as (s & _ & Hi & Hc & _). exists s.
  apply (graph_replay_is_eager qwen25 WorkingExample.opts WorkingExample.lib ExecutorExample.dev (λ _, 0%nat) (λ n, n)
    WorkingExample.batch s); try done.
  - apply WorkingExample.lib_serves.
  - apply WorkingExample.rows_ok.
Defined.

Lemma prefill_chunk_result_witness :
  ∃ s out s', PrefillChunk qwen25 WorkingExample.opts WorkingExample.lib ExecutorExample.dev (λ n, n) (λ _, true)
      (λ _ _ _ _, mret ()) (Some MirrorExample.seq_a) 10 18 s = (Ok out, s') ∧ idle WorkingExample.opts s' ∧
    (x_mirrors s', x_dev s') = prefill_state qwen25 WorkingExample.opts ExecutorExample.dev MirrorExample.seq_a 10 18 s ∧
    chunk_rows out = 18 - 10 ∧ final_chunk out = (18 =? num_prompt_tokens MirrorExample.seq_a) ∧
    (if final_chunk out then dev_argmax ExecutorExample.dev (x_dev s') !! 0%nat = Some (first_token out) else first_token out = -1).
Proof.
  destruct WorkingExample.ready as (s & _ & Hi & _ & Hd). exists s.
  apply (prefill_chunk_result qwen25 WorkingExample.opts WorkingExample.lib ExecutorExample.dev (λ n, n) (λ _ _ _ _, mret ())
    MirrorExample.seq_a 10 18 s); try done.
  - apply WorkingExample.lib_serves.
  - split; try done; apply (bool_decide_eq_true_1 _); by vm_compute.
  - intros d. unfold ExecutorExample.dev. cbn. by destruct d.
Defined.
