(* ===== verification/KernelDevice.v ===== *)
(** * The launches of a step, run by the kernel models

    The executor issues launches and leaves their effect to a [Device].  This
    file builds that device from the kernel models: one memory of binary16
    cells in which every buffer has its address, the scores in binary32, the
    integer arrays of a step, and for each launch the launcher of its kernel
    file on the pointers the launch carries.  The order of a grid's blocks and
    threads, what shared memory holds, the copy pipeline and the alignments a
    launcher tests are an environment, free for every launch.  The vendor
    library's products are a parameter. *)

From Stdlib Require Import Floats.SpecFloat.
From S2P Require Import Prelude Doubles Types ModelConfig GemmConfig ExecutorLayout HalfFloat KvPool EmbedGather Argmax DeviceMath SiluMul Rope Reduce RmsNorm PrefillSoftmax PagedAttention Launches Executor.

(** What the hardware decides for one launch. *)
Record KernelEnv : Type := mkKernelEnv {
  ke_pairs : list (Z * Z) → list (Z * Z);
  ke_threads : list (Z * Z * Z) → list (Z * Z * Z);
  ke_rms : rms_schedule (F := float32);
  ke_attention : pa_schedule float32 Z;
  ke_stores : Z * Z → list Z → list Z;
  ke_upload : upload_answer float32;
  ke_shared : Z → float32 * float32;
  ke_aligned16 : bool;
  ke_aligned4 : bool;
  ke_cpasync : bool;
}.

(** Device memory: the 16-bit cells by address, the scores, the integer arrays
    by buffer and index; the rotary table in constant memory; and the number of
    launches so far. *)
Record KState : Type := mkKState {
  ks_mem : Z → Z;
  ks_scores : Z → float32;
  ks_ints : buffer → Z → Z;
  ks_rope : InvFreqCacheState float32;
  ks_launches : nat;
}.

(** The vendor library: the element of [D] at an offset, from the operands, and
    a bias if the epilogue adds one. *)
Record Products : Type := mkProducts {
  pr_half : GemmConfig → (Z → Z) → (Z → Z) → option (Z → Z) → Z → Z;
  pr_float : GemmConfig → (Z → Z) → (Z → Z) → Z → float32;
}.

(** The offsets of [D] a product writes. *)
Definition d_cells (c : GemmConfig) : list Z :=
  concat (map (λ h, concat (map (λ j, map (λ i, d_offset c h i j) (seqZ 0 (g_m c))) (seqZ 0 (g_n c)))) (seqZ 0 (batch c))).

Section exec.
Context (expf_lib rsqrtf_lib : float32 → float32) (pow_lib : float32 → float32 → float32) (sincosf_lib : float32 → float32 * float32).
#[local] Instance device_ops : FloatOps float32 Z := ieee expf_lib rsqrtf_lib pow_lib sincosf_lib.
Context (base : buffer → Z) (eps theta scale : float32) (pr : Products).
Context (NDEBUG : bool) (compute_major : Z) (env : nat → KernelEnv).

Definition addr (p : ptr) : Z := base (p_buf p) + p_off p.

(** Memory as a kernel sees it through a pointer, and back. *)
Definition view (m : Z → Z) (p : ptr) : Z → Z := λ i, m (addr p + i).
Definition unview (m : Z → Z) (p : ptr) : Z → Z := λ a, m (a - addr p).

Definition ints_at (s : KState) (p : ptr) : Z → Z := λ i, ks_ints s (p_buf p) (p_off p + i).

Definition set_mem m (s : KState) : KState := mkKState m (ks_scores s) (ks_ints s) (ks_rope s) (ks_launches s).
Definition set_scores f (s : KState) : KState := mkKState (ks_mem s) f (ks_ints s) (ks_rope s) (ks_launches s).
Definition set_rope r (s : KState) : KState := mkKState (ks_mem s) (ks_scores s) (ks_ints s) r (ks_launches s).
Definition set_ints (b : buffer) (f : Z → Z) (s : KState) : KState :=
  mkKState (ks_mem s) (ks_scores s) (λ b', if decide (b' = b) then f else ks_ints s b') (ks_rope s) (ks_launches s).

(** [None]: a failed debug assertion or an exception of a launcher. *)
Definition launch_effect (l : launch) (s : KState) : option KState :=
  let m := ks_mem s in
  let e := env (ks_launches s) in
  match l with
  | EmbedGather out os embed ids n hidden =>
      Some (set_mem (unview (LaunchEmbedGather (ke_aligned16 e) (ke_aligned4 e) (view m out) os (view m embed) (ints_at s ids) n hidden
        (λ t, ke_pairs e (embed_grid (t_threads t) (t_width t) n))) out) s)
  | RmsNorm out inp w n hidden =>
      m' ← LaunchRmsNorm (ke_rms e) NDEBUG compute_major (addr out) (addr inp) (addr w) n hidden eps m; Some (set_mem m' s)
  | RmsNormResidual out res inp w n hidden =>
      m' ← LaunchRmsNormResidual (ke_rms e) NDEBUG compute_major (addr out) (addr res) (addr inp) (addr w) n hidden eps m; Some (set_mem m' s)
  | RopeInplace q k qs ks pos n nq nkv hd =>
      r ← LaunchRopeInplace NDEBUG (ke_upload e) compute_major (ke_shared e) (ke_threads e) (addr q) (addr k) qs ks (ints_at s pos)
        n nq nkv hd theta (m, ks_rope s); Some (set_rope r.2 (set_mem r.1 s))
  | KvScatter pool k v ks vs tab ts pos n nkv hd =>
      Some (set_mem (unview (LaunchKvScatter (ke_aligned16 e) (view m pool) (view m k) (view m v) ks vs (ints_at s tab) ts (ints_at s pos) n nkv hd
        (λ hpw, ke_pairs e (grid_words nkv hd hpw n))) pool) s)
  | KvGather kh vh hs rs pool tab ctx nkv hd =>
      let '(m1, m2) := LaunchKvGather (ke_aligned16 e) (view m kh) (view m vh) hs rs hs rs (view m pool) (ints_at s tab) ctx nkv hd
        (λ hpw, ke_pairs e (grid_words nkv hd hpw ctx)) in
      (* the planes of [khat] from the first result, everything else from the second *)
      Some (set_mem (λ a, if (addr kh <=? a) && (a <? addr kh + nkv * hs) then unview m1 kh a else unview m2 vh a) s)
  | PagedAttentionDecode out os q qs pool tab lens n mb nq nkv hd =>
      m' ← LaunchPagedAttentionDecode (ke_attention e) compute_major (ke_cpasync e) true (addr out) os (addr q) qs (addr pool)
        (ints_at s tab) (ints_at s lens) n mb nq nkv hd scale m; Some (set_mem m' s)
  | PrefillSoftmax probs scores nq n ctx start =>
      m' ← LaunchPrefillSoftmax NDEBUG (ke_pairs e) (ke_stores e) (addr probs) (λ i, ks_scores s (addr scores + i)) nq n ctx start m;
      Some (set_mem m' s)
  | SiluMul out gu n inter => Some (set_mem (LaunchSiluMul (ke_pairs e) (addr out) (addr gu) n inter m) s)
  | GreedyArgmax out logits n v =>
      let toks := LaunchGreedyArgmax (ke_aligned16 e) compute_major (view m logits) n v in
      Some (set_ints (p_buf out) (λ i, default (ks_ints s (p_buf out) i)
        (if p_off out <=? i then toks !! Z.to_nat (i - p_off out) else None)) s)
  | Gemm mGemmStridedBatched_float c d a b _ =>
      Some (set_scores (λ x, if bool_decide (x - addr d ∈ d_cells c) then pr_float pr c (view m a) (view m b) (x - addr d) else ks_scores s x) s)
  | Gemm _ c d a b bias =>
      Some (set_mem (λ x, if bool_decide (x - addr d ∈ d_cells c)
        then pr_half pr c (view m a) (view m b) (view m <$> bias) (x - addr d) else m x) s)
  end.

Definition kernel_exec (l : launch) (s : KState) : option KState :=
  s' ← launch_effect l s; Some (mkKState (ks_mem s') (ks_scores s') (ks_ints s') (ks_rope s') (S (ks_launches s'))).

Fixpoint kernel_run (ls : list launch) (s : KState) : option KState :=
  match ls with [] => Some s | l :: ls => s' ← kernel_exec l s; kernel_run ls s' end.

End exec.
