(* ===== verification/KernelDecode.v ===== *)
(** * The launches of a step on the kernel models

    One launch at a time, run by its kernel: it leaves a value in the rows it is
    for and nothing else changes, whatever the hardware decides.  The launches
    here serve decode steps and, but for the attention, prompt chunks; what is
    assumed of the environment, of the memory's layout and of the vendor
    library's products is stated first. *)

From Stdlib Require Import Floats.SpecFloat.
From S2P Require Import Prelude Doubles Types ModelConfig GemmConfig ExecutorLayout HalfFloat KvPool EmbedGather Argmax DeviceMath SiluMul Rope Reduce RmsNorm PrefillSoftmax PagedAttention PagedAttentionRef PagedAttentionTheorems Launches Executor KernelDevice.

(** ** The environment and the library *)

(** The grids run their work items once each, and the table upload succeeds. *)
Record env_ok (e : KernelEnv) : Prop := {
  eo_pairs l : ke_pairs e l ≡ₚ l;
  eo_threads l : ke_threads e l ≡ₚ l;
  eo_rms : RmsNorm.schedule_ok (ke_rms e);
  eo_attention : pa_schedule_ok (ke_attention e);
  eo_stores rh l : ke_stores e rh l ≡ₚ l;
  eo_upload : sync_ok (ke_upload e) = true ∧ copy_ok (ke_upload e) = true;
}.

(** What cuBLASLt documents of a product: element [(i, j)] is made of row [i] of
    A, column [j] of B and element [i] of the bias. *)
Definition products_local (pr : Products) : Prop :=
  ∀ c a b a' b' h i j, d_index c h i j → no_overlap c →
    (∀ l, 0 <= l < g_k c → a (a_offset c h i l) = a' (a_offset c h i l) ∧ b (b_offset c h l j) = b' (b_offset c h l j)) →
    (∀ bias bias', (match bias, bias' with Some f, Some f' => f i = f' i | None, None => True | _, _ => False end) →
      pr_half pr c a b bias (d_offset c h i j) = pr_half pr c a' b' bias' (d_offset c h i j)) ∧
    pr_float pr c a b (d_offset c h i j) = pr_float pr c a' b' (d_offset c h i j).

Lemma elem_of_d_cells c x : x ∈ d_cells c ↔ ∃ h i j, d_index c h i j ∧ x = d_offset c h i j.
Proof.
  unfold d_cells, d_index. rewrite elem_of_concat_map. split.
  - intros (h & Hh%elem_of_seqZ & Hx). apply elem_of_concat_map in Hx as (j & Hj%elem_of_seqZ & Hx).
    apply list_elem_of_fmap in Hx as (i & -> & Hi%elem_of_seqZ). exists h, i, j. split; [lia|done].
  - intros (h & i & j & (Hh & Hi & Hj) & ->). exists h. split; [apply elem_of_seqZ; lia|].
    apply elem_of_concat_map. exists j. split; [apply elem_of_seqZ; lia|].
    apply list_elem_of_fmap. exists i. split; [done|apply elem_of_seqZ; lia].
Qed.

Section decode.
Context (expf_lib rsqrtf_lib : float32 → float32) (pow_lib : float32 → float32 → float32) (sincosf_lib : float32 → float32 * float32).
#[local] Instance decode_ops : FloatOps float32 Z := ieee expf_lib rsqrtf_lib pow_lib sincosf_lib.
Context (c : ModelConfig) (o : ExecutorOptions) (kv_blocks : Z) (base : buffer → Z) (eps theta scale : float32) (pr : Products).
Context (NDEBUG : bool) (compute_major : Z).
Notation cap := (capacity c o kv_blocks).
Notation hidden := (hidden_size c).
Notation mb := (max_blocks_per_seq o).

(** The buffers of 16-bit cells. *)
Definition half_buffer (b : buffer) : bool :=
  match b with
  | BScores | BInputIds | BPositions | BSeqLens | BBlockTables | BArgmax => false
  | BPool l | WInputNorm l | WPostNorm l | WQkv l | WQkvBias l | WO l | WGateup l | WDown l => (0 <=? l) && (l <? num_layers c)
  | _ => true
  end.

(** The weights, which no launch writes. *)
Definition read_only (b : buffer) : bool :=
  match b with
  | WEmbed | WFinalNorm | WLmHead | WInputNorm _ | WPostNorm _ | WQkv _ | WQkvBias _ | WO _ | WGateup _ | WDown _ => true
  | _ => false
  end.

(** Allocated buffers are not null, and apart unless neither is ever written: the
    output head may be the embedding table itself. *)
Record layout_ok : Prop := {
  lo_apart b b' : half_buffer b = true → half_buffer b' = true → b ≠ b' → read_only b && read_only b' = false →
    apart (base b) (cap b) (base b') (cap b');
  lo_not_null b : half_buffer b = true → base b ≠ 0;
}.

(** The shapes the attention kernel is built for, and a positive rotary base. *)
Record shapes_ok : Prop := {
  sh_geometry : geometry_ok c o;
  sh_head_dim : head_dim c = kHeadDim;
  sh_group : num_q_heads c = num_kv_heads c * kGroupSize;
  sh_blocks : 2 <= kv_blocks;
  sh_theta : fltb f_zero theta = true ∧ fleb theta f_zero = false;
}.

Context (HL : layout_ok) (Hsh : shapes_ok) (Hpr : products_local pr).

Definition cell (s : KState) (b : buffer) (i : Z) : Z := ks_mem s (base b + i).

Lemma other_buffer b b' i j :
  half_buffer b = true → half_buffer b' = true → b ≠ b' → read_only b && read_only b' = false →
  0 <= i < cap b → 0 <= j < cap b' → base b + i ≠ base b' + j.
Proof using HL. intros Hb Hb' Hne Hro Hi Hj. destruct (lo_apart HL b b' Hb Hb' Hne Hro); lia. Qed.

Lemma apart_sub b b' n n' : half_buffer b = true → half_buffer b' = true → b ≠ b' → read_only b && read_only b' = false →
  n <= cap b → n' <= cap b' → apart (base b) n (base b') n'.
Proof using HL. intros Hb Hb' Hne Hro Hn Hn'. destruct (lo_apart HL b b' Hb Hb' Hne Hro); [left|right]; lia. Qed.

(** What a launch that writes the buffers [W] leaves alone. *)
Record frame (W : list buffer) (s s' : KState) : Prop := {
  fr_cells b i : half_buffer b = true → b ∉ W → 0 <= i < cap b → cell s' b i = cell s b i;
  fr_ints b : b ≠ BArgmax → ks_ints s' b = ks_ints s b;
  fr_rope : Rope.cache_ok (ks_rope s) → Rope.cache_ok (ks_rope s');
}.

(** A write inside one buffer. *)
Lemma frame_write b m' (s : KState) :
  half_buffer b = true → read_only b = false → (∀ a, (∀ j, 0 <= j < cap b → a ≠ base b + j) → m' a = ks_mem s a) →
  frame [b] s (set_mem m' s).
Proof using HL.
  intros Hb Hro Hm. split; [|done|done]. intros b' i Hb' Hn Hi. apply Hm. intros j Hj.
  apply not_elem_of_cons in Hn as [Hn _]. apply other_buffer; try done. by rewrite Hro, andb_false_r.
Qed.

(** A memory the launch changes only in [b] and [b2]. *)
Lemma frame_two b b2 m' (s : KState) :
  half_buffer b = true → half_buffer b2 = true → read_only b = false → read_only b2 = false →
  (∀ a, (∀ j, 0 <= j < cap b → a ≠ base b + j) → (∀ j, 0 <= j < cap b2 → a ≠ base b2 + j) → m' a = ks_mem s a) →
  frame [b; b2] s (set_mem m' s).
Proof using HL.
  intros Hb Hb2 Hro Hro2 Hm. split; [|done|done]. intros b' i Hb' Hn Hi. rewrite !not_elem_of_cons in Hn. destruct Hn as (Hn & Hn2 & _).
  apply Hm; intros j Hj; apply other_buffer; try done; by rewrite ?Hro, ?Hro2, andb_false_r.
Qed.

(** A weight vector of one row. *)
Definition norm_weight (w : buffer) : Prop := half_buffer w = true ∧ w ∉ [BX; BNormed; BMlpOut] ∧ cap w = hidden.

(** The value of a normalised row: [h] the row, [w] the weight. *)
Definition normalized (total : (Z → float32) → float32) (h w : Z → Z) (j : Z) : Z :=
  let inv_rms := rsqrtf (fadd (fdiv (total (λ c, __half2float (h c))) (f_of_int hidden)) eps) in
  __float2half_rn (fmul (__half2float (__float2half_rn (fmul (__half2float (h j)) inv_rms))) (__half2float (w j))).

(** The row a residual launch normalises. *)
Definition summed (x y : Z → Z) (j : Z) : Z := __float2half_rn (fadd (__half2float (x j)) (__half2float (y j))).

(** A row's total depends on the row alone. *)
Definition row_total_of (total : (Z → float32) → float32) : Prop :=
  ∀ h h', (∀ j, 0 <= j < hidden → h j = h' j) → total h = total h'.

Lemma normalized_ext total h w h' w' j : row_total_of total → 0 <= j < hidden →
  (∀ j, 0 <= j < hidden → h j = h' j ∧ w j = w' j) → normalized total h w j = normalized total h' w' j.
Proof using.
  intros Ht Hj Heq. unfold normalized. destruct (Heq j Hj) as [-> ->].
  rewrite (Ht (λ c, __half2float (h c)) (λ c, __half2float (h' c))); [done|]. intros k Hk. by destruct (Heq k Hk) as [-> _].
Qed.

(** Row [t] of a buffer whose rows are [w] wide. *)
Definition row_of (s : KState) (b : buffer) (w t : Z) : Z → Z := λ j, cell s b (t * w + j).

(** The row of a buffer. *)
Definition width (b : buffer) : Z :=
  match b with BQkv => qkv_width c | BGateup => gateup_width c | BLogits => vocab_size c | _ => hidden end.

(** The block of row [t]'s table that holds position [p], and the cached element
    of plane [kv] at that position. *)
Definition block_at (s : KState) (t p : Z) : Z := ks_ints s BBlockTables (t * mb + p / 16).
Definition cached (s : KState) (layer t kv h p d : Z) : Z :=
  cell s (BPool layer) (pool_addr (num_kv_heads c) 128 (block_at s t p) kv h (p mod 16) d).

(** What a step's integer arrays promise about row [r]: every row stays inside
    its table and the pool, row [r] attends up to the position it writes, its
    blocks are distinct, and no other row writes one of them. *)
Record row_ok (rows r : Z) (s : KState) : Prop := {
  ro_row : 0 <= r < rows;
  ro_positions t : 0 <= t < rows → 0 <= ks_ints s BPositions t < mb * 16;
  ro_tables t i : 0 <= t < rows → 0 <= i < mb → 0 <= ks_ints s BBlockTables (t * mb + i) < kv_blocks;
  ro_len : ks_ints s BSeqLens r = ks_ints s BPositions r + 1;
  ro_distinct p p' : 0 <= p <= ks_ints s BPositions r → 0 <= p' <= ks_ints s BPositions r →
    block_at s r p = block_at s r p' → p / 16 = p' / 16;
  ro_alone t p : 0 <= t < rows → t ≠ r → 0 <= p <= ks_ints s BPositions r →
    block_at s t (ks_ints s BPositions t) ≠ block_at s r p;
}.

(** ** One launch *)

Section launches.
Notation exec env := (kernel_exec expf_lib rsqrtf_lib pow_lib sincosf_lib base eps theta scale pr NDEBUG compute_major env).
Notation effect env := (launch_effect expf_lib rsqrtf_lib pow_lib sincosf_lib base eps theta scale pr NDEBUG compute_major env).
Notation hardware env := (∀ k : nat, env_ok (env k)).

Definition counted (s' : KState) : KState := mkKState (ks_mem s') (ks_scores s') (ks_ints s') (ks_rope s') (S (ks_launches s')).

Lemma exec_effect env l s s' : effect env l s = Some s' → exec env l s = Some (counted s').
Proof using. unfold kernel_exec. by intros ->. Qed.

Lemma frame_counted W s s' : frame W s s' → frame W s (counted s').
Proof using. intros [H1 H2 H3]. by split. Qed.

Lemma rows_cap n w b : 0 <= n → 0 <= w → n * w <= cap b → ∀ r j, 0 <= r < n → 0 <= j < w → 0 <= r * w + j < cap b.
Proof using. intros. nia. Qed.

(** Rows of a step fit the row buffers. *)
Context (rows : Z) (Hrows : 1 <= rows <= step_rows o).

Lemma sizes : 0 < hidden ∧ rows * hidden <= step_rows o * hidden ∧ 0 < num_kv_heads c ∧ 0 < vocab_size c ∧ 0 < intermediate_size c ∧
  num_q_heads c * head_dim c = hidden ∧ qkv_width c = hidden + 2 * (num_kv_heads c * 128) ∧ rows <= step_rows o ∧ 0 < mb ∧
  gateup_width c = 2 * intermediate_size c.
Proof using Hsh Hrows.
  destruct Hsh as [Hg Hd Hgr _ _]. pose proof Hg as []. unfold qkv_width, gateup_width, step_rows, kHeadDim in *.
  assert (0 < mb) by (unfold max_blocks_per_seq; apply BlocksForTokens_pos; lia).
  split_and!; try lia; nia.
Qed.

Lemma embed_runs env s : hardware env →
  ∃ s', exec env (embed_launch c rows) s = Some s' ∧ frame [BX] s s' ∧
    ∀ t j, 0 <= t < rows → 0 <= j < hidden → cell s' BX (t * hidden + j) = cell s WEmbed (ks_ints s BInputIds t * hidden + j).
Proof using HL Hsh Hrows.
  intros Henv. pose proof sizes as (Hh & Hrh & _). eexists. split; [apply exec_effect; reflexivity|].
  set (e := env _). pose proof (Henv (ks_launches s)) as He. fold e in He.
  destruct (embed_gather_copies_rows (ke_aligned16 e) (ke_aligned4 e) (view base (ks_mem s) (at_base BX)) (view base (ks_mem s) (at_base WEmbed))
    hidden hidden rows (ints_at s (at_base BInputIds)) (λ t, ke_pairs e (embed_grid (t_threads t) (t_width t) rows)) ltac:(lia)) as [Hval Hfr].
  { intros t. apply (eo_pairs _ He). }
  split.
  - apply frame_counted, frame_write; [done|done|]. intros a Ha. unfold unview, addr. cbn [p_buf p_off at_base].
    rewrite Z.add_0_r. rewrite Hfr.
    + unfold view, addr. cbn [p_buf p_off at_base]. f_equal. lia.
    + intros r j Hr Hj Heq. apply (Ha (r * hidden + j)); [|lia]. cbn [capacity]. nia.
  - intros t j Ht Hj. unfold cell, counted, set_mem. cbn [ks_mem]. unfold unview, addr. cbn [p_buf p_off at_base].
    replace (base BX + (t * hidden + j) - (base BX + 0)) with (t * hidden + j) by lia. rewrite Hval by done.
    unfold view, addr, ints_at. cbn [p_buf p_off at_base]. by rewrite !Z.add_0_r.
Qed.

Lemma rms_runs w : norm_weight w → ∃ total, row_total_of total ∧ ∀ env s, hardware env →
  ∃ s', exec env (RmsNorm (at_base BNormed) (at_base BX) (at_base w) rows hidden) s = Some s' ∧ frame [BNormed] s s' ∧
    ∀ t j, 0 <= t < rows → 0 <= j < hidden → row_of s' BNormed hidden t j = normalized total (row_of s BX hidden t) (row_of s w 0 0) j.
Proof using HL Hsh Hrows.
  intros (Hw & Hnw & Hcw). rewrite !not_elem_of_cons in Hnw. destruct Hnw as (Hw1 & Hw2 & _). pose proof sizes as (Hh & Hrh & _).
  destruct (rms_norm_result NDEBUG compute_major (base BNormed) (base BX) (base w) hidden eps Hh) as (total & Hext & _ & Hrun).
  exists total. split; [exact Hext|]. intros env s Henv.
  destruct (Hrun (ke_rms (env (ks_launches s))) rows (ks_mem s) (eo_rms _ (Henv _)) ltac:(lia)) as (m' & Hl & Hval & Hfr).
  { apply apart_sub; done. }
  { apply apart_sub; done || cbn [capacity]; lia. }
  eexists. split; [apply exec_effect; unfold launch_effect, addr; cbn [at_base p_buf p_off]; rewrite !Z.add_0_r; cbv zeta; setoid_rewrite Hl; reflexivity|]. split.
  - apply frame_counted, frame_write; [done|done|]. intros a Ha. apply Hfr. intros r j Hr Hj ->. apply (Ha (r * hidden + j)); [|lia].
    cbn [capacity]. nia.
  - intros t j Ht Hj. specialize (Hval t j Ht Hj). cbv zeta in Hval. unfold row_of, cell, counted, set_mem, normalized. cbn [ks_mem].
    rewrite !Z.add_assoc, Hval. rewrite !Z.mul_0_l, !Z.add_0_r.
    rewrite (Hext _ (λ c0, __half2float (ks_mem s (base BX + (t * hidden + c0))))); [done|]. intros k _. by rewrite Z.add_assoc.
Qed.

(** The fused normalisation of [n] rows from row [r0] on. *)
Lemma residual_runs w r0 n : norm_weight w → 0 <= r0 → 1 <= n → r0 + n <= rows → ∃ total, row_total_of total ∧ ∀ env s, hardware env →
  let at_row b := shift (at_base b) (r0 * hidden) in
  ∃ s', exec env (RmsNormResidual (at_row BNormed) (at_row BX) (at_row BMlpOut) (at_base w) n hidden) s = Some s' ∧ frame [BNormed; BX] s s' ∧
    ∀ t j, 0 <= t < rows → 0 <= j < hidden →
      let h := summed (row_of s BX hidden t) (row_of s BMlpOut hidden t) in
      if (r0 <=? t) && (t <? r0 + n)
      then row_of s' BX hidden t j = h j ∧ row_of s' BNormed hidden t j = normalized total h (row_of s w 0 0) j
      else row_of s' BX hidden t j = row_of s BX hidden t j ∧ row_of s' BNormed hidden t j = row_of s BNormed hidden t j.
Proof using HL Hsh Hrows.
  intros (Hw & Hnw & Hcw) H0 Hn Hle. rewrite !not_elem_of_cons in Hnw. destruct Hnw as (Hw1 & Hw2 & Hw3 & _). pose proof sizes as (Hh & Hrh & _).
  set (off := r0 * hidden). assert (off + n * hidden <= rows * hidden) by (unfold off; nia). assert (0 <= off) by (unfold off; nia).
  assert (∀ b b', half_buffer b = true → half_buffer b' = true → b ≠ b' → read_only b && read_only b' = false → rows * hidden <= cap b → rows * hidden <= cap b' →
    apart (base b + off) (n * hidden) (base b' + off) (n * hidden)) as Hap.
  { intros b b' Hb Hb' Hne Hro Hc Hc'. destruct (lo_apart HL b b' Hb Hb' Hne Hro); unfold apart; [left|right]; lia. }
  assert (∀ b, half_buffer b = true → b ≠ w → read_only b = false → rows * hidden <= cap b → apart (base b + off) (n * hidden) (base w) hidden) as Hapw.
  { intros b Hb Hne Hro Hc. destruct (lo_apart HL b w Hb Hw Hne ltac:(by rewrite Hro)); unfold apart; [left|right]; lia. }
  destruct (rms_residual_launch NDEBUG compute_major (base BNormed + off) (base BX + off) (base BMlpOut + off) (base w) hidden eps Hh)
    as (total & Hext & _ & Hrun).
  exists total. split; [exact Hext|]. intros env s Henv at_row.
  destruct (Hrun (ke_rms (env (ks_launches s))) n (ks_mem s) (eo_rms _ (Henv _)) ltac:(lia)) as (m' & Hl & Hval & Hfr).
  1-5: (apply Hap || apply Hapw); (done || (cbn [capacity]; lia)).
  assert (∀ b, addr base (at_row b) = base b + off) as Hat by (intros; unfold addr, at_row; cbn; lia).
  exists (counted (set_mem m' s)). split; [|split].
  - apply exec_effect. unfold launch_effect. rewrite !Hat. unfold addr. cbn [at_base p_buf p_off]. rewrite !Z.add_0_r. cbv zeta. setoid_rewrite Hl. reflexivity.
  - apply frame_counted, frame_two; [done|done|done|done|]. intros a Ha Ha2. apply Hfr. intros r j Hr Hj.
    split; intros ->; [apply (Ha (off + r * hidden + j))|apply (Ha2 (off + r * hidden + j))]; cbn [capacity]; nia.
  - intros t j Ht Hj. cbv zeta. destruct ((r0 <=? t) && (t <? r0 + n)) eqn:Hin.
    + apply andb_true_iff in Hin as [Hi1%Z.leb_le Hi2%Z.ltb_lt]. specialize (Hval (t - r0) j ltac:(lia) Hj). cbv zeta in Hval.
      assert (∀ b k, b + off + (t - r0) * hidden + k = b + (t * hidden + k)) as He by (intros; unfold off; ring).
      rewrite !He in Hval. destruct Hval as [Hv1 Hv2].
      unfold row_of, cell, counted, set_mem, normalized, summed. cbn [ks_mem]. rewrite Hv1, Hv2.
      split; [done|]. rewrite !Z.mul_0_l, !Z.add_0_l. do 8 f_equal. apply Hext. intros k _. by rewrite !He.
    + unfold row_of, cell, counted, set_mem. cbn [ks_mem]. split; apply Hfr; intros r k Hr Hk; rewrite !Z.add_assoc;
        (assert (t = r0 + r → False) as Hne by (intros ->; apply andb_false_iff in Hin as [Hx%Z.leb_gt|Hx%Z.ltb_ge]; lia));
        (assert (∀ b b', half_buffer b = true → half_buffer b' = true → read_only b && read_only b' = false → rows * hidden <= cap b → rows * hidden <= cap b' →
           base b + t * hidden + j ≠ base b' + off + r * hidden + k) as Hd;
         [intros b b' Hb Hb' Hro Hc Hc' Heq; destruct (decide (b = b')) as [->|Hne'];
            [apply Hne; destruct (radix hidden t j (r0 + r) k); unfold off in *; lia
            |apply (other_buffer b b' (t * hidden + j) (off + r * hidden + k) Hb Hb' Hne' Hro); [nia|unfold off in *; nia|lia]]
         |split; apply Hd; (done || (cbn [capacity]; lia))]).
Qed.

(** A linear layer of [n] rows from element [off] of the activations on: every
    element of the output rows is the product's. *)
Lemma linear_runs m e out act off w bias n nf inf env s :
  m ≠ mGemmStridedBatched_float → half_buffer out = true → read_only out = false → 0 < nf → 1 <= n → n * nf <= cap out →
  let c := Linear n nf inf (width act) nf e in
  ∃ s', exec env (Gemm m c (at_base out) (at_base w) (shift (at_base act) off) (at_base <$> bias)) s = Some s' ∧ frame [out] s s' ∧
    ∀ t f, 0 <= t < n → 0 <= f < nf →
      cell s' out (t * nf + f) = pr_half pr c (cell s w) (view base (ks_mem s) (shift (at_base act) off)) (cell s <$> bias) (d_offset c 0 f t).
Proof using HL.
  intros Hm Hout Hro Hnf Hn Hcap cf. set (v b := view base (ks_mem s) (at_base b)). set (va := view base (ks_mem s) (shift (at_base act) off)).
  set (m' := λ x, if bool_decide (x - addr base (at_base out) ∈ d_cells cf)
    then pr_half pr cf (v w) va (v <$> bias) (x - addr base (at_base out)) else ks_mem s x).
  assert (∀ b, v b = cell s b) as Hv by (intros b; unfold v, view, addr, cell; cbn [p_buf p_off at_base]; by rewrite Z.add_0_r).
  exists (counted (set_mem m' s)). split; [|split].
  - apply exec_effect. unfold launch_effect. destruct bias; by destruct m.
  - apply frame_counted, frame_write; [done|done|]. intros a Ha. unfold m'. rewrite bool_decide_false; [done|].
    intros (h & i & j & (Hh & Hi & Hj) & He)%elem_of_d_cells. unfold addr, d_offset in He. cbn in He, Hh, Hi, Hj.
    apply (Ha (j * nf + i)); nia.
  - intros t f Ht Hf. unfold cell at 1, counted, set_mem. cbn [ks_mem]. unfold m', addr. cbn [p_buf p_off at_base].
    assert (base out + (t * nf + f) - (base out + 0) = d_offset cf 0 f t) as -> by (unfold d_offset; cbn; lia).
    rewrite bool_decide_true by (apply elem_of_d_cells; exists 0, f, t; unfold d_index; cbn; lia).
    rewrite !Hv. by destruct bias; cbn; rewrite ?Hv.
Qed.

(** The rotation: the Q and K heads of every row by its position's angles. *)
Lemma rope_runs env s : hardware env → Rope.cache_ok (ks_rope s) →
  let l := RopeInplace (at_base BQkv) (shift (at_base BQkv) (k_view_offset c)) (qkv_width c) (qkv_width c) (at_base BPositions) rows
    (num_q_heads c) (num_kv_heads c) (head_dim c) in
  ∃ s', exec env l s = Some s' ∧ frame [BQkv] s s' ∧
    (∀ t h d, 0 <= t < rows → 0 <= h < num_q_heads c + num_kv_heads c → 0 <= d < 64 →
      (row_of s' BQkv (qkv_width c) t (h * 128 + d), row_of s' BQkv (qkv_width c) t (h * 128 + (d + 64))) =
      rotated (cos_sin (f_of_int (ks_ints s BPositions t)) (inv_freq theta 128 d))
        (row_of s BQkv (qkv_width c) t (h * 128 + d)) (row_of s BQkv (qkv_width c) t (h * 128 + (d + 64)))) ∧
    ∀ t j, 0 <= t < rows → (num_q_heads c + num_kv_heads c) * 128 <= j < qkv_width c →
      row_of s' BQkv (qkv_width c) t j = row_of s BQkv (qkv_width c) t j.
Proof using HL Hsh Hrows.
  intros Henv Hc l. pose proof sizes as (Hh & _ & Hkv & _ & _ & Hqh & Hqw & Hsr & _). pose proof Hsh as [Hg Hd Hgr _ [Ht1 Ht2]].
  unfold kHeadDim, kGroupSize in *. set (Q := base BQkv). set (nq := num_q_heads c) in *. set (nkv := num_kv_heads c) in *.
  assert (∀ r h, HeadBase Q (Q + nq * 128) (qkv_width c) (qkv_width c) r h nq 128 = Q + r * qkv_width c + h * 128) as Hb.
  { intros r h. unfold HeadBase. destruct (h <? nq); lia. }
  assert (qkv_width c = (nq + 2 * nkv) * 128) as Hqw' by (unfold qkv_width; rewrite Hd; fold nq nkv; lia).
  pose proof (Henv (ks_launches s)) as He. set (e := env (ks_launches s)) in *.
  destruct (rope_launch NDEBUG (ke_upload e) compute_major (ke_shared e) (ke_threads e) Q (Q + nq * 128) (qkv_width c) (qkv_width c)
    (ints_at s (at_base BPositions)) rows nq nkv 128 theta (ks_mem s) (ks_rope s)) as (m' & st' & Hl & Hc' & Hrot & Hfr);
    try done; try lia; try apply He; [apply ieee_compare_laws| |].
  { intros r h i r' h' i' ?????? Heq. rewrite !Hb in Heq.
    destruct (radix (qkv_width c) r (h * 128 + i) r' (h' * 128 + i') ltac:(lia) ltac:(lia) ltac:(lia)) as [-> Hr].
    destruct (radix 128 h i h' i' ltac:(lia) ltac:(lia) Hr) as [-> ->]. done. }
  exists (counted (set_rope st' (set_mem m' s))). split; [|split; [|split]].
  - apply exec_effect. unfold launch_effect, l, addr, k_view_offset. cbn [at_base shift p_buf p_off]. rewrite Hd.
    fold nq nkv Q e. rewrite Z.add_0_r, Z.add_0_l. cbv zeta. setoid_rewrite Hl. reflexivity.
  - split; [|done|done]. intros b i Hbh Hn Hi. unfold cell, counted, set_rope, set_mem. cbn [ks_mem]. apply Hfr.
    intros r h j Hr Hhh Hj. rewrite Hb. apply not_elem_of_cons in Hn as [Hn _].
    replace (Q + r * qkv_width c + h * 128 + j) with (base BQkv + (r * qkv_width c + (h * 128 + j))) by (unfold Q; lia).
    apply other_buffer; [done|done|done|apply andb_false_r|done|]. cbn [capacity]. assert (h * 128 + j < qkv_width c) by lia. nia.
  - intros t h d Ht Hhh Hdd. specialize (Hrot t h d Ht Hhh Hdd). rewrite !Hb in Hrot. change (Z.shiftr 128 1) with 64 in Hrot.
    unfold ints_at in Hrot. cbn [p_buf p_off at_base] in Hrot. rewrite Z.add_0_l in Hrot.
    unfold row_of, cell, counted, set_rope, set_mem. cbn [ks_mem]. fold Q. rewrite !Z.add_assoc. rewrite !Z.add_assoc in Hrot. exact Hrot.
  - intros t j Ht Hj. unfold row_of, cell, counted, set_rope, set_mem. cbn [ks_mem]. apply Hfr. intros r h i Hr Hhh Hi Heq. fold Q in Heq. rewrite Hb in Heq.
    destruct (radix (qkv_width c) t j r (h * 128 + i) ltac:(lia) ltac:(lia) ltac:(lia)) as [_ ->]. lia.
Qed.

(** The scatter, over tables [ts] apart: a slot one row alone targets receives
    that row's keys and values, a slot no row targets keeps its own. *)
Definition target (s : KState) (ts t : Z) : Z := ks_ints s BBlockTables (t * ts + ks_ints s BPositions t / 16).
Definition scattered (s : KState) (t kv h d : Z) : Z := row_of s BQkv (qkv_width c) t (hidden + kv * (num_kv_heads c * 128) + (h * 128 + d)).

Lemma scatter_runs layer ts env s : hardware env → half_buffer (BPool layer) = true →
  (∀ t, 0 <= t < rows → 0 <= target s ts t < kv_blocks) →
  let l := KvScatter (at_base (BPool layer)) (shift (at_base BQkv) (k_view_offset c)) (shift (at_base BQkv) (v_view_offset c)) (qkv_width c)
    (qkv_width c) (at_base BBlockTables) ts (at_base BPositions) rows (num_kv_heads c) (head_dim c) in
  let slot t := ks_ints s BPositions t mod 16 in
  ∃ s', exec env l s = Some s' ∧ frame [BPool layer] s s' ∧
    ∀ kv h d, 0 <= kv < 2 → 0 <= h < num_kv_heads c → 0 <= d < 128 →
      let at_slot s b sl := cell s (BPool layer) (pool_addr (num_kv_heads c) 128 b kv h sl d) in
      (∀ t, 0 <= t < rows → (∀ u, 0 <= u < rows → target s ts u = target s ts t → slot u = slot t → u = t) →
        at_slot s' (target s ts t) (slot t) = scattered s t kv h d) ∧
      ∀ b sl, 0 <= sl < 16 → (∀ t, 0 <= t < rows → target s ts t = b → slot t = sl → False) → at_slot s' b sl = at_slot s b sl.
Proof using HL Hsh Hrows.
  intros Henv Hb Htab l slot. pose proof sizes as (Hh & _ & Hkv & _ & _ & Hqh & _ & Hsr & Hmb & _).
  pose proof Hsh as [Hg Hd Hgr _ _]. unfold kHeadDim in *. set (H := num_kv_heads c) in *. rewrite Hd in Hqh.
  pose proof (Henv (ks_launches s)) as He. set (e := env (ks_launches s)) in *.
  set (P := at_base (BPool layer)). set (k := view base (ks_mem s) (shift (at_base BQkv) (k_view_offset c))).
  set (v := view base (ks_mem s) (shift (at_base BQkv) (v_view_offset c))).
  set (sched := λ hpw, ke_pairs e (grid_words H 128 hpw rows)).
  set (res := LaunchKvScatter (ke_aligned16 e) (view base (ks_mem s) P) k v (qkv_width c) (qkv_width c) (ints_at s (at_base BBlockTables)) ts
    (ints_at s (at_base BPositions)) rows H 128 sched).
  assert (runs_grid H 128 rows sched) as Hs by (intros hpw t w; unfold sched; by rewrite (eo_pairs _ He)).
  assert (∀ t, ints_at s (at_base BBlockTables) (t * ts + Z.shiftr (ints_at s (at_base BPositions) t) kKvBlockShift) = target s ts t) as Hblk.
  { intros t. unfold ints_at, target. cbn [p_buf p_off at_base]. by rewrite !Z.add_0_l, shift_div. }
  assert (∀ t, ints_at s (at_base BPositions) t = ks_ints s BPositions t) as Hp0 by done.
  exists (counted (set_mem (unview base res P) s)). split; [|split].
  - apply exec_effect. unfold launch_effect, l. rewrite Hd. reflexivity.
  - apply frame_counted, frame_write; [done|done|]. intros a Ha. unfold unview, res.
    rewrite (scatter_outside H 128) with (B := kv_blocks); [|done|done|lia|done| |].
    + unfold view, addr. f_equal. lia.
    + intros t Ht. rewrite Hblk. by apply Htab.
    + intros Hin. unfold addr in *. cbn [p_buf p_off at_base P] in *. apply (Ha (a - (base (BPool layer) + 0))); [|lia].
      cbn [capacity]. rewrite Hd. fold H. lia.
  - intros kv h d Hkv2 Hhh Hdd. cbv zeta. unfold cell at 1 2, counted, set_mem. cbn [ks_mem]. unfold unview, addr. cbn [p_buf p_off at_base P].
    assert (∀ x, base (BPool layer) + x - (base (BPool layer) + 0) = x) as Hx by (intros; lia). split.
    + intros t Ht Huniq. rewrite Hx. unfold res, slot. fold H.
      pose proof (scatter_hit H 128 Hkv ltac:(lia) k v (qkv_width c) (qkv_width c) (ints_at s (at_base BBlockTables)) ts
        (ints_at s (at_base BPositions)) rows sched ltac:(lia) Hs (ke_aligned16 e) (view base (ks_mem s) P) t kv h d Ht Hkv2 Hhh Hdd) as Hhit.
      rewrite !Hblk, land_mod, Hp0 in Hhit. rewrite Hhit.
      * unfold contributed, scattered, k, v, view, addr, row_of, cell, v_view_offset, k_view_offset. cbn [shift p_buf p_off at_base]. fold H. rewrite Hd.
        destruct (Z.eqb_spec kv 0) as [->|]; [f_equal; rewrite <- Hqh; ring|]. assert (kv = 1) as -> by lia. f_equal. rewrite <- Hqh. ring.
      * intros u Hu. rewrite !Hblk, !land_mod, !Hp0. by apply Huniq.
    + intros b sl Hsl Hmiss. rewrite Hx. unfold res. fold H.
      rewrite (scatter_miss H 128) with (n := rows); [|lia|lia|lia|done|done|done|done|done|].
      * unfold view, addr. cbn [p_buf p_off at_base P]. unfold cell. f_equal. lia.
      * intros t Ht. rewrite Hblk, land_mod, Hp0. by apply Hmiss.
Qed.

(** In a decode step row [r]'s position receives its keys and values, the
    positions before it keep theirs. *)
Lemma scatter_row r layer s s' : row_ok rows r s → frame [BPool layer] s s' →
  (∀ kv h d, 0 <= kv < 2 → 0 <= h < num_kv_heads c → 0 <= d < 128 →
    let slot t := ks_ints s BPositions t mod 16 in
    let at_slot s b sl := cell s (BPool layer) (pool_addr (num_kv_heads c) 128 b kv h sl d) in
    (∀ t, 0 <= t < rows → (∀ u, 0 <= u < rows → target s mb u = target s mb t → slot u = slot t → u = t) →
      at_slot s' (target s mb t) (slot t) = scattered s t kv h d) ∧
    ∀ b sl, 0 <= sl < 16 → (∀ t, 0 <= t < rows → target s mb t = b → slot t = sl → False) → at_slot s' b sl = at_slot s b sl) →
  ∀ kv h p d, 0 <= kv < 2 → 0 <= h < num_kv_heads c → 0 <= p <= ks_ints s BPositions r → 0 <= d < 128 →
    cached s' layer r kv h p d = if p =? ks_ints s BPositions r then scattered s r kv h d else cached s layer r kv h p d.
Proof using.
  intros [Hr Hpos Htab Hlen Hdist Halone] Hf Hres kv h p d Hkv Hh Hp Hd. destruct (Hres kv h d Hkv Hh Hd) as [Hhit Hmiss]. cbv zeta in Hhit, Hmiss.
  unfold cached. assert (block_at s' r p = block_at s r p) as -> by (unfold block_at; by rewrite (fr_ints _ _ _ Hf)).
  destruct (Z.eqb_spec p (ks_ints s BPositions r)) as [->|Hne].
  - apply (Hhit r Hr). intros u Hu Heq _. destruct (decide (u = r)) as [|Hn]; [done|]. exfalso. by apply (Halone u (ks_ints s BPositions r)).
  - apply Hmiss; [apply Z.mod_pos_bound; lia|]. intros t Ht Heq Hsl. destruct (decide (t = r)) as [->|Hn]; [|by apply (Halone t p)].
    apply (Hdist (ks_ints s BPositions r) p) in Heq; [|lia|lia]. apply Hne. Z.div_mod_to_equations. lia.
Qed.

(** The attention of row [r] over its cached positions. *)
Definition attended (s : KState) (layer r h : Z) : head_state (F := float32) :=
  ref_attention (λ d, fmul (__half2float (row_of s BQkv (qkv_width c) r (h * 128 + d))) scale)
    (λ p d, cached s layer r 0 (h / 6) p d) (λ p d, cached s layer r 1 (h / 6) p d) (ks_ints s BPositions r + 1).

Lemma attention_runs layer r env s : hardware env → half_buffer (BPool layer) = true → row_ok rows r s →
  let l := PagedAttentionDecode (at_base BAttnOut) hidden (at_base BQkv) (qkv_width c) (at_base (BPool layer)) (at_base BBlockTables)
    (at_base BSeqLens) rows mb (num_q_heads c) (num_kv_heads c) (head_dim c) in
  ∃ s', exec env l s = Some s' ∧ frame [BAttnOut] s s' ∧
    ∀ h d, 0 <= h < num_q_heads c → 0 <= d < 128 →
      row_of s' BAttnOut hidden r (h * 128 + d) =
        __float2half_rn (fdiv (hs_acc (attended s layer r h) d) (hs_l (attended s layer r h))).
Proof using HL Hsh Hrows.
  intros Henv Hb [Hr Hpos Htab Hlen _ _] l. pose proof sizes as (Hh & Hrh & Hkv & _ & _ & Hqh & Hqw & Hsr & Hmb & _).
  pose proof Hsh as [Hg Hd Hgr Hkb _]. rewrite Hd in Hqh. change kHeadDim with 128 in *. change kGroupSize with 6 in *.
  pose proof (Hpos r Hr) as Hp. pose proof (Henv (ks_launches s)) as He. set (e := env (ks_launches s)) in *.
  assert (clamped_len (ints_at s (at_base BSeqLens)) mb r = ks_ints s BPositions r + 1) as Hcl.
  { unfold clamped_len, ints_at, kKvBlockSize. cbn [p_buf p_off at_base]. rewrite Z.add_0_l. lia. }
  assert (pa_layout (base BAttnOut) hidden (base BQkv) (qkv_width c) (base (BPool layer)) (ints_at s (at_base BBlockTables))
    (ints_at s (at_base BSeqLens)) rows mb (num_q_heads c) (num_kv_heads c) kv_blocks) as Hlay.
  { change kHeadDim with 128 in *. change kGroupSize with 6 in *. split; unfold kHeadDim, kGroupSize; try lia; try (split; lia).
    - split_and!; by apply (lo_not_null HL).
    - apply apart_sub; try done; cbn [capacity]; apply Z.mul_le_mono_nonneg_r; lia.
    - apply apart_sub; try done; cbn [capacity]; rewrite ?Hd; unfold kKvBlockSize; lia.
    - intros seq i Hs Hi Hil. unfold ints_at. cbn [p_buf p_off at_base]. rewrite Z.add_0_l. apply Htab; [done|]. split; [done|].
      unfold clamped_len, kKvBlockSize in Hil. lia. }
  destruct (paged_attention_stores _ _ _ _ _ _ _ _ _ _ _ _ scale Hlay (ke_attention e) compute_major (ke_cpasync e) (ks_mem s) (eo_attention _ He))
    as (m' & Hl & Hval & Hfr).
  exists (counted (set_mem m' s)). split; [|split].
  - apply exec_effect. unfold launch_effect, l, addr. cbn [at_base p_buf p_off]. rewrite !Z.add_0_r, Hd. fold e. cbv zeta. setoid_rewrite Hl. reflexivity.
  - apply frame_counted, frame_write; [done|done|]. intros a Ha. apply Hfr. intros seq head d Hs _ Hhd Hdd ->. unfold out_cell in Ha.
    change kHeadDim with 128 in *. apply (Ha (seq * hidden + head * 128 + d)); [|lia]. cbn [capacity].
    assert (0 <= head * 128 + d < hidden) by lia. nia.
  - intros h d Hhd Hdd. specialize (Hval r h d Hr ltac:(lia) Hhd Hdd). cbv zeta in Hval. unfold out_cell in Hval. change kHeadDim with 128 in Hval.
    unfold row_of at 1. unfold cell, counted, set_mem. cbn [ks_mem]. replace (base BAttnOut + (r * hidden + (h * 128 + d)))
      with (base BAttnOut + (r * hidden + h * 128 + d)) by lia. rewrite Hval. unfold attended, pa_head. rewrite Hcl.
    destruct (ref_attention_ext (pa_q (base BQkv) (qkv_width c) scale (ks_mem s) r h)
      (λ d, fmul (__half2float (row_of s BQkv (qkv_width c) r (h * 128 + d))) scale)
      (pa_kv (base (BPool layer)) (ints_at s (at_base BBlockTables)) mb (num_kv_heads c) (ks_mem s) 0 r (h / kGroupSize)) (λ p d, cached s layer r 0 (h / 6) p d)
      (pa_kv (base (BPool layer)) (ints_at s (at_base BBlockTables)) mb (num_kv_heads c) (ks_mem s) 1 r (h / kGroupSize)) (λ p d, cached s layer r 1 (h / 6) p d)
      (ks_ints s BPositions r + 1)) as (_ & Hl1 & Ha1); [|done|done|by rewrite Hl1, Ha1].
    intros d' Hd'. unfold pa_q, row_of, cell. do 3 f_equal. unfold kHeadDim. lia.
Qed.

(** The activation, in place over the gate half of every row. *)
Lemma silu_runs env s : hardware env →
  ∃ s', exec env (SiluMul (at_base BGateup) (at_base BGateup) rows (intermediate_size c)) s = Some s' ∧ frame [BGateup] s s' ∧
    ∀ t j, 0 <= t < rows → 0 <= j < gateup_width c → let row := row_of s BGateup (gateup_width c) t in
      row_of s' BGateup (gateup_width c) t j =
        if j <? intermediate_size c then SiluMulOne (row j) (row (intermediate_size c + j)) else row j.
Proof using HL Hsh Hrows.
  intros Henv. pose proof sizes as (_ & _ & _ & _ & Hi & _ & _ & Hsr & _ & Hgw). set (I := intermediate_size c) in *.
  pose proof (Henv (ks_launches s)) as He. set (e := env (ks_launches s)) in *. set (G := base BGateup).
  destruct (silu_mul_elementwise (ke_pairs e) G G rows I (ks_mem s) (eo_pairs _ He) ltac:(by left)) as [Hval Hfr].
  rewrite Z.eqb_refl in Hval, Hfr. rewrite Hgw.
  exists (counted (set_mem (LaunchSiluMul (ke_pairs e) G G rows I (ks_mem s)) s)). split; [|split].
  - apply exec_effect. unfold launch_effect, addr. cbn [at_base p_buf p_off]. by rewrite Z.add_0_r.
  - apply frame_counted, frame_write; [done|done|]. intros a Ha. apply Hfr. intros r j Hr Hj ->. apply (Ha (r * (2 * I) + j)); [|unfold G; lia].
    cbn [capacity]. rewrite Hgw. nia.
  - intros t j Ht Hj row. unfold row_of at 1. unfold cell, counted, set_mem. cbn [ks_mem]. fold G. rewrite Z.add_assoc.
    destruct (Z.ltb_spec j I) as [Hlt|Hge].
    + rewrite Hval by lia. unfold row, row_of, cell, SiluMulOne, SiluF32. fold G. by rewrite !Z.add_assoc.
    + rewrite Hfr; [unfold row, row_of, cell; fold G; by rewrite Z.add_assoc|]. intros r j' Hr Hj' Heq.
      destruct (radix (2 * I) t j r j'); lia.
Qed.

(** The tokens. *)
Lemma argmax_runs n env s : 1 <= n →
  ∃ s', exec env (GreedyArgmax (at_base BArgmax) (at_base BLogits) n (vocab_size c)) s = Some s' ∧ frame [] s s' ∧
    ∀ t, 0 <= t < n → ∃ al tok,
      LaunchGreedyArgmax al compute_major (cell s BLogits) n (vocab_size c) !! Z.to_nat t = Some tok ∧
      ks_ints s' BArgmax t = tok.
Proof using Hsh.
  intros Hn. pose proof Hsh as [Hg _ _ _ _]. pose proof (go_vocab _ _ Hg) as Hv. eexists. split; [apply exec_effect; reflexivity|]. split.
  - split; [done| |done]. intros b Hb. cbn. by rewrite decide_False.
  - intros t Ht. cbn [counted set_ints ks_ints p_buf p_off at_base]. rewrite decide_True by done.
    set (al := ke_aligned16 _). pose proof (argmax_length al compute_major (view base (ks_mem s) (at_base BLogits)) n (vocab_size c) ltac:(lia) Hv) as Hlen.
    assert (view base (ks_mem s) (at_base BLogits) = cell s BLogits) as Hview by (unfold view, addr, cell; cbn [p_buf p_off at_base]; by rewrite Z.add_0_r).
    rewrite Hview in *. destruct (lookup_lt_is_Some_2 (LaunchGreedyArgmax al compute_major (cell s BLogits) n (vocab_size c)) (Z.to_nat t)) as [tok Htok].
    { unfold zlen in Hlen. lia. }
    exists al, tok. split; [done|]. destruct (Z.leb_spec 0 t); [|lia]. by rewrite Z.sub_0_r, Htok.
Qed.

End launches.
End decode.

Arguments fr_cells {_ _ _ _ _ _ _ _ _ _ _} _ _ _ _ _ _.
Arguments fr_ints {_ _ _ _ _ _ _ _ _ _ _} _ _ _.
Arguments fr_rope {_ _ _ _ _ _ _ _ _ _ _} _ _.
Arguments ro_row {_ _ _ _ _} _.
