(* ===== verification/KernelIsolation.v ===== *)
(** * What two runs of a step agree on

    Two runs of a step on the kernel models, on two memories, two batches and
    two schedules.  [paired] is what they agree on about some rows and the
    sequence those rows belong to; every launch keeps it and adds what it
    computed.  The launches that decode and prefill share are here, with a layer
    over any attention launches that keep [paired]; then the launches of a
    decode step, whose rows are compared one at a time. *)

From Stdlib Require Import Floats.SpecFloat.
From S2P Require Import Prelude Doubles Types ModelConfig GemmConfig ExecutorLayout HalfFloat KvPool EmbedGather Argmax DeviceMath SiluMul Rope Reduce RmsNorm PrefillSoftmax PagedAttention PagedAttentionRef PagedAttentionTheorems Launches Executor KernelDevice KernelDecode.

(** Membership in an explicit list. *)
Ltac listed := repeat first [apply list_elem_of_here | apply list_elem_of_further].

(** A step leaves the uploaded arrays. *)
Definition kept (s s' : KState) : Prop := ∀ b, b ≠ BArgmax → ks_ints s' b = ks_ints s b.

Lemma kept_trans s t u : kept s t → kept t u → kept s u.
Proof. intros H1 H2 b Hb. by rewrite H2, H1. Qed.

Section isolation.
Context (expf_lib rsqrtf_lib : float32 → float32) (pow_lib : float32 → float32 → float32) (sincosf_lib : float32 → float32 * float32).
#[local] Instance isolation_ops : FloatOps float32 Z := ieee expf_lib rsqrtf_lib pow_lib sincosf_lib.
Context (c : ModelConfig) (o : ExecutorOptions) (kv_blocks : Z) (base : buffer → Z) (eps theta scale : float32) (pr : Products).
Context (NDEBUG : bool) (compute_major : Z).
Context (HL : layout_ok c o kv_blocks base) (Hsh : shapes_ok expf_lib rsqrtf_lib pow_lib sincosf_lib c o kv_blocks theta) (Hpr : products_local pr).
Notation hardware env := (∀ k : nat, env_ok (env k)).
Notation exec env := (kernel_exec expf_lib rsqrtf_lib pow_lib sincosf_lib base eps theta scale pr NDEBUG compute_major env).
Notation run env := (kernel_run expf_lib rsqrtf_lib pow_lib sincosf_lib base eps theta scale pr NDEBUG compute_major env).
Notation cap := (capacity c o kv_blocks).
Notation mb := (max_blocks_per_seq o).
Notation framed := (frame expf_lib rsqrtf_lib pow_lib sincosf_lib c o kv_blocks base).
Notation nkv := (num_kv_heads c).
Notation libs f := (f expf_lib rsqrtf_lib pow_lib sincosf_lib).

Definition row_buffer (b : buffer) : bool :=
  match b with BX | BNormed | BQkv | BAttnOut | BGateup | BMlpOut => true | _ => false end.

Definition weight_buffer (b : buffer) : bool :=
  match b with
  | WEmbed | WFinalNorm | WLmHead => true
  | WInputNorm l | WPostNorm l | WQkv l | WQkvBias l | WO l | WGateup l | WDown l => (0 <=? l) && (l <? num_layers c)
  | _ => false
  end.

(** ** The rows compared

    [rows] is the step's row count; [R] says which rows are compared; the
    sequence's blocks are row [tr] of the block tables, its first [n0] positions
    are cached before the step and its first [n1] after it; [Inp] is what the
    step's integer arrays promise. *)
Context (rows : Z) (Hrows : 1 <= rows <= step_rows o) (R : Z → Prop) (tr n0 n1 : Z) (Inp : KState → Prop).

Record compared : Prop := {
  co_rows r : R r → 0 <= r < rows;
  co_kept s s' : kept s s' → Inp s → Inp s';
  co_table s p : Inp s → 0 <= p < n1 → 0 <= block_at o s tr p < kv_blocks;
}.
Context (Hco : compared).

Notation row_cell s b r := (row_of base s b (width c b) r).
Notation kv_cell s := (λ layer, cached c o base s layer tr).

(** What two runs agree on: the inputs, the weights, the rows of the buffers
    [A], and the cache, the step's own positions in the layers below [done]. *)
Record paired (A : list buffer) (done : Z) (s1 s2 : KState) : Prop := {
  pd_ok1 : Inp s1;
  pd_ok2 : Inp s2;
  pd_rope1 : Rope.cache_ok (ks_rope s1);
  pd_rope2 : Rope.cache_ok (ks_rope s2);
  pd_token r : R r → ks_ints s1 BInputIds r = ks_ints s2 BInputIds r ∧ 0 <= ks_ints s1 BInputIds r < vocab_size c;
  pd_position r : R r → ks_ints s1 BPositions r = ks_ints s2 BPositions r;
  pd_weights b i : weight_buffer b = true → 0 <= i < cap b → cell base s1 b i = cell base s2 b i;
  pd_rows b r j : b ∈ A → row_buffer b = true → R r → 0 <= j < width c b → row_cell s1 b r j = row_cell s2 b r j;
  pd_cached layer kv h p d : 0 <= layer < num_layers c → 0 <= kv < 2 → 0 <= h < nkv → 0 <= p < n1 →
    p < n0 ∨ layer < done → 0 <= d < 128 → kv_cell s1 layer kv h p d = kv_cell s2 layer kv h p d;
}.

Lemma weight_half b : weight_buffer b = true → half_buffer c b = true ∧ row_buffer b = false.
Proof using. by destruct b. Qed.

Lemma row_half b : row_buffer b = true → half_buffer c b = true.
Proof using. by destruct b. Qed.

Lemma pool_half layer : 0 <= layer < num_layers c → half_buffer c (BPool layer) = true.
Proof using. intros Hl. cbn. rewrite andb_true_iff, Z.leb_le, Z.ltb_lt. lia. Qed.

Lemma row_range b r j : row_buffer b = true → R r → 0 <= j < width c b → 0 <= r * width c b + j < cap b.
Proof using Hrows Hco.
  intros Hb Hr%(co_rows Hco) Hj. destruct b; try done; cbn [width capacity] in *; nia.
Qed.

(** A cached element lies in its pool. *)
Lemma cached_range s layer kv h p d : Inp s → 0 <= kv < 2 → 0 <= h < nkv → 0 <= p < n1 → 0 <= d < 128 →
  0 <= pool_addr nkv 128 (block_at o s tr p) kv h (p mod 16) d < cap (BPool layer).
Proof using Hsh Hco.
  intros Hi Hkv Hh Hp Hd. pose proof Hsh as [_ Hhd _ _ _]. pose proof (co_table Hco s p Hi Hp) as Hb.
  pose proof (Z.mod_pos_bound p 16 ltac:(lia)) as Hm. cbn [capacity]. rewrite Hhd. unfold pool_addr, PoolRowBase, kKvBlockSize, kHeadDim in *.
  set (b := block_at o s tr p) in *. set (sl := p mod 16) in *.
  assert (0 <= b * 2 + kv <= kv_blocks * 2 - 1) by lia. assert (0 <= (b * 2 + kv) * nkv + h <= kv_blocks * 2 * nkv - 1) by nia. lia.
Qed.

(** The frame of a launch carries the cache over. *)
Lemma cached_frame W s s' layer kv h p d : framed W s s' → Inp s → BPool layer ∉ W →
  0 <= layer < num_layers c → 0 <= kv < 2 → 0 <= h < nkv → 0 <= p < n1 → 0 <= d < 128 →
  kv_cell s' layer kv h p d = kv_cell s layer kv h p d.
Proof using Hsh Hco.
  intros [Hc Hi _] Hok Hn Hl Hkv Hh Hp Hd. unfold cached, block_at. rewrite Hi by done.
  apply Hc; [by apply pool_half|done|by apply cached_range].
Qed.

(** Two launches that leave the same rows of [W], and a cache that agrees. *)
Lemma paired_frames W A A' k k' s1 s2 s1' s2' :
  paired A k s1 s2 → framed W s1 s1' → framed W s2 s2' →
  (∀ b, b ∈ W → weight_buffer b = false) → (∀ b, b ∈ A' → b ∈ W ∨ b ∈ A) →
  (∀ b r j, b ∈ W → row_buffer b = true → b ∈ A' → R r → 0 <= j < width c b → row_cell s1' b r j = row_cell s2' b r j) →
  (∀ layer kv h p d, 0 <= layer < num_layers c → 0 <= kv < 2 → 0 <= h < nkv → 0 <= p < n1 →
    p < n0 ∨ layer < k' → 0 <= d < 128 → kv_cell s1' layer kv h p d = kv_cell s2' layer kv h p d) →
  paired A' k' s1' s2'.
Proof using Hrows Hco.
  intros [O1 O2 R1 R2 Ht Hp Hw Hr Hc] F1 F2 HW HA Hn Hk. split.
  - by apply (co_kept Hco s1); [exact (fr_ints F1)|].
  - by apply (co_kept Hco s2); [exact (fr_ints F2)|].
  - by apply F1.
  - by apply F2.
  - intros r Hr'. rewrite !(fr_ints F1), (fr_ints F2) by done. by apply Ht.
  - intros r Hr'. rewrite (fr_ints F1), (fr_ints F2) by done. by apply Hp.
  - intros b i Hb Hi. destruct (weight_half b Hb) as [Hh _].
    assert (b ∉ W) by (intros Hin%HW; congruence). rewrite (fr_cells F1), (fr_cells F2) by done. by apply Hw.
  - intros b r j Hb Hrb Hrr Hj. destruct (decide (b ∈ W)) as [Hin|Hnin]; [by apply Hn|].
    destruct (HA b Hb) as [?|Hb']; [done|].
    pose proof (row_range b r j Hrb Hrr Hj). pose proof (row_half b Hrb). unfold row_of.
    rewrite (fr_cells F1), (fr_cells F2) by done. by apply Hr.
  - exact Hk.
Qed.

(** Two launches outside the pools. *)
Lemma paired_rows W A A' k s1 s2 s1' s2' :
  paired A k s1 s2 → framed W s1 s1' → framed W s2 s2' →
  (∀ b, b ∈ W → weight_buffer b = false ∧ ∀ l, b ≠ BPool l) → (∀ b, b ∈ A' → b ∈ W ∨ b ∈ A) →
  (∀ b r j, b ∈ W → row_buffer b = true → b ∈ A' → R r → 0 <= j < width c b → row_cell s1' b r j = row_cell s2' b r j) →
  paired A' k s1' s2'.
Proof using Hsh Hrows Hco.
  intros Hp F1 F2 HW HA Hn. eapply paired_frames; try done; [intros b Hb; by apply HW|].
  intros layer kv h p d Hl Hkv Hh Hpp Hlt Hd.
  assert (BPool layer ∉ W) as Hnw by (intros [_ Hx]%HW; by apply (Hx layer)).
  rewrite (cached_frame W s1 s1'), (cached_frame W s2 s2') by (done || apply Hp). by apply (pd_cached _ _ _ _ Hp).
Qed.

Lemma paired_weaken A A' k s1 s2 : paired A k s1 s2 → A' ⊆ A → paired A' k s1 s2.
Proof using. intros [] Hs. split; auto. Qed.

(** ** Launches *)

Section runs.
Context (env1 env2 : nat → KernelEnv) (He1 : hardware env1) (He2 : hardware env2).

(** Launches that take pairs of states in [P] to pairs in [Q]. *)
Definition pairs (ls : list launch) (P Q : KState → KState → Prop) : Prop :=
  ∀ s1 s2, P s1 s2 → ∃ s1' s2', run env1 ls s1 = Some s1' ∧ run env2 ls s2 = Some s2' ∧ Q s1' s2' ∧ kept s1 s1' ∧ kept s2 s2'.

Lemma run_app env l1 l2 s s' : run env l1 s = Some s' → run env (l1 ++ l2) s = run env l2 s'.
Proof using.
  revert s. induction l1 as [|l l1 IH]; intros s; cbn [app kernel_run]; [by intros [= ->]|].
  destruct (exec env l s); cbn; [apply IH|done].
Qed.

Lemma run_two env l1 l2 s t u : exec env l1 s = Some t → exec env l2 t = Some u → run env [l1; l2] s = Some u.
Proof using. intros H1 H2. cbn [kernel_run]. by rewrite H1; cbn [mbind option_bind]; rewrite H2. Qed.

Lemma pairs_app l1 l2 P Q T : pairs l1 P Q → pairs l2 Q T → pairs (l1 ++ l2) P T.
Proof using.
  intros H1 H2 s1 s2 Hp. destruct (H1 s1 s2 Hp) as (t1 & t2 & R1 & R2 & Hp1 & K1 & K2).
  destruct (H2 t1 t2 Hp1) as (u1 & u2 & R3 & R4 & Hp2 & K3 & K4).
  exists u1, u2. split_and!; [by erewrite run_app|by erewrite run_app|done|by eapply kept_trans|by eapply kept_trans].
Qed.

Lemma pairs_cons l ls P Q T : pairs [l] P Q → pairs ls Q T → pairs (l :: ls) P T.
Proof using. apply (pairs_app [l]). Qed.

Lemma pairs_weaken ls (P P' Q Q' : KState → KState → Prop) :
  (∀ s1 s2, P' s1 s2 → P s1 s2) → (∀ s1 s2, Q s1 s2 → Q' s1 s2) → pairs ls P Q → pairs ls P' Q'.
Proof using.
  intros HP HQ H s1 s2 Hp. destruct (H s1 s2 (HP _ _ Hp)) as (t1 & t2 & R1 & R2 & Hq & K1 & K2). exists t1, t2. auto.
Qed.

Lemma pairs_nil P : pairs [] P P.
Proof using. intros s1 s2 Hp. by exists s1, s2. Qed.

(** Two runs of one launch, each described by [Post]. *)
Lemma pairs_one l (P Q : KState → KState → Prop) (Pre : KState → Prop) (Post : KState → KState → Prop) :
  (∀ s1 s2, P s1 s2 → Pre s1 ∧ Pre s2) →
  (∀ env s, hardware env → Pre s → ∃ s', exec env l s = Some s' ∧ kept s s' ∧ Post s s') →
  (∀ s1 s2 s1' s2', P s1 s2 → Post s1 s1' → Post s2 s2' → Q s1' s2') → pairs [l] P Q.
Proof using He1 He2.
  intros Hpre Hrun HQ s1 s2 Hp. destruct (Hpre s1 s2 Hp) as [H1 H2].
  destruct (Hrun env1 s1 He1 H1) as (s1' & R1 & K1 & P1). destruct (Hrun env2 s2 He2 H2) as (s2' & R2 & K2 & P2).
  exists s1', s2'. cbn [kernel_run]. rewrite R1, R2. split_and!; try done. by eapply HQ.
Qed.

(** Launches that take agreement on [A] to agreement on [A']. *)
Definition keeps (ls : list launch) (A : list buffer) (k : Z) (A' : list buffer) (k' : Z) : Prop :=
  pairs ls (paired A k) (paired A' k').

Lemma keeps_weaken ls A k A' k' A'' : keeps ls A k A' k' → A'' ⊆ A' → keeps ls A k A'' k'.
Proof using. intros H Hs. eapply pairs_weaken, H; [done|]. intros s1 s2 Hp. by eapply paired_weaken. Qed.

(** A launch outside the pools: [Post] says what one run leaves. *)
Lemma launch_step l W A k (Post : KState → KState → Prop) :
  (∀ b, b ∈ W → weight_buffer b = false ∧ ∀ l, b ≠ BPool l) →
  (∀ env s, hardware env → Inp s → Rope.cache_ok (ks_rope s) → ∃ s', exec env l s = Some s' ∧ framed W s s' ∧ Post s s') →
  (∀ s1 s2 s1' s2', paired A k s1 s2 → Post s1 s1' → Post s2 s2' →
    ∀ b r j, b ∈ W → row_buffer b = true → R r → 0 <= j < width c b → row_cell s1' b r j = row_cell s2' b r j) →
  keeps [l] A k (W ++ A) k.
Proof using He1 He2 Hsh Hrows Hco.
  intros HW Hrun Hpair.
  apply (pairs_one l _ _ (λ s, Inp s ∧ Rope.cache_ok (ks_rope s)) (λ s s', framed W s s' ∧ Post s s')).
  - intros s1 s2 Hp. by split; split; apply Hp.
  - intros env s He [Hi Hc]. destruct (Hrun env s He Hi Hc) as (s' & R1 & F1 & P1). exists s'. split_and!; try done. exact (fr_ints F1).
  - intros s1 s2 s1' s2' Hp [F1 P1] [F2 P2]. eapply (paired_rows W A); [done..|by intros b Hb%elem_of_app|].
    intros b r j Hb Hrb _. by eapply Hpair.
Qed.

Lemma row_step l W A k (Post : KState → KState → Prop) :
  (∀ b, b ∈ W → row_buffer b = true) →
  (∀ env s, hardware env → Inp s → Rope.cache_ok (ks_rope s) → ∃ s', exec env l s = Some s' ∧ framed W s s' ∧ Post s s') →
  (∀ s1 s2 s1' s2' r, paired A k s1 s2 → Post s1 s1' → Post s2 s2' → R r → 0 <= r < rows →
    ∀ b j, b ∈ W → 0 <= j < width c b → row_cell s1' b r j = row_cell s2' b r j) →
  keeps [l] A k (W ++ A) k.
Proof using He1 He2 Hsh Hrows Hco.
  intros HW Hrun Hpair. apply (launch_step l W A k Post); [|done|].
  - intros b Hb. specialize (HW b Hb). by destruct b.
  - intros s1 s2 s1' s2' Hp P1 P2 b r j Hb _ Hr. eapply Hpair; try done. by apply Hco.
Qed.

Lemma weight_row w n s1 s2 A k : paired A k s1 s2 → weight_buffer w = true → n = cap w → ∀ j, 0 <= j < n → cell base s1 w j = cell base s2 w j.
Proof using. intros Hp Hw -> j Hj. by apply (pd_weights _ _ _ _ Hp). Qed.

Lemma embed_keeps A k : keeps [embed_launch c rows] A k (BX :: A) k.
Proof using HL Hsh Hrows Hco He1 He2.
  apply (row_step _ [BX] A k (λ s s', ∀ t j, 0 <= t < rows → 0 <= j < hidden_size c →
    cell base s' BX (t * hidden_size c + j) = cell base s WEmbed (ks_ints s BInputIds t * hidden_size c + j))).
  - by intros b ->%list_elem_of_singleton.
  - intros env s He _ _. by apply (libs embed_runs c o kv_blocks base eps theta scale pr NDEBUG compute_major HL Hsh rows Hrows env s).
  - intros s1 s2 s1' s2' r Hp P1 P2 Hr Hrr b j ->%list_elem_of_singleton Hj. cbn [width] in *.
    unfold row_of. rewrite P1, P2 by done. destruct (pd_token _ _ _ _ Hp r Hr) as [<- Ht]. apply (pd_weights _ _ _ _ Hp); [done|]. cbn [capacity]. nia.
Qed.

Lemma normed_weight w : weight_buffer w = true → cap w = hidden_size c → norm_weight c o kv_blocks w.
Proof using. intros Hw Hc. split_and!; [by apply weight_half| |done]. rewrite !not_elem_of_cons. destruct w; try done; split_and!; (done || apply not_elem_of_nil). Qed.

Lemma rms_keeps w A k : BX ∈ A → weight_buffer w = true → cap w = hidden_size c →
  keeps [RmsNorm (at_base BNormed) (at_base BX) (at_base w) rows (hidden_size c)] A k (BNormed :: A) k.
Proof using HL Hsh Hrows Hco He1 He2.
  intros HX Hw Hc.
  destruct (libs rms_runs c o kv_blocks base eps theta scale pr NDEBUG compute_major HL Hsh rows Hrows w (normed_weight w Hw Hc)) as (total & Hext & Hrun).
  apply (row_step _ [BNormed] A k (λ s s', ∀ t j, 0 <= t < rows → 0 <= j < hidden_size c →
    row_of base s' BNormed (hidden_size c) t j = libs normalized c eps total (row_of base s BX (hidden_size c) t) (row_of base s w 0 0) j)).
  - by intros b ->%list_elem_of_singleton.
  - intros env s He _ _. by apply Hrun.
  - intros s1 s2 s1' s2' r Hp P1 P2 Hr Hrr b j ->%list_elem_of_singleton Hj. cbn [width] in *.
    rewrite P1, P2 by done. apply (libs normalized_ext c); [done|done|]. intros i Hi. split; [by apply (pd_rows _ _ _ _ Hp BX)|].
    unfold row_of. by apply (weight_row w (hidden_size c) s1 s2 A k).
Qed.

(** The fused normalisation of [n] rows from [r0] on: the rows compared, or
    some of them when they agree already. *)
Lemma residual_keeps w r0 n A k : BX ∈ A → BMlpOut ∈ A → weight_buffer w = true → cap w = hidden_size c →
  0 <= r0 → 1 <= n → r0 + n <= rows → BNormed ∈ A ∨ (∀ r, R r → r0 <= r < r0 + n) →
  let at_row b := shift (at_base b) (r0 * hidden_size c) in
  keeps [RmsNormResidual (at_row BNormed) (at_row BX) (at_row BMlpOut) (at_base w) n (hidden_size c)] A k (BNormed :: BX :: A) k.
Proof using HL Hsh Hrows Hco He1 He2.
  intros HX HM Hw Hc H0 Hn Hle Hwho at_row.
  destruct (libs residual_runs c o kv_blocks base eps theta scale pr NDEBUG compute_major HL Hsh rows Hrows w r0 n (normed_weight w Hw Hc) H0 Hn Hle)
    as (total & Hext & Hrun).
  apply (row_step _ [BNormed; BX] A k (λ s s', ∀ t j, 0 <= t < rows → 0 <= j < hidden_size c →
    let h := libs summed (row_of base s BX (hidden_size c) t) (row_of base s BMlpOut (hidden_size c) t) in
    if (r0 <=? t) && (t <? r0 + n)
    then row_of base s' BX (hidden_size c) t j = h j ∧
      row_of base s' BNormed (hidden_size c) t j = libs normalized c eps total h (row_of base s w 0 0) j
    else row_of base s' BX (hidden_size c) t j = row_of base s BX (hidden_size c) t j ∧
      row_of base s' BNormed (hidden_size c) t j = row_of base s BNormed (hidden_size c) t j)).
  - intros b Hb. by apply elem_of_cons in Hb as [->| ->%list_elem_of_singleton].
  - intros env s He _ _. by apply Hrun.
  - intros s1 s2 s1' s2' r Hp P1 P2 Hr Hrr b j Hb Hj.
    assert (∀ i, 0 <= i < hidden_size c → libs summed (row_cell s1 BX r) (row_cell s1 BMlpOut r) i = libs summed (row_cell s2 BX r) (row_cell s2 BMlpOut r) i) as Hsum.
    { intros i Hi. unfold summed. by rewrite (pd_rows _ _ _ _ Hp BX), (pd_rows _ _ _ _ Hp BMlpOut). }
    assert (width c b = hidden_size c) as Hwd by (by apply elem_of_cons in Hb as [->| ->%list_elem_of_singleton]).
    rewrite Hwd in *. specialize (P1 r j Hrr Hj). specialize (P2 r j Hrr Hj). cbv zeta in P1, P2.
    destruct ((r0 <=? r) && (r <? r0 + n)) eqn:Hin; destruct P1 as [E1 E2], P2 as [E3 E4];
      apply elem_of_cons in Hb as [->| ->%list_elem_of_singleton].
    + rewrite E2, E4. apply (libs normalized_ext c); [done|done|]. intros i Hi. split; [by apply Hsum|].
      unfold row_of. by apply (weight_row w (hidden_size c) s1 s2 A k).
    + rewrite E1, E3. by apply Hsum.
    + rewrite E2, E4. destruct Hwho as [HN|Hall]; [by apply (pd_rows _ _ _ _ Hp BNormed)|].
      specialize (Hall r Hr). apply andb_false_iff in Hin as [Hx%Z.leb_gt|Hx%Z.ltb_ge]; lia.
    + rewrite E1, E3. by apply (pd_rows _ _ _ _ Hp BX).
Qed.

(** The bias of a linear layer, if it has one. *)
Definition bias_ok (n : Z) (bias : option buffer) : Prop :=
  match bias with Some b => weight_buffer b = true ∧ cap b = n | None => True end.

(** An element of a linear layer is made of one row of the activations. *)
Lemma linear_agrees e act (w : buffer) bias n r0 nf inf A k s1 s2 r f :
  paired A k s1 s2 → act ∈ A → row_buffer act = true → weight_buffer w = true → inf <= width c act → cap w = nf * inf →
  bias_ok nf bias → R (r0 + r) → 0 <= r < n → 0 <= f < nf →
  let g := Linear n nf inf (width c act) nf e in
  let v s := pr_half pr g (cell base s w) (view base (ks_mem s) (shift (at_base act) (r0 * width c act))) (cell base s <$> bias) (d_offset g 0 f r) in
  v s1 = v s2.
Proof using Hpr.
  intros Hp Hact Hra Hw Hi Hcw Hb Hr Hrn Hf g v.
  refine (proj1 (Hpr _ _ _ _ _ _ _ _ _ _ _) _ _ _).
  - unfold d_index, g. cbn. lia.
  - apply linear_no_overlap. lia.
  - intros l Hl. cbn in Hl. unfold a_offset, b_offset, g. cbn. rewrite !decide_False, !decide_True by done. split.
    + apply (pd_weights _ _ _ _ Hp); [done|]. rewrite Hcw. nia.
    + unfold view, addr. cbn [shift at_base p_buf p_off].
      pose proof (pd_rows _ _ _ _ Hp act (r0 + r) l Hact Hra Hr ltac:(lia)) as H. unfold row_of, cell in H.
      etransitivity; [etransitivity; [|exact H]|]; f_equal; ring.
  - destruct bias as [b|]; [|done]. destruct Hb as [Hwb Hcb]. cbn. apply (pd_weights _ _ _ _ Hp); [done|lia].
Qed.

Lemma linear_keeps m e out act w bias inf A k :
  m ≠ mGemmStridedBatched_float → act ∈ A → row_buffer out = true → row_buffer act = true → weight_buffer w = true →
  0 < width c out → inf <= width c act → cap w = width c out * inf → bias_ok (width c out) bias →
  keeps [Gemm m (Linear rows (width c out) inf (width c act) (width c out) e) (at_base out) (at_base w) (at_base act) (at_base <$> bias)]
    A k (out :: A) k.
Proof using HL Hsh Hpr Hrows Hco He1 He2.
  intros Hm Hact Hout Hra Hw Hn Hi Hcw Hb. set (g := Linear rows (width c out) inf (width c act) (width c out) e).
  apply (row_step _ [out] A k (λ s s', ∀ t f, 0 <= t < rows → 0 <= f < width c out →
    cell base s' out (t * width c out + f) = pr_half pr g (cell base s w) (view base (ks_mem s) (shift (at_base act) (0 * width c act)))
      (cell base s <$> bias) (d_offset g 0 f t))).
  - by intros b ->%list_elem_of_singleton.
  - intros env s He Hok _.
    apply (libs linear_runs c o kv_blocks base eps theta scale pr NDEBUG compute_major HL m e out act 0 w bias rows _ inf env s);
      [done|by apply row_half|by destruct out|done|lia|].
    destruct out; try done; cbn [width capacity] in *; apply Z.mul_le_mono_nonneg_r; lia.
  - intros s1 s2 s1' s2' r Hp P1 P2 Hr Hrr b f ->%list_elem_of_singleton Hf.
    unfold row_of. rewrite P1, P2 by done. by apply (linear_agrees e act w bias rows 0 _ _ A k).
Qed.

Lemma rope_keeps A k : BQkv ∈ A →
  keeps [RopeInplace (at_base BQkv) (shift (at_base BQkv) (k_view_offset c)) (qkv_width c) (qkv_width c) (at_base BPositions) rows
    (num_q_heads c) nkv (head_dim c)] A k (BQkv :: A) k.
Proof using HL Hsh Hrows Hco He1 He2.
  intros HQ. set (heads := num_q_heads c + nkv).
  apply (row_step _ [BQkv] A k (λ s s',
    (∀ t h d, 0 <= t < rows → 0 <= h < heads → 0 <= d < 64 →
      (row_of base s' BQkv (qkv_width c) t (h * 128 + d), row_of base s' BQkv (qkv_width c) t (h * 128 + (d + 64))) =
      rotated (cos_sin (f_of_int (ks_ints s BPositions t)) (inv_freq theta 128 d))
        (row_of base s BQkv (qkv_width c) t (h * 128 + d)) (row_of base s BQkv (qkv_width c) t (h * 128 + (d + 64)))) ∧
    ∀ t j, 0 <= t < rows → heads * 128 <= j < qkv_width c →
      row_of base s' BQkv (qkv_width c) t j = row_of base s BQkv (qkv_width c) t j)).
  - by intros b ->%list_elem_of_singleton.
  - intros env s He _ Hc. by apply (libs rope_runs c o kv_blocks base eps theta scale pr NDEBUG compute_major HL Hsh rows Hrows env s).
  - intros s1 s2 s1' s2' r Hp [P1 Q1] [P2 Q2] Hr Hrr b j ->%list_elem_of_singleton Hj.
    pose proof (pd_rows _ _ _ _ Hp BQkv) as Hrow. cbn [width] in *. specialize (λ j, Hrow r j HQ eq_refl Hr).
    destruct (Z.lt_ge_cases j (heads * 128)) as [Hlt|Hge]; [|rewrite Q1, Q2 by lia; by apply Hrow].
    pose proof Hsh as [_ Hd _ _ _]. change kHeadDim with 128 in Hd. pose proof (sizes expf_lib rsqrtf_lib pow_lib sincosf_lib c o kv_blocks theta Hsh rows Hrows) as (_ & _ & Hkv & _).
    assert (heads * 128 <= qkv_width c) by (unfold heads, qkv_width; rewrite Hd; lia).
    set (h := j / 128). set (e := j mod 128). assert (j = h * 128 + e ∧ 0 <= h < heads ∧ 0 <= e < 128) as (Hje & Hh & He)
      by (unfold h, e; Z.div_mod_to_equations; lia).
    assert (∀ d, 0 <= d < 64 →
      (row_of base s1' BQkv (qkv_width c) r (h * 128 + d), row_of base s1' BQkv (qkv_width c) r (h * 128 + (d + 64))) =
      (row_of base s2' BQkv (qkv_width c) r (h * 128 + d), row_of base s2' BQkv (qkv_width c) r (h * 128 + (d + 64)))) as Hpair.
    { intros d Hdd. rewrite P1, P2 by done. rewrite (pd_position _ _ _ _ Hp r Hr), !Hrow by lia. done. }
    rewrite Hje. destruct (Z.lt_ge_cases e 64).
    + by injection (Hpair e ltac:(lia)) as ? _.
    + injection (Hpair (e - 64) ltac:(lia)) as _ H2. by replace (e - 64 + 64) with e in H2 by lia.
Qed.

Lemma silu_keeps A k : BGateup ∈ A → keeps [SiluMul (at_base BGateup) (at_base BGateup) rows (intermediate_size c)] A k (BGateup :: A) k.
Proof using HL Hsh Hrows Hco He1 He2.
  intros HG. apply (row_step _ [BGateup] A k (λ s s', ∀ t j, 0 <= t < rows → 0 <= j < gateup_width c →
    let row := row_of base s BGateup (gateup_width c) t in
    row_of base s' BGateup (gateup_width c) t j =
      if j <? intermediate_size c then libs (λ e r p sc, SiluMulOne (H := ieee e r p sc)) (row j) (row (intermediate_size c + j)) else row j)).
  - by intros b ->%list_elem_of_singleton.
  - intros env s He _ _. by apply (libs silu_runs c o kv_blocks base eps theta scale pr NDEBUG compute_major HL Hsh rows Hrows env s).
  - intros s1 s2 s1' s2' r Hp P1 P2 Hr Hrr b j ->%list_elem_of_singleton Hj.
    pose proof (pd_rows _ _ _ _ Hp BGateup) as Hrow. cbn [width] in *. specialize (λ j, Hrow r j HG eq_refl Hr).
    unfold gateup_width in *. rewrite P1, P2 by done. cbv zeta. destruct (Z.ltb_spec j (intermediate_size c)); rewrite !Hrow by lia; done.
Qed.

(** ** A layer, and the step *)

(** A layer, over any scatter and attention that keep the pair. *)
Lemma layer_keeps ts attention layer A :
  0 <= layer < num_layers c → BX ∈ A → (layer = 0 ∨ BMlpOut ∈ A) →
  (∀ A, BQkv ∈ A → keeps [KvScatter (at_base (BPool layer)) (shift (at_base BQkv) (k_view_offset c)) (shift (at_base BQkv) (v_view_offset c))
    (qkv_width c) (qkv_width c) (at_base BBlockTables) ts (at_base BPositions) rows nkv (head_dim c)] A layer A (layer + 1)) →
  (∀ A, BQkv ∈ A → keeps attention A (layer + 1) (BAttnOut :: A) (layer + 1)) →
  keeps (attention_input c layer rows ts ++ attention ++ block_tail c layer rows) A layer [BX; BMlpOut; BNormed] (layer + 1).
Proof using HL Hsh Hpr Hrows Hco He1 He2.
  intros Hl HX HM Hsc Hatt. pose proof Hsh as [Hg _ _ _ _].
  pose proof (sizes expf_lib rsqrtf_lib pow_lib sincosf_lib c o kv_blocks theta Hsh rows Hrows)
    as (Hh & _ & Hkv & Hv & Hi & _ & Hqw & _ & _ & Hgw).
  assert (∀ l, l = layer → (0 <=? l) && (l <? num_layers c) = true) as Hlw by (intros l ->; rewrite andb_true_iff, Z.leb_le, Z.ltb_lt; lia).
  assert (∀ r, R r → 0 <= r < 0 + rows) as Hall by (intros r Hr%(co_rows Hco); lia).
  unfold attention_input, block_tail. cbn [app].
  eapply keeps_weaken; [eapply pairs_cons; [|eapply pairs_cons; [|eapply pairs_cons; [|eapply pairs_cons; [|eapply pairs_app; [|
    eapply pairs_cons; [|eapply pairs_cons; [|eapply pairs_cons; [|eapply pairs_cons]]]]]]]]|].
  - destruct (Z.eqb_spec layer 0) as [->|Hne].
    + eapply keeps_weaken; [apply rms_keeps; [done|by apply Hlw|done]|reflexivity].
    + destruct HM as [?|HM]; [done|]. eapply keeps_weaken; [apply (residual_keeps _ 0 rows); [done|done|by apply Hlw|done|lia|lia|lia|by right]|].
      intros b [->|Hb]%elem_of_cons; listed; done.
  - apply (linear_keeps mGemmBiasFp16 EpilogueBias BQkv BNormed (WQkv layer) (Some (WQkvBias layer)));
      [done|listed|done|done|by apply Hlw|cbn [width]; lia|done|done|split; [by apply Hlw|done]].
  - apply rope_keeps; listed.
  - apply Hsc; listed.
  - apply Hatt; listed.
  - apply (linear_keeps mGemmFp16 EpilogueNone BMlpOut BAttnOut (WO layer) None); (done || listed || by apply Hlw).
  - apply (residual_keeps _ 0 rows); [listed; done|listed|by apply Hlw|done|lia|lia|lia|by right].
  - apply (linear_keeps mGemmFp16 EpilogueNone BGateup BNormed (WGateup layer) None);
      [done|listed|done|done|by apply Hlw|cbn [width]; lia|done|done|done].
  - apply silu_keeps; listed.
  - apply (linear_keeps mGemmFp16 EpilogueNone BMlpOut BGateup (WDown layer) None);
      [done|listed|done|done|by apply Hlw|done|cbn [width]; lia|done|done].
  - intros b [->|[->|[->|[]%not_elem_of_nil]%elem_of_cons]%elem_of_cons]%elem_of_cons; listed; done.
Qed.

Definition layer_pairs (layer_of : Z → list launch) : Prop :=
  ∀ layer A, 0 <= layer < num_layers c → BX ∈ A → (layer = 0 ∨ BMlpOut ∈ A) →
    keeps (layer_of layer) A layer [BX; BMlpOut; BNormed] (layer + 1).

Lemma layers_keep f n : layer_pairs f → ∀ k A, 0 <= k → k + Z.of_nat (S n) <= num_layers c → BX ∈ A → (k = 0 ∨ BMlpOut ∈ A) →
  keeps (concat (map f (seqZ k (Z.of_nat (S n))))) A k [BX; BMlpOut; BNormed] (k + Z.of_nat (S n)).
Proof using.
  intros Hf. induction n as [|n IH]; intros k A Hk Hn HX HM; rewrite (seqZ_cons k) by lia; cbn [map concat].
  - rewrite (seqZ_nil _ (Z.pred _)) by lia. cbn [map concat]. rewrite app_nil_r. apply Hf; (done || lia).
  - eapply pairs_app; [apply Hf; (done || lia)|]. replace (Z.pred (Z.of_nat (S (S n)))) with (Z.of_nat (S n)) by lia.
    replace (k + Z.of_nat (S (S n))) with (Z.succ k + Z.of_nat (S n)) by lia. rewrite Z.add_1_r.
    apply IH; [lia|lia|listed|right; listed].
Qed.

Lemma body_keeps f : layer_pairs f → keeps ([embed_launch c rows] ++ layers c f) [] 0 [BX; BMlpOut; BNormed] (num_layers c).
Proof using HL Hsh Hrows Hco He1 He2.
  intros Hf. pose proof Hsh as [Hg _ _ _ _]. pose proof (go_layers _ _ Hg) as Hn.
  destruct (Z.to_nat (num_layers c)) as [|n] eqn:He; [lia|]. assert (num_layers c = Z.of_nat (S n)) as Hl by lia.
  unfold layers. rewrite Hl. eapply pairs_app; [apply embed_keeps|]. rewrite <- (Z.add_0_l (Z.of_nat (S n))) at 2.
  apply layers_keep; [done|done|lia|listed|by left].
Qed.

(** The logits of [n] rows from [r0] on, and their tokens. *)
Lemma head_keeps r0 n A k s1 s2 : BNormed ∈ A → 0 <= r0 → 1 <= n → r0 + n <= rows → n <= x_max_batch o → paired A k s1 s2 →
  let ls := LaunchGemm (at_base BLogits) (vocab_size c) (shift (at_base BNormed) (r0 * hidden_size c)) (hidden_size c) (at_base WLmHead) n
    (vocab_size c) (hidden_size c) :: EnqueueArgmax c n in
  ∃ s1' s2', run env1 ls s1 = Some s1' ∧ run env2 ls s2 = Some s2' ∧ paired [] k s1' s2' ∧ kept s1 s1' ∧ kept s2 s2' ∧
    ∀ i, 0 <= i < n → R (r0 + i) → ks_ints s1' BArgmax i = ks_ints s2' BArgmax i ∧ 0 <= ks_ints s1' BArgmax i < vocab_size c.
Proof using HL Hsh Hpr Hrows Hco He1 He2.
  intros HN H0 Hn Hle Hmax Hp ls. pose proof Hsh as [Hg _ _ _ _]. pose proof (go_vocab _ _ Hg) as Hv.
  pose proof (libs linear_runs c o kv_blocks base eps theta scale pr NDEBUG compute_major HL mGemmFp16 EpilogueNone BLogits BNormed (r0 * hidden_size c)
    WLmHead None n (vocab_size c) (hidden_size c)) as Hlin.
  pose proof (libs argmax_runs c o kv_blocks base eps theta scale pr NDEBUG compute_major Hsh n) as Harg.
  assert (n * vocab_size c <= cap BLogits) as Hcap by (cbn [capacity]; nia).
  destruct (Hlin env1 s1 ltac:(done) eq_refl eq_refl ltac:(lia) Hn Hcap) as (t1 & R1 & F1 & P1).
  destruct (Hlin env2 s2 ltac:(done) eq_refl eq_refl ltac:(lia) Hn Hcap) as (t2 & R2 & F2 & P2).
  destruct (Harg env1 t1 Hn) as (u1 & R3 & F3 & P3). destruct (Harg env2 t2 Hn) as (u2 & R4 & F4 & P4).
  assert (paired A k t1 t2) as Hp1.
  { eapply (paired_rows [BLogits] A); [done..| |by right|].
    - by intros b ->%list_elem_of_singleton.
    - by intros b r j ->%list_elem_of_singleton. }
  exists u1, u2. unfold ls, EnqueueArgmax.
  split_and!; [exact (run_two _ _ _ _ _ _ R1 R3)|exact (run_two _ _ _ _ _ _ R2 R4)| | | |].
  - eapply (paired_rows [] A); [done..| | |]; [by intros b Hb%elem_of_nil..|].
    by intros b r j Hb%elem_of_nil.
  - eapply kept_trans; [exact (fr_ints F1)|exact (fr_ints F3)].
  - eapply kept_trans; [exact (fr_ints F2)|exact (fr_ints F4)].
  - intros i Hi Hr. destruct (P3 i Hi) as (al1 & tok & E1 & ->), (P4 i Hi) as (al2 & tok2 & E2 & ->).
    assert (tok2 = tok) as ->.
    { rewrite (argmax_row_same al1 al2 compute_major compute_major (cell base t1 BLogits) (cell base t2 BLogits)) in E1; [congruence|done|done|].
      intros x Hx. rewrite P1, P2 by done.
      by apply (linear_agrees EpilogueNone BNormed WLmHead None n r0 (vocab_size c) (hidden_size c) A k). }
    split; [done|]. eapply selects_range; [done|]. by eapply argmax_selects; [|done|exact E1]; lia.
Qed.

End runs.
End isolation.


Arguments pd_ok1 {_ _ _ _ _ _ _ _ _ _ _ _ _ _ _ _ _} _.
Arguments pd_ok2 {_ _ _ _ _ _ _ _ _ _ _ _ _ _ _ _ _} _.
Arguments pd_rope1 {_ _ _ _ _ _ _ _ _ _ _ _ _ _ _ _ _} _.
Arguments pd_rope2 {_ _ _ _ _ _ _ _ _ _ _ _ _ _ _ _ _} _.
Arguments pd_token {_ _ _ _ _ _ _ _ _ _ _ _ _ _ _ _ _} _ _ _.
Arguments pd_position {_ _ _ _ _ _ _ _ _ _ _ _ _ _ _ _ _} _ _ _.
Arguments pd_weights {_ _ _ _ _ _ _ _ _ _ _ _ _ _ _ _ _} _ _ _ _ _.
Arguments pd_rows {_ _ _ _ _ _ _ _ _ _ _ _ _ _ _ _ _} _ _ _ _ _ _ _ _.
Arguments pd_cached {_ _ _ _ _ _ _ _ _ _ _ _ _ _ _ _ _} _ _ _ _ _ _ _ _ _ _ _ _.

(** ** A decode step

    One row is compared: row [r], at position [pos] of its sequence. *)

Section decode_step.
Context (expf_lib rsqrtf_lib : float32 → float32) (pow_lib : float32 → float32 → float32) (sincosf_lib : float32 → float32 * float32).
#[local] Instance step_ops : FloatOps float32 Z := ieee expf_lib rsqrtf_lib pow_lib sincosf_lib.
Context (c : ModelConfig) (o : ExecutorOptions) (kv_blocks : Z) (base : buffer → Z) (eps theta scale : float32) (pr : Products).
Context (NDEBUG : bool) (compute_major : Z).
Context (HL : layout_ok c o kv_blocks base) (Hsh : shapes_ok expf_lib rsqrtf_lib pow_lib sincosf_lib c o kv_blocks theta) (Hpr : products_local pr).
Context (rows r pos : Z) (Hrows : 1 <= rows <= x_max_batch o) (Hr : 0 <= r < rows).
Notation hardware env := (∀ k : nat, env_ok (env k)).
Notation run env := (kernel_run expf_lib rsqrtf_lib pow_lib sincosf_lib base eps theta scale pr NDEBUG compute_major env).
Notation mb := (max_blocks_per_seq o).
Notation nkv := (num_kv_heads c).
Notation libs f := (f expf_lib rsqrtf_lib pow_lib sincosf_lib).

Definition decode_inputs (s : KState) : Prop := row_ok o kv_blocks rows r s ∧ ks_ints s BPositions r = pos.
Definition decode_paired := libs paired c o kv_blocks base (λ t, t = r) r pos (pos + 1) decode_inputs.
Notation keep e1 e2 := (libs keeps c o kv_blocks base eps theta scale pr NDEBUG compute_major (λ t, t = r) r pos (pos + 1) decode_inputs e1 e2).

Lemma decode_rows_fit : 1 <= rows <= step_rows o.
Proof using Hrows. unfold step_rows. lia. Qed.
Notation Hstep := decode_rows_fit.

Lemma decode_compared : compared o kv_blocks rows (λ t, t = r) r (pos + 1) decode_inputs.
Proof using Hr.
  split; [by intros ? ->| |].
  - intros s s' Hk [[H1 H2 H3 H4 H5 H6] Hp]. split; [split|]; unfold block_at in *; rewrite ?Hk by done; done.
  - intros s p [[_ Hpos Htab _ _ _] Hp] Hpp. apply Htab; [done|]. specialize (Hpos r Hr). Z.div_mod_to_equations. lia.
Qed.
Notation Hco := decode_compared.

(** The scatter completes a layer's cache. *)
Lemma scatter_keeps env1 env2 layer A : hardware env1 → hardware env2 → BQkv ∈ A → 0 <= layer < num_layers c →
  keep env1 env2 [KvScatter (at_base (BPool layer)) (shift (at_base BQkv) (k_view_offset c)) (shift (at_base BQkv) (v_view_offset c)) (qkv_width c)
    (qkv_width c) (at_base BBlockTables) mb (at_base BPositions) rows nkv (head_dim c)] A layer A (layer + 1).
Proof using HL Hsh Hrows Hr.
  intros He1 He2 HQ Hl s1 s2 Hp. pose proof (pd_ok1 Hp) as [O1 Hp1].
  pose proof (pd_ok2 Hp) as [O2 Hp2].
  pose proof (pool_half c layer Hl) as Hb.
  pose proof (sizes expf_lib rsqrtf_lib pow_lib sincosf_lib c o kv_blocks theta Hsh rows Hstep) as (Hhid & _ & Hkv & _ & _ & _ & Hqw & _).
  assert (∀ s, row_ok o kv_blocks rows r s → ∀ t, 0 <= t < rows → 0 <= target s mb t < kv_blocks) as Htg.
  { intros s [_ Hpos Htab _ _ _] t Ht. apply Htab; [done|]. specialize (Hpos t Ht). Z.div_mod_to_equations. lia. }
  destruct (libs scatter_runs c o kv_blocks base eps theta scale pr NDEBUG compute_major HL Hsh rows Hstep layer mb env1 s1 He1 Hb (Htg s1 O1))
    as (s1' & E1 & F1 & P1).
  destruct (libs scatter_runs c o kv_blocks base eps theta scale pr NDEBUG compute_major HL Hsh rows Hstep layer mb env2 s2 He2 Hb (Htg s2 O2))
    as (s2' & E2 & F2 & P2).
  exists s1', s2'. cbn [kernel_run]. rewrite E1, E2. split_and!; [done|done| |exact (fr_ints F1)|exact (fr_ints F2)].
  eapply (paired_frames _ _ _ _ c o kv_blocks base rows Hstep _ _ _ _ _ Hco [BPool layer] A); [exact Hp|done|done| |by right| |].
  - by intros b ->%list_elem_of_singleton.
  - by intros b r' j ->%list_elem_of_singleton.
  - intros layer' kv h p d Hl' Hkv2 Hh Hpp Hlt Hd.
    destruct (decide (layer' = layer)) as [->|Hne].
    + rewrite (libs scatter_row c o kv_blocks base rows r layer s1 s1' O1 F1 P1), (libs scatter_row c o kv_blocks base rows r layer s2 s2' O2 F2 P2) by (done || lia).
      rewrite Hp1, Hp2. destruct (Z.eqb_spec p pos).
      * apply (pd_rows Hp BQkv r); [done|done|done|]. cbn [width]. rewrite Hqw.
        assert (0 <= kv * (nkv * 128) <= nkv * 128) by nia. lia.
      * apply (pd_cached Hp); (done || lia).
    + assert (BPool layer' ∉ [BPool layer]) by (intros Heq%list_elem_of_singleton; congruence).
      rewrite (cached_frame _ _ _ _ c o kv_blocks base theta Hsh rows _ _ _ _ Hco [BPool layer] s1 s1'),
        (cached_frame _ _ _ _ c o kv_blocks base theta Hsh rows _ _ _ _ Hco [BPool layer] s2 s2') by (done || lia).
      apply (pd_cached Hp); (done || lia).
Qed.

Lemma attention_keeps env1 env2 layer A k : hardware env1 → hardware env2 → BQkv ∈ A → 0 <= layer < num_layers c → layer < k →
  keep env1 env2 [PagedAttentionDecode (at_base BAttnOut) (hidden_size c) (at_base BQkv) (qkv_width c) (at_base (BPool layer)) (at_base BBlockTables)
    (at_base BSeqLens) rows mb (num_q_heads c) nkv (head_dim c)] A k (BAttnOut :: A) k.
Proof using HL Hsh Hrows Hr.
  intros He1 He2 HQ Hl Hk. pose proof (pool_half c layer Hl) as Hb.
  pose proof Hsh as [_ Hd Hgr _ _]. change kHeadDim with 128 in Hd. change kGroupSize with 6 in Hgr.
  pose proof (sizes expf_lib rsqrtf_lib pow_lib sincosf_lib c o kv_blocks theta Hsh rows Hstep) as (_ & _ & Hkv & _ & _ & Hq & Hqw & _).
  rewrite Hd in Hq. apply (row_step _ _ _ _ c o kv_blocks base eps theta scale pr NDEBUG compute_major Hsh rows Hstep _ _ _ _ _ Hco env1 env2 He1 He2
    _ [BAttnOut] A k (λ s s', ∀ h d, 0 <= h < num_q_heads c → 0 <= d < 128 →
    row_of base s' BAttnOut (hidden_size c) r (h * 128 + d) =
      __float2half_rn (fdiv (hs_acc (libs attended c o base scale s layer r h) d) (hs_l (libs attended c o base scale s layer r h))))).
  - by intros b ->%list_elem_of_singleton.
  - intros env s He [Hok _] _.
    by apply (libs attention_runs c o kv_blocks base eps theta scale pr NDEBUG compute_major HL Hsh rows Hstep layer r env s).
  - intros s1 s2 s1' s2' ? Hp P1 P2 -> _ b j ->%list_elem_of_singleton Hj. cbn [width] in *.
    pose proof (pd_ok1 Hp) as [_ Hp1]. pose proof (pd_ok2 Hp) as [_ Hp2]. pose proof (pd_ok1 Hp) as [[_ Hpos _ _ _ _] _]. specialize (Hpos r Hr).
    assert (∃ h e, j = h * 128 + e ∧ 0 <= h < num_q_heads c ∧ 0 <= e < 128) as (h & e & -> & Hh & He)
      by (exists (j / 128), (j mod 128); Z.div_mod_to_equations; lia).
    assert (0 <= h / 6 < nkv) as Hg by (Z.div_mod_to_equations; lia).
    rewrite P1, P2 by done. unfold attended. rewrite Hp1, Hp2.
    edestruct ref_attention_ext as (_ & Hl1 & Ha1); [| | |by rewrite Hl1, Ha1].
    + intros d Hdd. cbv beta. f_equal. f_equal. apply (pd_rows Hp BQkv r); [done|done|done|]. cbn [width]. lia.
    + intros p d Hpp Hdd. apply (pd_cached Hp); (done || lia).
    + intros p d Hpp Hdd. apply (pd_cached Hp); (done || lia).
Qed.

(** The launches of a decode step leave row [r] the same token and the same cache. *)
Lemma step_isolated env1 env2 s1 s2 : hardware env1 → hardware env2 → decode_paired [] 0 s1 s2 →
  ∃ s1' s2' tok, run env1 (decode_step_launches c o rows) s1 = Some s1' ∧ run env2 (decode_step_launches c o rows) s2 = Some s2' ∧
    decode_paired [] (num_layers c) s1' s2' ∧
    ks_ints s1' BArgmax r = tok ∧ ks_ints s2' BArgmax r = tok ∧ 0 <= tok < vocab_size c ∧ kept s1 s1' ∧ kept s2 s2'.
Proof using HL Hsh Hpr Hrows Hr.
  intros He1 He2 Hp.
  assert (libs layer_pairs c o kv_blocks base eps theta scale pr NDEBUG compute_major (λ t, t = r) r pos (pos + 1) decode_inputs env1 env2
    (decode_layer c o rows)) as Hlay.
  { intros layer A Hl HX HM. apply (layer_keeps _ _ _ _ c o kv_blocks base eps theta scale pr NDEBUG compute_major HL Hsh Hpr rows Hstep _ _ _ _ _ Hco
      env1 env2 He1 He2 mb); [done..|by intros; apply scatter_keeps|intros; apply attention_keeps; (done || lia)]. }
  destruct (body_keeps _ _ _ _ c o kv_blocks base eps theta scale pr NDEBUG compute_major HL Hsh rows Hstep _ _ _ _ _ Hco env1 env2 He1 He2 _ Hlay
    s1 s2 Hp) as (t1 & t2 & R1 & R2 & Hp1 & K1 & K2).
  pose proof (residual_keeps _ _ _ _ c o kv_blocks base eps theta scale pr NDEBUG compute_major HL Hsh rows Hstep _ _ pos _ _ Hco env1 env2 He1 He2
    WFinalNorm 0 rows [BX; BMlpOut; BNormed] (num_layers c) ltac:(listed) ltac:(listed) eq_refl eq_refl ltac:(lia) ltac:(lia) ltac:(lia) ltac:(left; listed)) as Hres.
  destruct (Hres t1 t2 Hp1) as (u1 & u2 & R3 & R4 & Hp2 & K3 & K4).
  destruct (head_keeps _ _ _ _ c o kv_blocks base eps theta scale pr NDEBUG compute_major HL Hsh Hpr rows Hstep _ _ _ _ _ Hco env1 env2 He1 He2
    0 rows _ (num_layers c) u1 u2 ltac:(listed) ltac:(lia) ltac:(lia) ltac:(lia) ltac:(lia) Hp2) as (v1 & v2 & R5 & R6 & Hp3 & K5 & K6 & Htok).
  destruct (Htok r Hr ltac:(lia)) as [Heq Hv]. exists v1, v2, (ks_ints v1 BArgmax r).
  assert (∀ env s t u v, run env ([embed_launch c rows] ++ layers c (decode_layer c o rows)) s = Some t →
    run env [RmsNormResidual (at_base BNormed) (at_base BX) (at_base BMlpOut) (at_base WFinalNorm) rows (hidden_size c)] t = Some u →
    run env (LaunchGemm (at_base BLogits) (vocab_size c) (at_base BNormed) (hidden_size c) (at_base WLmHead) rows (vocab_size c) (hidden_size c)
      :: EnqueueArgmax c rows) u = Some v → run env (decode_step_launches c o rows) s = Some v) as Hrun.
  { intros env s t u v H1 H2 H3. unfold decode_step_launches, EnqueueDecodeForward.
    rewrite app_assoc, <- app_assoc. rewrite (run_app _ _ _ _ base eps theta scale pr NDEBUG compute_major env _ _ _ _ H1).
    exact (eq_trans (run_app _ _ _ _ base eps theta scale pr NDEBUG compute_major env _ _ _ _ H2) H3). }
  split_and!; [by eapply Hrun|by eapply Hrun|done|done|by symmetry|lia|lia| |].
  - eapply kept_trans; [exact K1|]. by eapply kept_trans.
  - eapply kept_trans; [exact K2|]. by eapply kept_trans.
Qed.

End decode_step.
