(* ===== verification/KernelPrefill.v ===== *)
(** * A prompt chunk on the kernel models

    The launches of [PrefillChunk], run by the kernels, in either
    [PrefillGemmMode].  The rows of a chunk are consecutive positions of one
    sequence, and two runs are compared on all of them: the scatter adds them to
    the cache, the gather stages the whole of it, the products, the softmax and
    the products again make the attention of every row from the staged planes.
    [chunk_isolated]: the chunk's cache, and its token if it ends the prompt,
    depend on its tokens, its position, the cache before it and the weights
    alone. *)

From Stdlib Require Import Floats.SpecFloat.
From S2P Require Import Prelude Doubles Types ModelConfig GemmConfig ExecutorLayout HalfFloat KvPool EmbedGather Argmax DeviceMath SiluMul Rope Reduce RmsNorm PrefillSoftmax PagedAttention PagedAttentionRef PagedAttentionTheorems Launches Executor KernelDevice KernelDecode KernelIsolation.

Section prefill.
Context (expf_lib rsqrtf_lib : float32 → float32) (pow_lib : float32 → float32 → float32) (sincosf_lib : float32 → float32 * float32).
#[local] Instance prefill_ops : FloatOps float32 Z := ieee expf_lib rsqrtf_lib pow_lib sincosf_lib.
Context (c : ModelConfig) (o : ExecutorOptions) (kv_blocks : Z) (base : buffer → Z) (eps theta scale : float32) (pr : Products).
Context (NDEBUG : bool) (compute_major : Z).
Context (HL : layout_ok c o kv_blocks base) (Hsh : shapes_ok expf_lib rsqrtf_lib pow_lib sincosf_lib c o kv_blocks theta) (Hpr : products_local pr).
Context (rows start : Z) (Hchunk : 1 <= rows <= x_prefill_chunk_tokens o) (Hstart : 0 <= start) (Hlen : start + rows <= x_max_seq_len o).
Notation hardware env := (∀ k : nat, env_ok (env k)).
Notation exec env := (kernel_exec expf_lib rsqrtf_lib pow_lib sincosf_lib base eps theta scale pr NDEBUG compute_major env).
Notation run env := (kernel_run expf_lib rsqrtf_lib pow_lib sincosf_lib base eps theta scale pr NDEBUG compute_major env).
Notation cap := (capacity c o kv_blocks).
Notation mb := (max_blocks_per_seq o).
Notation nkv := (num_kv_heads c).
Notation nq := (num_q_heads c).
Notation ctx := (start + rows).
Notation plane := (gather_plane_stride c o).
Notation libs f := (f expf_lib rsqrtf_lib pow_lib sincosf_lib).
Notation framed := (libs frame c o kv_blocks base).

Lemma chunk_rows_fit : 1 <= rows <= step_rows o.
Proof using Hchunk. unfold step_rows. lia. Qed.
Notation Hstep := chunk_rows_fit.

Lemma shape : nq * 128 = hidden_size c ∧ nq = nkv * 6 ∧ 0 < nkv ∧ head_dim c = 128 ∧ plane = x_max_seq_len o * 128 ∧
  heads_per_group c = 6 ∧ qkv_width c = nq * 128 + 2 * (nkv * 128).
Proof using Hsh Hchunk.
  pose proof Hsh as [_ Hd Hg _ _]. change kHeadDim with 128 in Hd. change kGroupSize with 6 in Hg.
  pose proof (sizes expf_lib rsqrtf_lib pow_lib sincosf_lib c o kv_blocks theta Hsh rows Hstep) as (_ & _ & Hkv & _ & _ & Hq & Hqw & _).
  rewrite Hd in Hq. unfold gather_plane_stride, heads_per_group. rewrite Hd, Z.quot_div_nonneg by lia.
  assert (nq / nkv = 6) as -> by (rewrite Hg, Z.mul_comm; apply Z.div_mul; lia). lia.
Qed.

(** ** One launch *)

(** The staged planes hold the cached keys and values of the sequence. *)
Lemma gather_runs layer env s : hardware env → half_buffer c (BPool layer) = true →
  let l := KvGather (at_base BKhat) (at_base BVhat) plane (head_dim c) (at_base (BPool layer)) (at_base BBlockTables) ctx nkv (head_dim c) in
  ∃ s', exec env l s = Some s' ∧ framed [BKhat; BVhat] s s' ∧
    ∀ h p d, 0 <= h < nkv → 0 <= p < ctx → 0 <= d < 128 →
      cell base s' BKhat (h * plane + p * 128 + d) = cached c o base s layer 0 0 h p d ∧
      cell base s' BVhat (h * plane + p * 128 + d) = cached c o base s layer 0 1 h p d.
Proof using HL Hsh Hchunk Hstart Hlen.
  intros Henv Hb l. destruct shape as (Hq & Hg & Hkv & Hd & Hpl & _). unfold l. rewrite Hd.
  pose proof (Henv (ks_launches s)) as He. set (e := env (ks_launches s)) in *.
  set (sched := λ hpw, ke_pairs e (grid_words nkv 128 hpw ctx)).
  assert (runs_grid nkv 128 ctx sched) as Hs by (intros hpw t w; unfold sched; by rewrite (eo_pairs _ He)).
  assert (staging_ok 128 plane 128 plane 128 ctx) as Hst by (split; lia).
  set (vk := view base (ks_mem s) (at_base BKhat)). set (vv := view base (ks_mem s) (at_base BVhat)).
  set (vp := view base (ks_mem s) (at_base (BPool layer))). set (tab := ints_at s (at_base BBlockTables)).
  destruct (LaunchKvGather (ke_aligned16 e) vk vv plane 128 plane 128 vp tab ctx nkv 128 sched) as [m1 m2] eqn:Hres.
  pose proof (gather_all nkv 128 Hkv ltac:(lia) plane 128 plane 128 tab ctx Hst (ke_aligned16 e) vk vv vp sched) as Hall.
  pose proof (gather_outside nkv 128 Hkv ltac:(lia) plane 128 plane 128 tab ctx Hst (ke_aligned16 e) vk vv vp sched) as Hout.
  rewrite Hres in Hall, Hout.
  set (K := base BKhat). set (V := base BVhat).
  set (m' := λ a, if (K + 0 <=? a) && (a <? K + 0 + nkv * plane) then m1 (a - (K + 0)) else m2 (a - (V + 0))).
  assert (cap BKhat = nkv * plane ∧ cap BVhat = nkv * plane) as [Hck Hcv].
  { cbn [capacity]. unfold gather_elems. rewrite Hd, Hpl. lia. }
  assert (∀ a, ¬ 0 <= a < nkv * plane → m1 a = vk a ∧ m2 a = vv a) as Hfr.
  { intros a Ha. split; [exact (Hout 0 a ltac:(lia) Hs Ha)|exact (Hout 1 a ltac:(lia) Hs Ha)]. }
  exists (counted (set_mem m' s)). split; [|split].
  - apply exec_effect. unfold launch_effect. fold e vk vv vp tab. fold sched. setoid_rewrite Hres. reflexivity.
  - apply frame_counted, frame_two; [done|done|done|done|done|]. intros a Ha1 Ha2. unfold m'.
    assert (¬ 0 <= a - (K + 0) < nkv * plane) by (intros Hx; apply (Ha1 (a - K)); unfold K in *; lia).
    assert (¬ 0 <= a - (V + 0) < nkv * plane) as Hv by (intros Hx; apply (Ha2 (a - V)); unfold V in *; lia).
    destruct (Z.leb_spec (K + 0) a), (Z.ltb_spec a (K + 0 + nkv * plane)); cbn [andb]; try lia;
      rewrite (proj2 (Hfr _ Hv)); unfold vv, view, addr; cbn [at_base p_buf p_off]; f_equal; unfold V; lia.
  - intros h p d Hh Hp Hdd. assert (0 <= h * plane + p * 128 + d < nkv * plane) as Hin.
    { assert (0 <= p * 128 + d < plane) by lia. nia. }
    assert (∀ kv, 0 <= kv < 2 → vp (pool_addr nkv 128 (tab (Z.shiftr p kKvBlockShift)) kv h (Z.land p (kKvBlockSize - 1)) d) =
      cached c o base s layer 0 kv h p d) as Hval.
    { intros kv _. unfold vp, view, cached, cell, addr, tab, ints_at, block_at. cbn [at_base p_buf p_off]. rewrite shift_div, land_mod.
      rewrite Z.mul_0_l, !Z.add_0_r. done. }
    unfold cell, counted, set_mem. cbn [ks_mem]. unfold m'. split.
    + fold K. destruct (Z.leb_spec (K + 0) (K + (h * plane + p * 128 + d))), (Z.ltb_spec (K + (h * plane + p * 128 + d)) (K + 0 + nkv * plane));
        cbn [andb]; try lia. replace (K + (h * plane + p * 128 + d) - (K + 0)) with (h * plane + p * 128 + d) by lia.
      etransitivity; [|exact (Hval 0 ltac:(lia))]. exact (Hall 0 h p d ltac:(lia) Hs ltac:(lia) Hh Hdd Hp).
    + fold V. assert (¬ (K + 0 <= V + (h * plane + p * 128 + d) < K + 0 + nkv * plane)) as Hno.
      { intros Hx. apply (other_buffer c o kv_blocks base HL BVhat BKhat (h * plane + p * 128 + d) (V + (h * plane + p * 128 + d) - K));
          [done|done|done|done|lia|lia|fold V K; lia]. }
      destruct (Z.leb_spec (K + 0) (V + (h * plane + p * 128 + d))), (Z.ltb_spec (V + (h * plane + p * 128 + d)) (K + 0 + nkv * plane));
        cbn [andb]; try lia;
        (replace (V + (h * plane + p * 128 + d) - (V + 0)) with (h * plane + p * 128 + d) by lia;
         etransitivity; [|exact (Hval 1 ltac:(lia))]; exact (Hall 1 h p d ltac:(lia) Hs ltac:(lia) Hh Hdd Hp)).
Qed.

(** Element ([h], [t], [j]) of the scores and of the probabilities. *)
Definition at_pair (h t j : Z) : Z := h * (rows * ctx) + t * ctx + j.
Definition score (s : KState) (h t j : Z) : float32 := ks_scores s (base BScores + at_pair h t j).
Definition prob (s : KState) (h t j : Z) : Z := cell base s BProbs (at_pair h t j).

Lemma at_pair_range h t j : 0 <= h < nq → 0 <= t < rows → 0 <= j < ctx → 0 <= at_pair h t j < nq * rows * ctx.
Proof using Hchunk Hstart Hlen.
  intros Hh Ht Hj. unfold at_pair. assert (0 <= t * ctx + j < rows * ctx) by nia.
  assert (0 <= h * (rows * ctx)) by nia. assert ((h + 1) * (rows * ctx) <= nq * (rows * ctx)) by nia. lia.
Qed.

Notation scores_config heads := (PrefillScores rows ctx (head_dim c) heads (qkv_width c)).
Notation pv_config heads := (PrefillPv rows ctx (head_dim c) heads (hidden_size c)).
Notation sees s b n := (view base (ks_mem s) (shift (at_base b) n)).

(** The scores of [heads] heads from [h0] on; the heads before keep theirs. *)
Lemma scores_runs heads g h0 env s : 1 <= heads → 0 <= h0 →
  ∃ s', exec env (scores_launch c o (scores_config heads) rows ctx g h0) s = Some s' ∧ framed [] s s' ∧ ks_mem s' = ks_mem s ∧
    ∀ h t j, 0 <= h < h0 + heads → 0 <= t < rows → 0 <= j < ctx →
      score s' h t j = if h0 <=? h
        then pr_float pr (scores_config heads) (sees s BKhat (g * plane)) (sees s BQkv (h0 * head_dim c)) (d_offset (scores_config heads) (h - h0) j t)
        else score s h t j.
Proof using Hchunk Hstart Hlen.
  intros Hn H0. eexists. split; [apply exec_effect; reflexivity|]. split; [by split|]. split; [done|].
  intros h t j Hh Ht Hj. unfold score at 1. cbn [counted set_scores ks_scores].
  replace (base BScores + at_pair h t j - addr base (shift (at_base BScores) (h0 * (rows * ctx)))) with ((h - h0) * (rows * ctx) + t * ctx + j)
    by (unfold addr, at_pair; cbn [shift at_base p_buf p_off]; ring).
  destruct (Z.leb_spec h0 h).
  - rewrite <- (scores_d_offset rows ctx (head_dim c) heads (qkv_width c)) by lia.
    rewrite bool_decide_true; [done|]. apply elem_of_d_cells. exists (h - h0), j, t. unfold d_index. cbn. lia.
  - rewrite bool_decide_false; [done|]. intros (hh & i & r & (Hhh & Hi & Hr) & Heq)%elem_of_d_cells.
    rewrite scores_d_offset in Heq by done. cbn in Hhh, Hi, Hr.
    assert (0 <= t * ctx + j < rows * ctx) by nia. assert ((h - h0) * (rows * ctx) <= - (rows * ctx)) by nia.
    assert (0 <= hh * (rows * ctx)) by nia. assert (0 <= r * ctx) by nia. lia.
Qed.

Lemma probs_fit : nq * rows * ctx <= cap BProbs.
Proof using Hsh Hchunk Hstart Hlen.
  destruct shape as (Hq & Hg & Hkv & _). cbn [capacity]. unfold score_elems. rewrite <- !Z.mul_assoc.
  apply Z.mul_le_mono_nonneg_l; [lia|]. apply Z.mul_le_mono_nonneg; lia.
Qed.

(** The probabilities of every row over its own past. *)
Lemma softmax_runs env s : hardware env →
  ∃ s', exec env (PrefillSoftmax (at_base BProbs) (at_base BScores) nq rows ctx start) s = Some s' ∧ framed [BProbs] s s' ∧
    ∀ h t j, 0 <= h < nq → 0 <= t < rows → 0 <= j < ctx →
      prob s' h t j = __float2half_rn (probability (score s h t) (start + t + 1) j).
Proof using HL Hsh Hchunk Hstart Hlen.
  intros Henv. destruct shape as (Hq & Hg & Hkv & _). pose proof (Henv (ks_launches s)) as He. set (e := env (ks_launches s)) in *.
  destruct (prefill_softmax_stores NDEBUG (ke_pairs e) (ke_stores e) (base BProbs) (λ i, ks_scores s (base BScores + i)) nq rows ctx start (ks_mem s))
    as (m' & Hl & Hval & Hfr); [apply He|intros; apply He|lia..|].
  pose proof probs_fit as Hcap.
  exists (counted (set_mem m' s)). split; [|split].
  - apply exec_effect. unfold launch_effect, addr. cbn [at_base p_buf p_off]. rewrite !Z.add_0_r. fold e. setoid_rewrite Hl. reflexivity.
  - apply frame_counted, frame_write; [done|done|done|]. intros a Ha. apply Hfr. intros x Hx. apply Ha. lia.
  - intros h t j Hh Ht Hj. specialize (Hval h t j Hh Ht Hj). cbv zeta in Hval. unfold prob, cell, counted, set_mem. cbn [ks_mem].
    assert (∀ k, (h * rows + t) * ctx + k = at_pair h t k) as Hp by (intros; unfold at_pair; ring).
    rewrite <- Z.add_assoc, Hp in Hval. rewrite Hval.
    pose proof (probability_ext (λ k, ks_scores s (base BScores + ((h * rows + t) * ctx + k))) (score s h t) (start + t + 1) j (proj1 Hj)
      (λ k _, f_equal (λ i, ks_scores s (base BScores + i)) (Hp k))) as Heq. rewrite Heq. reflexivity.
Qed.

(** The attention output of [heads] heads from [h0] on. *)
Lemma pv_runs heads g h0 env s : 1 <= heads → 0 <= h0 → h0 + heads <= nq →
  ∃ s', exec env (pv_launch c o (pv_config heads) rows ctx g h0) s = Some s' ∧ framed [BAttnOut] s s' ∧
    ∀ h t d, 0 <= h < h0 + heads → 0 <= t < rows → 0 <= d < 128 →
      row_of base s' BAttnOut (hidden_size c) t (h * 128 + d) = if h0 <=? h
        then pr_half pr (pv_config heads) (sees s BVhat (g * plane)) (sees s BProbs (h0 * (rows * ctx))) None (d_offset (pv_config heads) (h - h0) d t)
        else row_of base s BAttnOut (hidden_size c) t (h * 128 + d).
Proof using HL Hsh Hchunk Hstart Hlen.
  intros Hn H0 Hle. destruct shape as (Hq & Hg & Hkv & Hd & _).
  assert (∀ a, addr base (shift (at_base BAttnOut) (h0 * head_dim c)) + a = base BAttnOut + (h0 * 128 + a)) as Hat
    by (intros; unfold addr; cbn [shift at_base p_buf p_off]; rewrite Hd; ring).
  eexists. split; [apply exec_effect; reflexivity|]. split.
  - apply frame_counted, frame_write; [done|done|done|]. intros a Ha. rewrite bool_decide_false; [done|].
    intros (h & d & t & (Hh & Hi & Hj) & Heq)%elem_of_d_cells. cbn in Hh, Hi, Hj. rewrite Hd in Hi.
    rewrite pv_d_offset, Hd in Heq by done.
    apply (Ha (t * hidden_size c + ((h0 + h) * 128 + d))).
    + cbn [capacity]. assert (0 <= (h0 + h) * 128 + d < hidden_size c) by lia. pose proof chunk_rows_fit. nia.
    + specialize (Hat (a - addr base (shift (at_base BAttnOut) (h0 * head_dim c)))). rewrite Hd, Heq in Hat. lia.
  - intros h t d Hh Ht Hdd. unfold row_of at 1, cell at 1, counted, set_mem. cbn [ks_mem].
    assert (base BAttnOut + (t * hidden_size c + (h * 128 + d)) - addr base (shift (at_base BAttnOut) (h0 * head_dim c)) =
      t * hidden_size c + (h - h0) * 128 + d) as ->.
    { specialize (Hat 0). lia. }
    destruct (Z.leb_spec h0 h).
    + assert (t * hidden_size c + (h - h0) * 128 + d = d_offset (pv_config heads) (h - h0) d t) as -> by (rewrite pv_d_offset, Hd by lia; done).
      rewrite bool_decide_true; [done|]. apply elem_of_d_cells. exists (h - h0), d, t. unfold d_index. cbn. lia.
    + rewrite bool_decide_false; [done|]. intros (hh & i & r & (Hhh & Hi & Hr) & Heq)%elem_of_d_cells.
      rewrite pv_d_offset, Hd in Heq by done. cbn in Hhh, Hi, Hr. rewrite Hd in Hi.
      destruct (radix (hidden_size c) t (h * 128 + d) r ((h0 + hh) * 128 + i)); lia.
Qed.

(** ** Two runs *)

(** What a chunk's integer arrays promise: consecutive positions, and a table
    whose blocks are in the pool and distinct. *)
Record chunk_inputs (s : KState) : Prop := {
  ci_positions t : 0 <= t < rows → ks_ints s BPositions t = start + t;
  ci_table p : 0 <= p < ctx → 0 <= block_at o s 0 p < kv_blocks;
  ci_distinct p p' : 0 <= p < ctx → 0 <= p' < ctx → block_at o s 0 p = block_at o s 0 p' → p / 16 = p' / 16;
}.

Notation R := (λ t, 0 <= t < rows).
Definition chunk_paired := libs paired c o kv_blocks base R 0 start ctx chunk_inputs.

Lemma chunk_compared : compared o kv_blocks rows R 0 ctx chunk_inputs.
Proof using.
  split; [done| |by intros s p [_ H _] Hp; apply H].
  intros s s' Hk [H1 H2 H3]. split; unfold block_at in *; rewrite ?Hk by done; done.
Qed.
Notation Hco := chunk_compared.

Section runs.
Context (env1 env2 : nat → KernelEnv) (He1 : hardware env1) (He2 : hardware env2).
Notation keep := (libs keeps c o kv_blocks base eps theta scale pr NDEBUG compute_major R 0 start ctx chunk_inputs env1 env2).
Notation pair ls P Q := (libs pairs base eps theta scale pr NDEBUG compute_major env1 env2 ls P Q).

(** The scatter adds the chunk to a layer's cache. *)
Lemma chunk_scatter_keeps layer A : BQkv ∈ A → 0 <= layer < num_layers c →
  keep [KvScatter (at_base (BPool layer)) (shift (at_base BQkv) (k_view_offset c)) (shift (at_base BQkv) (v_view_offset c)) (qkv_width c)
    (qkv_width c) (at_base BBlockTables) 0 (at_base BPositions) rows nkv (head_dim c)] A layer A (layer + 1).
Proof using HL Hsh Hchunk Hstart Hlen He1 He2.
  intros HQ Hl. pose proof (pool_half c layer Hl) as Hb. destruct shape as (Hq & Hg & Hkv & Hd & _ & _ & Hqw).
  assert (∀ s, chunk_inputs s → ∀ t, 0 <= t < rows → target s 0 t = block_at o s 0 (start + t)) as Htg.
  { intros s [Hpos _ _] t Ht. unfold target, block_at. by rewrite Hpos, Z.mul_0_r by done. }
  pose proof (libs scatter_runs c o kv_blocks base eps theta scale pr NDEBUG compute_major HL Hsh rows Hstep layer 0) as Hrun.
  apply (pairs_one _ _ _ _ base eps theta scale pr NDEBUG compute_major env1 env2 He1 He2 _ _ _ chunk_inputs (λ s s', framed [BPool layer] s s' ∧
    ∀ kv h p d, 0 <= kv < 2 → 0 <= h < nkv → 0 <= p < ctx → 0 <= d < 128 →
      cached c o base s' layer 0 kv h p d = if start <=? p then scattered c base s (p - start) kv h d else cached c o base s layer 0 kv h p d)).
  - intros s1 s2 Hp. split; apply Hp.
  - intros env s He Hi. destruct (Hrun env s He Hb) as (s' & E & F & P).
    { intros t Ht. rewrite (Htg s Hi t Ht). apply Hi. lia. }
    exists s'. split; [exact E|]. split; [exact (fr_ints F)|]. split; [exact F|]. intros kv h p d Hkv2 Hh Hp Hdd.
    destruct (P kv h d Hkv2 Hh Hdd) as [Hhit Hmiss]. cbv zeta in Hhit, Hmiss. pose proof (ci_positions s Hi) as Hpos.
    assert (∀ t, 0 <= t < rows → ∀ p, 0 <= p < ctx → target s 0 t = block_at o s 0 p → ks_ints s BPositions t mod 16 = p mod 16 → start + t = p) as Hone.
    { intros t Ht p' Hp' Heq Hm. rewrite (Htg s Hi t Ht) in Heq. rewrite Hpos in Hm by done. apply (ci_distinct s Hi) in Heq; [|lia|done].
      Z.div_mod_to_equations. lia. }
    unfold cached. assert (block_at o s' 0 p = block_at o s 0 p) as -> by (unfold block_at; by rewrite (fr_ints F)).
    destruct (Z.leb_spec start p).
    + assert (0 <= p - start < rows) as Ht by lia. assert (start + (p - start) = p) as Hsp by lia.
      specialize (Hhit (p - start) Ht). rewrite (Htg s Hi _ Ht), Hpos, Hsp in Hhit by done. apply Hhit.
      intros u Hu Heq Hm. specialize (Hone u Hu p Hp Heq Hm). lia.
    + apply Hmiss; [apply Z.mod_pos_bound; lia|]. intros t Ht Heq Hm. specialize (Hone t Ht p Hp Heq Hm). lia.
  - intros s1 s2 s1' s2' Hp [F1 P1] [F2 P2].
    eapply (paired_frames _ _ _ _ c o kv_blocks base rows Hstep _ _ _ _ _ Hco [BPool layer] A); [exact Hp|done|done| |by right| |].
    + by intros b ->%list_elem_of_singleton.
    + by intros b r' j ->%list_elem_of_singleton.
    + intros layer' kv h p d Hl' Hkv2 Hh Hpp Hlt Hdd. destruct (decide (layer' = layer)) as [->|Hne].
      * rewrite P1, P2 by done. destruct (Z.leb_spec start p).
        -- apply (pd_rows Hp BQkv (p - start)); [done|done|lia|]. cbn [width]. rewrite Hqw, Hq.
           assert (0 <= kv * (nkv * 128) <= nkv * 128) by nia. lia.
        -- apply (pd_cached Hp); (done || lia).
      * assert (BPool layer' ∉ [BPool layer]) by (intros Heq%list_elem_of_singleton; congruence).
        rewrite (cached_frame _ _ _ _ c o kv_blocks base theta Hsh rows _ _ _ _ Hco [BPool layer] s1 s1'),
          (cached_frame _ _ _ _ c o kv_blocks base theta Hsh rows _ _ _ _ Hco [BPool layer] s2 s2') by (done || apply Hp).
        apply (pd_cached Hp); (done || lia).
Qed.

(** ** Attention, stage by stage *)

Section attention.
Context (A : list buffer) (k : Z) (HQ : BQkv ∈ A) (Hout : BAttnOut ∉ A).
Notation core := (chunk_paired A k).

Definition same_hats (s1 s2 : KState) : Prop := ∀ g p d, 0 <= g < nkv → 0 <= p < ctx → 0 <= d < 128 →
  cell base s1 BKhat (g * plane + p * 128 + d) = cell base s2 BKhat (g * plane + p * 128 + d) ∧
  cell base s1 BVhat (g * plane + p * 128 + d) = cell base s2 BVhat (g * plane + p * 128 + d).
Definition same_scores (n : Z) (s1 s2 : KState) : Prop :=
  ∀ h t j, 0 <= h < n → 0 <= t < rows → 0 <= j < ctx → score s1 h t j = score s2 h t j.
Definition same_probs (s1 s2 : KState) : Prop :=
  ∀ h t j, 0 <= h < nq → 0 <= t < rows → 0 <= j < ctx → prob s1 h t j = prob s2 h t j.
Definition same_out (n : Z) (s1 s2 : KState) : Prop :=
  ∀ h t d, 0 <= h < n → 0 <= t < rows → 0 <= d < 128 →
    row_of base s1 BAttnOut (hidden_size c) t (h * 128 + d) = row_of base s2 BAttnOut (hidden_size c) t (h * 128 + d).

Lemma same_hats_frame W s1 s2 s1' s2' : same_hats s1 s2 → framed W s1 s1' → framed W s2 s2' → W ⊆ [BProbs; BAttnOut] → same_hats s1' s2'.
Proof using Hsh Hchunk Hlen.
  intros Hh F1 F2 HW g p d Hg Hp Hd. destruct shape as (_ & _ & Hkv & Hhd & Hpl & _). destruct (Hh g p d Hg Hp Hd) as [E1 E2].
  assert (0 <= g * plane + p * 128 + d < nkv * plane) as Hin by (assert (0 <= p * 128 + d < plane) by lia; nia).
  assert (cap BKhat = nkv * plane ∧ cap BVhat = nkv * plane) as [Hck Hcv] by (cbn [capacity]; unfold gather_elems; rewrite Hhd, Hpl; lia).
  rewrite !(fr_cells F1), !(fr_cells F2) by (done || lia || (intros Hb%HW; rewrite !elem_of_cons, elem_of_nil in Hb; naive_solver)). done.
Qed.

(** A launch outside the pools and the rows of [A] keeps what is paired. *)
Lemma core_frame W s1 s2 s1' s2' : core s1 s2 → framed W s1 s1' → framed W s2 s2' → W ⊆ [BKhat; BVhat; BProbs; BAttnOut] → core s1' s2'.
Proof using Hsh Hchunk Hout.
  intros Hp F1 F2 HW. apply (paired_rows _ _ _ _ c o kv_blocks base theta Hsh rows Hstep _ _ _ _ _ Hco W A A k s1 s2); [done..| |by right|].
  - intros b Hb%HW. rewrite !elem_of_cons, elem_of_nil in Hb. by destruct Hb as [->|[->|[->|[->|[]]]]].
  - intros b r j Hb%HW Hrb HbA. rewrite !elem_of_cons, elem_of_nil in Hb. by destruct Hb as [->|[->|[->|[->|[]]]]].
Qed.

Lemma gather_pairs layer : 0 <= layer < num_layers c → layer < k →
  pair [KvGather (at_base BKhat) (at_base BVhat) plane (head_dim c) (at_base (BPool layer)) (at_base BBlockTables) ctx nkv (head_dim c)]
    core (λ s1 s2, core s1 s2 ∧ same_hats s1 s2).
Proof using HL Hsh Hchunk Hstart Hlen He1 He2 Hout.
  intros Hl Hk. eapply (pairs_one _ _ _ _ base eps theta scale pr NDEBUG compute_major env1 env2 He1 He2 _ _ _ (λ _, True)); [done| |].
  - intros env s He _. destruct (gather_runs layer env s He (pool_half c layer Hl)) as (s' & E & F & P).
    exists s'. split; [exact E|]. split; [exact (fr_ints F)|]. exact (conj F P).
  - intros s1 s2 s1' s2' Hp [F1 P1] [F2 P2]. split; [by eapply core_frame; [done..|]; clear; set_solver|].
    intros g p d Hg Hpp Hd. destruct (P1 g p d Hg Hpp Hd) as [-> ->], (P2 g p d Hg Hpp Hd) as [-> ->].
    split; apply (pd_cached Hp); (done || lia).
Qed.

Lemma scores_pairs heads g h0 : 1 <= heads → 0 <= h0 → h0 + heads <= nq → 0 <= g < nkv →
  let P n := λ s1 s2, (core s1 s2 ∧ same_hats s1 s2) ∧ same_scores n s1 s2 in
  pair [scores_launch c o (scores_config heads) rows ctx g h0] (P h0) (P (h0 + heads)).
Proof using HL Hsh Hpr Hchunk Hstart Hlen He1 He2 HQ Hout.
  intros Hn H0 Hle Hg P. destruct shape as (Hq & _ & Hkv & Hd & Hpl & _ & Hqw).
  eapply (pairs_one _ _ _ _ base eps theta scale pr NDEBUG compute_major env1 env2 He1 He2 _ _ _ (λ _, True)); [done| |].
  - intros env s He _. destruct (scores_runs heads g h0 env s Hn H0) as (s' & E & F & M & V).
    exists s'. split; [exact E|]. split; [exact (fr_ints F)|]. exact (conj F (conj M V)).
  - intros s1 s2 s1' s2' [[Hp Hh] Hs] (F1 & M1 & V1) (F2 & M2 & V2). split; [split|].
    + by eapply core_frame; [done..|]; clear; set_solver.
    + unfold same_hats, cell. by rewrite M1, M2.
    + intros h t j Hhh Ht Hj. rewrite V1, V2 by done. destruct (Z.leb_spec h0 h); [|apply Hs; (done || lia)].
      refine (proj2 (Hpr _ _ _ _ _ _ _ _ _ (scores_no_overlap _ _ _ _ _) _)); [unfold d_index; cbn; lia|].
      intros l Hll. cbn in Hll. rewrite Hd in Hll. unfold a_offset, b_offset. cbn. rewrite Hd, decide_False, decide_True by done.
      unfold view, addr. cbn [shift at_base p_buf p_off]. split.
      * pose proof (proj1 (Hh g j l Hg Hj Hll)) as Hx. unfold cell in Hx. rewrite !Z.mul_0_r. etransitivity; [etransitivity; [|exact Hx]|]; f_equal; lia.
      * pose proof (pd_rows Hp BQkv t (h * 128 + l) HQ eq_refl Ht ltac:(cbn [width]; lia)) as Hx. unfold row_of, cell in Hx. cbn [width] in Hx.
        destruct (Z.ltb_spec 1 heads); [|replace h with h0 in * by lia]; (etransitivity; [etransitivity; [|exact Hx]|]; f_equal; ring).
Qed.

Lemma softmax_pairs :
  pair [PrefillSoftmax (at_base BProbs) (at_base BScores) nq rows ctx start]
    (λ s1 s2, (core s1 s2 ∧ same_hats s1 s2) ∧ same_scores nq s1 s2) (λ s1 s2, (core s1 s2 ∧ same_hats s1 s2) ∧ same_probs s1 s2).
Proof using HL Hsh Hchunk Hstart Hlen He1 He2 Hout.
  eapply (pairs_one _ _ _ _ base eps theta scale pr NDEBUG compute_major env1 env2 He1 He2 _ _ _ (λ _, True)); [done| |].
  - intros env s He _. destruct (softmax_runs env s He) as (s' & E & F & V).
    exists s'. split; [exact E|]. split; [exact (fr_ints F)|]. exact (conj F V).
  - intros s1 s2 s1' s2' [[Hp Hh] Hs] (F1 & V1) (F2 & V2). split; [split|].
    + by eapply core_frame; [done..|]; clear; set_solver.
    + eapply same_hats_frame; [exact Hh|exact F1|exact F2|clear; set_solver].
    + intros h t j Hhh Ht Hj. rewrite V1, V2 by done.
      pose proof (probability_ext (score s1 h t) (score s2 h t) (start + t + 1) j (proj1 Hj)) as Heq. rewrite Heq; [reflexivity|].
      intros i Hi. apply Hs; [exact Hhh|exact Ht|lia].
Qed.

Lemma pv_pairs heads g h0 : 1 <= heads → 0 <= h0 → h0 + heads <= nq → 0 <= g < nkv →
  let P n := λ s1 s2, ((core s1 s2 ∧ same_hats s1 s2) ∧ same_probs s1 s2) ∧ same_out n s1 s2 in
  pair [pv_launch c o (pv_config heads) rows ctx g h0] (P h0) (P (h0 + heads)).
Proof using HL Hsh Hpr Hchunk Hstart Hlen He1 He2 HQ Hout.
  intros Hn H0 Hle Hg P. destruct shape as (Hq & _ & Hkv & Hd & Hpl & _ & Hqw).
  eapply (pairs_one _ _ _ _ base eps theta scale pr NDEBUG compute_major env1 env2 He1 He2 _ _ _ (λ _, True)); [done| |].
  - intros env s He _. destruct (pv_runs heads g h0 env s Hn H0 Hle) as (s' & E & F & V).
    exists s'. split; [exact E|]. split; [exact (fr_ints F)|]. exact (conj F V).
  - intros s1 s2 s1' s2' [[[Hp Hh] Hs] Ho] (F1 & V1) (F2 & V2). split; [split; [split|]|].
    + by eapply core_frame; [done..|]; clear; set_solver.
    + eapply same_hats_frame; [exact Hh|exact F1|exact F2|clear; set_solver].
    + intros h t j Hhh Ht Hj. specialize (Hs h t j Hhh Ht Hj). unfold prob in *.
      pose proof (at_pair_range h t j Hhh Ht Hj). pose proof probs_fit.
      rewrite (fr_cells F1), (fr_cells F2) by (done || lia || (clear; set_solver)). done.
    + intros h t d Hhh Ht Hdd. rewrite V1, V2 by done. destruct (Z.leb_spec h0 h); [|apply Ho; (done || lia)].
      refine (proj1 (Hpr _ _ _ _ _ _ _ _ _ (pv_no_overlap _ _ _ _ _ _) _) None None I); [unfold d_index; cbn; lia|rewrite Hd; nia|].
      intros l Hll. cbn in Hll. unfold a_offset, b_offset. cbn. rewrite Hd, !decide_True by done.
      unfold view, addr. cbn [shift at_base p_buf p_off]. split.
      * pose proof (proj2 (Hh g l d Hg Hll Hdd)) as Hx. unfold cell in Hx. rewrite !Z.mul_0_r. etransitivity; [etransitivity; [|exact Hx]|]; f_equal; lia.
      * pose proof (Hs h t l ltac:(lia) Ht Hll) as Hx. unfold prob, cell, at_pair in Hx.
        destruct (Z.ltb_spec 1 heads); [|replace h with h0 in * by lia]; (etransitivity; [etransitivity; [|exact Hx]|]; f_equal; ring).
Qed.

(** The calls of either mode cover the heads in order. *)
Lemma map_pairs (f : Z → launch) (P : Z → KState → KState → Prop) step n i0 :
  0 <= n → (∀ i, i0 <= i < i0 + n → pair [f i] (P (i * step)) (P ((i + 1) * step))) →
  pair (map f (seqZ i0 n)) (P (i0 * step)) (P ((i0 + n) * step)).
Proof using.
  intros Hn. revert i0. pattern n. apply natlike_ind; [| |exact Hn].
  - intros i0 _. rewrite seqZ_nil by lia. rewrite Z.add_0_r. apply pairs_nil.
  - clear n Hn. intros n Hn IH i0 Hf. rewrite seqZ_cons by lia. cbn [map]. replace (Z.pred (Z.succ n)) with n by lia.
    replace (i0 + Z.succ n) with (i0 + 1 + n) by lia. eapply pairs_cons; [apply Hf; lia|]. rewrite <- Z.add_1_r.
    apply IH. intros i Hi. apply Hf. lia.
Qed.

Lemma per_mode_pairs mode (call : Z → Z → Z → launch) (P : Z → KState → KState → Prop) :
  (∀ heads g h, 1 <= heads → 0 <= h → h + heads <= nq → 0 <= g < nkv → pair [call heads g h] (P h) (P (h + heads))) →
  pair (per_mode c mode call) (P 0) (P nq).
Proof using Hsh Hchunk.
  intros Hcall. destruct shape as (_ & Hg & Hkv & _ & _ & Hhg & _). unfold per_mode. rewrite Hhg. destruct mode.
  - pose proof (map_pairs (λ g, call 6 g (g * 6)) P 6 nkv 0 ltac:(lia)) as Hm. rewrite Z.mul_0_l, Z.add_0_l, <- Hg in Hm.
    apply Hm. intros i Hi. replace ((i + 1) * 6) with (i * 6 + 6) by lia. apply Hcall; lia.
  - pose proof (map_pairs (λ h, call 1 (Z.quot h 6) h) P 1 nq 0 ltac:(lia)) as Hm. rewrite !Z.mul_1_r, Z.add_0_l in Hm.
    apply Hm. intros i Hi. rewrite !Z.mul_1_r. apply Hcall; [lia|lia|lia|]. rewrite Z.quot_div_nonneg by lia. Z.div_mod_to_equations. lia.
Qed.

End attention.

Lemma chunk_attention_keeps mode layer A k : BQkv ∈ A → 0 <= layer < num_layers c → layer < k →
  keep (EnqueuePrefillAttention c o layer rows start ctx mode) A k (BAttnOut :: A) k.
Proof using HL Hsh Hpr Hchunk Hstart Hlen He1 He2.
  intros HQ Hl Hk. destruct shape as (Hq & _). set (A0 := filter (.≠ BAttnOut) A).
  assert (BQkv ∈ A0) as HQ0 by (by apply list_elem_of_filter). assert (BAttnOut ∉ A0) as Hn0 by (by intros [? _]%list_elem_of_filter).
  apply (pairs_weaken _ _ _ _ base eps theta scale pr NDEBUG compute_major env1 env2 _ (chunk_paired A0 k) _
    (λ s1 s2, ((chunk_paired A0 k s1 s2 ∧ same_hats s1 s2) ∧ same_probs s1 s2) ∧ same_out nq s1 s2)).
  - intros s1 s2 Hp. eapply paired_weaken; [exact Hp|]. by intros b [_ Hb]%list_elem_of_filter.
  - intros s1 s2 [[[Hp _] _] Ho]. destruct Hp as [Q1 Q2 Q3 Q4 Q5 Q6 Q7 Q8 Q9]. split; try done.
    intros b r j Hb Hrb Hr Hj. destruct (decide (b = BAttnOut)) as [->|Hne].
    + cbn [width] in *. replace j with (j / 128 * 128 + j mod 128) by (Z.div_mod_to_equations; lia).
      apply Ho; [|done|]; Z.div_mod_to_equations; lia.
    + apply Q8; try done. apply list_elem_of_filter. split; [done|]. by apply elem_of_cons in Hb as [?|?].
  - unfold EnqueuePrefillAttention. eapply pairs_app; [by apply (gather_pairs A0 k Hn0)|].
    eapply pairs_app; [eapply pairs_weaken; [| |apply (per_mode_pairs mode _ (λ n s1 s2, (chunk_paired A0 k s1 s2 ∧ same_hats s1 s2) ∧ same_scores n s1 s2))]|].
    + intros s1 s2 Hp. split; [exact Hp|]. intros h t j Hh. lia.
    + intros s1 s2 Hp. exact Hp.
    + intros heads g h. by apply scores_pairs.
    + eapply pairs_app; [apply (softmax_pairs A0 k Hn0)|].
      eapply pairs_weaken; [| |apply (per_mode_pairs mode _ (λ n s1 s2, ((chunk_paired A0 k s1 s2 ∧ same_hats s1 s2) ∧ same_probs s1 s2) ∧ same_out n s1 s2))].
      * intros s1 s2 Hp. split; [exact Hp|]. intros h t j Hh. lia.
      * intros s1 s2 Hp. exact Hp.
      * intros heads g h. by apply pv_pairs.
Qed.

End runs.
Definition chunk_launches (final : bool) (mode : PrefillGemmMode) : list launch :=
  EnqueuePrefillForward c o rows start ctx final mode ++ (if final then EnqueueArgmax c 1 else []).

(** The launches of a chunk leave the same cache, and the same token at the end
    of the prompt. *)
Lemma chunk_isolated final mode env1 env2 s1 s2 : hardware env1 → hardware env2 → chunk_paired [] 0 s1 s2 →
  ∃ s1' s2', run env1 (chunk_launches final mode) s1 = Some s1' ∧ run env2 (chunk_launches final mode) s2 = Some s2' ∧
    chunk_paired [] (num_layers c) s1' s2' ∧ kept s1 s1' ∧ kept s2 s2' ∧
    (final = true → ks_ints s1' BArgmax 0 = ks_ints s2' BArgmax 0 ∧ 0 <= ks_ints s1' BArgmax 0 < vocab_size c).
Proof using HL Hsh Hpr Hchunk Hstart Hlen.
  intros He1 He2 Hp.
  assert (libs layer_pairs c o kv_blocks base eps theta scale pr NDEBUG compute_major R 0 start ctx chunk_inputs env1 env2
    (prefill_layer c o rows start ctx mode)) as Hlay.
  { intros layer A Hl HX HM. apply (layer_keeps _ _ _ _ c o kv_blocks base eps theta scale pr NDEBUG compute_major HL Hsh Hpr rows Hstep _ _ _ _ _ Hco
      env1 env2 He1 He2 0); [done..|by intros; apply chunk_scatter_keeps|intros; apply chunk_attention_keeps; (done || lia)]. }
  destruct (body_keeps _ _ _ _ c o kv_blocks base eps theta scale pr NDEBUG compute_major HL Hsh rows Hstep _ _ _ _ _ Hco env1 env2 He1 He2 _ Hlay
    s1 s2 Hp) as (t1 & t2 & R1 & R2 & Hp1 & K1 & K2).
  assert (∀ env s t ls u, run env ([embed_launch c rows] ++ layers c (prefill_layer c o rows start ctx mode)) s = Some t → run env ls t = Some u →
    run env (([embed_launch c rows] ++ layers c (prefill_layer c o rows start ctx mode)) ++ ls) s = Some u) as Hrun.
  { intros env s t ls u H1 H2. exact (eq_trans (run_app _ _ _ _ base eps theta scale pr NDEBUG compute_major env _ _ _ _ H1) H2). }
  unfold chunk_launches, EnqueuePrefillForward. rewrite app_assoc, <- app_assoc. destruct final.
  - pose proof (residual_keeps _ _ _ _ c o kv_blocks base eps theta scale pr NDEBUG compute_major HL Hsh rows Hstep R 0 start ctx chunk_inputs Hco env1 env2 He1 He2
      WFinalNorm (rows - 1) 1 [BX; BMlpOut; BNormed] (num_layers c) ltac:(listed) ltac:(listed) eq_refl eq_refl ltac:(lia) ltac:(lia) ltac:(lia) ltac:(left; listed)) as Hres.
    destruct (Hres t1 t2 Hp1) as (u1 & u2 & R3 & R4 & Hp2 & K3 & K4). pose proof Hsh as [Hg _ _ _ _]. pose proof (go_batch _ _ Hg).
    destruct (head_keeps _ _ _ _ c o kv_blocks base eps theta scale pr NDEBUG compute_major HL Hsh Hpr rows Hstep _ _ _ _ _ Hco env1 env2 He1 He2
      (rows - 1) 1 _ (num_layers c) u1 u2 ltac:(listed) ltac:(lia) ltac:(lia) ltac:(lia) ltac:(lia) Hp2) as (v1 & v2 & R5 & R6 & Hp3 & K5 & K6 & Htok).
    assert (∀ env t u v l ls, run env [l] t = Some u → run env ls u = Some v → run env ([l] ++ ls) t = Some v) as Htwo.
    { intros env t u v l ls H1 H2. exact (eq_trans (run_app _ _ _ _ base eps theta scale pr NDEBUG compute_major env [l] ls t u H1) H2). }
    exists v1, v2. split_and!.
    + apply (Hrun env1 s1 t1); [exact R1|]. exact (Htwo env1 t1 u1 v1 _ _ R3 R5).
    + apply (Hrun env2 s2 t2); [exact R2|]. exact (Htwo env2 t2 u2 v2 _ _ R4 R6).
    + exact Hp3.
    + eapply kept_trans; [exact K1|]. by eapply kept_trans.
    + eapply kept_trans; [exact K2|]. by eapply kept_trans.
    + intros _. apply (Htok 0 ltac:(lia)). cbv beta. lia.
  - exists t1, t2. split_and!; [by apply (Hrun env1 s1 t1)|by apply (Hrun env2 s2 t2)| |done|done|done].
    eapply paired_weaken; [exact Hp1|]. intros b Hb. by apply elem_of_nil in Hb.
Qed.

End prefill.
