(* ===== verification/KernelExecutor.v ===== *)
(** * The executor's decode step on the kernel models

    The executor's device, made of the kernels: what a launch does is the
    kernel model's launcher on one memory, a copy fills an integer array, and
    the tokens are read back from the argmax array.  On this device
    [decode_isolated] joins the executor and the kernels: the token that
    [DecodeEager] or [DecodeGraph] returns for a request, and the keys and
    values it adds to the request's cache, are the same in any two batches, on
    any two executors. *)

From Stdlib Require Import Floats.SpecFloat.
From S2P Require Import Prelude Doubles Types ModelConfig Scheduler GemmConfig Gemm ExecutorLayout ExecutorMirrors HalfFloat KvPool DeviceMath Rope Reduce RmsNorm PagedAttention PagedAttentionTheorems Launches Executor GemmServe ExecutorInit ExecutorSteps ExecutorWarm KernelDevice KernelDecode KernelIsolation.

Section device.
Context (expf_lib rsqrtf_lib : float32 → float32) (pow_lib : float32 → float32 → float32) (sincosf_lib : float32 → float32 * float32).
#[local] Instance executor_ops : FloatOps float32 Z := ieee expf_lib rsqrtf_lib pow_lib sincosf_lib.
Context (c : ModelConfig) (o : ExecutorOptions) (base : buffer → Z) (eps theta scale : float32) (pr : Products).
Context (NDEBUG : bool) (compute_major : Z).
Notation exec env := (kernel_exec expf_lib rsqrtf_lib pow_lib sincosf_lib base eps theta scale pr NDEBUG compute_major env).
Notation krun env := (kernel_run expf_lib rsqrtf_lib pow_lib sincosf_lib base eps theta scale pr NDEBUG compute_major env).
Notation mb := (max_blocks_per_seq o).

(** A copy into the array of a step's inputs. *)
Definition kernel_copy (b : buffer) (xs : list Z) (s : KState) : KState :=
  set_ints b (λ i, default (ks_ints s b i) (if 0 <=? i then xs !! Z.to_nat i else None)) s.

(** [initial] is the memory after the constructor's memsets, the weights in
    it.  [None]: a kernel's launcher failed. *)
Definition kernel_device (env : nat → KernelEnv) (initial : KState) : Device (option KState) :=
  mkDevice (Some initial) (λ l d, d ≫= exec env l) (λ b xs d, kernel_copy b xs <$> d)
    (λ d, map (λ i, match d with Some s => ks_ints s BArgmax i | None => 0 end) (seqZ 0 (x_max_batch o))).

Section run.
Context (env : nat → KernelEnv) (initial : KState).
Notation work_run := (foldl (run_work (kernel_device env initial))).

Lemma run_kernel_work ls : ∀ m s, work_run (m, Some s) (map Kernel ls) = (m, krun env ls s).
Proof.
  assert (∀ ls m, work_run (m, None) (map Kernel ls) = (m, None)) as Hnone by (intros l; induction l as [|x l IH]; intros m; [done|apply IH]).
  induction ls as [|l ls IH]; intros m s; [done|]. cbn [map foldl run_work kernel_device dev_exec kernel_run]. cbn [option_bind mbind].
  destruct (exec env l s) as [s'|]; [apply IH|apply Hnone].
Qed.

(** The copies of a step. *)
Definition uploads (l : list (buffer * Z)) (m : Mirrors) (s : KState) : KState :=
  foldl (λ s '(b, n), kernel_copy b (take (Z.to_nat n) (mirror_of m b)) s) s l.
Definition uploaded (rows : Z) : Mirrors → KState → KState := uploads (UploadDecodeInputs o rows).

Lemma run_copies l : ∀ m s, work_run (m, Some s) (copies l) = (m, Some (uploads l m s)).
Proof. induction l as [|[b n] l IH]; intros m s; [done|]. cbn [copies map foldl run_work]. apply IH. Qed.

(** The whole of a step's device work. *)
Lemma run_decode_work rows m s s' : krun env (decode_step_launches c o rows) (uploaded rows m s) = Some s' →
  work_run (m, Some s) (decode_work c o rows) =
    (set_argmax (over (take (Z.to_nat rows) (map (ks_ints s' BArgmax) (seqZ 0 (x_max_batch o)))) (h_argmax m)) m, Some s').
Proof.
  intros Hk. unfold decode_work. rewrite !foldl_app, run_copies, run_kernel_work. unfold uploaded in Hk. rewrite Hk. done.
Qed.

End run.

Lemma copy_here b xs s i x : 0 <= i → xs !! Z.to_nat i = Some x → ks_ints (kernel_copy b xs s) b i = x.
Proof. intros Hi Hx. cbn. rewrite decide_True by done. destruct (Z.leb_spec 0 i); [|lia]. by rewrite Hx. Qed.

Lemma copy_there b b' xs s : b' ≠ b → ks_ints (kernel_copy b xs s) b' = ks_ints s b'.
Proof. intros Hne. cbn. by rewrite decide_False. Qed.

(** What the arrays hold after the copies. *)
Lemma uploads_other l m b : ∀ s, b ∉ map fst l → ks_ints (uploads l m s) b = ks_ints s b.
Proof.
  induction l as [|[b' n] l IH]; intros s Hb; [done|]. cbn [map] in Hb. rewrite not_elem_of_cons in Hb. destruct Hb as [Hne Hb].
  change (uploads ((b', n) :: l) m s) with (uploads l m (kernel_copy b' (take (Z.to_nat n) (mirror_of m b')) s)). rewrite IH by done. by apply copy_there.
Qed.

Lemma uploads_ints l m b n i x : ∀ s, NoDup (map fst l) → (b, n) ∈ l → 0 <= i < n → mirror_of m b !! Z.to_nat i = Some x →
  ks_ints (uploads l m s) b i = x.
Proof.
  induction l as [|[b' n'] l IH]; intros s Hnd Hb Hi Hx; [by apply elem_of_nil in Hb|]. apply NoDup_cons in Hnd as [Hn Hnd].
  change (uploads ((b', n') :: l) m s) with (uploads l m (kernel_copy b' (take (Z.to_nat n') (mirror_of m b')) s)). apply elem_of_cons in Hb as [[= -> ->]|Hb]; [|by apply IH].
  rewrite uploads_other by done. apply copy_here; [lia|]. rewrite lookup_take_lt by lia. done.
Qed.

Lemma uploaded_ints rows m s b n i x : (b, n) ∈ UploadDecodeInputs o rows → 0 <= i < n → mirror_of m b !! Z.to_nat i = Some x →
  ks_ints (uploaded rows m s) b i = x.
Proof. apply uploads_ints. apply (bool_decide_eq_true_1 _). by vm_compute. Qed.

End device.

(** ** Batches *)

Lemma take_seqZ (n : nat) m : Z.of_nat n <= m → take n (seqZ 0 m) = seqZ 0 (Z.of_nat n).
Proof.
  intros Hn. replace m with (Z.of_nat n + (m - Z.of_nat n)) by lia. rewrite seqZ_app by lia. apply take_app_length'. rewrite length_seqZ. lia.
Qed.

(** Rows of a list without duplicates: none repeats, and no two share. *)
Lemma NoDup_concat_row {X} (ls : list (list X)) i l : NoDup (concat ls) → ls !! i = Some l → NoDup l.
Proof.
  revert i. induction ls as [|a ls IH]; intros i; [done|]. cbn [concat]. rewrite NoDup_app. intros (Ha & _ & Hls).
  destruct i as [|i]; cbn; [by intros [= <-]|by apply IH].
Qed.

Lemma NoDup_concat_rows {X} (ls : list (list X)) i j a b x : NoDup (concat ls) → ls !! i = Some a → ls !! j = Some b → x ∈ a → x ∈ b → i = j.
Proof.
  revert i j. induction ls as [|l ls IH]; intros i j; [done|]. cbn [concat]. rewrite NoDup_app. intros (_ & Hd & Hls).
  assert (∀ k r, ls !! k = Some r → x ∈ r → x ∈ concat ls) as Hin.
  { intros k r Hk Hx. apply list_elem_of_In, in_concat. exists r. split; apply list_elem_of_In; [by eapply list_elem_of_lookup_2|done]. }
  destruct i as [|i], j as [|j]; cbn; intros Hi Hj Ha Hb.
  - done.
  - injection Hi as <-. destruct (Hd x Ha). by eapply Hin.
  - injection Hj as <-. destruct (Hd x Hb). by eapply Hin.
  - f_equal. by eapply IH.
Qed.

Section batches.
Context (c : ModelConfig) (o : ExecutorOptions) (base : buffer → Z).
Notation mb := (max_blocks_per_seq o).
Notation kv_blocks := (num_kv_blocks_ c o).

(** Rows the executor accepts, and no block in two places. *)
Definition batch_ok (batch : list Request) : Prop :=
  Forall (λ q, ∃ tok, ExecutorMirrors.row_ok c o kv_blocks q tok) batch ∧ NoDup (concat (map (λ q, blocks_ (block_table q)) batch)).

(** The block of a position, and the cached element there. *)
Definition block_of (q : Request) (p : Z) : Z := table_entry q (Z.to_nat (p / 16)).
Definition history (s : KState) (q : Request) (layer kv h p d : Z) : Z :=
  cell base s (BPool layer) (pool_addr (num_kv_heads c) 128 (block_of q p) kv h (p mod 16) d).

Section batch.
Context (Hmg : mirror_geometry o) (batch : list Request) (Hb : batch_ok batch) (rows : Z) (Hrows : zlen batch <= rows <= x_max_batch o).
Context (m : Mirrors) (s : KState).
Notation up := (uploaded o rows (decode_mirrors o batch rows m) s).

Lemma in_table q i p : batch !! i = Some q → 0 <= p < seq_len q →
  blocks_ (block_table q) !! Z.to_nat (p / 16) = Some (block_of q p) ∧ 1 <= block_of q p < kv_blocks ∧ 0 <= p / 16 < mb.
Proof using Hb.
  intros Hq Hp. destruct Hb as [Hok _]. destruct (proj1 (Forall_lookup _ _) Hok i q Hq) as [tok [_ _ Hl Hcov Hw Hv]].
  pose proof (BlocksForTokens_spec (seq_len q) ltac:(lia)). pose proof (BlocksForTokens_div (seq_len q) ltac:(lia)).
  unfold zlen, mbps in *. assert (0 <= p / 16 < BlocksForTokens (seq_len q)) by (Z.div_mod_to_equations; lia).
  destruct (lookup_lt_is_Some_2 (blocks_ (block_table q)) (Z.to_nat (p / 16)) ltac:(lia)) as [b Hbk].
  unfold block_of, table_entry. rewrite Hbk. split; [done|]. split; [|lia].
  exact (proj1 (Forall_lookup _ _) Hv _ _ Hbk).
Qed.

(** A row's arrays after the upload. *)
Lemma live_ints q i : batch !! i = Some q → let t := Z.of_nat i in
  0 <= t < rows ∧ Some (ks_ints up BInputIds t) = back (output_tokens q) ∧ ks_ints up BPositions t = seq_len q - 1 ∧
  ks_ints up BSeqLens t = seq_len q ∧ ∀ j, 0 <= j < mb → ks_ints up BBlockTables (t * mb + j) = table_entry q (Z.to_nat j).
Proof using Hb Hrows Hmg.
  intros Hq t. destruct Hb as [Hok _]. pose proof (decode_mirrors_live c o kv_blocks batch rows m i q Hok Hq) as (L1 & L2 & L3 & L4).
  apply lookup_lt_Some in Hq as Hi. assert (0 <= t < rows) as Ht by (unfold t, zlen in *; lia). split; [done|].
  assert (Z.to_nat t = i) as Hti by (unfold t; lia). rewrite <- Hti in L1, L2, L3. unfold UploadDecodeInputs.
  destruct (proj1 (Forall_lookup _ _) Hok i q Hq) as [tok Hrk]. rewrite (rk_token _ _ _ _ _ Hrk) in *.
  split_and!.
  - f_equal. apply (uploaded_ints o rows _ s BInputIds rows); [listed|done|done].
  - apply (uploaded_ints o rows _ s BPositions rows); [listed|done|done].
  - apply (uploaded_ints o rows _ s BSeqLens rows); [listed|done|done].
  - intros j Hj. apply (uploaded_ints o rows _ s BBlockTables (rows * mb)); [listed|nia|].
    specialize (L4 (Z.to_nat j)). unfold mbps in L4. cbn [mirror_of]. rewrite <- L4 by lia. f_equal. rewrite Z2Nat.inj_add, Z2Nat.inj_mul by nia. by rewrite Hti.
Qed.

Lemma padded_ints t : zlen batch <= t < rows →
  ks_ints up BPositions t = 0 ∧ ∀ j, 0 <= j < mb → ks_ints up BBlockTables (t * mb + j) = 0.
Proof using Hb Hrows Hmg.
  intros Ht. destruct Hb as [Hok _]. pose proof (zlen_nonneg batch).
  pose proof (decode_mirrors_padded c o kv_blocks batch rows m (Z.to_nat t) ltac:(apply Hmg) Hok ltac:(lia)) as (_ & L2 & _ & L4).
  unfold UploadDecodeInputs. split.
  - apply (uploaded_ints o rows _ s BPositions rows); [listed|lia|done].
  - intros j Hj. apply (uploaded_ints o rows _ s BBlockTables (rows * mb)); [listed|nia|].
    specialize (L4 (Z.to_nat j)). unfold mbps in L4. cbn [mirror_of]. etransitivity; [|apply L4; lia]. f_equal. rewrite Z2Nat.inj_add, Z2Nat.inj_mul by nia. done.
Qed.

Lemma block_at_of q i p : batch !! i = Some q → 0 <= p < seq_len q → block_at o up (Z.of_nat i) p = block_of q p.
Proof using Hb Hrows Hmg.
  intros Hq Hp. destruct (live_ints q i Hq) as (_ & _ & _ & _ & Ht). destruct (in_table q i p Hq Hp) as (_ & _ & Hj).
  unfold block_at. by rewrite Ht.
Qed.

(** The arrays of a batch promise every live row what the kernels need. *)
Lemma uploaded_row_ok q i : batch !! i = Some q → KernelDecode.row_ok o kv_blocks rows (Z.of_nat i) up.
Proof using Hb Hrows Hmg.
  intros Hq. destruct (live_ints q i Hq) as (Hi & _ & Hpos & Hlen & Htab). destruct Hb as [Hok Hnd].
  destruct (proj1 (Forall_lookup _ _) Hok i q Hq) as [tok [_ _ Hsl _ _ _]].
  destruct (in_table q i 0 Hq ltac:(lia)) as (_ & Hkb & Hmb).
  assert (∀ q' j p, batch !! j = Some q' → 0 <= p < seq_len q' → p < mb * 16) as Hfit.
  { intros q' j p Hq' Hp. destruct (in_table q' j p Hq' Hp) as (_ & _ & ?). Z.div_mod_to_equations. lia. }
  assert (∀ t, 0 <= t < rows → zlen batch <= t ∨ ∃ q' j, t = Z.of_nat j ∧ batch !! j = Some q' ∧ 1 <= seq_len q') as Hcase.
  { intros t Ht. destruct (Z.lt_ge_cases t (zlen batch)) as [Hlt|]; [right|by left]. unfold zlen in Hlt.
    destruct (lookup_lt_is_Some_2 batch (Z.to_nat t) ltac:(lia)) as [q' Hq']. exists q', (Z.to_nat t). split; [lia|]. split; [done|].
    by destruct (proj1 (Forall_lookup _ _) Hok _ q' Hq') as [? [_ _ [? _] _ _ _]]. }
  split.
  - done.
  - intros t Ht. destruct (Hcase t Ht) as [Hge|(q' & j & -> & Hq' & Hl)].
    + destruct (padded_ints t ltac:(lia)) as [-> _]. lia.
    + destruct (live_ints q' j Hq') as (_ & _ & -> & _). pose proof (Hfit q' j (seq_len q' - 1) Hq' ltac:(lia)). lia.
  - intros t j Ht Hj. destruct (Hcase t Ht) as [Hge|(q' & k & -> & Hq' & Hl)].
    + destruct (padded_ints t ltac:(lia)) as [_ ->]; lia.
    + destruct (live_ints q' k Hq') as (_ & _ & _ & _ & ->); [|done]. unfold table_entry.
      destruct (proj1 (Forall_lookup _ _) Hok _ q' Hq') as [? [_ _ _ _ _ Hv]].
      destruct (blocks_ (block_table q') !! Z.to_nat j) as [b|] eqn:Hbk; cbn; [|unfold kDummyBlockId; lia].
      pose proof (proj1 (Forall_lookup _ _) Hv _ _ Hbk) as Hr. cbn in Hr. lia.
  - rewrite Hpos, Hlen. lia.
  - rewrite Hpos. intros p p' Hp Hp'. rewrite !(block_at_of q i) by (done || lia). intros Heq.
    destruct (in_table q i p Hq ltac:(lia)) as (E1 & _ & ?), (in_table q i p' Hq ltac:(lia)) as (E2 & _ & ?). rewrite <- Heq in E2.
    assert (NoDup (blocks_ (block_table q))) as Hq1.
    { apply (NoDup_concat_row _ i _ Hnd). by rewrite list_lookup_fmap, Hq. }
    pose proof (NoDup_lookup _ _ _ _ Hq1 E1 E2). lia.
  - rewrite Hpos. intros t p Ht Hne Hp. rewrite (block_at_of q i p) by (done || lia). destruct (in_table q i p Hq ltac:(lia)) as (E1 & Hr & _).
    destruct (Hcase t Ht) as [Hge|(q' & j & -> & Hq' & Hl)].
    + destruct (padded_ints t ltac:(lia)) as [-> E]. unfold block_at. rewrite E by (change (0 / 16) with 0; lia). lia.
    + destruct (live_ints q' j Hq') as (_ & _ & -> & _). rewrite (block_at_of q' j) by (done || lia). intros Heq.
      destruct (in_table q' j (seq_len q' - 1) Hq' ltac:(lia)) as (E2 & _). rewrite Heq in E2. apply Hne. f_equal.
      apply (NoDup_concat_rows (map (λ q, blocks_ (block_table q)) batch) j i (blocks_ (block_table q')) (blocks_ (block_table q)) (block_of q p));
        [done|by rewrite list_lookup_fmap, Hq'|by rewrite list_lookup_fmap, Hq|by eapply list_elem_of_lookup_2|by eapply list_elem_of_lookup_2].
Qed.

End batch.

End batches.

(** ** Two steps *)

(** What may differ between two executors: the vendor library, when copies run,
    the hardware's schedules, the memory after construction, and whether a step
    replays a graph. *)
Record site (Algo : Type) : Type := mkSite {
  si_lt : LtLibrary Algo;
  si_dma : nat → nat;
  si_cuda : nat → bool;
  si_env : nat → KernelEnv;
  si_initial : KState;
  si_graph : bool;
}.
Arguments mkSite {Algo}.
Arguments si_lt {Algo}.
Arguments si_dma {Algo}.
Arguments si_cuda {Algo}.
Arguments si_env {Algo}.
Arguments si_initial {Algo}.
Arguments si_graph {Algo}.

Section isolated.
Context (expf_lib rsqrtf_lib : float32 → float32) (pow_lib : float32 → float32 → float32) (sincosf_lib : float32 → float32 * float32).
#[local] Instance isolated_ops : FloatOps float32 Z := ieee expf_lib rsqrtf_lib pow_lib sincosf_lib.
Context (c : ModelConfig) (o : ExecutorOptions) (base : buffer → Z) (eps theta scale : float32) (pr : Products).
Context (NDEBUG : bool) (compute_major : Z).
Context {Algo : Type}.
Notation krun env := (kernel_run expf_lib rsqrtf_lib pow_lib sincosf_lib base eps theta scale pr NDEBUG compute_major env).
Notation dev x := (kernel_device expf_lib rsqrtf_lib pow_lib sincosf_lib o base eps theta scale pr NDEBUG compute_major (si_env x) (si_initial x)).
Notation kv_blocks := (num_kv_blocks_ c o).
Notation Executor := (Executor Algo (option KState)).

(** A working device. *)
Definition site_ok (x : site Algo) : Prop :=
  lt_serves (si_lt x) kDefaultWorkspaceBytes ∧ (∀ n, si_cuda x n = true) ∧ ∀ k, env_ok (si_env x k).

Definition Decode (x : site Algo) (batch : list Request) : M error Executor DecodeOutput :=
  if si_graph x then DecodeGraph c o (dev x) (si_dma x) (si_cuda x) batch
  else DecodeEager c o (si_lt x) (dev x) (si_dma x) (si_cuda x) batch.

(** The row count a step runs at. *)
Definition decode_shape (x : site Algo) (batch : list Request) : Z :=
  if si_graph x then Scheduler.SelectBucket (zlen batch) (buckets o) else decode_rows o (zlen batch) 0.

(** An executor between steps, its device holding [k], and a batch for it. *)
Record ready (x : site Algo) (batch : list Request) (s : Executor) (k : KState) : Prop := {
  rd_idle : idle o s;
  rd_device : x_dev s = Some k;
  rd_rope : Rope.cache_ok (ks_rope k);
  rd_some : batch ≠ [];
  rd_fits : zlen batch <= x_max_batch o;
  rd_batch : batch_ok c o batch;
  rd_graphs : si_graph x = true → captured c o s ∧ 1 <= Scheduler.SelectBucket (zlen batch) (buckets o);
}.

Context (Hg : geometry_ok c o) (Hmg : mirror_geometry o).

Lemma shape_range x batch s k : ready x batch s k → zlen batch <= decode_shape x batch <= x_max_batch o.
Proof using Hmg.
  intros [_ _ _ Hne Hn _ Hgr]. destruct Hmg as [_ Hb]. unfold decode_shape. pose proof (zlen_nonneg batch). destruct (si_graph x).
  - destruct (Hgr eq_refl) as [_ H1]. pose proof (SelectBucket_range o Hb (zlen batch)) as Hr. cbv zeta in Hr. lia.
  - apply decode_rows_range; lia.
Qed.

(** A step on the kernel device returns what the kernels left. *)
Lemma decode_runs x batch s k k' : site_ok x → ready x batch s k →
  krun (si_env x) (decode_step_launches c o (decode_shape x batch)) (uploaded o (decode_shape x batch) (decode_mirrors o batch (decode_shape x batch) (x_mirrors s)) k) = Some k' →
  ∃ out s', Decode x batch s = (Ok out, s') ∧ idle o s' ∧ x_dev s' = Some k' ∧
    tokens out = map (ks_ints k' BArgmax) (seqZ 0 (zlen batch)).
Proof using Hg Hmg.
  intros (Hlt & Hcuda & He) Hr Hk. pose proof (shape_range _ _ _ _ Hr) as Hrows. destruct Hr as [Hi Hd _ Hne Hn [Hok _] Hgr].
  assert (wp (Decode x batch) (λ out s', ∃ bkt, decode_result c o (dev x) batch (decode_shape x batch) bkt s out s') s) as Hwp.
  { unfold Decode, decode_shape in *. destruct (si_graph x).
    - destruct (Hgr eq_refl) as [Hcap H1]. apply (wp_DecodeGraph c o (si_lt x)); try done. intros out s' Hres. by eexists.
    - apply wp_DecodeEager; try done. intros out s' rows Hres. by eexists. }
  apply wp_run in Hwp as (out & s' & Heq & bkt & Hout & Hi' & _ & Hmd). rewrite Hd in *.
  rewrite (run_decode_work _ _ _ _ c o base eps theta scale pr NDEBUG compute_major (si_env x) (si_initial x) _ _ _ _ Hk) in Hout, Hmd.
  exists out, s'. split; [done|]. split; [done|]. split; [by injection Hmd|]. subst out. cbn [tokens fst set_argmax h_argmax].
  set (f := ks_ints k' BArgmax). unfold zlen in *. rewrite firstn_map, take_seqZ by lia. unfold over. rewrite take_app_le by (rewrite length_map, length_seqZ; lia).
  rewrite firstn_map, take_seqZ by lia. done.
Qed.

(** Agreement on the weights, and on the first [n] cached positions of two
    requests. *)
Definition same_weights (k1 k2 : KState) : Prop :=
  ∀ b i, weight_buffer c b = true → 0 <= i < capacity c o kv_blocks b → cell base k1 b i = cell base k2 b i.
Definition same_history (k1 : KState) (q1 : Request) (k2 : KState) (q2 : Request) (n : Z) : Prop :=
  ∀ layer kv h p d, 0 <= layer < num_layers c → 0 <= kv < 2 → 0 <= h < num_kv_heads c → 0 <= p < n → 0 <= d < 128 →
    history c base k1 q1 layer kv h p d = history c base k2 q2 layer kv h p d.

(** The cache of a row is the cache of its request. *)
Lemma cached_history batch rows m k k' (i : nat) q layer kv h p d :
  batch_ok c o batch → zlen batch <= rows <= x_max_batch o → batch !! i = Some q → 0 <= p < seq_len q →
  kept (uploaded o rows (decode_mirrors o batch rows m) k) k' →
  cached c o base k' layer (Z.of_nat i) kv h p d = history c base k' q layer kv h p d.
Proof using Hmg.
  intros Hb Hr Hq Hp Hk. unfold cached, history. f_equal. f_equal. unfold block_at. rewrite Hk by done.
  exact (block_at_of c o Hmg batch Hb rows Hr m k q i p Hq Hp).
Qed.

Lemma decode_pair x1 x2 batch1 batch2 (i : nat) q1 q2 s1 s2 k1 k2 :
  layout_ok c o kv_blocks base → shapes_ok expf_lib rsqrtf_lib pow_lib sincosf_lib c o kv_blocks theta → products_local pr →
  site_ok x1 → site_ok x2 → ready x1 batch1 s1 k1 → ready x2 batch2 s2 k2 →
  decode_shape x1 batch1 = decode_shape x2 batch2 → batch1 !! i = Some q1 → batch2 !! i = Some q2 →
  back (output_tokens q1) = back (output_tokens q2) → seq_len q1 = seq_len q2 →
  same_weights k1 k2 → same_history k1 q1 k2 q2 (seq_len q1 - 1) →
  ∃ tok out1 s1' k1' out2 s2' k2',
    Decode x1 batch1 s1 = (Ok out1, s1') ∧ Decode x2 batch2 s2 = (Ok out2, s2') ∧
    tokens out1 !! i = Some tok ∧ tokens out2 !! i = Some tok ∧ 0 <= tok < vocab_size c ∧
    (idle o s1' ∧ x_dev s1' = Some k1' ∧ Rope.cache_ok (ks_rope k1')) ∧
    (idle o s2' ∧ x_dev s2' = Some k2' ∧ Rope.cache_ok (ks_rope k2')) ∧
    same_weights k1' k2' ∧ same_history k1' q1 k2' q2 (seq_len q1).
Proof using Hg Hmg.
  intros HL Hsh Hpr Hx1 Hx2 Hr1 Hr2 Hshape Hq1 Hq2 Htok Hlen Hw Hh.
  pose proof (shape_range _ _ _ _ Hr1) as R1. pose proof (shape_range _ _ _ _ Hr2) as R2. rewrite <- Hshape in R2.
  set (rows := decode_shape x1 batch1) in *. set (u1 := uploaded o rows (decode_mirrors o batch1 rows (x_mirrors s1)) k1).
  set (u2 := uploaded o rows (decode_mirrors o batch2 rows (x_mirrors s2)) k2). pose proof (rd_batch _ _ _ _ Hr1) as B1. pose proof (rd_batch _ _ _ _ Hr2) as B2.
  destruct (live_ints c o Hmg batch1 B1 rows R1 (x_mirrors s1) k1 q1 i Hq1) as (Hi1 & T1 & P1 & _).
  destruct (live_ints c o Hmg batch2 B2 rows R2 (x_mirrors s2) k2 q2 i Hq2) as (Hi2 & T2 & P2 & _). fold u1 in T1, P1. fold u2 in T2, P2.
  destruct (proj1 (Forall_lookup _ _) (proj1 B1) i q1 Hq1) as [t0 [Ht0 Hv0 _ _ _ _]].
  assert (decode_paired expf_lib rsqrtf_lib pow_lib sincosf_lib c o kv_blocks base rows (Z.of_nat i) (seq_len q1 - 1) [] 0 u1 u2) as Hp.
  { split.
    - split; [|done]. by apply (uploaded_row_ok c o Hmg batch1 B1 rows R1 (x_mirrors s1) k1 q1).
    - split; [|congruence]. by apply (uploaded_row_ok c o Hmg batch2 B2 rows R2 (x_mirrors s2) k2 q2).
    - exact (rd_rope _ _ _ _ Hr1).
    - exact (rd_rope _ _ _ _ Hr2).
    - intros r ->. rewrite Ht0 in T1. rewrite <- Htok, Ht0 in T2. split; congruence.
    - intros r ->. congruence.
    - exact Hw.
    - by intros b r j Hb%elem_of_nil.
    - intros layer kv h p d Hl Hkv Hhh Hpp Hlt Hd.
      rewrite (cached_history batch1 rows (x_mirrors s1) k1 u1 i q1), (cached_history batch2 rows (x_mirrors s2) k2 u2 i q2) by (done || lia).
      apply Hh; (done || lia). }
  destruct (step_isolated expf_lib rsqrtf_lib pow_lib sincosf_lib c o kv_blocks base eps theta scale pr NDEBUG compute_major HL Hsh Hpr rows (Z.of_nat i) (seq_len q1 - 1)
    ltac:(lia) ltac:(lia) (si_env x1) (si_env x2) u1 u2 (proj2 (proj2 Hx1)) (proj2 (proj2 Hx2)) Hp) as (k1' & k2' & tok & E1 & E2 & Hp' & A1 & A2 & Hv & K1 & K2).
  destruct (decode_runs x1 batch1 s1 k1 k1' Hx1 Hr1 E1) as (out1 & s1' & D1 & I1 & M1 & O1).
  destruct (decode_runs x2 batch2 s2 k2 k2' Hx2 Hr2) as (out2 & s2' & D2 & I2 & M2 & O2); [rewrite <- Hshape; exact E2|].
  apply lookup_lt_Some in Hq1 as L1. apply lookup_lt_Some in Hq2 as L2.
  exists tok, out1, s1', k1', out2, s2', k2'. rewrite O1, O2, !list_lookup_fmap, !lookup_seqZ_lt by (unfold zlen; lia). cbn [fmap option_fmap option_map].
  rewrite !Z.add_0_l, A1, A2. split_and!; try done; try lia.
  - exact (pd_rope1 Hp').
  - exact (pd_rope2 Hp').
  - exact (pd_weights Hp').
  - intros layer kv h p d Hl Hkv Hhh Hpp Hd.
    rewrite <- (cached_history batch1 rows (x_mirrors s1) k1 k1' i q1), <- (cached_history batch2 rows (x_mirrors s2) k2 k2' i q2) by (done || lia).
    apply (pd_cached Hp'); try done; rewrite ?K1, ?P1 by done; lia.
Qed.

(** C4. What a sequence decodes does not depend on its company.  Two executors,
    two batches run at the same row count, two requests in the same row of
    them with the same last token and length, whose cached keys and values agree
    position by position wherever their blocks lie: on the same weights both
    decode calls succeed and return the same token for the two requests, and
    leave the same keys and values at the new position.  The other rows, the
    padding, what the buffers and the unused slots of the pool held (a NaN
    included), graph replay or eager launches, when the copies run, and every
    schedule of the kernels' blocks and threads do not show. *)
Theorem decode_isolated x1 x2 batch1 batch2 (i : nat) q1 q2 s1 s2 k1 k2 :
  layout_ok c o kv_blocks base → shapes_ok expf_lib rsqrtf_lib pow_lib sincosf_lib c o kv_blocks theta → products_local pr →
  site_ok x1 → site_ok x2 → ready x1 batch1 s1 k1 → ready x2 batch2 s2 k2 →
  decode_shape x1 batch1 = decode_shape x2 batch2 → batch1 !! i = Some q1 → batch2 !! i = Some q2 →
  back (output_tokens q1) = back (output_tokens q2) → seq_len q1 = seq_len q2 →
  same_weights k1 k2 → same_history k1 q1 k2 q2 (seq_len q1 - 1) →
  ∃ tok out1 s1' k1' out2 s2' k2',
    Decode x1 batch1 s1 = (Ok out1, s1') ∧ Decode x2 batch2 s2 = (Ok out2, s2') ∧
    tokens out1 !! i = Some tok ∧ tokens out2 !! i = Some tok ∧ 0 <= tok < vocab_size c ∧
    (idle o s1' ∧ x_dev s1' = Some k1' ∧ Rope.cache_ok (ks_rope k1')) ∧
    (idle o s2' ∧ x_dev s2' = Some k2' ∧ Rope.cache_ok (ks_rope k2')) ∧
    same_weights k1' k2' ∧ same_history k1' q1 k2' q2 (seq_len q1).
Proof using Hg Hmg. apply decode_pair. Qed.

Lemma same_weights_trans k1 k2 k3 : same_weights k1 k2 → same_weights k2 k3 → same_weights k1 k3.
Proof using. intros H1 H2 b i Hb Hi. by rewrite H1, H2. Qed.
Lemma same_weights_sym k1 k2 : same_weights k1 k2 → same_weights k2 k1.
Proof using. intros H1 b i Hb Hi. by rewrite H1. Qed.
Lemma same_history_trans k1 q1 k2 q2 k3 q3 n : same_history k1 q1 k2 q2 n → same_history k2 q2 k3 q3 n → same_history k1 q1 k3 q3 n.
Proof using. intros H1 H2 layer kv h p d Hl Hkv Hh Hp Hd. by rewrite H1, H2. Qed.
Lemma same_history_sym k1 q1 k2 q2 n : same_history k1 q1 k2 q2 n → same_history k2 q2 k1 q1 n.
Proof using. intros H1 layer kv h p d Hl Hkv Hh Hp Hd. by rewrite H1. Qed.

End isolated.

(** ** Two batches on two machines *)

(** The served checkpoint on eight blocks: a sequence of 20 tokens, alone with
    two others in an eager step, and, its blocks elsewhere, with three others in
    a replayed graph on a machine that runs everything backwards and whose
    buffers held NaNs. *)
Module IsolationExample.

Definition opts : ExecutorOptions := WorkingExample.opts.

Definition index (b : buffer) : Z :=
  match b with
  | BX => 1 | BNormed => 2 | BQkv => 3 | BAttnOut => 4 | BGateup => 5 | BMlpOut => 6 | BLogits => 7 | BScores => 8 | BProbs => 9
  | BKhat => 10 | BVhat => 11 | BInputIds => 12 | BPositions => 13 | BSeqLens => 14 | BBlockTables => 15 | BArgmax => 16
  | WEmbed | WLmHead => 17 | WFinalNorm => 18
  | BPool l => 20 + 8 * l | WInputNorm l => 21 + 8 * l | WPostNorm l => 22 + 8 * l | WQkv l => 23 + 8 * l
  | WQkvBias l => 24 + 8 * l | WO l => 25 + 8 * l | WGateup l => 26 + 8 * l | WDown l => 27 + 8 * l
  end.
Definition base (b : buffer) : Z := index b * 2 ^ 40.

Lemma buffer_index_inj b b' : half_buffer qwen25 b = true → half_buffer qwen25 b' = true → read_only b && read_only b' = false →
  index b = index b' → b = b'.
Proof.
  assert (∀ b, half_buffer qwen25 b = true → match b with
    | BPool l | WInputNorm l | WPostNorm l | WQkv l | WQkvBias l | WO l | WGateup l | WDown l => 0 <= l | _ => True end) as Hl.
  { intros x Hx. destruct x; try done; cbn in Hx; apply andb_true_iff in Hx as [Hx%Z.leb_le _]; exact Hx. }
  intros Hb%Hl Hb'%Hl. destruct b, b'; cbn; intros Hro He; try done; try lia; f_equal; lia.
Qed.

Lemma capacity_small b : capacity qwen25 opts 8 b <= 2 ^ 40.
Proof. destruct b; by vm_compute. Qed.

Lemma buffers_apart : layout_ok qwen25 opts 8 base.
Proof.
  split.
  - intros b b' Hb Hb' Hne Hro. pose proof (capacity_small b). pose proof (capacity_small b'). unfold apart, base.
    assert (index b ≠ index b') by (intros He; by apply Hne, buffer_index_inj). lia.
  - intros b Hb. unfold base. destruct b; cbn in *; try done; apply andb_true_iff in Hb as [Hb%Z.leb_le _]; lia.
Qed.

(** A product of the raw bits, found by its offset. *)
Definition at_offset {X} (c : GemmConfig) (x : Z) (f : Z → Z → Z → X) (none : X) : X :=
  match List.find (λ '(h, i, j), d_offset c h i j =? x) (ProductExample.indices c) with Some (h, i, j) => f h i j | None => none end.
Definition products : Products :=
  mkProducts (λ c a b bias x, at_offset c x
      (λ h i j, (product ProductExample.dot c a b h i j + match bias with Some f => f i | None => 0 end) mod 65536) 0)
    (λ c a b x, at_offset c x (λ h i j, binary_normalize 24 128 (product ProductExample.dot c a b h i j) 0 false) (S754_zero false)).

Lemma at_offset_found {X} c h i j f (none : X) : d_index c h i j → no_overlap c → at_offset c (d_offset c h i j) f none = f h i j.
Proof.
  intros Hd Hno. pose proof Hd as Hin. apply ProductExample.indices_elem in Hin. unfold at_offset.
  destruct (List.find _ _) as [[[h' i'] j']|] eqn:Hf.
  - apply find_some in Hf as [Hin' Heq%Z.eqb_eq]. apply list_elem_of_In, ProductExample.indices_elem in Hin'.
    by destruct (Hno _ _ _ _ _ _ Hin' Hd Heq) as (-> & -> & ->).
  - apply list_elem_of_In in Hin. pose proof (find_none _ _ Hf _ Hin) as Hn. cbn in Hn. by rewrite Z.eqb_refl in Hn.
Qed.

Lemma products_are_local : products_local products.
Proof.
  intros c a b a' b' h i j Hd Hno Hab. cbn [pr_half pr_float products].
  assert (product ProductExample.dot c a b h i j = product ProductExample.dot c a' b' h i j) as Hp.
  { unfold product. f_equal. apply map_ext_in. intros l Hl%list_elem_of_In%elem_of_seqZ. by destruct (Hab l ltac:(lia)) as [-> ->]. }
  split; [intros bias bias' Hbias|]; rewrite !at_offset_found by done; rewrite Hp; [|done].
  f_equal. f_equal. by destruct bias, bias'.
Qed.

Notation zero := (S754_zero false).
Notation lib1 := (λ x : float32, x).
Notation lib2 := (λ x _ : float32, x).
Notation lib3 := (λ x : float32, (x, x)).
#[local] Instance example_ops : FloatOps float32 Z := ieee lib1 lib1 lib2 lib3.
Definition one : float32 := binary_normalize 24 128 1 0 false.
Definition nothing : SharedStorage float32 Z := mkShared (λ _, zero) (λ _, 0x7E00) (λ _, 0x7E00) (λ _, S754_nan) (λ _, zero) (λ _, zero) (λ _, zero).

(** The hardware: schedules in order, or backwards. *)
Definition hardware (backwards : bool) : KernelEnv :=
  let order X (l : list X) := if backwards then rev l else l in
  mkKernelEnv (order _) (order _) (mkRms (order _) (λ _ _, order _) (λ _, (zero, zero)) (λ _, zero))
    (mkPaSchedule (order _) (λ _ _, order _) (λ _ _ _ _, backwards) (λ _, nothing)) (λ _, order _) (mkUpload true true (λ g, g))
    (λ _, (zero, zero)) (negb backwards) (negb backwards) backwards.

Lemma hardware_ok backwards : env_ok (hardware backwards).
Proof. split; try done; destruct backwards; cbn; try split; intros; try done; symmetry; apply Permutation_rev. Qed.

(** Weights and pools hold ones, everything else [scratch]. *)
Definition memory (scratch : Z) : KState :=
  mkKState (λ a, if 17 * 2 ^ 40 <=? a then 0x3C00 else scratch) (λ _, S754_nan) (λ _ _, scratch) (InvFreqCacheState_new (half := Z) (λ _, S754_nan)) 0%nat.

Definition machine (backwards : bool) : site Z :=
  mkSite WorkingExample.lib (λ n, if backwards then n else 0%nat) (λ _, true) (λ _, hardware backwards) (memory 0) backwards.

Definition request (id : Z) (blocks outputs prompt : list Z) : Request :=
  set_block_table (mkBlockTable blocks) (set_output_tokens outputs (new_request id prompt 10 false [])).
Definition here : Request := request 1 [3; 1] [7; 9] (seqZ 100 18).
Definition there : Request := request 5 [2; 7] [7; 9] (seqZ 100 18).
Definition few : list Request := [here; request 2 [5] [11] [40; 41]; request 3 [6] [12] [42]].
Definition many : list Request := [there; request 6 [1] [3] [5]; request 7 [4; 3] [4] (seqZ 50 16); request 8 [5] [8] [9; 9]].

Notation decode x := (Decode lib1 lib1 lib2 lib3 qwen25 opts base one one one products false 8 (machine x)).
Notation shape_of x := (decode_shape opts (machine x)).
Notation is_ready x := (ready lib1 lib1 lib2 lib3 qwen25 opts (machine x)).

Lemma shapes : shapes_ok lib1 lib1 lib2 lib3 qwen25 opts 8 one.
Proof. by split; [apply ValidateGeometry_ok; vm_compute|done|done|done|vm_compute]. Qed.

Lemma machine_ok x : site_ok (machine x).
Proof. split; [apply WorkingExample.lib_serves|]. split; [done|]. intros k. apply hardware_ok. Qed.

Ltac requests_ok := repeat constructor; eexists; (split; [reflexivity|..]); apply (bool_decide_eq_true_1 _); by vm_compute.

Lemma few_ok : batch_ok qwen25 opts few.
Proof. split; [change (num_kv_blocks_ qwen25 opts) with 8; requests_ok|apply (bool_decide_eq_true_1 _); by vm_compute]. Qed.

Lemma many_ok : batch_ok qwen25 opts many.
Proof. split; [change (num_kv_blocks_ qwen25 opts) with 8; requests_ok|apply (bool_decide_eq_true_1 _); by vm_compute]. Qed.

(** A constructed executor whose device holds [k]. *)
Lemma executor_with (x : bool) (k : KState) : ∃ s : Executor Z (option KState),
  idle opts s ∧ captured qwen25 opts s ∧ x_dev s = Some k ∧ x_dump_pending s = false ∧ x_mode s = kStridedBatched.
Proof.
  assert (∃ b, ComputeBudget qwen25 opts = Ok b ∧ derive_widths qwen25 opts b = Ok ()) as (b & Hb & Hw) by (eexists; split; [by vm_compute|by vm_compute]).
  set (dev := kernel_device lib1 lib1 lib2 lib3 opts base one one one products false 8 (si_env (machine x)) (memory 0)).
  destruct (proj1 (wp_run _ _ _) (wp_ModelExecutor_new qwen25 opts WorkingExample.lib dev (λ _, 0%nat) b Hb Hw WorkingExample.lib_serves))
    as ([] & s & _ & [Hq Hs Hc Hm] & Hmode & Hgr & Hdump).
  exists (set_stream (x_mirrors s) (Some k) [] s). split; [by split|]. split; [done|]. split; [done|]. by rewrite <- Hmode.
Qed.

Lemma ready_with (x : bool) batch k : Rope.cache_ok (ks_rope k) → batch ≠ [] → zlen batch <= 4 → batch_ok qwen25 opts batch →
  1 <= Scheduler.SelectBucket (zlen batch) (buckets opts) → ∃ s, is_ready x batch s k.
Proof. intros. destruct (executor_with x k) as (s & Hi & Hc & Hd & _). by exists s. Qed.

Lemma memory_ones scratch a : 17 * 2 ^ 40 <= a → ks_mem (memory scratch) a = 0x3C00.
Proof. intros Ha. cbn [memory ks_mem]. by destruct (Z.leb_spec (17 * 2 ^ 40) a); [|lia]. Qed.

Lemma memory_rope scratch : Rope.cache_ok (ks_rope (memory scratch)).
Proof. apply cache_new_ok, ieee_compare_laws. Qed.

Lemma weights_equal u v : same_weights qwen25 opts base (memory u) (memory v).
Proof.
  intros b i Hb Hi. unfold cell. rewrite !memory_ones; [done|..]; unfold base;
    (destruct b; cbn in Hb; try done; cbn [index]; try (apply andb_true_iff in Hb as [Hb%Z.leb_le _]); lia).
Qed.

Lemma history_ones scratch q layer kv h p d : 0 <= layer → 0 <= kv → 0 <= h → 0 <= d → 0 <= block_of q p →
  history qwen25 base (memory scratch) q layer kv h p d = 0x3C00.
Proof.
  intros Hl Hkv Hh Hd Hb. unfold history, cell. apply memory_ones. unfold base, pool_addr, PoolRowBase, kKvBlockSize. cbn [index num_kv_heads qwen25].
  pose proof (Z.mod_pos_bound p 16 ltac:(lia)). lia.
Qed.

Lemma histories_equal u v n : n <= 32 → same_history qwen25 base (memory u) here (memory v) there n.
Proof.
  intros Hn layer kv h p d Hl Hkv Hh Hp Hd.
  assert (p / 16 = 0 ∨ p / 16 = 1) as Hb by (Z.div_mod_to_equations; lia).
  rewrite !history_ones; try lia; unfold block_of; by destruct Hb as [-> | ->].
Qed.

End IsolationExample.

Lemma decode_isolated_witness :
  ∃ tok s1 out1 s1' s2 out2 s2',
    Decode (λ x, x) (λ x, x) (λ x _, x) (λ x, (x, x)) qwen25 IsolationExample.opts IsolationExample.base IsolationExample.one IsolationExample.one
      IsolationExample.one IsolationExample.products false 8 (IsolationExample.machine false) IsolationExample.few s1 = (Ok out1, s1') ∧
    Decode (λ x, x) (λ x, x) (λ x _, x) (λ x, (x, x)) qwen25 IsolationExample.opts IsolationExample.base IsolationExample.one IsolationExample.one
      IsolationExample.one IsolationExample.products false 8 (IsolationExample.machine true) IsolationExample.many s2 = (Ok out2, s2') ∧
    tokens out1 !! 0%nat = Some tok ∧ tokens out2 !! 0%nat = Some tok ∧ 0 <= tok < 151936.
Proof.
  destruct (IsolationExample.ready_with false IsolationExample.few (IsolationExample.memory 0)) as [s1 Hr1];
    [apply IsolationExample.memory_rope|done|done|apply IsolationExample.few_ok|by vm_compute|].
  destruct (IsolationExample.ready_with true IsolationExample.many (IsolationExample.memory 0x7E00)) as [s2 Hr2];
    [apply IsolationExample.memory_rope|done|done|apply IsolationExample.many_ok|by vm_compute|].
  destruct (decode_isolated (λ x, x) (λ x, x) (λ x _, x) (λ x, (x, x)) qwen25 IsolationExample.opts IsolationExample.base IsolationExample.one
    IsolationExample.one IsolationExample.one IsolationExample.products false 8 (sh_geometry _ _ _ _ _ _ _ _ IsolationExample.shapes) ltac:(by vm_compute)
    (IsolationExample.machine false) (IsolationExample.machine true) IsolationExample.few IsolationExample.many 0 IsolationExample.here
    IsolationExample.there s1 s2 (IsolationExample.memory 0) (IsolationExample.memory 0x7E00) IsolationExample.buffers_apart IsolationExample.shapes
    IsolationExample.products_are_local (IsolationExample.machine_ok false) (IsolationExample.machine_ok true) Hr1 Hr2 ltac:(by vm_compute) eq_refl eq_refl
    eq_refl eq_refl (IsolationExample.weights_equal _ _) (IsolationExample.histories_equal 0 0x7E00 19 ltac:(lia)))
    as (tok & out1 & s1' & k1' & out2 & s2' & k2' & D1 & D2 & T1 & T2 & Hv & _).
  exists tok, s1, out1, s1', s2, out2, s2'. done.
Defined.
