(* ===== verification/KernelGeneration.v ===== *)
(** * Whole generations on the kernel models

    A request's life on the executor: the chunks of its prompt, then a token a
    step.  [prefill_pair] is the counterpart of [decode_pair] for
    [PrefillChunk]; [generation_isolated] joins the two: the tokens a request
    receives are the same on any two machines, in any company. *)

From Stdlib Require Import Floats.SpecFloat.
From S2P Require Import Prelude Doubles Types ModelConfig Scheduler GemmConfig Gemm ExecutorLayout ExecutorMirrors HalfFloat KvPool DeviceMath Rope Reduce RmsNorm PagedAttention PagedAttentionTheorems Launches Executor GemmServe ExecutorInit ExecutorSteps ExecutorWarm KernelDevice KernelDecode KernelIsolation KernelPrefill KernelExecutor.

Section generations.
Context (expf_lib rsqrtf_lib : float32 → float32) (pow_lib : float32 → float32 → float32) (sincosf_lib : float32 → float32 * float32).
#[local] Instance generation_ops : FloatOps float32 Z := ieee expf_lib rsqrtf_lib pow_lib sincosf_lib.
Context (c : ModelConfig) (o : ExecutorOptions) (base : buffer → Z) (eps theta scale : float32) (pr : Products).
Context (NDEBUG : bool) (compute_major : Z).
Context {Algo : Type}.
Notation krun env := (kernel_run expf_lib rsqrtf_lib pow_lib sincosf_lib base eps theta scale pr NDEBUG compute_major env).
Notation dev x := (kernel_device expf_lib rsqrtf_lib pow_lib sincosf_lib o base eps theta scale pr NDEBUG compute_major (si_env x) (si_initial x)).
Notation kv_blocks := (num_kv_blocks_ c o).
Notation mb := (max_blocks_per_seq o).
Notation Executor := (Executor Algo (option KState)).
Notation Decode := (Decode expf_lib rsqrtf_lib pow_lib sincosf_lib c o base eps theta scale pr NDEBUG compute_major).
Notation ready := (ready expf_lib rsqrtf_lib pow_lib sincosf_lib c o).
Notation same_weights := (same_weights c o base).
Notation same_history := (same_history c base).

(** [PrefillChunk] on a machine; what the first chunk of a dump run records is
    no concern here. *)
Definition Prefill (x : site Algo) dump (q : Request) (cb ce : Z) : M error Executor PrefillOutput :=
  PrefillChunk c o (si_lt x) (dev x) (si_dma x) (si_cuda x) dump (Some q) cb ce.

(** An executor between steps, its device holding [k], and a chunk for it. *)
Record ready_chunk (x : site Algo) (q : Request) (cb ce : Z) (s : Executor) (k : KState) : Prop := {
  rc_idle : idle o s;
  rc_device : x_dev s = Some k;
  rc_rope : Rope.cache_ok (ks_rope k);
  rc_dumped : x_dump_pending s = false;
  rc_chunk : chunk_ok c o kv_blocks q cb ce;
  rc_distinct : NoDup (blocks_ (block_table q));
}.

Context (Hg : geometry_ok c o) (Hmg : mirror_geometry o).

(** ** A chunk's arrays *)

Definition uploaded_chunk (q : Request) (cb ce : Z) (m : Mirrors) (k : KState) : KState :=
  uploads (UploadPrefillInputs o (ce - cb)) (prefill_mirrors o q cb ce m) k.

Section chunk.
Context (q : Request) (cb ce : Z) (Hck : chunk_ok c o kv_blocks q cb ce) (Hnd : NoDup (blocks_ (block_table q))) (m : Mirrors) (k : KState).
Notation up := (uploaded_chunk q cb ce m k).

Lemma chunk_ints b n i v : (b, n) ∈ UploadPrefillInputs o (ce - cb) → 0 <= i < n → mirror_of (prefill_mirrors o q cb ce m) b !! Z.to_nat i = Some v →
  ks_ints up b i = v.
Proof using. apply uploads_ints. apply (bool_decide_eq_true_1 _). by vm_compute. Qed.

Lemma chunk_block p : 0 <= p < ce → blocks_ (block_table q) !! Z.to_nat (p / 16) = Some (block_of q p) ∧ 1 <= block_of q p < kv_blocks ∧
  block_at o up 0 p = block_of q p.
Proof.
  intros Hp. pose proof Hck as [(Hcb & Hce & Hlen) _ _ Hcov Hw _ Hv].
  pose proof (BlocksForTokens_div ce ltac:(lia)) as Hbk. unfold zlen, mbps in *.
  assert (0 <= p / 16 < BlocksForTokens ce) by (Z.div_mod_to_equations; lia).
  destruct (lookup_lt_is_Some_2 (blocks_ (block_table q)) (Z.to_nat (p / 16)) ltac:(lia)) as [b Hb].
  assert (block_of q p = b) as Hbo by (unfold block_of, table_entry; by rewrite Hb). rewrite Hbo. split; [done|].
  split; [exact (proj1 (Forall_lookup _ _) Hv _ _ Hb)|].
  unfold block_at. rewrite Z.mul_0_l, Z.add_0_l. apply (chunk_ints BBlockTables mb); [listed|lia|].
  cbn [mirror_of prefill_mirrors h_block_tables]. apply over_lookup. unfold table_row. by apply lookup_app_l_Some.
Qed.

Lemma chunk_row t : 0 <= t < ce - cb → ks_ints up BPositions t = cb + t ∧ prompt_tokens q !! Z.to_nat (cb + t) = Some (ks_ints up BInputIds t).
Proof.
  intros Ht. pose proof Hck as [(Hcb & Hce & Hlen) _ _ _ _ _ _]. unfold zlen in *. split.
  - apply (chunk_ints BPositions (ce - cb)); [listed|lia|]. cbn [mirror_of prefill_mirrors h_positions]. apply over_lookup.
    rewrite lookup_seqZ_lt by lia. f_equal. lia.
  - destruct (lookup_lt_is_Some_2 (prompt_tokens q) (Z.to_nat (cb + t)) ltac:(lia)) as [v Hv]. rewrite Hv. f_equal. symmetry.
    apply (chunk_ints BInputIds (ce - cb)); [listed|lia|]. cbn [mirror_of prefill_mirrors h_input_ids]. apply over_lookup. unfold chunk.
    rewrite lookup_take_lt, lookup_drop by lia. rewrite <- Hv. f_equal. lia.
Qed.

(** The arrays of a chunk promise what the kernels need. *)
Lemma uploaded_chunk_ok : chunk_inputs o kv_blocks (ce - cb) cb up.
Proof.
  pose proof Hck as [(Hcb & Hce & Hlen) _ _ _ _ _ _]. split.
  - intros t Ht. by apply chunk_row.
  - intros p Hp. destruct (chunk_block p ltac:(lia)) as (_ & Hb & ->). lia.
  - intros p p' Hp Hp'. destruct (chunk_block p ltac:(lia)) as (E1 & _ & ->), (chunk_block p' ltac:(lia)) as (E2 & _ & ->).
    intros Heq. rewrite <- Heq in E2. pose proof (NoDup_lookup _ _ _ _ Hnd E1 E2).
    assert (0 <= p / 16 ∧ 0 <= p' / 16) by (Z.div_mod_to_equations; lia). lia.
Qed.

(** The cache of the chunk's row is the cache of its request. *)
Lemma chunk_history k' layer kv h p d : 0 <= p < ce → kept up k' →
  cached c o base k' layer 0 kv h p d = history c base k' q layer kv h p d.
Proof.
  intros Hp Hk. unfold cached, history. f_equal. f_equal. destruct (chunk_block p Hp) as (_ & _ & <-). unfold block_at. by rewrite Hk.
Qed.

End chunk.

(** A chunk on the kernel device returns what the kernels left. *)
Lemma prefill_runs x dump q cb ce s k k' : site_ok x → ready_chunk x q cb ce s k →
  krun (si_env x) (chunk_launches c o (ce - cb) cb (ce =? num_prompt_tokens q) (x_mode s)) (uploaded_chunk q cb ce (x_mirrors s) k) = Some k' →
  ∃ out s', Prefill x dump q cb ce s = (Ok out, s') ∧ idle o s' ∧ x_dev s' = Some k' ∧ x_dump_pending s' = false ∧ x_mode s' = x_mode s ∧
    chunk_rows out = ce - cb ∧ final_chunk out = (ce =? num_prompt_tokens q) ∧
    first_token out = (if final_chunk out then ks_ints k' BArgmax 0 else -1).
Proof.
  intros (Hlt & Hcuda & He) [Hi Hd Hrope Hdp Hck Hnd] Hk. pose proof (go_batch _ _ Hg) as Hb.
  assert (∃ m', prefill_state c o (dev x) q cb ce s = (m', Some k')) as [m' Hst].
  { unfold prefill_state, prefill_work. rewrite Hd, foldl_app, run_copies. fold (uploaded_chunk q cb ce (x_mirrors s) k).
    unfold chunk_launches in Hk. replace (cb + (ce - cb)) with ce in Hk by lia. destruct (ce =? num_prompt_tokens q).
    - rewrite app_assoc, <- map_app, foldl_app, run_kernel_work, Hk. cbn. by eexists.
    - rewrite app_nil_r in *. rewrite run_kernel_work, Hk. by eexists. }
  assert (wp (Prefill x dump q cb ce) (λ out s', idle o s' ∧ x_dev s' = Some k' ∧ x_dump_pending s' = false ∧ x_mode s' = x_mode s ∧
    chunk_rows out = ce - cb ∧ final_chunk out = (ce =? num_prompt_tokens q) ∧
    first_token out = (if final_chunk out then ks_ints k' BArgmax 0 else -1)) s) as Hwp.
  { unfold Prefill. eapply wp_PrefillChunk; try done.
    - intros d Hx. apply (f_equal length) in Hx. cbn in Hx. rewrite length_map, length_seqZ in Hx. lia.
    - cbv zeta. rewrite Hst. intros out s' Hi' Hsame [= Hm Hd'] Hr Hf Ht. destruct Hsame as (_ & _ & Hmode & Hdump & _).
      split_and!; try done; [by rewrite Hdump|]. destruct (final_chunk out); [|done]. cbn in Ht.
      rewrite list_lookup_fmap, lookup_seqZ_lt in Ht by lia. by injection Ht. }
  apply wp_run in Hwp as (out & s' & Heq & H). by exists out, s'.
Qed.

Context (HL : layout_ok c o kv_blocks base) (Hsh : shapes_ok expf_lib rsqrtf_lib pow_lib sincosf_lib c o kv_blocks theta) (Hpr : products_local pr).

(** Two machines that ran a step and hold [k1] and [k2]. *)
Definition at_rest (s : Executor) (k : KState) : Prop := idle o s ∧ x_dev s = Some k ∧ Rope.cache_ok (ks_rope k).

(** The same chunk on two machines: the same output, the same cache. *)
Lemma prefill_pair x1 x2 dump1 dump2 q1 q2 cb ce s1 s2 k1 k2 :
  site_ok x1 → site_ok x2 → ready_chunk x1 q1 cb ce s1 k1 → ready_chunk x2 q2 cb ce s2 k2 → x_mode s1 = x_mode s2 →
  prompt_tokens q1 = prompt_tokens q2 → same_weights k1 k2 → same_history k1 q1 k2 q2 cb →
  ∃ out s1' k1' s2' k2',
    Prefill x1 dump1 q1 cb ce s1 = (Ok out, s1') ∧ Prefill x2 dump2 q2 cb ce s2 = (Ok out, s2') ∧
    final_chunk out = (ce =? num_prompt_tokens q1) ∧ (final_chunk out = true → 0 <= first_token out < vocab_size c) ∧
    at_rest s1' k1' ∧ at_rest s2' k2' ∧ x_dump_pending s1' = false ∧ x_dump_pending s2' = false ∧ x_mode s1' = x_mode s1 ∧ x_mode s2' = x_mode s2 ∧
    same_weights k1' k2' ∧ same_history k1' q1 k2' q2 ce.
Proof.
  intros Hx1 Hx2 Hr1 Hr2 Hmode Hprompt Hw Hh. pose proof Hr1 as [_ _ C1 _ K1 N1]. pose proof Hr2 as [_ _ C2 _ K2 N2].
  pose proof K1 as [(Hcb & Hce & Hlen) Hrows Hseq _ _ Hvoc _].
  assert (num_prompt_tokens q1 = num_prompt_tokens q2) as Hnum by (unfold num_prompt_tokens; by rewrite Hprompt).
  set (rows := ce - cb). set (u1 := uploaded_chunk q1 cb ce (x_mirrors s1) k1). set (u2 := uploaded_chunk q2 cb ce (x_mirrors s2) k2).
  assert (cb + rows = ce) as Hctx by (unfold rows; lia).
  assert (chunk_paired expf_lib rsqrtf_lib pow_lib sincosf_lib c o kv_blocks base rows cb [] 0 u1 u2) as Hp.
  { unfold chunk_paired. rewrite Hctx. split.
    - exact (uploaded_chunk_ok q1 cb ce K1 N1 (x_mirrors s1) k1).
    - exact (uploaded_chunk_ok q2 cb ce K2 N2 (x_mirrors s2) k2).
    - exact C1.
    - exact C2.
    - intros t Ht. destruct (chunk_row q1 cb ce K1 (x_mirrors s1) k1 t Ht) as [_ T1].
      destruct (chunk_row q2 cb ce K2 (x_mirrors s2) k2 t Ht) as [_ T2]. fold u1 in T1. fold u2 in T2. rewrite <- Hprompt, T1 in T2.
      split; [congruence|]. exact (proj1 (Forall_lookup _ _) Hvoc _ _ T1).
    - intros t Ht. destruct (chunk_row q1 cb ce K1 (x_mirrors s1) k1 t Ht) as [T1 _].
      destruct (chunk_row q2 cb ce K2 (x_mirrors s2) k2 t Ht) as [T2 _]. fold u1 in T1. fold u2 in T2. congruence.
    - exact Hw.
    - intros b r j Hb. by apply elem_of_nil in Hb.
    - intros layer kv h p d Hl Hkv Hhh Hpp Hlt Hd.
      unfold u1, u2. rewrite (chunk_history q1 cb ce K1 (x_mirrors s1) k1), (chunk_history q2 cb ce K2 (x_mirrors s2) k2) by (done || lia).
      apply Hh; (done || lia). }
  destruct (chunk_isolated expf_lib rsqrtf_lib pow_lib sincosf_lib c o kv_blocks base eps theta scale pr NDEBUG compute_major HL Hsh Hpr rows cb
    ltac:(unfold rows; lia) ltac:(lia) ltac:(lia) (ce =? num_prompt_tokens q1) (x_mode s1) (si_env x1) (si_env x2) u1 u2 (proj2 (proj2 Hx1)) (proj2 (proj2 Hx2)) Hp)
    as (k1' & k2' & E1 & E2 & Hp' & P1 & P2 & Htok).
  destruct (prefill_runs x1 dump1 q1 cb ce s1 k1 k1' Hx1 Hr1 E1) as (out1 & s1' & D1 & I1 & M1 & U1 & Mo1 & R1 & F1 & T1).
  destruct (prefill_runs x2 dump2 q2 cb ce s2 k2 k2' Hx2 Hr2) as (out2 & s2' & D2 & I2 & M2 & U2 & Mo2 & R2 & F2 & T2).
  { rewrite <- Hnum, <- Hmode. exact E2. }
  assert (out2 = out1) as ->.
  { destruct out1, out2. cbn in *. rewrite T1, T2, F1, F2, R1, R2, <- Hnum. destruct (ce =? num_prompt_tokens q1); [|done].
    by destruct (Htok eq_refl) as [-> _]. }
  exists out1, s1', k1', s2', k2'. unfold chunk_paired in Hp'. rewrite Hctx in Hp'. split_and!; try done.
  - intros Hf. rewrite T1, Hf. apply Htok. by rewrite <- F1.
  - split_and!; [done|done|]. exact (pd_rope1 Hp').
  - split_and!; [done|done|]. exact (pd_rope2 Hp').
  - exact (pd_weights Hp').
  - intros layer kv h p d Hl Hkv Hhh Hpp Hd.
    rewrite <- (chunk_history q1 cb ce K1 (x_mirrors s1) k1 k1'), <- (chunk_history q2 cb ce K2 (x_mirrors s2) k2 k2') by (done || lia).
    apply (pd_cached Hp'); (done || lia).
Qed.

(** ** A whole generation *)

(** What a machine does for a request: a chunk of its prompt, or a decode step
    with the request in row [i] of a batch run at [rows] rows. *)
Inductive event : Type :=
  | Chunk (chunk_begin chunk_end : Z) (mode : PrefillGemmMode)
  | Step (i : nat) (rows : Z).

(** The tokens a request gets, event by event, from a machine that holds its
    first [n] positions.  Between two events anything may happen that leaves
    the weights and the request's cached positions: chunks and steps of other
    sequences, uploads, preemptions of others, a move to other blocks.  The
    request then holds the token it was given, if any. *)
Inductive generation (x : site Algo) : Z → KState → Request → list event → list TokenId → Prop :=
  | generation_stops n k q : generation x n k q [] []
  | generation_chunk dump cb ce out s n k q s' k' k2 q2 events toks :
      ready_chunk x q cb ce s k → cb <= n → Prefill x dump q cb ce s = (Ok out, s') → x_dev s' = Some k' →
      let given := if final_chunk out then [first_token out] else [] in
      prompt_tokens q2 = prompt_tokens q → output_tokens q2 = output_tokens q ++ given →
      same_weights k' k2 → same_history k' q k2 q2 ce →
      generation x ce k2 q2 events toks → generation x n k q (Chunk cb ce (x_mode s) :: events) (given ++ toks)
  | generation_step batch i tok out s n k q s' k' k2 q2 events toks :
      ready x batch s k → seq_len q - 1 <= n → batch !! i = Some q →
      Decode x batch s = (Ok out, s') → tokens out !! i = Some tok → x_dev s' = Some k' →
      prompt_tokens q2 = prompt_tokens q → output_tokens q2 = output_tokens q ++ [tok] →
      same_weights k' k2 → same_history k' q k2 q2 (seq_len q) →
      generation x (seq_len q) k2 q2 events toks → generation x n k q (Step i (decode_shape o x batch) :: events) (tok :: toks).

Lemma same_history_le k1 q1 k2 q2 n n' : n' <= n → same_history k1 q1 k2 q2 n → same_history k1 q1 k2 q2 n'.
Proof. intros Hn H layer kv h p d Hl Hkv Hh Hp Hd. apply H; (done || lia). Qed.

(** Two machines that agree after an event agree before the next. *)
Lemma agree_on k1 q1 k2 q2 k1' q1' k2' q2' n :
  same_weights k1 k2 → same_history k1 q1 k2 q2 n → same_weights k1 k1' → same_history k1 q1 k1' q1' n →
  same_weights k2 k2' → same_history k2 q2 k2' q2' n → same_weights k1' k2' ∧ same_history k1' q1' k2' q2' n.
Proof.
  intros W H W1 H1 W2 H2. split.
  - eapply same_weights_trans; [apply same_weights_sym; exact W1|]. eapply same_weights_trans; [exact W|exact W2].
  - eapply same_history_trans; [apply same_history_sym; exact H1|]. eapply same_history_trans; [exact H|exact H2].
Qed.

(** C5. Batching does not change what a sequence generates.  Two machines with
    the same weights serve two requests with the same prompt by the same events:
    the same chunks in the same mode, and steps of the same row counts in the
    same rows.  Both give the same tokens, whatever else the batches hold,
    wherever the blocks lie, and whatever happens to other memory between the
    events.  At [n = 0] nothing is asked of the memory but the weights: the
    tokens of a request are a function of its prompt. *)
Theorem generation_isolated x1 x2 events n k1 k2 q1 q2 toks1 toks2 :
  site_ok x1 → site_ok x2 → prompt_tokens q1 = prompt_tokens q2 → output_tokens q1 = output_tokens q2 →
  same_weights k1 k2 → same_history k1 q1 k2 q2 n →
  generation x1 n k1 q1 events toks1 → generation x2 n k2 q2 events toks2 → toks1 = toks2.
Proof.
  intros Hx1 Hx2 Hpt Hot Hw Hh G1. revert k2 q2 toks2 Hpt Hot Hw Hh.
  induction G1 as [n k1 q1|dump1 cb ce out1 s1 n k1 q1 s1' k1' m1 q1' events toks1 Hr1 Hcb D1 M1 given1 P1 O1 W1 H1 G1 IH|
    batch1 i tok1 out1 s1 n k1 q1 s1' k1' m1 q1' events toks1 Hr1 Hn Hq1 D1 T1 M1 P1 O1 W1 H1 G1 IH];
    intros k2 q2 toks2 Hpt Hot Hw Hh G2; inversion G2 as [|dump2 ? ? out2 s2 ? ? ? s2' k2' m2 q2' ? toks2' Hr2 Hcb2 D2 M2 given2 P2 O2 W2 H2 G2'|
    batch2 ? tok2 out2 s2 ? ? ? s2' k2' m2 q2' ? toks2' Hr2 Hn2 Hq2 D2 T2 M2 P2 O2 W2 H2 G2']; subst; [done| |].
  - destruct (prefill_pair x1 x2 dump1 dump2 q1 q2 cb ce s1 s2 k1 k2) as (out & ? & ? & ? & ? & E1 & E2 & _ & _ & (_ & N1 & _) & (_ & N2 & _) &
      _ & _ & _ & _ & Hw' & Hh'); [done..|by eapply same_history_le|].
    rewrite D1 in E1. rewrite D2 in E2. simplify_eq. unfold given1. f_equal.
    destruct (agree_on _ q1 _ q2 m1 q1' m2 q2' ce Hw' Hh' W1 H1 W2 H2) as [Hw2 Hh2].
    apply (IH m2 q2'); [congruence| |done..]. rewrite O1, O2, Hot. done.
  - assert (seq_len q1 = seq_len q2) as Hlen by (unfold seq_len, num_prompt_tokens, num_output_tokens; by rewrite Hpt, Hot).
    destruct (decode_pair expf_lib rsqrtf_lib pow_lib sincosf_lib c o base eps theta scale pr NDEBUG compute_major Hg Hmg x1 x2 batch1 batch2 i q1 q2 s1 s2 k1 k2)
      as (tok & ? & ? & ? & ? & ? & ? & E1 & E2 & F1 & F2 & _ & (_ & N1 & _) & (_ & N2 & _) & Hw' & Hh'); try done; [by rewrite Hot|by eapply same_history_le|].
    rewrite D1 in E1. rewrite D2 in E2. simplify_eq. f_equal.
    destruct (agree_on _ q1 _ q2 m1 q1' m2 q2' (seq_len q1) Hw' Hh' W1 H1 W2 ltac:(by rewrite Hlen)) as [Hw2 Hh2].
    apply (IH m2 q2'); [congruence|by rewrite O1, O2, Hot|done|done|by rewrite Hlen].
Qed.

End generations.

(** ** One prompt on two machines

    A prompt of ten tokens in two chunks and a decode step, on the machines of
    [IsolationExample]: alone with two others in an eager step, and with three
    others in a replayed graph. *)
Module GenerationExample.

Import IsolationExample.
#[local] Instance example_ops : FloatOps float32 Z := ieee (λ x, x) (λ x, x) (λ x _, x) (λ x, (x, x)).

Definition prompt : list Z := seqZ 100 10.
Definition here (outputs : list Z) : Request := request 1 [3; 1] outputs prompt.
Definition there (outputs : list Z) : Request := request 5 [2; 7] outputs prompt.
Definition few (tok : Z) : list Request := here [tok] :: tail IsolationExample.few.
Definition many (tok : Z) : list Request := there [tok] :: tail IsolationExample.many.

Lemma batches_ok tok : 0 <= tok < 151936 → batch_ok qwen25 opts (few tok) ∧ batch_ok qwen25 opts (many tok).
Proof.
  intros Ht. destruct few_ok as [[_ F]%Forall_cons N], many_ok as [[_ M]%Forall_cons N'].
  assert (∀ i b, Forall (λ b, 1 <= b < 8) b → zlen b = 2 → ∃ t, ExecutorMirrors.row_ok qwen25 opts (num_kv_blocks_ qwen25 opts) (request i b [tok] prompt) t) as Hok.
  { intros i b Hb Hz. exists tok. change (num_kv_blocks_ qwen25 opts) with 8. split; cbn [block_table set_block_table request blocks_].
    - done.
    - done.
    - apply (bool_decide_eq_true_1 _). by vm_compute.
    - change (blocks_ _) with b. rewrite Hz. apply (bool_decide_eq_true_1 _). by vm_compute.
    - change (blocks_ _) with b. rewrite Hz. apply (bool_decide_eq_true_1 _). by vm_compute.
    - exact Hb. }
  split; (split; [apply Forall_cons; split; [apply Hok; [apply (bool_decide_eq_true_1 _); by vm_compute|done]|assumption]|assumption]).
Qed.

Notation is_ready_chunk site := (ready_chunk (λ x, x) (λ x, x) (λ x _, x) (λ x, (x, x)) qwen25 opts (machine site)).
Notation same_weights := (same_weights qwen25 opts base).

Lemma chunk_ready (x : bool) i b cb ce k : Rope.cache_ok (ks_rope k) → 0 <= cb < ce → ce <= 10 → ce - cb <= 8 → b = [3; 1] ∨ b = [2; 7] →
  ∃ s, is_ready_chunk x (request i b [] prompt) cb ce s k ∧ x_mode s = kStridedBatched.
Proof.
  intros Hr Hc Hce Hw Hb. destruct (executor_with x k) as (s & Hi & _ & Hd & Hdp & Hm). exists s. split; [|done].
  assert (BlocksForTokens ce <= 2) as Hbt by (rewrite BlocksForTokens_div by lia; Z.div_mod_to_equations; lia).
  assert (zlen b = 2 ∧ Forall (λ b, 1 <= b < 8) b ∧ NoDup b) as (H2 & Hv & Hn)
    by (split_and!; destruct Hb as [-> | ->]; apply (bool_decide_eq_true_1 _); by vm_compute).
  split; [done|done|done|done| |exact Hn]. change (num_kv_blocks_ qwen25 opts) with 8. split; cbn [block_table set_block_table request blocks_].
  - change (num_prompt_tokens _) with 10. change (zlen (prompt_tokens _)) with 10. lia.
  - change (x_prefill_chunk_tokens opts) with 8. lia.
  - change (x_max_seq_len opts) with 64. lia.
  - change (blocks_ _) with b. lia.
  - change (blocks_ _) with b. rewrite H2. by vm_compute.
  - apply (bool_decide_eq_true_1 _). by vm_compute.
  - exact Hv.
Qed.

Lemma history_none k1 q1 k2 q2 : same_history qwen25 base k1 q1 k2 q2 0.
Proof. intros layer kv h p d Hl Hkv Hh Hp. lia. Qed.

Definition events : list event := [Chunk 0 8 kStridedBatched; Chunk 8 10 kStridedBatched; Step 0 4].
Notation served site := (generation (λ x, x) (λ x, x) (λ x _, x) (λ x, (x, x)) qwen25 opts base one one one products false 8 (machine site)).

Lemma two_lives : ∃ toks1 toks2, served false 0 (memory 0) (here []) events toks1 ∧ served true 0 (memory 0x7E00) (there []) events toks2 ∧ zlen toks1 = 2.
Proof.
  assert (geometry_ok qwen25 opts) as Hg by apply shapes. assert (mirror_geometry opts) as Hmg by (by vm_compute).
  pose proof (prefill_pair (λ x, x) (λ x, x) (λ x _, x) (λ x, (x, x)) qwen25 opts base one one one products false 8 Hg Hmg buffers_apart shapes
    products_are_local (machine false) (machine true) (λ _ _ _ _, mret ()) (λ _ _ _ _, mret ()) (here []) (there [])) as Hpre.
  pose proof (decode_pair (λ x, x) (λ x, x) (λ x _, x) (λ x, (x, x)) qwen25 opts base one one one products false 8 Hg Hmg (machine false) (machine true)) as Hdec.
  destruct (chunk_ready false 1 [3; 1] 0 8 (memory 0)) as (s1 & C1 & M1); [apply memory_rope|lia|lia|lia|by left|].
  destruct (chunk_ready true 5 [2; 7] 0 8 (memory 0x7E00)) as (s2 & C2 & M2); [apply memory_rope|lia|lia|lia|by right|].
  destruct (Hpre 0 8 s1 s2 _ _ (machine_ok _) (machine_ok _) C1 C2 ltac:(congruence) eq_refl (weights_equal _ _) (history_none _ _ _ _))
    as (out & s1' & k1 & s2' & k2 & D1 & D2 & F & _ & (_ & X1 & R1) & (_ & X2 & R2) & _ & _ & _ & _ & W & H).
  destruct (chunk_ready false 1 [3; 1] 8 10 k1) as (t1 & C3 & M3); [done|lia|lia|lia|by left|].
  destruct (chunk_ready true 5 [2; 7] 8 10 k2) as (t2 & C4 & M4); [done|lia|lia|lia|by right|].
  destruct (Hpre 8 10 t1 t2 _ _ (machine_ok _) (machine_ok _) C3 C4 ltac:(congruence) eq_refl W H)
    as (out2 & t1' & l1 & t2' & l2 & D3 & D4 & F2 & Hv & (_ & X3 & R3) & (_ & X4 & R4) & _ & _ & _ & _ & W2 & H2).
  change (8 =? num_prompt_tokens (here [])) with false in F. change (10 =? num_prompt_tokens (here [])) with true in F2.
  specialize (Hv F2). set (tok := first_token out2) in *. destruct (batches_ok tok Hv) as [B1 B2].
  destruct (ready_with false (few tok) l1) as [u1 U1]; [done|done|by vm_compute|done|by vm_compute|].
  destruct (ready_with true (many tok) l2) as [u2 U2]; [done|done|by vm_compute|done|by vm_compute|].
  destruct (Hdec (few tok) (many tok) 0%nat (here [tok]) (there [tok]) u1 u2 _ _ buffers_apart shapes products_are_local (machine_ok _) (machine_ok _) U1 U2
    eq_refl eq_refl eq_refl eq_refl eq_refl W2 H2) as (tok2 & o1 & v1 & m1 & o2 & v2 & m2 & E1 & E2 & T1 & T2 & _ & (_ & Y1 & _) & (_ & Y2 & _) & _ & _).
  exists [tok; tok2], [tok; tok2]. unfold events. split_and!; [| |done].
  - pose proof (generation_chunk (λ x, x) (λ x, x) (λ x _, x) (λ x, (x, x)) qwen25 opts base one one one products false 8 (machine false)
      _ 0 8 out s1 0 _ _ s1' k1 k1 (here []) [Chunk 8 10 kStridedBatched; Step 0 4] [tok; tok2] C1 ltac:(lia) D1 X1) as G. rewrite F, M1 in G.
    apply G; [done|done|done|done|]. clear G.
    pose proof (generation_chunk (λ x, x) (λ x, x) (λ x _, x) (λ x, (x, x)) qwen25 opts base one one one products false 8 (machine false)
      _ 8 10 out2 t1 8 _ _ t1' l1 l1 (here [tok]) [Step 0 4] [tok2] C3 ltac:(lia) D3 X3) as G. rewrite F2, M3 in G.
    apply G; [done|done|done|done|]. clear G.
    change [Step 0 4] with [Step 0 (decode_shape opts (machine false) (few tok))].
    apply (generation_step _ _ _ _ _ _ _ _ _ _ _ _ _ _ (few tok) 0 tok2 o1 u1 10 _ (here [tok]) v1 m1 m1 (here [tok; tok2])); try done. constructor.
  - pose proof (generation_chunk (λ x, x) (λ x, x) (λ x _, x) (λ x, (x, x)) qwen25 opts base one one one products false 8 (machine true)
      _ 0 8 out s2 0 _ _ s2' k2 k2 (there []) [Chunk 8 10 kStridedBatched; Step 0 4] [tok; tok2] C2 ltac:(lia) D2 X2) as G. rewrite F, M2 in G.
    apply G; [done|done|done|done|]. clear G.
    pose proof (generation_chunk (λ x, x) (λ x, x) (λ x _, x) (λ x, (x, x)) qwen25 opts base one one one products false 8 (machine true)
      _ 8 10 out2 t2 8 _ _ t2' l2 l2 (there [tok]) [Step 0 4] [tok2] C4 ltac:(lia) D4 X4) as G. rewrite F2, M4 in G.
    apply G; [done|done|done|done|]. clear G.
    change [Step 0 4] with [Step 0 (decode_shape opts (machine true) (many tok))].
    apply (generation_step _ _ _ _ _ _ _ _ _ _ _ _ _ _ (many tok) 0 tok2 o2 u2 10 _ (there [tok]) v2 m2 m2 (there [tok; tok2])); try done. constructor.
Qed.

End GenerationExample.

Lemma generation_isolated_witness :
  let served x := generation (λ x, x) (λ x, x) (λ x _, x) (λ x, (x, x)) qwen25 IsolationExample.opts IsolationExample.base IsolationExample.one
    IsolationExample.one IsolationExample.one IsolationExample.products false 8 (IsolationExample.machine x) in
  ∃ toks, served false 0 (IsolationExample.memory 0) (GenerationExample.here []) GenerationExample.events toks ∧
    served true 0 (IsolationExample.memory 0x7E00) (GenerationExample.there []) GenerationExample.events toks ∧ zlen toks = 2.
Proof.
  cbv zeta. destruct GenerationExample.two_lives as (toks1 & toks2 & G1 & G2 & Hn).
  assert (toks1 = toks2) as Heq; [|exists toks1; split; [exact G1|split; [by rewrite Heq|exact Hn]]].
  apply (generation_isolated (λ x, x) (λ x, x) (λ x _, x) (λ x, (x, x)) qwen25 IsolationExample.opts IsolationExample.base IsolationExample.one
    IsolationExample.one IsolationExample.one IsolationExample.products false 8 (sh_geometry _ _ _ _ _ _ _ _ IsolationExample.shapes) ltac:(by vm_compute)
    IsolationExample.buffers_apart IsolationExample.shapes IsolationExample.products_are_local
    (IsolationExample.machine false) (IsolationExample.machine true) GenerationExample.events 0 (IsolationExample.memory 0) (IsolationExample.memory 0x7E00)
    (GenerationExample.here []) (GenerationExample.there []) toks1 toks2 (IsolationExample.machine_ok false) (IsolationExample.machine_ok true) eq_refl eq_refl
    (IsolationExample.weights_equal _ _) (GenerationExample.history_none _ _ _ _) G1 G2).
Defined.
