(* ===== verification/ExecutorDump.v ===== *)
(** * The layer-0 activation dump ([core/model_executor.cpp])

    [DumpLayer0Activations] replays the first layer of the chunk that has just
    run and writes four activations, the token ids and a description to files.
    The file system is a parameter: whether the directory can be made, whether a
    file opens, and what a write leaves in it.  The JSON library prints the
    description.  The theorem: the replayed launches are layer 0 of the prefill
    forward pass, in its order, and each file holds the buffer as it is when its
    stage is complete; the chunk's own result is unaffected. *)

From Stdlib Require Import Ascii.
From S2P Require Import Prelude Doubles Types ModelConfig Scheduler GemmConfig Gemm Json ExecutorLayout ExecutorMirrors Launches Executor GemmServe ExecutorInit ExecutorSteps ExecutorWarm.
#[local] Open Scope Z_scope.

Definition kDumpSchemaVersion : Z := 1.
Definition kDumpMetaFile : string := "layer0_meta.json".
Definition kDumpInputIdsFile : string := "layer0_input_ids.bin".
Definition kDumpNormedFile : string := "layer0_normed.bin".
Definition kDumpQkvFile : string := "layer0_qkv.bin".
Definition kDumpAttnOutFile : string := "layer0_attn_out.bin".
Definition kDumpMlpOutFile : string := "layer0_mlp_out.bin".

(** Little-endian bytes of 32-bit integers, and of text. *)
Definition le32 (x : Z) : list Z := map (λ i, Z.land (Z.shiftr x (8 * i)) 255) [0; 1; 2; 3].
Fixpoint bytes_of_text (s : string) : list Z :=
  match s with EmptyString => [] | String a s' => Z.of_N (N_of_ascii a) :: bytes_of_text s' end.

(** The directory's files, a later write of a name hiding an earlier one. *)
Definition files : Type := list (string * list Z).

(** [fs_write]: what an [ofstream] leaves in the file, and whether it is good. *)
Record FileSystem : Type := mkFileSystem {
  fs_create_directories : string → bool;
  fs_open : string → bool;
  fs_write : string → list Z → list Z * bool;
}.

Definition ToString (mode : PrefillGemmMode) : string :=
  match mode with kStridedBatched => "strided_batched" | kPerHead => "per_head" end.

Section dump.
Context {Algo D : Type} (c : ModelConfig) (o : ExecutorOptions).
Context (lt : LtLibrary Algo) (dev : Device D).
Context (dma : nat → nat) (cuda_ok : nat → bool).
Context (fs : FileSystem) (json_dump : json → string).
(** The bytes of a device buffer. *)
Context (dev_bytes : D → buffer → list Z).
Notation XM := (M error (Executor Algo D)).
Notation DM := (M error (Executor Algo D * files)).

Definition on_executor {A} (m : XM A) : DM A := zoom fst (λ x s, (x, snd s)) m.

Definition in_dir (file : string) : string := debug_dump_dir o +:+ "/" +:+ file.

Definition WriteDumpBytes (path : string) (data : list Z) : DM () :=
  if negb (fs_open fs path) then throw (ExecutorError "layer-0 dump: cannot open for writing") else
  let (kept, good) := fs_write fs path data in
  modify (λ s, (fst s, snd s ++ [(path, kept)]));;
  if (good : bool) then mret () else throw (ExecutorError "layer-0 dump: short write").

Definition WriteDeviceDump (path : string) (device_ptr : buffer) (bytes : Z) : DM () :=
  on_executor (CudaCheck dev dma cuda_ok "layer-0 dump D2H" id_state);;
  s ← get;
  WriteDumpBytes path (take (Z.to_nat bytes) (dev_bytes (x_dev (fst s)) device_ptr)).

Definition capture_fp16 (file : string) (buf : buffer) (elems : Z) : DM () :=
  on_executor (CudaCheck dev dma cuda_ok "layer-0 dump stage sync" (drained dev));;
  on_executor (CudaCheck dev dma cuda_ok "layer-0 dump stage launches" id_state);;
  WriteDeviceDump (in_dir file) buf (elems * 2).

(** The launches of the four stages. *)
Definition dump_stage_1 (rows : Z) : list launch :=
  [ EmbedGather (at_base BX) (hidden_size c) (at_base WEmbed) (at_base BInputIds) rows (hidden_size c);
    RmsNorm (at_base BNormed) (at_base BX) (at_base (WInputNorm 0)) rows (hidden_size c) ].
Definition dump_stage_2 (rows : Z) : list launch :=
  [ LaunchGemmBias (at_base BQkv) (qkv_width c) (at_base BNormed) (hidden_size c) (at_base (WQkv 0)) (at_base (WQkvBias 0))
      rows (qkv_width c) (hidden_size c) ].
Definition dump_stage_3 (rows chunk_start ctx : Z) (mode : PrefillGemmMode) : list launch :=
  [ RopeInplace (at_base BQkv) (shift (at_base BQkv) (k_view_offset c)) (qkv_width c) (qkv_width c) (at_base BPositions) rows
      (num_q_heads c) (num_kv_heads c) (head_dim c);
    KvScatter (at_base (BPool 0)) (shift (at_base BQkv) (k_view_offset c)) (shift (at_base BQkv) (v_view_offset c)) (qkv_width c)
      (qkv_width c) (at_base BBlockTables) 0 (at_base BPositions) rows (num_kv_heads c) (head_dim c) ] ++
  EnqueuePrefillAttention c o 0 rows chunk_start ctx mode ++
  [ LaunchGemm (at_base BMlpOut) (hidden_size c) (at_base BAttnOut) (hidden_size c) (at_base (WO 0)) rows (hidden_size c) (hidden_size c) ].
Definition dump_stage_4 (rows : Z) : list launch :=
  [ RmsNormResidual (at_base BNormed) (at_base BX) (at_base BMlpOut) (at_base (WPostNorm 0)) rows (hidden_size c);
    LaunchGemm (at_base BGateup) (gateup_width c) (at_base BNormed) (hidden_size c) (at_base (WGateup 0)) rows (gateup_width c) (hidden_size c);
    SiluMul (at_base BGateup) (at_base BGateup) rows (intermediate_size c);
    LaunchGemm (at_base BMlpOut) (hidden_size c) (at_base BGateup) (gateup_width c) (at_base (WDown 0)) rows (hidden_size c)
      (intermediate_size c) ].

Definition dump_file (file dtype : string) (shape : list Z) : json :=
  JObject [("file", JString file); ("dtype", JString dtype); ("shape", JArray (map JUnsigned shape))]%string.

Definition dump_meta (rows chunk_start ctx : Z) (mode : PrefillGemmMode) : json :=
  let hidden := hidden_size c in
  JObject
  [("schema_version", JUnsigned kDumpSchemaVersion); ("dtype", JString "float16"); ("byte_order", JString "little");
   ("rows", JUnsigned rows); ("chunk_start", JUnsigned chunk_start); ("ctx", JUnsigned ctx); ("hidden_size", JUnsigned hidden);
   ("qkv_width", JUnsigned (qkv_width c)); ("num_q_heads", JUnsigned (num_q_heads c)); ("num_kv_heads", JUnsigned (num_kv_heads c));
   ("head_dim", JUnsigned (head_dim c)); ("qkv_rope_applied", JBoolean false); ("prefill_gemm_mode", JString (ToString mode));
   ("files", JObject
     [("input_ids", dump_file kDumpInputIdsFile "int32" [rows]); ("normed", dump_file kDumpNormedFile "float16" [rows; hidden]);
      ("qkv", dump_file kDumpQkvFile "float16" [rows; qkv_width c]); ("attn_out", dump_file kDumpAttnOutFile "float16" [rows; hidden]);
      ("mlp_out", dump_file kDumpMlpOutFile "float16" [rows; hidden])])]%string.

Definition DumpLayer0Activations (rows chunk_start ctx : Z) (mode : PrefillGemmMode) : DM () :=
  let hidden := hidden_size c in
  (if fs_create_directories fs (debug_dump_dir o) then mret () else throw (ExecutorError "layer-0 dump: cannot create directory"));;
  on_executor (issue_all lt cuda_ok (dump_stage_1 rows));;
  capture_fp16 kDumpNormedFile BNormed (rows * hidden);;
  on_executor (issue_all lt cuda_ok (dump_stage_2 rows));;
  capture_fp16 kDumpQkvFile BQkv (rows * qkv_width c);;
  on_executor (issue_all lt cuda_ok (dump_stage_3 rows chunk_start ctx mode));;
  capture_fp16 kDumpAttnOutFile BMlpOut (rows * hidden);;
  on_executor (issue_all lt cuda_ok (dump_stage_4 rows));;
  capture_fp16 kDumpMlpOutFile BMlpOut (rows * hidden);;
  s ← get;
  WriteDumpBytes (in_dir kDumpInputIdsFile) (take (Z.to_nat (rows * 4)) (concat (map le32 (h_input_ids (x_mirrors (fst s))))));;
  WriteDumpBytes (in_dir kDumpMetaFile) (bytes_of_text (json_dump (dump_meta rows chunk_start ctx mode))).

(** The dump as the chunk calls it, from a file system holding [f]. *)
Definition dump_from (f : files) (rows chunk_start ctx : Z) (mode : PrefillGemmMode) : XM () := λ s,
  let '(r, (s', _)) := DumpLayer0Activations rows chunk_start ctx mode (s, f) in (r, s').

End dump.

(** ** The replay *)

(** The stages in a row are the embedding and layer 0 of the forward pass. *)
Lemma dump_replays_layer_0 c o rows chunk_start ctx mode :
  dump_stage_1 c rows ++ dump_stage_2 c rows ++ dump_stage_3 c o rows chunk_start ctx mode ++ dump_stage_4 c rows =
  embed_launch c rows :: prefill_layer c o rows chunk_start ctx mode 0.
Proof. unfold dump_stage_3, prefill_layer, attention_input, block_tail. cbn [app]. by rewrite <- !app_assoc. Qed.

(** Where the stages end, said of the launches alone: the input norm is what
    precedes the QKV projection, the projection what precedes the rotation, the
    attention output what precedes the post-attention norm. *)
Definition projects_qkv (l : launch) : bool := match l with Gemm _ _ d _ _ _ => bool_decide (p_buf d = BQkv) | _ => false end.
Definition rotates (l : launch) : bool := match l with RopeInplace _ _ _ _ _ _ _ _ _ => true | _ => false end.
Definition norms_attention (l : launch) : bool := match l with RmsNormResidual _ _ _ _ _ _ => true | _ => false end.

(** The launches before the first that satisfies [f]. *)
Fixpoint before (f : launch → bool) (ls : list launch) : list launch :=
  match ls with [] => [] | l :: ls' => if f l then [] else l :: before f ls' end.

Lemma before_app f l1 x l2 : Forall (λ l, f l = false) l1 → f x = true → before f (l1 ++ x :: l2) = l1.
Proof. intros Hl Hx. induction Hl as [|l l1 Hl _ IH]; cbn [app before]; [by rewrite Hx|]. by rewrite Hl, IH. Qed.

Definition layer_0 c o rows chunk_start ctx mode : list launch := embed_launch c rows :: prefill_layer c o rows chunk_start ctx mode 0.

Lemma attention_norms_nothing c o rows cs ctx mode :
  Forall (λ l, norms_attention l = false) (EnqueuePrefillAttention c o 0 rows cs ctx mode).
Proof.
  unfold EnqueuePrefillAttention, per_mode. destruct mode; rewrite !Forall_app, !Forall_map;
    (split; [by repeat constructor|]); (split; [by apply Forall_true|]); (split; [by repeat constructor|by apply Forall_true]).
Qed.

Lemma dump_stages_end c o rows cs ctx mode :
  dump_stage_1 c rows = before projects_qkv (layer_0 c o rows cs ctx mode) ∧
  dump_stage_1 c rows ++ dump_stage_2 c rows = before rotates (layer_0 c o rows cs ctx mode) ∧
  dump_stage_1 c rows ++ dump_stage_2 c rows ++ dump_stage_3 c o rows cs ctx mode = before norms_attention (layer_0 c o rows cs ctx mode).
Proof.
  split; [reflexivity|]. split; [reflexivity|]. unfold layer_0. rewrite <- dump_replays_layer_0.
  change (dump_stage_4 c rows) with (RmsNormResidual (at_base BNormed) (at_base BX) (at_base BMlpOut) (at_base (WPostNorm 0)) rows (hidden_size c)
    :: tail (dump_stage_4 c rows)).
  rewrite !app_assoc. symmetry. apply before_app; [|done]. rewrite <- !app_assoc. unfold dump_stage_3. rewrite !Forall_app.
  split; [by repeat constructor|]. split; [by repeat constructor|]. split; [by repeat constructor|].
  split; [apply attention_norms_nothing|by repeat constructor].
Qed.

Record fs_works (fs : FileSystem) : Prop := {
  fw_create path : fs_create_directories fs path = true;
  fw_open path : fs_open fs path = true;
  fw_write path data : fs_write fs path data = (data, true);
}.

Section replay.
Context {Algo D : Type} (c : ModelConfig) (o : ExecutorOptions).
Context (lt : LtLibrary Algo) (dev : Device D).
Context (dma : nat → nat) (cuda_ok : nat → bool).
Context (fs : FileSystem) (json_dump : json → string) (dev_bytes : D → buffer → list Z).
Context (Hg : geometry_ok c o) (Hcuda : ∀ n, cuda_ok n = true) (Hlt : lt_serves lt kDefaultWorkspaceBytes) (Hfs : fs_works fs).
Notation Executor := (Executor Algo D).
Notation run := (foldl (run_work dev)).

(** The device after a list of launches. *)
Definition launched (ls : list launch) (d : D) : D := foldl (λ d l, dev_exec dev l d) d ls.

Lemma run_kernels ls : ∀ md, run md (map Kernel ls) = (md.1, launched ls md.2).
Proof. induction ls as [|l ls IH]; intros [m d]; [done|]. cbn. by rewrite IH. Qed.

Lemma launched_app l1 l2 d : launched (l1 ++ l2) d = launched l2 (launched l1 d).
Proof. apply foldl_app. Qed.

(** The files of a dump that starts on device state [d]: each activation as the
    launches of layer 0 before the next stage leave it. *)
Definition dumped (rows chunk_start ctx : Z) (mode : PrefillGemmMode) (ids : list Z) (d : D) : files :=
  let layer := layer_0 c o rows chunk_start ctx mode in
  let part n ls b := take (Z.to_nat (rows * n * 2)) (dev_bytes (launched ls d) b) in
  [(in_dir o kDumpNormedFile, part (hidden_size c) (before projects_qkv layer) BNormed);
   (in_dir o kDumpQkvFile, part (qkv_width c) (before rotates layer) BQkv);
   (in_dir o kDumpAttnOutFile, part (hidden_size c) (before norms_attention layer) BMlpOut);
   (in_dir o kDumpMlpOutFile, part (hidden_size c) layer BMlpOut);
   (in_dir o kDumpInputIdsFile, take (Z.to_nat (rows * 4)) (concat (map le32 ids)));
   (in_dir o kDumpMetaFile, bytes_of_text (json_dump (dump_meta c rows chunk_start ctx mode)))].

Lemma wp_on_executor {A} (m : M error Executor A) s f (Q : A → Executor * files → Prop) :
  wp m (λ a x, Q a (x, f)) s → wp (on_executor m) Q (s, f).
Proof. intros Hm. unfold on_executor. by apply wp_zoom. Qed.

Lemma quiet_check s0 md s what (Q : () → Executor → Prop) :
  midstep dev s0 md s → quiet s → (∀ s', midstep dev s0 md s' → quiet s' → Q () s') →
  wp (CudaCheck dev dma cuda_ok what id_state) Q s.
Proof using Hcuda.
  intros Hs Hq HQ. unfold CudaCheck. wp_step. apply (wp_cuda_status dev dma cuda_ok Hcuda). intros s' H1 _ _ _ _ H2. wp_auto. apply HQ; auto.
Qed.

Lemma wp_WriteDumpBytes path data s f (Q : () → Executor * files → Prop) :
  Q () (s, f ++ [(path, data)]) → wp (WriteDumpBytes fs path data) Q (s, f).
Proof using Hfs.
  intros HQ. unfold WriteDumpBytes. rewrite (fw_open _ Hfs), (fw_write _ Hfs). cbn [negb]. wp_auto. exact HQ.
Qed.

Lemma wp_capture_fp16 s0 md s f file b elems (Q : () → Executor * files → Prop) :
  midstep dev s0 md s →
  (∀ s', midstep dev s0 md s' → quiet s' → Q () (s', f ++ [(in_dir o file, take (Z.to_nat (elems * 2)) (dev_bytes md.2 b))])) →
  wp (capture_fp16 o dev dma cuda_ok fs dev_bytes file b elems) Q (s, f).
Proof using Hcuda Hfs.
  intros Hs HQ. unfold capture_fp16, WriteDeviceDump. wp_step. apply wp_on_executor.
  eapply (midstep_CudaCheck dev dma cuda_ok Hcuda); [exact Hs|]. intros s1 H1. destruct (midstep_drained dev _ _ _ H1) as [H1' Hq1].
  wp_step. apply wp_on_executor. eapply quiet_check; [exact H1'|exact Hq1|]. intros s2 H2 Hq2.
  wp_step. apply wp_on_executor. eapply quiet_check; [exact H2|exact Hq2|]. intros s3 H3 Hq3.
  wp_auto. apply wp_WriteDumpBytes. cbn [fst]. pose proof (quiet_state dev _ _ _ H3 Hq3) as <-. by apply HQ.
Qed.

(** One stage: its launches, then the capture of [b]. *)
Lemma wp_stage {A} s0 md s f ls file b elems (k : () → M error (Executor * files) A) (Q : A → Executor * files → Prop) :
  midstep dev s0 md s → Forall launch_ok ls →
  (∀ s', midstep dev s0 (md.1, launched ls md.2) s' → quiet s' →
    wp (k ()) Q (s', f ++ [(in_dir o file, take (Z.to_nat (elems * 2)) (dev_bytes (launched ls md.2) b))])) →
  wp (on_executor (issue_all lt cuda_ok ls);; x ← capture_fp16 o dev dma cuda_ok fs dev_bytes file b elems; k x) Q (s, f).
Proof using Hcuda Hlt Hfs.
  intros Hs Hok HQ. wp_step. apply wp_on_executor.
  eapply (midstep_issue_all lt dev cuda_ok Hcuda Hlt); [exact Hs|exact Hok|]. intros s1 H1. rewrite run_kernels in H1.
  wp_step. eapply wp_capture_fp16; [exact H1|]. intros s2 H2 Hq. by apply HQ.
Qed.

Lemma dump_stages_ok rows chunk_start ctx mode : 1 <= rows → 1 <= ctx →
  Forall launch_ok (dump_stage_1 c rows) ∧ Forall launch_ok (dump_stage_2 c rows) ∧
  Forall launch_ok (dump_stage_3 c o rows chunk_start ctx mode) ∧ Forall launch_ok (dump_stage_4 c rows).
Proof using Hg.
  intros Hr Hctx. rewrite <- !Forall_app, dump_replays_layer_0.
  pose proof (prefill_launches_ok c o Hg rows chunk_start ctx false mode Hr Hctx) as H. unfold EnqueuePrefillForward, layers in H.
  rewrite !Forall_app, Forall_singleton in H. destruct H as (He & Hl & _). apply Forall_cons. split; [exact He|].
  rewrite seqZ_cons in Hl by (pose proof (go_layers _ _ Hg); lia). cbn [map concat] in Hl. by apply Forall_app in Hl as [Hl _].
Qed.

Lemma wp_Dump rows chunk_start ctx mode s0 md s f (Q : () → Executor * files → Prop) :
  1 <= rows → 1 <= ctx → midstep dev s0 md s →
  (∀ s', midstep dev s0 (md.1, launched (embed_launch c rows :: prefill_layer c o rows chunk_start ctx mode 0) md.2) s' → quiet s' →
    Q () (s', f ++ dumped rows chunk_start ctx mode (h_input_ids md.1) md.2)) →
  wp (DumpLayer0Activations c o lt dev dma cuda_ok fs json_dump dev_bytes rows chunk_start ctx mode) Q (s, f).
Proof using Hg Hcuda Hlt Hfs.
  intros Hr Hctx Hs HQ. destruct (dump_stages_ok rows chunk_start ctx mode Hr Hctx) as (H1 & H2 & H3 & H4).
  destruct (dump_stages_end c o rows chunk_start ctx mode) as (E1 & E2 & E3).
  unfold dumped in HQ. rewrite <- E1, <- E2, <- E3 in HQ. unfold layer_0 in HQ. rewrite <- dump_replays_layer_0, !launched_app in HQ.
  unfold DumpLayer0Activations. rewrite (fw_create _ Hfs). wp_step. apply wp_ret.
  eapply wp_stage; [exact Hs|exact H1|]. intros s1 Hs1 _. cbn [fst snd] in Hs1.
  eapply wp_stage; [exact Hs1|exact H2|]. intros s2 Hs2 _. cbn [fst snd] in Hs2.
  eapply wp_stage; [exact Hs2|exact H3|]. intros s3 Hs3 _. cbn [fst snd] in Hs3.
  eapply wp_stage; [exact Hs3|exact H4|]. intros s4 Hs4 Hq. cbn [fst snd] in Hs4.
  wp_step. apply wp_get. wp_step. apply wp_WriteDumpBytes. apply wp_WriteDumpBytes. cbn [fst].
  pose proof (quiet_state dev _ _ _ Hs4 Hq) as He. injection He as -> _. rewrite <- !app_assoc. by apply HQ.
Qed.

End replay.

(** ** A prefill chunk with the dump armed *)

Lemma wp_dump_from {Algo D} c o (lt : LtLibrary Algo) (dev : Device D) dma cuda_ok fs json_dump dev_bytes f rows cs ctx mode
    (Q : () → Executor Algo D → Prop) s :
  wp (DumpLayer0Activations c o lt dev dma cuda_ok fs json_dump dev_bytes rows cs ctx mode)
    (λ u x, DumpLayer0Activations c o lt dev dma cuda_ok fs json_dump dev_bytes rows cs ctx mode (s, f) = (Ok u, x) → Q u (fst x)) (s, f) →
  wp (dump_from c o lt dev dma cuda_ok fs json_dump dev_bytes f rows cs ctx mode) Q s.
Proof.
  unfold wp, dump_from. destruct (DumpLayer0Activations _ _ _ _ _ _ _ _ _ _ _ _ _ (s, f)) as [[u|e] [s' f']]; [|done]. intros H. by apply H.
Qed.

(** C33. The parity dump is what it says and costs the chunk nothing: on a working
    device and file system, a chunk that runs with the dump armed returns what it
    returns without it, disarms the dump, and leaves the device as one more run of
    the embedding and layer 0 on the chunk's inputs; the six files hold the
    normalised input as it is just before the QKV projection, the projection just
    before the rotation, the attention output just before the post-attention norm
    and the MLP output at the layer's end, the chunk's token ids and the
    description. *)
Theorem dump_records_layer_0 {Algo D} c o (lt : LtLibrary Algo) (dev : Device D) dma fs json_dump dev_bytes f r cb ce s :
  geometry_ok c o → mirror_geometry o → lt_serves lt kDefaultWorkspaceBytes → fs_works fs →
  idle o s → x_dump_pending s = true → chunk_ok c o (num_kv_blocks_ c o) r cb ce → (∀ d, dev_argmax dev d ≠ []) →
  let dump := DumpLayer0Activations c o lt dev dma (λ _, true) fs json_dump dev_bytes in
  let (m, d) := prefill_state c o dev r cb ce s in
  ∃ out s1 s', PrefillChunk c o lt dev dma (λ _, true) (dump_from c o lt dev dma (λ _, true) fs json_dump dev_bytes f) (Some r) cb ce s = (Ok out, s') ∧
    idle o s' ∧ x_dump_pending s' = false ∧ x_mirrors s' = m ∧
    x_dev s' = launched dev (embed_launch c (ce - cb) :: prefill_layer c o (ce - cb) cb ce (x_mode s) 0) d ∧
    dump (ce - cb) cb ce (x_mode s) (s1, f) =
      (Ok (), (s', f ++ dumped c o dev json_dump dev_bytes (ce - cb) cb ce (x_mode s) (h_input_ids m) d)) ∧
    chunk_rows out = ce - cb ∧ final_chunk out = (ce =? num_prompt_tokens r) ∧
    (if final_chunk out then dev_argmax dev d !! 0%nat = Some (first_token out) else first_token out = -1).
Proof.
  intros Hg Hmg Hlt Hfs Hs Hd Hck Harg dump. destruct (prefill_state c o dev r cb ce s) as [m d] eqn:Hmd.
  assert (wp (PrefillChunk c o lt dev dma (λ _, true) (dump_from c o lt dev dma (λ _, true) fs json_dump dev_bytes f) (Some r) cb ce) (λ out s',
    ∃ s1, idle o s' ∧ x_dump_pending s' = false ∧ x_mirrors s' = m ∧
    x_dev s' = launched dev (embed_launch c (ce - cb) :: prefill_layer c o (ce - cb) cb ce (x_mode s) 0) d ∧
    dump (ce - cb) cb ce (x_mode s) (s1, f) =
      (Ok (), (s', f ++ dumped c o dev json_dump dev_bytes (ce - cb) cb ce (x_mode s) (h_input_ids m) d)) ∧
    chunk_rows out = ce - cb ∧ final_chunk out = (ce =? num_prompt_tokens r) ∧
    (if final_chunk out then dev_argmax dev d !! 0%nat = Some (first_token out) else first_token out = -1)) s) as Hwp.
  2: { apply wp_run in Hwp as (out & s' & Heq & s1 & H). by exists out, s1, s'. }
  apply (wp_PrefillChunk_end c o lt dev dma (λ _, true) Hg (λ _, eq_refl) Hlt Hmg); [done..|]. rewrite Hmd.
  intros out s2 md H2 Hq2 Hsz Hrows Hfin Htok. subst md. pose proof (mi_same _ _ _ _ H2) as (_ & _ & _ & Hdp & _).
  wp_auto. rewrite Hdp, Hd. wp_auto.
  assert (midstep dev (set_dump false s2) (m, d) (set_dump false s2)) as H3.
  { destruct H2 as [P1 P2 P3 P4 P5]. split; try done. }
  destruct Hck as [(Hcb & Hce & Hlen) Hrows' Hseq _ _ _ _].
  eapply wp_dump_from, (wp_Dump c o lt dev dma (λ _, true) fs json_dump dev_bytes Hg (λ _, eq_refl) Hlt Hfs); [lia|lia|exact H3|].
  intros s3 H4 Hq4 Hrun. wp_auto. cbn [fst snd] in *. exists (set_dump false s2).
  destruct (midstep_idle o dev _ _ _ H4 Hq4 Hsz) as [Hi [= -> ->]]. split_and!; try done.
  by destruct (mi_same _ _ _ _ H4) as (_ & _ & _ & -> & _).
Qed.

Module DumpExample.

Definition opts : ExecutorOptions := mkExecutorOptions (8 * 458752) 4 64 8 true 1 "dump".
Definition disk : FileSystem := mkFileSystem (λ _, true) (λ _, true) (λ _ data, (data, true)).

Lemma dump_ready : ∃ s, idle opts s ∧ x_dump_pending s = true ∧ x_mode s = kStridedBatched ∧
  ModelExecutor_new qwen25 opts WorkingExample.lib ExecutorExample.dev (λ _, 0%nat) (λ _, true) (num_layers qwen25)
    (Executor_members ExecutorExample.dev) = (Ok (), s).
Proof.
  assert (∃ b, ComputeBudget qwen25 opts = Ok b ∧ derive_widths qwen25 opts b = Ok ()) as (b & Hb & Hw) by (eexists; split; [by vm_compute|by vm_compute]).
  destruct (proj1 (wp_run _ _ _) (wp_ModelExecutor_new qwen25 opts WorkingExample.lib ExecutorExample.dev (λ _, 0%nat) b Hb Hw WorkingExample.lib_serves))
    as ([] & s & Heq & Hi & Hmode & _ & Hd).
  exists s. split; [exact Hi|]. split; [exact Hd|]. split; [exact Hmode|exact Heq].
Qed.

End DumpExample.

(** The final chunk of a prompt; the directory holds an older file. *)
Lemma dump_records_layer_0_witness :
  ∃ s out s1 s' written, PrefillChunk qwen25 DumpExample.opts WorkingExample.lib ExecutorExample.dev (λ n, n) (λ _, true)
      (dump_from qwen25 DumpExample.opts WorkingExample.lib ExecutorExample.dev (λ n, n) (λ _, true) DumpExample.disk (λ _, "{}"%string)
        (λ d b, d) [("old"%string, [1])]) (Some MirrorExample.seq_a) 10 18 s = (Ok out, s') ∧
    idle DumpExample.opts s' ∧ x_dump_pending s' = false ∧ final_chunk out = true ∧
    DumpLayer0Activations qwen25 DumpExample.opts WorkingExample.lib ExecutorExample.dev (λ n, n) (λ _, true) DumpExample.disk
      (λ _, "{}"%string) (λ d b, d) 8 10 18 (x_mode s) (s1, [("old"%string, [1])]) = (Ok (), (s', ("old"%string, [1]) :: written)) ∧
    last written = Some ("dump/layer0_meta.json"%string, [123; 125]).
Proof.
  destruct DumpExample.dump_ready as (s & Hi & Hd & _ & _). exists s.
  pose proof (dump_records_layer_0 qwen25 DumpExample.opts WorkingExample.lib ExecutorExample.dev (λ n, n) DumpExample.disk (λ _, "{}"%string)
    (λ d b, d) [("old"%string, [1])] MirrorExample.seq_a 10 18 s) as H.
  destruct (prefill_state qwen25 DumpExample.opts ExecutorExample.dev MirrorExample.seq_a 10 18 s) as [m d].
  destruct H as (out & s1 & s' & H1 & H2 & H3 & _ & _ & H5 & _ & H6 & _); try done.
  - apply WorkingExample.lib_serves.
  - split; try done; apply (bool_decide_eq_true_1 _); by vm_compute.
  - intros e. unfold ExecutorExample.dev. cbn. by destruct e.
  - exists out, s1, s'. eexists. split; [exact H1|]. split; [exact H2|]. split; [exact H3|]. split; [rewrite H6; reflexivity|].
    split; [exact H5|]. reflexivity.
Defined.
