(* ===== verification/Engine.v ===== *)
(** * The engine ([core/engine.hpp], [core/engine.cpp])

    The composition root: options, the derived executor and scheduler options,
    the memory preflight, request intake, the plan-execute-complete step with
    its counters, and the read-only probes.  The executor is behind the class
    [StepExecutor]; [EngineSteps] proves the engine against its laws and
    [EngineSystem] discharges them for the model executor. *)

From S2P Require Import Prelude Doubles Types BlockAllocator Scheduler ModelConfig GemmConfig ExecutorLayout Executor.

Definition kMaxWaitingRequests : Z := 1024.

Record EngineOptions : Type := mkEngineOptions {
  model_dir : string;
  kv_pool_gb : double;
  eo_max_batch : Z;
  eo_enable_cuda_graphs : bool;
  eo_max_seq_len : Z;
  eo_prefill_chunk_tokens : Z;
  eo_admission_policy : AdmissionPolicy;
  eo_pad_eager_to_bucket : Z;
  eo_debug_dump_dir : string;
}.

Definition eo_max_blocks_per_seq (o : EngineOptions) : Z := BlocksForTokens (eo_max_seq_len o).

(** [static_cast<std::int64_t>] of a double: towards zero; undefined for a NaN,
    an infinity or a value outside the range. *)
Definition int64_of_double (x : double) : option Z :=
  match x with
  | SpecFloat.S754_zero _ => Some 0
  | SpecFloat.S754_finite s m e =>
      let a := if 0 <=? e then Z.pos m * 2 ^ e else Z.pos m / 2 ^ (- e) in
      let v := if s then - a else a in
      if bool_decide (- 2 ^ 63 <= v < 2 ^ 63) then Some v else None
  | _ => None
  end.

Definition MakeExecutorOptions (o : EngineOptions) : outcome error ExecutorOptions :=
  match int64_of_double (double_mul (kv_pool_gb o) (double_of_Z (2 ^ 30))) with
  | None => Err (UndefinedBehaviour "double to int64 out of range")
  | Some bytes => Ok (mkExecutorOptions bytes (eo_max_batch o) (eo_max_seq_len o) (eo_prefill_chunk_tokens o)
                        (eo_enable_cuda_graphs o) (eo_pad_eager_to_bucket o) (eo_debug_dump_dir o))
  end.

(** [0.10], the default of [SchedulerOptions::watermark_free_fraction]. *)
Definition default_free_fraction : double := SpecFloat.S754_finite false 7205759403792794 (-56).

Definition MakeSchedulerOptions (o : EngineOptions) (eos : list TokenId) : SchedulerOptions :=
  mkSchedulerOptions (eo_max_batch o) (eo_prefill_chunk_tokens o) (eo_max_seq_len o) (eo_admission_policy o)
    default_free_fraction eos.

(** ** The memory preflight *)

Definition kMiB : Z := 2 ^ 20.
Definition kContextSlackBytes : Z := 512 * kMiB.
Definition kGraphBudgetPerBucketBytes : Z := 16 * kMiB.

Definition pool_gb_in_range (x : double) : bool := double_lt (double_of_Z 0) x && negb (double_lt (double_of_Z 1024) x).

Definition graph_bytes (o : EngineOptions) : Z :=
  let num_buckets := zlen (MakeDecodeBuckets (eo_max_batch o)) in
  if eo_enable_cuda_graphs o then num_buckets * kGraphBudgetPerBucketBytes else 0.

(** The sum of the parts on [std::int64_t]. *)
Definition required_bytes (o : EngineOptions) (weight_bytes : Z) (budget : ExecutorMemoryBudget) : outcome error Z :=
  device ← signed64 (weight_bytes + total_device_bytes budget);
  graphs ← signed64 (device + graph_bytes o);
  signed64 (graphs + kContextSlackBytes).

(** The one option the executor cannot check, and the executor's options. *)
Definition checked_options (o : EngineOptions) : outcome error ExecutorOptions :=
  if negb (pool_gb_in_range (kv_pool_gb o)) then Err (InvalidArgument (PoolSizeOutOfRange (kv_pool_gb o)))
  else MakeExecutorOptions o.

(** The budget against what [cudaMemGetInfo] reports, if it answers. *)
Definition preflight (c : ModelConfig) (o : EngineOptions) (exec : ExecutorOptions) (weight_bytes : Z)
    (free_bytes : option Z) : outcome error ExecutorMemoryBudget :=
  budget ← ComputeBudget c exec;
  required ← required_bytes o weight_bytes budget;
  match free_bytes with
  | None => Err (EngineError "cudaMemGetInfo preflight")
  | Some free => if free <? required then Err (EngineError "configuration does not fit device memory") else mret budget
  end.

(** Every sum of the memory plan fits its type. *)
Definition demand_fits (c : ModelConfig) (o : EngineOptions) (exec : ExecutorOptions) (weight_bytes : Z) : Prop :=
  sizes_fit c exec ∧
  weight_bytes + (kv_pool_bytes exec + place_end 0 (scratch_sizes c exec) + kDefaultWorkspaceBytes) + graph_bytes o + kContextSlackBytes <= int64_max.

Lemma graph_bytes_nonneg o : 0 <= graph_bytes o.
Proof. unfold graph_bytes. destruct (eo_enable_cuda_graphs o); [|done]. pose proof (zlen_nonneg (MakeDecodeBuckets (eo_max_batch o))). unfold kGraphBudgetPerBucketBytes, kMiB. lia. Qed.

(** A plan that does not go through is refused, or is past the end of the types. *)
Lemma preflight_error c o exec wb free e : 0 <= wb → preflight c o exec wb free = Err e →
  (∃ what, e = ExecutorError what ∨ e = EngineError what) ∨ e = overflow ∧ ¬ demand_fits c o exec wb.
Proof.
  intros Hwb. unfold preflight. pose proof (budget_correct c exec) as Hb.
  destruct (ComputeBudget c exec) as [b|e']; cbn [mbind outcome_bind].
  2:{ intros [= ->]. destruct Hb as [[[what ->] _]|[-> Hno]]; [left; eexists; by left|right]. split; [done|]. by intros [? _]. }
  cbv zeta in Hb. destruct Hb as (Hg & Hp & Hb2 & _ & _ & _ & Hsc & _ & Htot & Hws).
  pose proof (place_end_ge _ 0 (sizes_positive c exec Hg)). pose proof (graph_bytes_nonneg o).
  assert (0 <= kDefaultWorkspaceBytes ∧ 0 <= kContextSlackBytes) as [??] by done.
  assert (0 < kv_token_bytes c) by (destruct Hg; unfold kv_token_bytes; nia).
  assert (demand_fits c o exec wb → wb + total_device_bytes b + graph_bytes o + kContextSlackBytes <= int64_max) as Hfit
    by (intros [_ ?]; lia).
  assert (computes (demand_fits c o exec wb) (wb + total_device_bytes b + graph_bytes o + kContextSlackBytes) (required_bytes o wb b)) as Hr.
  { unfold required_bytes, kKvBlockSize in *.
    eapply computes_bind; [apply computes_signed64; intros ?%Hfit; unfold int64_ok; lia|].
    eapply computes_bind; [apply computes_signed64; intros ?%Hfit; unfold int64_ok; lia|].
    apply computes_signed64; intros ?%Hfit; unfold int64_ok; lia. }
  destruct (required_bytes o wb b) as [r|e']; cbn [mbind outcome_bind computes] in Hr |- *; [|intros [= ->]; by right].
  destruct free as [free|]; [|by intros [= <-]; left; eexists; right].
  destruct (free <? r); [|done]. intros [= <-]. left. eexists. by right.
Qed.

(** ** What the engine asks of an executor *)

Class StepExecutor (X : Type) : Type := {
  ex_PrefillChunk : option Request → Z → Z → M error X PrefillOutput;
  ex_DecodeEager : list Request → M error X DecodeOutput;
  ex_DecodeGraph : list Request → M error X DecodeOutput;
  ex_has_decode_graphs : X → bool;
  ex_decode_buckets : X → list Z;
}.

(** ** The object *)

Record Counters : Type := mkCounters {
  steps_ : Z;
  prefill_tokens_ : Z;
  decode_tokens_ : Z;
  graph_replays_ : Z;
  eager_decodes_ : Z;
  aborts_ : Z;
  bucket_decode_steps_ : list Z;
}.

Record Engine (A X : Type) : Type := mkEngine {
  model_config_ : ModelConfig;
  (** the requests' store, [*block_allocator_] and [*scheduler_] *)
  e_world : World A;
  executor_ : X;
  requests_ : gmap RequestId RequestPtr;
  next_request_id_ : RequestId;
  counters : Counters;
}.
Arguments mkEngine {A X}.
Arguments model_config_ {A X}.
Arguments e_world {A X}.
Arguments executor_ {A X}.
Arguments requests_ {A X}.
Arguments next_request_id_ {A X}.
Arguments counters {A X}.

Record EngineStats : Type := mkEngineStats {
  s_counters : Counters;
  s_num_waiting : Z;
  s_num_running : Z;
  s_free_kv_blocks : Z;
  s_reserved_kv_blocks : Z;
  s_total_kv_blocks : Z;
  bucket_histogram : list (Z * Z);
}.

(** What executing a plan hands to the second half of the step. *)
Record executed : Type := mkExecuted {
  sampled_tokens : list TokenId;
  prefill_rows : Z;
  decode_rows_run : Z;
  executed_bucket : Z;
  replayed_graph : bool;
}.

Definition nothing_executed : executed := mkExecuted [] 0 0 (-1) false.

Definition set_world {A X} w (e : Engine A X) : Engine A X :=
  mkEngine (model_config_ e) w (executor_ e) (requests_ e) (next_request_id_ e) (counters e).
Definition set_executor {A X} x (e : Engine A X) : Engine A X :=
  mkEngine (model_config_ e) (e_world e) x (requests_ e) (next_request_id_ e) (counters e).
Definition set_requests {A X} m (e : Engine A X) : Engine A X :=
  mkEngine (model_config_ e) (e_world e) (executor_ e) m (next_request_id_ e) (counters e).
Definition set_next_id {A X} i (e : Engine A X) : Engine A X :=
  mkEngine (model_config_ e) (e_world e) (executor_ e) (requests_ e) i (counters e).
Definition set_counters {A X} k (e : Engine A X) : Engine A X :=
  mkEngine (model_config_ e) (e_world e) (executor_ e) (requests_ e) (next_request_id_ e) k.

Definition zero_counters (buckets : list Z) : Counters :=
  mkCounters 0 0 0 0 0 0 (replicate (length buckets) 0).

(** One more decode step at the bucket [std::find] locates, if any. *)
Definition count_bucket (buckets : list Z) (b : Z) (hist : list Z) : list Z :=
  match list_find (λ x, x = b) buckets with
  | Some (i, _) => alter (λ n, u64 (n + 1)) i hist
  | None => hist
  end.

(** The counter updates after a completed plan. *)
Definition count_step (buckets : list Z) (plan : StepPlan) (x : executed) (k : Counters) : Counters :=
  let decoded := 0 <? decode_rows_run x in
  mkCounters (u64 (steps_ k + 1)) (u64 (prefill_tokens_ k + prefill_rows x))
    (if decoded then u64 (decode_tokens_ k + decode_rows_run x) else decode_tokens_ k)
    (if decoded && replayed_graph x then u64 (graph_replays_ k + 1) else graph_replays_ k)
    (if decoded && negb (replayed_graph x) then u64 (eager_decodes_ k + 1) else eager_decodes_ k)
    (u64 (aborts_ k + zlen (aborted plan)))
    (if decoded && (0 <=? executed_bucket x) then count_bucket buckets (executed_bucket x) (bucket_decode_steps_ k)
     else bucket_decode_steps_ k).

(** [requests_.erase] for every finished result. *)
Definition drop_finished (res : list StepResult) (m : gmap RequestId RequestPtr) : gmap RequestId RequestPtr :=
  foldl (λ m r, if finished r then delete (request_id r) m else m) m res.

Section engine.
Context {A X : Type} `{!KvAllocator A} `{!StepExecutor X}.
(** The address [std::make_shared] returns. *)
Context (malloc : gmap RequestPtr Request → RequestPtr).
Notation EM := (M error (Engine A X)).

Definition on_world {B} (m : M error (World A) B) : EM B := zoom e_world set_world m.
Definition on_executor {B} (m : M error X B) : EM B := zoom executor_ set_executor m.

(** Stack unwinding: a C++ exception runs the scope's cleanup. *)
Definition unwind {S B} (m : M error S B) (cleanup : S → S) : M error S B := λ s,
  match m s with
  | (Err e, s') => (Err e, if is_exception e then cleanup s' else s')
  | r => r
  end.

Definition new_cell (p : RequestPtr) (r : Request) (w : World A) : World A :=
  mkWorld (<[p := r]> (w_heap w)) (w_alloc w) (w_sched w).
Definition free_cell (p : RequestPtr) (w : World A) : World A :=
  mkWorld (delete p (w_heap w)) (w_alloc w) (w_sched w).

(** The construction tail: allocator, scheduler and counters around an executor. *)
Definition Engine_new (c : ModelConfig) (so : SchedulerOptions) (a : A) (x : X) : outcome error (Engine A X) :=
  match Scheduler_new so with
  | Err e => Err e
  | Ok s => Ok (mkEngine c (mkWorld ∅ a s) x ∅ 1 (zero_counters (ex_decode_buckets x)))
  end.

(** ** Intake *)

Definition outside_vocab (c : ModelConfig) (t : TokenId) : bool := (t <? 0) || (vocab_size c <=? t).

Definition check_tokens (what : string) (tokens : list TokenId) : EM () :=
  e ← get;
  match List.find (outside_vocab (model_config_ e)) tokens with
  | Some t => throw (InvalidArgument (TokenOutsideVocab what t (vocab_size (model_config_ e))))
  | None => mret ()
  end.

Definition AddRequest (prompt_tokens : list TokenId) (max_new_tokens : Z) (ignore_eos : bool)
    (forced_tokens : list TokenId) : EM RequestId :=
  check_tokens "prompt_tokens" prompt_tokens;;
  check_tokens "forced_tokens" forced_tokens;;
  e ← get;
  let p := malloc (w_heap (e_world e)) in
  let i := next_request_id_ e in
  on_world (unwind (modify (new_cell p (new_request i prompt_tokens max_new_tokens ignore_eos forced_tokens));; Enqueue p)
              (free_cell p));;
  modify (set_next_id (u64 (i + 1)));;
  modify (λ e, set_requests (match requests_ e !! i with Some _ => requests_ e | None => <[i := p]> (requests_ e) end) e);;
  mret i.

(** ** One step *)

Definition execute (plan : StepPlan) : EM executed :=
  match prefill plan with
  | Some p =>
      request ← on_world (deref p);
      out ← on_executor (ex_PrefillChunk (Some request) (prefill_begin plan) (prefill_end plan));
      mret (mkExecuted (if final_chunk out then [first_token out] else []) (chunk_rows out) 0 (-1) false)
  | None =>
      if is_nil (decode plan) then mret nothing_executed else
      batch ← on_world (mapM deref (decode plan));
      e ← get;
      let rows := to_int32 (zlen (decode plan)) in
      let bucket := SelectBucket rows (ex_decode_buckets (executor_ e)) in
      let replay := (0 <=? bucket) && ex_has_decode_graphs (executor_ e) in
      out ← on_executor (if replay : bool then ex_DecodeGraph batch else ex_DecodeEager batch);
      mret (mkExecuted (tokens out) 0 rows (Executor.bucket out) replay)
  end.

Definition Step : EM (list StepResult) :=
  plan ← on_world PlanStep;
  if plan_empty plan then mret [] else
  x ← execute plan;
  results ← on_world (CompleteStep plan (sampled_tokens x));
  modify (λ e, set_counters (count_step (ex_decode_buckets (executor_ e)) plan x (counters e)) e);;
  modify (λ e, set_requests (drop_finished results (requests_ e)) e);;
  mret results.

(** ** Probes *)

Definition HasCapacity (e : Engine A X) : bool := num_waiting (w_sched (e_world e)) <? kMaxWaitingRequests.

Definition Stats (total_blocks : A → Z) (e : Engine A X) : EngineStats :=
  let w := e_world e in
  mkEngineStats (counters e) (num_waiting (w_sched w)) (num_running (w_sched w)) (ka_free_blocks (w_alloc w))
    (ka_reserved_blocks (w_alloc w)) (total_blocks (w_alloc w))
    (zip (ex_decode_buckets (executor_ e)) (bucket_decode_steps_ (counters e))).

Definition DebugBlockTable (i : RequestId) (e : Engine A X) : list BlockId :=
  match requests_ e !! i with
  | Some p => match w_heap (e_world e) !! p with Some r => blocks_ (block_table r) | None => [] end
  | None => []
  end.

End engine.
