(* ===== verification/EngineSteps.v ===== *)
(** * What the engine guarantees over any executor that keeps its contract

    [StepExecutorLaws] states the contract; the engine's invariant is kept by
    every call, a rejected request changes nothing, and a step always completes. *)

From S2P Require Import Prelude Doubles Types BlockAllocator Scheduler SchedulerInv SchedulerPlan SchedulerStep SchedulerLive SchedulerText SchedulerStream SchedulerTheorems ModelConfig GemmConfig ExecutorLayout ExecutorMirrors Executor Engine.

(** ** The executor's contract *)

Class StepExecutorLaws (X : Type) `{!StepExecutor X} (c : ModelConfig) (xo : ExecutorOptions) (nkv : Z) : Type := {
  ex_ready : X → Prop;
  ex_ready_buckets x : ex_ready x → ex_decode_buckets x = MakeDecodeBuckets (x_max_batch xo);
  ex_PrefillChunk_law x r b e (Q : PrefillOutput → X → Prop) : ex_ready x → chunk_ok c xo nkv r b e →
    (∀ out x', ex_ready x' → chunk_rows out = e - b → final_chunk out = (e =? num_prompt_tokens r) →
       (final_chunk out = true → 0 <= first_token out < vocab_size c) → Q out x') →
    wp (ex_PrefillChunk (Some r) b e) Q x;
  ex_DecodeEager_law x rs (Q : DecodeOutput → X → Prop) : ex_ready x → rs ≠ [] → zlen rs <= x_max_batch xo →
    Forall (λ r, ∃ t, row_ok c xo nkv r t) rs →
    (∀ out x', ex_ready x' → length (tokens out) = length rs → Forall (λ t, 0 <= t < vocab_size c) (tokens out) →
       Executor.bucket out = BucketForRows xo (decode_rows xo (zlen rs) 0) → Q out x') →
    wp (ex_DecodeEager rs) Q x;
  ex_DecodeGraph_law x rs (Q : DecodeOutput → X → Prop) : ex_ready x → rs ≠ [] → zlen rs <= x_max_batch xo →
    Forall (λ r, ∃ t, row_ok c xo nkv r t) rs → ex_has_decode_graphs x = true →
    0 <= SelectBucket (zlen rs) (ex_decode_buckets x) →
    (∀ out x', ex_ready x' → length (tokens out) = length rs → Forall (λ t, 0 <= t < vocab_size c) (tokens out) →
       Executor.bucket out = SelectBucket (zlen rs) (ex_decode_buckets x) → Q out x') →
    wp (ex_DecodeGraph rs) Q x;
}.
#[global] Hint Mode StepExecutorLaws + - - - - : typeclass_instances.

(** The scheduler's limits are the executor's. *)
Record options_match (so : SchedulerOptions) (xo : ExecutorOptions) : Prop := {
  om_batch : max_batch so = x_max_batch xo;
  om_seq : max_seq_len so = x_max_seq_len xo;
  om_chunk : prefill_chunk_tokens so = x_prefill_chunk_tokens xo;
  om_width : x_max_batch xo <= int32_max;
}.

Definition in_vocab (c : ModelConfig) (t : TokenId) : Prop := 0 <= t < vocab_size c.

#[export] Instance in_vocab_dec c t : Decision (in_vocab c t).
Proof. unfold in_vocab. apply _. Defined.

Record vocab_request (c : ModelConfig) (r : Request) : Prop := {
  vr_prompt : Forall (in_vocab c) (prompt_tokens r);
  vr_output : Forall (in_vocab c) (output_tokens r);
  vr_forced : Forall (in_vocab c) (forced_tokens r);
}.

Lemma vocab_text c r r' : text r' = text r → vocab_request c r → vocab_request c r'.
Proof. intros [= _ Hp Ho Hf _ _] []. by split; congruence. Qed.

Lemma vocab_prolongs c ts r r' : Forall (in_vocab c) ts → prolongs ts r r' → vocab_request c r → vocab_request c r'.
Proof.
  intros Hts (_ & Hp & Hf & Ho) []. split; [congruence| |congruence].
  rewrite !Forall_forall in *. intros t Ht. destruct (Ho t Ht) as [?|[?|?]]; auto.
Qed.

(** The counters after a completed plan: a decode step counts as a replay
    exactly when the graphs are there and a bucket holds its rows. *)
Definition replays (bs : list Z) (graphs : bool) (n : Z) : bool := graphs && bool_decide (Exists (λ b, n <= b) bs).

(** The rows the kernels ran at: a replay runs the smallest bucket that holds
    the batch, an eager step what the padding option asks for. *)
Definition rows_run (xo : ExecutorOptions) (graphs : bool) (n rows : Z) : Prop :=
  if replays (buckets xo) graphs n
  then rows ∈ buckets xo ∧ n <= rows ∧ ∀ b, b ∈ buckets xo → n <= b → rows <= b
  else eager_rows xo n rows.

(** The histogram moves at the bucket of exactly these rows, if there is one. *)
Definition hist_moved (bs : list Z) (rows : Z) (h h' : list Z) : Prop :=
  ∀ i : nat, h' !! i = if decide (bs !! i = Some rows) then (λ n, u64 (n + 1)) <$> h !! i else h !! i.

Record counted (xo : ExecutorOptions) (graphs : bool) (plan : StepPlan) (k k' : Counters) : Prop := {
  ct_steps : steps_ k' = u64 (steps_ k + 1);
  ct_aborts : aborts_ k' = u64 (aborts_ k + zlen (aborted plan));
  ct_prefill : prefill_tokens_ k' = u64 (prefill_tokens_ k + (prefill_end plan - prefill_begin plan));
  ct_idle : decode plan = [] → decode_tokens_ k' = decode_tokens_ k ∧ graph_replays_ k' = graph_replays_ k ∧
    eager_decodes_ k' = eager_decodes_ k ∧ bucket_decode_steps_ k' = bucket_decode_steps_ k;
  ct_decode : decode plan ≠ [] → decode_tokens_ k' = u64 (decode_tokens_ k + zlen (decode plan));
  ct_replay : decode plan ≠ [] → replays (buckets xo) graphs (zlen (decode plan)) = true →
    graph_replays_ k' = u64 (graph_replays_ k + 1) ∧ eager_decodes_ k' = eager_decodes_ k;
  ct_eager : decode plan ≠ [] → replays (buckets xo) graphs (zlen (decode plan)) = false →
    graph_replays_ k' = graph_replays_ k ∧ eager_decodes_ k' = u64 (eager_decodes_ k + 1);
  ct_hist : decode plan ≠ [] → ∃ rows, rows_run xo graphs (zlen (decode plan)) rows ∧
    hist_moved (buckets xo) rows (bucket_decode_steps_ k) (bucket_decode_steps_ k');
}.

(** The code's search agrees. *)
Lemma replays_bucket xo graphs n : 1 <= n →
  (0 <=? SelectBucket n (buckets xo)) && graphs = replays (buckets xo) graphs n.
Proof.
  intros Hn. unfold replays. rewrite andb_comm. f_equal. unfold SelectBucket. destruct (Z.leb_spec n 0); [lia|].
  destruct (List.find _ _) as [b|] eqn:Hf; cbn [default].
  - apply find_some in Hf as [Hin%list_elem_of_In Hle%Z.leb_le]. symmetry. unfold default, Datatypes.id.
    rewrite bool_decide_true; [symmetry; apply Z.leb_le; lia|]. apply Exists_exists. by exists b.
  - rewrite bool_decide_false; [done|]. intros (b & Hb & Hle)%Exists_exists.
    pose proof (find_none _ _ Hf b ltac:(by apply list_elem_of_In)) as Hn0%Z.leb_gt. lia.
Qed.

Lemma BucketForRows_spec xo rows i : hist_moved (buckets xo) rows i
  (if 0 <=? BucketForRows xo rows then count_bucket (buckets xo) (BucketForRows xo rows) i else i).
Proof.
  unfold BucketForRows. destruct (List.find _ _) as [b|] eqn:Hf; cbn [default].
  - apply find_some in Hf as [Hin%list_elem_of_In ->%Z.eqb_eq]. unfold default, Datatypes.id.
    assert (0 <=? rows = true) as ->.
    { apply Z.leb_le. unfold buckets, MakeDecodeBuckets in Hin. apply list_elem_of_filter in Hin as [_ Hin].
      unfold kLadder in Hin. rewrite !elem_of_cons, elem_of_nil in Hin. lia. }
    unfold count_bucket. destruct (list_find _ _) as [[j x]|] eqn:Hl.
    + apply list_find_Some in Hl as (Hj & -> & _). intros k. case_decide as Hk.
      * assert (k = j) as ->; [|by rewrite list_lookup_alter_eq].
        eapply NoDup_lookup; [|exact Hk|exact Hj]. apply NoDup_filter. by apply (bool_decide_unpack _); vm_compute.
      * rewrite list_lookup_alter_ne; [done|]. by intros ->.
    + apply list_find_None in Hl. rewrite Forall_forall in Hl. by destruct (Hl rows Hin).
  - cbn. intros k. case_decide as Hk; [|done]. apply list_elem_of_lookup_2, list_elem_of_In in Hk.
    pose proof (find_none _ _ Hf _ Hk) as Hn. cbn in Hn. by rewrite Z.eqb_refl in Hn.
Qed.

Section engine.
Context {A X : Type} `{!KvAllocator A} `{!KvAllocatorLaws A} `{!StepExecutor X}.
Context (c : ModelConfig) (so : SchedulerOptions) (xo : ExecutorOptions) (u : Z).
Context `{!StepExecutorLaws X c xo (u + 1)}.
Context (Ho : opts_ok so) (Hm : options_match so xo).
Implicit Types (e : Engine A X) (w : World A).

(** [requests_] holds exactly the requests of [l], each under its id. *)
Record tracked (m : gmap RequestId RequestPtr) (next : RequestId) (h : gmap RequestPtr Request) (l : list RequestPtr) : Prop := {
  tk_live p : p ∈ l → m !! id (h !!! p) = Some p;
  tk_back i p : m !! i = Some p → p ∈ l ∧ id (h !!! p) = i;
  tk_ids i p : m !! i = Some p → i < next;
}.

Record engine_inv e : Prop := {
  ei_config : model_config_ e = c;
  ei_sched : sched_inv so u (e_world e);
  ei_ready : ex_ready (executor_ e);
  ei_vocab : all_req (w_heap (e_world e)) (vocab_request c) (live (w_sched (e_world e)));
  ei_tracked : tracked (requests_ e) (next_request_id_ e) (w_heap (e_world e)) (live (w_sched (e_world e)));
  ei_hist : length (bucket_decode_steps_ (counters e)) = length (ex_decode_buckets (executor_ e));
}.

(** The part of it that does not speak of the executor. *)
Record host_inv e : Prop := {
  hi_config : model_config_ e = c;
  hi_sched : sched_inv so u (e_world e);
  hi_vocab : all_req (w_heap (e_world e)) (vocab_request c) (live (w_sched (e_world e)));
  hi_tracked : tracked (requests_ e) (next_request_id_ e) (w_heap (e_world e)) (live (w_sched (e_world e)));
}.

Lemma engine_host e : engine_inv e → host_inv e.
Proof. by intros []. Qed.

Lemma live_lookup w p : sched_inv so u w → p ∈ live (w_sched w) → w_heap w !! p = Some (w_heap w !!! p).
Proof.
  intros Hi Hp. destruct (si_live_lookup so u w Hi p Hp) as [r Hr]. by rewrite Hr, (lookup_total_correct _ _ _ Hr).
Qed.

(** ** What a plan hands to the executor *)

Lemma blocks_valid_owned w p r : sched_inv so u w → p ∈ admitted (w_sched w) → w_heap w !! p = Some r →
  Forall (λ b, 1 <= b < u + 1) (blocks_ (block_table r)).
Proof.
  intros Hi Hp Hr. apply Forall_forall. intros b Hb.
  assert (1 <= b <= u); [|lia]. apply (accounts_owned_range _ _ _ _ _ _ p b (si_accounts _ _ _ Hi) Hp).
  unfold blocks_at. by rewrite (lookup_total_correct _ _ _ Hr).
Qed.

(** The block table of a request fits the executor's table row. *)
Lemma width_ok r n : static_ok so r → nblocks r <= BlocksForTokens n → 0 <= n <= nprompt r + max_new_tokens r →
  zlen (blocks_ (block_table r)) <= mbps xo.
Proof using Hm.
  intros [? ? Hl] Hb Hn. rewrite (om_seq _ _ Hm) in Hl.
  pose proof (BlocksForTokens_mono n (x_max_seq_len xo) ltac:(lia)). change (mbps xo) with (BlocksForTokens (x_max_seq_len xo)).
  unfold nblocks in Hb. lia.
Qed.

Lemma cover_ok r n : 0 <= n <= 16 * nblocks r → BlocksForTokens n <= zlen (blocks_ (block_table r)).
Proof. intros Hn. change (zlen _) with (nblocks r). pose proof (BlocksForTokens_spec n ltac:(lia)). lia. Qed.

Lemma planned_chunk w p rest r cb ce :
  sched_inv so u w → all_req (w_heap w) (vocab_request c) (live (w_sched w)) →
  prefill_queue_ (w_sched w) = p :: rest → w_heap w !! p = Some r →
  cb = prefill_progress r → ce = chunk_end so r → ce <= 16 * nblocks r →
  chunk_ok c xo (u + 1) r cb ce ∧ num_prompt_tokens r = nprompt r.
Proof using Ho Hm.
  intros Hi Hv Hq Hp -> -> Hcov.
  assert (p ∈ prefill_queue_ (w_sched w)) as Hin by (rewrite Hq; apply list_elem_of_here).
  destruct (all_req_elem _ _ _ p (si_prefill _ _ _ Hi) Hin) as (r0 & Hr0 & Hok). assert (r0 = r) as -> by congruence.
  assert (p ∈ admitted (w_sched w)) as Hadm by (unfold admitted; set_solver).
  destruct (all_req_elem _ _ _ p Hv) as (r0 & Hr1 & Hvr); [unfold live; set_solver|]. assert (r0 = r) as -> by congruence.
  pose proof Hok as [Hst _ _ Hprog _ _ _ Hb]. pose proof Hst as [? ? Hl].
  rewrite (num_prompt_tokens_eq so r Ho Hst). split; [|done].
  pose proof (oo_chunk _ Ho). unfold chunk_end in *. split.
  - rewrite (num_prompt_tokens_eq so r Ho Hst). unfold nprompt in *. split_and!; [lia|lia|lia|done].
  - rewrite <- (om_chunk _ _ Hm). lia.
  - rewrite <- (om_seq _ _ Hm). lia.
  - apply cover_ok. lia.
  - by apply (width_ok r (nprompt r)); [|..|lia].
  - apply Hvr.
  - by eapply blocks_valid_owned.
Qed.

Lemma planned_row w p r :
  sched_inv so u w → all_req (w_heap w) (vocab_request c) (live (w_sched w)) →
  p ∈ running_ (w_sched w) → w_heap w !! p = Some r → covered r → ∃ t, row_ok c xo (u + 1) r t.
Proof using Ho Hm.
  intros Hi Hv Hin Hp Hcov.
  destruct (all_req_elem _ _ _ p (si_running _ _ _ Hi) Hin) as (r0 & Hr0 & Hok). assert (r0 = r) as -> by congruence.
  assert (p ∈ admitted (w_sched w)) as Hadm by (unfold admitted; set_solver).
  destruct (all_req_elem _ _ _ p Hv) as (r0 & Hr1 & Hvr); [unfold live; set_solver|]. assert (r0 = r) as -> by congruence.
  pose proof Hok as [Hst _ _ Hout _ _ Hb]. pose proof Hst as [? ? Hl]. unfold covered in Hcov.
  destruct (back_is_Some (output_tokens r)) as [t Ht]; [intros Hn; unfold noutput in Hout; rewrite Hn in Hout; zlen; lia|].
  exists t. split; rewrite ?(seq_len_eq so r Ho Hst) by lia.
  - done.
  - apply (proj1 (Forall_forall _ _) (vr_output _ _ Hvr)). apply back_Some in Ht. rewrite Ht. apply elem_of_app. right. apply list_elem_of_here.
  - rewrite <- (om_seq _ _ Hm). lia.
  - apply cover_ok. lia.
  - apply (width_ok r (nprompt r + noutput r)); [done|lia|lia].
  - by eapply blocks_valid_owned.
Qed.

(** ** Executing a plan *)

Lemma wp_mapM_deref l : ∀ (Q : list Request → World A → Prop) w,
  (∀ p, p ∈ l → is_Some (w_heap w !! p)) → Q (map (λ p, w_heap w !!! p) l) w → wp (mapM deref l) Q w.
Proof.
  induction l as [|p l IH]; intros Q w Hl HQ; cbn [mapM]; [done|].
  destruct (Hl p ltac:(apply list_elem_of_here)) as [r Hr]. destruct w as [h a s]. wp_step.
  eapply wp_deref; [exact Hr|]. wp_step. apply IH; [intros q Hq; apply Hl; by apply list_elem_of_further|].
  cbn in *. wp_auto. by rewrite (lookup_total_correct _ _ _ Hr) in HQ.
Qed.

(** What the executor's half of a step returns for a plan. *)
Definition executed_for (x : X) (w : World A) (plan : StepPlan) (y : executed) : Prop :=
  sampled_ok w plan (sampled_tokens y) ∧ Forall (in_vocab c) (sampled_tokens y) ∧
  prefill_rows y = prefill_end plan - prefill_begin plan ∧
  decode_rows_run y = zlen (decode plan) ∧
  (decode plan ≠ [] → replayed_graph y =
     (0 <=? SelectBucket (zlen (decode plan)) (ex_decode_buckets x)) && ex_has_decode_graphs x) ∧
  (decode plan ≠ [] → executed_bucket y = if replayed_graph y then SelectBucket (zlen (decode plan)) (ex_decode_buckets x)
     else BucketForRows xo (decode_rows xo (zlen (decode plan)) 0)).

Lemma wp_execute e plan (Q : executed → Engine A X → Prop) :
  sched_inv so u (e_world e) → ex_ready (executor_ e) → plan_ok so (e_world e) plan → plan_empty plan = false →
  (prefill plan = None → prefill_begin plan = 0 ∧ prefill_end plan = 0) →
  all_req (w_heap (e_world e)) (vocab_request c) (live (w_sched (e_world e))) →
  (∀ y x', ex_ready x' → executed_for (executor_ e) (e_world e) plan y → Q y (set_executor x' e)) →
  wp (execute plan) Q e.
Proof using Ho Hm.
  intros Hi Hx Hplan Hne Hbe Hv HQ. destruct e as [cfg w x m nx k]. cbn in *. unfold execute, plan_ok in *.
  destruct (prefill plan) as [p|] eqn:Hpre.
  - destruct Hplan as (Hd & _ & rest & r & Hq & Hr & Hb & He & Hcov).
    destruct (planned_chunk w p rest r _ _ Hi Hv Hq Hr Hb He) as [Hck Hnum]; [lia|].
    wp_step. apply wp_zoom. destruct w as [h a s]. eapply wp_deref; [exact Hr|]. cbn. wp_step. apply wp_zoom. cbn.
    apply ex_PrefillChunk_law; [done|done|]. intros out x' Hx' Hrows Hfin Htok. wp_auto. apply HQ; [done|].
    rewrite Hnum in Hfin. unfold executed_for, sampled_ok. rewrite Hpre, Hd. cbn. rewrite (lookup_total_correct _ _ _ Hr), <- Hfin.
    split_and!; [by destruct (final_chunk out)| |done|done|by intros []|by intros []].
    destruct (final_chunk out); [|constructor]. by constructor; [apply Htok|constructor].
  - destruct Hplan as (Hq & Hd & Hcov & _). pose proof (Hbe eq_refl) as [Hb0 He0].
    destruct (is_nil (decode plan)) eqn:Hnil.
    { apply is_nil_true in Hnil. wp_auto. apply (HQ nothing_executed x); [done|]. unfold executed_for, sampled_ok.
      rewrite Hpre, Hnil, Hb0, He0. cbn. by split_and!. }
    apply is_nil_false in Hnil. wp_step. apply wp_zoom. cbn.
    assert (∀ p, p ∈ decode plan → ∃ r, w_heap w !! p = Some r ∧ covered r) as Hrows.
    { intros p Hp. rewrite Hd in Hp. by apply (all_req_elem _ _ _ p Hcov). }
    apply wp_mapM_deref; [intros p Hp; destruct (Hrows p Hp) as (r & Hr & _); by exists r|]. cbn. wp_auto. cbn.
    set (rs := map _ _).
    assert (zlen rs = zlen (decode plan)) as Hlen by (unfold zlen, rs; by rewrite length_map).
    assert (zlen (decode plan) <= x_max_batch xo) as Hbatch.
    { rewrite Hd, <- (om_batch _ _ Hm). by apply (running_le_batch so u Ho). }
    assert (to_int32 (zlen (decode plan)) = zlen (decode plan)) as ->.
    { apply to_int32_id. pose proof (om_width _ _ Hm). pose proof (zlen_nonneg (decode plan)). unfold int32_ok, int32_max in *. lia. }
    assert (Forall (λ r, ∃ t, row_ok c xo (u + 1) r t) rs) as Hok.
    { apply Forall_forall. intros r Hr. apply list_elem_of_fmap in Hr as (p & -> & Hp).
      destruct (Hrows p Hp) as (r & Hr & Hc). rewrite (lookup_total_correct _ _ _ Hr).
      rewrite Hd in Hp. eapply planned_row; [exact Hi|exact Hv|exact Hp|exact Hr|exact Hc]. }
    assert (rs ≠ []) as Hrs by (unfold rs; by destruct (decode plan)).
    assert (length rs = length (decode plan)) as Hlen' by (unfold rs; by rewrite length_map).
    set (bkt := SelectBucket (zlen (decode plan)) (ex_decode_buckets x)) in *.
    unfold executed_for, sampled_ok in HQ. rewrite Hpre in HQ. cbn in HQ.
    destruct ((0 <=? bkt) && ex_has_decode_graphs x) eqn:Hrep.
    + pose proof (proj1 (andb_true_iff _ _) Hrep) as [Hb%Z.leb_le Hg].
      apply wp_zoom; cbn. apply ex_DecodeGraph_law; [done|done|by rewrite Hlen|done|done|by rewrite Hlen|].
      intros out x' Hx' Htl Htv Hbk. wp_auto. apply HQ; [done|]. cbn. rewrite Hlen in Hbk.
      split_and!; try done; [by rewrite Htl|lia].
    + apply wp_zoom; cbn. apply ex_DecodeEager_law; [done|done|by rewrite Hlen|done|].
      intros out x' Hx' Htl Htv Hbk. wp_auto. apply HQ; [done|]. cbn. rewrite Hlen in Hbk.
      split_and!; try done; [by rewrite Htl|lia].
Qed.

(** ** The map of live requests *)

Lemma tracked_perm m n h l k : l ≡ₚ k → tracked m n h l → tracked m n h k.
Proof using.
  intros Hlk [H1 H2 H3]. split; [intros p Hp; apply H1; by rewrite Hlk| |done].
  intros i p Hp. destruct (H2 i p Hp). by rewrite <- Hlk.
Qed.

Lemma tracked_frame m n h h' l : (∀ p, p ∈ l → id (h' !!! p) = id (h !!! p)) → tracked m n h l → tracked m n h' l.
Proof using.
  intros Hf [H1 H2 H3]. split; [intros p Hp; rewrite Hf by done; by apply H1| |done].
  intros i p Hp. destruct (H2 i p Hp). split; [done|]. by rewrite Hf.
Qed.

Lemma lookup_drop_finished res : ∀ m i, drop_finished res m !! i = if decide (i ∈ finished_ids res) then None else m !! i.
Proof.
  induction res as [|x res IH]; intros m i; [done|].
  change (drop_finished (x :: res) m) with (drop_finished res (if finished x then delete (request_id x) m else m)).
  rewrite IH. change (x :: res) with ([x] ++ res).
  assert (∀ j, j ∈ finished_ids ([x] ++ res) ↔ (finished x = true ∧ j = request_id x) ∨ j ∈ finished_ids res) as Hin.
  { intros j. rewrite finished_ids_app, elem_of_app. unfold finished_ids at 1. cbn. destruct (finished x); cbn; set_solver. }
  destruct (finished x) eqn:Hf; [destruct (decide (i = request_id x)) as [->|Hne]|].
  - rewrite lookup_delete_eq. repeat case_decide; naive_solver.
  - rewrite lookup_delete_ne by done. repeat case_decide; naive_solver.
  - repeat case_decide; naive_solver.
Qed.

Lemma tracked_drop res m n h l k :
  tracked m n h (l ++ k) → NoDup (l ++ k) → (∀ i, i ∈ finished_ids res ↔ i ∈ ids h k) → tracked (drop_finished res m) n h l.
Proof.
  intros [H1 H2 H3] Hnd Hres. apply NoDup_app in Hnd as (_ & Hd & _).
  assert (∀ p, p ∈ ids h k ↔ ∃ q, q ∈ k ∧ p = id (h !!! q)) as Hids.
  { intros i. unfold ids. rewrite list_elem_of_fmap. naive_solver. }
  split.
  - intros p Hp. rewrite lookup_drop_finished, decide_False; [apply H1; set_solver|].
    rewrite Hres, Hids. intros (q & Hq & Heq). pose proof (H1 p ltac:(set_solver)) as Hp1.
    pose proof (H1 q ltac:(set_solver)) as Hq1. assert (p = q) as -> by congruence. by apply (Hd q).
  - intros i p. rewrite lookup_drop_finished. case_decide as Hi; [done|]. intros Hp. destruct (H2 i p Hp) as [Hin Heq].
    split; [|done]. apply elem_of_app in Hin as [?|Hin]; [done|]. destruct Hi. rewrite Hres, Hids. by eauto.
  - intros i p. rewrite lookup_drop_finished. case_decide; [done|]. apply H3.
Qed.

Lemma tracked_fresh m n h l p r :
  tracked m n h l → (∀ q, q ∈ l → is_Some (h !! q)) → h !! p = None → id r = n →
  tracked (<[n := p]> m) (n + 1) (<[p := r]> h) (l ++ [p]) ∧ m !! n = None.
Proof.
  intros [H1 H2 H3] Hl Hp Hr.
  assert (m !! n = None) as Hn. { destruct (m !! n) eqn:E; [|done]. apply H3 in E. lia. }
  assert (∀ q, q ∈ l → q ≠ p) as Hne by (intros q Hq ->; destruct (Hl p Hq); congruence).
  split; [|done]. split.
  - intros q Hq. apply elem_of_app in Hq as [Hq|Hq].
    2:{ apply list_elem_of_singleton in Hq as ->. by rewrite lookup_total_insert_eq, Hr, lookup_insert_eq. }
    rewrite lookup_total_insert_ne by (symmetry; by apply Hne). rewrite lookup_insert_ne; [by apply H1|].
    intros Heq. pose proof (H1 q Hq) as Hq1. rewrite <- Heq in Hq1. congruence.
  - intros i q. destruct (decide (i = n)) as [->|Hin].
    + rewrite lookup_insert_eq. intros [= <-]. split; [set_solver|]. by rewrite lookup_total_insert_eq.
    + rewrite lookup_insert_ne by done. intros Hq. destruct (H2 i q Hq) as [Hq1 Hq2]. split; [set_solver|].
      by rewrite lookup_total_insert_ne by (symmetry; by apply Hne).
  - intros i q. destruct (decide (i = n)) as [->|Hin]; [lia|]. rewrite lookup_insert_ne by done. intros Hq%H3. lia.
Qed.

(** ** A step *)

(** How a step ends: with nothing to run, or after one completed plan. *)
Inductive step_end e (res : list StepResult) (e' : Engine A X) : Prop :=
  | step_end_idle w1 : live (w_sched (e_world e)) = [] → res = [] → e' = set_world w1 e → step_end e res e'
  | step_end_plan plan w1 : live (w_sched (e_world e)) ≠ [] → PlanStep (e_world e) = (Ok plan, w1) →
      counted xo (ex_has_decode_graphs (executor_ e)) plan (counters e) (counters e') →
      step_end e res e'.

Lemma count_step_counted x w1 plan y k : ex_decode_buckets x = buckets xo → executed_for x w1 plan y →
  counted xo (ex_has_decode_graphs x) plan k (count_step (buckets xo) plan y k).
Proof using.
  clear Ho Hm. intros Hbs (_ & _ & Hp & Hd & Hrep & Hbk). rewrite Hbs in Hrep, Hbk. unfold count_step. rewrite Hp, Hd.
  destruct (decode plan) as [|p l] eqn:Hdec.
  - change (0 <? zlen []) with false. by split; cbn; rewrite ?Hdec.
  - specialize (Hrep ltac:(done)). specialize (Hbk ltac:(done)). set (n := zlen (p :: l)) in *.
    assert (1 <= n) as Hn by (unfold n; zlen; pose proof (zlen_nonneg l); lia).
    assert (0 <? n = true) as Hpos by (apply Z.ltb_lt; lia).
    rewrite (replays_bucket xo _ n Hn) in Hrep. rewrite Hpos.
    split; cbn [steps_ aborts_ prefill_tokens_ decode_tokens_ graph_replays_ eager_decodes_ bucket_decode_steps_ andb];
      rewrite ?Hdec; fold n; try done; try (intros _ Hr; rewrite Hrep, Hr; done).
    intros _. exists (if replays (buckets xo) (ex_has_decode_graphs x) n then SelectBucket n (buckets xo) else decode_rows xo n 0).
    rewrite Hbk, Hrep. unfold rows_run. destruct (replays _ _ _) eqn:Hr.
    + unfold replays in Hr. apply andb_true_iff in Hr as [_ Hr%bool_decide_eq_true%Exists_exists]. destruct Hr as (b & Hb & Hle).
      pose proof (SelectBucket_smallest xo n b Hn Hb Hle) as (Hin & Hge & _). split.
      * split_and!; [done|done|]. intros b' Hb' Hle'. by apply (SelectBucket_smallest xo n b' Hn Hb' Hle').
      * pose proof (BucketForRows_spec xo (SelectBucket n (buckets xo)) (bucket_decode_steps_ k)) as Hm.
        by rewrite (BucketForRows_bucket xo _ Hin) in Hm.
    + split; [by apply decode_rows_eager|apply BucketForRows_spec].
Qed.

Lemma all_req_vocab_text h h' (l k : list RequestPtr) :
  same_text h h' → (∀ p, p ∈ k → p ∈ l) → all_req h (vocab_request c) l → all_req h' (vocab_request c) k.
Proof using.
  intros Ht Hin Hl. apply Forall_forall. intros p Hp. destruct (all_req_elem _ _ _ p Hl (Hin p Hp)) as (r & Hr & Hv).
  destruct (Ht p r Hr) as (r' & Hr' & Heq). exists r'. split; [done|by eapply vocab_text].
Qed.

Lemma same_text_ids h h' (l : list RequestPtr) : same_text h h' → (∀ p, p ∈ l → is_Some (h !! p)) →
  ∀ p, p ∈ l → id (h' !!! p) = id (h !!! p).
Proof using.
  intros Ht Hl p Hp. destruct (Hl p Hp) as [r Hr]. destruct (Ht p r Hr) as (r' & Hr' & Heq).
  rewrite (lookup_total_correct _ _ _ Hr), (lookup_total_correct _ _ _ Hr'). by injection Heq.
Qed.

Lemma count_bucket_length bs b l : length (count_bucket bs b l) = length l.
Proof. unfold count_bucket. destruct (list_find _ _) as [[i ?]|]; [apply length_alter|done]. Qed.

(** The invariant after planning, with the aborted requests still on record. *)
Lemma planned_inv e plan w1 :
  host_inv e → plan_post so u (e_world e) plan w1 →
  all_req (w_heap w1) (vocab_request c) (live (w_sched w1)) ∧
  tracked (requests_ e) (next_request_id_ e) (w_heap w1) (live (w_sched w1) ++ aborted plan) ∧
  NoDup (live (w_sched w1) ++ aborted plan).
Proof using.
  clear Hm Ho. intros [_ Hi Hv Htr] Hpost. destruct (plan_live so u _ _ _ Hi Hpost) as [Hlive Htext].
  split_and!.
  - eapply all_req_vocab_text; [exact Htext| |exact Hv]. intros p Hp. rewrite Hlive. set_solver.
  - apply (tracked_perm _ _ _ _ _ Hlive). eapply tracked_frame; [|exact Htr].
    apply same_text_ids; [done|]. by apply (si_live_lookup so u).
  - rewrite <- Hlive. apply Hi.
Qed.

Lemma tracked_ids m n h l : tracked m n h l → NoDup l → NoDup (ids h l).
Proof.
  intros [H1 _ _] Hnd. unfold ids. apply NoDup_fmap_2_strong; [|done]. intros p q Hp Hq Heq.
  pose proof (H1 p Hp) as Hp1. rewrite Heq, (H1 q Hq) in Hp1. congruence.
Qed.

(** What every step achieves: each finished request is reported once, was on
    record, and leaves it; and while requests are live their work shrinks. *)
Record step_progress e (res : list StepResult) (e' : Engine A X) : Prop := {
  pr_once : NoDup (finished_ids res);
  pr_known i : i ∈ finished_ids res → is_Some (requests_ e !! i);
  pr_requests : requests_ e' = drop_finished res (requests_ e);
  pr_work : live (w_sched (e_world e)) ≠ [] → (total_work (e_world e') < total_work (e_world e))%nat;
  pr_next : next_request_id_ e' = next_request_id_ e;
  pr_reports : ∃ ps, step_reports so (e_world e) (e_world e') (live (w_sched (e_world e))) res ps;
}.

(** A plan is empty exactly when nothing is live. *)
Lemma plan_empty_live w0 plan w1 : sched_inv so u w0 → plan_post so u w0 plan w1 →
  plan_empty plan = true ↔ live (w_sched w0) = [].
Proof using Ho.
  intros Hi Hpost. pose proof (plan_progress so u Ho _ _ _ Hpost) as Hp. destruct (plan_live so u _ _ _ Hi Hpost) as [Hl _].
  pose proof (plan_post_ok _ _ _ _ _ Hpost) as Hok. split.
  - intros He. destruct (live (w_sched w0)) eqn:E; [done|]. rewrite He in Hp. by specialize (Hp ltac:(done)).
  - intros E. rewrite E in Hl. apply Permutation_nil_l in Hl. symmetry in Hl. apply app_nil in Hl as [Hl Ha]. unfold plan_ok, plan_empty in *.
    unfold live, admitted in Hl. apply app_nil in Hl as [_ Hl]. apply app_nil in Hl as [Hq Hr].
    destruct (prefill plan); [destruct Hok as (_ & _ & rest & ? & Hq' & _); congruence|].
    destruct Hok as (_ & -> & _). by rewrite Hr, Ha.
Qed.

(** What completing a plan leaves of the live requests and their record. *)
Lemma completed_inv e plan w1 ts res w2 :
  engine_inv e → plan_post so u (e_world e) plan w1 → sampled_ok w1 plan ts → Forall (in_vocab c) ts →
  complete_post so w1 plan ts res w2 →
  all_req (w_heap w2) (vocab_request c) (live (w_sched w2)) ∧
  tracked (drop_finished res (requests_ e)) (next_request_id_ e) (w_heap w2) (live (w_sched w2)) ∧
  NoDup (finished_ids res) ∧ ∀ i, i ∈ finished_ids res → is_Some (requests_ e !! i).
Proof using Ho Hm.
  intros He Hpost Hts Hvy Hcp. destruct (planned_inv e plan w1 (engine_host e He) Hpost) as (Hv1 & Htr1 & Hnd1).
  destruct (complete_live so u Ho w1 plan ts res w2 (pt_inv _ _ _ _ _ Hpost) (plan_post_ok _ _ _ _ _ Hpost) Hts Hcp)
    as [(fin & Hlive & Hfin) Hext].
  assert (live (w_sched w1) ++ aborted plan ≡ₚ live (w_sched w2) ++ (aborted plan ++ fin)) as Hall
    by (rewrite Hlive; solve_Permutation).
  rewrite Hall in Hnd1. apply (tracked_perm _ _ _ _ _ Hall) in Htr1.
  assert (∀ p, p ∈ live (w_sched w2) → ∃ r r', w_heap w1 !! p = Some r ∧ w_heap w2 !! p = Some r' ∧
    prolongs ts r r' ∧ vocab_request c r) as Hlv.
  { intros p Hp. assert (p ∈ live (w_sched w1)) as Hp1 by (rewrite Hlive; apply elem_of_app; by left).
    destruct (all_req_elem _ _ _ p Hv1 Hp1) as (r & Hr & Hvr). destruct (Hext p r Hr) as (r' & Hr' & He'). by exists r, r'. }
  split_and!.
  - apply Forall_forall. intros p Hp. destruct (Hlv p Hp) as (r & r' & _ & Hr' & He' & Hvr).
    exists r'. split; [done|]. by eapply vocab_prolongs.
  - eapply tracked_frame; [|eapply (tracked_drop _ _ _ _ _ (aborted plan ++ fin)); [done|done|intros i; by rewrite Hfin]].
    intros p Hp. destruct (Hlv p Hp) as (r & r' & Hr & Hr' & [Hid _] & _).
    by rewrite (lookup_total_correct _ _ _ Hr), (lookup_total_correct _ _ _ Hr').
  - eapply sublist_NoDup; [by eapply tracked_ids|]. rewrite Hfin, (ids_app _ (live (w_sched w2))). by apply sublist_inserts_l.
  - intros i Hin. rewrite Hfin in Hin. apply list_elem_of_fmap in Hin as (p & -> & Hp). exists p.
    apply (tk_live _ _ _ _ Htr1), elem_of_app. by right.
Qed.

Lemma wp_Step e : engine_inv e → wp Step (λ res e', engine_inv e' ∧ step_end e res e' ∧ step_progress e res e') e.
Proof using Ho Hm.
  intros He. pose proof He as [Hcfg Hi Hx Hv Htr Hh]. unfold Step.
  destruct (PlanStep_run so u Ho (e_world e) Hi) as (plan & w1 & Hplan & Hpost).
  destruct (planned_inv e plan w1 (engine_host e He) Hpost) as (Hv1 & Htr1 & _). pose proof (plan_empty_live _ _ _ Hi Hpost) as Hlv.
  pose proof (plan_post_ok _ _ _ _ _ Hpost) as Hok. pose proof (pt_inv _ _ _ _ _ Hpost) as Hi1.
  wp_step. apply wp_zoom. eapply wp_eq; [exact Hplan|]. destruct (plan_empty plan) eqn:Hempty.
  { apply wp_ret. split; [|split; [by eapply step_end_idle; [apply Hlv|..]|]].
    - split; try done. cbn. assert (aborted plan = []) as Hab.
      { unfold plan_empty in Hempty. destruct (prefill plan); [done|]. destruct (decode plan); [|done]. by destruct (aborted plan). }
      by rewrite Hab, app_nil_r in Htr1.
    - split; cbn; [constructor|intros i Hin; by apply not_elem_of_nil in Hin|done| |done|].
      + intros Hl. exfalso. by apply Hl, Hlv.
      + exists []. apply reports_silent. by apply (plan_live so u _ _ _ Hi Hpost). }
  wp_step. apply wp_execute; [done|done|done|done|by eapply plan_begin_end|done|]. cbn [executor_ set_world e_world].
  intros y x' Hx' Hy. pose proof Hy as (Hts & Hvy & _).
  destruct (CompleteStep_run so u Ho _ _ _ _ Hpost Hts) as (res & w2 & Hc & Hi2 & Hcp).
  destruct (completed_inv e plan w1 _ res w2 He Hpost Hts Hvy Hcp) as (Hv2 & Htr2 & Honce & Hknown).
  wp_step. apply wp_zoom. cbn. eapply wp_eq; [exact Hc|]. wp_auto. destruct e as [cfg w x m nx k]. cbn in *.
  pose proof (ex_ready_buckets x' Hx') as Hb'. rewrite <- (ex_ready_buckets x Hx) in Hb'. split; [|split].
  - split; cbn; try done. rewrite Hb', <- Hh. case_match; [apply count_bucket_length|done].
  - apply (step_end_plan _ _ _ plan w1); [intros Hl; by apply Hlv in Hl|done|]. cbn. rewrite (ex_ready_buckets x' Hx').
    eapply count_step_counted; [apply (ex_ready_buckets x Hx)|exact Hy].
  - split; cbn; [done|done|done| |done|by eapply step_reports_live]. intros _.
    pose proof (plan_work so u Ho _ _ _ Hi Hpost). pose proof (complete_work so u Ho _ _ _ _ _ Hi1 Hok Hcp).
    unfold plan_empty, is_prefill in *. destruct (prefill plan); [lia|]. destruct (decode plan), (aborted plan); cbn in *; lia || done.
Qed.

(** What the caller learns from a step: at most one result per request, each
    about a request on record; a request without a result keeps its tokens. *)
Record told e (res : list StepResult) (e' : Engine A X) : Prop := {
  td_once : NoDup (map request_id res);
  td_each x : x ∈ res → ∃ p r r', requests_ e !! request_id x = Some p ∧ w_heap (e_world e) !! p = Some r ∧
    w_heap (e_world e') !! p = Some r' ∧ reported so r x r';
  td_rest i p r : requests_ e !! i = Some p → w_heap (e_world e) !! p = Some r → i ∉ map request_id res →
    ∃ r', w_heap (e_world e') !! p = Some r' ∧ text r' = text r;
}.

Lemma step_told e res e' : engine_inv e → step_progress e res e' → told e res e'.
Proof using Ho.
  intros He [_ _ _ _ _ (ps & [Hnd Heach Hrest])]. pose proof (ei_tracked _ He) as Htr.
  assert (∀ p x, report_of so (e_world e) (e_world e') (live (w_sched (e_world e))) p x →
    request_id x = id (w_heap (e_world e) !!! p)) as Hid.
  { intros p x (_ & r & r' & Hr & _ & Hx). rewrite (reported_id _ _ _ _ Hx). by rewrite (lookup_total_correct _ _ _ Hr). }
  assert (map request_id res = ids (w_heap (e_world e)) ps) as Hids.
  { clear Hnd Hrest. induction Heach as [|p x ps res Hx _ IH]; [done|]. cbn. by rewrite (Hid p x Hx), IH. }
  assert (∀ p, p ∈ ps → p ∈ live (w_sched (e_world e))) as Hlive.
  { intros p Hp. apply list_elem_of_lookup in Hp as [k Hk]. destruct (Forall2_lookup_l _ _ _ _ _ Heach Hk) as (x & _ & Hx & _). done. }
  split.
  - rewrite Hids. unfold ids. apply NoDup_fmap_2_strong; [|done]. intros p q Hp Hq Heq.
    pose proof (tk_live _ _ _ _ Htr p (Hlive p Hp)) as Hp1. rewrite Heq, (tk_live _ _ _ _ Htr q (Hlive q Hq)) in Hp1. congruence.
  - intros x Hx. apply list_elem_of_lookup in Hx as [k Hk]. destruct (Forall2_lookup_r _ _ _ _ _ Heach Hk) as (p & _ & Hp).
    pose proof Hp as (Hpl & r & r' & Hr & Hr' & Hrep). exists p, r, r'. rewrite (Hid p x Hp). split; [by apply (tk_live _ _ _ _ Htr)|].
    by split_and!.
  - intros i p r Hi Hr Hn. destruct (tk_back _ _ _ _ Htr i p Hi) as [_ Hpi]. apply (Hrest p r); [|done]. intros Hp. apply Hn.
    rewrite Hids, <- Hpi. by apply (list_elem_of_fmap_2 (λ p, id (w_heap (e_world e) !!! p))).
Qed.

(** ** Running until nothing is live *)

(** [n] further steps, with all their results. *)
Fixpoint steps (n : nat) : M error (Engine A X) (list StepResult) :=
  match n with
  | O => mret []
  | S n' => res ← Step; rest ← steps n'; mret (res ++ rest)
  end.

Lemma live_requests e : engine_inv e → (total_work (e_world e) = 0)%nat → requests_ e = ∅.
Proof using Ho.
  intros He Hw. pose proof (live_nil_work so u Ho (λ _ _, []) _ (ei_sched _ He) Hw) as Hl. apply map_eq. intros i.
  destruct (requests_ e !! i) as [p|] eqn:Hp; [|done]. destruct (tk_back _ _ _ _ (ei_tracked _ He) i p Hp) as [Hin _].
  rewrite Hl in Hin. by apply not_elem_of_nil in Hin.
Qed.

Lemma wp_steps n : ∀ e, engine_inv e → (total_work (e_world e) <= n)%nat →
  wp (steps n) (λ res e', engine_inv e' ∧ requests_ e' = ∅ ∧ NoDup (finished_ids res) ∧
    ∀ i, i ∈ finished_ids res ↔ is_Some (requests_ e !! i)) e.
Proof using Ho Hm.
  induction n as [|n IH]; intros e He Hn.
  { apply wp_ret. assert (requests_ e = ∅) as Hr by (apply live_requests; [done|lia]).
    split_and!; [done|done|constructor|]. intros i. rewrite Hr, lookup_empty. unfold finished_ids. cbn.
    split; [intros Hin; by apply not_elem_of_nil in Hin|by intros []]. }
  cbn [steps]. wp_step. eapply wp_mono; [by apply wp_Step|]. intros res e1 (He1 & _ & [Honce Hknown Hreq Hwork _ _]). wp_step.
  eapply wp_mono; [apply IH; [done|]|].
  { destruct (live (w_sched (e_world e))) as [|p l] eqn:Hl; [|specialize (Hwork ltac:(done)); lia].
    assert (total_work (e_world e1) = 0)%nat; [|lia].
    assert (requests_ e = ∅) as Hr.
    { apply map_eq. intros i. destruct (requests_ e !! i) as [q|] eqn:Hq; [|done].
      destruct (tk_back _ _ _ _ (ei_tracked _ He) i q Hq) as [Hin _]. rewrite Hl in Hin. by apply not_elem_of_nil in Hin. }
    unfold total_work. destruct (live (w_sched (e_world e1))) as [|p l] eqn:Hl1; [done|].
    pose proof (tk_live _ _ _ _ (ei_tracked _ He1) p ltac:(rewrite Hl1; apply list_elem_of_here)) as Hp.
    rewrite Hreq, lookup_drop_finished, Hr in Hp. by case_decide. }
  intros rest e2 (He2 & Hemp & Hnd & Hall). apply wp_ret. split; [done|]. split; [done|]. rewrite finished_ids_app.
  rewrite Hreq in Hall. setoid_rewrite lookup_drop_finished in Hall. split.
  - apply NoDup_app. split; [done|]. split; [|done]. intros i Hi Hi2. apply Hall in Hi2. rewrite decide_True in Hi2 by done. by destruct Hi2.
  - intros i. rewrite elem_of_app, Hall. case_decide as Hd.
    + split; [intros _; by apply Hknown|intros _; by left].
    + split; [by intros [?|?]|intros ?; by right].
Qed.

(** ** Intake *)

Context (malloc : gmap RequestPtr Request → RequestPtr).
Context (Hmalloc : ∀ h, h !! malloc h = None).

(** The engine's acceptance rule, and the reason of a refusal. *)
Definition admitted_whole (r : Request) : Prop :=
  Forall (in_vocab c) (prompt_tokens r) ∧ Forall (in_vocab c) (forced_tokens r) ∧ acceptable so u r.

#[export] Instance admissible_dec r : Decision (admitted_whole r).
Proof. unfold admitted_whole. apply _. Defined.

Definition refusal (r : Request) : reject :=
  match List.find (outside_vocab c) (prompt_tokens r), List.find (outside_vocab c) (forced_tokens r) with
  | Some t, _ => TokenOutsideVocab "prompt_tokens" t (vocab_size c)
  | None, Some t => TokenOutsideVocab "forced_tokens" t (vocab_size c)
  | None, None => rejection so u r
  end.

Lemma find_outside_vocab l : List.find (outside_vocab c) l = None ↔ Forall (in_vocab c) l.
Proof.
  unfold outside_vocab, in_vocab. induction l as [|t l IH]; cbn; [done|]. rewrite Forall_cons.
  destruct (Z.ltb_spec t 0), (Z.leb_spec (vocab_size c) t); cbn; rewrite <- ?IH; split; try done; intros []; lia || done.
Qed.

Lemma check_tokens_run e what ts : model_config_ e = c →
  check_tokens what ts e =
    (match List.find (outside_vocab c) ts with
     | Some t => Err (InvalidArgument (TokenOutsideVocab what t (vocab_size c)))
     | None => Ok ()
     end, e).
Proof. intros Hc. unfold check_tokens, mbind, M_bind, get. rewrite Hc. by destruct (List.find _ _). Qed.

(** The engine after a request is queued under the next id. *)
Definition queued e (p : RequestPtr) (r : Request) : Engine A X :=
  let w := e_world e in
  mkEngine (model_config_ e)
    (mkWorld (<[p := r]> (w_heap w)) (w_alloc w) (set_waiting (waiting_ (w_sched w) ++ [p]) (w_sched w)))
    (executor_ e) (<[next_request_id_ e := p]> (requests_ e)) (next_request_id_ e + 1) (counters e).

Lemma AddRequest_run e prompt mx ign forced :
  engine_inv e → 0 <= next_request_id_ e < 2 ^ 64 - 1 →
  let r := new_request (next_request_id_ e) prompt mx ign forced in
  AddRequest malloc prompt mx ign forced e =
    (if decide (admitted_whole r) then (Ok (next_request_id_ e), queued e (malloc (w_heap (e_world e))) r)
     else (Err (InvalidArgument (refusal r)), e)) ∧
  (admitted_whole r → engine_inv (queued e (malloc (w_heap (e_world e))) r)).
Proof using Hm Ho Hmalloc.
  intros He Hid r. pose proof He as [Hcfg Hi Hx Hv Htr Hh]. destruct e as [cfg [h a s] x m nx k]. cbn in *. subst cfg.
  set (p := malloc h). assert (h !! p = None) as Hp by apply Hmalloc.
  assert (fresh_request r) as Hfr by by repeat eexists.
  assert (∀ q, q ∈ live s → is_Some (h !! q)) as Hsome by apply (si_live_lookup so u _ Hi).
  assert (p ∉ live s) as Hpl by (intros Hin; destruct (Hsome p Hin); congruence).
  assert (sched_inv so u (mkWorld (<[p := r]> h) a s)) as Hi'.
  { eapply sched_inv_frame; [exact Ho|exact Hi|]. intros q Hq. rewrite lookup_insert_ne; [done|by intros ->]. }
  destruct (tracked_fresh m nx h (live s) p r Htr Hsome Hp eq_refl) as [Htr' Hnone].
  split.
  - unfold AddRequest, mbind at 1, M_bind at 1. rewrite check_tokens_run by done.
    destruct (List.find (outside_vocab c) prompt) as [t|] eqn:Hf1.
    { rewrite decide_False; [unfold refusal; cbn; by rewrite Hf1|].
      intros (Hac & _). cbn in Hac. apply find_outside_vocab in Hac. congruence. }
    unfold mbind at 1, M_bind at 1. rewrite check_tokens_run by done.
    destruct (List.find (outside_vocab c) forced) as [t|] eqn:Hf2.
    { rewrite decide_False; [unfold refusal; cbn; by rewrite Hf1, Hf2|].
      intros (_ & Hac & _). cbn in Hac. apply find_outside_vocab in Hac. congruence. }
    assert (admitted_whole r ↔ acceptable so u r) as Hacc.
    { unfold admitted_whole. cbn. rewrite <- !find_outside_vocab. naive_solver. }
    rewrite (decide_ext _ _ _ _ Hacc).
    unfold mbind, M_bind, get, on_world, zoom, unwind, modify, new_cell, mbind, M_bind. cbn [e_world w_heap w_alloc w_sched next_request_id_].
    fold p r. rewrite (Enqueue_run so u Ho _ _ _ _ r Hi') by (done || apply lookup_insert_eq).
    case_decide.
    + cbn. unfold queued, set_requests, set_next_id. cbn. rewrite Hnone.
      unfold u64. by rewrite Z.mod_small by lia.
    + cbn. unfold free_cell, set_world. cbn. rewrite delete_insert_id by done. unfold refusal. cbn. by rewrite Hf1, Hf2.
  - intros (Hv1 & Hv2 & Hac). unfold queued. cbn. split; cbn; try done.
    + eapply sched_inv_enqueue; [exact Hi'|apply lookup_insert_eq|done|done|done].
    + assert (live (set_waiting (waiting_ s ++ [p]) s) ≡ₚ p :: live s) as Hl.
      { unfold live, admitted. cbn. solve_Permutation. }
      apply (all_req_incl _ _ (p :: live s)); [intros q Hq; by rewrite Hl in Hq|]. constructor.
      * exists r. rewrite lookup_insert_eq. split; [done|]. by split.
      * by apply all_req_insert.
    + eapply tracked_perm; [|exact Htr']. unfold live, admitted. cbn. solve_Permutation.
Qed.

(** ** All the engine's histories *)

Inductive engine_reachable : Engine A X → Prop :=
  | er_new a x e : fresh_allocator u a → ex_ready x → Engine_new c so a x = Ok e → engine_reachable e
  | er_add e prompt mx ign forced y e' :
      engine_reachable e → next_request_id_ e < 2 ^ 64 - 1 →
      AddRequest malloc prompt mx ign forced e = (y, e') → engine_reachable e'
  | er_step e y e' : engine_reachable e → Step e = (y, e') → engine_reachable e'.

Lemma engine_reachable_inv e : engine_reachable e → engine_inv e ∧ 0 <= next_request_id_ e.
Proof using Ho Hm Hmalloc.
  induction 1 as [a x e Ha Hx He|e prompt mx ign forced y e' _ [IH Hn] Hid He|e y e' _ [IH Hn] He].
  - unfold Engine_new in He. destruct (Scheduler_new so) as [s|] eqn:Hs; [|done]. injection He as <-.
    pose proof (sched_inv_new so u Ho a s Ha Hs) as Hi. split; [|done]. split; cbn; try done.
    + assert (live s = []) as ->; [|constructor]. pose proof (si_waiting _ _ _ Hi) as Hw. destruct (live s) as [|p l] eqn:Hl; [done|].
      destruct (si_live_lookup so u _ Hi p) as [r Hr]; [cbn; rewrite Hl; apply list_elem_of_here|]. done.
    + split; [|done|done]. intros p Hp. by destruct (si_live_lookup so u _ Hi p Hp).
    + by rewrite length_replicate.
  - destruct (AddRequest_run e prompt mx ign forced IH ltac:(lia)) as [Heq Hinv]. rewrite Heq in He.
    case_decide as Hac; injection He as <- <-; [|done]. split; [by apply Hinv|]. cbn. lia.
  - destruct (proj1 (wp_run _ _ _) (wp_Step e IH)) as (res & e2 & Heq & Hi2 & _ & Hpr). rewrite Heq in He. injection He as <- <-.
    split; [done|]. by rewrite (pr_next _ _ _ Hpr).
Qed.

End engine.
