(* ===== verification/EngineFaults.v ===== *)
(** * What an executor's exception does to the engine

    The executor's contract ([StepExecutorLaws]) says a step on a ready executor
    succeeds.  Here nothing is assumed of the calls that fail: only that a call
    that returns, returns a result of the right shape. *)

From S2P Require Import Prelude Doubles Types BlockAllocator Scheduler SchedulerInv SchedulerPlan SchedulerStep SchedulerLive SchedulerText SchedulerTheorems ModelConfig GemmConfig ExecutorLayout ExecutorMirrors Executor Engine EngineSteps.

(** Results have the shape of the call; a call may also throw. *)
Class StepExecutorShape (X : Type) `{!StepExecutor X} : Prop := {
  sh_prefill (x x' : X) r b e out : ex_PrefillChunk (Some r) b e x = (Ok out, x') →
    final_chunk out = (e =? num_prompt_tokens r);
  sh_eager (x x' : X) rs out : ex_DecodeEager rs x = (Ok out, x') → length (Executor.tokens out) = length rs;
  sh_graph (x x' : X) rs out : ex_DecodeGraph rs x = (Ok out, x') → length (Executor.tokens out) = length rs;
}.

Section faults.
Context {A X : Type} `{!KvAllocator A} `{!KvAllocatorLaws A} `{!StepExecutor X} `{!StepExecutorShape X}.
Context (c : ModelConfig) (so : SchedulerOptions) (u : Z).
Context (Ho : opts_ok so).
Implicit Types (e : Engine A X) (w : World A).

(** Executing a plan touches the executor only, whatever happens. *)
Lemma wpx_execute e plan :
  sched_inv so u (e_world e) → plan_ok so (e_world e) plan →
  wpx (execute plan) (λ y e', (∃ x', e' = set_executor x' e) ∧ sampled_ok (e_world e) plan (sampled_tokens y))
    (λ _ e', ∃ x', e' = set_executor x' e) e.
Proof using Ho StepExecutorShape0.
  intros Hi Hplan. destruct e as [cfg w x m nx k]. cbn in *. unfold execute, plan_ok, sampled_ok in *.
  destruct (prefill plan) as [p|] eqn:Hpre.
  - destruct Hplan as (_ & _ & rest & r & Hq & Hr & _ & _ & _).
    assert (p ∈ prefill_queue_ (w_sched w)) as Hin by (rewrite Hq; apply list_elem_of_here).
    destruct (all_req_elem _ _ _ p (si_prefill _ _ _ Hi) Hin) as (r0 & Hr0 & Hok). assert (r0 = r) as -> by congruence.
    apply wpx_bind, wpx_of_wp, wp_zoom. destruct w as [h a s]. eapply wp_deref; [exact Hr|]. cbn. apply wpx_bind, wpx_zoom. cbn.
    destruct (ex_PrefillChunk (Some r) (prefill_begin plan) (prefill_end plan) x) as [[out|err] x'] eqn:Hx;
      (eapply wpx_eq; [exact Hx|]); cbn; [|by exists x'].
    wpx_auto. split; [by exists x'|]. cbn in Hr. rewrite (lookup_total_correct _ _ _ Hr), (sh_prefill _ _ _ _ _ _ Hx).
    rewrite (num_prompt_tokens_eq so r Ho (po_static _ _ Hok)). by destruct (prefill_end plan =? nprompt r).
  - destruct Hplan as (_ & Hd & Hcov & _). destruct (is_nil (decode plan)) eqn:Hnil.
    { apply is_nil_true in Hnil. wpx_auto. split; [by exists x|]. by rewrite Hnil. }
    apply wpx_bind, wpx_of_wp, wp_zoom. cbn. apply wp_mapM_deref.
    { intros p Hp. rewrite Hd in Hp. destruct (all_req_elem _ _ _ p Hcov Hp) as (r & Hr & _). by exists r. }
    cbn. wpx_auto. cbn. set (rs := map _ _). assert (length rs = length (decode plan)) as Hlen by (unfold rs; by rewrite length_map).
    apply wpx_zoom. cbn.
    match goal with |- context [if ?b then ex_DecodeGraph _ else _] => set (g := b) end.
    destruct ((if g then ex_DecodeGraph rs else ex_DecodeEager rs) x) as [[out|err] x'] eqn:Hx;
      (eapply wpx_eq; [exact Hx|]); cbn; [|by exists x'].
    wpx_auto. split; [by exists x'|]. cbn. rewrite <- Hlen.
    destruct g; [by apply (sh_graph x x')|by apply (sh_eager x x')].
Qed.

(** C2. An executor exception is contained.  If a step throws, whatever the
    executor did, the failure came from the executor: planning had succeeded,
    the counters, the id counter and the table of requests are untouched, the
    scheduler and the allocator are in the consistent state planning left, and
    the live requests are those from before except the ones the plan aborted.
    When the plan aborted none (always under full reservation) the engine's
    invariant still holds, so the step can simply be retried. *)
Theorem step_failure_contained e err e' :
  host_inv c so u e → Step e = (Err err, e') →
  ∃ plan w1 x', PlanStep (e_world e) = (Ok plan, w1) ∧ e' = set_executor x' (set_world w1 e) ∧
    sched_inv so u w1 ∧ live (w_sched (e_world e)) ≡ₚ live (w_sched w1) ++ aborted plan ∧
    (admission_policy so = kReserveFull → aborted plan = []) ∧ (aborted plan = [] → host_inv c so u e').
Proof using Ho StepExecutorShape0 KvAllocatorLaws0.
  intros He Hstep. pose proof He as [Hcfg Hi Hv Htr].
  destruct (PlanStep_run so u Ho (e_world e) Hi) as (plan & w1 & Hplan & Hpost).
  destruct (planned_inv c so u e plan w1 He Hpost) as (Hv1 & Htr1 & _).
  destruct (plan_live so u _ _ _ Hi Hpost) as [Hlive _]. pose proof (pt_inv _ _ _ _ _ Hpost) as Hi1.
  exists plan, w1. assert (∀ x', e' = set_executor x' (set_world w1 e) → aborted plan = [] → host_inv c so u e') as Hretry.
  { intros x' -> Hab. rewrite Hab, app_nil_r in Htr1. by split. }
  assert (admission_policy so = kReserveFull → aborted plan = []) as Hpol.
  { intros Hp. pose proof (plan_post_ok so u _ _ _ Hpost) as Hok. unfold plan_ok in Hok.
    destruct (prefill plan); [by destruct Hok as (_ & ? & _)|]. by apply Hok. }
  assert (wpx Step (λ _ _, True) (λ _ e', ∃ x', e' = set_executor x' (set_world w1 e)) e) as Hwp.
  { unfold Step. apply wpx_bind, wpx_zoom. eapply wpx_eq; [exact Hplan|]. cbn.
    destruct (plan_empty plan); [by apply wpx_ret|]. apply wpx_bind.
    eapply wpx_mono; [apply wpx_execute; [done|by apply (plan_post_ok so u _ _ _ Hpost)]| |done].
    intros y e1 [[x' ->] Hts]. destruct (CompleteStep_run so u Ho _ _ _ _ Hpost Hts) as (res & w2 & Hc & _ & _).
    apply wpx_bind, wpx_zoom. cbn. eapply wpx_eq; [exact Hc|]. cbn. wpx_auto. done. }
  pose proof (wpx_run _ _ _ _ _ _ Hwp Hstep) as [x' Hx]. exists x'. split_and!; try done. by eapply Hretry.
Qed.

End faults.

(** ** A scripted executor *)

Module FaultExample.

(** Each call consumes one entry of the script; [true] makes it throw. *)
Definition script : Type := list bool.
Definition call {B} (b : B) : M error script B := λ x,
  match x with true :: x' => (Err (ExecutorError "device fault"), x') | _ => (Ok b, tail x) end.

#[global] Instance scripted : StepExecutor script := {|
  ex_PrefillChunk o b e := match o with
    | Some r => call (mkPrefillOutput 7 (e =? num_prompt_tokens r) (e - b))
    | None => throw (UndefinedBehaviour "null request") end;
  ex_DecodeEager rs := call (mkDecodeOutput (replicate (length rs) 9) (zlen rs) (-1));
  ex_DecodeGraph rs := call (mkDecodeOutput (replicate (length rs) 9) (zlen rs) (-1));
  ex_has_decode_graphs _ := false;
  ex_decode_buckets _ := [1; 2];
|}.

Lemma scripted_call_ok {B} (b b' : B) x x' : call b x = (Ok b', x') → b' = b.
Proof. unfold call. destruct x as [|[] x]; by intros [=]. Qed.

#[global] Instance scripted_shape : StepExecutorShape script.
Proof.
  split; cbn.
  - intros x x' r b e out Hc. by apply scripted_call_ok in Hc as ->.
  - intros x x' rs out Hc. apply scripted_call_ok in Hc as ->. apply length_replicate.
  - intros x x' rs out Hc. apply scripted_call_ok in Hc as ->. apply length_replicate.
Qed.

(** One live request, and an executor about to throw. *)
Definition world : World BlockAllocator := Example.submit 1%positive (Example.request 1 20 4) (Example.start kReserveFull).
Definition faulty : Engine BlockAllocator script :=
  mkEngine qwen25 world [true] {[1 := 1%positive]} 2 (zero_counters [1; 2]).

Lemma faulty_host : host_inv qwen25 (Example.opts kReserveFull) 8 faulty.
Proof.
  assert (live (w_sched world) = [1%positive]) as Hlive by by vm_compute.
  split; [done| | |]; cbn [e_world faulty requests_ next_request_id_]; rewrite ?Hlive.
  - apply reachable_sched_inv; [apply Example.opts_fine|].
    apply Example.submit_reachable; [apply Example.start_reachable|done|apply Example.request_fresh].
  - apply Forall_singleton. exists (Example.request 1 20 4). split; [by vm_compute|].
    by split; apply (bool_decide_eq_true_1 _); vm_compute.
  - split.
    + intros p ->%list_elem_of_singleton. by vm_compute.
    + intros i p [<- <-]%lookup_singleton_Some. split; [by left|]. by vm_compute.
    + intros i p [<- _]%lookup_singleton_Some. lia.
Qed.

(** An engine under watermark admission with two requests that outgrow the pool. *)
Definition malloc (h : gmap RequestPtr Request) : RequestPtr := stdpp.base.fresh (map_to_list h).*1.
Definition contended (s : script) : Engine BlockAllocator script :=
  match Engine_new qwen25 (Example.opts kWatermark) Example.pool8 s with
  | Ok e =>
      snd (AddRequest malloc (replicate 48 7) 40 false [] (snd (AddRequest malloc (replicate 48 7) 40 false [] e)))
  | Err _ => faulty
  end.

(** [n] calls of [Step], retried after an exception: all results, and how many
    calls threw. *)
Fixpoint attempts (n : nat) (e : Engine BlockAllocator script) : list StepResult * nat * Engine BlockAllocator script :=
  match n with
  | O => ([], 0%nat, e)
  | S n' =>
      let (r, e') := Step e in
      let '(rest, k, e'') := attempts n' e' in
      match r with Ok res => (res ++ rest, k, e'') | Err _ => (rest, S k, e'') end
  end.

Definition finished_as (reason : FinishReason) (res : list StepResult) : list RequestId :=
  map request_id (List.filter (λ r, finished r && bool_decide (sr_finish_reason r = reason)) res).

End FaultExample.

Lemma step_failure_contained_witness :
  ∃ err e', Step FaultExample.faulty = (Err err, e') ∧
    ∃ plan w1 x', PlanStep (e_world FaultExample.faulty) = (Ok plan, w1) ∧
      e' = set_executor x' (set_world w1 FaultExample.faulty) ∧ sched_inv (Example.opts kReserveFull) 8 w1 ∧
      live (w_sched (e_world FaultExample.faulty)) ≡ₚ live (w_sched w1) ++ aborted plan ∧
      (admission_policy (Example.opts kReserveFull) = kReserveFull → aborted plan = []) ∧
      (aborted plan = [] → host_inv qwen25 (Example.opts kReserveFull) 8 e').
Proof.
  exists (ExecutorError "device fault"), (snd (Step FaultExample.faulty)).
  assert (Step FaultExample.faulty = (Err (ExecutorError "device fault"), snd (Step FaultExample.faulty))) as Hs by by vm_compute.
  split; [exact Hs|]. apply (step_failure_contained qwen25 (Example.opts kReserveFull) 8
    (Example.opts_fine kReserveFull) FaultExample.faulty (ExecutorError "device fault")).
  - apply FaultExample.faulty_host.
  - exact Hs.
Defined.

(** Under watermark admission the exception can lose an abort: without a fault
    request 2 is reported as aborted; when the executor throws in the very step
    that aborts it, no later step reports it, nothing is live any more, and its
    entry stays in the table of requests. *)
Theorem abort_report_lost :
  (let '(res, faults, e) := FaultExample.attempts 60 (FaultExample.contended []) in
   faults = 0%nat ∧ FaultExample.finished_as kAborted res = [2] ∧ FaultExample.finished_as kLength res = [1] ∧
   map_to_list (requests_ e) = []) ∧
  (let '(res, faults, e) := FaultExample.attempts 60 (FaultExample.contended (replicate 22 false ++ [true])) in
   faults = 1%nat ∧ FaultExample.finished_as kAborted res = [] ∧ FaultExample.finished_as kLength res = [1] ∧
   live (w_sched (e_world e)) = [] ∧ map_to_list (requests_ e) = [(2, 2%positive)]).
Proof. by vm_compute. Qed.
