(* ===== verification/EngineSystem.v ===== *)
(** * The engine over the model executor

    On a working device the model executor keeps the contract of
    [StepExecutorLaws]; with it, what the whole engine guarantees: scheduler,
    allocator, mirrors, launches, cuBLASLt wrapper and captured graphs together. *)

From S2P Require Import Prelude Doubles Types BlockAllocator Scheduler SchedulerInv SchedulerPlan SchedulerStep SchedulerLive SchedulerText SchedulerStream SchedulerTheorems ModelConfig GemmConfig Gemm GemmServe ExecutorLayout ExecutorMirrors Launches Executor ExecutorInit ExecutorSteps ExecutorWarm Engine EngineSteps.

Section system.
Context {Algo D : Type} (c : ModelConfig) (xo : ExecutorOptions).
Context (lt : LtLibrary Algo) (dev : Device D) (dma : nat → nat).
Context (dump : Z → Z → Z → PrefillGemmMode → M error (Executor Algo D) ()).

(** The operations of [ModelExecutor] on a device whose calls succeed. *)
#[export] Instance model_executor : StepExecutor (Executor Algo D) := {
  ex_PrefillChunk := PrefillChunk c xo lt dev dma (λ _, true) dump;
  ex_DecodeEager := DecodeEager c xo lt dev dma (λ _, true);
  ex_DecodeGraph := DecodeGraph c xo dev dma (λ _, true);
  ex_has_decode_graphs := has_decode_graphs;
  ex_decode_buckets _ := buckets xo;
}.

(** The argmax kernel writes one vocabulary id per row. *)
Definition argmax_in_vocab : Prop :=
  ∀ d, zlen (dev_argmax dev d) = x_max_batch xo ∧ Forall (in_vocab c) (dev_argmax dev d).

Record working : Prop := {
  wk_geometry : geometry_ok c xo;
  wk_mirrors : mirror_geometry xo;
  wk_lt : lt_serves lt kDefaultWorkspaceBytes;
  wk_argmax : argmax_in_vocab;
}.

(** Ready for a step: idle, no dump pending, all graphs or none. *)
Record step_ready (s : Executor Algo D) : Prop := {
  rd_idle : idle xo s;
  rd_dump : x_dump_pending s = false;
  rd_graphs : x_graphs s = [] ∨ captured c xo s;
}.

Context (Hw : working).

Lemma step_ready_step (s s' : Executor Algo D) : step_ready s → idle xo s' → same_object s s' → step_ready s'.
Proof.
  intros [_ Hd Hg] Hi (Hg' & _ & _ & Hd' & _). split; [done|congruence|]. unfold captured in *. by rewrite Hg'.
Qed.

(** The tokens a decode step reads back. *)
Lemma decode_tokens batch rows bkt (s : Executor Algo D) out s' :
  decode_result c xo dev batch rows bkt s out s' → zlen batch <= rows <= x_max_batch xo →
  length (tokens out) = length batch ∧ Forall (in_vocab c) (tokens out) ∧ bucket out = bkt.
Proof using Hw.
  intros (-> & _) Hr. cbn [tokens bucket]. unfold decode_work. rewrite app_assoc, foldl_app. cbn [foldl run_work fst].
  set (d := foldl _ _ _). destruct d as [m d]. cbn. destruct (wk_argmax Hw d) as [Hl Hv].
  assert (take (length batch) (over (take (Z.to_nat rows) (dev_argmax dev d)) (h_argmax m)) = take (length batch) (dev_argmax dev d)) as ->.
  { unfold over. rewrite take_app_le by (rewrite length_take; unfold zlen in *; lia). rewrite take_take. f_equal. unfold zlen in *. lia. }
  split; [rewrite length_take; unfold zlen in *; lia|]. split; [|done]. by apply Forall_take.
Qed.

#[export] Instance model_executor_laws nkv : nkv = num_kv_blocks_ c xo → StepExecutorLaws (Executor Algo D) c xo nkv.
Proof using Hw.
  intros Hnkv. refine {| ex_ready := step_ready |}; rewrite ?Hnkv; pose proof Hw as [Hg Hmg Hlt Harg].
  - done.
  - intros s r b e Q Hs Hck HQ. eapply wp_PrefillChunk; try done; [apply Hs|apply Hs| |].
    { intros d Hnil. destruct (Harg d) as [Hl _]. rewrite Hnil in Hl. pose proof (go_batch _ _ Hg). by rewrite <- Hl in H. }
    cbv zeta. intros out s' Hi Hso _ Hrows Hfin Htok. apply HQ; [by eapply step_ready_step|done|done|].
    intros Hf. rewrite Hf in Htok. destruct (Harg (prefill_state c xo dev r b e s).2) as [_ Hv].
    by apply (proj1 (Forall_lookup _ _) Hv 0%nat).
  - intros s rs Q Hs Hne Hb Hok HQ. eapply wp_DecodeEager; try done; [apply Hs|]. cbv zeta. intros out s' Hres.
    pose proof (zlen_nonneg rs). pose proof (decode_rows_range xo (proj2 Hmg) (zlen rs) 0 ltac:(lia) ltac:(lia)) as Hr.
    destruct (decode_tokens _ _ _ _ _ _ Hres ltac:(lia)) as (Hl & Hv & Hbk).
    apply HQ; [|done|done|done]. destruct Hres as (_ & Hi & Hso & _). by eapply step_ready_step.
  - intros s rs Q Hs Hne Hb Hok Hgr Hbk HQ. change (ex_decode_buckets s) with (buckets xo) in *.
    pose proof (SelectBucket_range xo (proj2 Hmg) (zlen rs)) as Hr. cbn zeta in Hr.
    assert (captured c xo s) as Hcap.
    { destruct (rd_graphs _ Hs) as [Hn|]; [|done]. change (negb (is_nil (x_graphs s)) = true) in Hgr. by rewrite Hn in Hgr. }
    eapply wp_DecodeGraph; try done; [apply Hs|lia|].
    intros out s' Hres. destruct (decode_tokens _ _ _ _ _ _ Hres ltac:(lia)) as (Hl & Hv & Hbo).
    apply HQ; [|done|done|done]. destruct Hres as (_ & Hi & Hso & _). by eapply step_ready_step.
Defined.

End system.

(** ** Construction *)

Definition EngineState (Algo D : Type) : Type := Engine BlockAllocator (Executor Algo D).

(** Steps 4 to 6 of the constructor: the executor, the allocator sized from its
    pool, the scheduler, and the zeroed counters. *)
Definition Engine_construct {Algo D} (c : ModelConfig) (eo : EngineOptions) (xo : ExecutorOptions)
    (lt : LtLibrary Algo) (dev : Device D) (dma : nat → nat) (cuda_ok : nat → bool)
    (weights_layers : Z) : outcome error (EngineState Algo D) :=
  match ModelExecutor_new c xo lt dev dma cuda_ok weights_layers (Executor_members dev) with
  | (Err e, _) => Err e
  | (Ok _, x) =>
      match BlockAllocator_new (num_kv_blocks_ c xo) with
      | Err e => Err e
      | Ok a =>
          let so := MakeSchedulerOptions eo (cfg_eos_token_ids c) in
          match Scheduler_new so with
          | Err e => Err e
          | Ok s => Ok (mkEngine c (mkWorld ∅ a s) x ∅ 1 (zero_counters (buckets xo)))
          end
      end
  end.

(** The histories of an engine on a device whose calls succeed: construction,
    then requests and steps in any order. *)
Inductive served {Algo D} (c : ModelConfig) (eo : EngineOptions) (xo : ExecutorOptions) (lt : LtLibrary Algo) (dev : Device D)
    (dma : nat → nat) (dump : Z → Z → Z → PrefillGemmMode → M error (Executor Algo D) ())
    (malloc : gmap RequestPtr Request → RequestPtr) : EngineState Algo D → Prop :=
  | served_new e :
      Engine_construct c eo xo lt dev dma (λ _, true) (num_layers c) = Ok e → served c eo xo lt dev dma dump malloc e
  | served_add e prompt mx ign forced y e' :
      served c eo xo lt dev dma dump malloc e → next_request_id_ e < 2 ^ 64 - 1 →
      AddRequest malloc prompt mx ign forced e = (y, e') → served c eo xo lt dev dma dump malloc e'
  | served_step e y e' :
      served c eo xo lt dev dma dump malloc e →
      Step (StepExecutor0 := model_executor c xo lt dev dma dump) e = (y, e') → served c eo xo lt dev dma dump malloc e'.

(** A configuration the engine accepts, on a device and libraries that work. *)
Record serving_setup {Algo D} (c : ModelConfig) (eo : EngineOptions) (xo : ExecutorOptions) (b : ExecutorMemoryBudget)
    (lt : LtLibrary Algo) (dev : Device D) : Prop := {
  ss_options : MakeExecutorOptions eo = Ok xo;
  ss_budget : ComputeBudget c xo = Ok b;
  ss_blocks : 1 <= num_kv_blocks b;
  ss_seq : 2 <= eo_max_seq_len eo;
  ss_seq_width : eo_max_seq_len eo + kKvBlockSize <= int32_max;
  ss_chunk_width : eo_max_seq_len eo + eo_prefill_chunk_tokens eo <= int32_max;
  ss_batch_width : eo_max_batch eo <= int32_max;
  ss_dump : eo_debug_dump_dir eo = ""%string;
  ss_lt : lt_serves lt kDefaultWorkspaceBytes;
  ss_argmax : argmax_in_vocab c xo dev;
  ss_widths : derive_widths c xo b = Ok ();
}.

Section serving.
Context {Algo D : Type} (c : ModelConfig) (eo : EngineOptions) (xo : ExecutorOptions) (b : ExecutorMemoryBudget).
Context (lt : LtLibrary Algo) (dev : Device D) (dma : nat → nat).
Context (dump : Z → Z → Z → PrefillGemmMode → M error (Executor Algo D) ()).
Context (malloc : gmap RequestPtr Request → RequestPtr).
Context (Hs : serving_setup c eo xo b lt dev) (Hmalloc : ∀ h, h !! malloc h = None).

Definition so : SchedulerOptions := MakeSchedulerOptions eo (cfg_eos_token_ids c).

Lemma exec_fields :
  x_max_batch xo = eo_max_batch eo ∧ x_max_seq_len xo = eo_max_seq_len eo ∧
  x_prefill_chunk_tokens xo = eo_prefill_chunk_tokens eo ∧ debug_dump_dir xo = ""%string.
Proof using Hs.
  pose proof (ss_options _ _ _ _ _ _ Hs) as H. unfold MakeExecutorOptions in H.
  destruct (int64_of_double _); [|done]. injection H as <-. pose proof (ss_dump _ _ _ _ _ _ Hs). done.
Qed.

Lemma setup_geometry : geometry_ok c xo.
Proof using Hs. eapply budget_geometry. by apply Hs. Qed.

Lemma setup_opts : opts_ok so.
Proof using Hs.
  pose proof exec_fields as (E1 & E2 & E3 & _). pose proof setup_geometry as Hg.
  pose proof (go_batch _ _ Hg). pose proof (go_chunk _ _ Hg). destruct Hs. split; cbn; lia || done.
Qed.

Lemma setup_match : options_match so xo.
Proof using Hs.
  pose proof exec_fields as (E1 & E2 & E3 & _). pose proof (ss_batch_width _ _ _ _ _ _ Hs). split; cbn; congruence || lia.
Qed.

Lemma setup_working : working c xo lt dev.
Proof using Hs.
  pose proof exec_fields as (E1 & E2 & E3 & _). pose proof setup_geometry as Hg.
  pose proof (go_batch _ _ Hg). pose proof (go_seq _ _ Hg).
  split; [done| |by apply Hs|by apply Hs]. pose proof Hs as [_ _ _ ? ? ? ? _ _ _ _]. unfold mirror_geometry, mbps, max_blocks_per_seq.
  pose proof (BlocksForTokens_nonneg (x_max_seq_len xo) ltac:(lia)). pose proof (BlocksForTokens_le (x_max_seq_len xo) ltac:(lia)).
  unfold kKvBlockSize in *. lia.
Qed.

Definition usable : Z := num_kv_blocks_ c xo - 1.

Lemma setup_laws : @StepExecutorLaws (Executor Algo D) (model_executor c xo lt dev dma dump) c xo (usable + 1).
Proof using Hs. apply model_executor_laws; [apply setup_working|]. unfold usable. lia. Defined.

Lemma setup_blocks : num_kv_blocks_ c xo = num_kv_blocks b ∧ 1 <= num_kv_blocks_ c xo <= int32_max.
Proof using Hs.
  pose proof (ss_budget _ _ _ _ _ _ Hs) as Hb. pose proof (ss_blocks _ _ _ _ _ _ Hs) as H1.
  unfold num_kv_blocks_. rewrite Hb. split; [done|]. split; [done|].
  by apply budget_blocks in Hb.
Qed.

#[local] Existing Instance setup_laws.
#[local] Instance ops : StepExecutor (Executor Algo D) := model_executor c xo lt dev dma dump.

Lemma construct_run :
  ∃ x e, ModelExecutor_new c xo lt dev dma (λ _, true) (num_layers c) (Executor_members dev) = (Ok (), x) ∧
    Engine_construct c eo xo lt dev dma (λ _, true) (num_layers c) = Ok e ∧
    e = mkEngine c (e_world e) x ∅ 1 (zero_counters (buckets xo)) ∧ w_heap (e_world e) = ∅ ∧
    live (w_sched (e_world e)) = [] ∧ free_blocks (w_alloc (e_world e)) = usable ∧ engine_reachable c so xo usable malloc e.
Proof using Hs.
  pose proof setup_geometry as Hg. pose proof exec_fields as (E1 & E2 & E3 & E4).
  destruct (proj1 (wp_run _ _ _) (wp_ModelExecutor_new c xo lt dev dma b (ss_budget _ _ _ _ _ _ Hs) (ss_widths _ _ _ _ _ _ Hs) (ss_lt _ _ _ _ _ _ Hs)))
    as ([] & x & Hx & Hi & _ & Hgr & Hd).
  destruct setup_blocks as [_ Hb]. destruct (alloc_inv_new _ Hb) as (a & Ha & Hai & Ht & Hr & Hf).
  assert (options_valid so = true) as Hv.
  { pose proof setup_opts as [? ? ? _ _ _]. unfold options_valid. rewrite !andb_true_iff, !Z.leb_le. cbn in *. done. }
  pose proof (Scheduler_new_run so Hv) as Hsn.
  exists x. eexists. split; [exact Hx|]. unfold Engine_construct. rewrite Hx, Ha. change (MakeSchedulerOptions eo _) with so.
  rewrite Hsn. split; [done|]. split; [done|]. split; [done|]. split; [done|]. split.
  - cbn. unfold free_blocks. rewrite Hf. unfold initial_free_list, usable. rewrite reverse_Permutation. unfold zlen.
    rewrite length_seqZ, Z2Nat.id by lia. apply to_int32_id. unfold int32_ok, int32_max in *. lia.
  - eapply (er_new _ _ _ _ _ a x); [| |unfold Engine_new; by rewrite Hsn].
    + split; [done|]. split; [|split; [done|]].
      * cbn. rewrite alloc_inv_usable by done. unfold usable. lia.
      * cbn. rewrite Hf. unfold initial_free_list, usable. by rewrite reverse_Permutation.
    + change (step_ready c xo x). split; [done| |].
      * rewrite Hd, E4. done.
      * unfold captured. rewrite Hgr. destruct (enable_cuda_graphs xo); [by right|by left].
Qed.

Notation served := (served c eo xo lt dev dma dump malloc).

Lemma served_reachable e : served e → engine_reachable c so xo usable malloc e.
Proof using Hs.
  induction 1 as [e He|e prompt mx ign forced y e' _ IH Hid He|e y e' _ IH He].
  - destruct construct_run as (x & e' & _ & He' & _ & _ & _ & _ & Hr). rewrite He in He'. by injection He' as ->.
  - by eapply er_add.
  - by eapply er_step.
Qed.

Lemma served_inv e : served e → engine_inv c so xo usable e ∧ 0 <= next_request_id_ e.
Proof using Hs Hmalloc.
  intros He. eapply engine_reachable_inv; [apply setup_opts|apply setup_match|done|by apply served_reachable].
Qed.

End serving.

(** ** The guarantees of the whole engine *)

(** The engine comes up.  For every configuration it accepts, on a working
    device, construction succeeds with an empty engine whose pool has one block
    less than the budget's (block 0 is the dummy) and whose first id is 1. *)
Theorem engine_comes_up {Algo D} c eo xo b (lt : LtLibrary Algo) (dev : Device D) dma :
  serving_setup c eo xo b lt dev →
  ∃ e, Engine_construct c eo xo lt dev dma (λ _, true) (num_layers c) = Ok e ∧
    requests_ e = ∅ ∧ next_request_id_ e = 1 ∧ live (w_sched (e_world e)) = [] ∧
    free_blocks (w_alloc (e_world e)) = num_kv_blocks b - 1 ∧
    counters e = zero_counters (MakeDecodeBuckets (eo_max_batch eo)).
Proof.
  intros Hs. destruct (setup_blocks c eo xo b lt dev Hs) as [Hb _].
  destruct (exec_fields c eo xo b lt dev Hs) as (E1 & _).
  destruct (construct_run c eo xo b lt dev dma (λ _ _ _ _, mret ()) (λ _, 1%positive) Hs)
    as (x & e & _ & He & Heq & _ & Hl & Hf & _).
  exists e. rewrite <- Hb, <- E1. split; [exact He|]. rewrite Heq. by split_and!.
Qed.

(** C8. A request is taken whole or not at all.  [AddRequest] succeeds exactly
    when every prompt and forced token is in the vocabulary and the scheduler's
    rules accept it; it then returns the next id, queues the request last and
    records it.  Otherwise it throws the reason and the engine is exactly as
    before: the id is not consumed and nothing is recorded. *)
Theorem add_request_outcome {Algo D} c eo xo b (lt : LtLibrary Algo) (dev : Device D) dma dump malloc e prompt mx ign forced :
  serving_setup c eo xo b lt dev → (∀ h, h !! malloc h = None) →
  served c eo xo lt dev dma dump malloc e → next_request_id_ e < 2 ^ 64 - 1 →
  let r := new_request (next_request_id_ e) prompt mx ign forced in
  let s := MakeSchedulerOptions eo (cfg_eos_token_ids c) in
  let u := num_kv_blocks b - 1 in
  AddRequest malloc prompt mx ign forced e =
    if decide (admitted_whole c s u r) then (Ok (next_request_id_ e), queued e (malloc (w_heap (e_world e))) r)
    else (Err (InvalidArgument (refusal c s u r)), e).
Proof.
  intros Hs Hm He Hid. destruct (served_inv c eo xo b lt dev dma dump malloc Hs Hm e He) as [Hi Hn].
  cbv zeta. rewrite <- (proj1 (setup_blocks c eo xo b lt dev Hs)).
  exact (proj1 (AddRequest_run c (so c eo) xo (usable c xo) (setup_opts c eo xo b lt dev Hs) (setup_match c eo xo b lt dev Hs)
    malloc Hm e prompt mx ign forced Hi (conj Hn Hid))).
Qed.

(** C1. The engine never fails on a working device.  From every state its
    callers can bring it to, [Step] returns: no exception, no failed assertion,
    no access out of range, through admission, planning, the mirrors, the
    kernels, graph replay and completion.  The counters move exactly as the plan
    says - tokens, replays or eager steps, aborts, and the bucket histogram at
    the size the decode rows ran at, replayed or eager; every finished request is reported once and leaves the engine's
    record; and while requests are live each step consumes part of a finite
    amount of work. *)
Theorem engine_step_succeeds {Algo D} c eo xo b (lt : LtLibrary Algo) (dev : Device D) dma dump malloc e :
  serving_setup c eo xo b lt dev → (∀ h, h !! malloc h = None) → served c eo xo lt dev dma dump malloc e →
  ∃ res e', Step (StepExecutor0 := model_executor c xo lt dev dma dump) e = (Ok res, e') ∧
    served c eo xo lt dev dma dump malloc e' ∧
    (live (w_sched (e_world e)) = [] → res = [] ∧ counters e' = counters e) ∧
    (live (w_sched (e_world e)) ≠ [] → (total_work (e_world e') < total_work (e_world e))%nat ∧
       ∃ plan w1, PlanStep (e_world e) = (Ok plan, w1) ∧
         counted xo (has_decode_graphs (executor_ e)) plan (counters e) (counters e')) ∧
    NoDup (finished_ids res) ∧ (∀ i, i ∈ finished_ids res → is_Some (requests_ e !! i)) ∧
    requests_ e' = drop_finished res (requests_ e).
Proof.
  intros Hs Hm He. destruct (served_inv c eo xo b lt dev dma dump malloc Hs Hm e He) as [Hi _].
  pose proof (@wp_Step _ _ _ _ _ c (so c eo) xo (usable c xo) (setup_laws c eo xo b lt dev dma dump Hs)
    (setup_opts c eo xo b lt dev Hs) (setup_match c eo xo b lt dev Hs) e Hi) as Hstep.
  apply wp_run in Hstep as (res & e' & Heq & _ & Hst & [Honce Hknown Hreq Hwork _ _]).
  exists res, e'. split; [exact Heq|]. split; [by eapply served_step|]. split_and!; [| |done|done|done].
  - intros Hl. by destruct Hst as [w1 _ -> ->|].
  - intros Hl. split; [by apply Hwork|]. destruct Hst as [w1 Hl' _ _|plan w1 _ Hp Hct]; [done|]. by exists plan, w1.
Qed.

(** C3. Every accepted request finishes.  Without further arrivals, as many steps
    as there is work in the queues report each request on record as finished
    exactly once - and nothing else - and leave the record empty. *)
Theorem every_request_finishes {Algo D} c eo xo b (lt : LtLibrary Algo) (dev : Device D) dma dump malloc e :
  serving_setup c eo xo b lt dev → (∀ h, h !! malloc h = None) → served c eo xo lt dev dma dump malloc e →
  ∃ res e', steps (StepExecutor0 := model_executor c xo lt dev dma dump) (total_work (e_world e)) e = (Ok res, e') ∧
    requests_ e' = ∅ ∧ NoDup (finished_ids res) ∧ ∀ i, i ∈ finished_ids res ↔ is_Some (requests_ e !! i).
Proof.
  intros Hs Hm He. destruct (served_inv c eo xo b lt dev dma dump malloc Hs Hm e He) as [Hi _].
  pose proof (@wp_steps _ _ _ _ _ c (so c eo) xo (usable c xo) (setup_laws c eo xo b lt dev dma dump Hs)
    (setup_opts c eo xo b lt dev Hs) (setup_match c eo xo b lt dev Hs) _ e Hi (le_n _)) as Hrun.
  apply wp_run in Hrun as (res & e' & Heq & _ & Hr). by exists res, e'.
Qed.

(** C7. What a step tells the caller is what happened.  A step reports each
    request at most once and only requests on record.  A report with a token
    appends that token (or the scripted one in its place) to the request's
    output, says finished exactly when the stop rule fires - a stop token unless
    ignored, else the length - and gives that reason; an abort report, possible
    under the watermark policy only, appends nothing.  A request without a
    report keeps its tokens. *)
Theorem step_tells_callers {Algo D} c eo xo b (lt : LtLibrary Algo) (dev : Device D) dma dump malloc e res e' :
  serving_setup c eo xo b lt dev → (∀ h, h !! malloc h = None) → served c eo xo lt dev dma dump malloc e →
  Step (StepExecutor0 := model_executor c xo lt dev dma dump) e = (Ok res, e') →
  let s := MakeSchedulerOptions eo (cfg_eos_token_ids c) in
  NoDup (map request_id res) ∧
  (∀ x, x ∈ res → ∃ p r r', requests_ e !! request_id x = Some p ∧ w_heap (e_world e) !! p = Some r ∧
     w_heap (e_world e') !! p = Some r' ∧ reported s r x r') ∧
  ∀ i p r, requests_ e !! i = Some p → w_heap (e_world e) !! p = Some r → i ∉ map request_id res →
    ∃ r', w_heap (e_world e') !! p = Some r' ∧ text r' = text r.
Proof.
  intros Hs Hm He Heq. destruct (served_inv c eo xo b lt dev dma dump malloc Hs Hm e He) as [Hi _].
  pose proof (@wp_Step _ _ _ _ _ c (so c eo) xo (usable c xo) (setup_laws c eo xo b lt dev dma dump Hs)
    (setup_opts c eo xo b lt dev Hs) (setup_match c eo xo b lt dev Hs) e Hi) as Hstep.
  apply wp_run in Hstep as (res' & e'' & Heq' & _ & _ & Hpr). rewrite Heq in Heq'. injection Heq' as <- <-.
  by destruct (step_told c (so c eo) xo (usable c xo) (setup_opts c eo xo b lt dev Hs) e res e' Hi Hpr).
Qed.

(** ** A small engine for the served model *)

Module EngineExample.

(** 1 GiB of KV cache, 4 rows, 64 tokens, chunks of 8, graphs on. *)
Definition eopts : EngineOptions :=
  mkEngineOptions "m" (SpecFloat.S754_finite false 4503599627370496 (-52)) 4 true 64 8 kReserveFull 1 "".
Definition xopts : ExecutorOptions := mkExecutorOptions (2 ^ 30) 4 64 8 true 1 "".

(** A device that keeps its last input ids and "samples" their successors. *)
Definition dev : Device (list Z) :=
  mkDevice [] (λ _ d, d) (λ b l d, match b with BInputIds => l | _ => d end)
    (λ d, take 4 (map (λ t, (t + 1) mod 1000) d ++ replicate 4 0)).

Definition malloc (h : gmap RequestPtr Request) : RequestPtr := stdpp.base.fresh (map_to_list h).*1.

Lemma malloc_fresh h : h !! malloc h = None.
Proof.
  destruct (h !! malloc h) as [r|] eqn:Hr; [exfalso|done]. apply (infinite_is_fresh (map_to_list h).*1).
  apply list_elem_of_fmap. exists (malloc h, r). split; [done|]. by apply elem_of_map_to_list.
Qed.

Lemma dev_in_vocab : argmax_in_vocab qwen25 xopts dev.
Proof.
  intros d. cbn [dev_argmax dev]. split.
  - change (x_max_batch xopts) with 4. unfold zlen. rewrite length_take, length_app, length_replicate. lia.
  - apply Forall_take, Forall_app. split; [|by repeat constructor]. apply Forall_forall. intros t Ht.
    apply list_elem_of_fmap in Ht as (x & -> & _). pose proof (Z.mod_pos_bound (x + 1) 1000 ltac:(lia)).
    unfold in_vocab. change (vocab_size qwen25) with 151936. lia.
Qed.

Definition budget : ExecutorMemoryBudget :=
  match ComputeBudget qwen25 xopts with Ok b => b | Err _ => mkBudget 0 0 0 0 0 0 end.

Lemma setup : serving_setup qwen25 eopts xopts budget WorkingExample.lib dev.
Proof.
  split; try by vm_compute.
  - apply WorkingExample.lib_serves.
  - apply dev_in_vocab.
Qed.

Notation serves := (served qwen25 eopts xopts WorkingExample.lib dev (λ _, 0%nat) (λ _ _ _ _, mret ()) malloc).

Lemma up : ∃ e, serves e ∧ next_request_id_ e = 1.
Proof.
  destruct (construct_run qwen25 eopts xopts budget WorkingExample.lib dev (λ _, 0%nat) (λ _ _ _ _, mret ()) malloc setup)
    as (x & e & _ & He & Heq & _). exists e. split; [by apply served_new|by rewrite Heq].
Qed.

(** With one request of two tokens queued. *)
Lemma one_queued : ∃ e, serves e ∧ live (w_sched (e_world e)) ≠ [].
Proof.
  destruct up as (e & He & Hid). destruct (served_inv _ _ _ _ _ _ _ _ _ setup malloc_fresh e He) as [Hi _].
  assert (next_request_id_ e < 2 ^ 64 - 1) as Hlt by (rewrite Hid; lia).
  destruct (AddRequest malloc [5; 6] 4 false [] e) as [y e'] eqn:Heq. exists e'. split; [by eapply served_add|].
  destruct (AddRequest_run qwen25 (so qwen25 eopts) xopts (usable qwen25 xopts) (setup_opts _ _ _ _ _ _ setup) (setup_match _ _ _ _ _ _ setup)
    malloc malloc_fresh e [5; 6] 4 false [] Hi ltac:(rewrite Hid; lia)) as [Hrun _].
  rewrite Heq, Hid in Hrun. rewrite decide_True in Hrun by (apply (bool_decide_eq_true_1 _); by vm_compute).
  injection Hrun as _ ->. unfold live. cbn. destruct (waiting_ (w_sched (e_world e))); done.
Qed.

End EngineExample.

Lemma engine_comes_up_witness :
  ∃ e, Engine_construct qwen25 EngineExample.eopts EngineExample.xopts WorkingExample.lib EngineExample.dev (λ _, 0%nat)
         (λ _, true) (num_layers qwen25) = Ok e ∧ requests_ e = ∅ ∧ free_blocks (w_alloc (e_world e)) = 2339.
Proof.
  destruct (engine_comes_up qwen25 EngineExample.eopts EngineExample.xopts EngineExample.budget WorkingExample.lib
    EngineExample.dev (λ _, 0%nat) EngineExample.setup) as (e & He & Hr & _ & _ & Hf & _).
  exists e. split; [exact He|]. split; [exact Hr|]. rewrite Hf. by vm_compute.
Defined.

Lemma add_request_outcome_witness :
  ∃ e, EngineExample.serves e ∧
    fst (AddRequest EngineExample.malloc [5; 6] 4 false [] e) = Ok 1 ∧
    AddRequest EngineExample.malloc [5; 151936] 4 false [] e =
      (Err (InvalidArgument (TokenOutsideVocab "prompt_tokens" 151936 151936)), e).
Proof.
  destruct EngineExample.up as (e & He & Hid). exists e. split; [exact He|].
  assert (next_request_id_ e < 2 ^ 64 - 1) as Hlt by (rewrite Hid; lia).
  split.
  - pose proof (add_request_outcome _ _ _ _ _ _ _ _ _ e [5; 6] 4 false [] EngineExample.setup EngineExample.malloc_fresh He Hlt) as H.
    cbv zeta in H. rewrite H, Hid. rewrite decide_True by (apply (bool_decide_eq_true_1 _); by vm_compute). reflexivity.
  - pose proof (add_request_outcome _ _ _ _ _ _ _ _ _ e [5; 151936] 4 false [] EngineExample.setup EngineExample.malloc_fresh He Hlt) as H.
    cbv zeta in H. rewrite H, Hid. rewrite decide_False by (apply (bool_decide_eq_false_1 _); by vm_compute). reflexivity.
Defined.

Lemma engine_step_succeeds_witness :
  ∃ e res e', EngineExample.serves e ∧ live (w_sched (e_world e)) ≠ [] ∧
    Step (StepExecutor0 := model_executor qwen25 EngineExample.xopts WorkingExample.lib EngineExample.dev (λ _, 0%nat) (λ _ _ _ _, mret ())) e
      = (Ok res, e') ∧ (total_work (e_world e') < total_work (e_world e))%nat.
Proof.
  destruct EngineExample.one_queued as (e & He & Hl).
  destruct (engine_step_succeeds _ _ _ _ _ _ _ _ _ e EngineExample.setup EngineExample.malloc_fresh He)
    as (res & e' & Heq & _ & _ & Hw & _).
  exists e, res, e'. split; [exact He|]. split; [exact Hl|]. split; [exact Heq|]. apply Hw, Hl.
Defined.

Lemma every_request_finishes_witness :
  ∃ e res e', EngineExample.serves e ∧ live (w_sched (e_world e)) ≠ [] ∧
    steps (StepExecutor0 := model_executor qwen25 EngineExample.xopts WorkingExample.lib EngineExample.dev (λ _, 0%nat) (λ _ _ _ _, mret ()))
      (total_work (e_world e)) e = (Ok res, e') ∧ requests_ e' = ∅.
Proof.
  destruct EngineExample.one_queued as (e & He & Hl).
  destruct (every_request_finishes _ _ _ _ _ _ _ _ _ e EngineExample.setup EngineExample.malloc_fresh He)
    as (res & e' & Heq & Hr & _).
  exists e, res, e'. split; [exact He|]. split; [exact Hl|]. split; [exact Heq|exact Hr].
Defined.

Lemma step_tells_callers_witness :
  ∃ e res e', EngineExample.serves e ∧
    Step (StepExecutor0 := model_executor qwen25 EngineExample.xopts WorkingExample.lib EngineExample.dev (λ _, 0%nat) (λ _ _ _ _, mret ())) e
      = (Ok res, e') ∧ NoDup (map request_id res) ∧ requests_ e ≠ ∅.
Proof.
  destruct EngineExample.one_queued as (e & He & Hl).
  destruct (engine_step_succeeds _ _ _ _ _ _ _ _ _ e EngineExample.setup EngineExample.malloc_fresh He)
    as (res & e' & Heq & _).
  exists e, res, e'. split; [exact He|]. split; [exact Heq|]. split.
  - exact (proj1 (step_tells_callers _ _ _ _ _ _ _ _ _ e res e' EngineExample.setup EngineExample.malloc_fresh He Heq)).
  - destruct (served_inv _ _ _ _ _ _ _ _ _ EngineExample.setup EngineExample.malloc_fresh e He) as [Hi _].
    destruct (live (w_sched (e_world e))) as [|p l] eqn:Hlive; [done|].
    intros Hr. pose proof (tk_live _ _ _ _ (ei_tracked _ _ _ _ _ Hi) p) as Hp. rewrite Hlive, Hr in Hp.
    by specialize (Hp ltac:(apply list_elem_of_here)).
Defined.
