(* ===== verification/EngineClient.v ===== *)
(** * The engine as its callers see it

    A caller knows its requests by id.  This file restates intake and step in
    terms of the requests on record under their ids, without pointers and
    queues; the benchmark driver is verified against it. *)

From S2P Require Import Prelude Doubles Types BlockAllocator Scheduler SchedulerInv SchedulerPlan SchedulerStep SchedulerLive SchedulerText SchedulerStream SchedulerTheorems ModelConfig GemmConfig Gemm GemmServe ExecutorLayout ExecutorMirrors Launches Executor ExecutorInit ExecutorSteps ExecutorWarm Engine EngineSteps EngineSystem.

(** The request on record under an id. *)
Definition on_record {Algo D} (e : EngineState Algo D) (i : RequestId) (r : Request) : Prop :=
  ∃ p, requests_ e !! i = Some p ∧ w_heap (e_world e) !! p = Some r.

Section client.
Context {Algo D : Type} (c : ModelConfig) (eo : EngineOptions) (xo : ExecutorOptions) (b : ExecutorMemoryBudget).
Context (lt : LtLibrary Algo) (dev : Device D) (dma : nat → nat).
Context (dump : Z → Z → Z → PrefillGemmMode → M error (Executor Algo D) ()).
Context (malloc : gmap RequestPtr Request → RequestPtr).
Context (Hs : serving_setup c eo xo b lt dev) (Hmalloc : ∀ h, h !! malloc h = None).
#[local] Instance client_ops : StepExecutor (Executor Algo D) := model_executor c xo lt dev dma dump.
Notation served := (served c eo xo lt dev dma dump malloc).
Notation s := (MakeSchedulerOptions eo (cfg_eos_token_ids c)).
Notation usable := (usable c xo).
#[local] Instance client_laws : StepExecutorLaws (Executor Algo D) c xo (usable + 1) := setup_laws c eo xo b lt dev dma dump Hs.
Implicit Types e : EngineState Algo D.

Lemma client_inv e : served e → engine_inv c s xo usable e ∧ 0 <= next_request_id_ e.
Proof using Hs Hmalloc.
  apply (served_inv c eo xo b lt dev dma dump malloc Hs Hmalloc).
Qed.

(** Requests on record are exactly the live ones. *)
Lemma record_live e : served e → live (w_sched (e_world e)) ≠ [] ↔ ∃ i r, on_record e i r.
Proof using Hs Hmalloc.
  intros He. destruct (client_inv e He) as [Hi _]. pose proof (ei_tracked _ _ _ _ _ Hi) as Htr. split.
  - intros Hl. assert (∃ p, p ∈ live (w_sched (e_world e))) as [p Hp].
    { destruct (live (w_sched (e_world e))) as [|p l]; [done|]. exists p. apply list_elem_of_here. }
    eexists _, _. exists p. split; [by apply (tk_live _ _ _ _ Htr)|]. by eapply live_lookup; [apply Hi|].
  - intros (i & r & p & Hp & _) Hl. destruct (tk_back _ _ _ _ Htr i p Hp) as [Hin _]. rewrite Hl in Hin. by apply not_elem_of_nil in Hin.
Qed.

Lemma record_id e i r : served e → on_record e i r → id r = i.
Proof using Hs Hmalloc.
  intros He (p & Hp & Hr). destruct (client_inv e He) as [Hi _].
  destruct (tk_back _ _ _ _ (ei_tracked _ _ _ _ _ Hi) i p Hp) as [_ Hid]. by rewrite (lookup_total_correct _ _ _ Hr) in Hid.
Qed.

Lemma record_known e i : served e → is_Some (requests_ e !! i) → ∃ r, on_record e i r.
Proof using Hs Hmalloc.
  intros He [p Hp]. destruct (client_inv e He) as [Hi _]. destruct (tk_back _ _ _ _ (ei_tracked _ _ _ _ _ Hi) i p Hp) as [Hin _].
  eexists _. exists p. split; [exact Hp|]. by eapply live_lookup; [apply Hi|].
Qed.

(** A live request has room for another token. *)
Lemma record_room e i r : served e → on_record e i r → noutput r < max_new_tokens r.
Proof using Hs Hmalloc.
  intros He (p & Hp & Hr). destruct (client_inv e He) as [Hi _].
  destruct (tk_back _ _ _ _ (ei_tracked _ _ _ _ _ Hi) i p Hp) as [Hin _]. destruct (ei_sched _ _ _ _ _ Hi) as [_ _ Hwait Hpre Hrun _].
  unfold live, admitted in Hin. rewrite !elem_of_app in Hin. unfold noutput. destruct Hin as [Hin|[Hin|Hin]].
  - destruct (all_req_elem _ _ _ p Hwait Hin) as (r0 & Hr0 & [[_ ? _] _ _ Hout _ _ _ _]). assert (r0 = r) as -> by congruence.
    by rewrite Hout.
  - destruct (all_req_elem _ _ _ p Hpre Hin) as (r0 & Hr0 & [[_ ? _] _ Hout _ _ _ _ _]). assert (r0 = r) as -> by congruence.
    by rewrite Hout.
  - destruct (all_req_elem _ _ _ p Hrun Hin) as (r0 & Hr0 & [_ _ _ Hout _ _ _]). assert (r0 = r) as -> by congruence.
    unfold noutput in Hout. lia.
Qed.

(** The driver's idle test. *)
Lemma idle_live e : s_num_waiting (Stats total_blocks e) + s_num_running (Stats total_blocks e) = zlen (live (w_sched (e_world e))).
Proof using. cbn. unfold num_waiting, num_running, live, admitted. zlen. lia. Qed.

Lemma full_live e : HasCapacity e = false → live (w_sched (e_world e)) ≠ [].
Proof using.
  unfold HasCapacity, num_waiting, live. intros H%Z.ltb_ge Hl. apply app_nil in Hl as [Hl _]. rewrite Hl in H. done.
Qed.

(** ** Intake *)

Lemma client_taken e prompt mx ign forced :
  served e → next_request_id_ e < 2 ^ 64 - 1 →
  admitted_whole c s usable (new_request (next_request_id_ e) prompt mx ign forced) →
  ∃ e', AddRequest malloc prompt mx ign forced e = (Ok (next_request_id_ e), e') ∧ served e' ∧
    next_request_id_ e' = next_request_id_ e + 1 ∧
    total_work (e_world e') = (total_work (e_world e) + Z.to_nat (zlen prompt + mx))%nat ∧
    ∀ i r, on_record e' i r ↔ (i = next_request_id_ e ∧ r = new_request i prompt mx ign forced) ∨ on_record e i r.
Proof using Hs Hmalloc.
  intros He Hid Hwhole. pose proof Hwhole as (_ & _ & Hacc). destruct (client_inv e He) as [Hi Hn].
  set (r := new_request (next_request_id_ e) prompt mx ign forced) in *.
  destruct (AddRequest_run c s xo usable (setup_opts c eo xo b lt dev Hs) (setup_match c eo xo b lt dev Hs)
    malloc Hmalloc e prompt mx ign forced Hi ltac:(lia)) as [Hrun _]. fold r in Hrun.
  rewrite decide_True in Hrun by done.
  set (p := malloc (w_heap (e_world e))) in *. exists (queued e p r). split; [exact Hrun|].
  split; [by eapply served_add|]. split; [done|].
  assert (∀ q, q ∈ live (w_sched (e_world e)) → q ≠ p) as Hne.
  { intros q Hq ->. pose proof (live_lookup s usable (e_world e) p (ei_sched _ _ _ _ _ Hi) Hq) as H. unfold p in H. by rewrite Hmalloc in H. }
  assert (∀ i q, requests_ e !! i = Some q → q ∈ live (w_sched (e_world e)) ∧ i < next_request_id_ e) as Hold.
  { intros i q Hq. split; [by apply (tk_back _ _ _ _ (ei_tracked _ _ _ _ _ Hi) i q)|by apply (tk_ids _ _ _ _ (ei_tracked _ _ _ _ _ Hi) i q)]. }
  split.
  - assert (live (set_waiting (waiting_ (w_sched (e_world e)) ++ [p]) (w_sched (e_world e))) ≡ₚ
      p :: live (w_sched (e_world e))) as Hperm by (unfold live, admitted; cbn; solve_Permutation).
    change (total_work (e_world (queued e p r))) with
      (work_of (<[p:=r]> (w_heap (e_world e))) (live (set_waiting (waiting_ (w_sched (e_world e)) ++ [p]) (w_sched (e_world e))))).
    rewrite (work_of_proper _ _ _ Hperm), work_of_cons, lookup_total_insert_eq.
    rewrite (work_of_frame s (setup_opts c eo xo b lt dev Hs) (w_heap (e_world e))).
    2:{ intros q Hq. apply work_lookup. rewrite lookup_insert_ne; [done|]. symmetry. by apply Hne. }
    change (total_work (e_world e)) with (work_of (w_heap (e_world e)) (live (w_sched (e_world e)))).
    unfold SchedulerLive.work, r, nprompt, noutput. cbn [prompt_tokens prefill_progress max_new_tokens output_tokens new_request]. destruct Hacc as (H1 & H2 & _). cbn in H1, H2. unfold nprompt in H1. cbn in H1.
    unfold zlen in *. cbn [length]. lia.
  - intros i r0. unfold on_record, queued. cbn. split.
    + intros (q & Hq & Hr). destruct (decide (i = next_request_id_ e)) as [->|Hni].
      * left. split; [done|]. rewrite lookup_insert_eq in Hq. injection Hq as <-. rewrite lookup_insert_eq in Hr. by injection Hr as <-.
      * right. rewrite lookup_insert_ne in Hq by done. exists q. split; [done|].
        rewrite lookup_insert_ne in Hr; [done|]. symmetry. by apply Hne, (Hold i).
    + intros [[-> ->]|(q & Hq & Hr)]; [exists p; by rewrite !lookup_insert_eq|]. exists q. destruct (Hold i q Hq) as [Hl Hlt].
      rewrite !lookup_insert_ne; [done|symmetry; by apply Hne|lia].
Qed.

Lemma client_refused e prompt mx ign forced :
  served e → next_request_id_ e < 2 ^ 64 - 1 →
  ¬ admitted_whole c s usable (new_request (next_request_id_ e) prompt mx ign forced) →
  ∃ why, AddRequest malloc prompt mx ign forced e = (Err (InvalidArgument why), e).
Proof using Hs Hmalloc.
  intros He Hid Hno. destruct (client_inv e He) as [Hi Hn].
  destruct (AddRequest_run c s xo usable (setup_opts c eo xo b lt dev Hs) (setup_match c eo xo b lt dev Hs)
    malloc Hmalloc e prompt mx ign forced Hi ltac:(lia)) as [Hrun _].
  rewrite decide_False in Hrun by done. eexists. exact Hrun.
Qed.

Lemma client_add e prompt mx ign :
  served e → next_request_id_ e < 2 ^ 64 - 1 →
  Forall (in_vocab c) prompt → acceptable s usable (new_request (next_request_id_ e) prompt mx ign []) →
  ∃ e', AddRequest malloc prompt mx ign [] e = (Ok (next_request_id_ e), e') ∧ served e' ∧
    next_request_id_ e' = next_request_id_ e + 1 ∧
    total_work (e_world e') = (total_work (e_world e) + Z.to_nat (zlen prompt + mx))%nat ∧
    ∀ i r, on_record e' i r ↔ (i = next_request_id_ e ∧ r = new_request i prompt mx ign []) ∨ on_record e i r.
Proof using Hs Hmalloc.
  intros He Hid Hv Hacc. apply client_taken; [done|done|]. split_and!; [done|constructor|done].
Qed.

(** ** A step *)

(** What one step does to the requests on record. *)
Record step_client e (res : list StepResult) e' : Prop := {
  sc_served : served e';
  sc_next : next_request_id_ e' = next_request_id_ e;
  sc_once : NoDup (map request_id res);
  sc_each x : x ∈ res → ∃ r r', on_record e (request_id x) r ∧ reported s r x r' ∧
    if Types.finished x then ¬ ∃ r, on_record e' (request_id x) r else on_record e' (request_id x) r';
  sc_rest i r : on_record e i r → i ∉ map request_id res → ∃ r', on_record e' i r' ∧ text r' = text r;
  sc_new i r : on_record e' i r → ∃ r, on_record e i r;
  sc_room i r : on_record e i r → noutput r < max_new_tokens r;
  sc_work : (∃ i r, on_record e i r) → (total_work (e_world e') < total_work (e_world e))%nat;
}.

Lemma client_step e : served e → ∃ res e', Step e = (Ok res, e') ∧ step_client e res e'.
Proof using Hs Hmalloc.
  intros He. destruct (client_inv e He) as [Hi _].
  pose proof (wp_Step c s xo usable (setup_opts c eo xo b lt dev Hs) (setup_match c eo xo b lt dev Hs) e Hi) as Hstep.
  apply wp_run in Hstep as (res & e' & Heq & _ & _ & Hpr). exists res, e'. split; [exact Heq|].
  pose proof (step_told c s xo usable (setup_opts c eo xo b lt dev Hs) e res e' Hi Hpr) as [Honce Heach Hrest].
  pose proof Hpr as [_ _ Hreq Hwork Hnext _]. assert (served e') as He' by (by eapply served_step).
  assert (∀ i, i ∈ finished_ids res ↔ ∃ x, x ∈ res ∧ Types.finished x = true ∧ request_id x = i) as Hfin.
  { intros i. unfold finished_ids. rewrite list_elem_of_fmap. setoid_rewrite list_elem_of_filter. naive_solver. }
  assert (∀ x y, x ∈ res → y ∈ res → request_id x = request_id y → x = y) as Hinj.
  { intros x y [j Hx]%list_elem_of_lookup [k Hy]%list_elem_of_lookup Hxy.
    assert (j = k) as ->; [|congruence]. apply (NoDup_lookup (map request_id res) j k (request_id x)); [done|..];
      rewrite list_lookup_fmap; [by rewrite Hx|rewrite Hy; cbn; by rewrite Hxy]. }
  assert (∀ i p, requests_ e' !! i = Some p ↔ requests_ e !! i = Some p ∧ i ∉ finished_ids res) as Hlk.
  { intros i p. rewrite Hreq, (lookup_drop_finished s xo); [|exact (setup_opts c eo xo b lt dev Hs)|exact (setup_match c eo xo b lt dev Hs)].
    case_decide; naive_solver. }
  split; [done|done|done|..].
  - intros x Hx. destruct (Heach x Hx) as (p & r & r' & Hp & Hr & Hr' & Hrep). exists r, r'. split; [by exists p|].
    split; [done|]. destruct (Types.finished x) eqn:Hf.
    + intros (r0 & q & Hq & _). apply Hlk in Hq as [_ Hq]. apply Hq, Hfin. by exists x.
    + exists p. split; [|done]. apply Hlk. split; [done|]. rewrite Hfin. intros (y & Hy & Hyf & Hid).
      assert (y = x) as -> by by apply Hinj. congruence.
  - intros i r (p & Hp & Hr) Hni. destruct (Hrest i p r Hp Hr Hni) as (r' & Hr' & Htx). exists r'. split; [|done].
    exists p. split; [|done]. apply Hlk. split; [done|]. rewrite Hfin. intros (x & Hx & _ & <-). apply Hni.
    by apply list_elem_of_fmap_2.
  - intros i r (p & Hp & _). apply Hlk in Hp as [Hp _]. by apply record_known.
  - intros i r. by apply record_room.
  - intros Hex. apply Hwork. by apply record_live.
Qed.

End client.
