(* ===== verification/EngineBoot.v ===== *)
(** * Bringing the engine up from a model directory ([Engine::Engine])

    The constructor of core/engine.cpp end to end: configuration, checkpoint,
    memory preflight, weight upload on a temporary stream, executor, allocator,
    scheduler.  Each step is the component's own definition; this file adds the
    order, the resources each step holds and the unwinding when one throws. *)

From S2P Require Import Prelude Doubles Types BlockAllocator Scheduler SchedulerInv SchedulerPlan SchedulerStep SchedulerLive SchedulerText SchedulerStream SchedulerTheorems ModelConfig GemmConfig Gemm GemmServe Json HalfFloat Uploader Safetensors SafetensorsIndex SafetensorsFormat Weights WeightsLoad Config ExecutorLayout ExecutorMirrors Launches Executor ExecutorInit ExecutorSteps ExecutorWarm Engine EngineSteps EngineSystem.

(** [StagedUploader]'s default: two slots of 16 MiB. *)
Definition kDefaultStagingBytes : Z := Z.shiftl 32 20.

Inductive boot_error : Type :=
  | BadConfig (e : config_error)
  | BadCheckpoint (e : SafetensorsError)
  | BadWeights (e : weights_error)
  | BadStaging (e : load_error)
  | Refused (e : error).

(** A C++ exception, as opposed to an abort. *)
Definition throws (e : boot_error) : bool :=
  match e with
  | BadWeights (WeightsAssertion _) | BadWeights (UploadFailed (SourceTooShort | LoadOutOfFuel)) => false
  | Refused e => is_exception e
  | _ => true
  end.

(** What construction acquires outside the engine object itself: descriptors
    and mappings, CUDA streams, device memory and the slabs allocated in it,
    pinned staging buffers and their events. *)
Record Machine : Type := mkMachine {
  m_os : Os;
  m_streams : Z;
  m_device : Z → Z;
  m_slabs : list Z;
  m_host : Host;
}.

Definition set_os v m := mkMachine v (m_streams m) (m_device m) (m_slabs m) (m_host m).
Definition add_streams n m := mkMachine (m_os m) (m_streams m + n) (m_device m) (m_slabs m) (m_host m).
Definition free_slab p m := mkMachine (m_os m) (m_streams m) (m_device m) (List.remove Z.eq_dec p (m_slabs m)) (m_host m).
Definition set_host h m := mkMachine (m_os m) (m_streams m) (m_device m) (m_slabs m) h.

Notation BM := (M boot_error Machine).

(** A component's computation, on its part of the machine. *)
Definition part {E T A} (view : Machine → T) (update : T → Machine → Machine) (wrap : E → boot_error) (m : M E T A) : BM A := λ s,
  match m (view s) with
  | (Ok a, t) => (Ok a, update t s)
  | (Err e, t) => (Err (wrap e), update t s)
  end.

Definition pure {A} (o : outcome error A) : BM A := match o with Ok a => mret a | Err e => throw (Refused e) end.

(** [cleanup] runs when an exception leaves [m]. *)
Definition unwind_boot {A} (cleanup : BM ()) (m : BM A) : BM A := λ s,
  match m s with
  | (Err e, s') => (Err e, if throws e then snd (cleanup s') else s')
  | r => r
  end.

(** The machine's side, which the constructor calls into. *)
Record Platform (Algo D : Type) : Type := mkPlatform {
  (** the file system, and the iteration order of a tensor map *)
  pf_disk : string → OsFile;
  pf_exists : string → bool;
  pf_append : string → string → string;
  pf_parent : string → string;
  pf_iteration : TensorMap → list (string * TensorView);
  (** the loader's runtime: copy-engine schedule, answers, [cudaMalloc], fresh
      staging memory and whether it is granted, the slots' events, the two
      stream calls and [cudaMemGetInfo] *)
  pf_load_dma : nat → nat;
  pf_load_ok : nat → bool;
  pf_malloc : Z → option Z;
  pf_fill : bool → list Z;
  pf_host_alloc : bool;
  pf_event_created : bool → bool;
  pf_stream_created : bool;
  pf_stream_destroyed : bool;
  pf_mem_free : option Z;
  (** the executor's *)
  pf_lt : LtLibrary Algo;
  pf_dev : Device D;
  pf_dma : nat → nat;
  pf_cuda_ok : nat → bool;
}.
Arguments mkPlatform {Algo D}.
Arguments pf_disk {Algo D}.
Arguments pf_exists {Algo D}.
Arguments pf_append {Algo D}.
Arguments pf_parent {Algo D}.
Arguments pf_iteration {Algo D}.
Arguments pf_load_dma {Algo D}.
Arguments pf_load_ok {Algo D}.
Arguments pf_malloc {Algo D}.
Arguments pf_fill {Algo D}.
Arguments pf_host_alloc {Algo D}.
Arguments pf_event_created {Algo D}.
Arguments pf_stream_created {Algo D}.
Arguments pf_stream_destroyed {Algo D}.
Arguments pf_mem_free {Algo D}.
Arguments pf_lt {Algo D}.
Arguments pf_dev {Algo D}.
Arguments pf_dma {Algo D}.
Arguments pf_cuda_ok {Algo D}.

Section boot.
Context {Algo D : Type} {reader : JsonReader} (pf : Platform Algo D).
Notation disk := (pf_disk pf).
Notation path_exists := (pf_exists pf).
Notation path_append := (pf_append pf).
Notation parent_path := (pf_parent pf).
Notation iteration := (pf_iteration pf).
Notation load_dma := (pf_load_dma pf).
Notation load_ok := (pf_load_ok pf).
Notation cuda_malloc := (pf_malloc pf).
Notation fill := (pf_fill pf).
Notation host_alloc := (pf_host_alloc pf).
Notation event_created := (pf_event_created pf).
Notation stream_created := (pf_stream_created pf).
Notation stream_destroyed := (pf_stream_destroyed pf).
Notation mem_free := (pf_mem_free pf).
Notation lt := (pf_lt pf).
Notation dev := (pf_dev pf).
Notation dma := (pf_dma pf).
Notation cuda_ok := (pf_cuda_ok pf).

Definition file_text (path : string) : option (list Z) :=
  if can_open (disk path) then Some (contents (disk path)) else None.

Definition open_stream : BM () :=
  if stream_created then modify (add_streams 1) else throw (Refused (EngineError "create weight-load stream")).
Definition close_stream : BM () :=
  if stream_destroyed then modify (add_streams (-1)) else throw (Refused (EngineError "destroy weight-load stream")).

(** The scope of [StagedUploader uploader]: its destructor runs on every way out. *)
Definition with_uploader {A} (m : M weights_error Load A) : BM A := λ s,
  match StagedUploader_new host_alloc event_created kDefaultStagingBytes fill (m_device s) (m_host s) with
  | (Err e, h) => (Err (BadStaging e), set_host h s)
  | (Ok u, h) =>
      let (y, l) := m (mkLoad u None (m_slabs s)) in
      (match y with Ok a => Ok a | Err e => Err (BadWeights e) end,
       mkMachine (m_os s) (m_streams s) (device (Destroy (wl_uploader l))) (live_slabs l) (release_host h))
  end.

Definition free_weights (w : DeviceWeights) : BM () := modify (free_slab (dw_slab w)).

(** Step 3. *)
Definition load_weights (model : SafetensorsModel) (c : ModelConfig) : BM DeviceWeights :=
  open_stream;;
  w ← unwind_boot close_stream (with_uploader (DeviceWeights_new load_dma load_ok cuda_malloc model c));
  unwind_boot (free_weights w) close_stream;;
  mret w.

Definition close_model (model : SafetensorsModel) : BM () := part m_os set_os BadCheckpoint (release_all (shards_ model)).

(** Steps 2 to 6, with the checkpoint open. *)
Definition boot_open (o : EngineOptions) (c : ModelConfig) (exec : ExecutorOptions) (model : SafetensorsModel) :
    BM (EngineState Algo D * DeviceWeights) :=
  weight_bytes ← part (λ s, s) (λ s _, s) BadWeights (TotalDeviceBytes c (Contains model "lm_head.weight"));
  pure (preflight c o exec weight_bytes mem_free);;
  w ← load_weights model c;
  e ← unwind_boot (free_weights w) (pure (Engine_construct c o exec lt dev dma cuda_ok (dw_num_layers w)));
  mret (e, w).

Definition Engine_boot (o : EngineOptions) : BM (EngineState Algo D * DeviceWeights) :=
  c ← part (λ s, s) (λ s _, s) BadConfig (FromModelDir file_text path_append (model_dir o));
  exec ← pure (checked_options o);
  model ← part m_os set_os BadCheckpoint (OpenDir disk path_exists path_append parent_path iteration (model_dir o));
  r ← unwind_boot (close_model model) (boot_open o c exec model);
  close_model model;;
  mret r.

(** ** Rules *)

Implicit Types s : Machine.

Lemma wpx_part {E T A} view update (wrap : E → boot_error) (m : M E T A) Q (R : boot_error → Machine → Prop) s :
  wpx m (λ a t, Q a (update t s)) (λ e t, R (wrap e) (update t s)) (view s) → wpx (part view update wrap m) Q R s.
Proof using. unfold wpx, part. by destruct (m (view s)) as [[] ?]. Qed.

Lemma wpx_pure {A} (x : outcome error A) (Q : A → Machine → Prop) (R : boot_error → Machine → Prop) s :
  (∀ a, x = Ok a → Q a s) → (∀ e, x = Err e → R (Refused e) s) → wpx (pure x) Q R s.
Proof using. destruct x; cbn; auto. Qed.

Lemma wpx_unwind_boot {A} (cleanup : BM ()) (m : BM A) Q (R : boot_error → Machine → Prop) s :
  wpx m Q (λ e s', R e (if throws e then snd (cleanup s') else s')) s → wpx (unwind_boot cleanup m) Q R s.
Proof using. unfold wpx, unwind_boot. by destruct (m s) as [[] ?]. Qed.

(** ** The weights *)

Section loading.
Context (model : SafetensorsModel) (c : ModelConfig) (s : Machine).
Context (Hviews : ∀ name v, Tensor model name = Ok v → view_ok v).
Context (Hmalloc : ∀ n p, cuda_malloc n = Some p → (256 | p) ∧ p ∉ m_slabs s).
Let b := Contains model "lm_head.weight".

(** The store of [w] in the machine [s']: everything resident, nothing else
    written, one more slab. *)
Record weights_up (w : DeviceWeights) (s' : Machine) : Prop := {
  wu_layout : dw_layout w = design_layout b;
  wu_layers : dw_num_layers w = num_layers c;
  wu_valid : Forall (entry_valid model) (design_map b);
  wu_resident e : e ∈ design_map b → resident model b (dw_slab w) (m_device s') e;
  wu_outside a : (∀ e, e ∈ design_map b → ¬ in_entry b (dw_slab w) e a) → m_device s' a = m_device s a;
  wu_fresh : dw_slab w ∉ m_slabs s;
  wu_slabs : m_slabs s' = dw_slab w :: m_slabs s;
  wu_os : m_os s' = m_os s;
  wu_host : m_host s' = m_host s;
}.

(** Why the upload may give up. *)
Definition weight_fault (err : weights_error) : Prop :=
  load_refused cuda_malloc model c err ∨ upload_refused model b err ∨ load_fault load_ok err.

(** Why there may be no uploader. *)
Definition staging_fault (err : load_error) : Prop :=
  err = CudaFailed "cudaHostAlloc(staging)" ∧ host_alloc = false ∨
  err = CudaFailed "cudaEventCreateWithFlags(slot event)" ∧ ∃ k, event_created k = false.

Definition upload_fault (err : boot_error) : Prop :=
  (∃ x, err = BadWeights x ∧ weight_fault x) ∨ ∃ x, err = BadStaging x ∧ staging_fault x.

(** The buffer and the events are given back; the first event is not when the
    second is refused. *)
Definition host_restored (s' : Machine) : Prop :=
  m_host s' = m_host s ∨ event_created true = false ∧ m_host s' = add_events 1 (m_host s).

Lemma Destroy_quiescent u : quiescent u → device (Destroy u) = device u.
Proof using.
  intros [_ Hq]. assert (∀ k v, (∀ k, no_copy k (queue v)) →
    device (if slot_pending_ v k then EventSynchronize k v else v) = device v ∧
    ∀ k', no_copy k' (queue (if slot_pending_ v k then EventSynchronize k v else v))) as H.
  { intros k v Hv. destruct (slot_pending_ v k); [|done]. unfold EventSynchronize.
    destruct (after_record k (queue v)) as [rest|] eqn:Hr; [|done]. cbn. split.
    - apply exec_no_copies. intros k'. apply Forall_take, Hv.
    - intros k'. destruct (after_record_suffix k _ _ Hr) as (x & pre & Hp). specialize (Hv k'). rewrite Hp in Hv.
      apply no_copy_app in Hv as [_ Hv]. by apply Forall_cons in Hv as [_ ?]. }
  unfold Destroy. destruct (H false u Hq) as [<- Hq']. by apply H.
Qed.

Lemma weight_fault_throws err : weight_fault err → throws (BadWeights err) = true.
Proof using.
  intros [Hr|[Hr|Hr]].
  - destruct err; try done; by destruct Hr as (? & ? & []).
  - by destruct Hr as (? & ? & ? & ? & _ & _ & _ & _ & ->).
  - by destruct Hr as (? & -> & ? & ? & -> & _).
Qed.

Lemma wpx_with_uploader :
  wpx (with_uploader (DeviceWeights_new load_dma load_ok cuda_malloc model c))
    (λ w s', weights_up w s' ∧ m_streams s' = m_streams s)
    (λ err s', upload_fault err ∧ throws err = true ∧
       m_os s' = m_os s ∧ m_streams s' = m_streams s ∧ m_slabs s' = m_slabs s ∧ host_restored s') s.
Proof using Hviews Hmalloc.
  unfold with_uploader, wpx.
  pose proof (wpx_StagedUploader_new host_alloc event_created kDefaultStagingBytes fill (m_device s) (m_host s) ltac:(done)) as Hnew.
  unfold wpx in Hnew. destruct (StagedUploader_new _ _ _ _ _ _) as [[u|e] h].
  2:{ split_and!; [right; exists e; split; [done|]|done|done|done|done|]; unfold staging_fault, host_restored;
        destruct Hnew; cbn; eauto 6. }
  destruct Hnew as [Hu Hd _ _ Hh].
  pose proof (DeviceWeights_new_outcome load_dma load_ok cuda_malloc model c u (m_slabs s) Hu Hviews Hmalloc) as H. cbv zeta in H.
  destruct (DeviceWeights_new _ _ _ _ _ _) as [[w|err] l]; cbn.
  - destruct H as (Hl & Hn & Hm & Hs & Hq & Hv & [_ Hr Ho] & Hdev). rewrite <- Hdev in Hr, Ho.
    split; [|done]. split; cbn; rewrite ?(Destroy_quiescent _ Hq), <- ?Hd; try done. by apply (Hmalloc _ _ Hm).
  - destruct H as (_ & Hs & Hr). split_and!; [left; by exists err|by apply weight_fault_throws|done|done|done|by left].
Qed.

End loading.

Section acquiring.
Context (model : SafetensorsModel) (c : ModelConfig) (s : Machine).
Context (Hviews : ∀ name v, Tensor model name = Ok v → view_ok v).
Context (Hmalloc : ∀ n p, cuda_malloc n = Some p → (256 | p) ∧ p ∉ m_slabs s).

Lemma free_slab_fresh w s' : dw_slab w ∉ m_slabs s → m_slabs s' = dw_slab w :: m_slabs s → m_slabs (free_slab (dw_slab w) s') = m_slabs s.
Proof using.
  intros Hf Hs. cbn. rewrite Hs. cbn. destruct (Z.eq_dec (dw_slab w) (dw_slab w)); [|done].
  apply List.notin_remove. by rewrite <- list_elem_of_In.
Qed.

(** Everything acquired since [s] is released; a stream the runtime refuses to
    destroy is not, nor the first event of a slot when the second is refused. *)
Definition restored s' : Prop :=
  m_os s' = m_os s ∧ m_slabs s' = m_slabs s ∧
  (m_streams s' = m_streams s ∨ stream_destroyed = false ∧ m_streams s' = m_streams s + 1) ∧
  host_restored s s'.

Definition no_stream : Prop := stream_created = false ∨ stream_destroyed = false.

Lemma restored_refl : restored s.
Proof using. split_and!; [done|done|by left|by left]. Qed.

Lemma wpx_load_weights :
  wpx (load_weights model c)
    (λ w s', weights_up model c s w s' ∧ m_streams s' = m_streams s)
    (λ err s', (upload_fault model c err ∨ (∃ what, err = Refused (EngineError what) ∧ no_stream)) ∧
       throws err = true ∧ restored s') s.
Proof using Hviews Hmalloc.
  unfold load_weights. apply wpx_bind. unfold open_stream. destruct stream_created eqn:Hc.
  2:{ apply wpx_throw. split; [|split; [done|apply restored_refl]]. right. eexists. split; [done|by left]. }
  apply wpx_modify, wpx_bind, wpx_unwind_boot.
  eapply wpx_mono; [apply (wpx_with_uploader model c (add_streams 1 s) Hviews Hmalloc)| |].
  - intros w s1 [Hw Hstr]. apply wpx_bind, wpx_unwind_boot. unfold close_stream. destruct stream_destroyed eqn:Hd.
    + apply wpx_modify, wpx_ret. split; [by destruct Hw; split|]. cbn in *. lia.
    + apply wpx_throw. cbn [throws is_exception free_weights modify snd]. split.
      { right. eexists. split; [done|by right]. }
      split; [done|]. split_and!.
      * apply (wu_os _ _ _ _ _ Hw).
      * by apply free_slab_fresh; destruct Hw.
      * right. split; [done|]. by cbn in *.
      * left. apply (wu_host _ _ _ _ _ Hw).
  - intros err s1 (Hwhy & Hthrow & Hos & Hstr & Hsl & Hh). rewrite Hthrow. split; [by left|]. split; [done|]. unfold close_stream, restored.
    destruct stream_destroyed eqn:Hd; cbn in *; split_and!; try done; [left; lia|by right].
Qed.

End acquiring.

(** ** The whole constructor *)

Lemma TotalDeviceBytes_design {S} c b (s : S) : design_geometry c → TotalDeviceBytes c b s = (Ok (slab_bytes b), s).
Proof using.
  intros Hg. unfold TotalDeviceBytes, mbind, M_bind. rewrite ComputeWeightsLayout_design by done. by destruct b.
Qed.

Lemma Engine_construct_config c o exec wl (e : EngineState Algo D) :
  Engine_construct c o exec lt dev dma cuda_ok wl = Ok e → model_config_ e = c.
Proof using.
  unfold Engine_construct. destruct (ModelExecutor_new _ _ _ _ _ _ _ _) as [[?|?] ?]; [|done].
  destruct (BlockAllocator_new _); [|done]. destruct (Scheduler_new _); [|done]. by intros [= <-].
Qed.

Section opened.
Context (s : Machine).
Context (Hmalloc : ∀ n p, cuda_malloc n = Some p → (256 | p) ∧ p ∉ m_slabs s).
Context (o : EngineOptions) (c : ModelConfig) (exec : ExecutorOptions) (model : SafetensorsModel).
Context (Hgeo : design_geometry c) (Hviews : ∀ name v, Tensor model name = Ok v → view_ok v).

(** Why the constructor gives up once the checkpoint is open. *)
Inductive open_fault : boot_error → Prop :=
  | of_preflight e : preflight c o exec (slab_bytes (Contains model "lm_head.weight")) mem_free = Err e → open_fault (Refused e)
  | of_stream what : no_stream → open_fault (Refused (EngineError what))
  | of_staging e : staging_fault e → open_fault (BadStaging e)
  | of_weights e : weight_fault model c e → open_fault (BadWeights e)
  | of_engine e : Engine_construct c o exec lt dev dma cuda_ok (num_layers c) = Err e → open_fault (Refused e).

Lemma wpx_boot_open :
  wpx (boot_open o c exec model)
    (λ r s', weights_up model c s r.2 s' ∧ m_streams s' = m_streams s ∧
       (∃ bud, preflight c o exec (slab_bytes (Contains model "lm_head.weight")) mem_free = Ok bud) ∧
       Engine_construct c o exec lt dev dma cuda_ok (num_layers c) = Ok r.1)
    (λ err s', open_fault err ∧ (throws err = true → restored s s')) s.
Proof using Hmalloc Hgeo Hviews.
  pose proof (restored_refl s) as Hrefl.
  unfold boot_open. apply wpx_bind, wpx_part. eapply wpx_eq; [by apply TotalDeviceBytes_design|]. cbn beta iota.
  apply wpx_bind, wpx_pure; [|intros e He; split; [by apply of_preflight|done]]. intros bud Hbud.
  apply wpx_bind. eapply wpx_mono; [by apply (wpx_load_weights model c s Hviews Hmalloc)| |].
  2:{ intros err s1 (Hwhy & _ & Hr). split; [|done].
      destruct Hwhy as [[(x & -> & ?)|(x & -> & ?)]|(what & -> & ?)]; [by apply of_weights|by apply of_staging|by apply of_stream]. }
  intros w s1 [Hw Hstr]. apply wpx_bind, wpx_unwind_boot. rewrite (wu_layers _ _ _ _ _ Hw). apply wpx_pure.
  - intros e He. apply wpx_ret. split_and!; [done|done|by exists bud|done].
  - intros e He. split; [by apply of_engine|]. intros Hthrow. rewrite Hthrow. cbn [free_weights modify snd]. split_and!.
    + apply (wu_os _ _ _ _ _ Hw).
    + by apply free_slab_fresh; destruct Hw.
    + by left.
    + left. apply (wu_host _ _ _ _ _ Hw).
Qed.

End opened.

Section booting.
Context (Hreader : reader_ok reader) (Hiter : ∀ m, iteration m ≡ₚ map_to_list m).
Context (s : Machine).
Context (Hmalloc : ∀ n p, cuda_malloc n = Some p → (256 | p) ∧ p ∉ m_slabs s).

(** The directory's two configuration files state [c]. *)
Definition configured (o : EngineOptions) (c : ModelConfig) : Prop :=
  ∃ cfg gen, file_text (path_append (model_dir o) "config.json") = Some cfg ∧
    file_text (path_append (model_dir o) "generation_config.json") = Some gen ∧ accepted_texts cfg gen c.

Lemma wpx_read_config o :
  wpx (part (λ s, s) (λ s _, s) BadConfig (FromModelDir file_text path_append (model_dir o)))
    (λ c s', s' = s ∧ configured o c)
    (λ err s', s' = s ∧ (∃ x, err = BadConfig x) ∧ ∀ c, ¬ configured o c) s.
Proof using.
  apply wpx_part. unfold FromModelDir, ReadTextFile, configured. apply wpx_bind.
  destruct (file_text (path_append _ "config.json")) as [cfg|];
    [|by apply wpx_throw; split_and!; [|eexists|intros ? (? & ? & ? & _)]]. apply wpx_ret, wpx_bind.
  destruct (file_text (path_append _ "generation_config.json")) as [gen|];
    [|by apply wpx_throw; split_and!; [|eexists|intros ? (? & ? & _ & ? & _)]]. apply wpx_ret.
  eapply wpx_mono; [apply wpx_FromJsonText| |].
  - intros c s' [-> Ha]. split; [done|]. by exists cfg, gen.
  - intros err s' [-> Ha]. split_and!; [done|by eexists|]. intros c (? & ? & [= <-] & [= <-] & Hc). by apply (Ha c).
Qed.

(** A finished constructor: one slab more, every mapping, descriptor and stream
    given back, and each part built from what the directory holds. *)
Record booted (o : EngineOptions) (e : EngineState Algo D) (w : DeviceWeights) (s' : Machine) : Prop := {
  bt_os : m_os s' = m_os s;
  bt_streams : m_streams s' = m_streams s;
  bt_slabs : m_slabs s' = dw_slab w :: m_slabs s;
  bt_host : m_host s' = m_host s;
  bt_config : configured o (model_config_ e);
  bt_weights : ∃ model exec bud, model_ok disk model ∧ weights_up model (model_config_ e) s w s' ∧
    checked_options o = Ok exec ∧
    preflight (model_config_ e) o exec (slab_bytes (Contains model "lm_head.weight")) mem_free = Ok bud ∧
    Engine_construct (model_config_ e) o exec lt dev dma cuda_ok (num_layers (model_config_ e)) = Ok e;
}.

Notation opens o x os := (OpenDir disk path_exists path_append parent_path iteration (model_dir o) (m_os s) = (x, os)).

(** Why the constructor gives up. *)
Inductive boot_fault (o : EngineOptions) : boot_error → Prop :=
  | bf_config e : (∀ c, ¬ configured o c) → boot_fault o (BadConfig e)
  | bf_options e : checked_options o = Err e → boot_fault o (Refused e)
  | bf_checkpoint e os : opens o (Err e) os → boot_fault o (BadCheckpoint e)
  | bf_open c exec model os err : configured o c → checked_options o = Ok exec → opens o (Ok model) os →
      open_fault o c exec model err → boot_fault o err.

Lemma close_model_run model s' : model_ok disk model → m_os s' = add_mappings (zlen (shards_ model)) (m_os s) →
  close_model model s' = (Ok (), mkMachine (m_os s) (m_streams s') (m_device s') (m_slabs s') (m_host s')).
Proof using.
  intros Hm Hos. unfold close_model, part. rewrite (release_model disk) by done.
  by rewrite Hos, add_mappings_add, Z.add_opp_diag_r, add_mappings_0.
Qed.

Lemma wpx_Engine_boot o :
  wpx (Engine_boot o) (λ r, booted o r.1 r.2) (λ err s', boot_fault o err ∧ (throws err = true → restored s s')) s.
Proof using Hreader Hiter Hmalloc.
  pose proof (restored_refl s) as Hrefl.
  unfold Engine_boot. apply wpx_bind. eapply wpx_mono; [apply wpx_read_config| |].
  2:{ intros err ? (-> & [e ->] & He). split; [|done]. by apply bf_config. }
  intros c s0 [-> Hcfg]. apply wpx_bind, wpx_pure; [|intros e He; split; [by apply bf_options|done]]. intros exec Hexec.
  apply wpx_bind, wpx_part.
  pose proof (wpx_OpenDir disk path_append parent_path iteration Hreader Hiter path_exists (model_dir o) (m_os s)) as Hopen.
  unfold wpx in Hopen.
  destruct (OpenDir disk path_exists path_append parent_path iteration (model_dir o) (m_os s)) as [[model|e] os] eqn:Heq.
  2:{ eapply wpx_eq; [exact Heq|]. cbn beta iota. subst os. split; [by eapply bf_checkpoint|]. by destruct s. }
  eapply wpx_eq; [exact Heq|]. cbn beta iota. destruct Hopen as (-> & Hmodel & _). pose proof (model_view_ok disk model) as Hviews.
  apply wpx_bind, wpx_unwind_boot. set (s1 := set_os _ s).
  eapply wpx_mono; [apply (wpx_boot_open s1 Hmalloc o c exec model)| |].
  - destruct Hcfg as (? & ? & _ & _ & Hacc). by eapply accepted_geometry.
  - intros name v. by apply Hviews.
  - intros [e w] s2 (Hw & Hstr & [bud Hbud] & He). cbn [fst snd] in *.
    pose proof (Engine_construct_config _ _ _ _ _ He) as <-.
    apply wpx_bind. eapply wpx_eq; [apply close_model_run; [done|apply (wu_os _ _ _ _ _ Hw)]|]. cbn beta iota. apply wpx_ret.
    split; cbn; [done|done|apply (wu_slabs _ _ _ _ _ Hw)|apply (wu_host _ _ _ _ _ Hw)|done|].
    exists model, exec, bud. split_and!; try done. by destruct Hw; split.
  - intros err s2 [Hwhy Hr]. split; [by eapply bf_open|]. intros Hthrow. rewrite Hthrow. destruct (Hr Hthrow) as (Hos & Hsl & Hstr & Hh).
    rewrite close_model_run by done. by split_and!.
Qed.

End booting.

End boot.

(** What the model relies on: a map's iteration lists it, and [cudaMalloc]
    returns aligned memory not in use.  Any runtime call may fail. *)
Record platform_ok {Algo D} (pf : Platform Algo D) (s : Machine) : Prop := {
  po_iteration m : pf_iteration pf m ≡ₚ map_to_list m;
  po_malloc n p : pf_malloc pf n = Some p → (256 | p) ∧ p ∉ m_slabs s;
}.

(** C9. Bringing the engine up either succeeds whole or leaves nothing behind.
    Whatever the directory holds, whatever memory is free and whichever runtime
    calls fail - in the staging, the upload or the executor's construction -
    provided [cudaMalloc] returns aligned memory not in use: when the
    constructor returns, the configuration is the one the directory's two files
    state, every weight of the checkpoint is resident in the one slab it keeps,
    the budget passed the preflight, the engine is what its parts construct, and
    every descriptor, mapping, stream, staging buffer and event is given back.
    When it throws, the slab is freed too, and the error names a real fault of
    the configuration, the options, the checkpoint, the memory, the load stream,
    the staging, the weights or the engine's parts.  Two things stay after a throw, as the code
    has it: a stream the runtime refuses to destroy, and the first slot's event
    when the second one's creation is refused.  A failed assertion or an
    overflow is not a throw and unwinds nothing; C10 says when one happens. *)
Theorem boot_outcome {Algo D} (reader : JsonReader) (pf : Platform Algo D) o s :
  reader_ok reader → platform_ok pf s →
  match Engine_boot pf o s with
  | (Ok (e, w), s') => booted pf s o e w s'
  | (Err err, s') => boot_fault pf s o err ∧ (throws err = true → restored pf s s')
  end.
Proof.
  intros Hr [Hi Hm]. pose proof (wpx_Engine_boot pf Hr Hi s Hm o) as H.
  unfold wpx in H. by destruct (Engine_boot pf o s) as [[[e w]|err] s'].
Qed.

(** A directory and a machine that fit the options. *)
Record bootable {Algo D} {reader : JsonReader} (pf : Platform Algo D) (s : Machine) (o : EngineOptions)
    (c : ModelConfig) (exec : ExecutorOptions) (bud : ExecutorMemoryBudget) (model : SafetensorsModel) (os : Os) : Prop := {
  ba_config : configured pf o c;
  ba_options : checked_options o = Ok exec;
  ba_model : OpenDir (pf_disk pf) (pf_exists pf) (pf_append pf) (pf_parent pf) (pf_iteration pf) (model_dir o) (m_os s) = (Ok model, os);
  ba_weights : loadable model;
  ba_slab : is_Some (pf_malloc pf (slab_bytes (Contains model "lm_head.weight")));
  ba_memory : preflight c o exec (slab_bytes (Contains model "lm_head.weight")) (pf_mem_free pf) = Ok bud;
  ba_streams : pf_stream_created pf = true ∧ pf_stream_destroyed pf = true;
  ba_cuda : pf_cuda_ok pf = λ _, true;
  ba_load k : pf_load_ok pf k = true;
  ba_staging : pf_host_alloc pf = true ∧ ∀ k, pf_event_created pf k = true;
  ba_setup : serving_setup c o exec bud (pf_lt pf) (pf_dev pf);
}.

Lemma bootable_no_fault {Algo D} (reader : JsonReader) (pf : Platform Algo D) s o c exec bud model os err :
  bootable pf s o c exec bud model os → ¬ boot_fault pf s o err.
Proof.
  intros [Hcfg Hopt Hopen Hw Hslab Hmem [Hs1 Hs2] Hcuda Hload [Hha Hev] Hsetup] Hf. pose proof Hcfg as (cfg & gen & Hc1 & Hc2 & Hacc).
  destruct Hf as [e Hno|e He|e os' He|c' exec' model' os' err Hcfg' Hopt' Hopen' Hof].
  - by apply (Hno c).
  - congruence.
  - congruence.
  - destruct Hcfg' as (cfg' & gen' & Hc1' & Hc2' & Hacc'). rewrite Hc1 in Hc1'. rewrite Hc2 in Hc2'.
    injection Hc1' as <-. injection Hc2' as <-. pose proof (accepted_unique _ _ _ _ Hacc Hacc') as <-.
    rewrite Hopt in Hopt'. injection Hopt' as <-. rewrite Hopen in Hopen'. injection Hopen' as <- <-.
    destruct Hof as [e He|what [?|?]|e He|e He|e He]; try congruence.
    + destruct He as [[_ ?]|[_ [k ?]]]; [congruence|by rewrite Hev in *].
    + destruct (loadable_accepted (pf_malloc pf) model c e Hw (accepted_geometry _ _ _ Hacc) (accepted_tied _ _ _ Hacc) Hslab).
      destruct He as [?|[?|(? & _ & ? & k & _ & Hk)]]; [done|done|by rewrite Hload in Hk].
    + rewrite Hcuda in He.
      destruct (construct_run c o _ bud (pf_lt pf) (pf_dev pf) (pf_dma pf) (λ _ _ _ _, mret ()) (λ _, 1%positive) Hsetup)
        as (x & e' & _ & He' & _). congruence.
Qed.

Lemma bootable_boots {Algo D} (reader : JsonReader) (pf : Platform Algo D) s o c exec bud model os dump malloc :
  reader_ok reader → platform_ok pf s → bootable pf s o c exec bud model os →
  ∃ e w s', Engine_boot pf o s = (Ok (e, w), s') ∧ booted pf s o e w s' ∧ model_config_ e = c ∧
    served c o exec (pf_lt pf) (pf_dev pf) (pf_dma pf) dump malloc e ∧ requests_ e = ∅ ∧ next_request_id_ e = 1.
Proof.
  intros Hr [Hi Hm] Hb. pose proof (wpx_Engine_boot pf Hr Hi s Hm o) as H. unfold wpx in H.
  destruct (Engine_boot pf o s) as [[[e w]|err] s'].
  2:{ destruct H as [Hf _]. by apply (bootable_no_fault reader pf s o c exec bud model os err) in Hf. }
  exists e, w, s'. split; [done|]. cbn [fst snd] in H. split; [exact H|].
  destruct H as [_ _ _ _ (cfg & gen & Hc1 & Hc2 & Hacc) (m' & exec' & b' & _ & _ & Hopt & _ & He)].
  pose proof (ba_setup _ _ _ _ _ _ _ _ Hb) as Hsetup. destruct Hb as [(cfg' & gen' & Hc1' & Hc2' & Hacc') Hopt' _ _ _ _ _ Hcuda _ _ _].
  rewrite Hc1 in Hc1'. rewrite Hc2 in Hc2'. injection Hc1' as <-. injection Hc2' as <-.
  pose proof (accepted_unique _ _ _ _ Hacc Hacc') as Hc. rewrite Hopt in Hopt'. injection Hopt' as <-.
  split; [exact Hc|]. rewrite Hc, Hcuda in He. split; [by apply served_new|].
  destruct (construct_run c o _ bud (pf_lt pf) (pf_dev pf) (pf_dma pf) dump malloc Hsetup) as (x & e' & _ & He' & Heq & _).
  rewrite He in He'. injection He' as <-. rewrite Heq. done.
Qed.

(** A good directory boots to a serving engine.  When the two configuration
    files state the pinned configuration, the checkpoint opens and all its
    tensors are present, of the right shape and type and within the FP16 range,
    the budget fits the free memory and the device works, the constructor
    returns; the weights are resident, and the engine is one to which all
    guarantees of the served engine apply. *)
Theorem good_directory_boots {Algo D} (reader : JsonReader) (pf : Platform Algo D) s o c exec bud model os dump malloc :
  reader_ok reader → platform_ok pf s → bootable pf s o c exec bud model os →
  ∃ e w s', Engine_boot pf o s = (Ok (e, w), s') ∧ booted pf s o e w s' ∧ model_config_ e = c ∧
    served c o exec (pf_lt pf) (pf_dev pf) (pf_dma pf) dump malloc e.
Proof.
  intros Hr Hp Hb. destruct (bootable_boots reader pf s o c exec bud model os dump malloc Hr Hp Hb) as (e & w & s' & H1 & H2 & H3 & H4 & _).
  by exists e, w, s'.
Qed.

(** ** A directory with the right configuration and the wrong checkpoint *)

Module BootExample.

Definition reader : JsonReader := table_reader
  [([1], (ConfigExample.cfg, [])); ([2], (ConfigExample.gen, []));
   (CheckpointExample.header_w, (JObject [("w", CheckpointExample.spec_of "U8" [2] 0 2)], CheckpointExample.spec_events "w"))]%string.

Definition disk (path : string) : OsFile :=
  if String.eqb path "m/config.json" then mkOsFile true true true [1]
  else if String.eqb path "m/generation_config.json" then mkOsFile true true true [2]
  else if String.eqb path "m/model.safetensors" then mkOsFile true true true (CheckpointExample.file_of CheckpointExample.header_w [7; 9])
  else mkOsFile false false false [].

(** 6 GiB free; the first slab is at 256. *)
Definition platform (d : string → OsFile) : Platform Z (list Z) :=
  mkPlatform d (λ p, can_open (d p)) CheckpointExample.path_append CheckpointExample.parent_path map_to_list
    (λ _, 0%nat) (λ _, true) (λ _, Some 256) (λ _, []) true (λ _, true) true true (Some (6 * 2 ^ 30))
    WorkingExample.lib EngineExample.dev (λ _, 0%nat) (λ _, true).

Definition machine : Machine := mkMachine (mkOs 0 0) 0 (λ _, 0) [] (mkHost 0 0).

Lemma platform_is_ok d : platform_ok (platform d) machine.
Proof.
  split; cbn; [done|]. intros n p [= <-]. split; [by exists 1|]. by intros ?%not_elem_of_nil.
Qed.

Lemma boot_reader_ok : reader_ok reader.
Proof.
  apply table_reader_ok. repeat (apply Forall_cons_2; [split; [by apply (bool_decide_unpack _); vm_compute|]|]); [..|constructor].
  all: repeat constructor; cbn; lia.
Qed.

End BootExample.

Lemma boot_outcome_witness :
  fst (Engine_boot (reader:=BootExample.reader) (BootExample.platform BootExample.disk) EngineExample.eopts BootExample.machine) =
    Err (BadWeights (TensorMissing "model.embed_tokens.weight")) ∧
  restored (BootExample.platform BootExample.disk) BootExample.machine
    (snd (Engine_boot (reader:=BootExample.reader) (BootExample.platform BootExample.disk) EngineExample.eopts BootExample.machine)).
Proof.
  pose proof (boot_outcome BootExample.reader (BootExample.platform BootExample.disk) EngineExample.eopts BootExample.machine
    BootExample.boot_reader_ok (BootExample.platform_is_ok _)) as H.
  assert (fst (Engine_boot (reader:=BootExample.reader) (BootExample.platform BootExample.disk) EngineExample.eopts BootExample.machine) =
    Err (BadWeights (TensorMissing "model.embed_tokens.weight"))) as Hrun by (vm_compute; reflexivity).
  split; [exact Hrun|]. destruct (Engine_boot _ _ _) as [[[e w]|err] s']; cbn in Hrun; [done|]. injection Hrun as ->. by apply (proj2 H).
Defined.

(** ** A directory with a checkpoint of zeros *)

Module ZeroExample.

Definition zero_entry (e : WeightMapEntry) : entry :=
  mkEntry (hf_name e) kF16 (expected_shape e) (replicate (Z.to_nat (entry_bytes e)) 0).
Definition entries : list entry := zero_entry <$> design_map false.
Definition members : list (string * json) := members_from 0 entries.
Definition print (v : json) : list Z := [9].
Definition bytes : list Z := write_file print entries.

Definition reader : JsonReader := table_reader
  [([1], (ConfigExample.cfg, [])); ([2], (ConfigExample.gen, []));
   ([9], (JObject members, (λ m : string * json, (1, m.1)) <$> members))].

Definition disk (path : string) : OsFile :=
  if String.eqb path "m/config.json" then mkOsFile true true true [1]
  else if String.eqb path "m/generation_config.json" then mkOsFile true true true [2]
  else if String.eqb path "m/model.safetensors" then mkOsFile true true true bytes
  else mkOsFile false false false [].

Definition platform : Platform Z (list Z) := BootExample.platform disk.

Lemma names : en_name <$> entries = hf_name <$> design_map false.
Proof. unfold entries. by rewrite <- list_fmap_compose. Qed.

Lemma names_nodup : NoDup (en_name <$> entries).
Proof. rewrite names. apply map_names_nodup. Qed.

Lemma keys_at_one (l : list (string * json)) : keys_at 1 ((λ m : string * json, (1, m.1)) <$> l) = l.*1.
Proof. unfold keys_at. induction l as [|[k v] l IH]; [done|]. rewrite !fmap_cons, filter_cons_True by done. cbn. by rewrite IH. Qed.

Lemma reads_back : prints reader print members.
Proof.
  exists (JObject members), ((λ m : string * json, (1, m.1)) <$> members). split_and!; [done|done|done|].
  rewrite <- keys_at_one. by destruct members.
Qed.

Lemma zero_reader_ok : reader_ok reader.
Proof.
  apply table_reader_ok. repeat (apply Forall_cons_2; [split|]); [..|constructor].
  1, 3: by apply (bool_decide_unpack _); vm_compute.
  1, 2: constructor.
  - cbn [fst snd items]. unfold members. rewrite members_names. apply names_nodup.
  - cbn [fst snd]. apply Forall_forall. intros ev (m & -> & _)%list_elem_of_fmap. done.
Qed.

(** One pass over the map decides what the shapes have to satisfy. *)
Fixpoint fits_bool (acc : Z) (dims : list Z) : bool :=
  match dims with
  | [] => true
  | d :: dims' => (0 <=? d) && (d <=? int64_max) && (acc * d <=? u64_max) && fits_bool (acc * d) dims'
  end.
Lemma fits_bool_ok dims : ∀ acc, fits_bool acc dims = true → shape_fits acc dims.
Proof. induction dims as [|d dims IH]; intros acc; cbn; [done|]. rewrite !andb_true_iff, !Z.leb_le. intros [[[? ?] ?] ?]. auto. Qed.

Definition entry_fits (e : WeightMapEntry) : bool :=
  negb (String.eqb (hf_name e) "__metadata__") && fits_bool 1 (expected_shape e) && (0 <? num_elements e).
Lemma entries_fit : forallb entry_fits (design_map false) = true.
Proof. by vm_compute. Qed.

Lemma entries_ok : Forall entry_ok entries.
Proof.
  apply Forall_forall. intros en (e & -> & He)%list_elem_of_fmap.
  pose proof (proj1 (forallb_forall _ _) entries_fit e ltac:(by apply list_elem_of_In)) as Hf. unfold entry_fits in Hf.
  rewrite !andb_true_iff, negb_true_iff, Z.ltb_lt in Hf. destruct Hf as [[Hn Hs] Hp]. split; cbn [zero_entry en_name en_dtype en_shape en_bytes].
  - by apply String.eqb_neq.
  - done.
  - by apply fits_bool_ok.
  - unfold zlen. rewrite length_replicate. unfold entry_bytes. rewrite num_elements_product in *. cbn [DtypeSize]. lia.
Qed.

Lemma data_length (l : list WeightMapEntry) : zlen (data_of (zero_entry <$> l)) = sumZ (map (λ e, Z.max 0 (entry_bytes e)) l).
Proof.
  unfold data_of. induction l as [|e l IH]; [done|]. cbn [fmap list_fmap concat map]. rewrite zlen_app, IH, sumZ_cons.
  cbn [zero_entry en_bytes]. unfold zlen at 1. rewrite length_replicate. lia.
Qed.

Lemma bytes_length : zlen bytes <= u64_max.
Proof.
  unfold bytes, write_file. rewrite !zlen_app. unfold zlen at 1. rewrite length_le_bytes. unfold entries. rewrite data_length.
  change (zlen (print _)) with 1.
  assert (sumZ (map (λ e, Z.max 0 (entry_bytes e)) (design_map false)) = 3087428608) as -> by (vm_compute; reflexivity).
  unfold u64_max. lia.
Qed.

(** The checkpoint opens, and loads. *)
Lemma opened_model : ∃ f, OpenDir (reader:=reader) disk (λ p, can_open (disk p)) CheckpointExample.path_append CheckpointExample.parent_path
    map_to_list "m" (mkOs 0 0) = (Ok (mkSafetensorsModel [f] (tensors_ f)), add_mappings 1 (mkOs 0 0)) ∧
  Contains (mkSafetensorsModel [f] (tensors_ f)) "lm_head.weight" = false ∧
  loadable (mkSafetensorsModel [f] (tensors_ f)).
Proof.
  destruct (open_written reader print disk "m/model.safetensors" (mkOs 0 0) entries zero_reader_ok reads_back entries_ok names_nodup
    bytes_length eq_refl) as (f & Hopen & Hnames & Hviews). exists f.
  assert (Contains (mkSafetensorsModel [f] (tensors_ f)) "lm_head.weight" = false) as Hhead.
  { unfold Contains. apply bool_decide_eq_false. cbn [merged_]. rewrite Hnames, names. apply (bool_decide_unpack _). by vm_compute. }
  assert (∀ e, e ∈ design_map false → ∃ v, Tensor (mkSafetensorsModel [f] (tensors_ f)) (hf_name e) = Ok v ∧
    tv_dtype v = kF16 ∧ tv_shape v = expected_shape e) as Hv.
  { intros e He. destruct (Hviews (zero_entry e)) as (v & Hn & Hd & Hs & _); [by apply list_elem_of_fmap_2|].
    exists v. split; [|exact (conj Hd Hs)]. unfold Tensor. cbn [merged_]. cbn [zero_entry en_name] in Hn. rewrite Hn. exact eq_refl. }
  split; [|split; [exact Hhead|]].
  - unfold OpenDir. change (can_open (disk (CheckpointExample.path_append "m" kSingleFileName))) with true. cbn beta iota.
    unfold OpenSingle, mbind, M_bind. change (CheckpointExample.path_append "m" kSingleFileName) with "m/model.safetensors"%string.
    by rewrite Hopen.
  - split; rewrite Hhead.
    + apply Forall_forall. intros e He. destruct (Hv e He) as (v & Ht & Hd & Hs). exists v. split_and!; [exact Ht|exact Hs|].
      unfold is_bf16. rewrite Hd. exact eq_refl.
    + intros e v j w He Ht _. destruct (Hv e He) as (v' & Ht' & Hd & _). rewrite Ht in Ht'. injection Ht' as <-.
      unfold refused, is_bf16. by rewrite Hd.
Qed.

Definition config : ModelConfig := pinned [151645; 151643].

Lemma configured_dir : configured (reader:=reader) platform EngineExample.eopts config.
Proof.
  exists [1], [2]. split; [done|]. split; [done|].
  pose proof (wpx_FromJsonText (reader:=ConfigExample.reader) [1] [2] ()) as H. unfold wpx in H.
  rewrite ConfigExample.pinned_loads in H. destruct H as [_ (cfg & gen & ev & ev' & eos & Hc & Hg & H)].
  injection Hc as <- <-. injection Hg as <- <-. exists ConfigExample.cfg, ConfigExample.gen, [], [], eos.
  destruct H as (? & ? & ? & ? & ? & ?). by split_and!.
Qed.

Lemma boots : ∃ model os,
  bootable (reader:=reader) platform BootExample.machine EngineExample.eopts config EngineExample.xopts EngineExample.budget model os.
Proof.
  destruct opened_model as (f & Hopen & Hhead & Hload).
  exists (mkSafetensorsModel [f] (tensors_ f)), (add_mappings 1 (mkOs 0 0)). split.
  - exact configured_dir.
  - by vm_compute.
  - exact Hopen.
  - exact Hload.
  - exists 256. exact eq_refl.
  - rewrite Hhead. change (pf_mem_free platform) with (Some (6 * 2 ^ 30)). by vm_compute.
  - exact (conj eq_refl eq_refl).
  - exact eq_refl.
  - exact (λ _, eq_refl).
  - exact (conj eq_refl (λ _, eq_refl)).
  - exact EngineExample.setup.
Qed.

End ZeroExample.

Lemma good_directory_boots_witness :
  ∃ e w s', Engine_boot (reader:=ZeroExample.reader) ZeroExample.platform EngineExample.eopts BootExample.machine = (Ok (e, w), s') ∧
    model_config_ e = qwen25.
Proof.
  destruct ZeroExample.boots as (model & os & Hb).
  destruct (good_directory_boots ZeroExample.reader ZeroExample.platform BootExample.machine EngineExample.eopts ZeroExample.config
    EngineExample.xopts EngineExample.budget model os (λ _ _ _ _, mret ()) EngineExample.malloc ZeroExample.zero_reader_ok
    (BootExample.platform_is_ok _) Hb) as (e & w & s' & Hrun & _ & Hc & _).
  exists e, w, s'. exact (conj Hrun Hc).
Defined.
