(* ===== verification/Binding.v ===== *)
(** * The Python module ([api/pybind.cpp])

    The binding over the engine: the constructor with its defaults and the
    parsing of the policy name, [add_request] and [step] with their
    conversions, the probes, and the Python exception each C++ error surfaces
    as.  [constructor_outcome] settles what constructing an engine can do;
    [session_protocol] what a Python session sees. *)

From S2P Require Import Prelude Doubles Types BlockAllocator Scheduler SchedulerInv SchedulerPlan SchedulerStep SchedulerLive SchedulerText SchedulerStream SchedulerTheorems ModelConfig GemmConfig Gemm GemmServe GemmReport Json HalfFloat Uploader Safetensors SafetensorsIndex SafetensorsFormat Weights WeightsLoad Config ExecutorLayout ExecutorMirrors Launches Executor ExecutorInit ExecutorSteps ExecutorWarm Engine EngineSteps EngineSystem EngineClient EngineBoot.
From Stdlib Require Import SpecFloat.

(** ** Exceptions *)

(** What a C++ call throws, as far as its handlers can tell. *)
Inductive cxx_type : Type := StdInvalidArgument | StdRuntimeError | StdException.

Inductive PyError : Type := ValueError | RuntimeError | OtherError (name : string).

(** pybind11's default translators, as its documentation states them. *)
Class Translation : Type := {
  translate : cxx_type → PyError;
  translate_invalid : translate StdInvalidArgument = ValueError;
  translate_runtime : translate StdRuntimeError = RuntimeError;
  translate_other : translate StdException = RuntimeError;
}.

(** The C++ type of an error; [None] when the process aborts instead. *)
Definition error_type (e : error) : option cxx_type :=
  match e with
  | InvalidArgument _ => Some StdInvalidArgument
  | ExecutorError _ | GemmError _ | EngineError _ => Some StdRuntimeError
  | AssertionFailed _ | UndefinedBehaviour _ | OutOfFuel => None
  end.

Definition boot_error_type (e : boot_error) : option cxx_type :=
  match e with
  | BadConfig JsonOutOfRange => Some StdException
  | BadConfig (ConfigError _ _) | BadCheckpoint _ | BadStaging _ => Some StdRuntimeError
  | BadWeights (WeightsAssertion _) | BadWeights (UploadFailed (SourceTooShort | LoadOutOfFuel)) => None
  | BadWeights _ => Some StdRuntimeError
  | Refused e => error_type e
  end.

Lemma throws_type e : throws e = match boot_error_type e with Some _ => true | None => false end.
Proof. destruct e as [[]| |[]| |[]]; try done. by destruct e. Qed.

Inductive PyResult (A : Type) : Type :=
  | Return (a : A)
  | Raise (e : PyError)
  | Abort.
Arguments Return {A} a.
Arguments Raise {A} e.
Arguments Abort {A}.

Section binding.
Context {translation : Translation}.

(** A bound method: its result, or the exception its caller sees. *)
Definition bound {E S A} (type : E → option cxx_type) (m : M E S A) (s : S) : PyResult A * S :=
  match m s with
  | (Ok a, s') => (Return a, s')
  | (Err e, s') => (match type e with Some t => Raise (translate t) | None => Abort end, s')
  end.

(** ** Construction *)

Definition ParseAdmissionPolicy (name : string) : outcome cxx_type AdmissionPolicy :=
  if String.eqb name "reserve_full" then Ok kReserveFull
  else if String.eqb name "watermark" then Ok kWatermark
  else Err StdInvalidArgument.

(** The keyword arguments of [redline.Engine]. *)
Record EngineArgs : Type := mkEngineArgs {
  ea_model_dir : string;
  ea_kv_pool_gb : double;
  ea_max_batch : Z;
  ea_enable_cuda_graphs : bool;
  ea_max_seq_len : Z;
  ea_prefill_chunk : Z;
  ea_admission_policy : string;
  ea_pad_eager_to_bucket : Z;
  ea_debug_dump_dir : option string;
}.

Definition one_gb : double := S754_finite false 4503599627370496 (-52).

(** [py::arg(...) = ...] *)
Definition default_args (model_dir : string) : EngineArgs :=
  mkEngineArgs model_dir one_gb 8 true 2048 1024 "reserve_full" 0 None.

(** The member initialisers of [EngineOptions]. *)
Definition default_options : EngineOptions :=
  mkEngineOptions "" one_gb 8 true 2048 1024 kReserveFull 0 "".

Definition make_options (a : EngineArgs) (policy : AdmissionPolicy) : EngineOptions :=
  mkEngineOptions (ea_model_dir a) (ea_kv_pool_gb a) (ea_max_batch a) (ea_enable_cuda_graphs a) (ea_max_seq_len a)
    (ea_prefill_chunk a) policy (ea_pad_eager_to_bucket a) (default ""%string (ea_debug_dump_dir a)).

Definition MakeEngine {Algo D} {reader : JsonReader} (pf : Platform Algo D) (a : EngineArgs) (s : Machine) :
    PyResult (EngineState Algo D * DeviceWeights) * Machine :=
  match ParseAdmissionPolicy (ea_admission_policy a) with
  | Err t => (Raise (translate t), s)
  | Ok policy => bound boot_error_type (Engine_boot pf (make_options a policy)) s
  end.

(** Python's defaults are the defaults of the C++ options. *)
Lemma default_args_options policy :
  ParseAdmissionPolicy (ea_admission_policy (default_args "")) = Ok policy → make_options (default_args "") policy = default_options.
Proof using. by intros [= <-]. Qed.

End binding.

(** ** Requests, steps and probes *)

Definition FinishReasonName (reason : FinishReason) : string :=
  match reason with kNone => "" | kEos => "eos" | kLength => "length" | kAborted => "aborted" end.

(** One emission of [step()]: (req_id, token, finished, finish_reason). *)
Definition StepTuple : Type := (RequestId * TokenId * bool * string)%type.

Definition step_tuple (r : StepResult) : StepTuple :=
  (request_id r, token r, Types.finished r, FinishReasonName (sr_finish_reason r)).

(** The values of the dict [stats()] returns. *)
Inductive PyValue : Type := PyInt (n : Z) | PyDict (d : gmap Z Z).

Section methods.
Context {translation : Translation} {Algo D : Type} `{!StepExecutor (Executor Algo D)}.
Context (malloc : gmap RequestPtr Request → RequestPtr).
Notation Engine := (EngineState Algo D).

(** [forced_tokens = None] is the empty list. *)
Definition add_request (token_ids : list TokenId) (max_new_tokens : Z) (ignore_eos : bool) (forced_tokens : option (list TokenId)) :
    Engine → PyResult RequestId * Engine :=
  bound error_type (AddRequest malloc token_ids max_new_tokens ignore_eos (default [] forced_tokens)).

(** [add_request(token_ids, max_new_tokens)] *)
Definition add_request_default (token_ids : list TokenId) (max_new_tokens : Z) : Engine → PyResult RequestId * Engine :=
  add_request token_ids max_new_tokens false None.

Definition step : Engine → PyResult (list StepTuple) * Engine :=
  bound error_type (results ← Step; mret (map step_tuple results)).

Definition has_capacity (e : Engine) : bool := HasCapacity e.

Definition histogram_dict (histogram : list (Z * Z)) : gmap Z Z :=
  foldl (λ d kv, <[kv.1 := kv.2]> d) ∅ histogram.

Definition stats (e : Engine) : gmap string PyValue :=
  let s := Stats total_blocks e in
  let k := s_counters s in
  foldl (λ d kv, <[kv.1 := kv.2]> d) ∅
    [("steps", PyInt (steps_ k)); ("prefill_tokens", PyInt (prefill_tokens_ k)); ("decode_tokens", PyInt (decode_tokens_ k));
     ("waiting", PyInt (s_num_waiting s)); ("running", PyInt (s_num_running s)); ("free_blocks", PyInt (s_free_kv_blocks s));
     ("reserved_blocks", PyInt (s_reserved_kv_blocks s)); ("total_blocks", PyInt (s_total_kv_blocks s));
     ("graph_replays", PyInt (graph_replays_ k)); ("eager_decodes", PyInt (eager_decodes_ k)); ("aborts", PyInt (aborts_ k));
     ("bucket_histogram", PyDict (histogram_dict (bucket_histogram s)))]%string.

Definition debug_block_table (request_id : RequestId) (e : Engine) : list BlockId := DebugBlockTable request_id e.

(** [Engine::AlgoReportJson] and [ModelExecutor::AlgoReportJson] pass on the
    wrapper's report; [to_chars] prints a float. *)
Definition algo_report (to_chars : float32 → option string) (e : Engine) : string := AlgoReportJson to_chars (x_gemm (executor_ e)).

(** ** A session *)

Inductive call : Type :=
  | AddCall (token_ids : list TokenId) (max_new_tokens : Z) (ignore_eos : bool) (forced_tokens : option (list TokenId))
  | StepCall.

Inductive reply : Type :=
  | AddReply (r : PyResult RequestId)
  | StepReply (r : PyResult (list StepTuple)).

Definition do_call (c : call) (e : Engine) : reply * Engine :=
  match c with
  | AddCall ts n ign forced => let (r, e') := add_request ts n ign forced e in (AddReply r, e')
  | StepCall => let (r, e') := step e in (StepReply r, e')
  end.

(** The calls in order, each with the reply it got. *)
Fixpoint session (calls : list call) (e : Engine) : list (call * reply) * Engine :=
  match calls with
  | [] => ([], e)
  | c :: calls' =>
      let (r, e1) := do_call c e in
      let (rs, e2) := session calls' e1 in ((c, r) :: rs, e2)
  end.

End methods.

(** ** The pool size as bytes *)

(** A pool size in range converts: the product with 2^30 is at most 2^41, so the
    cast to [std::int64_t] is defined. *)
Lemma pool_bytes x :
  valid_binary 53 1024 x = true → pool_gb_in_range x = true →
  ∃ n, int64_of_double (double_mul x (double_of_Z (2 ^ 30))) = Some n ∧ 0 <= n <= 2 ^ 41.
Proof.
  intros Hv Hr. unfold pool_gb_in_range in Hr. apply andb_true_iff in Hr as [Hlo Hhi]. apply negb_true_iff in Hhi.
  change (double_of_Z 0) with (S754_zero false) in Hlo.
  change (double_of_Z 1024) with (S754_finite false 4503599627370496 (-42)) in Hhi.
  change (double_of_Z (2 ^ 30)) with (S754_finite false 4503599627370496 (-22)).
  destruct x as [sx|[]| |[] m e]; try done.
  assert (e <= -42 ∧ Z.pos (digits2_pos m) <= 53 ∧ e = fexp 53 1024 (Z.pos (digits2_pos m) + e)) as (He & Hd & Hc).
  { cbn [valid_binary] in Hv. unfold bounded, canonical_mantissa in Hv. apply andb_true_iff in Hv as [Hv _].
    apply Zeq_is_eq_bool in Hv. unfold fexp, emin in *. split_and!; [|lia|lia].
    unfold double_lt, SFltb in Hhi. cbn [SFcompare] in Hhi. destruct (Z.compare_spec (-42) e); [lia|done|lia]. }
  unfold double_mul. cbn [SFmul xorb].
  assert (Z.pos (digits2_pos (m * 4503599627370496)) = Z.pos (digits2_pos m) + 52) as Hdig.
  { assert (∀ q, (m * Pos.iter xO xH q)%positive = Pos.iter xO m q) as Hit.
    { intros q. induction q as [|q IH] using Pos.peano_ind; [cbn; lia|]. rewrite !Pos.iter_succ, <- IH. lia. }
    assert (4503599627370496%positive = Pos.iter xO xH 52%positive) as -> by done. rewrite Hit. by rewrite digits2_pos_shift. }
  set (dm := Z.pos (digits2_pos m)) in *. assert (1 <= dm) by (unfold dm; lia).
  set (s := fexp 53 1024 (dm + 52 + (e + -22)) - (e + -22)).
  assert (0 <= s ∧ dm + 52 <= 53 + s ∧ e + -22 + s <= -12) as (Hs & Hsd & Hes) by (unfold s, fexp, emin in *; lia).
  pose proof (digits2_pos_upper (m * 4503599627370496)) as Hup. rewrite Hdig in Hup.
  destruct (round_below_bound (Z.pos (m * 4503599627370496)) (e + -22) s (2 ^ 53)) as (r & -> & Hres); [lia| |done|lia| |].
  { cbn [Z.to_pos]. by rewrite Hdig. }
  { rewrite <- Z.pow_add_r by lia. eapply Z.lt_le_trans; [exact Hup|]. apply Z.pow_le_mono_r; lia. }
  destruct r as [|?| |sg m' e']; try done; [by exists 0|]. destruct Hres as (-> & He' & Hle).
  pose proof (Z.pow_pos_nonneg 2 (e' - (e + -22 + s)) ltac:(lia) ltac:(lia)) as Hp.
  cbn [int64_of_double]. set (v := if 0 <=? e' then _ else _).
  assert (0 <= v <= 2 ^ 41) as Hvr; [|by exists v; rewrite bool_decide_true by lia].
  unfold v. destruct (Z.leb_spec 0 e') as [H0|H0].
  - pose proof (Z.pow_pos_nonneg 2 e' ltac:(lia) ltac:(lia)). split; [nia|].
    assert (2 ^ (e' - (e + -22 + s)) = 2 ^ e' * 2 ^ (- (e + -22 + s))) as Heq by (rewrite <- Z.pow_add_r by lia; f_equal; lia).
    pose proof (Z.pow_le_mono_r 2 12 (- (e + -22 + s)) ltac:(lia) ltac:(lia)). rewrite Heq in Hle.
    change (2 ^ 53) with (2 ^ 41 * 2 ^ 12) in Hle. nia.
  - pose proof (Z.pow_pos_nonneg 2 (- e') ltac:(lia) ltac:(lia)). split; [apply Z.div_pos; lia|].
    apply Z.div_le_upper_bound; [lia|].
    assert (2 ^ (e' - (e + -22 + s)) * 2 ^ (- e') = 2 ^ (- (e + -22 + s))) as Heq by (rewrite <- Z.pow_add_r by lia; f_equal; lia).
    pose proof (Z.pow_le_mono_r 2 12 (- (e + -22 + s)) ltac:(lia) ltac:(lia)).
    change (2 ^ 53) with (2 ^ 41 * 2 ^ 12) in Hle. nia.
Qed.

(** ** What construction throws *)

Lemma Scheduler_new_asserts so e : Scheduler_new so = Err e → error_type e = None.
Proof.
  unfold Scheduler_new, assert, assert_, mbind, M_bind. intros H.
  repeat (match type of H with context [if ?b then _ else _] => destruct b end; cbn in H; try by injection H as <-). done.
Qed.

(** An error of the engine's parts is a runtime error, an overflow of sizes too
    large, or the scheduler's assertion on [max_seq_len] = 1. *)
Lemma construct_error {Algo D} c o xo (lt : LtLibrary Algo) (dev : Device D) dma ok wl e :
  design_geometry c → MakeExecutorOptions o = Ok xo → kv_pool_bytes xo <= 2 ^ 41 →
  Engine_construct c o xo lt dev dma ok wl = Err e →
  runtime_error e = true ∨ error_type e = None ∧ (eo_max_seq_len o = 1 ∨ ¬ sizes_fit c xo).
Proof.
  intros Hd Hxo Hpool. assert (x_max_batch xo = eo_max_batch o ∧ x_max_seq_len xo = eo_max_seq_len o ∧
    x_prefill_chunk_tokens xo = eo_prefill_chunk_tokens o) as (Hb & Hl & Hc).
  { unfold MakeExecutorOptions in Hxo. destruct (int64_of_double _); [|done]. by injection Hxo as <-. }
  unfold Engine_construct. destruct (ModelExecutor_new _ _ _ _ _ _ _ _) as [[[]|err] x] eqn:Hx;
    pose proof (construction_run _ _ _ _ _ _ _ _ _ Hx) as Hrun.
  2:{ intros [= <-]. destruct Hrun as [[?|[-> ?]] _]; [by left|right]. by split; [|right]. }
  destruct Hrun as (Hg & _). assert (∃ bud, ComputeBudget c xo = Ok bud) as [bud Hbud].
  { unfold ModelExecutor_new in Hx. destruct (ComputeBudget c xo) as [bud|]; [by exists bud|done]. }
  assert (1 <= num_kv_blocks_ c xo <= int32_max) as Hn.
  { unfold num_kv_blocks_. rewrite Hbud. pose proof (budget_correct c xo) as H. rewrite Hbud in H.
    assert (kv_token_bytes c = 28672) as Hkv
      by (destruct Hd as [_ Hl' _ _ _ Hkv _]; unfold kv_token_bytes; rewrite Hl'; unfold kNumLayers, kKvRows in *; lia).
    cbv zeta in H. rewrite Hkv in H. change (kKvBlockSize * 28672) with 458752 in H.
    destruct H as (_ & Hp & Htwo & _ & -> & Hpb & _). pose proof (go_pool _ _ Hg).
    assert (kv_pool_bytes xo / 458752 < 2 ^ 23) as Hlt by (apply Z.div_lt_upper_bound; lia).
    rewrite to_int32_id; unfold int32_ok, int32_max; lia. }
  destruct (alloc_inv_new _ Hn) as (a & -> & _).
  destruct (Scheduler_new _) as [s|err] eqn:Hs; [done|]. intros [= <-]. right. pose proof (go_seq _ _ Hg).
  split; [by eapply Scheduler_new_asserts|]. left.
  destruct (Z.eq_dec (eo_max_seq_len o) 1) as [|Hne]; [done|exfalso]. rewrite Scheduler_new_run in Hs; [done|].
  pose proof (go_batch _ _ Hg). pose proof (go_chunk _ _ Hg). unfold options_valid.
  rewrite !andb_true_iff, !Z.leb_le. cbn. split_and!; try lia; by vm_compute.
Qed.

Lemma runtime_type e : runtime_error e = true → error_type e = Some StdRuntimeError.
Proof. by destruct e. Qed.

Section construction.
Context {translation : Translation} {Algo D : Type} {reader : JsonReader} (pf : Platform Algo D) (s : Machine).
Context (Hreader : reader_ok reader) (Hpf : platform_ok pf s).
Context (o : EngineOptions).

Lemma weight_fault_type model c e : weight_fault pf model c e → boot_error_type (BadWeights e) = Some StdRuntimeError.
Proof using.
  intros [Hr|[Hr|Hr]].
  - destruct e as [| | | | | | |e|]; try done; by destruct Hr as (? & ? & []).
  - by destruct Hr as (? & ? & ? & ? & _ & _ & _ & _ & ->).
  - by destruct Hr as (? & -> & ? & ? & -> & _).
Qed.

(** Sizes the plan's integers cannot hold. *)
Definition oversized : Prop := ∃ c exec b, configured pf o c ∧ checked_options o = Ok exec ∧ ¬ demand_fits c o exec (slab_bytes b).

(** Once the pool size is accepted, every failure is a runtime error, or the
    options are the ones the checks miss. *)
Lemma late_fault_type exec err :
  checked_options o = Ok exec → kv_pool_bytes exec <= 2 ^ 41 → boot_fault pf s o err →
  match boot_error_type err with Some t => translate t = RuntimeError | None => eo_max_seq_len o = 1 ∨ oversized end.
Proof using.
  intros Hopt Hpool Hf.
  assert (∀ t, t = StdRuntimeError ∨ t = StdException → translate t = RuntimeError) as Htr.
  { intros t [-> | ->]; [apply translate_runtime|apply translate_other]. }
  assert (∀ e, runtime_error e = true → boot_error_type (Refused e) = Some StdRuntimeError) as Hrt by by intros [].
  destruct Hf as [e _|e He|e os _|c exec' model os err Hcfg Hopt' _ Hof].
  - destruct e; apply Htr; auto.
  - congruence.
  - apply Htr. by left.
  - rewrite Hopt in Hopt'. injection Hopt' as <-. destruct Hof as [e He|what _|e _|e He|e He].
    + apply preflight_error in He as [(what & [-> | ->])|[-> Hno]]; [apply Htr; by left|apply Htr; by left|right|].
      * by exists c, exec, (Contains model "lm_head.weight").
      * by destruct (Contains model "lm_head.weight").
    + apply Htr. by left.
    + apply Htr. by left.
    + rewrite (weight_fault_type model c e He). apply Htr. by left.
    + pose proof Hcfg as (? & ? & _ & _ & Hacc). pose proof (accepted_geometry _ _ _ Hacc) as Hg.
      assert (MakeExecutorOptions o = Ok exec) as Hmake by (unfold checked_options in Hopt; by destruct (negb _)).
      destruct (construct_error c o exec _ _ _ _ _ e Hg Hmake Hpool He) as [?|[Hty Hwhy]].
      * rewrite Hrt by done. apply Htr. by left.
      * cbn [boot_error_type]. rewrite Hty. destruct Hwhy as [?|Hno]; [by left|right].
        exists c, exec, false. split_and!; [done|done|]. by intros [? _].
Qed.

(** The directory's configuration is read before the pool size is looked at. *)
Definition refused_pool : Prop := (∃ c, configured pf o c) ∧ pool_gb_in_range (kv_pool_gb o) = false.

Lemma boot_refused_pool : refused_pool →
  Engine_boot pf o s = (Err (Refused (InvalidArgument (PoolSizeOutOfRange (kv_pool_gb o)))), s).
Proof using.
  intros [[c Hc] Hp]. pose proof (wpx_read_config pf s o) as H. unfold wpx in H. unfold Engine_boot, mbind, M_bind.
  destruct (part _ _ _ _ s) as [[c'|err] s0]; [|by destruct H as (_ & _ & H); destruct (H c)].
  destruct H as [-> _]. unfold checked_options. by rewrite Hp.
Qed.

Lemma boot_bad_config : (∀ c, ¬ configured pf o c) → ∃ e, Engine_boot pf o s = (Err (BadConfig e), s).
Proof using.
  intros Hno. pose proof (wpx_read_config pf s o) as H. unfold wpx in H. unfold Engine_boot, mbind, M_bind.
  destruct (part _ _ _ _ s) as [[c'|err] s0]; [destruct H as [_ H]; by destruct (Hno c')|].
  destruct H as (-> & [e ->] & _). by exists e.
Qed.

Lemma bound_boot : valid_binary 53 1024 (kv_pool_gb o) = true →
  match bound boot_error_type (Engine_boot pf o) s with
  | (Return (e, w), s') => booted pf s o e w s' ∧ ¬ refused_pool
  | (Raise err, s') => restored pf s s' ∧ (err = ValueError ∧ refused_pool ∨ err = RuntimeError ∧ ¬ refused_pool)
  | (Abort, _) => (eo_max_seq_len o = 1 ∨ oversized) ∧ ¬ refused_pool
  end.
Proof using Hreader Hpf.
  intros Hv. unfold bound. destruct (pool_gb_in_range (kv_pool_gb o)) eqn:Hp.
  - assert (¬ refused_pool) as Hno by (intros [_ H]; congruence).
    destruct (pool_bytes _ Hv Hp) as (n & Hn & Hrange).
    assert (∃ exec, checked_options o = Ok exec ∧ kv_pool_bytes exec = n) as (exec & Hopt & Hkv).
    { unfold checked_options, MakeExecutorOptions. rewrite Hp, Hn. by eexists. }
    destruct Hpf as [Hi Hm]. pose proof (wpx_Engine_boot pf Hreader Hi s Hm o) as H. unfold wpx in H.
    destruct (Engine_boot pf o s) as [[[e w]|err] s']; [done|]. destruct H as [Hf Hr].
    pose proof (late_fault_type exec err Hopt ltac:(lia) Hf) as Ht. rewrite throws_type in Hr.
    destruct (boot_error_type err) as [t|]; [|done]. split; [by apply Hr|]. by right.
  - pose proof (restored_refl pf s) as Hrefl.
    pose proof (wpx_read_config pf s o) as H. unfold wpx in H.
    destruct (part _ _ _ _ s) as [[c|err] s0].
    + destruct H as [_ Hc]. assert refused_pool as Href by by (split; [exists c|]).
      rewrite (boot_refused_pool Href). cbn. split; [done|]. left. split; [apply translate_invalid|done].
    + destruct H as (_ & _ & Hno). destruct (boot_bad_config Hno) as [e ->].
      destruct e; cbn; (split; [done|]; right).
      all: split; [apply translate_runtime || apply translate_other|]; intros [[c Hc] _]; by apply (Hno c).
Qed.

End construction.

(** ** What a session sees *)

(** A computation whose results satisfy [P]. *)
Definition yields {E S A} (m : M E S A) (P : A → Prop) : Prop := ∀ s, wpx m (λ a _, P a) (λ _ _, True) s.

Lemma yields_ret {E S A} (a : A) (P : A → Prop) : P a → yields (E:=E) (S:=S) (mret a) P.
Proof. by intros H s. Qed.

Lemma yields_any {E S A} (m : M E S A) : yields m (λ _, True).
Proof. intros s. unfold wpx. by destruct (m s) as [[]]. Qed.

Lemma yields_bind {E S A B} (m : M E S A) (f : A → M E S B) (P : A → Prop) Q :
  yields m P → (∀ a, P a → yields (f a) Q) → yields (m ≫= f) Q.
Proof. intros Hm Hf s. apply wpx_bind. eapply wpx_mono; [apply Hm| |done]. intros a s' Ha. by apply Hf. Qed.

Lemma yields_then {E S A B} (m : M E S A) (f : A → M E S B) Q : (∀ a, yields (f a) Q) → yields (m ≫= f) Q.
Proof. intros Hf. eapply yields_bind; [apply yields_any|]. auto. Qed.

Lemma yields_on_world {A X B} (m : M error (World A) B) P : yields m P → yields (on_world (X:=X) m) P.
Proof. intros Hm e. apply wpx_zoom. eapply wpx_mono; [apply Hm|done|done]. Qed.

(** The watermark policy's aborts come first. *)
Definition aborts_first (res : list StepResult) : Prop :=
  ∃ l1 l2, res = l1 ++ l2 ∧ Forall (λ x, token x = 0 ∧ sr_finish_reason x = kAborted) l1 ∧
    Forall (λ x, sr_finish_reason x ≠ kAborted) l2.

Section order.
Context {A : Type} `{!KvAllocator A}.

Lemma yields_aborted l : yields (S:=World A) (report_aborted l) (Forall (λ x, token x = 0 ∧ sr_finish_reason x = kAborted)).
Proof using.
  induction l as [|p l IH]; [by apply yields_ret|]. do 2 (apply yields_then; intros ?).
  eapply yields_bind; [exact IH|]. intros rest Hrest. apply yields_ret. by constructor.
Qed.

Lemma stop_reason_kept o r t : stop_reason o r t ≠ kAborted.
Proof using. unfold stop_reason. by repeat case_match. Qed.

Lemma yields_applied p t : yields (S:=World A) (ApplySampledToken p t) (λ x, sr_finish_reason x ≠ kAborted).
Proof using.
  unfold ApplySampledToken. do 5 (apply yields_then; intros ?).
  pose proof (stop_reason_kept (options_ a3) a2 (appended_token a t)) as H.
  destruct (stop_reason _ _ _); [|by repeat (apply yields_then; intros ?); apply yields_ret..|done].
  by apply yields_then; intros ?; apply yields_ret.
Qed.

Lemma yields_rows rows ts : ∀ i, yields (S:=World A) (apply_rows i rows ts) (Forall (λ x, sr_finish_reason x ≠ kAborted)).
Proof using.
  induction rows as [|p rows IH]; intros i; [by apply yields_ret|]. apply yields_then; intros t.
  eapply yields_bind; [apply yields_applied|]. intros x Hx. eapply yields_bind; [apply IH|]. intros rest Hrest.
  apply yields_ret. by constructor.
Qed.

Lemma yields_complete plan ts : yields (S:=World A) (CompleteStep plan ts) aborts_first.
Proof using.
  unfold CompleteStep. eapply yields_bind; [apply yields_aborted|]. intros l1 H1. destruct (prefill plan) as [p|].
  - do 6 (apply yields_then; intros ?). destruct (negb _).
    + apply yields_then; intros ?. apply yields_ret. exists l1, []. by rewrite app_nil_r.
    + do 3 (apply yields_then; intros ?). eapply yields_bind; [apply yields_applied|]. intros x Hx. apply yields_ret.
      exists l1, [x]. split_and!; [done|done|by constructor].
  - apply yields_then; intros ?. eapply yields_bind; [apply yields_rows|]. intros l2 H2. apply yields_ret. by exists l1, l2.
Qed.

Lemma yields_Step {X} `{!StepExecutor X} : yields (S:=Engine A X) Step aborts_first.
Proof using.
  unfold Step. apply yields_then; intros plan. destruct (plan_empty plan); [apply yields_ret; by exists [], []|].
  apply yields_then; intros x. eapply yields_bind; [apply yields_on_world, yields_complete|]. intros res Hres.
  do 2 (apply yields_then; intros ?). by apply yields_ret.
Qed.

End order.

(** ** The protocol *)

Notation tuple_id t := (t.1.1.1).

(** The shape the module documents for one tuple. *)
Definition documented (t : StepTuple) : Prop :=
  let '(_, tok, fin, why) := t in
  why ∈ ["" ; "eos"; "length"; "aborted"]%string ∧ fin = negb (String.eqb why "") ∧ (why = "aborted"%string → tok = 0).

Definition finished_of (ts : list StepTuple) : gset RequestId :=
  list_to_set ((λ t, tuple_id t) <$> filter (λ t, t.1.2 = true) ts).

(** What one [step()] may return while the ids of [open] are in flight. *)
Record step_reply (open : gset RequestId) (ts : list StepTuple) : Prop := {
  rp_known : Forall (λ t, tuple_id t ∈ open) ts;
  rp_once : NoDup ((λ t, tuple_id t) <$> ts);
  rp_shape : Forall documented ts;
  rp_aborts : ∃ l1 l2, ts = l1 ++ l2 ∧ Forall (λ t, t.2 = "aborted"%string) l1 ∧ Forall (λ t, t.2 ≠ "aborted"%string) l2;
}.

Section protocol.
Context (c : ModelConfig) (so : SchedulerOptions) (usable : Z).

(** A request's part of the work left: its prompt and its budget. *)
Definition cost (token_ids : list TokenId) (max_new_tokens : Z) : nat := Z.to_nat (zlen token_ids + max_new_tokens).

(** The replies a session may get when [n] is the next id, the ids of [open]
    are in flight and at most [w] steps of work are left: a request is refused
    with a [ValueError] exactly when the engine's rules say so and otherwise
    gets the next id; a step tells of ids in flight only, finishes ids once, and
    makes progress while there are any. *)
Inductive protocol : RequestId → gset RequestId → nat → list (call * reply) → Prop :=
  | ps_nil n open w : (open ≠ ∅ → (0 < w)%nat) → protocol n open w []
  | ps_taken n open w ts mx ign forced l :
      admitted_whole c so usable (new_request n ts mx ign (default [] forced)) →
      protocol (n + 1) ({[n]} ∪ open) (w + cost ts mx) l →
      protocol n open w ((AddCall ts mx ign forced, AddReply (Return n)) :: l)
  | ps_refused n open w ts mx ign forced l :
      ¬ admitted_whole c so usable (new_request n ts mx ign (default [] forced)) →
      protocol n open w l → protocol n open w ((AddCall ts mx ign forced, AddReply (Raise ValueError)) :: l)
  | ps_step n open w ts w' l :
      step_reply open ts → (w' <= w)%nat → (open ≠ ∅ → (w' < w)%nat) → protocol n (open ∖ finished_of ts) w' l →
      protocol n open w ((StepCall, StepReply (Return ts)) :: l).

(** A driver that keeps stepping sees every id in flight finish. *)
Lemma stepping_finishes l : ∀ n open w i, protocol n open w l → (∀ x, x ∈ l → x.1 = StepCall) → (w <= length l)%nat → i ∈ open →
  ∃ ts, (StepCall, StepReply (Return ts)) ∈ l ∧ i ∈ finished_of ts.
Proof using.
  induction l as [|x l IH]; intros n open w i Hp Hcalls Hw Hi; inversion Hp as [? ? ? Hpos|? ? ? ? ? ? ? ? ? ?|? ? ? ? ? ? ? ? ? ?|? ? ? ts w' ? Hts _ Hlt Hp']; subst.
  - cbn in Hw. specialize (Hpos ltac:(set_solver)). lia.
  - by specialize (Hcalls _ (list_elem_of_here _ _)).
  - by specialize (Hcalls _ (list_elem_of_here _ _)).
  - destruct (decide (i ∈ finished_of ts)) as [Hf|Hf]; [exists ts; split; [apply list_elem_of_here|done]|].
    specialize (Hlt ltac:(set_solver)). cbn in Hw.
    destruct (IH n (open ∖ finished_of ts) w' i Hp') as (ts' & Hin & Hf'); [|lia|set_solver|].
    + intros y Hy. apply Hcalls. by apply list_elem_of_further.
    + exists ts'. split; [by apply list_elem_of_further|done].
Qed.

Definition total_cost (calls : list call) : nat :=
  sum_list_with (λ x, match x with AddCall ts mx _ _ => cost ts mx | StepCall => 0%nat end) calls.

(** Every id handed out finishes, once the driver has stepped often enough. *)
Lemma ids_finish l1 l2 : ∀ n open w i, protocol n open w (l1 ++ l2) → (∀ x, x ∈ l2 → x.1 = StepCall) →
  (w + total_cost l1.*1 <= length l2)%nat → i ∈ open ∨ AddReply (Return i) ∈ l1.*2 →
  ∃ ts, (StepCall, StepReply (Return ts)) ∈ l1 ++ l2 ∧ i ∈ finished_of ts.
Proof using.
  induction l1 as [|x l1 IH]; intros n open w i Hp Hcalls Hw Hi.
  - cbn in Hp, Hw. apply (stepping_finishes l2 n open w i Hp Hcalls ltac:(lia)). destruct Hi as [Hi|Hi]; [done|by apply not_elem_of_nil in Hi].
  - assert (∀ n open w, protocol n open w (l1 ++ l2) → (w + total_cost l1.*1 <= length l2)%nat → i ∈ open ∨ AddReply (Return i) ∈ l1.*2 →
      ∃ ts, (StepCall, StepReply (Return ts)) ∈ (x :: l1) ++ l2 ∧ i ∈ finished_of ts) as Hrec.
    { intros n' open' w' Hp' Hw' Hi'. destruct (IH n' open' w' i Hp' Hcalls Hw' Hi') as (ts & Hin & Hf).
      exists ts. split; [by apply list_elem_of_further|done]. }
    cbn [app] in Hp. inversion Hp as [|? ? ? ts mx ign forced ? _ Hp'|? ? ? ts mx ign forced ? _ Hp'|? ? ? ts w' ? Hts Hle _ Hp']; subst;
      cbn in Hw; fold (total_cost l1.*1) in Hw; rewrite fmap_cons, elem_of_cons in Hi; cbn [snd] in Hi.
    + apply (Hrec _ _ _ Hp'); [lia|]. destruct Hi as [Hi|[[= ->]|Hi]]; [left; set_solver|left; set_solver|by right].
    + apply (Hrec _ _ _ Hp'); [lia|]. destruct Hi as [Hi|[?|Hi]]; [by left|done|by right].
    + destruct (decide (i ∈ finished_of ts)) as [Hf|Hf]; [exists ts; split; [apply list_elem_of_here|done]|].
      apply (Hrec _ _ _ Hp'); [lia|]. destruct Hi as [Hi|[?|Hi]]; [left; set_solver|done|by right].
Qed.

End protocol.

Lemma reported_documented so r x r' : reported so r x r' → documented (step_tuple x).
Proof.
  intros [t -> _|_ -> _]; unfold documented, step_tuple; cbn; [|set_solver].
  unfold stop_rule. repeat case_bool_decide; cbn; set_solver.
Qed.

Lemma finished_tuples res i : i ∈ finished_of (map step_tuple res) ↔ ∃ x, x ∈ res ∧ Types.finished x = true ∧ request_id x = i.
Proof.
  unfold finished_of. rewrite elem_of_list_to_set, list_elem_of_fmap. setoid_rewrite list_elem_of_filter.
  setoid_rewrite list_elem_of_fmap. split.
  - by intros (? & -> & Hf & x & -> & Hx); exists x.
  - intros (x & Hx & Hf & <-). exists (step_tuple x). split_and!; [done|done|by exists x].
Qed.

Section sessions.
Context {translation : Translation} {Algo D : Type} (c : ModelConfig) (eo : EngineOptions) (xo : ExecutorOptions) (b : ExecutorMemoryBudget).
Context (lt : LtLibrary Algo) (dev : Device D) (dma : nat → nat).
Context (dump : Z → Z → Z → PrefillGemmMode → M error (Executor Algo D) ()).
Context (malloc : gmap RequestPtr Request → RequestPtr).
Context (Hs : serving_setup c eo xo b lt dev) (Hmalloc : ∀ h, h !! malloc h = None).
#[local] Instance session_ops : StepExecutor (Executor Algo D) := model_executor c xo lt dev dma dump.
Notation served := (served c eo xo lt dev dma dump malloc).
Notation s := (MakeSchedulerOptions eo (cfg_eos_token_ids c)).
Notation usable := (usable c xo).
Notation protocol := (protocol c s usable).
Implicit Types e : EngineState Algo D.

(** The ids in flight are those on record. *)
Definition in_flight e (open : gset RequestId) : Prop := ∀ i, i ∈ open ↔ ∃ r, on_record e i r.

Lemma add_reply e ts mx ign forced open :
  served e → next_request_id_ e < 2 ^ 64 - 1 → in_flight e open →
  let r := new_request (next_request_id_ e) ts mx ign (default [] forced) in
  (admitted_whole c s usable r ∧ ∃ e', add_request malloc ts mx ign forced e = (Return (next_request_id_ e), e') ∧ served e' ∧
     next_request_id_ e' = next_request_id_ e + 1 ∧ total_work (e_world e') = (total_work (e_world e) + cost ts mx)%nat ∧
     in_flight e' ({[next_request_id_ e]} ∪ open)) ∨
  ¬ admitted_whole c s usable r ∧ add_request malloc ts mx ign forced e = (Raise ValueError, e).
Proof using Hs Hmalloc.
  intros He Hid Hop r. unfold add_request, bound. destruct (decide (admitted_whole c s usable r)) as [Ha|Hno]; [left|right].
  - split; [done|]. destruct (client_taken c eo xo b lt dev dma dump malloc Hs Hmalloc e ts mx ign (default [] forced) He Hid Ha)
      as (e' & -> & He' & Hn & Hw & Hrec). exists e'. split_and!; [done|done|done|exact Hw|].
    intros i. rewrite elem_of_union, elem_of_singleton. setoid_rewrite Hrec. unfold in_flight in Hop. rewrite Hop. naive_solver.
  - split; [done|]. destruct (client_refused c eo xo b lt dev dma dump malloc Hs Hmalloc e ts mx ign (default [] forced) He Hid Hno)
      as [why ->]. cbn. by rewrite translate_invalid.
Qed.

Lemma session_idle_work e : served e → in_flight e ∅ → total_work (e_world e) = 0%nat.
Proof using Hs Hmalloc.
  intros He Hop. assert (live (w_sched (e_world e)) = []) as Hl; [|unfold total_work; by rewrite Hl].
  destruct (live (w_sched (e_world e))) as [|p l] eqn:Hl; [done|].
  assert (live (w_sched (e_world e)) ≠ []) as Hne by by rewrite Hl.
  apply (record_live c eo xo b lt dev dma dump malloc Hs Hmalloc e He) in Hne as (i & r & Hr).
  assert (i ∈ (∅ : gset RequestId)) by (apply Hop; by exists r). set_solver.
Qed.

Lemma step_reply_ok e open : served e → in_flight e open →
  ∃ ts e', step e = (Return ts, e') ∧ served e' ∧ next_request_id_ e' = next_request_id_ e ∧ step_reply open ts ∧
    in_flight e' (open ∖ finished_of ts) ∧ (total_work (e_world e') <= total_work (e_world e))%nat ∧ (open ≠ ∅ → (total_work (e_world e') < total_work (e_world e))%nat).
Proof using Hs Hmalloc.
  intros He Hop. destruct (client_step c eo xo b lt dev dma dump malloc Hs Hmalloc e He) as (res & e' & Hrun & Hc).
  assert (Step (StepExecutor0 := session_ops) e = (Ok res, e')) as Heq by exact Hrun. destruct Hc as [He' Hn Honce Heach Hrest Hnew _ Hw]. exists (map step_tuple res), e'.
  assert (step e = (Return (map step_tuple res), e')) as Hstep by (unfold step, bound, mbind, M_bind; by rewrite Heq).
  assert ((λ t : StepTuple, tuple_id t) <$> map step_tuple res = map request_id res) as Hids.
  { change (map step_tuple res) with (step_tuple <$> res). by rewrite <- list_fmap_compose. }
  assert (in_flight e' (open ∖ finished_of (map step_tuple res))) as Hop'.
  { intros i. rewrite elem_of_difference, (Hop i), finished_tuples. split.
    + intros [[r Hr] Hnf]. destruct (decide (i ∈ map request_id res)) as [Hin|Hin].
      * apply list_elem_of_fmap in Hin as (x & -> & Hx). destruct (Heach x Hx) as (r0 & r' & _ & _ & H).
        destruct (Types.finished x) eqn:Hf; [destruct Hnf; by exists x|by exists r'].
      * destruct (Hrest i r Hr Hin) as (r' & Hr' & _). by exists r'.
    + intros [r Hr]. split; [by eapply Hnew|]. intros (x & Hx & Hf & <-). destruct (Heach x Hx) as (r0 & r' & _ & _ & H).
      rewrite Hf in H. apply H. by exists r. }
  assert (open ≠ ∅ → (total_work (e_world e') < total_work (e_world e))%nat) as Hlt.
  { intros Hne. apply Hw. destruct (set_choose_L open Hne) as [i Hi]. apply Hop in Hi as [r Hr]. by exists i, r. }
  split; [exact Hstep|]. split_and!; [done|done| |done| |done].
  - split.
    + apply Forall_forall. intros ? (x & -> & Hx)%list_elem_of_fmap. apply Hop. destruct (Heach x Hx) as (r & _ & Hr & _). by exists r.
    + by replace ((λ t : StepTuple, tuple_id t) <$> map step_tuple res) with (map request_id res).
    + apply Forall_forall. intros ? (x & -> & Hx)%list_elem_of_fmap. destruct (Heach x Hx) as (r & r' & _ & Hrep & _).
      by eapply reported_documented.
    + pose proof (yields_Step e) as H. unfold wpx in H. rewrite Heq in H. destruct H as (l1 & l2 & -> & H1 & H2).
      exists (map step_tuple l1), (map step_tuple l2). split_and!; [apply map_app| |].
      * apply Forall_fmap. eapply Forall_impl; [exact H1|]. intros x [_ Hx]. cbn. by rewrite Hx.
      * apply Forall_fmap. eapply Forall_impl; [exact H2|]. cbv beta. unfold compose, step_tuple. cbn [snd]. intros x.
        by destruct (sr_finish_reason x).
  - destruct (decide (open = ∅)) as [->|Hne]; [|specialize (Hlt Hne); lia].
    rewrite (session_idle_work e') by (done || by rewrite difference_empty_L in Hop' || by replace (∅ : gset RequestId) with (∅ ∖ finished_of (map step_tuple res)) by set_solver).
    lia.
Qed.

Lemma session_follows calls : ∀ e open, served e → in_flight e open → next_request_id_ e + zlen calls < 2 ^ 64 - 1 →
  protocol (next_request_id_ e) open (total_work (e_world e)) (session malloc calls e).1.
Proof using Hs Hmalloc.
  induction calls as [|[ts mx ign forced|] calls IH]; intros e open He Hop Hid; cbn [session].
  - constructor. intros Hne. destruct (step_reply_ok e open He Hop) as (? & ? & _ & _ & _ & _ & _ & _ & Hw). specialize (Hw Hne). lia.
  - rewrite zlen_cons in Hid. pose proof (zlen_nonneg calls). cbn [do_call].
    destruct (add_reply e ts mx ign forced open He ltac:(lia) Hop) as [(Ha & e' & -> & He' & Hn & Hw & Hop')|[Hno ->]].
    + specialize (IH e' _ He' Hop' ltac:(lia)). destruct (session malloc calls e') as [rs e2]. constructor; [done|].
      by rewrite <- Hn, <- Hw.
    + specialize (IH e open He Hop ltac:(lia)). destruct (session malloc calls e) as [rs e2]. by constructor.
  - rewrite zlen_cons in Hid. cbn [do_call].
    destruct (step_reply_ok e open He Hop) as (ts & e' & -> & He' & Hn & Hts & Hop' & Hle & Hw).
    specialize (IH e' _ He' Hop' ltac:(lia)). destruct (session malloc calls e') as [rs e2]. rewrite Hn in IH. by econstructor.
Qed.

End sessions.

(** ** The statistics *)

(** No bucket's count is lost in the dict. *)
Lemma histogram_lookup l b n : NoDup l.*1 → histogram_dict l !! b = Some n ↔ (b, n) ∈ l.
Proof.
  unfold histogram_dict. induction l as [|[b' n'] l IH] using rev_ind; intros Hnd; [cbn; set_solver|].
  rewrite fmap_app in Hnd. apply NoDup_app in Hnd as (Hnd & Hdis & _).
  rewrite foldl_snoc, elem_of_app, list_elem_of_singleton. cbn [fst snd]. destruct (decide (b = b')) as [->|Hne].
  - rewrite lookup_insert_eq. split; [intros [= ->]; by right|]. intros [Hin|[= ->]]; [|done].
    destruct (Hdis b'); [|cbn; set_solver]. apply list_elem_of_fmap. by exists (b', n).
  - rewrite lookup_insert_ne, IH by done. naive_solver.
Qed.

Lemma buckets_nodup cap : NoDup (MakeDecodeBuckets cap).
Proof. apply NoDup_filter. by apply (bool_decide_unpack _); vm_compute. Qed.

Lemma stats_histogram {Algo D} c eo xo b (lt : LtLibrary Algo) (dev : Device D) dma dump malloc (e : EngineState Algo D) :
  let _ := model_executor c xo lt dev dma dump in
  serving_setup c eo xo b lt dev → (∀ h, h !! malloc h = None) → served c eo xo lt dev dma dump malloc e →
  ∃ d, stats e !! "bucket_histogram"%string = Some (PyDict d) ∧
    ∀ k n, d !! k = Some n ↔ (k, n) ∈ bucket_histogram (Stats total_blocks e).
Proof.
  intros ops Hs Hm He. eexists. split; [reflexivity|]. intros k n. apply histogram_lookup.
  destruct (client_inv c eo xo b lt dev dma dump malloc Hs Hm e He) as [Hi _]. cbn [Stats bucket_histogram].
  rewrite fst_zip by (rewrite (ei_hist _ _ _ _ _ Hi); done).
  apply buckets_nodup.
Qed.

(** ** A log's shape *)

Section logs.
Context {translation : Translation} {Algo D : Type} `{!StepExecutor (Executor Algo D)}.
Context (malloc : gmap RequestPtr Request → RequestPtr).
Implicit Types e : EngineState Algo D.

Lemma session_app l1 l2 : ∀ e, session malloc (l1 ++ l2) e =
  let (rs1, e1) := session malloc l1 e in let (rs2, e2) := session malloc l2 e1 in (rs1 ++ rs2, e2).
Proof using.
  induction l1 as [|x l1 IH]; intros e; cbn [app session]; [by destruct (session malloc l2 e)|].
  destruct (do_call malloc x e) as [r e1]. rewrite IH. destruct (session malloc l1 e1) as [rs1 e2].
  by destruct (session malloc l2 e2).
Qed.

Lemma session_calls l : ∀ e, (session malloc l e).1.*1 = l.
Proof using.
  induction l as [|x l IH]; intros e; cbn [session]; [done|]. destruct (do_call malloc x e) as [r e1].
  specialize (IH e1). destruct (session malloc l e1) as [rs e2]. cbn in *. by rewrite IH.
Qed.

(** A [step()] call gets a step reply. *)
Lemma step_replies n : ∀ e x, x ∈ (session malloc (replicate n StepCall) e).1 → x.1 = StepCall ∧ ∃ r, x.2 = StepReply r.
Proof using.
  induction n as [|n IH]; intros e x; cbn [replicate session]; [by intros ?%not_elem_of_nil|].
  unfold do_call. destruct (step e) as [r e1]. specialize (IH e1 x).
  destruct (session malloc (replicate n StepCall) e1) as [rs e2]. intros [->|Hx]%elem_of_cons; [split; [done|by exists r]|by apply IH].
Qed.

End logs.

(** ** The module's guarantees *)

(** C10. What constructing an engine from Python can do, for every directory and
    argument and whichever runtime calls fail, on a machine whose [cudaMalloc]
    returns aligned memory not in use.  An unknown policy name raises
    [ValueError] before anything is touched.  Otherwise construction returns a
    booted engine, or raises with what it acquired given back as in C9:
    [ValueError] exactly when the directory's configuration is accepted and the
    pool size is out of range, [RuntimeError] for every other cause.  It ends
    otherwise for two kinds of options the checks miss: [max_seq_len] = 1, where
    a debug build's assertion fires, and sizes beyond the integer types, where
    the memory plan overflows. *)
Theorem constructor_outcome {translation : Translation} {Algo D} (reader : JsonReader) (pf : Platform Algo D) s a :
  reader_ok reader → platform_ok pf s → valid_binary 53 1024 (ea_kv_pool_gb a) = true →
  match ParseAdmissionPolicy (ea_admission_policy a) with
  | Err _ => MakeEngine pf a s = (Raise ValueError, s)
  | Ok policy =>
      let o := make_options a policy in
      match MakeEngine pf a s with
      | (Return (e, w), s') => booted pf s o e w s' ∧ ¬ refused_pool pf o
      | (Raise err, s') => restored pf s s' ∧ (err = ValueError ∧ refused_pool pf o ∨ err = RuntimeError ∧ ¬ refused_pool pf o)
      | (Abort, _) => (ea_max_seq_len a = 1 ∨ oversized pf o) ∧ ¬ refused_pool pf o
      end
  end.
Proof.
  intros Hr Hpf Hv. unfold MakeEngine. destruct (ParseAdmissionPolicy _) as [policy|t] eqn:Hp.
  - exact (bound_boot pf s Hr Hpf (make_options a policy) Hv).
  - unfold ParseAdmissionPolicy in Hp. destruct (String.eqb _ _); [done|]. destruct (String.eqb _ _); [done|].
    injection Hp as <-. by rewrite translate_invalid.
Qed.

(** C6. What a Python session sees, from construction on.  On a good directory
    and a working device the constructor returns, and then, for any calls in any
    order: [add_request] raises [ValueError] exactly on the requests the
    engine's rules refuse and otherwise returns 1, 2, 3, ... in turn; [step()]
    never raises, its tuples tell of ids handed out and not yet finished, each
    once, aborts first, with the documented reasons; nothing is said of an id
    after its finished tuple.  After as many further [step()] calls as the
    requests have prompt and budget tokens, every id handed out has finished. *)
Theorem session_protocol {translation : Translation} {Algo D} (reader : JsonReader) (pf : Platform Algo D) s a policy c exec bud model os
    dump malloc calls n :
  let o := make_options a policy in
  reader_ok reader → platform_ok pf s → ParseAdmissionPolicy (ea_admission_policy a) = Ok policy →
  bootable pf s o c exec bud model os → (∀ h, h !! malloc h = None) →
  zlen calls + Z.of_nat n < 2 ^ 64 - 2 → (total_cost calls <= n)%nat →
  ∃ e w s', MakeEngine pf a s = (Return (e, w), s') ∧
    let log := (session (StepExecutor0 := model_executor c exec (pf_lt pf) (pf_dev pf) (pf_dma pf) dump) malloc
                  (calls ++ replicate n StepCall) e).1 in
    protocol c (MakeSchedulerOptions o (cfg_eos_token_ids c)) (usable c exec) 1 ∅ 0 log ∧
    ∀ i, AddReply (Return i) ∈ log.*2 → ∃ ts, (StepCall, StepReply (Return ts)) ∈ log ∧ i ∈ finished_of ts.
Proof.
  intros o Hr Hpf Hp Hb Hm Hlen Hn.
  destruct (bootable_boots reader pf s o c exec bud model os dump malloc Hr Hpf Hb) as (e & w & s' & Hrun & _ & _ & Hsv & Hreq & Hid).
  exists e, w, s'. split; [unfold MakeEngine, bound; rewrite Hp; by fold o; rewrite Hrun|]. intros log.
  pose proof (ba_setup _ _ _ _ _ _ _ _ Hb) as Hs.
  assert (in_flight e ∅) as Hop.
  { intros i. split; [by intros ?%not_elem_of_empty|]. intros (r & p & Hl & _). by rewrite Hreq in Hl. }
  pose proof (session_follows c o exec bud (pf_lt pf) (pf_dev pf) (pf_dma pf) dump malloc Hs Hm
    (calls ++ replicate n StepCall) e ∅ Hsv Hop) as Hf.
  rewrite (session_idle_work c o exec bud _ _ _ dump malloc Hs Hm e Hsv Hop), Hid in Hf.
  assert (protocol c (MakeSchedulerOptions o (cfg_eos_token_ids c)) (usable c exec) 1 ∅ 0 log) as Hlog.
  { apply Hf. rewrite zlen_app. unfold zlen in *. rewrite length_replicate. lia. }
  split; [exact Hlog|]. intros i Hi. unfold log in *. rewrite session_app in *.
  pose proof (session_calls (StepExecutor0 := model_executor c exec (pf_lt pf) (pf_dev pf) (pf_dma pf) dump) malloc calls e) as Hc.
  destruct (session malloc calls e) as [l1 e1].
  pose proof (session_calls (StepExecutor0 := model_executor c exec (pf_lt pf) (pf_dev pf) (pf_dma pf) dump) malloc (replicate n StepCall) e1) as Hc2.
  pose proof (step_replies (StepExecutor0 := model_executor c exec (pf_lt pf) (pf_dev pf) (pf_dma pf) dump) malloc n e1) as Hsteps.
  destruct (session malloc (replicate n StepCall) e1) as [l2 e2]. cbn [fst] in *.
  eapply ids_finish; [exact Hlog|intros x Hx; by apply Hsteps| |].
  - rewrite Hc. apply (f_equal length) in Hc2. rewrite length_fmap, length_replicate in Hc2. lia.
  - right. rewrite fmap_app, elem_of_app in Hi. destruct Hi as [Hi|Hi]; [done|].
    apply list_elem_of_fmap in Hi as (x & Hx & Hin). destruct (Hsteps x Hin) as [_ [r Hr2]]. congruence.
Qed.

(** ** The pinned model, once refused and once served *)

Module BindingExample.

#[export] Instance default_translation : Translation :=
  {| translate := λ t, match t with StdInvalidArgument => ValueError | _ => RuntimeError end;
     translate_invalid := eq_refl; translate_runtime := eq_refl; translate_other := eq_refl |}.

(** 1 GiB of cache and four rows of up to 64 tokens, over the directory [m]. *)
Definition args (gb : double) (policy : string) : EngineArgs :=
  mkEngineArgs "m" gb 4 true 64 8 policy 1 None.

End BindingExample.
Import BindingExample.

(** A pool of 0 GiB over a good configuration, and a mistyped policy. *)
Lemma constructor_outcome_witness :
  MakeEngine (reader:=BootExample.reader) (BootExample.platform BootExample.disk)
    (BindingExample.args (S754_zero false) "watermark") BootExample.machine = (Raise ValueError, BootExample.machine) ∧
  refused_pool (reader:=BootExample.reader) (BootExample.platform BootExample.disk)
    (make_options (BindingExample.args (S754_zero false) "watermark") kWatermark) ∧
  MakeEngine (reader:=BootExample.reader) (BootExample.platform BootExample.disk)
    (BindingExample.args one_gb "Watermark") BootExample.machine = (Raise ValueError, BootExample.machine).
Proof.
  assert (MakeEngine (reader:=BootExample.reader) (BootExample.platform BootExample.disk)
    (BindingExample.args (S754_zero false) "watermark") BootExample.machine = (Raise ValueError, BootExample.machine)) as Hrun
    by (vm_compute; reflexivity).
  pose proof (constructor_outcome BootExample.reader (BootExample.platform BootExample.disk) BootExample.machine
    (BindingExample.args (S754_zero false) "watermark") BootExample.boot_reader_ok (BootExample.platform_is_ok _) eq_refl) as H1.
  pose proof (constructor_outcome BootExample.reader (BootExample.platform BootExample.disk) BootExample.machine
    (BindingExample.args one_gb "Watermark") BootExample.boot_reader_ok (BootExample.platform_is_ok _) eq_refl) as H2.
  split; [exact Hrun|]. split; [|exact H2]. cbn [ParseAdmissionPolicy BindingExample.args ea_admission_policy] in H1.
  change (ParseAdmissionPolicy "watermark") with (Ok (E:=cxx_type) kWatermark) in H1. cbv zeta in H1. rewrite Hrun in H1.
  destruct H1 as [_ [[_ H]|[H _]]]; [exact H|discriminate H].
Defined.

(** One request of two tokens, then six steps. *)
Lemma session_protocol_witness :
  ∃ e w s', MakeEngine (reader:=ZeroExample.reader) ZeroExample.platform (BindingExample.args one_gb "reserve_full") BootExample.machine =
      (Return (e, w), s') ∧
    ∃ ts, (StepCall, StepReply (Return ts)) ∈
      (session (StepExecutor0 := model_executor ZeroExample.config EngineExample.xopts WorkingExample.lib EngineExample.dev (λ _, 0%nat) (λ _ _ _ _, mret ()))
         EngineExample.malloc (AddCall [5; 6] 4 false None :: replicate 6 StepCall) e).1 ∧ 1 ∈ finished_of ts.
Proof.
  destruct ZeroExample.boots as (model & os & Hb).
  destruct (session_protocol ZeroExample.reader ZeroExample.platform BootExample.machine (BindingExample.args one_gb "reserve_full")
    kReserveFull ZeroExample.config EngineExample.xopts EngineExample.budget model os (λ _ _ _ _, mret ()) EngineExample.malloc
    [AddCall [5; 6] 4 false None] 6 ZeroExample.zero_reader_ok (BootExample.platform_is_ok _) eq_refl Hb EngineExample.malloc_fresh)
    as (e & w & s' & Hrun & Hlog & Hfin); [by vm_compute|by vm_compute; lia|].
  exists e, w, s'. split; [exact Hrun|]. apply Hfin. revert Hlog. cbn [app session]. cbv zeta.
  destruct (do_call _ _ e) as [r e1]. destruct (session _ _ e1) as [l e2]. cbn [fst]. intros Hlog.
  apply list_elem_of_fmap. inversion Hlog as [|? ? ? ? ? ? ? ? _ _|? ? ? ? ? ? ? ? Hno _|]; subst.
  - eexists. split; [|apply list_elem_of_here]. reflexivity.
  - exfalso. apply Hno. apply (bool_decide_eq_true_1 _). by vm_compute.
Defined.

(** The one option value that gets past the budget's checks and trips the
    scheduler's assertion. *)
Lemma max_seq_len_one_aborts :
  let o := mkEngineOptions "m" one_gb 4 true 1 8 kReserveFull 1 "" in
  ∃ xo bud, MakeExecutorOptions o = Ok xo ∧ ComputeBudget qwen25 xo = Ok bud ∧
    Engine_construct qwen25 o xo WorkingExample.lib EngineExample.dev (λ _, 0%nat) (λ _, true) 28 = Err (AssertionFailed "max_seq_len >= 2").
Proof. intros o. eexists _, _. split; [by vm_compute|]. split; [by vm_compute|]. by vm_compute. Qed.
