(* ===== verification/Workload.v ===== *)
(** * The benchmark driver's token stream (bench_main.cpp)

    The splitmix64 workload with its self test.  [BenchRun] drives the engine
    with it. *)

From S2P Require Import Prelude Doubles Types.
From stdpp Require Import pretty.
#[local] Open Scope Z_scope.

(** ** The token stream *)

Definition SplitMix64 (x : Z) : Z :=
  let x := u64 (x + 0x9E3779B97F4A7C15) in
  let x := u64 (Z.lxor x (Z.shiftr x 30) * 0xBF58476D1CE4E5B9) in
  let x := u64 (Z.lxor x (Z.shiftr x 27) * 0x94D049BB133111EB) in
  Z.lxor x (Z.shiftr x 31).

(** The word a token is drawn from. *)
Definition workload_word (seed request_id position : Z) : Z :=
  Z.lxor (Z.lxor (u64 (Z.shiftl seed 40)) (u64 (Z.shiftl request_id 20))) position.

Definition WorkloadTokenId (seed request_id position : Z) : TokenId :=
  1000 + SplitMix64 (workload_word seed request_id position) mod 99000.

Definition kSelftestRequests : list Z := [0; 1].
Definition kSelftestPositions : list Z := [0; 1; 2; 3].

Definition BuildPrompt (seed request_index prompt_len : Z) : list TokenId :=
  map (WorkloadTokenId seed request_index) (seqZ 0 prompt_len).

(** The lines [--selftest-workload] prints. *)
Definition selftest_line (seed req pos : Z) : string :=
  "seed=" +:+ pretty seed +:+ " req=" +:+ pretty req +:+ " pos=" +:+ pretty pos +:+
  " id=" +:+ pretty (WorkloadTokenId seed req pos).
Definition RunSelftest (seed : Z) : list string :=
  req ← kSelftestRequests; pos ← kSelftestPositions; [selftest_line seed req pos].

(** The eight [static_assert]s. *)
Lemma workload_pinned :
  map (λ '(r, p), WorkloadTokenId 0 r p) [(0, 0); (0, 1); (0, 2); (0, 3); (1, 0); (1, 1); (1, 2); (1, 3)] =
  [40535; 72465; 39110; 83053; 31861; 23711; 79207; 9130].
Proof. by vm_compute. Qed.

(** ** Facts about the stream *)

Lemma WorkloadTokenId_range seed r p : 1000 <= WorkloadTokenId seed r p < 100000.
Proof. unfold WorkloadTokenId. pose proof (Z.mod_pos_bound (SplitMix64 (workload_word seed r p)) 99000). lia. Qed.

Lemma BuildPrompt_length seed i n : 0 <= n → zlen (BuildPrompt seed i n) = n.
Proof. intros Hn. unfold BuildPrompt, zlen. rewrite length_map, length_seqZ. lia. Qed.

Lemma BuildPrompt_tokens seed i n : Forall (λ t, 1000 <= t < 100000) (BuildPrompt seed i n).
Proof. apply Forall_forall. intros t (p & -> & _)%list_elem_of_fmap. apply WorkloadTokenId_range. Qed.

Definition word64 (x : Z) : Prop := 0 <= x < 2 ^ 64.

Lemma u64_word x : word64 (u64 x).
Proof. unfold word64, u64. apply Z.mod_pos_bound. lia. Qed.

(** A xor-shift keeps the high bits, from which the others are recovered. *)
Lemma xorshift_inj k x y : 0 < k → word64 x → word64 y →
  Z.lxor x (Z.shiftr x k) = Z.lxor y (Z.shiftr y k) → x = y.
Proof.
  intros Hk Hx Hy Heq. assert (∀ v i, word64 v → 64 <= i → Z.testbit v i = false) as Hhigh.
  { intros v i Hv Hi. destruct (Z.eq_dec v 0) as [->|Hv0]; [apply Z.bits_0|]. apply Z.bits_above_log2; [apply Hv|].
    pose proof (proj1 (Z.log2_lt_pow2 v 64 ltac:(unfold word64 in *; lia)) (proj2 Hv)). lia. }
  assert (∀ n i, 64 - Z.of_nat n <= i → 0 <= i → Z.testbit x i = Z.testbit y i) as Hbits.
  { intros n. induction n as [|n IH]; intros i Hi Hp; [rewrite !Hhigh by (done || lia); done|].
    pose proof (f_equal (λ v, Z.testbit v i) Heq) as Hb. cbn beta in Hb.
    rewrite !Z.lxor_spec, !Z.shiftr_spec in Hb by lia.
    destruct (Z.le_gt_cases (64 - Z.of_nat n) (i + k)) as [Hle|]; [|apply IH; lia].
    rewrite (IH (i + k)) in Hb by lia. by destruct (Z.testbit x i), (Z.testbit y i), (Z.testbit y (i + k)). }
  apply Z.bits_inj'. intros i Hi. apply (Hbits 64%nat); lia.
Qed.

Lemma xorshift_word k x : 0 <= k → word64 x → word64 (Z.lxor x (Z.shiftr x k)).
Proof.
  intros Hk Hx. unfold word64 in *. assert (0 <= Z.shiftr x k) as Hs by (apply Z.shiftr_nonneg; lia).
  assert (0 <= Z.lxor x (Z.shiftr x k)) as Hn by (apply Z.lxor_nonneg; lia). split; [done|].
  destruct (Z.eq_dec (Z.lxor x (Z.shiftr x k)) 0) as [->|H0]; [lia|]. destruct (Z.eq_dec x 0) as [->|Hx0].
  { by rewrite Z.shiftr_0_l in H0. }
  apply Z.log2_lt_pow2; [lia|]. pose proof (Z.log2_lxor x (Z.shiftr x k) ltac:(lia) Hs).
  rewrite Z.log2_shiftr in * by lia. pose proof (proj1 (Z.log2_lt_pow2 x 64 ltac:(lia)) ltac:(lia)). lia.
Qed.

(** Multiplication by an odd constant has an inverse. *)
Lemma u64_mul_inj c c' x y : (c * c') mod 2 ^ 64 = 1 → word64 x → word64 y → u64 (x * c) = u64 (y * c) → x = y.
Proof.
  unfold u64. intros Hc Hx Hy Heq.
  assert (∀ v, word64 v → ((v * c) mod 2 ^ 64 * c') mod 2 ^ 64 = v) as Hinv.
  { intros v Hv. rewrite Z.mul_mod_idemp_l by lia. rewrite <- Z.mul_assoc, <- Z.mul_mod_idemp_r, Hc, Z.mul_1_r by lia.
    by apply Z.mod_small. }
  rewrite <- (Hinv x Hx), <- (Hinv y Hy). by rewrite Heq.
Qed.

Lemma u64_add_inj c x y : word64 x → word64 y → u64 (x + c) = u64 (y + c) → x = y.
Proof.
  unfold u64, word64. intros Hx Hy Heq. pose proof (Z.div_mod (x + c) (2 ^ 64) ltac:(lia)). pose proof (Z.div_mod (y + c) (2 ^ 64) ltac:(lia)).
  rewrite Heq in *. nia.
Qed.

(** The mixer loses nothing: it is one to one on 64-bit words. *)
Lemma SplitMix64_inj x y : word64 x → word64 y → SplitMix64 x = SplitMix64 y → x = y.
Proof.
  intros Hx Hy Heq. unfold SplitMix64 in Heq.
  apply xorshift_inj in Heq; [|lia|apply u64_word|apply u64_word].
  apply (u64_mul_inj _ 0x319642b2d24d8ec3) in Heq; [|by vm_compute|apply xorshift_word, u64_word; lia..].
  apply xorshift_inj in Heq; [|lia|apply u64_word|apply u64_word].
  apply (u64_mul_inj _ 0x96de1b173f119089) in Heq; [|by vm_compute|apply xorshift_word, u64_word; lia..].
  apply xorshift_inj in Heq; [|lia|apply u64_word|apply u64_word].
  by eapply u64_add_inj.
Qed.

(** A cell of the workload grid, while its fields do not overlap. *)
Record cell_ok (seed r p : Z) : Prop := {
  cl_seed : 0 <= seed < 2 ^ 24;
  cl_request : 0 <= r < 2 ^ 20;
  cl_position : 0 <= p < 2 ^ 20;
}.

Lemma lxor_shiftl_low a b n : 0 <= n → 0 <= b < 2 ^ n → Z.lxor (Z.shiftl a n) b = a * 2 ^ n + b.
Proof.
  intros Hn Hb. rewrite <- Z.shiftl_mul_pow2 by lia. rewrite <- Z.add_nocarry_lxor; [done|].
  apply Z.bits_inj'. intros i Hi. rewrite Z.land_spec, Z.shiftl_spec, Z.bits_0 by lia.
  destruct (Z.ltb_spec i n); [by rewrite (Z.testbit_neg_r a) by lia|].
  assert (Z.testbit b i = false) as ->; [|by rewrite andb_false_r].
  destruct (Z.eq_dec b 0) as [->|]; [apply Z.bits_0|]. apply Z.bits_above_log2; [lia|].
  pose proof (proj1 (Z.log2_lt_pow2 b n ltac:(lia)) (proj2 Hb)). lia.
Qed.

Lemma workload_word_packed seed r p : cell_ok seed r p → workload_word seed r p = seed * 2 ^ 40 + r * 2 ^ 20 + p.
Proof.
  intros [Hs Hr Hp]. unfold workload_word, u64.
  rewrite (Z.mod_small (Z.shiftl seed 40)), (Z.mod_small (Z.shiftl r 20)) by (rewrite Z.shiftl_mul_pow2 by lia; lia).
  rewrite Z.lxor_assoc, (lxor_shiftl_low r p 20), lxor_shiftl_low by lia. lia.
Qed.

(** Different cells are drawn from different mixed words, and every token is an
    ordinary vocabulary id. *)
Lemma workload_cells_distinct s r p s' r' p' :
  cell_ok s r p → cell_ok s' r' p' →
  SplitMix64 (workload_word s r p) = SplitMix64 (workload_word s' r' p') → s = s' ∧ r = r' ∧ p = p'.
Proof.
  intros Hc Hc'. rewrite !workload_word_packed by done. destruct Hc, Hc'. intros Heq.
  apply SplitMix64_inj in Heq; unfold word64; lia.
Qed.

(** Only 24 bits of a seed reach the stream. *)
Lemma seed_truncated seed r p : WorkloadTokenId seed r p = WorkloadTokenId (seed mod 2 ^ 24) r p.
Proof.
  unfold WorkloadTokenId, workload_word. do 3 f_equal. f_equal. f_equal. unfold u64. rewrite !Z.shiftl_mul_pow2 by lia.
  replace (2 ^ 64) with (2 ^ 24 * 2 ^ 40) by lia. by rewrite !Z.mul_mod_distr_r, Z.mod_mod by lia.
Qed.
