(* ===== verification/BenchCli.v ===== *)
(** * The benchmark driver's command line (bench_main.cpp)

    [strtoll] and [strtoull] in base 10, the argument parsers on top of them,
    and the flag loop.  [std::exit] is an error value: with the usage text
    (status 2) or after [--help] (status 0). *)

From S2P Require Import Prelude Doubles Types Json.
From Stdlib Require Import Ascii.
From stdpp Require Import pretty.
#[local] Open Scope Z_scope.

(** ** Integers in base 10 *)

(** [isspace] of the C locale. *)
Definition is_space (a : ascii) : bool :=
  let n := Z.of_N (N_of_ascii a) in (n =? 32) || ((9 <=? n) && (n <=? 13)).
Definition digit_of (a : ascii) : option Z :=
  let n := Z.of_N (N_of_ascii a) in if (48 <=? n) && (n <=? 57) then Some (n - 48) else None.

Fixpoint skip_spaces (s : string) : string :=
  match s with String a s' => if is_space a then skip_spaces s' else s | EmptyString => s end.

(** The digits at the front of [s], and what is left. *)
Fixpoint scan_digits (acc : Z) (s : string) : Z * string :=
  match s with
  | String a s' => match digit_of a with Some d => scan_digits (acc * 10 + d) s' | None => (acc, s) end
  | EmptyString => (acc, s)
  end.

Definition scan_sign (s : string) : bool * string :=
  match s with
  | String "-"%char s' => (true, s')
  | String "+"%char s' => (false, s')
  | _ => (false, s)
  end.

(** Sign, magnitude and rest of the number [s] starts with; [None] when there
    is none ([end == text]). *)
Definition scan_number (s : string) : option (bool * Z * string) :=
  let '(neg, s) := scan_sign (skip_spaces s) in
  match s with
  | String a _ => match digit_of a with Some _ => let '(n, rest) := scan_digits 0 s in Some (neg, n, rest) | None => None end
  | EmptyString => None
  end.

Definition int64_min : Z := - 2 ^ 63.

Record conversion (A : Type) : Type := mkConversion { cv_value : A; cv_range : bool; cv_rest : string }.
Arguments mkConversion {A}.
Arguments cv_value {A}.
Arguments cv_range {A}.
Arguments cv_rest {A}.

(** [cv_range]: [errno] is [ERANGE]. *)
Definition strtoll (s : string) : option (conversion Z) :=
  match scan_number s with
  | Some (neg, n, rest) =>
      let v := if neg then - n else n in
      Some (if v <? int64_min then mkConversion int64_min true rest
            else if int64_max <? v then mkConversion int64_max true rest else mkConversion v false rest)
  | None => None
  end.

(** A leading minus sign negates in the unsigned type. *)
Definition strtoull (s : string) : option (conversion Z) :=
  match scan_number s with
  | Some (neg, n, rest) =>
      Some (if u64_max <? n then mkConversion u64_max true rest else mkConversion (if neg then u64 (- n) else n) false rest)
  | None => None
  end.

(** ** The argument parsers *)

Inductive cli_exit : Type :=
  | Help
  | ExpectsInteger (flag text : string)
  | IntegerOutOfRange (flag : string) (lo hi : Z) (text : string)
  | ExpectsNonNegative (flag text : string)
  | ExpectsNumber (flag text : string)
  | ExpectsZeroOne (flag text : string)
  | ExpectsValue (flag : string)
  | KvGbNotPositive
  | UnknownFlag (flag : string)
  | ModelRequired.

Definition cli_status (e : cli_exit) : Z := match e with Help => 0 | _ => 2 end.

Record CliOptions : Type := mkCliOptions {
  cl_model_dir : string;
  cl_kv_gb : double;
  cl_max_batch : Z;
  cl_requests : Z;
  cl_prompt_len : Z;
  cl_gen_len : Z;
  cl_graphs : bool;
  cl_ignore_eos : bool;
  cl_seed : Z;
  cl_json_path : string;
  cl_profile_after_init : bool;
  cl_selftest : bool;
}.

Definition default_cli : CliOptions :=
  mkCliOptions "" (double_of_Z 1) 8 64 1024 256 true true 0 "" false false.

Definition is_finite (x : double) : bool :=
  match x with SpecFloat.S754_zero _ | SpecFloat.S754_finite _ _ _ => true | _ => false end.

Definition ParseInt (flag text : string) (lo hi : Z) : outcome cli_exit Z :=
  match strtoll text with
  | Some (mkConversion value false EmptyString) =>
      if (value <? lo) || (hi <? value) then Err (IntegerOutOfRange flag lo hi text) else Ok value
  | _ => Err (ExpectsInteger flag text)
  end.

Definition ParseUint64 (flag text : string) : outcome cli_exit Z :=
  match text with
  | String "-"%char _ => Err (ExpectsNonNegative flag text)
  | _ =>
      match strtoull text with
      | Some (mkConversion value false EmptyString) => Ok value
      | _ => Err (ExpectsNonNegative flag text)
      end
  end.

Definition ParseBool01 (flag text : string) : outcome cli_exit bool :=
  if String.eqb text "0" then Ok false else if String.eqb text "1" then Ok true else Err (ExpectsZeroOne flag text).

Definition set_model_dir v o := mkCliOptions v (cl_kv_gb o) (cl_max_batch o) (cl_requests o) (cl_prompt_len o) (cl_gen_len o) (cl_graphs o) (cl_ignore_eos o) (cl_seed o) (cl_json_path o) (cl_profile_after_init o) (cl_selftest o).
Definition set_kv_gb v o := mkCliOptions (cl_model_dir o) v (cl_max_batch o) (cl_requests o) (cl_prompt_len o) (cl_gen_len o) (cl_graphs o) (cl_ignore_eos o) (cl_seed o) (cl_json_path o) (cl_profile_after_init o) (cl_selftest o).
Definition set_max_batch v o := mkCliOptions (cl_model_dir o) (cl_kv_gb o) v (cl_requests o) (cl_prompt_len o) (cl_gen_len o) (cl_graphs o) (cl_ignore_eos o) (cl_seed o) (cl_json_path o) (cl_profile_after_init o) (cl_selftest o).
Definition set_requests v o := mkCliOptions (cl_model_dir o) (cl_kv_gb o) (cl_max_batch o) v (cl_prompt_len o) (cl_gen_len o) (cl_graphs o) (cl_ignore_eos o) (cl_seed o) (cl_json_path o) (cl_profile_after_init o) (cl_selftest o).
Definition set_prompt_len v o := mkCliOptions (cl_model_dir o) (cl_kv_gb o) (cl_max_batch o) (cl_requests o) v (cl_gen_len o) (cl_graphs o) (cl_ignore_eos o) (cl_seed o) (cl_json_path o) (cl_profile_after_init o) (cl_selftest o).
Definition set_gen_len v o := mkCliOptions (cl_model_dir o) (cl_kv_gb o) (cl_max_batch o) (cl_requests o) (cl_prompt_len o) v (cl_graphs o) (cl_ignore_eos o) (cl_seed o) (cl_json_path o) (cl_profile_after_init o) (cl_selftest o).
Definition set_graphs v o := mkCliOptions (cl_model_dir o) (cl_kv_gb o) (cl_max_batch o) (cl_requests o) (cl_prompt_len o) (cl_gen_len o) v (cl_ignore_eos o) (cl_seed o) (cl_json_path o) (cl_profile_after_init o) (cl_selftest o).
Definition set_ignore_eos v o := mkCliOptions (cl_model_dir o) (cl_kv_gb o) (cl_max_batch o) (cl_requests o) (cl_prompt_len o) (cl_gen_len o) (cl_graphs o) v (cl_seed o) (cl_json_path o) (cl_profile_after_init o) (cl_selftest o).
Definition set_seed v o := mkCliOptions (cl_model_dir o) (cl_kv_gb o) (cl_max_batch o) (cl_requests o) (cl_prompt_len o) (cl_gen_len o) (cl_graphs o) (cl_ignore_eos o) v (cl_json_path o) (cl_profile_after_init o) (cl_selftest o).
Definition set_json_path v o := mkCliOptions (cl_model_dir o) (cl_kv_gb o) (cl_max_batch o) (cl_requests o) (cl_prompt_len o) (cl_gen_len o) (cl_graphs o) (cl_ignore_eos o) (cl_seed o) v (cl_profile_after_init o) (cl_selftest o).
Definition set_profile v o := mkCliOptions (cl_model_dir o) (cl_kv_gb o) (cl_max_batch o) (cl_requests o) (cl_prompt_len o) (cl_gen_len o) (cl_graphs o) (cl_ignore_eos o) (cl_seed o) (cl_json_path o) v (cl_selftest o).
Definition set_selftest v o := mkCliOptions (cl_model_dir o) (cl_kv_gb o) (cl_max_batch o) (cl_requests o) (cl_prompt_len o) (cl_gen_len o) (cl_graphs o) (cl_ignore_eos o) (cl_seed o) (cl_json_path o) (cl_profile_after_init o) v.

(** ** Which texts are numbers *)

Fixpoint all_chars (P : ascii → bool) (s : string) : bool :=
  match s with EmptyString => true | String a s' => P a && all_chars P s' end.

Definition is_digit (a : ascii) : bool := bool_decide (is_Some (digit_of a)).

(** The value of a string of digits, by place. *)
Fixpoint digits_value (s : string) : Z :=
  match s with
  | EmptyString => 0
  | String a s' => default 0 (digit_of a) * 10 ^ Z.of_nat (String.length s') + digits_value s'
  end.

(** White space, one sign at most, and decimal digits up to the end. *)
Definition numeral (s : string) (neg : bool) (m : Z) : Prop :=
  ∃ ws sign ds, s = ws +:+ sign +:+ ds ∧ all_chars is_space ws = true ∧
    sign ∈ (if neg then ["-"] else [""; "+"])%string ∧ ds ≠ ""%string ∧ all_chars is_digit ds = true ∧ m = digits_value ds.

(** The integers a text stands for: of either sign, and as a seed.  A seed may
    not start with a minus sign; behind white space the C library takes one, and
    negates modulo 2^64. *)
Definition int_text (s : string) (n : Z) : Prop := ∃ neg m, numeral s neg m ∧ n = if neg then - m else m.
Definition seed_text (s : string) (n : Z) : Prop :=
  (∀ s', s ≠ String "-" s') ∧ ∃ neg m, numeral s neg m ∧ m < 2 ^ 64 ∧ n = if neg then u64 (- m) else m.

Lemma scan_digits_ends s : ∀ acc n,
  scan_digits acc s = (n, ""%string) ↔ all_chars is_digit s = true ∧ n = acc * 10 ^ Z.of_nat (String.length s) + digits_value s.
Proof.
  induction s as [|a s IH]; intros acc n; cbn [scan_digits all_chars String.length digits_value].
  { split; [intros [= ->]; split; [done|lia]|intros [_ ->]; f_equal; lia]. }
  unfold is_digit at 1. destruct (digit_of a) as [d|].
  - rewrite IH, bool_decide_true by done. cbn [andb default]. unfold Datatypes.id. rewrite Nat2Z.inj_succ, Z.pow_succ_r by lia.
    split; intros [H ->]; (split; [done|lia]).
  - rewrite bool_decide_false by (by intros [? ?]). cbn [andb]. split; [intros [= _ ?]|intros []]; done.
Qed.

Lemma skip_spaces_app ws s : all_chars is_space ws = true → skip_spaces (ws +:+ s) = skip_spaces s.
Proof. 
  induction ws as [|a ws IH]; [done|]. cbn [all_chars]. intros [Ha H]%andb_true_iff.
  change (skip_spaces (String a ws +:+ s)) with (if is_space a then skip_spaces (ws +:+ s) else String a ws +:+ s).
  rewrite Ha. by apply IH.
Qed.

Lemma skip_spaces_split s : ∃ ws, s = ws +:+ skip_spaces s ∧ all_chars is_space ws = true.
Proof.
  induction s as [|a s (ws & Hs & Hw)]; [by exists ""%string|]. cbn [skip_spaces]. destruct (is_space a) eqn:Ha; [|by exists ""%string].
  exists (String a ws). split; [exact (f_equal (String a) Hs)|]. cbn [all_chars]. by rewrite Ha.
Qed.

Lemma digit_range a d : digit_of a = Some d → 0 <= d <= 9 ∧ Z.of_N (N_of_ascii a) = 48 + d.
Proof.
  unfold digit_of. destruct ((48 <=? _) && (_ <=? 57)) eqn:H; [|done]. intros [= <-]. zbool. lia.
Qed.

(** A digit is neither a space nor a sign. *)
Lemma digit_plain a s d : digit_of a = Some d → skip_spaces (String a s) = String a s ∧ scan_sign (String a s) = (false, String a s).
Proof.
  intros [Hd Ha]%digit_range. split.
  - cbn. unfold is_space. rewrite Ha. destruct (Z.eqb_spec (48 + d) 32), (Z.leb_spec 9 (48 + d)), (Z.leb_spec (48 + d) 13); try lia; done.
  - by destruct a as [[] [] [] [] [] [] [] []]; cbn in Ha |- *; try done; exfalso; lia.
Qed.

Lemma scan_sign_spec s neg s' : scan_sign s = (neg, s') → ∃ sign, s = sign +:+ s' ∧ sign ∈ (if neg then ["-"] else [""; "+"])%string.
Proof.
  destruct s as [|a s]; [intros [= <- <-]; exists ""%string; set_solver|].
  destruct (decide (a = "-"%char)) as [->|H1]; [intros [= <- <-]; exists "-"%string; set_solver|].
  destruct (decide (a = "+"%char)) as [->|H2]; [intros [= <- <-]; exists "+"%string; set_solver|].
  intros Hs. assert ((neg, s') = (false, String a s)) as [= -> ->]; [|exists ""%string; set_solver].
  rewrite <- Hs. by destruct a as [[] [] [] [] [] [] [] []].
Qed.

Lemma numeral_scan s neg m : numeral s neg m ↔ scan_number s = Some (neg, m, ""%string).
Proof.
  split.
  - intros (ws & sign & ds & -> & Hw & Hs & Hne & Hd & ->). unfold scan_number. rewrite skip_spaces_app by done.
    destruct ds as [|a ds]; [done|]. cbn in Hd. pose proof Hd as [Ha%bool_decide_eq_true Hd']%andb_true_iff. destruct Ha as [d Ha].
    destruct (digit_plain a ds d Ha) as [H1 H2].
    assert (scan_sign (skip_spaces (sign +:+ String a ds)) = (neg, String a ds)) as ->.
    { destruct neg; rewrite !elem_of_cons, elem_of_nil in Hs; [destruct Hs as [->|[]]; done|].
      destruct Hs as [->|[->|[]]]; [|done]. change ("" +:+ String a ds) with (String a ds). by rewrite H1. }
    rewrite Ha. rewrite (proj2 (scan_digits_ends (String a ds) 0 (digits_value (String a ds)))); [done|].
    split; [exact Hd|lia].
  - unfold scan_number. intros Hs. destruct (skip_spaces_split s) as (ws & Hws & Hw).
    destruct (scan_sign (skip_spaces s)) as [g s1] eqn:Hg. destruct (scan_sign_spec _ _ _ Hg) as (sign & H1 & H2).
    destruct s1 as [|a s1]; [done|]. destruct (digit_of a) as [d|] eqn:Ha; [|done].
    destruct (scan_digits 0 (String a s1)) as [n rest] eqn:Hsc. injection Hs as <- <- ->.
    apply scan_digits_ends in Hsc as [Hd ->]. exists ws, sign, (String a s1). rewrite <- H1. by split_and!.
Qed.

(** The parsers accept exactly these. *)
Lemma ParseInt_spec flag s lo hi n : int64_min <= lo → hi <= int64_max →
  ParseInt flag s lo hi = Ok n ↔ int_text s n ∧ lo <= n <= hi.
Proof.
  intros Hlo Hhi. unfold ParseInt, strtoll, int_text. split.
  - destruct (scan_number s) as [[[neg m] rest]|] eqn:Hs; [|done]. set (v := if neg then - m else m).
    destruct (Z.ltb_spec v int64_min); [done|]. destruct (Z.ltb_spec int64_max v); [done|].
    destruct rest; [|done]. destruct (Z.ltb_spec v lo); [done|]. destruct (Z.ltb_spec hi v); [done|]. intros [= <-].
    split; [|lia]. exists neg, m. by rewrite numeral_scan.
  - intros [(neg & m & Hs%numeral_scan & Hn) Hr]. rewrite Hs. cbv zeta. rewrite <- Hn.
    destruct (Z.ltb_spec n int64_min); [lia|]. destruct (Z.ltb_spec int64_max n); [lia|].
    destruct (Z.ltb_spec n lo); [lia|]. by destruct (Z.ltb_spec hi n); [lia|].
Qed.

Lemma ParseUint64_dash flag s : ParseUint64 flag (String "-" s) = Err (ExpectsNonNegative flag (String "-" s)).
Proof. done. Qed.

Lemma ParseUint64_other flag s : (∀ s', s ≠ String "-"%char s') →
  ParseUint64 flag s = match strtoull s with Some (mkConversion value false EmptyString) => Ok value | _ => Err (ExpectsNonNegative flag s) end.
Proof.
  intros H. destruct s as [|a s]; [done|]. destruct (decide (a = "-"%char)) as [->|Ha]; [by destruct (H s)|].
  by destruct a as [[] [] [] [] [] [] [] []].
Qed.

Lemma ParseUint64_spec flag s n : ParseUint64 flag s = Ok n ↔ seed_text s n.
Proof.
  assert ((∃ s', s = String "-" s') ∨ ∀ s', s ≠ String "-"%char s') as [[s' ->]|Hd].
  { destruct s as [|a s]; [by right|]. destruct (decide (a = "-"%char)) as [->|Ha]; [left; by exists s|]. right. by intros s' [= ? _]. }
  - split; [done|]. intros [H _]. by destruct (H s').
  - rewrite ParseUint64_other by done. unfold strtoull, seed_text, u64_max. split.
    + destruct (scan_number s) as [[[neg m] rest]|] eqn:Hs; [|done]. destruct (Z.ltb_spec (2 ^ 64 - 1) m); [done|].
      destruct rest; [|done]. intros [= <-]. split; [done|]. exists neg, m. rewrite numeral_scan. split_and!; [done|lia|done].
    + intros [_ (neg & m & Hs%numeral_scan & Hm & ->)]. rewrite Hs. by destruct (Z.ltb_spec (2 ^ 64 - 1) m); [lia|].
Qed.

(** ** The flag loop *)

(** An argument's value goes into the options. *)
Definition store_value {A} (x : outcome cli_exit A) (f : A → CliOptions) : outcome cli_exit CliOptions :=
  match x with Ok a => Ok (f a) | Err e => Err e end.

Section cli.
(** [std::strtod], correctly rounded in the C locale. *)
Context (strtod : string → option (conversion double)).

Definition ParseDouble (flag text : string) : outcome cli_exit double :=
  match strtod text with
  | Some (mkConversion value false EmptyString) => if is_finite value then Ok value else Err (ExpectsNumber flag text)
  | _ => Err (ExpectsNumber flag text)
  end.

Definition parse_kv_gb (text : string) : outcome cli_exit double :=
  match ParseDouble "--kv-gb" text with
  | Ok v => if double_ge (double_of_Z 0) v then Err KvGbNotPositive else Ok v
  | Err e => Err e
  end.

(** The branches that call [value()]. *)
Definition flag_value (flag : string) : option (string → CliOptions → outcome cli_exit CliOptions) :=
  if String.eqb flag "--model" then Some (λ v opt, Ok (set_model_dir v opt))
  else if String.eqb flag "--kv-gb" then Some (λ v opt, store_value (parse_kv_gb v) (λ x, set_kv_gb x opt))
  else if String.eqb flag "--max-batch" then Some (λ v opt, store_value (ParseInt "--max-batch" v 1 65536) (λ x, set_max_batch x opt))
  else if String.eqb flag "--requests" then Some (λ v opt, store_value (ParseInt "--requests" v 1 1000000) (λ x, set_requests x opt))
  else if String.eqb flag "--prompt-len" then Some (λ v opt, store_value (ParseInt "--prompt-len" v 1 100000000) (λ x, set_prompt_len x opt))
  else if String.eqb flag "--gen-len" then Some (λ v opt, store_value (ParseInt "--gen-len" v 1 100000000) (λ x, set_gen_len x opt))
  else if String.eqb flag "--graphs" then Some (λ v opt, store_value (ParseBool01 "--graphs" v) (λ x, set_graphs x opt))
  else if String.eqb flag "--ignore-eos" then Some (λ v opt, store_value (ParseBool01 "--ignore-eos" v) (λ x, set_ignore_eos x opt))
  else if String.eqb flag "--seed" then Some (λ v opt, store_value (ParseUint64 "--seed" v) (λ x, set_seed x opt))
  else if String.eqb flag "--json" then Some (λ v opt, Ok (set_json_path v opt))
  else if String.eqb flag "--profile-after-init" then Some (λ v opt, store_value (ParseBool01 "--profile-after-init" v) (λ x, set_profile x opt))
  else None.

(** The loop over [argv], from index 1. *)
Fixpoint parse_flags (opt : CliOptions) (args : list string) : outcome cli_exit CliOptions :=
  match args with
  | [] => Ok opt
  | flag :: rest =>
      match flag_value flag with
      | Some store =>
          match rest with
          | [] => Err (ExpectsValue flag)
          | text :: rest' => match store text opt with Ok opt' => parse_flags opt' rest' | Err e => Err e end
          end
      | None =>
          if String.eqb flag "--selftest-workload" then parse_flags (set_selftest true opt) rest
          else if String.eqb flag "-h" || String.eqb flag "--help" then Err Help
          else Err (UnknownFlag flag)
      end
  end.

Definition ParseCli (args : list string) : outcome cli_exit CliOptions :=
  match parse_flags default_cli args with
  | Ok opt => if negb (cl_selftest opt) && String.eqb (cl_model_dir opt) "" then Err ModelRequired else Ok opt
  | Err e => Err e
  end.

(** ** What is accepted *)

(** The ranges of the usage text. *)
Record cli_ranges (o : CliOptions) : Prop := mkCliRanges {
  cr_kv : is_finite (cl_kv_gb o) = true ∧ double_lt (double_of_Z 0) (cl_kv_gb o) = true;
  cr_batch : 1 <= cl_max_batch o <= 65536;
  cr_requests : 1 <= cl_requests o <= 1000000;
  cr_prompt : 1 <= cl_prompt_len o <= 100000000;
  cr_gen : 1 <= cl_gen_len o <= 100000000;
  cr_seed : 0 <= cl_seed o < 2 ^ 64;
}.

Lemma scan_digits_nonneg s : ∀ acc, 0 <= acc → 0 <= fst (scan_digits acc s).
Proof using.
  induction s as [|a s IH]; intros acc Ha; cbn [scan_digits]; [done|]. destruct (digit_of a) as [d|] eqn:Hd; [|done].
  apply IH. unfold digit_of in Hd. destruct ((48 <=? Z.of_N (N_of_ascii a)) && _) eqn:Hb; [|done]. injection Hd as <-. zbool. lia.
Qed.

Lemma scan_number_nonneg s neg n rest : scan_number s = Some (neg, n, rest) → 0 <= n.
Proof using.
  unfold scan_number. destruct (scan_sign _) as [g [|a s']]; [done|]. destruct (digit_of a); [|done].
  pose proof (scan_digits_nonneg (String a s') 0 ltac:(lia)) as H. destruct (scan_digits 0 _). by intros [= <- <- <-].
Qed.

(** ** What a command line says *)

Definition number_text (s : string) (x : double) : Prop := strtod s = Some (mkConversion x false "") ∧ is_finite x = true.
Definition bool01 (b : bool) : string := if b then "1" else "0".

(** A flag with its value asks for a change of the options. *)
Inductive asks : string → string → (CliOptions → CliOptions) → Prop :=
  | asks_model v : asks "--model" v (set_model_dir v)
  | asks_kv_gb v x : number_text v x → double_lt (double_of_Z 0) x = true → asks "--kv-gb" v (set_kv_gb x)
  | asks_max_batch v n : int_text v n → 1 <= n <= 65536 → asks "--max-batch" v (set_max_batch n)
  | asks_requests v n : int_text v n → 1 <= n <= 1000000 → asks "--requests" v (set_requests n)
  | asks_prompt_len v n : int_text v n → 1 <= n <= 100000000 → asks "--prompt-len" v (set_prompt_len n)
  | asks_gen_len v n : int_text v n → 1 <= n <= 100000000 → asks "--gen-len" v (set_gen_len n)
  | asks_graphs b : asks "--graphs" (bool01 b) (set_graphs b)
  | asks_ignore_eos b : asks "--ignore-eos" (bool01 b) (set_ignore_eos b)
  | asks_seed v n : seed_text v n → asks "--seed" v (set_seed n)
  | asks_json v : asks "--json" v (set_json_path v)
  | asks_profile b : asks "--profile-after-init" (bool01 b) (set_profile b).

(** The arguments, in order, turn the options [o] into [o']. *)
Inductive says : list string → CliOptions → CliOptions → Prop :=
  | says_nothing o : says [] o o
  | says_value flag v f rest o o' : asks flag v f → says rest (f o) o' → says (flag :: v :: rest) o o'
  | says_selftest rest o o' : says rest (set_selftest true o) o' → says ("--selftest-workload" :: rest) o o'.

Lemma ParseBool01_spec flag v b : ParseBool01 flag v = Ok b ↔ v = bool01 b.
Proof using.
  unfold ParseBool01. split; [|intros ->; by destruct b].
  destruct (String.eqb_spec v "0"); [by intros [= <-]|]. destruct (String.eqb_spec v "1"); [by intros [= <-]|done].
Qed.

Lemma finite_pos x : is_finite x = true → double_ge (double_of_Z 0) x = negb (double_lt (double_of_Z 0) x).
Proof using. by destruct x as [[]|[]| |[]]. Qed.

Lemma parse_kv_gb_spec v x : parse_kv_gb v = Ok x ↔ number_text v x ∧ double_lt (double_of_Z 0) x = true.
Proof using.
  unfold parse_kv_gb, ParseDouble, number_text. split.
  - destruct (strtod v) as [[y [] [|]]|]; try done. destruct (is_finite y) eqn:Hf; [|done]. rewrite finite_pos by done.
    destruct (double_lt (double_of_Z 0) y) eqn:Hl; [|done]. by intros [= <-].
  - intros [[-> Hf] Hl]. by rewrite Hf, finite_pos, Hl.
Qed.

Lemma stored_Ok {A} (x : outcome cli_exit A) f opt : store_value x f = Ok opt ↔ ∃ a, x = Ok a ∧ opt = f a.
Proof using. destruct x as [a|]; [|split; [done|by intros (? & ? & _)]]. split; [intros [= <-]; by exists a|by intros (? & [= <-] & ->)]. Qed.

Lemma asks_store flag v f o : asks flag v f → ∃ store, flag_value flag = Some store ∧ store v o = Ok (f o).
Proof using.
  destruct 1 as [v|v x Hx Hl|v n Hn Hr|v n Hn Hr|v n Hn Hr|v n Hn Hr|b|b|v n Hn|v|b]; (eexists; split; [reflexivity|]); try reflexivity;
    apply stored_Ok; eexists; (split; [|reflexivity]);
    first [by apply parse_kv_gb_spec | by apply ParseBool01_spec | by apply ParseUint64_spec
          | apply ParseInt_spec; [unfold int64_min; lia|unfold int64_max; lia|done]].
Qed.

Lemma store_asks flag store v o o' : flag_value flag = Some store → store v o = Ok o' → ∃ f, asks flag v f ∧ o' = f o.
Proof using.
  unfold flag_value. intros Hf Hs.
  repeat match type of Hf with
    | (if String.eqb flag ?s then _ else _) = _ => destruct (String.eqb_spec flag s) as [->|_]; [injection Hf as <-|]
    end; try done; first [injection Hs as <-; eexists; split; [constructor|reflexivity]|apply stored_Ok in Hs as (a & Ha & ->)];
    (eexists; split; [|reflexivity]);
    first [apply parse_kv_gb_spec in Ha as [? ?]; by constructor | apply ParseBool01_spec in Ha as ->; constructor
          | apply ParseUint64_spec in Ha; by constructor
          | apply ParseInt_spec in Ha as [? ?]; [by constructor|unfold int64_min; lia|unfold int64_max; lia]].
Qed.

Lemma parse_flags_says n : ∀ args opt o, (length args <= n)%nat → parse_flags opt args = Ok o ↔ says args opt o.
Proof using.
  induction n as [|n IH]; intros [|flag rest] opt o Hn; cbn [length] in Hn; try lia.
  1,2: split; [intros [= <-]; constructor|by inversion 1].
  cbn [parse_flags]. destruct (flag_value flag) as [store|] eqn:Hf.
  - destruct rest as [|v rest].
    { split; [done|]. inversion 1; subst. by vm_compute in Hf. }
    cbn [length] in Hn. split.
    + destruct (store v opt) as [opt'|] eqn:Hs; [|done]. intros Hp.
      destruct (store_asks _ _ _ _ _ Hf Hs) as (f & Ha & ->). eapply says_value; [exact Ha|]. apply IH; [lia|exact Hp].
    + inversion 1 as [|? ? f ? ? ? Ha Hr|]; subst; [|by vm_compute in Hf].
      destruct (asks_store _ _ _ opt Ha) as (store' & Hf' & Hs). assert (store' = store) as -> by congruence. rewrite Hs.
      apply IH; [lia|exact Hr].
  - destruct (String.eqb_spec flag "--selftest-workload") as [->|Hne].
    + rewrite IH by lia. split; [by constructor|]. inversion 1 as [|? ? f ? ? ? Ha Hr|]; subst; [|done].
      by destruct (asks_store _ _ _ opt Ha) as (store' & Hf' & _).
    + split; [by destruct (_ || _)|]. inversion 1 as [|? ? f ? ? ? Ha Hr|]; subst; [|done].
      destruct (asks_store _ _ _ opt Ha) as (store' & Hf' & _). congruence.
Qed.

Lemma ParseCli_says args o :
  ParseCli args = Ok o ↔ says args default_cli o ∧ (cl_selftest o = false → cl_model_dir o ≠ ""%string).
Proof using.
  unfold ParseCli. rewrite <- (parse_flags_says (length args) args default_cli o (le_n _)).
  destruct (parse_flags default_cli args) as [opt|]; [|split; [done|by intros [? _]]].
  split.
  - destruct (negb (cl_selftest opt) && _) eqn:Hmr; [done|]. intros [= <-]. split; [done|].
    intros Hst. rewrite Hst in Hmr. cbn in Hmr. by apply String.eqb_neq.
  - intros [[= ->] Hm]. destruct (cl_selftest o); [done|]. cbn. by rewrite (proj2 (String.eqb_neq _ _) (Hm eq_refl)).
Qed.

Lemma seed_range v n : seed_text v n → 0 <= n < 2 ^ 64.
Proof using.
  intros [_ (neg & m & Hs%numeral_scan & Hm & ->)]. apply scan_number_nonneg in Hs.
  destruct neg; [unfold u64; apply Z.mod_pos_bound; lia|lia].
Qed.

Lemma says_ranges args o o' : says args o o' → cli_ranges o → cli_ranges o'.
Proof using.
  induction 1 as [|flag v f rest o o' Ha _ IH|rest o o' _ IH]; intros Ho; [done|apply IH|apply IH]; destruct Ho.
  - destruct Ha as [v|v x [_ ?] ?|v n _ ?|v n _ ?|v n _ ?|v n _ ?|b|b|v n ?%seed_range|v|b]; by split.
  - by split.
Qed.

Lemma ParseCli_ranges args o : ParseCli args = Ok o → cli_ranges o ∧ (cl_selftest o = false → cl_model_dir o ≠ ""%string).
Proof using. intros [Hs Hm]%ParseCli_says. split; [|done]. eapply says_ranges; [exact Hs|]. by split; vm_compute. Qed.

(** ** Printed options parse back *)

Lemma digit_of_pretty x : (x < 10)%N → digit_of (pretty_N_char x) = Some (Z.of_N x).
Proof using.
  intros Hx. assert (∀ k, (k < 10)%nat → digit_of (pretty_N_char (N.of_nat k)) = Some (Z.of_N (N.of_nat k))) as H.
  { intros k Hk. do 10 (destruct k as [|k]; [done|]). lia. }
  rewrite <- (N2Nat.id x). apply H. lia.
Qed.

Lemma scan_digits_pretty s : ∀ x, scan_digits 0 (pretty_N_go x s) = scan_digits (Z.of_N x) s.
Proof using.
  intros x. revert s. induction (N.lt_wf_0 x) as [x _ IH]. intros s. destruct (decide (x = 0%N)) as [->|Hx]; [done|].
  rewrite pretty_N_go_step by lia. rewrite IH by (apply N.div_lt; lia). cbn [scan_digits].
  rewrite digit_of_pretty by (apply N.mod_lt; lia). f_equal. pose proof (N.div_mod x 10 ltac:(lia)).
  rewrite N2Z.inj_div, N2Z.inj_mod. pose proof (Z.div_mod (Z.of_N x) 10 ltac:(lia)). lia.
Qed.

Lemma pretty_starts x s : (0 < x)%N → ∃ d k s', (k < 10)%N ∧ pretty_N_go x s = String d s' ∧ d = pretty_N_char k.
Proof using.
  revert s. induction (N.lt_wf_0 x) as [x _ IH]. intros s Hx. rewrite pretty_N_go_step by lia.
  destruct (decide (x / 10 = 0)%N) as [->|Hd].
  - rewrite pretty_N_go_0. exists (pretty_N_char (x mod 10)), (x mod 10)%N, s. split_and!; [apply N.mod_lt; lia|done|done].
  - apply IH; [apply N.div_lt; lia|by apply N.neq_0_lt_0].
Qed.

(** A printed number is all digits: no space, no sign. *)
Lemma scan_number_pretty n : 0 <= n → scan_number (pretty n) = Some (false, n, "").
Proof using.
  intros Hn. assert (∃ d k s', (k < 10)%N ∧ pretty n = String d s' ∧ d = pretty_N_char k ∧ scan_digits 0 (String d s') = (n, "")) as
    (d & k & s' & Hk & Hp & Hd & Hs).
  { destruct n as [|p|p]; [|..|lia].
    - by exists "0"%char, 0%N, ""%string.
    - destruct (pretty_starts (Npos p) "" ltac:(lia)) as (d & k & s' & Hk & Hp & Hd). exists d, k, s'.
      assert (pretty (Z.pos p) = pretty_N_go (Npos p) "") as Hpr by done. rewrite Hpr, Hp. split_and!; try done.
      rewrite <- Hp. by rewrite scan_digits_pretty. }
  assert (is_space d = false ∧ scan_sign (String d s') = (false, String d s') ∧ is_Some (digit_of d)) as (H1 & H2 & H3).
  { rewrite Hd. assert (∀ j, (j < 10)%nat → is_space (pretty_N_char (N.of_nat j)) = false ∧
      scan_sign (String (pretty_N_char (N.of_nat j)) s') = (false, String (pretty_N_char (N.of_nat j)) s') ∧
      is_Some (digit_of (pretty_N_char (N.of_nat j)))) as H.
    { intros j Hj. do 10 (destruct j as [|j]; [by split_and!|]). lia. }
    rewrite <- (N2Nat.id k). apply H. lia. }
  unfold scan_number. rewrite Hp. cbn [skip_spaces]. rewrite H1, H2. destruct H3 as [v ->]. by rewrite Hs.
Qed.

Lemma ParseInt_pretty flag n lo hi : 0 <= n → lo <= n <= hi → hi <= int64_max → ParseInt flag (pretty n) lo hi = Ok n.
Proof using.
  intros Hn Hr Hh. unfold ParseInt, strtoll. rewrite scan_number_pretty by done. unfold int64_min in *.
  destruct (Z.ltb_spec n (- 2 ^ 63)); [lia|]. destruct (Z.ltb_spec int64_max n); [lia|].
  destruct (Z.ltb_spec n lo); [lia|]. by destruct (Z.ltb_spec hi n); [lia|].
Qed.

Lemma scan_number_dash s' neg n rest : scan_number (String "-"%char s') = Some (neg, n, rest) → neg = true.
Proof using.
  unfold scan_number. change (scan_sign (skip_spaces (String "-"%char s'))) with (true, s'). cbn beta iota.
  destruct s' as [|a s']; [done|]. destruct (digit_of a); [|done]. destruct (scan_digits 0 _). by intros [= <- _ _].
Qed.

Lemma ParseUint64_pretty flag n : 0 <= n < 2 ^ 64 → ParseUint64 flag (pretty n) = Ok n.
Proof using.
  intros Hn. pose proof (scan_number_pretty n ltac:(lia)) as Hs. unfold ParseUint64, strtoull.
  destruct (pretty n) as [|[[] [] [] [] [] [] [] []] s'] eqn:Hp; try (rewrite Hs; unfold u64_max; destruct (Z.ltb_spec (2 ^ 64 - 1) n); [lia|done]).
  by apply scan_number_dash in Hs.
Qed.

Lemma ParseBool01_printed flag b : ParseBool01 flag (bool01 b) = Ok b.
Proof using. by destruct b. Qed.

(** The command line that asks for [o]; [kv] is a text of the pool size. *)
Definition print_cli (kv : string) (o : CliOptions) : list string :=
  ["--model"; cl_model_dir o; "--kv-gb"; kv; "--max-batch"; pretty (cl_max_batch o);
   "--requests"; pretty (cl_requests o); "--prompt-len"; pretty (cl_prompt_len o); "--gen-len"; pretty (cl_gen_len o);
   "--graphs"; bool01 (cl_graphs o); "--ignore-eos"; bool01 (cl_ignore_eos o); "--seed"; pretty (cl_seed o);
   "--json"; cl_json_path o; "--profile-after-init"; bool01 (cl_profile_after_init o)] ++
  (if cl_selftest o then ["--selftest-workload"] else []).

(** Field updates of explicit records. *)
Ltac cl_eval := cbv beta iota delta [set_model_dir set_kv_gb set_max_batch set_requests set_prompt_len set_gen_len set_graphs
  set_ignore_eos set_seed set_json_path set_profile set_selftest cl_model_dir cl_kv_gb cl_max_batch cl_requests cl_prompt_len
  cl_gen_len cl_graphs cl_ignore_eos cl_seed cl_json_path cl_profile_after_init cl_selftest] in *.

Lemma parse_flag flag text rest opt opt' :
  match flag_value flag with Some store => store text opt | None => Err Help end = Ok opt' →
  parse_flags opt (flag :: text :: rest) = parse_flags opt' rest.
Proof using. cbn [parse_flags]. destruct (flag_value flag); [|done]. by intros ->. Qed.

Lemma print_parse kv o :
  cli_ranges o → strtod kv = Some (mkConversion (cl_kv_gb o) false "") →
  (cl_selftest o = false → cl_model_dir o ≠ "") → ParseCli (print_cli kv o) = Ok o.
Proof using.
  intros [[Hf Hk] Hb Hr Hp Hg Hs] Hkv Hm. unfold ParseCli, print_cli. cbn [app].
  assert (parse_kv_gb kv = Ok (cl_kv_gb o)) as Hkvp.
  { unfold parse_kv_gb, ParseDouble. rewrite Hkv, Hf. destruct (double_ge (double_of_Z 0) (cl_kv_gb o)) eqn:Hge; [|done].
    unfold double_ge, double_lt in *. by destruct (cl_kv_gb o) as [[]|[]| |[]]. }
  assert (∀ A (x : outcome cli_exit A) a f opt, x = Ok a → f a = opt → store_value x f = Ok opt) as Hst by (by intros * -> <-).
  unfold default_cli. destruct o as [dir kvg mb rq pl gl gr ie sd js pr st]. cl_eval.
  do 11 (erewrite parse_flag; [|cbn [flag_value String.eqb Ascii.eqb Bool.eqb];
    first [cl_eval; reflexivity|eapply Hst; [|cl_eval; reflexivity];
      first [exact Hkvp|apply ParseBool01_printed|apply ParseUint64_pretty; lia|apply ParseInt_pretty; unfold int64_max; lia]]]).
  destruct st; [done|]. cbn. destruct (String.eqb_spec dir ""); [|done]. by destruct (Hm eq_refl).
Qed.

End cli.

(** The guard against negative seeds looks at the first character only, and
    [strtoull] skips spaces and negates: [--seed " -1"] is taken as 2^64-1. *)
Lemma negative_seed_accepted : ParseUint64 "--seed" " -1" = Ok (2 ^ 64 - 1).
Proof. by vm_compute. Qed.

(** C25. The command line means what it says.  Options in the documented ranges,
    printed as flags and values, parse back to themselves, whatever the texts of
    the paths.  A command line is accepted exactly when it is a sequence of known
    flags, each with its value, and names a model directory unless only the self
    test is asked for; the last mention of an option wins.  A value is taken only
    as a whole text: an optional sign and decimal digits (behind white space, as
    the C library reads numbers) in the documented range, 0 or 1, or a finite
    positive number.  The seed is an unsigned 64-bit value; its text may not
    start with a minus sign, but behind white space the C library accepts one and
    negates modulo 2^64 ([negative_seed_accepted]). *)
Theorem cli_round_trip strtod kv o :
  cli_ranges o → strtod kv = Some (mkConversion (cl_kv_gb o) false "") →
  (cl_selftest o = false → cl_model_dir o ≠ "") →
  ParseCli strtod (print_cli kv o) = Ok o ∧
  ∀ args o', (ParseCli strtod args = Ok o' ↔ says strtod args default_cli o' ∧ (cl_selftest o' = false → cl_model_dir o' ≠ "")) ∧
    (ParseCli strtod args = Ok o' → cli_ranges o' ∧ (cl_selftest o' = false → cl_model_dir o' ≠ "")).
Proof.
  intros Ho Hkv Hm. split; [by apply print_parse|]. intros args o'. split; [apply ParseCli_says|apply ParseCli_ranges].
Qed.

Lemma cli_round_trip_witness :
  let strtod := λ s, if String.eqb s "1.5" then Some (mkConversion (SpecFloat.S754_finite false 6755399441055744 (-52)) false "") else None in
  let o := mkCliOptions "models/qwen" (SpecFloat.S754_finite false 6755399441055744 (-52)) 8 64 1024 256 true true 0 "" false false in
  ParseCli strtod ["--model"; "models/qwen"; "--kv-gb"; "1.5"; "--max-batch"; "8"; "--requests"; "64"; "--prompt-len"; "1024";
    "--gen-len"; "256"; "--graphs"; "1"; "--ignore-eos"; "1"; "--seed"; "0"; "--json"; ""; "--profile-after-init"; "0"] = Ok o ∧
  (∀ o', ¬ says strtod ["--selftest-workload"; "--requests"; "64x"] default_cli o') ∧
  (∀ o', ¬ says strtod ["--selftest-workload"; "--seed"; "-1"] default_cli o').
Proof.
  intros strtod o. destruct (cli_round_trip strtod "1.5" o ltac:(by split; vm_compute) eq_refl ltac:(done)) as [Hp Hs].
  split; [exact Hp|].
  assert (∀ args o', says strtod args default_cli o' → cl_selftest o' = true → ∃ o'', ParseCli strtod args = Ok o'') as Hno.
  { intros args o' Hsays Hst. exists o'. apply Hs. split; [exact Hsays|]. by rewrite Hst. }
  split; intros o' Hsays.
  - assert (cl_selftest o' = true) as Hst.
    { inversion Hsays as [|flag v f rest a b Ha|rest a b Hrest]; subst; [inversion Ha|].
      inversion Hrest as [|flag v f rest a b Ha Hnil|]; subst. inversion Ha; subst; by inversion Hnil. }
    by destruct (Hno _ _ Hsays Hst) as [o'' H].
  - assert (cl_selftest o' = true) as Hst.
    { inversion Hsays as [|flag v f rest a b Ha|rest a b Hrest]; subst; [inversion Ha|].
      inversion Hrest as [|flag v f rest a b Ha Hnil|]; subst. inversion Ha; subst; by inversion Hnil. }
    by destruct (Hno _ _ Hsays Hst) as [o'' H].
Defined.
