(* ===== verification/BenchStats.v ===== *)
(** * The benchmark driver's metrics (bench_main.cpp)

    What is recorded of each request and the figures computed from the record.
    Times are doubles; the percentile rule indexes a sorted vector by a rounded
    product, and this file shows that the index never leaves the vector. *)

From S2P Require Import Prelude Doubles Types Json.
From Stdlib Require Import SpecFloat.

Definition double_add (x y : double) : double := SFadd 53 1024 x y.
Definition double_sub (x y : double) : double := SFsub 53 1024 x y.
Definition double_div (x y : double) : double := SFdiv 53 1024 x y.

(** [std::min], [std::max] *)
Definition double_min (a b : double) : double := if double_lt b a then b else a.
Definition double_max (a b : double) : double := if double_lt a b then b else a.

(** [static_cast<std::size_t>] of a double: towards zero, undefined outside. *)
Definition size_of_double (x : double) : option Z :=
  match x with
  | S754_zero _ => Some 0
  | S754_finite false m e =>
      let v := if 0 <=? e then Z.pos m * 2 ^ e else Z.pos m / 2 ^ (- e) in
      if v <=? u64_max then Some v else None
  | S754_finite true m e => if (e <? 0) && (Z.pos m / 2 ^ (- e) =? 0) then Some 0 else None
  | _ => None
  end.

Definition d50 : double := double_of_Z 50.
Definition d99 : double := double_of_Z 99.
Definition d100 : double := double_of_Z 100.
Definition d1e3 : double := double_of_Z 1000.

(** ** Percentiles *)

(** [std::sort] with [operator<]. *)
Fixpoint insert_double (x : double) (l : list double) : list double :=
  match l with
  | [] => [x]
  | y :: l' => if double_lt y x then y :: insert_double x l' else x :: l
  end.
Definition sort_doubles (l : list double) : list double := foldr insert_double [] l.

(** [None]: an access outside the vector, or a cast outside the type. *)
Definition Percentile (values : list double) (p : double) : option double :=
  let values := sort_doubles values in
  match values with
  | [v] => Some v
  | _ =>
      let rank := double_mul (double_div p d100) (double_of_Z (u64 (zlen values - 1))) in
      low ← size_of_double rank;
      let high := Z.min (u64 (low + 1)) (u64 (zlen values - 1)) in
      let fraction := double_sub rank (double_of_Z low) in
      v_low ← values !! Z.to_nat low;
      v_high ← values !! Z.to_nat high;
      Some (double_add v_low (double_mul fraction (double_sub v_high v_low)))
  end.

(** ** Traces and their summary *)

Record RequestTrace : Type := mkTrace {
  engine_id : RequestId;
  workload_index : Z;
  submit_s : double;
  token_times_s : list double;
  token_ids : list TokenId;
  tr_finished : bool;
  tr_finish_reason : string;
}.

Definition new_trace : RequestTrace := mkTrace 0 (-1) (double_of_Z 0) [] [] false "".

Record Summary : Type := mkSummary {
  wall_window_s : double;
  total_new_tokens : Z;
  requests_with_tokens : Z;
  output_tok_s : double;
  ttft_p50_ms : double;
  ttft_p99_ms : double;
  (** [has_itl]: the p50 and the p99 *)
  itl_ms : option (double * double);
  (** [has_decode_rate]: the p50, the minimum and the maximum *)
  decode_rate_tok_s : option (double * double * double);
  step_p50_ms : double;
  step_p99_ms : double;
  step_mean_ms : double;
  step_max_ms : double;
}.

(** The vectors and extremes of the first loop. *)
Record Tally : Type := mkTally {
  ty_tokens : Z;
  ty_with_tokens : Z;
  ty_ttft : list double;
  ty_itl : list double;
  ty_rates : list double;
  ty_min_submit : double;
  ty_max_last : double;
}.

Definition empty_tally : Tally := mkTally 0 0 [] [] [] (S754_infinity false) (S754_infinity true).

(** The gaps between consecutive token times, in milliseconds. *)
Fixpoint gaps_ms (t : list double) : list double :=
  match t with
  | a :: (b :: _) as t' => double_mul (double_sub b a) d1e3 :: gaps_ms t'
  | _ => []
  end.

Definition tally_trace (y : Tally) (tr : RequestTrace) : Tally :=
  let min_submit := double_min (ty_min_submit y) (submit_s tr) in
  let t := token_times_s tr in
  let tokens := ty_tokens y + zlen t in
  match head t, last t with
  | Some front, Some back =>
      let rates :=
        if (2 <=? zlen t) && double_lt front back
        then ty_rates y ++ [double_div (double_of_Z (zlen t - 1)) (double_sub back front)] else ty_rates y in
      mkTally tokens (ty_with_tokens y + 1)
        (ty_ttft y ++ [double_mul (double_sub front (submit_s tr)) d1e3]) (ty_itl y ++ gaps_ms t) rates
        min_submit (double_max (ty_max_last y) back)
  | _, _ => mkTally tokens (ty_with_tokens y) (ty_ttft y) (ty_itl y) (ty_rates y) min_submit (ty_max_last y)
  end.

Inductive stats_error : Type :=
  | NoTokens
  | NonPositiveWindow
  | StatsUndefined.

(** [std::minmax_element]: the first of the least, the last of the greatest. *)
Definition minmax (l : list double) : option (double * double) :=
  match l with
  | [] => None
  | x :: l' => Some (foldl (λ m v, if double_lt v m then v else m) x l', foldl (λ m v, if double_lt v m then m else v) x l')
  end.

Definition or_undefined {A} (o : option A) : outcome stats_error A :=
  match o with Some a => Ok a | None => Err StatsUndefined end.

(** The figures of the second half; [None] is an undefined access. *)
Definition figures (y : Tally) (step_ms : list double) (window : double) : option Summary :=
  ttft50 ← Percentile (ty_ttft y) d50;
  ttft99 ← Percentile (ty_ttft y) d99;
  itl ← (if is_nil (ty_itl y) then Some None else
           p50 ← Percentile (ty_itl y) d50; p99 ← Percentile (ty_itl y) d99; Some (Some (p50, p99)));
  rate ← (if is_nil (ty_rates y) then Some None else
            p50 ← Percentile (ty_rates y) d50; mm ← minmax (ty_rates y); Some (Some (p50, fst mm, snd mm)));
  let sum := foldl double_add (double_of_Z 0) step_ms in
  let mx := foldl double_max (double_of_Z 0) step_ms in
  step50 ← Percentile step_ms d50;
  step99 ← Percentile step_ms d99;
  Some (mkSummary window (ty_tokens y) (ty_with_tokens y) (double_div (double_of_Z (ty_tokens y)) window)
          ttft50 ttft99 itl rate step50 step99 (double_div sum (double_of_Z (zlen step_ms))) mx).

Definition Summarize (traces : list RequestTrace) (step_ms : list double) : outcome stats_error Summary :=
  let y := foldl tally_trace empty_tally traces in
  if ty_with_tokens y =? 0 then Err NoTokens else
  let window := double_sub (ty_max_last y) (ty_min_submit y) in
  if negb (double_lt (double_of_Z 0) window) then Err NonPositiveWindow else
  or_undefined (figures y step_ms window).

(** ** Sorting *)

Lemma insert_double_perm x l : insert_double x l ≡ₚ x :: l.
Proof. induction l as [|y l IH]; cbn; [done|]. destruct (double_lt y x); [|done]. rewrite IH. apply Permutation_swap. Qed.

Lemma sort_doubles_perm l : sort_doubles l ≡ₚ l.
Proof. induction l as [|x l IH]; cbn; [done|]. by rewrite insert_double_perm, IH. Qed.

(** ** The rounded product of a fraction and a count stays below the count *)

(** The cast of a value [m] 2^[e] that is at most [k]. *)
Lemma size_of_double_le m e k f : 0 <= f → - f <= e → Z.pos m * 2 ^ (e + f) <= k * 2 ^ f → k <= u64_max →
  ∃ low, size_of_double (S754_finite false m e) = Some low ∧ 0 <= low <= k.
Proof.
  intros Hf He Hle Hk. cbn [size_of_double].
  assert (∃ low, (if 0 <=? e then Z.pos m * 2 ^ e else Z.pos m / 2 ^ (- e)) = low ∧ 0 <= low <= k) as (low & -> & Hl).
  { eexists. split; [reflexivity|]. destruct (Z.leb_spec 0 e).
    - rewrite Z.pow_add_r, Z.mul_assoc in Hle by lia. pose proof (Z.pow_pos_nonneg 2 e ltac:(lia) ltac:(lia)).
      pose proof (Z.pow_pos_nonneg 2 f ltac:(lia) ltac:(lia)). nia.
    - pose proof (Z.pow_pos_nonneg 2 (- e) ltac:(lia) ltac:(lia)). split; [apply Z.div_pos; lia|].
      apply Z.div_le_upper_bound; [lia|]. pose proof (Z.pow_pos_nonneg 2 (e + f) ltac:(lia) ltac:(lia)).
      assert (2 ^ f = 2 ^ (- e) * 2 ^ (e + f)) as Heq by (rewrite <- Z.pow_add_r by lia; f_equal; lia).
      rewrite Heq in Hle. nia. }
  exists low. split; [|done]. by destruct (Z.leb_spec low u64_max); [|lia].
Qed.

(** [(p / 100.0) * k] for a percentile below 100, truncated. *)
Lemma rank_in_range mc k :
  Z.pos (digits2_pos mc) = 53 → 0 < k < 2 ^ 53 →
  ∃ low, size_of_double (double_mul (S754_finite false mc (-53)) (double_of_Z k)) = Some low ∧ 0 <= low <= k.
Proof.
  intros Hmc Hk. destruct (double_of_Z_exact k Hk) as (m & e & -> & Hm & He & Hv). unfold double_mul. cbn [SFmul xorb].
  pose proof (digits2_pos_upper mc) as Hcu. pose proof (digits2_pos_lower mc) as Hcl. rewrite Hmc in Hcu, Hcl.
  pose proof (digits2_pos_upper m) as Hmu. pose proof (digits2_pos_lower m) as Hml. rewrite Hm in Hmu, Hml.
  set (d := Z.pos (digits2_pos (mc * m))).
  assert (2 ^ 52 * 2 ^ 52 <= Z.pos (mc * m) < 2 ^ 53 * 2 ^ 53) as [HMl HMu].
  { rewrite Pos2Z.inj_mul. split; [apply Z.mul_le_mono_nonneg|apply Z.mul_lt_mono_nonneg]; lia. }
  assert (d <= 106) as Hd1 by (apply digits2_pos_le; lia).
  assert (53 <= d) as Hd2.
  { pose proof (digits2_pos_upper (mc * m)) as Hu. fold d in Hu. destruct (Z.le_gt_cases 53 d) as [|Hlt]; [done|].
    pose proof (Z.pow_le_mono_r 2 d 52 ltac:(lia) ltac:(lia)). lia. }
  destruct (round_below_bound (Z.pos (mc * m)) (-53 + e) (d - 53) (Z.pos m * 2 ^ (106 - d))) as (r & -> & Hr).
  { lia. } { cbn [Z.to_pos]. fold d. unfold fexp, emin. lia. } { lia. } { lia. }
  { rewrite <- Z.mul_assoc, <- Z.pow_add_r by lia. replace (106 - d + (d - 53)) with 53 by lia. nia. }
  destruct r as [|?| |sg m' e']; try done. { exists 0. split; [done|]. lia. }
  destruct Hr as (-> & He' & Hle). apply (size_of_double_le m' e' k (106 - d - e)); [lia|lia| |unfold u64_max; lia].
  replace (e' + (106 - d - e)) with (e' - (-53 + e + (d - 53))) by lia.
  etrans; [exact Hle|]. rewrite Hv, <- Z.mul_assoc, <- Z.pow_add_r by lia. apply Z.eq_le_incl. f_equal. f_equal. lia.
Qed.

(** ** The percentile rule is total *)

Lemma fraction_50 : double_div d50 d100 = S754_finite false 4503599627370496 (-53).
Proof. by vm_compute. Qed.
Lemma fraction_99 : double_div d99 d100 = S754_finite false 8917127262193582 (-53).
Proof. by vm_compute. Qed.

Lemma Percentile_is_Some values p :
  p = d50 ∨ p = d99 → values ≠ [] → zlen values <= 2 ^ 53 → is_Some (Percentile values p).
Proof.
  intros Hp Hne Hlen. unfold Percentile. pose proof (sort_doubles_perm values) as Hperm.
  assert (zlen (sort_doubles values) = zlen values) as Hz by (unfold zlen; by rewrite Hperm).
  assert (0 < zlen values) as Hpos by (destruct values; [done|]; unfold zlen; cbn; lia).
  destruct (sort_doubles values) as [|v [|v' l]] eqn:Hs; [rewrite zlen_nil in Hz; lia|done|].
  assert (1 < zlen values) as Hpos2 by (rewrite <- Hz, !zlen_cons; pose proof (zlen_nonneg l); lia). rewrite <- Hs in *. rewrite !Hz.
  assert (u64 (zlen values - 1) = zlen values - 1) as -> by (unfold u64; rewrite Z.mod_small; lia).
  assert (∃ low, size_of_double (double_mul (double_div p d100) (double_of_Z (zlen values - 1))) = Some low ∧ 0 <= low <= zlen values - 1)
    as (low & -> & Hl).
  { destruct Hp as [-> | ->]; [rewrite fraction_50; apply (rank_in_range 4503599627370496 _ eq_refl)|
      rewrite fraction_99; apply (rank_in_range 8917127262193582 _ eq_refl)]; lia. }
  cbn [mbind option_bind]. assert (u64 (low + 1) = low + 1) as -> by (unfold u64; rewrite Z.mod_small; lia).
  assert (∀ i, 0 <= i <= zlen values - 1 → is_Some (sort_doubles values !! Z.to_nat i)) as Hlk.
  { intros i Hi. apply lookup_lt_is_Some_2. unfold zlen in *. lia. }
  destruct (Hlk low Hl) as [a ->]. destruct (Hlk (Z.min (low + 1) (zlen values - 1)) ltac:(lia)) as [b ->]. cbn. by eexists.
Qed.

(** ** What the summary counts *)

Definition trace_tokens (tr : RequestTrace) : Z := zlen (token_times_s tr).
Definition has_tokens (tr : RequestTrace) : Prop := token_times_s tr ≠ [].
#[export] Instance has_tokens_dec tr : Decision (has_tokens tr).
Proof. unfold has_tokens. apply _. Defined.

Lemma gaps_ms_length t : zlen (gaps_ms t) = Z.max 0 (zlen t - 1).
Proof.
  induction t as [|a [|b t] IH]; [done|done|]. change (gaps_ms (a :: b :: t)) with (double_mul (double_sub b a) d1e3 :: gaps_ms (b :: t)).
  rewrite zlen_cons, IH, !zlen_cons. pose proof (zlen_nonneg t). lia.
Qed.

(** What the first loop adds up. *)
Record tallied (y0 : Tally) (traces : list RequestTrace) (y : Tally) : Prop := {
  tl_tokens : ty_tokens y = ty_tokens y0 + sumZ (map trace_tokens traces);
  tl_with : ty_with_tokens y = ty_with_tokens y0 + zlen (filter has_tokens traces);
  tl_ttft : zlen (ty_ttft y) = zlen (ty_ttft y0) + zlen (filter has_tokens traces);
  tl_itl : zlen (ty_itl y) = zlen (ty_itl y0) + sumZ (map (λ tr, Z.max 0 (trace_tokens tr - 1)) traces);
  tl_rates : zlen (ty_rates y) <= zlen (ty_rates y0) + zlen (filter has_tokens traces);
}.

Lemma tally_one y tr : tallied y [tr] (tally_trace y tr).
Proof.
  unfold tally_trace. pose proof (gaps_ms_length (token_times_s tr)) as Hg. split.
  all: cbn [map]; rewrite ?sumZ_cons, ?sumZ_nil; try change (trace_tokens tr) with (zlen (token_times_s tr)).
  all: destruct (token_times_s tr) as [|a t] eqn:Ht; [rewrite ?filter_cons_False by (intros Hn; by apply Hn)|
    rewrite ?filter_cons_True by (unfold has_tokens; by rewrite Ht)]; rewrite ?filter_nil; cbn [head last];
    try destruct (last_is_Some (a :: t)) as [_ [b Hb]]; try done.
  all: try (change (match t with [] => Some a | _ :: _ => last t end) with (last (a :: t)); rewrite Hb).
  all: cbn [ty_tokens ty_with_tokens ty_ttft ty_itl ty_rates]; zlen; try lia.
  destruct (_ && _); zlen; lia.
Qed.

Lemma tallied_app y0 l y1 k y2 : tallied y0 l y1 → tallied y1 k y2 → tallied y0 (l ++ k) y2.
Proof.
  intros [A1 A2 A3 A4 A5] [B1 B2 B3 B4 B5]. split; rewrite ?map_app, ?sumZ_app, ?filter_app; zlen; lia.
Qed.

Lemma tally_all traces : ∀ y, tallied y traces (foldl tally_trace y traces).
Proof.
  induction traces as [|tr traces IH]; intros y; [by split; cbn; zlen; lia|].
  change (tr :: traces) with ([tr] ++ traces). eapply tallied_app; [apply tally_one|apply IH].
Qed.

(** The wall window: last token of all against first submission of all. *)
Definition wall_window (traces : list RequestTrace) : double :=
  let y := foldl tally_trace empty_tally traces in double_sub (ty_max_last y) (ty_min_submit y).

Lemma figures_is_Some y step_ms w :
  ty_ttft y ≠ [] → zlen (ty_ttft y) <= 2 ^ 53 → zlen (ty_itl y) <= 2 ^ 53 → zlen (ty_rates y) <= 2 ^ 53 →
  step_ms ≠ [] → zlen step_ms <= 2 ^ 53 →
  ∃ s, figures y step_ms w = Some s ∧ total_new_tokens s = ty_tokens y ∧ requests_with_tokens s = ty_with_tokens y ∧
    wall_window_s s = w ∧ (is_Some (itl_ms s) ↔ ty_itl y ≠ []).
Proof.
  intros H1 H2 H3 H4 H5 H6. unfold figures.
  destruct (Percentile_is_Some (ty_ttft y) d50 ltac:(by left) H1 H2) as [? ->].
  destruct (Percentile_is_Some (ty_ttft y) d99 ltac:(by right) H1 H2) as [? ->]. cbn [mbind option_bind].
  assert (∃ itl, (if is_nil (ty_itl y) then Some None else
    p50 ← Percentile (ty_itl y) d50; p99 ← Percentile (ty_itl y) d99; Some (Some (p50, p99))) = Some itl ∧
    (is_Some itl ↔ ty_itl y ≠ [])) as (itl & -> & Hitl).
  { destruct (is_nil (ty_itl y)) eqn:Hn; [apply is_nil_true in Hn|apply is_nil_false in Hn].
    - exists None. split; [done|]. rewrite Hn. by split; [intros []|].
    - destruct (Percentile_is_Some (ty_itl y) d50 ltac:(by left) Hn H3) as [? ->].
      destruct (Percentile_is_Some (ty_itl y) d99 ltac:(by right) Hn H3) as [? ->]. eexists. by split. }
  assert (∃ rate, (if is_nil (ty_rates y) then Some None else
    p50 ← Percentile (ty_rates y) d50; mm ← minmax (ty_rates y); Some (Some (p50, fst mm, snd mm))) = Some rate) as (rate & ->).
  { destruct (is_nil (ty_rates y)) eqn:Hn; [by eexists|apply is_nil_false in Hn].
    destruct (Percentile_is_Some (ty_rates y) d50 ltac:(by left) Hn H4) as [? ->]. destruct (ty_rates y) as [|? ?]; [done|]. by eexists. }
  cbn [mbind option_bind]. destruct (Percentile_is_Some step_ms d50 ltac:(by left) H5 H6) as [? ->].
  destruct (Percentile_is_Some step_ms d99 ltac:(by right) H5 H6) as [? ->]. cbn [mbind option_bind]. eexists. by split_and!.
Qed.

Lemma sumZ_map_le {A} (f g : A → Z) l : (∀ x, f x <= g x) → sumZ (map f l) <= sumZ (map g l).
Proof. intros H. induction l as [|x l IH]; cbn [map]; rewrite ?sumZ_cons; [done|]. pose proof (H x). lia. Qed.

(** The summary never indexes outside a vector, however the rounding goes. *)
Lemma Summarize_run traces step_ms :
  step_ms ≠ [] → zlen step_ms <= 2 ^ 53 → sumZ (map trace_tokens traces) <= 2 ^ 53 →
  match Summarize traces step_ms with
  | Ok s => total_new_tokens s = sumZ (map trace_tokens traces) ∧
      requests_with_tokens s = zlen (filter has_tokens traces) ∧ 0 < requests_with_tokens s ∧
      wall_window_s s = wall_window traces ∧ double_lt (double_of_Z 0) (wall_window traces) = true ∧
      (is_Some (itl_ms s) ↔ ∃ tr, tr ∈ traces ∧ 2 <= trace_tokens tr)
  | Err NoTokens => ∀ tr, tr ∈ traces → token_times_s tr = []
  | Err NonPositiveWindow => double_lt (double_of_Z 0) (wall_window traces) = false
  | Err StatsUndefined => False
  end.
Proof.
  intros Hs Hs53 Ht53. unfold Summarize. fold (wall_window traces). set (y := foldl tally_trace empty_tally traces).
  destruct (tally_all traces empty_tally) as [H1 H2 H3 H4 H5]. fold y in H1, H2, H3, H4, H5.
  cbn [empty_tally ty_tokens ty_with_tokens ty_ttft ty_itl ty_rates] in *. rewrite !zlen_nil in *.
  assert (zlen (filter has_tokens traces) <= sumZ (map trace_tokens traces)) as Hwith.
  { clear. induction traces as [|tr traces IH]; [done|]. cbn [map]. rewrite sumZ_cons. pose proof (zlen_nonneg (token_times_s tr)).
    change (trace_tokens tr) with (zlen (token_times_s tr)). destruct (decide (has_tokens tr)) as [Hh|Hh].
    - rewrite filter_cons_True, zlen_cons by done. unfold has_tokens in Hh. destruct (token_times_s tr) as [|a t]; [done|].
      rewrite zlen_cons in *. pose proof (zlen_nonneg t). lia.
    - rewrite filter_cons_False by done. lia. }
  assert (sumZ (map (λ tr, Z.max 0 (trace_tokens tr - 1)) traces) <= sumZ (map trace_tokens traces)) as Hitl.
  { apply sumZ_map_le. intros tr. unfold trace_tokens. pose proof (zlen_nonneg (token_times_s tr)). lia. }
  pose proof (zlen_nonneg (filter has_tokens traces)) as Hnn.
  destruct (Z.eqb_spec (ty_with_tokens y) 0) as [Hz|Hz].
  { intros tr Hin. destruct (decide (has_tokens tr)) as [Hh|Hh]; [|by apply dec_stable in Hh].
    assert (tr ∈ filter has_tokens traces) as Hf by by apply list_elem_of_filter.
    destruct (filter has_tokens traces) as [|? l]; [by apply not_elem_of_nil in Hf|]. rewrite zlen_cons in *. pose proof (zlen_nonneg l). lia. }
  change (double_sub (ty_max_last y) (ty_min_submit y)) with (wall_window traces).
  destruct (double_lt (double_of_Z 0) (wall_window traces)) eqn:Hw; [|done]. cbn [negb].
  destruct (figures_is_Some y step_ms (wall_window traces)) as (s & -> & E1 & E2 & E3 & E4); try done; try lia.
  { intros Hn. rewrite Hn, zlen_nil in H3. lia. }
  cbn [or_undefined]. split_and!; [lia|lia|lia|done|done|]. rewrite E4. split.
  - intros Hn. destruct (decide (Exists (λ tr, 2 <= trace_tokens tr) traces)) as [He|He]; [by apply Exists_exists in He|].
    exfalso. apply not_Exists_Forall in He; [|apply _]. apply Hn. apply length_zero_iff_nil.
    assert (sumZ (map (λ tr, Z.max 0 (trace_tokens tr - 1)) traces) = 0) as Hzero; [|unfold zlen in *; lia].
    clear -He. induction He as [|tr l Htr _ IH]; [done|]. cbn [map]. rewrite sumZ_cons, IH. cbn in Htr. lia.
  - intros (tr & Hin & Htr) Hn. rewrite Hn, zlen_nil in H4.
    assert (Z.max 0 (trace_tokens tr - 1) <= sumZ (map (λ tr, Z.max 0 (trace_tokens tr - 1)) traces)); [|lia].
    apply sumZ_le; [|apply list_elem_of_fmap; by exists tr]. apply Forall_fmap, Forall_true. intros ?. cbn. lia.
Qed.
