(* ===== verification/BenchRun.v ===== *)
(** * The benchmark driver's run (bench_main.cpp)

    One warm-up request drained to completion, then the measured loop: submit
    while the engine has capacity, step, and record what every step reports,
    until all requests finished; then the metrics, the JSON file and the
    forced-length gate.  The engine is the one of [EngineBoot]; the clock, the
    file system and the printing of the report's document are parameters. *)

From S2P Require Import Prelude Doubles Types BlockAllocator Scheduler SchedulerInv SchedulerPlan SchedulerStep SchedulerLive SchedulerText SchedulerStream SchedulerTheorems ModelConfig GemmConfig Gemm GemmServe Json HalfFloat Uploader Safetensors SafetensorsIndex SafetensorsFormat Weights WeightsLoad Config ExecutorLayout ExecutorMirrors Launches Executor ExecutorInit ExecutorSteps ExecutorWarm Engine EngineSteps EngineSystem EngineBoot Workload BenchCli BenchStats.

(** The reasons [Fatal] is called with. *)
Inductive fatal : Type :=
  | UnknownWarmupId
  | WarmupIdle
  | UnknownRequestId
  | LostEmission
  | NoSummary (e : stats_error)
  | CannotOpenJson (path : string)
  | FailedJson (path : string).

Inductive bench_error : Type :=
  | BootThrew (e : boot_error)
  | EngineThrew (e : error)
  | Fatal (f : fatal)
  (** the JSON library's exception while printing the report *)
  | JsonThrew
  (** [traces\[i\]] outside the vector *)
  | TraceOutOfRange
  | BenchOutOfFuel.

Definition FinishReasonName (reason : FinishReason) : string :=
  match reason with kNone => "" | kEos => "eos" | kLength => "length" | kAborted => "aborted" end.

(** The derived engine options; everything else has the default of
    core/engine.hpp. *)
Definition needed_seq_len (opt : CliOptions) : Z := cl_prompt_len opt + cl_gen_len opt.
Definition bench_options (opt : CliOptions) : EngineOptions :=
  mkEngineOptions (cl_model_dir opt) (cl_kv_gb opt) (cl_max_batch opt) (cl_graphs opt)
    (if 2048 <? needed_seq_len opt then needed_seq_len opt else 2048) 1024 kReserveFull 0 "".

(** [duration<double>] and [duration<double, std::milli>] of nanoseconds. *)
Definition seconds (ns : Z) : double := double_div (double_of_Z ns) (double_of_Z 1000000000).
Definition milliseconds (ns : Z) : double := double_div (double_of_Z ns) (double_of_Z 1000000).

(** The local variables of [Run] in the measured phase, with the engine and the
    number of clock readings so far. *)
Record Bench (Algo D : Type) : Type := mkBench {
  b_engine : EngineState Algo D;
  b_ticks : nat;
  traces : list RequestTrace;
  index_by_id : gmap RequestId nat;
  step_ms : list double;
  b_submitted : Z;
  b_finished : Z;
}.
Arguments mkBench {Algo D}.
Arguments b_engine {Algo D}.
Arguments b_ticks {Algo D}.
Arguments traces {Algo D}.
Arguments index_by_id {Algo D}.
Arguments step_ms {Algo D}.
Arguments b_submitted {Algo D}.
Arguments b_finished {Algo D}.

Definition set_b_engine {Algo D} (v : EngineState Algo D) (b : Bench Algo D) := mkBench v (b_ticks b) (traces b) (index_by_id b) (step_ms b) (b_submitted b) (b_finished b).
Definition set_b_ticks {Algo D} v (b : Bench Algo D) := mkBench (b_engine b) v (traces b) (index_by_id b) (step_ms b) (b_submitted b) (b_finished b).
Definition set_traces {Algo D} v (b : Bench Algo D) := mkBench (b_engine b) (b_ticks b) v (index_by_id b) (step_ms b) (b_submitted b) (b_finished b).
Definition set_index {Algo D} v (b : Bench Algo D) := mkBench (b_engine b) (b_ticks b) (traces b) v (step_ms b) (b_submitted b) (b_finished b).
Definition set_step_ms {Algo D} v (b : Bench Algo D) := mkBench (b_engine b) (b_ticks b) (traces b) (index_by_id b) v (b_submitted b) (b_finished b).
Definition set_submitted {Algo D} v (b : Bench Algo D) := mkBench (b_engine b) (b_ticks b) (traces b) (index_by_id b) (step_ms b) v (b_finished b).
Definition set_finished {Algo D} v (b : Bench Algo D) := mkBench (b_engine b) (b_ticks b) (traces b) (index_by_id b) (step_ms b) (b_submitted b) v.

Definition submitted_trace (i t : Z) (epoch : Z) (tr : RequestTrace) : RequestTrace :=
  mkTrace (engine_id tr) i (seconds (t - epoch)) (token_times_s tr) (token_ids tr) (tr_finished tr) (tr_finish_reason tr).
Definition with_engine_id (i : RequestId) (tr : RequestTrace) : RequestTrace :=
  mkTrace i (workload_index tr) (submit_s tr) (token_times_s tr) (token_ids tr) (tr_finished tr) (tr_finish_reason tr).
Definition with_token (time : double) (t : TokenId) (tr : RequestTrace) : RequestTrace :=
  mkTrace (engine_id tr) (workload_index tr) (submit_s tr) (token_times_s tr ++ [time]) (token_ids tr ++ [t]) (tr_finished tr) (tr_finish_reason tr).
Definition with_finish (reason : string) (tr : RequestTrace) : RequestTrace :=
  mkTrace (engine_id tr) (workload_index tr) (submit_s tr) (token_times_s tr) (token_ids tr) true reason.

(** What one result adds to its request's trace. *)
Definition note_result (time : double) (res : StepResult) (tr : RequestTrace) : RequestTrace :=
  let tr := match sr_finish_reason res with kAborted => tr | _ => with_token time (Types.token res) tr end in
  if Types.finished res then with_finish (FinishReasonName (sr_finish_reason res)) tr else tr.

(** [throw]s of the engine become the driver's. *)
Definition rethrow {S A} (m : M error S A) : M bench_error S A := λ s,
  match m s with (Ok a, s') => (Ok a, s') | (Err e, s') => (Err (EngineThrew e), s') end.

(** ** The JSON file *)

(** What the report is made of. *)
Record BenchReport (Algo : Type) : Type := mkBenchReport {
  br_options : CliOptions;
  br_warmup_tokens : Z;
  br_traces : list RequestTrace;
  br_step_ms : list double;
  br_summary : Summary;
  br_stats : EngineStats;
  br_gemm : CublasLtGemm Algo;
}.
Arguments mkBenchReport {Algo}.

(** The file system and the JSON library: whether a path opens for writing, the
    text [j.dump(2)] of the report's document with its newline - [None] when the
    library throws, as it does on text that is not UTF-8 - and whether the
    stream is good after writing and flushing it. *)
Record JsonOut (Algo : Type) : Type := mkJsonOut {
  jo_open : string → bool;
  jo_dump : BenchReport Algo → option (list Z);
  jo_write : string → list Z → bool;
}.
Arguments jo_open {Algo}.
Arguments jo_dump {Algo}.
Arguments jo_write {Algo}.

Definition write_json {Algo} (out : JsonOut Algo) (path : string) (r : BenchReport Algo) : outcome bench_error () :=
  if String.eqb path "" then Ok () else
  if negb (jo_open out path) then Err (Fatal (CannotOpenJson path)) else
  match jo_dump out r with
  | None => Err JsonThrew
  | Some text => if jo_write out path text then Ok () else Err (Fatal (FailedJson path))
  end.

Section run.
Context {Algo D : Type} (c : ModelConfig) (xo : ExecutorOptions).
Context (lt : LtLibrary Algo) (dev : Device D) (dma : nat → nat).
Context (dump : Z → Z → Z → PrefillGemmMode → M error (Executor Algo D) ()).
Context (malloc : gmap RequestPtr Request → RequestPtr).
(** Successive readings of [steady_clock], in nanoseconds. *)
Context (clock : nat → Z).
Context (opt : CliOptions).
#[local] Instance ops : StepExecutor (Executor Algo D) := model_executor c xo lt dev dma dump.
Notation E := (EngineState Algo D).
Notation BM := (M bench_error (Bench Algo D)).

(** Nothing waiting and nothing running, by [engine.Stats()]. *)
Definition engine_idle (e : E) : bool :=
  let s := Stats total_blocks e in s_num_waiting s + s_num_running s =? 0.

(** ** Warm-up *)

Definition warmup_gen : Z := Z.min 8 (cl_gen_len opt).
Definition warmup_prompt : Z := Z.min (cl_prompt_len opt) (eo_max_seq_len (bench_options opt) - warmup_gen).

(** The result loop, on [warmup_tokens] and [warmup_done]. *)
Fixpoint warmup_results (warmup_id : RequestId) (results : list StepResult) (st : Z * bool) : outcome bench_error (Z * bool) :=
  match results with
  | [] => Ok st
  | res :: results' =>
      if negb (request_id res =? warmup_id) then Err (Fatal UnknownWarmupId) else
      let tokens := match sr_finish_reason res with kAborted => fst st | _ => fst st + 1 end in
      warmup_results warmup_id results' (tokens, snd st || Types.finished res)
  end.

Definition warmup_body (warmup_id : RequestId) (st : Z * bool) : M bench_error E (Z * bool + Z) :=
  if snd st then mret (inr (fst st)) else
  results ← rethrow Step;
  match warmup_results warmup_id results st with
  | Err e => throw e
  | Ok st' =>
      e ← get;
      if is_nil results && engine_idle e then throw (Fatal WarmupIdle) else mret (inl st')
  end.

Definition warmup_fuel : nat := Z.to_nat (warmup_prompt + warmup_gen + 2).

Definition warmup : M bench_error E Z :=
  warmup_id ← rethrow (AddRequest malloc (BuildPrompt (cl_seed opt) (u64 (cl_requests opt)) warmup_prompt) warmup_gen true []);
  loop BenchOutOfFuel warmup_fuel (warmup_body warmup_id) (0, false).

(** ** The measured loop *)

Definition Now : BM Z := λ b, (Ok (clock (b_ticks b)), set_b_ticks (S (b_ticks b)) b).
Definition on_engine {A} (m : M error E A) : BM A := zoom b_engine set_b_engine (rethrow m).

Definition on_trace (i : nat) (f : RequestTrace → RequestTrace) : BM () :=
  b ← get;
  match traces b !! i with
  | Some tr => put (set_traces (<[i := f tr]> (traces b)) b)
  | None => throw TraceOutOfRange
  end.

Definition submit_one (epoch : Z) : BM () :=
  b ← get;
  let i := b_submitted b in
  t ← Now;
  on_trace (Z.to_nat i) (submitted_trace i t epoch);;
  engine_id ← on_engine (AddRequest malloc (BuildPrompt (cl_seed opt) i (cl_prompt_len opt)) (cl_gen_len opt) (cl_ignore_eos opt) []);
  on_trace (Z.to_nat i) (with_engine_id engine_id);;
  modify (λ b, set_index (match index_by_id b !! engine_id with Some _ => index_by_id b | None => <[engine_id := Z.to_nat i]> (index_by_id b) end) b);;
  modify (λ b, set_submitted (b_submitted b + 1) b).

Definition submit_body (epoch : Z) (_ : ()) : BM (() + ()) :=
  b ← get;
  if (b_submitted b <? cl_requests opt) && HasCapacity (b_engine b) then submit_one epoch;; mret (inl ())
  else mret (inr ()).

Definition submit_fuel : nat := S (Z.to_nat (cl_requests opt)).

Definition record_result (time : double) (res : StepResult) : BM () :=
  b ← get;
  match index_by_id b !! request_id res with
  | None => throw (Fatal UnknownRequestId)
  | Some i =>
      on_trace i (note_result time res);;
      if Types.finished res then modify (λ b, set_finished (b_finished b + 1) b) else mret ()
  end.

Fixpoint record_results (time : double) (results : list StepResult) : BM () :=
  match results with [] => mret () | res :: results' => record_result time res;; record_results time results' end.

Definition pump_body (epoch : Z) (_ : ()) : BM (() + ()) :=
  b ← get;
  if negb (b_finished b <? cl_requests opt) then mret (inr ()) else
  loop BenchOutOfFuel submit_fuel (submit_body epoch) ();;
  t0 ← Now;
  results ← on_engine Step;
  t1 ← Now;
  modify (λ b, set_step_ms (step_ms b ++ [milliseconds (t1 - t0)]) b);;
  record_results (seconds (t1 - epoch)) results;;
  b ← get;
  if is_nil results && (b_finished b <? cl_requests opt) && engine_idle (b_engine b)
  then throw (Fatal LostEmission) else mret (inl ()).

(** One iteration per unit of work, and a last one that leaves. *)
Definition request_work : nat := Z.to_nat (cl_prompt_len opt + cl_gen_len opt).
Definition pump_fuel : nat := S (Z.to_nat (cl_requests opt) * request_work).

Definition pump : BM () :=
  epoch ← Now;
  loop BenchOutOfFuel pump_fuel (pump_body epoch) ().

Definition pump_start (e : E) : Bench Algo D := mkBench e 0 (replicate (Z.to_nat (cl_requests opt)) new_trace) ∅ [] 0 0.

(** ** The forced-length gate *)

Definition forced_length_ok (tr : RequestTrace) : bool :=
  tr_finished tr && String.eqb (tr_finish_reason tr) "length" && (zlen (token_times_s tr) =? cl_gen_len opt).
Definition violations (l : list RequestTrace) : Z := zlen (List.filter (λ tr, negb (forced_length_ok tr)) l).
Definition exit_status (l : list RequestTrace) : Z :=
  if cl_ignore_eos opt && (0 <? violations l) then 1 else 0.

(** The report of a finished run. *)
Definition report_of (warmup_tokens : Z) (b : Bench Algo D) (sum : Summary) : BenchReport Algo :=
  mkBenchReport opt warmup_tokens (traces b) (step_ms b) sum (Stats total_blocks (b_engine b)) (x_gemm (executor_ (b_engine b))).

End run.

(** [Run], from the machine the process starts on: the traces, the summary and
    the status it returns. *)
Definition Run {Algo D} {reader : JsonReader} (pf : Platform Algo D) (out : JsonOut Algo)
    (dump : Z → Z → Z → PrefillGemmMode → M error (Executor Algo D) ())
    (malloc : gmap RequestPtr Request → RequestPtr) (clock : nat → Z) (opt : CliOptions) (s : Machine) :
    outcome bench_error (list RequestTrace * Summary * Z) :=
  match Engine_boot pf (bench_options opt) s, checked_options (bench_options opt) with
  | (Ok (e, _), _), Ok xo =>
      let c := model_config_ e in
      match warmup c xo (pf_lt pf) (pf_dev pf) (pf_dma pf) dump malloc opt e with
      | (Ok warmup_tokens, e) =>
          match pump c xo (pf_lt pf) (pf_dev pf) (pf_dma pf) dump malloc clock opt (pump_start opt e) with
          | (Ok _, b) =>
              match Summarize (traces b) (step_ms b) with
              | Ok sum =>
                  match write_json out (cl_json_path opt) (report_of c xo (pf_lt pf) (pf_dev pf) (pf_dma pf) dump opt warmup_tokens b sum) with
                  | Ok _ => Ok (traces b, sum, exit_status opt (traces b))
                  | Err err => Err err
                  end
              | Err err => Err (Fatal (NoSummary err))
              end
          | (Err err, _) => Err err
          end
      | (Err err, _) => Err err
      end
  | (Err err, _), _ => Err (BootThrew err)
  | _, Err err => Err (BootThrew (Refused err))
  end.

(** [main]: the exit status, 1 for [Fatal] and for exceptions; [None] when the
    process aborts or the behaviour is undefined. *)
Definition main_status {Algo D} {reader : JsonReader} (strtod : string → option (conversion double)) (pf : Platform Algo D)
    (out : JsonOut Algo) (dump : Z → Z → Z → PrefillGemmMode → M error (Executor Algo D) ())
    (malloc : gmap RequestPtr Request → RequestPtr) (clock : nat → Z) (args : list string) (s : Machine) : option Z :=
  match ParseCli strtod args with
  | Err e => Some (cli_status e)
  | Ok opt =>
      if cl_selftest opt then Some 0 else
      match Run pf out dump malloc clock opt s with
      | Ok (_, _, status) => Some status
      | Err (BootThrew e) => if throws e then Some 1 else None
      | Err (EngineThrew e) => if is_exception e then Some 1 else None
      | Err (Fatal (NoSummary StatsUndefined)) => None
      | Err (Fatal _) | Err JsonThrew => Some 1
      | Err (TraceOutOfRange | BenchOutOfFuel) => None
      end
  end.
