(* ===== verification/BenchTheorems.v ===== *)
(** * What the benchmark driver's run guarantees

    The measured loop terminates with every request finished; under
    [--ignore-eos 1] each has exactly the requested length, so the gate is
    silent.  The proof follows one invariant through the submission loop, the
    step and the result loop, against the engine as its callers see it. *)

From S2P Require Import Prelude Doubles Types BlockAllocator Scheduler SchedulerInv SchedulerPlan SchedulerStep SchedulerLive SchedulerText SchedulerStream SchedulerTheorems ModelConfig GemmConfig Gemm GemmServe Json HalfFloat Uploader Safetensors SafetensorsIndex SafetensorsFormat Weights WeightsLoad Config ExecutorLayout ExecutorMirrors Launches Executor ExecutorInit ExecutorSteps ExecutorWarm Engine EngineSteps EngineSystem EngineClient EngineBoot Workload BenchCli BenchStats BenchRun.

(** ** The result loop as a function of the traces *)

Definition note_all (time : double) (idx : gmap RequestId nat) (res : list StepResult) (l : list RequestTrace) : list RequestTrace :=
  foldl (λ l x, match idx !! request_id x with Some k => alter (note_result time x) k l | None => l end) l res.

Definition count_finished (l : list RequestTrace) : Z := sumZ (map (λ tr, Z.b2z (tr_finished tr)) l).
Definition count_reported (res : list StepResult) : Z := sumZ (map (λ x, Z.b2z (Types.finished x)) res).

Lemma note_all_cons time idx x res l :
  note_all time idx (x :: res) l =
  note_all time idx res (match idx !! request_id x with Some k => alter (note_result time x) k l | None => l end).
Proof. done. Qed.

Lemma note_all_length time idx res : ∀ l, length (note_all time idx res l) = length l.
Proof.
  induction res as [|x res IH]; intros l; [done|]. rewrite note_all_cons. rewrite IH.
  destruct (idx !! _); [apply length_alter|done].
Qed.

Lemma note_all_other time idx res k : ∀ l, (∀ x, x ∈ res → idx !! request_id x ≠ Some k) → note_all time idx res l !! k = l !! k.
Proof.
  induction res as [|x res IH]; intros l Hn; [done|]. rewrite note_all_cons. rewrite IH by (intros; apply Hn; set_solver).
  destruct (idx !! request_id x) as [j|] eqn:Hj; [|done]. apply list_lookup_alter_ne. intros ->. by apply (Hn x ltac:(set_solver)).
Qed.

Lemma note_all_each time idx res k x : ∀ l,
  NoDup (map request_id res) → (∀ i j m, idx !! i = Some m → idx !! j = Some m → i = j) →
  x ∈ res → idx !! request_id x = Some k → note_all time idx res l !! k = note_result time x <$> l !! k.
Proof.
  induction res as [|y res IH]; intros l Hnd Hinj Hx Hk; [by apply not_elem_of_nil in Hx|]. rewrite note_all_cons.
  apply NoDup_cons in Hnd as [Hy Hnd]. apply elem_of_cons in Hx as [->|Hx].
  - rewrite Hk, note_all_other; [apply list_lookup_alter_eq|]. intros z Hz Hzk. apply Hy.
    rewrite (Hinj _ _ _ Hk Hzk). by apply list_elem_of_fmap_2.
  - rewrite (IH _ Hnd Hinj Hx Hk). destruct (idx !! request_id y) as [j|] eqn:Hj; [|done]. f_equal.
    apply list_lookup_alter_ne. intros ->. apply Hy. rewrite (Hinj _ _ _ Hj Hk). by apply list_elem_of_fmap_2.
Qed.

Lemma sumZ_alter {A} (g : A → Z) f l : ∀ k x, l !! k = Some x → sumZ (map g (alter f k l)) = sumZ (map g l) - g x + g (f x).
Proof.
  induction l as [|y l IH]; intros [|k] x Hk; try done.
  - injection Hk as ->. cbn [alter list_alter map]. rewrite !sumZ_cons. lia.
  - cbn [alter list_alter map]. change (list_alter f k l) with (alter f k l). rewrite !sumZ_cons, (IH k x Hk). lia.
Qed.

Lemma note_result_finished time x tr : tr_finished tr = false → tr_finished (note_result time x tr) = Types.finished x.
Proof. intros Hf. unfold note_result. by destruct (Types.finished x), (sr_finish_reason x). Qed.

(** Each result about a known, unfinished request of its own is counted. *)
Lemma note_all_count time idx res : ∀ l,
  NoDup (map request_id res) → (∀ i j m, idx !! i = Some m → idx !! j = Some m → i = j) →
  (∀ x, x ∈ res → ∃ k tr, idx !! request_id x = Some k ∧ l !! k = Some tr ∧ tr_finished tr = false) →
  count_finished (note_all time idx res l) = count_finished l + count_reported res.
Proof.
  unfold count_reported. induction res as [|y res IH]; intros l Hnd Hinj Hall; [cbn [map]; rewrite sumZ_nil, Z.add_0_r; done|].
  cbn [map]. rewrite sumZ_cons, note_all_cons. apply NoDup_cons in Hnd as [Hy Hnd].
  destruct (Hall y ltac:(set_solver)) as (k & tr & Hk & Htr & Hf). rewrite Hk, IH; [|done|done|].
  - unfold count_finished. rewrite (sumZ_alter _ _ _ _ _ Htr). cbn beta. rewrite (note_result_finished _ _ _ Hf), Hf. cbn [Z.b2z]. lia.
  - intros x Hx. destruct (Hall x ltac:(set_solver)) as (j & tr' & Hj & Htr' & Hf'). exists j, tr'. split; [done|]. split; [|done].
    rewrite list_lookup_alter_ne; [done|]. intros ->. apply Hy. rewrite (Hinj _ _ _ Hk Hj). by apply list_elem_of_fmap_2.
Qed.

Section results.
Context {Algo D : Type}.
Implicit Types b : Bench Algo D.

Lemma wp_on_trace i f b tr (Q : () → Bench Algo D → Prop) :
  traces b !! i = Some tr → Q () (set_traces (alter f i (traces b)) b) → wp (on_trace i f) Q b.
Proof.
  intros Hi HQ. unfold on_trace. wp_auto. rewrite Hi. apply wp_put. rewrite list_insert_alter.
  rewrite (list_alter_ext _ f _ (traces b)); [done|intros y Hy; congruence|done].
Qed.

Lemma wp_record_results time res : ∀ b (Q : () → Bench Algo D → Prop),
  (∀ x, x ∈ res → ∃ k, index_by_id b !! request_id x = Some k ∧ (k < length (traces b))%nat) →
  Q () (set_finished (b_finished b + count_reported res) (set_traces (note_all time (index_by_id b) res (traces b)) b)) →
  wp (record_results time res) Q b.
Proof.
  unfold count_reported. induction res as [|x res IH]; intros b Q Hk HQ; cbn [record_results map] in *.
  { apply wp_ret. rewrite Z.add_0_r in HQ. by destruct b. }
  destruct (Hk x ltac:(set_solver)) as (k & Hxk & Hlt). destruct (lookup_lt_is_Some_2 (traces b) k Hlt) as [tr Htr].
  unfold record_result. wp_step. wp_step. apply wp_get. rewrite Hxk. wp_step. eapply wp_on_trace; [exact Htr|]. cbn beta.
  rewrite sumZ_cons in HQ.
  assert (∀ b', index_by_id b' = index_by_id b → length (traces b') = length (traces b) →
    ∀ y, y ∈ res → ∃ j, index_by_id b' !! request_id y = Some j ∧ (j < length (traces b'))%nat) as Hnext.
  { intros b' Hi Hl y Hy. rewrite Hi, Hl. apply Hk. set_solver. }
  destruct (Types.finished x); wp_auto; apply IH; try (apply Hnext; [done|apply length_alter]).
  all: rewrite note_all_cons, Hxk in HQ; destruct b; cbn in *.
  - by rewrite <- Z.add_assoc.
  - exact HQ.
Qed.
End results.

(** The three answers of the stop rule. *)
Lemma stop_cases (so : SchedulerOptions) (r : Request) t :
  stop_rule so r t = kNone ∨ (stop_rule so r t = kEos ∧ ignore_eos r = false) ∨
  (stop_rule so r t = kLength ∧ noutput r + 1 = max_new_tokens r).
Proof.
  unfold stop_rule. case_bool_decide as H1; [right; left; by destruct H1|]. case_bool_decide as H2; [by right; right|by left].
Qed.

Section pump.
Context {Algo D : Type} (c : ModelConfig) (xo : ExecutorOptions) (bud : ExecutorMemoryBudget).
Context (lt : LtLibrary Algo) (dev : Device D) (dma : nat → nat).
Context (dump : Z → Z → Z → PrefillGemmMode → M error (Executor Algo D) ()).
Context (malloc : gmap RequestPtr Request → RequestPtr) (clock : nat → Z) (opt : CliOptions).
Notation eo := (bench_options opt).
Notation s := (MakeSchedulerOptions eo (cfg_eos_token_ids c)).
Notation served := (served c eo xo lt dev dma dump malloc).
Notation W := (request_work opt).
Implicit Types (e : EngineState Algo D) (b : Bench Algo D).

(** The options are in range, the tokens are in the vocabulary, and the pool
    holds at least one request of the workload. *)
Record workload_fits : Prop := {
  wf_ranges : cli_ranges opt;
  wf_vocab : 100000 <= vocab_size c;
  wf_blocks : BlocksForTokens (needed_seq_len opt) <= usable c xo;
}.

Context (Hs : serving_setup c eo xo bud lt dev) (Hmalloc : ∀ h, h !! malloc h = None) (Hw : workload_fits).
#[local] Instance bench_ops : StepExecutor (Executor Algo D) := model_executor c xo lt dev dma dump.

(** ** Requests of the workload *)

Lemma prompt_in_vocab seed i n : Forall (in_vocab c) (BuildPrompt seed i n).
Proof using Hw.
  eapply Forall_impl; [apply BuildPrompt_tokens|]. intros t Ht. cbn in Ht. pose proof (wf_vocab Hw). unfold in_vocab. lia.
Qed.

Lemma workload_acceptable i prompt mx ign :
  0 < zlen prompt → 0 < mx → zlen prompt + mx <= needed_seq_len opt →
  acceptable s (usable c xo) (new_request i prompt mx ign []).
Proof using Hw.
  intros Hp Hm Hn. destruct Hw as [_ _ Hb]. unfold acceptable, fits, nprompt. cbn [prompt_tokens max_new_tokens new_request admission_policy
    max_seq_len MakeSchedulerOptions bench_options eo_max_seq_len eo_admission_policy]. split_and!; [done|done| |].
  - destruct (Z.ltb_spec 2048 (needed_seq_len opt)); lia.
  - etrans; [apply (BlocksForTokens_mono _ (needed_seq_len opt)); lia|exact Hb].
Qed.

(** ** What the traces say about the engine *)

(** An unfinished trace follows its request. *)
Definition follows (tr : RequestTrace) (r : Request) : Prop :=
  output_tokens r = token_ids tr ∧ max_new_tokens r = cl_gen_len opt ∧ ignore_eos r = cl_ignore_eos opt ∧ forced_tokens r = [].

(** A finished one ended by length, with exactly the requested tokens, or at a
    stop token where those count. *)
Definition complete (tr : RequestTrace) : Prop :=
  0 < zlen (token_ids tr) <= cl_gen_len opt ∧
  (tr_finish_reason tr = "length"%string ∧ zlen (token_ids tr) = cl_gen_len opt ∨
   cl_ignore_eos opt = false ∧ tr_finish_reason tr = "eos"%string).

Definition timed (tr : RequestTrace) : Prop := zlen (token_times_s tr) = zlen (token_ids tr).

(** The trace of request [first] + [k], with [sub] requests submitted. *)
Inductive trace_ok e (first sub : Z) (k : nat) tr : Prop :=
  | trace_open r : Z.of_nat k < sub → tr_finished tr = false → on_record e (first + Z.of_nat k) r → follows tr r → trace_ok e first sub k tr
  | trace_done : Z.of_nat k < sub → tr_finished tr = true → complete tr → trace_ok e first sub k tr
  | trace_idle : sub <= Z.of_nat k → tr_finished tr = false → token_ids tr = [] → trace_ok e first sub k tr.

Record traces_ok e (first sub : Z) (l : list RequestTrace) : Prop := {
  to_timed k tr : l !! k = Some tr → timed tr;
  to_each k tr : l !! k = Some tr → trace_ok e first sub k tr;
  to_back i r : on_record e i r → ∃ k tr, i = first + Z.of_nat k ∧ Z.of_nat k < sub ∧ l !! k = Some tr ∧ tr_finished tr = false;
}.

Lemma on_record_fun e i r r' : on_record e i r → on_record e i r' → r = r'.
Proof using. intros (p & Hp & Hr) (q & Hq & Hr'). congruence. Qed.

(** A token report, seen by the trace. *)
Lemma noted_token time tr r r' x :
  timed tr → tr_finished tr = false → follows tr r → noutput r < max_new_tokens r → reported s r x r' →
  timed (note_result time x tr) ∧
  if Types.finished x then complete (note_result time x tr) else follows (note_result time x tr) r'.
Proof using.
  intros Ht Hf (Ho & Hm & Hi & Hfo) Hroom [t -> Htx|Hpol _ _]; [|done].
  pose proof (text_fields _ _ Htx) as (_ & _ & Ho' & Hf' & Hm' & Hi').
  assert (appended_token r t = t) as Hap by (unfold appended_token; by rewrite Hfo).
  assert (output_tokens (after_append r t) = token_ids tr ++ [t]) as Ha by (unfold after_append; cbn; by rewrite Hap, Ho).
  assert (timed (with_token time t tr)) as Ht'.
  { unfold timed in *. cbn. rewrite !zlen_app. rewrite Ht. done. }
  unfold note_result. cbn [sr_finish_reason Types.finished Types.token].
  pose proof (stop_cases s r t) as Hstop.
  assert (0 < zlen (token_ids tr ++ [t]) <= cl_gen_len opt) as Hbound.
  { unfold noutput in Hroom. rewrite Ho, Hm in Hroom. rewrite zlen_app. pose proof (zlen_nonneg (token_ids tr)). change (zlen [t]) with 1. lia. }
  destruct Hstop as [->|[[-> Hign]|[-> Hlen]]]; cbn [negb bool_decide].
  - rewrite bool_decide_true by done. cbn [negb]. split; [done|]. unfold follows. cbn. rewrite Ho', Hm', Hi', Hf', Ha. done.
  - rewrite bool_decide_false by done. cbn [negb]. split; [done|]. split; [exact Hbound|]. right. cbn. split; [congruence|done].
  - rewrite bool_decide_false by done. cbn [negb]. split; [done|]. split; [exact Hbound|]. left. cbn. split; [done|]. unfold noutput in Hlen.
    rewrite zlen_app. rewrite Ho, Hm in Hlen. exact Hlen.
Qed.

Definition index_ok (idx : gmap RequestId nat) (first sub : Z) : Prop :=
  ∀ i k, idx !! i = Some k ↔ i = first + Z.of_nat k ∧ Z.of_nat k < sub.

Lemma index_inj idx first sub i j k : index_ok idx first sub → idx !! i = Some k → idx !! j = Some k → i = j.
Proof using. intros H [-> _]%H [-> _]%H. done. Qed.

Notation step_client := (step_client c eo xo lt dev dma dump malloc).

(** A report finds its trace, which is still open. *)
Lemma report_known e res e' first sub l idx x :
  step_client e res e' → traces_ok e first sub l → index_ok idx first sub → x ∈ res →
  ∃ k tr r r', idx !! request_id x = Some k ∧ l !! k = Some tr ∧ tr_finished tr = false ∧
    request_id x = first + Z.of_nat k ∧ Z.of_nat k < sub ∧ timed tr ∧ follows tr r ∧ noutput r < max_new_tokens r ∧ reported s r x r' ∧
    if Types.finished x then ¬ ∃ r, on_record e' (request_id x) r else on_record e' (request_id x) r'.
Proof using.
  intros Hst [Ht He Hb] Hidx Hx. destruct (sc_each _ _ _ _ _ _ _ _ _ _ _ Hst x Hx) as (r & r' & Hr & Hrep & Hfin).
  destruct (Hb _ _ Hr) as (k & tr & Hi & Hk & Htr & Hf). exists k, tr, r, r'.
  split; [by apply Hidx|]. split_and!; try done; [by eapply Ht| |by apply (sc_room _ _ _ _ _ _ _ _ _ _ _ Hst _ _ Hr)].
  destruct (He k tr Htr) as [r0 _ _ Hr0 Hfo|_ Hf' _|Hs' _ _]; [|congruence|lia].
  rewrite <- Hi in Hr0. by rewrite (on_record_fun _ _ _ _ Hr Hr0).
Qed.

Lemma follows_text tr r r' : text r' = text r → follows tr r → follows tr r'.
Proof using. intros (_ & _ & E1 & E2 & E3 & E4)%text_fields (H1 & H2 & H3 & H4). unfold follows. by rewrite E1, E2, E3, E4. Qed.

Lemma traces_step e res e' first sub l idx time :
  step_client e res e' → traces_ok e first sub l → index_ok idx first sub →
  traces_ok e' first sub (note_all time idx res l).
Proof using.
  intros Hst Hok Hidx. pose proof Hok as [Ht He Hb]. pose proof (sc_once _ _ _ _ _ _ _ _ _ _ _ Hst) as Honce.
  assert (∀ k, (∃ x tr r r', x ∈ res ∧ request_id x = first + Z.of_nat k ∧ Z.of_nat k < sub ∧ l !! k = Some tr ∧
      note_all time idx res l !! k = Some (note_result time x tr) ∧ timed tr ∧ tr_finished tr = false ∧ follows tr r ∧
      noutput r < max_new_tokens r ∧ reported s r x r' ∧ if Types.finished x then ¬ ∃ r, on_record e' (request_id x) r else on_record e' (request_id x) r') ∨
    (first + Z.of_nat k ∉ map request_id res ∧ note_all time idx res l !! k = l !! k)) as Hcases.
  { intros k. destruct (decide (first + Z.of_nat k ∈ map request_id res)) as [Hin|Hn].
    - left. apply list_elem_of_fmap in Hin as (x & Hid & Hx).
      destruct (report_known _ _ _ _ _ _ _ _ Hst Hok Hidx Hx) as (j & tr & r & r' & Hj & Htr & Hf & Hidj & Hsub & Htm & Hfo & Hroom & Hrep & Hend).
      assert (j = k) as -> by lia. exists x, tr, r, r'. split_and!; try done.
      rewrite (note_all_each time idx res k x); [by rewrite Htr|done| |done|done]. intros a a' m. by eapply index_inj.
    - right. split; [done|]. apply note_all_other. intros x Hx [Hid _]%Hidx. apply Hn. rewrite <- Hid. by apply list_elem_of_fmap_2. }
  split.
  - intros k tr' Hk. destruct (Hcases k) as [(x & tr & r & r' & Hx & _ & _ & Htr & Hnote & Htm & Hf & Hfo & Hroom & Hrep & _)|[_ Heq]].
    + rewrite Hnote in Hk. injection Hk as <-. by eapply noted_token.
    + rewrite Heq in Hk. by eapply Ht.
  - intros k tr' Hk. destruct (Hcases k) as [(x & tr & r & r' & Hx & Hid & Hsub & Htr & Hnote & Htm & Hf & Hfo & Hroom & Hrep & Hend)|[Hn Heq]].
    + rewrite Hnote in Hk. injection Hk as <-. destruct (noted_token time tr r r' x Htm Hf Hfo Hroom Hrep) as [_ Hres].
      pose proof (note_result_finished time x tr Hf) as Hfin. destruct (Types.finished x).
      * by apply trace_done.
      * rewrite Hid in Hend. by apply (trace_open _ _ _ _ _ r').
    + rewrite Heq in Hk. destruct (He k tr' Hk) as [r Hsub Hf Hr Hfo|Hsub Hf Hc|Hsub Hf Hids]; [|by apply trace_done|by apply trace_idle].
      destruct (sc_rest _ _ _ _ _ _ _ _ _ _ _ Hst _ _ Hr Hn) as (r' & Hr' & Htx).
      apply (trace_open _ _ _ _ _ r'); try done. by eapply follows_text.
  - intros i r' Hr'. destruct (sc_new _ _ _ _ _ _ _ _ _ _ _ Hst _ _ Hr') as [r Hr].
    destruct (Hb _ _ Hr) as (k & tr & -> & Hsub & Htr & Hf).
    destruct (Hcases k) as [(x & tr' & r1 & r2 & Hx & Hid & _ & Htr' & Hnote & _ & _ & _ & _ & _ & Hend)|[_ Heq]].
    + exists k, (note_result time x tr'). split_and!; try done. assert (tr' = tr) as -> by congruence.
      rewrite (note_result_finished time x tr Hf). destruct (Types.finished x); [|done]. destruct Hend. rewrite Hid. by eexists.
    + exists k, tr. split_and!; try done. by rewrite Heq.
Qed.

Lemma count_step e res e' first sub l idx time :
  step_client e res e' → traces_ok e first sub l → index_ok idx first sub →
  count_finished (note_all time idx res l) = count_finished l + count_reported res.
Proof using.
  intros Hst Hok Hidx. apply note_all_count; [by apply Hst| |].
  - intros i j m. by eapply index_inj.
  - intros x Hx. destruct (report_known _ _ _ _ _ _ _ _ Hst Hok Hidx Hx) as (k & tr & _ & _ & Hk & Htr & Hf & _). by exists k, tr.
Qed.

(** ** Submission *)

(** An update that leaves the tokens and the finish alone. *)
Definition quiet (f : RequestTrace → RequestTrace) : Prop :=
  ∀ tr, token_times_s (f tr) = token_times_s tr ∧ token_ids (f tr) = token_ids tr ∧
    tr_finished (f tr) = tr_finished tr ∧ tr_finish_reason (f tr) = tr_finish_reason tr.

Lemma traces_quiet e first sub l f i : quiet f → traces_ok e first sub l → traces_ok e first sub (alter f i l).
Proof using.
  intros Hq [Ht He Hb]. assert (∀ k tr', alter f i l !! k = Some tr' → ∃ tr, l !! k = Some tr ∧ (tr' = tr ∨ tr' = f tr)) as Hlk.
  { intros k tr' Hk. destruct (decide (k = i)) as [->|Hne].
    - rewrite list_lookup_alter_eq in Hk. destruct (l !! i) as [tr|] eqn:Htr; [|done]. injection Hk as <-. exists tr. auto.
    - rewrite list_lookup_alter_ne in Hk by done. exists tr'. auto. }
  split.
  - intros k tr' Hk. destruct (Hlk k tr' Hk) as (tr & Htr & [-> | ->]); specialize (Ht k tr Htr); [done|].
    destruct (Hq tr) as (E1 & E2 & _). unfold timed in *. by rewrite E1, E2.
  - intros k tr' Hk. destruct (Hlk k tr' Hk) as (tr & Htr & [-> | ->]); [by apply He|]. destruct (Hq tr) as (E1 & E2 & E3 & E4).
    destruct (He k tr Htr) as [r H1 H2 H3 H4|H1 H2 H3|H1 H2 H3].
    + apply (trace_open _ _ _ _ _ r); [done|congruence|done|]. unfold follows in *. by rewrite E2.
    + apply trace_done; [done|congruence|]. unfold complete in *. by rewrite E2, E4.
    + apply trace_idle; [done|congruence..].
  - intros j r Hr. destruct (Hb j r Hr) as (k & tr & -> & Hk & Htr & Hf). destruct (decide (k = i)) as [->|Hne].
    + exists i, (f tr). rewrite list_lookup_alter_eq, Htr. split_and!; try done. destruct (Hq tr) as (_ & _ & E3 & _). congruence.
    + exists k, tr. by rewrite list_lookup_alter_ne.
Qed.

Lemma count_quiet l f i : quiet f → count_finished (alter f i l) = count_finished l.
Proof using.
  intros Hq. unfold count_finished. destruct (l !! i) as [tr|] eqn:Htr.
  - rewrite (sumZ_alter _ _ _ _ _ Htr). cbn beta. destruct (Hq tr) as (_ & _ & E3 & _). rewrite E3. lia.
  - f_equal. f_equal. apply list_eq. intros k. destruct (decide (k = i)) as [->|]; [by rewrite list_lookup_alter_eq, Htr|].
    by rewrite list_lookup_alter_ne.
Qed.

(** One more request on record under the next id. *)
Lemma traces_more e e' first sub l prompt :
  0 <= sub < zlen l →
  (∀ i r, on_record e' i r ↔ (i = first + sub ∧ r = new_request i prompt (cl_gen_len opt) (cl_ignore_eos opt) []) ∨ on_record e i r) →
  traces_ok e first sub l → traces_ok e' first (sub + 1) l.
Proof using.
  intros Hsub Hrec [Ht He Hb]. split; [done|..].
  - intros k tr Hk. destruct (He k tr Hk) as [r H1 H2 H3 H4|H1 H2 H3|H1 H2 H3].
    + apply (trace_open _ _ _ _ _ r); [lia|done| |done]. apply Hrec. by right.
    + by apply trace_done; [lia|..].
    + destruct (decide (Z.of_nat k = sub)) as [Heq|Hne]; [|apply trace_idle; [lia|done..]].
      apply (trace_open _ _ _ _ _ (new_request (first + Z.of_nat k) prompt (cl_gen_len opt) (cl_ignore_eos opt) [])); [lia|done| |].
      * apply Hrec. left. split; [lia|done].
      * unfold follows. cbn. by rewrite H3.
  - intros i r Hr. apply Hrec in Hr as [[-> _]|Hr].
    + destruct (lookup_lt_is_Some_2 l (Z.to_nat sub)) as [tr Htr]; [unfold zlen in *; lia|].
      exists (Z.to_nat sub), tr. split; [lia|]. split; [lia|]. split; [done|].
      by destruct (He _ tr Htr) as [r0 H1 _ _ _|H1 _ _|_ H2 _]; [lia|lia|].
    + destruct (Hb i r Hr) as (k & tr & -> & Hk & Htr & Hf). exists k, tr. split_and!; try done. lia.
Qed.

(** Fields of updated states. *)
Ltac bench_eval := cbv beta iota delta [b_engine b_ticks traces index_by_id step_ms b_submitted b_finished set_b_engine set_b_ticks
  set_traces set_index set_step_ms set_submitted set_finished] in *.

(** ** The invariant of the measured loop *)

Record pump_inv (first : Z) (w0 : nat) b : Prop := {
  pi_served : served (b_engine b);
  pi_next : next_request_id_ (b_engine b) = first + b_submitted b;
  pi_submitted : 0 <= b_submitted b <= cl_requests opt;
  pi_length : zlen (traces b) = cl_requests opt;
  pi_index : index_ok (index_by_id b) first (b_submitted b);
  pi_traces : traces_ok (b_engine b) first (b_submitted b) (traces b);
  pi_finished : b_finished b = count_finished (traces b);
  pi_stepped : step_ms b = [] → b_finished b = 0;
  pi_work : (length (step_ms b) + total_work (e_world (b_engine b)) + Z.to_nat (cl_requests opt - b_submitted b) * W <= w0)%nat;
}.

Context (first : Z) (w0 : nat) (Hfirst : 0 <= first) (Hids : first + cl_requests opt < 2 ^ 64 - 1).

Lemma needed_ranges : 1 <= cl_requests opt <= 1000000 ∧ 1 <= cl_prompt_len opt <= 100000000 ∧ 1 <= cl_gen_len opt <= 100000000.
Proof using Hw. by destruct (wf_ranges Hw). Qed.

Lemma wp_Now b (Q : Z → Bench Algo D → Prop) : (∀ t n, Q t (set_b_ticks n b)) → wp (Now clock) Q b.
Proof using. intros HQ. unfold Now, wp. apply HQ. Qed.

Lemma pump_inv_ticks b n : pump_inv first w0 b → pump_inv first w0 (set_b_ticks n b).
Proof using. by intros []. Qed.

Lemma wp_on_engine {A} (m : M error (EngineState Algo D) A) a e' b (Q : A → Bench Algo D → Prop) :
  m (b_engine b) = (Ok a, e') → Q a (set_b_engine e' b) → wp (on_engine m) Q b.
Proof using. intros Hm HQ. unfold on_engine, rethrow, wp, zoom. by rewrite Hm. Qed.

Lemma wp_submit_one epoch b :
  pump_inv first w0 b → b_submitted b < cl_requests opt →
  wp (submit_one malloc clock opt epoch) (λ _ b', pump_inv first w0 b' ∧ b_submitted b' = b_submitted b + 1 ∧ step_ms b' = step_ms b ∧ b_finished b' = b_finished b) b.
Proof using Hs Hmalloc Hw Hfirst Hids.
  intros [Hsv Hn Hsub Hlen Hidx Htr Hfin Hstep Hwork] Hlt. pose proof needed_ranges as (Hr1 & Hr2 & Hr3).
  set (i := b_submitted b) in *. set (prompt := BuildPrompt (cl_seed opt) i (cl_prompt_len opt)).
  assert (zlen prompt = cl_prompt_len opt) as Hpl by (apply BuildPrompt_length; lia).
  destruct (client_add c eo xo bud lt dev dma dump malloc Hs Hmalloc (b_engine b) prompt (cl_gen_len opt) (cl_ignore_eos opt) Hsv)
    as (e' & Hadd & Hsv' & Hn' & Hw' & Hrec); [lia|apply prompt_in_vocab|apply workload_acceptable; unfold needed_seq_len; lia|].
  destruct (lookup_lt_is_Some_2 (traces b) (Z.to_nat i)) as [tr Htr0]; [unfold zlen in *; lia|].
  unfold submit_one. wp_step. apply wp_get. fold i. wp_step. apply wp_Now. intros t n. wp_step.
  eapply wp_on_trace; [exact Htr0|]. wp_step. eapply wp_on_engine; [exact Hadd|]. wp_step. rewrite Hn.
  eapply wp_on_trace; [cbn; rewrite list_lookup_alter_eq, Htr0; reflexivity|]. wp_step. apply wp_modify. apply wp_modify.
  assert (index_by_id b !! (first + i) = None) as Hnone.
  { destruct (index_by_id b !! (first + i)) as [k|] eqn:Hk; [|done]. apply Hidx in Hk as [Hk1 Hk2]. unfold i in *. lia. }
  assert (quiet (submitted_trace i t epoch)) as Hq1 by done. assert (quiet (with_engine_id (first + i))) as Hq2 by done.
  destruct b as [e tk l idx sm sub fin]. cbn in *. subst i. rewrite Hnone. split; [|done].
  split; cbn [b_engine b_ticks traces index_by_id step_ms b_submitted b_finished set_b_engine set_b_ticks set_traces set_index set_submitted]; try done; try lia.
  - unfold zlen in *. by rewrite !length_alter.
  - intros j k. destruct (decide (j = first + sub)) as [->|Hne].
    + rewrite lookup_insert_eq. split; [intros [= <-]; lia|]. intros [H1 H2]. f_equal. lia.
    + rewrite lookup_insert_ne by done. rewrite (Hidx j k). split; intros [-> H2]; split; try done; lia.
  - apply traces_quiet, traces_quiet; [done..|]. eapply traces_more; [rewrite Hlen; lia| |exact Htr].
    intros j r. rewrite Hrec, Hn. done.
  - by rewrite !count_quiet.
  - rewrite Hw', Hpl. assert (Z.to_nat (cl_prompt_len opt + cl_gen_len opt) = W) as -> by done.
    assert (Z.to_nat (cl_requests opt - sub) = S (Z.to_nat (cl_requests opt - (sub + 1)))) as Heq by lia. rewrite Heq in Hwork. lia.
Qed.

Lemma wp_submit_loop epoch b :
  pump_inv first w0 b →
  wp (loop BenchOutOfFuel (submit_fuel opt) (submit_body malloc clock opt epoch) ())
    (λ _ b', (pump_inv first w0 b' ∧ step_ms b' = step_ms b ∧ b_finished b' = b_finished b) ∧
       (b_submitted b' = cl_requests opt ∨ HasCapacity (b_engine b') = false)) b.
Proof using Hs Hmalloc Hw Hfirst Hids.
  intros Hb. assert (∃ sm fin, step_ms b = sm ∧ b_finished b = fin) as (sm & fin & Hsm & Hfin) by by eexists _, _.
  rewrite Hsm, Hfin.
  apply (wp_loop _ (λ _ b', pump_inv first w0 b' ∧ step_ms b' = sm ∧ b_finished b' = fin) (λ _ b', Z.to_nat (cl_requests opt - b_submitted b'))); [|done|].
  2:{ unfold submit_fuel. destruct (pi_submitted _ _ _ Hb). lia. }
  clear b Hb Hsm Hfin. intros x b (Hb & Hsm & Hfin). unfold submit_body. wp_step. apply wp_get. pose proof (pi_submitted _ _ _ Hb) as Hsub.
  destruct (Z.ltb_spec (b_submitted b) (cl_requests opt)) as [Hlt|Hge]; cbn [andb].
  - destruct (HasCapacity (b_engine b)) eqn:Hcap; [|apply wp_ret; auto]. wp_step.
    eapply wp_mono; [by apply wp_submit_one|]. intros _ b' (Hb' & Hs' & Hsm' & Hf'). apply wp_ret. split; [split_and!; [done|congruence..]|]. lia.
  - apply wp_ret. split; [done|]. left. lia.
Qed.

Lemma count_open l : count_finished l < zlen l → ∃ k tr, l !! k = Some tr ∧ tr_finished tr = false.
Proof using.
  unfold count_finished. induction l as [|tr l IH]; [cbn; unfold zlen; cbn; lia|]. cbn [map]. rewrite sumZ_cons, zlen_cons.
  destruct (tr_finished tr) eqn:Hf; [|intros _; by exists 0%nat, tr]. cbn [Z.b2z]. intros H.
  destruct IH as (k & tr' & Hk & Hf'); [lia|]. by exists (S k), tr'.
Qed.

Lemma count_le l : count_finished l <= zlen l.
Proof using.
  unfold count_finished. induction l as [|tr l IH]; [done|]. cbn [map]. rewrite sumZ_cons, zlen_cons. destruct (tr_finished tr); cbn [Z.b2z]; lia.
Qed.

(** While requests are unfinished, the engine has one to work on. *)
Lemma pump_busy b :
  pump_inv first w0 b → b_submitted b = cl_requests opt ∨ HasCapacity (b_engine b) = false → b_finished b < cl_requests opt →
  ∃ i r, on_record (b_engine b) i r.
Proof using Hs Hmalloc.
  intros [Hsv Hn Hsub Hlen Hidx Htr Hfin Hstep Hwork] [Hall|Hfull] Hlt.
  - destruct (count_open (traces b)) as (k & tr & Hk & Hf); [lia|].
    destruct (to_each _ _ _ _ Htr k tr Hk) as [r _ _ Hr _|_ Hf' _|Hidle _ _]; [by eexists _, _|congruence|].
    apply lookup_lt_Some in Hk. unfold zlen in Hlen. lia.
  - apply (record_live c eo xo bud lt dev dma dump malloc Hs Hmalloc _ Hsv). by apply full_live.
Qed.

Lemma wp_pump_body epoch b :
  pump_inv first w0 b →
  wp (pump_body c xo lt dev dma dump malloc clock opt epoch ())
    (λ r b', match r with
             | inl _ => pump_inv first w0 b' ∧ (w0 - length (step_ms b') < w0 - length (step_ms b))%nat
             | inr _ => pump_inv first w0 b' ∧ b_finished b' = cl_requests opt
             end) b.
Proof using Hs Hmalloc Hw Hfirst Hids.
  intros Hb. unfold pump_body. wp_step. apply wp_get. destruct (Z.ltb_spec (b_finished b) (cl_requests opt)) as [Hlt|Hge]; cbn [negb].
  2:{ apply wp_ret. split; [done|]. pose proof (count_le (traces b)). destruct Hb. lia. }
  wp_step. eapply wp_mono; [by apply wp_submit_loop|]. intros _ b1 [(Hb1 & Hsm & Hf1) Hfull]. rewrite <- Hf1 in Hlt.
  pose proof (pump_busy b1 Hb1 Hfull Hlt) as Hbusy. rewrite <- Hsm. clear b Hb Hf1 Hsm. rename b1 into b.
  wp_step. apply wp_Now. intros t0 n0. wp_step. apply (pump_inv_ticks _ n0) in Hb1. set (b1 := set_b_ticks n0 b) in *.
  destruct (client_step c eo xo bud lt dev dma dump malloc Hs Hmalloc (b_engine b) (pi_served _ _ _ Hb1)) as (res & e' & Hrun & Hst).
  pose proof Hb1 as [Hsv Hn Hsub Hlen Hidx Htr Hfin Hstep Hwork].
  eapply wp_on_engine; [exact Hrun|]. wp_step. apply wp_Now. intros t1 n1. wp_step. apply wp_modify. wp_step.
  apply wp_record_results.
  { intros x Hx. destruct (report_known _ _ _ _ _ _ _ _ Hst Htr Hidx Hx) as (k & tr & _ & _ & Hk & Htrk & _).
    exists k. split; [done|]. by apply lookup_lt_Some in Htrk. }
  wp_step. apply wp_get. pose proof (sc_work _ _ _ _ _ _ _ _ _ _ _ Hst Hbusy) as Hdec.
  destruct b as [e tk l idx sm sub fin]. subst b1. cbn [b_engine b_ticks traces index_by_id step_ms b_submitted b_finished set_b_engine
    set_b_ticks set_traces set_step_ms set_finished] in *.
  destruct (_ && _ && _) eqn:Hidle.
  { exfalso. rewrite !andb_true_iff, is_nil_true in Hidle. destruct Hidle as [[-> _] Hidle]. unfold engine_idle in Hidle.
    cbn zeta in Hidle. rewrite idle_live in Hidle. destruct Hbusy as (i & r & Hr).
    destruct (sc_rest _ _ _ _ _ _ _ _ _ _ _ Hst i r Hr ltac:(apply not_elem_of_nil)) as (r' & Hr' & _).
    apply (record_live c eo xo bud lt dev dma dump malloc Hs Hmalloc e' (sc_served _ _ _ _ _ _ _ _ _ _ _ Hst)); [by eexists _, _|].
    apply Z.eqb_eq in Hidle. unfold zlen in Hidle. by apply length_zero_iff_nil; lia. }
  apply wp_ret. split; [|bench_eval; rewrite length_app; cbn [length]; lia]. split; bench_eval; try done.
  - apply Hst.
  - rewrite (sc_next _ _ _ _ _ _ _ _ _ _ _ Hst). done.
  - unfold zlen in *. by rewrite note_all_length.
  - by eapply traces_step.
  - rewrite (count_step _ _ _ _ _ _ _ _ Hst Htr Hidx), Hfin. done.
  - intros H%app_nil. by destruct H.
  - rewrite length_app. cbn [length]. lia.
Qed.

(** ** The measured phase from an idle engine *)

Lemma idle_work e : served e → (∀ i r, ¬ on_record e i r) → total_work (e_world e) = 0%nat.
Proof using Hs Hmalloc.
  intros Hsv Hn. assert (live (w_sched (e_world e)) = []) as Hl.
  { destruct (decide (live (w_sched (e_world e)) = [])) as [|Hl]; [done|].
    apply (record_live c eo xo bud lt dev dma dump malloc Hs Hmalloc e Hsv) in Hl as (i & r & Hr). by destruct (Hn i r). }
  unfold total_work. by rewrite Hl.
Qed.

Lemma pump_start_inv e :
  w0 = (Z.to_nat (cl_requests opt) * W)%nat →
  served e → next_request_id_ e = first → (∀ i r, ¬ on_record e i r) → pump_inv first w0 (pump_start opt e).
Proof using Hs Hmalloc Hw.
  intros Hw0 Hsv Hn Hno. pose proof needed_ranges as (Hr1 & _ & _).
  assert (∀ k tr, replicate (Z.to_nat (cl_requests opt)) new_trace !! k = Some tr → tr = new_trace) as Hlk
    by (intros k tr Hk; by apply lookup_replicate in Hk as [-> _]).
  unfold pump_start. split; bench_eval; try done; try lia.
  - unfold zlen. rewrite length_replicate. lia.
  - intros i k. rewrite lookup_empty. split; [done|]. intros [_ ?]. lia.
  - split.
    + intros k tr ->%Hlk. done.
    + intros k tr ->%Hlk. apply trace_idle; [lia|done|done].
    + intros i r Hr. by destruct (Hno i r).
  - assert (∀ n, count_finished (replicate n new_trace) = 0) as Hc; [|by rewrite Hc].
    intros n. unfold count_finished. induction n as [|n IH]; [done|]. cbn [replicate map]. by rewrite sumZ_cons, IH.
  - rewrite (idle_work e Hsv Hno), Z.sub_0_r. cbn [length]. lia.
Qed.

Lemma wp_pump e :
  w0 = (Z.to_nat (cl_requests opt) * W)%nat →
  served e → next_request_id_ e = first → (∀ i r, ¬ on_record e i r) →
  wp (pump c xo lt dev dma dump malloc clock opt) (λ _ b, pump_inv first w0 b ∧ b_finished b = cl_requests opt) (pump_start opt e).
Proof using Hs Hmalloc Hw Hfirst Hids.
  intros Hw0 Hsv Hn Hno. pose proof (pump_start_inv e Hw0 Hsv Hn Hno) as Hstart.
  unfold pump. wp_step. apply wp_Now. intros epoch n. apply (pump_inv_ticks _ n) in Hstart.
  apply (wp_loop _ (λ _ b, pump_inv first w0 b) (λ _ b, (w0 - length (step_ms b))%nat)); [|done|unfold pump_fuel; lia].
  intros x b Hb. eapply wp_mono; [by apply wp_pump_body|]. by intros [] b'.
Qed.

(** Every trace of a finished run is complete. *)
Lemma finished_complete b :
  pump_inv first w0 b → b_finished b = cl_requests opt →
  zlen (traces b) = cl_requests opt ∧
  Forall (λ tr, tr_finished tr = true ∧ complete tr ∧ timed tr) (traces b) ∧
  (length (step_ms b) <= w0)%nat ∧ (step_ms b = [] → b_finished b = 0).
Proof using.
  intros [Hsv Hn Hsub Hlen Hidx Htr Hfin Hstep Hwork] Hall. split; [done|]. split; [|split; [lia|done]]. apply Forall_lookup. intros k tr Hk.
  assert (tr_finished tr = true) as Hf.
  { rewrite Hfin, <- Hlen in Hall. clear -Hk Hall. revert k Hk. unfold count_finished in Hall. induction (traces b) as [|t l IH]; intros k Hk; [done|].
    cbn [map] in Hall. rewrite sumZ_cons, zlen_cons in Hall. pose proof (count_le l) as Hle. unfold count_finished in Hle.
    assert (tr_finished t = true ∧ sumZ (map (λ tr, Z.b2z (tr_finished tr)) l) = zlen l) as [Ht Hl]
      by (destruct (tr_finished t); cbn [Z.b2z] in Hall; split; lia || done).
    destruct k as [|k]; [by injection Hk as <-|by apply (IH Hl k)]. }
  split; [done|]. split; [|by eapply (to_timed _ _ _ _ Htr)].
  destruct (to_each _ _ _ _ Htr k tr Hk) as [r _ Hf' _ _|_ _ Hc|_ Hf' _]; [congruence|done|congruence].
Qed.

End pump.

(** ** The warm-up *)

Lemma wp_rethrow {S A} (m : M error S A) (Q : A → S → Prop) x a x' : m x = (Ok a, x') → Q a x' → wp (rethrow m) Q x.
Proof. unfold wp, rethrow. by intros ->. Qed.

(** A step reports at most the one request there is. *)
Lemma single_report (w : RequestId) (res : list StepResult) :
  NoDup (map request_id res) → (∀ x, x ∈ res → request_id x = w) → res = [] ∨ ∃ x, res = [x] ∧ request_id x = w.
Proof.
  intros Hnd Hall. destruct res as [|x [|y res]]; [by left|right; exists x; split; [done|apply Hall; set_solver]|].
  exfalso. apply NoDup_cons in Hnd as [Hx _]. apply Hx. cbn [map]. rewrite (Hall x), (Hall y) by set_solver. apply list_elem_of_here.
Qed.

Section warm.
Context {Algo D : Type} (c : ModelConfig) (xo : ExecutorOptions) (bud : ExecutorMemoryBudget).
Context (lt : LtLibrary Algo) (dev : Device D) (dma : nat → nat).
Context (dump : Z → Z → Z → PrefillGemmMode → M error (Executor Algo D) ()).
Context (malloc : gmap RequestPtr Request → RequestPtr) (opt : CliOptions).
Notation eo := (bench_options opt).
Notation s := (MakeSchedulerOptions eo (cfg_eos_token_ids c)).
Notation served := (served c eo xo lt dev dma dump malloc).
Implicit Types e : EngineState Algo D.
Context (Hs : serving_setup c eo xo bud lt dev) (Hmalloc : ∀ h, h !! malloc h = None) (Hw : workload_fits c xo opt).
#[local] Instance warm_ops : StepExecutor (Executor Algo D) := model_executor c xo lt dev dma dump.

(** The one request [w] on record, with [tokens] produced so far; or none, once
    it is done. *)
Record warm_inv (w : RequestId) (st : Z * bool) e : Prop := {
  wi_served : served e;
  wi_next : next_request_id_ e = w + 1;
  wi_only i r : on_record e i r → i = w;
  wi_state : if snd st then fst st = warmup_gen opt ∧ ∀ i r, ¬ on_record e i r
             else ∃ r, on_record e w r ∧ zlen (output_tokens r) = fst st ∧ max_new_tokens r = warmup_gen opt ∧
                    ignore_eos r = true ∧ forced_tokens r = [];
}.

Definition warm_measure (st : Z * bool) e : nat := if snd st then 0%nat else S (total_work (e_world e)).

Lemma wp_warmup_body w st e :
  warm_inv w st e →
  wp (warmup_body c xo lt dev dma dump w st)
    (λ r e', match r with
             | inl st' => warm_inv w st' e' ∧ (warm_measure st' e' < warm_measure st e)%nat
             | inr n => n = warmup_gen opt ∧ served e' ∧ next_request_id_ e' = w + 1 ∧ ∀ i r, ¬ on_record e' i r
             end) e.
Proof using Hs Hmalloc.
  intros [Hsv Hn Honly Hstate]. unfold warmup_body. destruct st as [n [|]]; cbn [fst snd] in *.
  { apply wp_ret. destruct Hstate as [-> Hno]. by split_and!. }
  destruct Hstate as (r & Hr & Hlen & Hmax & Hign & Hfo).
  destruct (client_step c eo xo bud lt dev dma dump malloc Hs Hmalloc e Hsv) as (res & e' & Hrun & Hst).
  assert (total_work (e_world e') < total_work (e_world e))%nat as Hdec by (apply Hst; by eexists _, _).
  assert (next_request_id_ e' = w + 1) as Hn' by (rewrite <- Hn; apply Hst).
  assert (∀ i r, on_record e' i r → i = w) as Honly'.
  { intros i r0 Hr0. destruct (sc_new _ _ _ _ _ _ _ _ _ _ _ Hst i r0 Hr0) as [r1 Hr1]. by apply (Honly i r1). }
  wp_step. eapply wp_rethrow; [exact Hrun|].
  destruct (single_report w res) as [-> |(x & -> & Hx)].
  { by apply Hst. }
  { intros x Hx. destruct (sc_each _ _ _ _ _ _ _ _ _ _ _ Hst x Hx) as (r0 & _ & Hr0 & _). by eapply Honly. }
  - cbn [warmup_results]. wp_step. apply wp_get.
    destruct (sc_rest _ _ _ _ _ _ _ _ _ _ _ Hst w r Hr ltac:(apply not_elem_of_nil)) as (r' & Hr' & Htx).
    destruct (_ && _) eqn:Hidle.
    { exfalso. cbn [is_nil andb] in Hidle. unfold engine_idle in Hidle. cbn zeta in Hidle. rewrite idle_live in Hidle.
      apply (record_live c eo xo bud lt dev dma dump malloc Hs Hmalloc e' (sc_served _ _ _ _ _ _ _ _ _ _ _ Hst)); [by eexists _, _|].
      apply Z.eqb_eq in Hidle. unfold zlen in Hidle. apply length_zero_iff_nil. lia. }
    apply wp_ret. split; [|unfold warm_measure; cbn [snd]; lia]. split; [apply Hst|done|done|]. cbn [fst snd]. exists r'.
    destruct (text_fields _ _ Htx) as (_ & _ & E1 & E2 & E3 & E4). rewrite E1, E2, E3, E4. done.
  - destruct (sc_each _ _ _ _ _ _ _ _ _ _ _ Hst x ltac:(apply list_elem_of_here)) as (r0 & r' & Hr0 & Hrep & Hend).
    rewrite Hx in Hr0, Hend. rewrite (on_record_fun _ _ _ _ Hr0 Hr) in Hrep. clear r0 Hr0.
    destruct Hrep as [t -> Htx|Hpol _ _]; [|done]. cbn [request_id Types.finished sr_finish_reason warmup_results] in *.
    rewrite Hx, Z.eqb_refl. cbn [negb fst snd orb].
    pose proof (text_fields _ _ Htx) as (_ & _ & Ho' & Hf' & Hm' & Hi').
    assert (zlen (output_tokens r') = n + 1) as Hlen' by (rewrite Ho'; unfold after_append; cbn; rewrite zlen_app, Hlen; done).
    assert (stop_rule s r t = kNone ∨ stop_rule s r t = kLength ∧ n + 1 = warmup_gen opt) as Hstop.
    { destruct (stop_cases s r t) as [|[[_ ?]|[? Hl]]]; [by left|congruence|]. right. split; [done|]. unfold noutput in Hl. lia. }
    destruct Hstop as [Hk|[Hk Hg]]; rewrite Hk in *.
    + rewrite bool_decide_true in * by done. cbn [negb is_nil andb] in *. wp_step. apply wp_get. apply wp_ret.
      split; [|unfold warm_measure; cbn [snd]; lia]. split; [apply Hst|done|done|]. cbn [fst snd]. exists r'.
      rewrite Hm', Hi', Hf'. done.
    + rewrite bool_decide_false in * by done. cbn [negb is_nil andb] in *. wp_step. apply wp_get. apply wp_ret.
      split; [|unfold warm_measure; cbn [snd]; lia]. split; [apply Hst|done|done|]. cbn [fst snd]. split; [done|].
      intros i r1 Hr1. pose proof (Honly' i r1 Hr1) as ->. apply Hend. by exists r1.
Qed.

Lemma warmup_lengths : 0 < warmup_gen opt ∧ warmup_prompt opt = cl_prompt_len opt ∧ warmup_gen opt <= cl_gen_len opt ∧ 0 < cl_prompt_len opt.
Proof using Hw.
  pose proof (needed_ranges c xo opt Hw) as (_ & Hp & Hg). unfold warmup_prompt, warmup_gen, needed_seq_len in *. cbn [eo_max_seq_len bench_options].
  unfold needed_seq_len. destruct (Z.ltb_spec 2048 (cl_prompt_len opt + cl_gen_len opt)); lia.
Qed.

(** The warm-up returns with the engine drained. *)
Lemma wp_warmup e :
  served e → next_request_id_ e < 2 ^ 64 - 1 → (∀ i r, ¬ on_record e i r) →
  wp (warmup c xo lt dev dma dump malloc opt)
    (λ n e', n = warmup_gen opt ∧ served e' ∧ next_request_id_ e' = next_request_id_ e + 1 ∧ ∀ i r, ¬ on_record e' i r) e.
Proof using Hs Hmalloc Hw.
  intros Hsv Hid Hno. destruct warmup_lengths as (Hg & Hp & Hgl & Hpl). unfold warmup.
  set (prompt := BuildPrompt _ _ _). assert (zlen prompt = cl_prompt_len opt) as Hlen by (unfold prompt; rewrite Hp; apply BuildPrompt_length; lia).
  destruct (client_add c eo xo bud lt dev dma dump malloc Hs Hmalloc e prompt (warmup_gen opt) true Hsv Hid)
    as (e' & Hadd & Hsv' & Hn' & Hw' & Hrec); [by apply (prompt_in_vocab c xo opt Hw)|apply (workload_acceptable c xo opt Hw); unfold needed_seq_len; lia|].
  wp_step. eapply wp_rethrow; [exact Hadd|].
  apply (wp_loop _ (λ st e0, warm_inv (next_request_id_ e) st e0) warm_measure).
  - intros st e0 He0. by apply wp_warmup_body.
  - split; [done|done| |].
    + intros i r [[-> _]|Hr]%Hrec; [done|by destruct (Hno i r)].
    + cbn [fst snd]. eexists. split; [apply Hrec; left; by split|]. done.
  - unfold warm_measure, warmup_fuel. cbn [snd]. rewrite Hw', (idle_work c xo bud lt dev dma dump malloc opt Hs Hmalloc e Hsv Hno). lia.
Qed.

End warm.

(** ** The whole run *)

(** What a run needs besides a directory that boots: options in range, and a
    pool that holds one request. *)
Record bench_fits (opt : CliOptions) (bud : ExecutorMemoryBudget) : Prop := {
  bf_ranges : cli_ranges opt;
  bf_blocks : BlocksForTokens (needed_seq_len opt) <= num_kv_blocks bud - 1;
}.

Lemma fits_workload {Algo D} {reader : JsonReader} (pf : Platform Algo D) s opt c exec bud model os :
  bootable pf s (bench_options opt) c exec bud model os → bench_fits opt bud → workload_fits c exec opt.
Proof.
  intros Hb [Hr Hk]. split; [done| |].
  - destruct Hb as [(cfg & gen & _ & _ & Hacc) _ _ _ _ _ _ _ _]. pose proof (accepted_geometry _ _ _ Hacc) as Hg.
    assert (vocab_size c = 151936) as -> by apply Hg. lia.
  - unfold usable. by rewrite (proj1 (setup_blocks _ _ _ _ _ _ (ba_setup _ _ _ _ _ _ _ _ Hb))).
Qed.

(** The totals of a complete record. *)
Lemma complete_totals opt l :
  Forall (λ tr, tr_finished tr = true ∧ complete opt tr ∧ timed tr) l →
  0 <= sumZ (map trace_tokens l) <= zlen l * cl_gen_len opt ∧
  (cl_ignore_eos opt = true → sumZ (map trace_tokens l) = zlen l * cl_gen_len opt ∧ violations opt l = 0) ∧
  (∀ tr, tr ∈ l → token_times_s tr ≠ []).
Proof.
  unfold violations. induction 1 as [|tr l (Hf & [Hb Hc] & Ht) _ IH]; [split_and!; try done; intros ? H; by apply not_elem_of_nil in H|].
  cbn [map List.filter]. rewrite sumZ_cons, zlen_cons. unfold timed in Ht.
  assert (trace_tokens tr = zlen (token_ids tr)) as Htt by done. rewrite Htt.
  destruct IH as (IH1 & IH2 & IH3). split; [lia|]. split.
  - intros Hi. destruct (IH2 Hi) as [E1 E2]. destruct Hc as [[Hr Hl]|[Hi' _]]; [|congruence].
    assert (forced_length_ok opt tr = true) as ->.
    { unfold forced_length_ok. rewrite Hf, Hr, Ht, Hl, Z.eqb_refl. done. }
    cbn [negb]. rewrite E2. split; [nia|done].
  - intros tr' [-> |Hin]%elem_of_cons; [|by apply IH3]. intros Hn. rewrite Hn, zlen_nil in Ht. lia.
Qed.

(** A run served in full: the record of every request and its total. *)
Record run_served (opt : CliOptions) (l : list RequestTrace) (sum : Summary) : Prop := {
  rs_length : zlen l = cl_requests opt;
  rs_complete : Forall (λ tr, tr_finished tr = true ∧ complete opt tr) l;
  rs_total : total_new_tokens sum = sumZ (map trace_tokens l);
  rs_forced : cl_ignore_eos opt = true → total_new_tokens sum = cl_requests opt * cl_gen_len opt;
}.

(** How a run ends after its summary: with status 0 when no file is asked for or
    it is written, else with the reason it is not. *)
Definition json_end {A} (written : outcome bench_error ()) (r : A) : outcome bench_error (A * Z) :=
  match written with Ok _ => Ok (r, 0) | Err e => Err e end.

Lemma Run_run {Algo D} (reader : JsonReader) (pf : Platform Algo D) out s opt c exec bud model os dump malloc clock :
  reader_ok reader → platform_ok pf s → bootable pf s (bench_options opt) c exec bud model os →
  (∀ h, h !! malloc h = None) → bench_fits opt bud →
  (∃ n b sum, run_served opt (traces b) sum ∧ Run pf out dump malloc clock opt s =
     json_end (write_json out (cl_json_path opt) (report_of c exec (pf_lt pf) (pf_dev pf) (pf_dma pf) dump opt n b sum)) (traces b, sum)) ∨
  Run pf out dump malloc clock opt s = Err (Fatal (NoSummary NonPositiveWindow)).
Proof.
  intros Hr Hp Hb Hm Hf. pose proof (fits_workload _ _ _ _ _ _ _ _ Hb Hf) as Hw. pose proof (ba_setup _ _ _ _ _ _ _ _ Hb) as Hs.
  destruct (bootable_boots reader pf s (bench_options opt) c exec bud model os dump malloc Hr Hp Hb)
    as (e & w & s' & Hboot & _ & Hc & Hsv & Hreq & Hn).
  unfold Run. rewrite Hboot, (ba_options _ _ _ _ _ _ _ _ Hb), Hc.
  assert (∀ i r, ¬ on_record e i r) as Hno by (intros i r (p & Hlk & _); by rewrite Hreq, lookup_empty in Hlk).
  pose proof (needed_ranges c exec opt Hw) as (R1 & R2 & R3).
  destruct (proj1 (wp_run _ _ _) (wp_warmup c exec bud (pf_lt pf) (pf_dev pf) (pf_dma pf) dump malloc opt Hs Hm Hw e Hsv
    ltac:(rewrite Hn; lia) Hno)) as (n & e1 & -> & _ & Hsv1 & Hn1 & Hno1).
  destruct (proj1 (wp_run _ _ _) (wp_pump c exec bud (pf_lt pf) (pf_dev pf) (pf_dma pf) dump malloc clock opt Hs Hm Hw 2 _ ltac:(lia)
    ltac:(lia) e1 eq_refl Hsv1 ltac:(rewrite Hn1, Hn; done) Hno1)) as ([] & b & -> & Hinv & Hfin).
  apply finished_complete in Hinv as (Hlen & Hall & Hsteps & Hstepped); [|exact Hfin].
  destruct (complete_totals opt (traces b) Hall) as (Htot & Hign & Hne). rewrite Hlen in Htot, Hign.
  assert (traces b ≠ []) as Htr by (intros Hnil; rewrite Hnil, zlen_nil in Hlen; lia).
  assert (zlen (step_ms b) <= 2 ^ 53) as Hsm.
  { unfold request_work in Hsteps. unfold zlen. nia. }
  assert (step_ms b ≠ []) as Hsne.
  { intros Hnil. specialize (Hstepped Hnil). lia. }
  pose proof (Summarize_run (traces b) (step_ms b) Hsne Hsm ltac:(nia)) as Hsum.
  destruct (Summarize (traces b) (step_ms b)) as [sum|[| |]]; [|exfalso|by right|done].
  - destruct Hsum as (Htn & _). left. exists n, b, sum. split.
    + split; [done| |done|intros Hi; rewrite Htn; by apply Hign].
      eapply Forall_impl; [exact Hall|]. intros tr (? & ? & _). done.
    + assert (exit_status opt (traces b) = 0) as ->; [|done].
      unfold exit_status. destruct (cl_ignore_eos opt); [|done]. by destruct (Hign eq_refl) as [_ ->].
  - destruct (traces b) as [|tr l]; [done|]. apply (Hne tr ltac:(apply list_elem_of_here)). apply Hsum, list_elem_of_here.
Qed.

(** C11. A benchmark run terminates, with every request served in full.  For an
    accepted command line, a directory that boots and a pool that holds one
    request of the workload: warm-up and measured loop return within their fuel
    (one iteration per unit of work), no result is lost or unknown, every request
    finishes with at least one and at most the requested tokens, under
    [--ignore-eos 1] exactly that many by length, so the gate finds no violation;
    the summary's total is the number of tokens recorded.  The process exits with
    0 when no JSON file is asked for or the report is written to it; with 1 when
    the file does not open, the report does not print (text that is not UTF-8)
    or the write fails.  The one other end is a clock that did not advance
    between the first submission and the last token: the summary refuses it, and
    the status is 1. *)
Theorem benchmark_run_completes {Algo D} (reader : JsonReader) strtod (pf : Platform Algo D) out s args opt c exec bud model os dump malloc clock :
  ParseCli strtod args = Ok opt → cl_selftest opt = false →
  reader_ok reader → platform_ok pf s → bootable pf s (bench_options opt) c exec bud model os →
  (∀ h, h !! malloc h = None) → BlocksForTokens (needed_seq_len opt) <= num_kv_blocks bud - 1 →
  let run := Run pf out dump malloc clock opt s in
  let status := main_status strtod pf out dump malloc clock args s in
  (∃ n b sum, run_served opt (traces b) sum ∧
     let path := cl_json_path opt in let r := report_of c exec (pf_lt pf) (pf_dev pf) (pf_dma pf) dump opt n b sum in
     (run = Ok (traces b, sum, 0) ∧ status = Some 0 ∧
        (path = ""%string ∨ jo_open out path = true ∧ ∃ text, jo_dump out r = Some text ∧ jo_write out path text = true) ∨
      status = Some 1 ∧ path ≠ ""%string ∧
        (run = Err (Fatal (CannotOpenJson path)) ∧ jo_open out path = false ∨
         run = Err JsonThrew ∧ jo_open out path = true ∧ jo_dump out r = None ∨
         run = Err (Fatal (FailedJson path)) ∧ jo_open out path = true ∧ ∃ text, jo_dump out r = Some text ∧ jo_write out path text = false))) ∨
  (run = Err (Fatal (NoSummary NonPositiveWindow)) ∧ status = Some 1).
Proof.
  intros Hcli Hst Hr Hp Hb Hm Hk run status. pose proof (ParseCli_ranges _ _ _ Hcli) as [Hrange _].
  pose proof (Run_run reader pf out s opt c exec bud model os dump malloc clock Hr Hp Hb Hm ltac:(by split)) as H.
  unfold status, main_status. rewrite Hcli, Hst. fold run in H |- *. destruct H as [(n & b & sum & Hs & Heq)|Heq]; [left|right; by rewrite Heq].
  exists n, b, sum. split; [done|]. cbv zeta. rewrite Heq. unfold json_end, write_json.
  destruct (String.eqb_spec (cl_json_path opt) "") as [He|Hne]; [left; split_and!; [done|done|by left]|].
  destruct (jo_open out (cl_json_path opt)) eqn:Ho; cbn [negb]; [|right; split_and!; [done|done|by left]].
  destruct (jo_dump out (report_of c exec (pf_lt pf) (pf_dev pf) (pf_dma pf) dump opt n b sum)) as [text|] eqn:Hd; [|right; split_and!; [done|done|right; by left]].
  destruct (jo_write out (cl_json_path opt) text) eqn:Hwr.
  - left. split_and!; [done|done|right]. split; [done|]. by exists text.
  - right. split_and!; [done|done|right; right]. split_and!; [done|done|]. by exists text.
Qed.

Module BenchExample.

(** Two requests of five tokens in and three out, on the directory of zeros. *)
Definition args : list string :=
  ["--model"; "m"; "--max-batch"; "4"; "--requests"; "2"; "--prompt-len"; "5"; "--gen-len"; "3"]%string.
Definition opt : CliOptions := mkCliOptions "m" (double_of_Z 1) 4 2 5 3 true true 0 "" false false.
Definition xopts : ExecutorOptions := mkExecutorOptions (2 ^ 30) 4 2048 1024 true 0 "".
Definition budget : ExecutorMemoryBudget :=
  match ComputeBudget qwen25 xopts with Ok b => b | Err _ => mkBudget 0 0 0 0 0 0 end.

Lemma bench_setup : serving_setup qwen25 (bench_options opt) xopts budget WorkingExample.lib EngineExample.dev.
Proof.
  split; try by vm_compute.
  - apply WorkingExample.lib_serves.
  - exact EngineExample.dev_in_vocab.
Qed.

End BenchExample.

Lemma benchmark_run_completes_witness :
  let strtod := λ _ : string, None in
  let clock := λ k : nat, 1000 * Z.of_nat k in
  let dump := λ _ _ _ _, mret () in
  let out := mkJsonOut _ (λ _, false) (λ _, None) (λ _ _, false) in
  main_status (reader:=ZeroExample.reader) strtod ZeroExample.platform out dump EngineExample.malloc clock BenchExample.args BootExample.machine =
    Some 0 ∨
  main_status (reader:=ZeroExample.reader) strtod ZeroExample.platform out dump EngineExample.malloc clock BenchExample.args BootExample.machine =
    Some 1.
Proof.
  intros strtod clock dump out. destruct ZeroExample.opened_model as (f & Hopen & Hhead & Hload).
  destruct (benchmark_run_completes ZeroExample.reader strtod ZeroExample.platform out BootExample.machine BenchExample.args BenchExample.opt
    ZeroExample.config BenchExample.xopts BenchExample.budget (mkSafetensorsModel [f] (tensors_ f)) (add_mappings 1 (mkOs 0 0)) dump
    EngineExample.malloc clock) as [(n & b & sum & _ & [(_ & H & _)|(_ & Hpath & _)])|[_ H]].
  - by vm_compute.
  - exact eq_refl.
  - exact ZeroExample.zero_reader_ok.
  - apply BootExample.platform_is_ok.
  - split.
    + exact ZeroExample.configured_dir.
    + by vm_compute.
    + exact Hopen.
    + exact Hload.
    + exists 256. exact eq_refl.
    + rewrite Hhead. change (pf_mem_free ZeroExample.platform) with (Some (6 * 2 ^ 30)). by vm_compute.
    + exact (conj eq_refl eq_refl).
    + exact eq_refl.
    + exact (λ _, eq_refl).
    + exact (conj eq_refl (λ _, eq_refl)).
    + exact BenchExample.bench_setup.
  - exact EngineExample.malloc_fresh.
  - by vm_compute.
  - left. exact H.
  - by destruct Hpath.
  - right. exact H.
Defined.
